(* ===== verification/_CoqProject ===== *)
-Q . S2P
Prelude.v
Spec.v
Dialect.v
DialectGuarantees.v
Overview.v
Json.v
BrokerRecord.v
StartFence.v
StartFenceGuarantees.v
BrokerStore.v
BrokerLifecycle.v
BrokerSpec.v
BrokerGuarantees.v
BrokerWitnesses.v
BrokerPlacer.v
BrokerPlacerSafety.v
BrokerPlacerWitnesses.v
PlacementPolicy.v
PlacementGuarantees.v
PlacementWitnesses.v
Admission.v
Drain.v
DrainGuarantees.v
DaemonCore.v
Dispatch.v
DaemonLogic.v
DispatchSafety.v
DispatchGuarantees.v
DrainDispatch.v
Launch.v
Reap.v
LaunchSafety.v
LaunchGuarantees.v
Recovery.v
RecoveryLogic.v
RecoveryGuarantees.v
RecoveryRetry.v
DaemonWitnesses.v
RecoveryWitnesses.v
DrainWitnesses.v
Control.v
ControlGuarantees.v
ControlRecovery.v
SchedulerReap.v
SchedulerReapLogic.v
SchedulerReapGuarantees.v
SchedulerReapWitnesses.v
SchedulerPoll.v
SchedulerPollGuarantees.v
SchedulerPollWitnesses.v
Watchdog.v
WatchdogGuarantees.v
HostWatch.v
HostWatchGuarantees.v
ControlWitnesses.v
Relay.v
RelayOps.v
RelayLogic.v
RelayGuarantees.v
RelayResults.v
GatewayKeys.v
CredentialGuarantees.v
Connector.v
ConnectorGuarantees.v
RelayWitnesses.v
Uploads.v
UploadGuarantees.v
GatewayJobs.v
GatewayJobGuarantees.v
ConnectorPush.v
GatewayWitnesses.v
