(* ===== verification/Prelude.v ===== *)
(** * vq: a verification development

    vq queues jobs on hosts.  A daemon on each host owns a directory of job
    rows (one JSON [JobSpec] per job), dispatches pending jobs to local
    processes, managed containers and batch schedulers, watches and reaps
    them; operators change rows and policies from other processes; a broker
    accepts jobs centrally and transfers each to one host; a gateway takes
    archives and submissions from clients with keys, and hands them to the
    broker beside it or, over a connector that makes only outbound requests,
    to one elsewhere.  This library models that core as executable
    definitions and proves what makes it correct.  Source files below are
    under [src/src/vq/].

    ** The parts, and where they are

    - [Prelude]: results, the state-and-exception monad [eff], floats, strings,
      stable sorting, folds.  [Json]: JSON values.
    - [Spec] ([spec.py]): job states, validators, exit codes, the fields of
      [JobSpec] the modelled code uses and their assignments.
    - [Overview] ([overview.py]): broker_host_blocker, place_broker_job,
      recommend_host.
    - Broker.  [BrokerRecord]: records, their JSON, parser and consistency
      test; [BrokerStore]: every transition of [broker_store.py] over three
      directories with I/O faults and a busy lock; [BrokerPlacer]
      ([broker_placement.py]): placement, recovery and the FIFO pass, with
      other processes between its accesses.  [BrokerSpec] is the abstract job
      machine, [BrokerLifecycle] the relation between the two,
      [BrokerGuarantees] and [BrokerPlacerSafety] the theorems,
      [BrokerWitnesses] and [BrokerPlacerWitnesses] concrete runs.
      [PlacementPolicy] ([placement_policy.py], [broker_completion.py]): the
      completion-time planner and the broker's re-ranking with it, with
      [PlacementGuarantees] and [PlacementWitnesses].
    - Policies.  [Admission] ([admission.py], [scheduler_admission.py],
      [capacity.py], parts of [daemon.py]): dependency gates, retry backoff,
      the drain's caps, the scheduler admission ledger, the fair dispatch
      order.  [Drain] ([drain.py]): the legacy drain document and the lease
      store, with [DrainGuarantees] and [DrainDispatch], the composition with
      the dispatch pass.
    - The daemon ([daemon.py]).  [DaemonCore]: its in-memory tracking and the
      shared queue; [Dispatch]: _dispatch_pending; [Launch]: _start_job with
      local claims, containers and the two-phase scheduler submission;
      [Reap]: _record_finish, _maybe_retry, _reconcile_running and the
      survivors.  [DaemonLogic], [DispatchSafety] and [LaunchSafety] are the
      program logic and invariants, [DispatchGuarantees] and
      [LaunchGuarantees] the theorems.  The dispatch pass is proved against
      the class [Launcher] with its laws [LauncherOk]; [vq_launcher] is the
      daemon's own launcher and [vq_launcher_ok] discharges them.  The
      launcher uses the recovery of lost submissions through the class
      [SubmitRecovery]; [vq_recovery_ok] and [daemon_launcher_ok] put the
      daemon's recovery and scheduler pass in their places.
    - Batch schedulers.  [Dialect] ([scheduler_dialect.py]): what the output
      of Torque and Slurm says, with [DialectGuarantees].  [StartFence]
      ([scheduler_start_fence.py]): the fence against a job that starts late,
      with [StartFenceGuarantees].  [Recovery] ([daemon.py], parts of
      [scheduler_dispatch.py]): uncertain submissions, reattachment and their
      retries; [RecoveryLogic] the machine of a submission and the calculus of
      triples, [RecoveryGuarantees] and [RecoveryRetry] the theorems.
      [SchedulerReap]: _reconcile_scheduler_pass, from an observation to the
      verdict; [SchedulerReapLogic] the steps it may take and their evidence,
      [SchedulerReapGuarantees] the theorems.  [SchedulerPoll]: poll flights,
      cooldowns, refreshes and transfer slots as actions of several threads,
      with [SchedulerPollGuarantees].
    - Job control.  [Control] ([kill.py], [pause_resume.py]): kill_job,
      pause_job, resume_job and the recovery of pause intents over rows and
      process groups; [ControlGuarantees] and [ControlRecovery] the theorems.
    - Watchdog.  [Watchdog] ([watchdog.py]): evaluate, check_host_pressure;
      [HostWatch]: _host_pressure_pass and _watchdog_pass of [daemon.py];
      [WatchdogGuarantees] and [HostWatchGuarantees] the theorems.
    - Gateway ([gateway/]).  [Relay] and [RelayOps] ([relay.py]): the relay
      store, its claims, acknowledgements, requests, results and logs;
      [RelayLogic] the order in which records and stores evolve,
      [RelayGuarantees] and [RelayResults] the theorems.  [GatewayKeys]
      ([keys.py], ConnectorStore of [relay.py]) with [CredentialGuarantees].
      [Connector] ([connector.py]): delivering one submission, and the relay,
      the connector's journal and the broker's store as one transition
      system, with [ConnectorGuarantees]; [ConnectorPush]: pushing a result
      file through the retrying client of [client.py].  [Uploads]
      ([uploads.py]) with [UploadGuarantees].  [GatewayJobs] ([jobs.py]):
      policy, intake, ownership and listing over the broker's and the upload
      store, with [GatewayJobGuarantees].
    - [DaemonWitnesses], [RecoveryWitnesses], [SchedulerReapWitnesses],
      [SchedulerPollWitnesses], [DrainWitnesses], [ControlWitnesses],
      [RelayWitnesses], [GatewayWitnesses]: small systems at which the
      theorems are applied, and the defects found.

    ** How the program is modelled

    A function that raises is a function into [res E A], [E] the exception
    classes its callers tell apart; stateful code is a computation
    [W -> res E A * W] ([eff]), whose effects before an exception stay.
    Files other processes write are changed by an arbitrary environment
    function before every access ([q_interfere], [dn_interfere],
    [c_interfere]); a section under a lock is one access.  Writes fail where
    an oracle says so, a control command can be killed before any of its
    effects ([c_crash]), an upload operation stopped between any two
    ([u_stops]), and in the relay's transition system any step may be lost,
    repeated or followed by a crash; the threads around polling take turns in
    any order, and what they did is a trace.  Clocks, probes, the network, spawning, SHA-256 and
    the text of JSON are parameters, with named hypotheses where a theorem
    relies on them ([HashingOk], [SubmitRecoveryOk], [RerunOk], [RerunFresh],
    [queue_ok], [rows_stay], [rely], [env_ok]), each with an instance in a
    witness file.  A scheduler host, its files and the operator's evidence are
    such oracles of [Recovery] and [SchedulerReap]; [Dialect] reads the text
    they print.

    Times are whole ticks of 2^-20 s ([TICKS_PER_SECOND]), exact in binary64
    below 2^33 s; accumulated pause time is in milliseconds, as the code
    rounds it.  Strings are byte strings.  Loops over lists are structural;
    the only fuel is that of [turns], the round-robin of the dispatch order,
    which is given the number of pending specs, one of which every turn
    consumes, and that of [push_file] and of the pages of a listing, for which
    the number of steps that is enough is part of the theorems.  The daemon is in single-user mode, and drains are operated on
    as the daemon does ([via_rpc=False]).

    ** What the theorems show

    - Broker: the store refines the abstract job machine, loses no record and
      no update, and refuses no legal step; at most one attempt of a job can
      have reached a target; every request the placer sends is pinned and two
      for one job are the same unless the first was fenced; capacity is not
      promised twice; records survive printing and parsing.  The planner
      rejects exactly the targets that do not meet the request and selects
      the best of the others; re-ranking adds and loses no host.
    - Dispatch: a pass stays within the caps, launches only jobs past every
      gate, paces submissions per scheduler, runs builds alone, leaves no
      fitting job unoffered; drained lanes are never launched on; the order is
      fair; leaving settled rows out of the scan changes nothing.
    - Launch and reap: no terminal verdict is ever taken back, at any
      interleaving; a start that answers True is durable and tracked; retries
      are bounded.
    - Lost submissions: a fence that is read as placed excludes every run of
      the attempt; recovery takes only steps its evidence justifies, never
      queues a job again that may exist, and undisturbed computes exactly what
      the evidence decides; its retries starve no row.
    - Scheduler jobs: the pass takes only steps with evidence; a job completes
      only on exit code 0 after its allocation ended and was not ended by the
      scheduler; a verdict is taken back only from a kill that came too late.
      Accounting is read the same in any order of its rows and fails closed.
    - Polling: a host that does not answer is left alone for its cooldown and
      never given up; a refresh is answered with news; transfers are bounded.
    - Drains: the lease store refines a finite map; releases free what they
      name, but for one corner; the read-only expiry agrees with the daemon's.
    - Job control: a stopped job is always on record and a pause that died is
      decided by the next recovery; a reported kill is durable; sessions of
      commands satisfy what the daemon's theorems assume of other processes.
    - Watchdog: SIGTERM for cause, SIGKILL after the grace, each once, never
      to a suspended job; pressure pauses and resumes alternate; its passes
      take no verdict back.
    - Relay: a job the gateway calls accepted is held by the broker under its
      own key, request and payload, and verdicts are final, whatever is lost,
      repeated or killed in between; only the latest claim of an item can
      settle it; a claim hands out exactly the due items within the
      connector's spool; published results are exactly their manifest;
      records keep their type invariant.
    - Gateway: a final upload is the archive that was declared and a client
      that resumes completes; a submission stays within its project's policy
      and limits, is completed by its repetition and private to its owner; a
      listing shows every job once; one connector serves a project and keys
      live as long as they should; a pushed file converges.
    - Defects: the accept race of the broker, the reaper stopped by one
      unreadable row, the child lost by a failed write, the full drain erased
      by an added lane, the lane release that holds everything, the retry that
      inherits pauses, the operator's pause undone by the pressure pass, the
      resume that raises after SIGCONT; the refused relay job the broker
      holds, the rotation that revives a key, the upload stranded by an
      interruption, the push that fails on a lost answer.

    ** What is not modelled

    Multi-user mode (per-user directories, quotas, submit bindings,
    ownership); the RPC clients of drain.py; the commands and transfers of
    scheduler_dispatch.py, job scripts, submit ids and [qstat -f] records, the
    service order of polled hosts; the startup walk beyond scheduler rows and
    the reconciliation of orphans; scheduler holds, bulk and token-scoped pauses; command
    wrapping, log, event and sample files; the gateway's HTTP routes, its
    local result collection and the connector's collection, cancellation and
    log loops; the command line, web interface, fleet rollout, administration, provisioning, configuration files
    and transports, which are I/O and text around this core or separate
    systems.

    ** Order of further work

    The job scripts and record formats of the dialects; orphans at startup;
    the token-scoped pauses of an update with their proofs; the connector's
    collection; multi-user bindings; campaigns. *)

From stdpp Require Export base gmap strings list sorting fin_maps pretty.
From Stdlib Require Export Ascii ZArith.

#[global] Open Scope Z_scope.
#[global] Set Default Goal Selector "!".

(** ** Results

    A Python function that may raise is a function into [res E A]; [E]
    enumerates the exception classes its callers can tell apart. *)

Inductive res (E A : Type) : Type :=
| Ok (a : A)
| Err (e : E).
Arguments Ok {E A} a.
Arguments Err {E A} e.

Declare Scope vq_scope.
Delimit Scope vq_scope with vq.
#[global] Open Scope vq_scope.

(** [let? x := m in k] continues with the value of [m] or propagates its
    exception; [raise? e when b in k] is [if b: raise e] followed by [k]. *)
Notation "'let?' x ':=' m 'in' k" :=
  (match m with Ok x => k | Err e => Err e end)
  (at level 10, x pattern, m at level 100, k at level 200,
   format "'[v' 'let?'  x  ':='  m  'in' '/' k ']'") : vq_scope.
Notation "'raise?' e 'when' b 'in' k" :=
  (if b then Err e else k)
  (at level 10, e at level 100, b at level 100, k at level 200,
   format "'[v' 'raise?'  e  'when'  b  'in' '/' k ']'") : vq_scope.

Definition is_ok {E A} (r : res E A) : bool :=
  match r with Ok _ => true | Err _ => false end.

(** [[f(x) for x in xs]] for a raising [f]. *)
Fixpoint mapM_res {E A B} (f : A → res E B) (l : list A) : res E (list B) :=
  match l with
  | [] => Ok []
  | x :: l => let? y := f x in let? ys := mapM_res f l in Ok (y :: ys)
  end.

#[global] Instance res_eq_dec {E A} `{EqDecision E, EqDecision A} : EqDecision (res E A).
Proof. solve_decision. Defined.

(** ** Stateful computations

    A computation over a world of type [W] returns a value or raises, and
    leaves the next world; what it did before raising stays done. *)

Definition eff (W E A : Type) : Type := W → res E A * W.

Definition ret {W E A} (a : A) : eff W E A := λ w, (Ok a, w).
Definition throw {W E A} (e : E) : eff W E A := λ w, (Err e, w).
Definition bind {W E A B} (m : eff W E A) (k : A → eff W E B) : eff W E B := λ w,
  match m w with
  | (Ok a, w') => k a w'
  | (Err e, w') => (Err e, w')
  end.
(** [try: m except ... as e: handler], for the exceptions [handles]. *)
Definition catch {W E A} (m : eff W E A) (handles : E → bool) (handler : E → eff W E A)
    : eff W E A := λ w,
  match m w with
  | (Ok a, w') => (Ok a, w')
  | (Err e, w') => if handles e then handler e w' else (Err e, w')
  end.

Notation "'do?' x ':=' m 'in' k" := (bind m (λ x, k))
  (at level 10, x pattern, m at level 100, k at level 200,
   format "'[v' 'do?'  x  ':='  m  'in' '/' k ']'") : vq_scope.

Definition lift {W E A} (r : res E A) : eff W E A := λ w, (r, w).

(** [post m P w]: whatever [m] returns or raises from [w], and the world it
    leaves, satisfy [P]. *)
Definition post {W E A} (m : eff W E A) (P : res E A → W → Prop) (w : W) : Prop :=
  P (m w).1 (m w).2.

Section post.
Context {W E A B : Type}.
Implicit Types (P : res E A → W → Prop).

Lemma post_ret (a : A) P w : P (Ok a) w → post (ret a) P w.
Proof. done. Qed.

Lemma post_throw e P w : P (Err e) w → post (throw e) P w.
Proof. done. Qed.

Lemma post_lift (r : res E A) P w : P r w → post (lift r) P w.
Proof. done. Qed.

Lemma post_bind (m : eff W E B) (k : B → eff W E A) P w :
  post m (λ r w', match r with Ok b => post (k b) P w' | Err e => P (Err e) w' end) w →
  post (bind m k) P w.
Proof. unfold post, bind. by destruct (m w) as [[b|e] w']. Qed.

Lemma post_catch (m : eff W E A) (h : E → bool) (k : E → eff W E A) P w :
  post m (λ r w', match r with
                  | Ok a => P (Ok a) w'
                  | Err e => if h e then post (k e) P w' else P (Err e) w'
                  end) w →
  post (catch m h k) P w.
Proof. unfold post, catch. destruct (m w) as [[a|e] w']; simpl; [done|]. by destruct (h e). Qed.

Lemma post_mono (m : eff W E A) P P' w : (∀ r w', P r w' → P' r w') → post m P w → post m P' w.
Proof. unfold post. auto. Qed.

Lemma post_elim (m : eff W E A) P w r w' : post m P w → m w = (r, w') → P r w'.
Proof. unfold post. intros Hm Er. by rewrite Er in Hm. Qed.

Lemma post_intro (m : eff W E A) P w : (∀ r w', m w = (r, w') → P r w') → post m P w.
Proof. intros Hm. apply Hm. by destruct (m w). Qed.
End post.

(** [keeps R m]: [m] takes every world to an [R]-later one, raising or not. *)
Definition keeps {W E A} (R : relation W) (m : eff W E A) : Prop := ∀ w, R w (m w).2.

Section keeps.
Context {W E A B : Type} (R : relation W) `{!PreOrder R}.

Lemma keeps_ret (a : A) : keeps (E := E) R (ret a).
Proof. intros w. reflexivity. Qed.

Lemma keeps_throw (e : E) : keeps (A := A) R (throw e).
Proof. intros w. reflexivity. Qed.

Lemma keeps_lift (r : res E A) : keeps R (lift r).
Proof. intros w. reflexivity. Qed.

Lemma keeps_bind (m : eff W E B) (k : B → eff W E A) :
  keeps R m → (∀ b, keeps R (k b)) → keeps R (bind m k).
Proof.
  intros Hm Hk w. unfold bind. specialize (Hm w). destruct (m w) as [[b|e] w']; simpl in *; [|done].
  etransitivity; [done|apply Hk].
Qed.
End keeps.

(** ** Numbers

    Times are Python floats.  A finite one is a whole number of ticks of
    2^-20 s; below 2^33 s such values and their differences are exact in
    binary64, so [<=], [<] and [-] agree with Python's. *)

Inductive pyfloat : Type :=
| FFin (ticks : Z)
| FInf
| FNegInf
| FNan.

Definition TICKS_PER_SECOND : Z := 2 ^ 20.

#[global] Instance pyfloat_eq_dec : EqDecision pyfloat.
Proof. solve_decision. Defined.

Definition isfinite (f : pyfloat) : bool :=
  match f with FFin _ => true | _ => false end.

Definition float_of_int (z : Z) : pyfloat := FFin (z * TICKS_PER_SECOND).

(** [x <= y], [x < y] and [x - y]; a comparison with NaN is false. *)
Definition fleb (x y : pyfloat) : bool :=
  match x, y with
  | FNan, _ | _, FNan => false
  | FNegInf, _ | _, FInf => true
  | FFin a, FFin b => a <=? b
  | _, _ => false
  end.

Definition fltb (x y : pyfloat) : bool :=
  match x, y with
  | FNan, _ | _, FNan => false
  | FFin a, FFin b => a <? b
  | FNegInf, FNegInf | FInf, FInf => false
  | FNegInf, _ | _, FInf => true
  | _, _ => false
  end.

Definition fsub (x y : pyfloat) : pyfloat :=
  match x, y with
  | FFin a, FFin b => FFin (a - b)
  | FNan, _ | _, FNan | FInf, FInf | FNegInf, FNegInf => FNan
  | FInf, _ | _, FNegInf => FInf
  | FNegInf, _ | _, FInf => FNegInf
  end.

Definition fzero : pyfloat := FFin 0.

(** ** Strings *)

Fixpoint all_chars (p : ascii → bool) (s : string) : bool :=
  match s with
  | EmptyString => true
  | String c s => p c && all_chars p s
  end.

Fixpoint any_char (p : ascii → bool) (s : string) : bool :=
  match s with
  | EmptyString => false
  | String c s => p c || any_char p s
  end.

Definition char_between (lo hi : ascii) (c : ascii) : bool :=
  (N_of_ascii lo <=? N_of_ascii c)%N && (N_of_ascii c <=? N_of_ascii hi)%N.

Definition is_digit (c : ascii) : bool := char_between "0" "9" c.
Definition is_lower (c : ascii) : bool := char_between "a" "z" c.
Definition is_upper (c : ascii) : bool := char_between "A" "Z" c.
Definition is_alnum (c : ascii) : bool := is_lower c || is_upper c || is_digit c.
Definition is_lower_hex (c : ascii) : bool := is_digit c || char_between "a" "f" c.
Definition is_hex (c : ascii) : bool := is_lower_hex c || char_between "A" "F" c.

(** The characters [str.strip()] and [str.split()] treat as white space. *)
Definition is_space (c : ascii) : bool :=
  let n := N_of_ascii c in
  (((9 <=? n) && (n <=? 13)) || ((28 <=? n) && (n <=? 32)) || (n =? 133) || (n =? 160))%N.

Fixpoint lstrip (s : string) : string :=
  match s with
  | EmptyString => EmptyString
  | String c s' => if is_space c then lstrip s' else s
  end.

Definition string_rev (s : string) : string := String.string_of_list_ascii (rev (String.list_ascii_of_string s)).
Definition strip (s : string) : string := string_rev (lstrip (string_rev (lstrip s))).

(** [s[:n]] *)
Definition str_take (n : nat) (s : string) : string := String.substring 0 n s.

Definition str_len (s : string) : Z := Z.of_nat (String.length s).

(** [re.fullmatch("[p]{lo,hi}", s)] *)
Definition fullmatch_class (p : ascii → bool) (lo hi : Z) (s : string) : bool :=
  (lo <=? str_len s) && (str_len s <=? hi) && all_chars p s.

Definition startswith (s p : string) : bool := String.prefix p s.

Definition mem_str (s : string) (l : list string) : bool := existsb (String.eqb s) l.

(** ** Ordered data and stable sorting

    Python's [sorted] is stable; insertion sort from the right is the
    reference stable sort. *)

Section sort_by.
Context {A : Type} (leb : A → A → bool).

Fixpoint insert_by (x : A) (l : list A) : list A :=
  match l with
  | [] => [x]
  | y :: l' => if leb x y then x :: y :: l' else y :: insert_by x l'
  end.

Fixpoint sort_by (l : list A) : list A :=
  match l with
  | [] => []
  | x :: l' => insert_by x (sort_by l')
  end.
End sort_by.

Definition is_some {A} (o : option A) : bool := match o with Some _ => true | None => false end.
Definition opt_or {A} (o : option A) (d : A) : A := match o with Some x => x | None => d end.

Definition sumZ {A} (f : A → Z) (l : list A) : Z := foldr (λ x acc, f x + acc) 0 l.

(** [d.setdefault(k, v)] on a dict kept in insertion order. *)
Fixpoint assoc {A} (k : string) (l : list (string * A)) : option A :=
  match l with
  | [] => None
  | (k', v) :: l' => if String.eqb k k' then Some v else assoc k l'
  end.

(** Dict assignment keeps an existing key's position. *)
Fixpoint assoc_set {A} (k : string) (v : A) (l : list (string * A)) : list (string * A) :=
  match l with
  | [] => [(k, v)]
  | (k', v') :: l' => if String.eqb k k' then (k, v) :: l' else (k', v') :: assoc_set k v l'
  end.

(** ** Lemmas shared by the components *)

Lemma all_chars_app p s t : all_chars p (s +:+ t) = all_chars p s && all_chars p t.
Proof. induction s as [|c s IH]; simpl; [done|]. by rewrite IH, andb_assoc. Qed.

Lemma string_length_app s t : String.length (s +:+ t) = (String.length s + String.length t)%nat.
Proof. induction s as [|c s IH]; simpl; [done|]. by rewrite IH. Qed.

Lemma string_app_assoc (a b c : string) : (a +:+ b) +:+ c = a +:+ (b +:+ c).
Proof. induction a as [|x a IH]; [done|exact (f_equal (String x) IH)]. Qed.

Lemma string_app_nil (a : string) : a +:+ "" = a.
Proof. induction a as [|x a IH]; [done|exact (f_equal (String x) IH)]. Qed.

Lemma str_len_app a b : str_len (a +:+ b) = str_len a + str_len b.
Proof. unfold str_len. rewrite string_length_app. lia. Qed.

Lemma str_len_nonneg s : 0 <= str_len s.
Proof. unfold str_len. lia. Qed.

Lemma substring_app_skip a b n m :
  n = String.length a → String.substring n m (a +:+ b) = String.substring 0 m b.
Proof. intros ->. induction a as [|c a IH]; [done|exact IH]. Qed.

Lemma substring_app_keep a b : String.substring 0 (String.length a) (a +:+ b) = a.
Proof.
  induction a as [|c a IH]; [by destruct b|]. cbn [String.length].
  change (String c (String.substring 0 (String.length a) (a +:+ b)) = String c a). by rewrite IH.
Qed.

Lemma str_take_le n s : 0 <= str_len (str_take n s) <= str_len s.
Proof.
  unfold str_len, str_take. split; [lia|]. apply inj_le. revert n.
  induction s as [|c s IH]; intros [|n]; simpl; try lia. specialize (IH n). lia.
Qed.

(** What is taken and what is left. *)
Lemma str_take_split n s : ∃ rest, s = str_take n s +:+ rest.
Proof.
  unfold str_take. revert n. induction s as [|c s IH]; intros [|n]; simpl; [by exists ""..|by eexists|].
  destruct (IH n) as [rest E]. exists rest. exact (f_equal (String c) E).
Qed.

Lemma str_take_len n s : str_len (str_take n s) = Z.min (Z.of_nat n) (str_len s).
Proof.
  unfold str_take, str_len. revert n. induction s as [|c s IH]; intros [|n]; simpl; try lia. specialize (IH n). lia.
Qed.

Lemma string_app_inj_r u s t : s +:+ u = t +:+ u → s = t.
Proof.
  revert t. induction s as [|c s IH]; intros [|d t]; simpl; intros E; try done.
  - apply (f_equal String.length) in E. simpl in E. rewrite !string_length_app in E. simpl in E. lia.
  - apply (f_equal String.length) in E. simpl in E. rewrite !string_length_app in E. simpl in E. lia.
  - injection E as -> E. by rewrite (IH _ E).
Qed.

Lemma string_app_inj_l (u a b : string) : u +:+ a = u +:+ b → a = b.
Proof. induction u as [|c u IH]; [done|]. intros [= E]. by apply IH. Qed.

Lemma string_rev_app s t : string_rev (s +:+ t) = string_rev t +:+ string_rev s.
Proof.
  unfold string_rev.
  assert (Hl : ∀ a b, String.list_ascii_of_string (a +:+ b)
    = String.list_ascii_of_string a ++ String.list_ascii_of_string b).
  { induction a as [|c a IH]; intros b; simpl; [done|]. by rewrite IH. }
  assert (Hs : ∀ a b, String.string_of_list_ascii (a ++ b)
    = String.string_of_list_ascii a +:+ String.string_of_list_ascii b).
  { induction a as [|c a IH]; intros b; simpl; [done|]. by rewrite IH. }
  by rewrite Hl, rev_app_distr, Hs.
Qed.

Lemma string_rev_cons c s : string_rev (String c s) = string_rev s +:+ String c "".
Proof. apply (string_rev_app (String c "") s). Qed.

Lemma string_rev_involutive s : string_rev (string_rev s) = s.
Proof. induction s as [|c s IH]; [done|]. by rewrite string_rev_cons, string_rev_app, IH. Qed.

Lemma all_chars_rev q s : all_chars q (string_rev s) = all_chars q s.
Proof.
  induction s as [|c s IH]; [done|]. rewrite string_rev_cons, all_chars_app, IH. simpl. rewrite andb_true_r.
  apply andb_comm.
Qed.

(** A prefix that is all of the string. *)
Lemma str_take_all n s : str_len s <= Z.of_nat n → str_take n s = s.
Proof.
  intros Hn. destruct (str_take_split n s) as [rest Hr]. pose proof (str_take_len n s) as Hl.
  rewrite Z.min_r in Hl by done. assert (str_len rest = 0) as H0.
  { apply (f_equal str_len) in Hr. rewrite str_len_app in Hr. lia. }
  destruct rest as [|c rest]; [by rewrite string_app_nil in Hr|]. unfold str_len in H0. simpl in H0. lia.
Qed.

Lemma startswith_app a b : startswith (a +:+ b) a = true.
Proof.
  unfold startswith. induction a as [|c a IH]; [by destruct b|].
  change (String.prefix (String c a) (String c (a +:+ b)) = true). simpl.
  by destruct (ascii_dec c c).
Qed.

Lemma mem_str_spec s l : mem_str s l = true ↔ s ∈ l.
Proof.
  unfold mem_str. rewrite existsb_exists. setoid_rewrite String.eqb_eq.
  setoid_rewrite <-list_elem_of_In. naive_solver.
Qed.

Lemma mem_str_decide s l : mem_str s l = bool_decide (s ∈ l).
Proof. apply Bool.eq_true_iff_eq. by rewrite mem_str_spec, bool_decide_eq_true. Qed.

Lemma ascii_compare_trans a b c r :
  Ascii.compare a b = r → Ascii.compare b c = r → Ascii.compare a c = r.
Proof.
  unfold Ascii.compare. destruct r.
  - rewrite !N.compare_eq_iff. congruence.
  - rewrite !N.compare_lt_iff. lia.
  - rewrite !N.compare_gt_iff. lia.
Qed.

Lemma ascii_compare_refl a : Ascii.compare a a = Eq.
Proof. apply N.compare_refl. Qed.

Lemma string_compare_refl s : String.compare s s = Eq.
Proof. induction s; simpl; [done|]. by rewrite ascii_compare_refl. Qed.

Lemma string_compare_lt_trans s t u :
  String.compare s t = Lt → String.compare t u = Lt → String.compare s u = Lt.
Proof.
  revert t u. induction s as [|a s IH]; intros [|b t] [|c u]; simpl; try done.
  destruct (Ascii.compare a b) eqn:Hab, (Ascii.compare b c) eqn:Hbc; try done; intros H1 H2.
  - rewrite (ascii_compare_trans a b c Eq) by done. eauto.
  - apply Ascii.compare_eq_iff in Hab. subst. by rewrite Hbc.
  - apply Ascii.compare_eq_iff in Hbc. subst. by rewrite Hab.
  - by rewrite (ascii_compare_trans a b c Lt).
Qed.

Lemma string_leb_cases s t : String.leb s t = true ↔ s = t ∨ String.compare s t = Lt.
Proof.
  unfold String.leb. split.
  - destruct (String.compare s t) eqn:E; [|by right|done].
    intros _. left. by apply String.compare_eq_iff.
  - intros [->|H]; [by rewrite string_compare_refl|by rewrite H].
Qed.

Lemma string_leb_refl s : String.leb s s = true.
Proof. apply string_leb_cases. by left. Qed.

Lemma string_leb_trans s t u :
  String.leb s t = true → String.leb t u = true → String.leb s u = true.
Proof.
  rewrite !string_leb_cases. intros [->|H1] [->|H2]; eauto using string_compare_lt_trans.
Qed.

(** A boolean comparison that is a total preorder. *)
Class TotalLeb {A} (leb : A → A → bool) : Prop := {
  leb_total x y : leb x y = true ∨ leb y x = true;
  leb_trans x y z : leb x y = true → leb y z = true → leb x z = true;
}.

#[global] Instance string_leb_total_order : TotalLeb String.leb.
Proof. split; [apply String.leb_total | intros ???; apply string_leb_trans]. Qed.

#[global] Instance Zleb_total_order : TotalLeb Z.leb.
Proof. split; intros; rewrite ?Z.leb_le in *; lia. Qed.

(** Tuples compare lexicographically. *)
Definition lex_leb {A B} (la : A → A → bool) (lb : B → B → bool) (x y : A * B) : bool :=
  la x.1 y.1 && (negb (la y.1 x.1) || lb x.2 y.2).

#[global] Instance lex_leb_total_order {A B} (la : A → A → bool) (lb : B → B → bool) :
  TotalLeb la → TotalLeb lb → TotalLeb (lex_leb la lb).
Proof.
  intros Ha Hb. unfold lex_leb. split.
  - intros [a b] [a' b']; simpl.
    destruct (leb_total a a') as [H|H], (leb_total b b') as [H'|H'];
      rewrite H, ?H'; destruct (la a' a), (la a a'), (lb b b'), (lb b' b); naive_solver.
  - intros [a b] [a' b'] [a'' b'']; simpl. rewrite !andb_true_iff, !orb_true_iff, !negb_true_iff.
    intros [H1 H2] [H3 H4]. pose proof (leb_trans _ _ _ H1 H3) as H5. split; [done|].
    destruct (la a'' a) eqn:E; [right|by left].
    pose proof (leb_trans _ _ _ H3 E) as H6. pose proof (leb_trans _ _ _ E H1) as H7.
    destruct H2 as [?|H2], H4 as [?|H4]; try congruence. eauto using leb_trans.
Qed.

(** The comparison of a sort key. *)
Definition on_key {A K} (leb : K → K → bool) (key : A → K) (x y : A) : bool := leb (key x) (key y).

#[global] Instance on_key_total_order {A K} (leb : K → K → bool) (key : A → K) :
  TotalLeb leb → TotalLeb (on_key leb key).
Proof. intros H. unfold on_key. split; intros; [apply leb_total | eapply leb_trans; eauto]. Qed.

Section sort_by_facts.
Context {A : Type} (leb : A → A → bool).

Lemma insert_by_perm x l : insert_by leb x l ≡ₚ x :: l.
Proof.
  induction l as [|y l IH]; simpl; [done|]. case_match; [done|].
  rewrite IH. apply Permutation_swap.
Qed.

Lemma sort_by_perm l : sort_by leb l ≡ₚ l.
Proof. induction l as [|x l IH]; simpl; [done|]. by rewrite insert_by_perm, IH. Qed.

Lemma elem_of_sort_by x l : x ∈ sort_by leb l ↔ x ∈ l.
Proof. by rewrite sort_by_perm. Qed.

Lemma length_sort_by l : length (sort_by leb l) = length l.
Proof. by rewrite sort_by_perm. Qed.

Context `{!TotalLeb leb}.
Implicit Types l : list A.

Lemma insert_by_sorted x l :
  StronglySorted (λ a b, leb a b = true) l →
  StronglySorted (λ a b, leb a b = true) (insert_by leb x l).
Proof.
  induction l as [|y l IH]; simpl; intros Hs; [by repeat constructor|].
  apply StronglySorted_cons in Hs as [Hy Hs]. case_match eqn:E.
  - repeat (constructor; try done).
    eapply Forall_impl; [exact Hy|]. intros z Hz. simpl in *. eauto using leb_trans.
  - constructor; [by apply IH|]. rewrite insert_by_perm. constructor; [|done].
    destruct (leb_total x y); congruence.
Qed.

Lemma sort_by_sorted l : StronglySorted (λ a b, leb a b = true) (sort_by leb l).
Proof. induction l; simpl; [constructor|]. by apply insert_by_sorted. Qed.

(** The first element of a sorted list is a least one. *)
Lemma sort_by_head x l rest :
  sort_by leb l = x :: rest → x ∈ l ∧ ∀ y, y ∈ l → leb x y = true.
Proof.
  intros E. pose proof (sort_by_sorted l) as Hs. rewrite E in Hs.
  apply StronglySorted_cons in Hs as [Hx _]. rewrite Forall_forall in Hx.
  split; [apply elem_of_sort_by; rewrite E; set_solver|].
  intros y Hy. apply elem_of_sort_by in Hy. rewrite E in Hy.
  apply elem_of_cons in Hy as [->|Hy]; [|by apply Hx].
  destruct (leb_total x x); done.
Qed.

(** Stability: elements a filter cannot tell apart keep their order. *)
Lemma insert_by_filter (p : A → bool) x l :
  (∀ a b, p a = true → p b = true → leb a b = true) →
  List.filter p (insert_by leb x l) = List.filter p (x :: l).
Proof.
  intros Hp. induction l as [|y l IH]; simpl; [done|]. destruct (leb x y) eqn:E; simpl; [done|].
  rewrite IH. simpl. destruct (p x) eqn:Px, (p y) eqn:Py; try done.
  rewrite (Hp x y) in E by done. done.
Qed.

Lemma sort_by_stable (p : A → bool) l :
  (∀ a b, p a = true → p b = true → leb a b = true) →
  List.filter p (sort_by leb l) = List.filter p l.
Proof.
  intros Hp. induction l as [|x l IH]; simpl; [done|].
  rewrite insert_by_filter by done. simpl. by rewrite IH.
Qed.
End sort_by_facts.

(** Sorting with an antisymmetric order depends only on the elements. *)
Lemma sort_by_perm_eq {A} (leb : A → A → bool) `{!TotalLeb leb} (l1 l2 : list A) :
  (∀ a b, leb a b = true → leb b a = true → a = b) →
  l1 ≡ₚ l2 → sort_by leb l1 = sort_by leb l2.
Proof.
  intros Hanti Hp.
  assert (Transitive (λ a b, leb a b = true)) by (intros ???; apply leb_trans).
  assert (AntiSymm (=) (λ a b, leb a b = true)) by (intros ????; by apply Hanti).
  eapply (Sorted_unique (λ a b, leb a b = true));
    [apply StronglySorted_Sorted, sort_by_sorted; apply _..|].
  by rewrite !sort_by_perm.
Qed.

Lemma sumZ_app {A} (f : A → Z) l1 l2 : sumZ f (l1 ++ l2) = sumZ f l1 + sumZ f l2.
Proof. induction l1 as [|x l1 IH]; simpl; [done|]. rewrite IH. lia. Qed.

Lemma sumZ_ext {A} (f g : A → Z) l : (∀ x, x ∈ l → f x = g x) → sumZ f l = sumZ g l.
Proof.
  induction l as [|x l IH]; simpl; intros Hf; [done|]. rewrite (Hf x), IH by set_solver. done.
Qed.

Lemma sumZ_perm {A} (f : A → Z) l1 l2 : l1 ≡ₚ l2 → sumZ f l1 = sumZ f l2.
Proof. induction 1; simpl; lia. Qed.

Lemma sumZ_nonneg {A} (f : A → Z) l : (∀ x, x ∈ l → 0 <= f x) → 0 <= sumZ f l.
Proof.
  induction l as [|x l IH]; simpl; intros Hf; [lia|].
  assert (0 <= f x) by (apply Hf; set_solver).
  assert (0 <= sumZ f l) by (apply IH; set_solver). lia.
Qed.

Lemma assoc_app {A} k (l1 l2 : list (string * A)) :
  assoc k (l1 ++ l2) = match assoc k l1 with Some v => Some v | None => assoc k l2 end.
Proof. induction l1 as [|[k' v] l1 IH]; simpl; [done|]. by destruct (String.eqb k k'). Qed.

Lemma mapM_res_ok {E A B} (f : A → res E B) (g : A → B) l :
  (∀ x, x ∈ l → f x = Ok (g x)) → mapM_res f l = Ok (map g l).
Proof.
  induction l as [|x l IH]; simpl; intros Hf; [done|].
  rewrite Hf by set_solver. rewrite IH by set_solver. done.
Qed.

Lemma Forall2_in_l {A B} (P : A → B → Prop) (l : list A) (k : list B) x :
  Forall2 P l k → x ∈ l → ∃ y, y ∈ k ∧ P x y.
Proof.
  induction 1 as [|a b l k Hab _ IH]; intros Hx; [set_solver|].
  apply elem_of_cons in Hx as [->|Hx]; [exists b; set_solver|].
  destruct (IH Hx) as (y & ? & ?). exists y. set_solver.
Qed.

Lemma Forall2_in_r {A B} (P : A → B → Prop) (l : list A) (k : list B) y :
  Forall2 P l k → y ∈ k → ∃ x, x ∈ l ∧ P x y.
Proof. intros HF%Forall2_flip. by apply (Forall2_in_l (flip P)). Qed.

(** ** Automation

    [vq_json] rewrites what a parser makes of a printed value. *)

Create Rewrite HintDb vq_json.

(** [crush] splits every branch of the code in the goal and hypotheses. *)

Ltac crush_step :=
  match goal with
  | H : Ok _ = Ok _ |- _ => injection H as H
  | H : Err _ = Err _ |- _ => injection H as H
  | H : Ok _ = Err _ |- _ => discriminate H
  | H : Err _ = Ok _ |- _ => discriminate H
  | H : _ && _ = true |- _ => apply andb_true_iff in H as [? ?]
  | H : _ || _ = false |- _ => apply orb_false_iff in H as [? ?]
  | H : negb _ = true |- _ => apply negb_true_iff in H
  | H : negb _ = false |- _ => apply negb_false_iff in H
  | H : bool_decide _ = true |- _ => apply bool_decide_eq_true_1 in H
  | H : bool_decide _ = false |- _ => apply bool_decide_eq_false_1 in H
  | H : (_ <=? _) = true |- _ => apply Z.leb_le in H
  | H : (_ <=? _) = false |- _ => apply Z.leb_gt in H
  | H : (_ <? _) = true |- _ => apply Z.ltb_lt in H
  | H : (_ <? _) = false |- _ => apply Z.ltb_ge in H
  | H : (_ =? _) = true |- _ => apply Z.eqb_eq in H
  | H : (_ =? _) = false |- _ => apply Z.eqb_neq in H
  end.

Ltac propify := repeat crush_step.
Ltac crush := repeat (case_match || crush_step); simplify_eq/=; try done.
