(* ===== verification/Spec.v ===== *)
(** * Job specs: [src/vq/spec.py]

    The durable record of a job: its states, the identifier and label
    charsets every other component relies on, the tag normalisation, the
    exit-code rendering, and the part of [JobSpec] the daemon's dispatch
    pass and retry logic read and write. *)

From S2P Require Import Prelude.

(** ** States *)

Inductive JobState : Type :=
| PENDING | SUBMITTING | SUBMIT_OUTCOME_UNKNOWN | RUNNING | SUSPENDED
| COMPLETED | FAILED | KILLED | INTERRUPTED | OOM_KILLED | STARVED
| TIME_EXCEEDED | ABORTED_BY_QUEUE.

#[global] Instance JobState_eq_dec : EqDecision JobState.
Proof. solve_decision. Defined.

(** [JobState.value] *)
Definition JobState_value (s : JobState) : string :=
  match s with
  | PENDING => "pending" | SUBMITTING => "submitting"
  | SUBMIT_OUTCOME_UNKNOWN => "submit_outcome_unknown"
  | RUNNING => "running" | SUSPENDED => "suspended" | COMPLETED => "completed"
  | FAILED => "failed" | KILLED => "killed" | INTERRUPTED => "interrupted"
  | OOM_KILLED => "oom_killed" | STARVED => "starved"
  | TIME_EXCEEDED => "time_exceeded" | ABORTED_BY_QUEUE => "aborted_by_queue"
  end.

Definition TERMINAL_STATES : list JobState :=
  [COMPLETED; FAILED; KILLED; INTERRUPTED; OOM_KILLED; STARVED; TIME_EXCEEDED; ABORTED_BY_QUEUE].

Definition WATCHDOG_TERMINAL_STATES : list JobState := [OOM_KILLED; STARVED; TIME_EXCEEDED].

Definition state_is_terminal (s : JobState) : bool := bool_decide (s ∈ TERMINAL_STATES).
Definition state_is_watchdog_killed (s : JobState) : bool :=
  bool_decide (s ∈ WATCHDOG_TERMINAL_STATES).

(** ** Identifiers and labels *)

Definition name_char (c : ascii) : bool :=
  is_alnum c || Ascii.eqb c "." || Ascii.eqb c "_" || Ascii.eqb c "-".

Definition JOB_NAME_MAX_LEN : Z := 50.
Definition JOB_ID_MAX_LEN : Z := 160.

(** [JOB_NAME_PATTERN.fullmatch] and [JOB_ID_PATTERN.fullmatch] *)
Definition JOB_NAME_PATTERN (s : string) : bool := fullmatch_class name_char 1 JOB_NAME_MAX_LEN s.
Definition JOB_ID_PATTERN (s : string) : bool := fullmatch_class name_char 1 JOB_ID_MAX_LEN s.

(** The only exception these validators raise. *)
Inductive ValueError : Type := InvalidValue.

Definition validate_job_id (value : string) : res ValueError string :=
  raise? InvalidValue
    when (String.eqb value "." || String.eqb value ".." || negb (JOB_ID_PATTERN value)) in
  Ok value.

Definition check_job_name (v : option string) : res ValueError (option string) :=
  match v with
  | None => Ok None
  | Some n => raise? InvalidValue when (negb (JOB_NAME_PATTERN n)) in Ok v
  end.

Definition check_program (v : option string) : res ValueError (option string) :=
  match v with
  | None => Ok None
  | Some n => raise? InvalidValue when (negb (JOB_NAME_PATTERN n)) in Ok v
  end.

(** [sorted(set(v))] *)
Fixpoint dedupe (l : list string) : list string :=
  match l with
  | [] => []
  | x :: l' => if mem_str x l' then dedupe l' else x :: dedupe l'
  end.

Definition sorted_set (l : list string) : list string := sort_by String.leb (dedupe l).

Definition check_tags (v : list string) : res ValueError (list string) :=
  match v with
  | [] => Ok []
  | _ =>
    let cleaned := sorted_set v in
    raise? InvalidValue when (negb (forallb JOB_NAME_PATTERN cleaned)) in
    Ok cleaned
  end.

Definition check_dependency_ids (values : list string) : res ValueError (list string) :=
  mapM_res validate_job_id values.

Definition SPEC_VERSION : Z := 2.

Definition check_version (v : Z) : res ValueError Z :=
  raise? InvalidValue when (v <? 1) in
  raise? InvalidValue when (SPEC_VERSION <? v) in
  Ok v.

(** ** Exit codes *)

Definition PORTABLE_SIGNALS : list (Z * string) :=
  [(1, "SIGHUP"); (2, "SIGINT"); (3, "SIGQUIT"); (4, "SIGILL"); (5, "SIGTRAP");
   (6, "SIGABRT"); (8, "SIGFPE"); (9, "SIGKILL"); (11, "SIGSEGV"); (13, "SIGPIPE");
   (14, "SIGALRM"); (15, "SIGTERM")].

Definition SIGNAL_HINTS : list (Z * string) :=
  [(6, "abort, a failed assertion or uncaught C++ exception");
   (8, "floating-point error");
   (9, "hard kill, usually the OOM killer or a vq kill escalation");
   (11, "segmentation fault");
   (15, "graceful termination")].

Fixpoint zassoc (k : Z) (l : list (Z * string)) : option string :=
  match l with
  | [] => None
  | (k', v) :: l' => if k =? k' then Some v else zassoc k l'
  end.

Definition signal_name_for_exit (exit_code : option Z) : option string :=
  match exit_code with
  | None => None
  | Some c =>
    if negb ((128 <? c) && (c <=? 128 + 64)) then None else zassoc (c - 128) PORTABLE_SIGNALS
  end.

Definition describe_exit_code (exit_code : option Z) : string :=
  match exit_code with
  | None => "unknown"
  | Some c =>
    if (128 <? c) && (c <=? 128 + 64) then
      let sig := c - 128 in
      match signal_name_for_exit exit_code with
      | None => pretty c +:+ " (killed by signal " +:+ pretty sig +:+ ")"
      | Some name =>
        let inside := match zassoc sig SIGNAL_HINTS with
                      | Some hint => name +:+ ": " +:+ hint
                      | None => name
                      end in
        pretty c +:+ " (killed by " +:+ inside +:+ ")"
      end
    else pretty c
  end.

(** ** The record

    A timestamp field is an ISO 8601 string.  What the daemon does with it
    depends on what [datetime.fromisoformat] makes of it: an instant with a
    time zone, one without (read as UTC by some callers), or a ValueError;
    the empty string is falsy as well. *)

Inductive timestamp : Type :=
| Aware (ticks : Z)
| Naive (ticks : Z)
| Blank
| Unparseable.

#[global] Instance timestamp_eq_dec : EqDecision timestamp.
Proof. solve_decision. Defined.

(** [a or b] on optional timestamp fields *)
Definition timestamp_or (a b : option timestamp) : option timestamp :=
  match a with None | Some Blank => b | Some _ => a end.

(** The paths and SHA a dispatch resolved for a program; cleared by
    [without_resolution]. *)
Record ProgramRuntimePin : Type := MkPin {
  expected_git_sha : option string;
  enforce_git_sha : bool;
  resolved_git_sha : option string;
  resolved_runtime_root : option string;
  resolved_runtime_source : option string;
  resolved_runtime_python : option string;
}.

#[global] Instance ProgramRuntimePin_eq_dec : EqDecision ProgramRuntimePin.
Proof. solve_decision. Defined.

Definition without_resolution (p : ProgramRuntimePin) : ProgramRuntimePin :=
  {| expected_git_sha := p.(expected_git_sha);
     enforce_git_sha := p.(enforce_git_sha);
     resolved_git_sha := None;
     resolved_runtime_root := None;
     resolved_runtime_source := None;
     resolved_runtime_python := None |}.

Record JobSpec : Type := MkSpec {
  id : string;
  command : list string;
  cwd : string;
  cpus : Z;
  gpus : option Z;
  gpu_devices : option (list string);
  mem_mb : option Z;
  wall_time_seconds : option Z;
  priority : Z;
  refresh_before : option string;
  build_env : option string;
  job_name : option string;
  retry_max : Z;
  retry_count : Z;
  not_before : option timestamp;
  depends_on : list string;
  depends_on_any : list string;
  failure_reason : option string;
  failure_tail : option string;
  state : JobState;
  submitted_at : string;
  idempotency_key_hash : option string;
  submission_intent_digest : option string;
  submission_owner_hash : option string;
  submitter : option string;
  pid : option Z;
  pgid : option Z;
  pid_start_time : option Z;
  scheduler_target : option string;
  scheduler_job_id : option string;
  scheduler_state : option string;
  scheduler_remote_workspace : option string;
  scheduler_submitted_at : option timestamp;
  scheduler_started_at : option timestamp;
  started_at : option timestamp;
  finished_at : option timestamp;
  last_heartbeat_at : option timestamp;
  pause_intent_at : option timestamp;
  exit_code : option Z;
  workdir : option string;
  program : option string;
  program_runtime_pin : option ProgramRuntimePin;
  qvf_artifact_name : option string;
  paused_at : option timestamp;
  paused_monotonic_at : option Z;
  (** in milliseconds: every writer rounds to three decimals *)
  paused_seconds_total : Z;
  paused_by : option string;
  pause_intent_monotonic_at : option Z;
  pause_intent_pgid : option Z;
  pause_intent_by : option string;
}.

#[global] Instance JobSpec_eq_dec : EqDecision JobSpec.
Proof. solve_decision. Defined.

(** Assignment to one field, [spec.f = v]. *)

Definition set_id (v : string) (s : JobSpec) : JobSpec :=
  MkSpec v s.(command) s.(cwd) s.(cpus) s.(gpus) s.(gpu_devices) s.(mem_mb)
    s.(wall_time_seconds) s.(priority) s.(refresh_before) s.(build_env) s.(job_name)
    s.(retry_max) s.(retry_count) s.(not_before) s.(depends_on) s.(depends_on_any)
    s.(failure_reason) s.(failure_tail) s.(state) s.(submitted_at) s.(idempotency_key_hash)
    s.(submission_intent_digest) s.(submission_owner_hash) s.(submitter) s.(pid) s.(pgid)
    s.(pid_start_time) s.(scheduler_target) s.(scheduler_job_id) s.(scheduler_state)
    s.(scheduler_remote_workspace) s.(scheduler_submitted_at) s.(scheduler_started_at)
    s.(started_at) s.(finished_at) s.(last_heartbeat_at) s.(pause_intent_at) s.(exit_code)
    s.(workdir) s.(program) s.(program_runtime_pin) s.(qvf_artifact_name) s.(paused_at)
    s.(paused_monotonic_at) s.(paused_seconds_total) s.(paused_by) s.(pause_intent_monotonic_at)
    s.(pause_intent_pgid) s.(pause_intent_by).
Definition set_state (v : JobState) (s : JobSpec) : JobSpec :=
  MkSpec s.(id) s.(command) s.(cwd) s.(cpus) s.(gpus) s.(gpu_devices) s.(mem_mb)
    s.(wall_time_seconds) s.(priority) s.(refresh_before) s.(build_env) s.(job_name)
    s.(retry_max) s.(retry_count) s.(not_before) s.(depends_on) s.(depends_on_any)
    s.(failure_reason) s.(failure_tail) v s.(submitted_at) s.(idempotency_key_hash)
    s.(submission_intent_digest) s.(submission_owner_hash) s.(submitter) s.(pid) s.(pgid)
    s.(pid_start_time) s.(scheduler_target) s.(scheduler_job_id) s.(scheduler_state)
    s.(scheduler_remote_workspace) s.(scheduler_submitted_at) s.(scheduler_started_at)
    s.(started_at) s.(finished_at) s.(last_heartbeat_at) s.(pause_intent_at) s.(exit_code)
    s.(workdir) s.(program) s.(program_runtime_pin) s.(qvf_artifact_name) s.(paused_at)
    s.(paused_monotonic_at) s.(paused_seconds_total) s.(paused_by) s.(pause_intent_monotonic_at)
    s.(pause_intent_pgid) s.(pause_intent_by).
Definition set_failure_reason (v : option string) (s : JobSpec) : JobSpec :=
  MkSpec s.(id) s.(command) s.(cwd) s.(cpus) s.(gpus) s.(gpu_devices) s.(mem_mb)
    s.(wall_time_seconds) s.(priority) s.(refresh_before) s.(build_env) s.(job_name)
    s.(retry_max) s.(retry_count) s.(not_before) s.(depends_on) s.(depends_on_any) v
    s.(failure_tail) s.(state) s.(submitted_at) s.(idempotency_key_hash)
    s.(submission_intent_digest) s.(submission_owner_hash) s.(submitter) s.(pid) s.(pgid)
    s.(pid_start_time) s.(scheduler_target) s.(scheduler_job_id) s.(scheduler_state)
    s.(scheduler_remote_workspace) s.(scheduler_submitted_at) s.(scheduler_started_at)
    s.(started_at) s.(finished_at) s.(last_heartbeat_at) s.(pause_intent_at) s.(exit_code)
    s.(workdir) s.(program) s.(program_runtime_pin) s.(qvf_artifact_name) s.(paused_at)
    s.(paused_monotonic_at) s.(paused_seconds_total) s.(paused_by) s.(pause_intent_monotonic_at)
    s.(pause_intent_pgid) s.(pause_intent_by).
Definition set_finished_at (v : option timestamp) (s : JobSpec) : JobSpec :=
  MkSpec s.(id) s.(command) s.(cwd) s.(cpus) s.(gpus) s.(gpu_devices) s.(mem_mb)
    s.(wall_time_seconds) s.(priority) s.(refresh_before) s.(build_env) s.(job_name)
    s.(retry_max) s.(retry_count) s.(not_before) s.(depends_on) s.(depends_on_any)
    s.(failure_reason) s.(failure_tail) s.(state) s.(submitted_at) s.(idempotency_key_hash)
    s.(submission_intent_digest) s.(submission_owner_hash) s.(submitter) s.(pid) s.(pgid)
    s.(pid_start_time) s.(scheduler_target) s.(scheduler_job_id) s.(scheduler_state)
    s.(scheduler_remote_workspace) s.(scheduler_submitted_at) s.(scheduler_started_at)
    s.(started_at) v s.(last_heartbeat_at) s.(pause_intent_at) s.(exit_code) s.(workdir)
    s.(program) s.(program_runtime_pin) s.(qvf_artifact_name) s.(paused_at)
    s.(paused_monotonic_at) s.(paused_seconds_total) s.(paused_by) s.(pause_intent_monotonic_at)
    s.(pause_intent_pgid) s.(pause_intent_by).
Definition set_exit_code (v : option Z) (s : JobSpec) : JobSpec :=
  MkSpec s.(id) s.(command) s.(cwd) s.(cpus) s.(gpus) s.(gpu_devices) s.(mem_mb)
    s.(wall_time_seconds) s.(priority) s.(refresh_before) s.(build_env) s.(job_name)
    s.(retry_max) s.(retry_count) s.(not_before) s.(depends_on) s.(depends_on_any)
    s.(failure_reason) s.(failure_tail) s.(state) s.(submitted_at) s.(idempotency_key_hash)
    s.(submission_intent_digest) s.(submission_owner_hash) s.(submitter) s.(pid) s.(pgid)
    s.(pid_start_time) s.(scheduler_target) s.(scheduler_job_id) s.(scheduler_state)
    s.(scheduler_remote_workspace) s.(scheduler_submitted_at) s.(scheduler_started_at)
    s.(started_at) s.(finished_at) s.(last_heartbeat_at) s.(pause_intent_at) v s.(workdir)
    s.(program) s.(program_runtime_pin) s.(qvf_artifact_name) s.(paused_at)
    s.(paused_monotonic_at) s.(paused_seconds_total) s.(paused_by) s.(pause_intent_monotonic_at)
    s.(pause_intent_pgid) s.(pause_intent_by).
Definition set_pid (v : option Z) (s : JobSpec) : JobSpec :=
  MkSpec s.(id) s.(command) s.(cwd) s.(cpus) s.(gpus) s.(gpu_devices) s.(mem_mb)
    s.(wall_time_seconds) s.(priority) s.(refresh_before) s.(build_env) s.(job_name)
    s.(retry_max) s.(retry_count) s.(not_before) s.(depends_on) s.(depends_on_any)
    s.(failure_reason) s.(failure_tail) s.(state) s.(submitted_at) s.(idempotency_key_hash)
    s.(submission_intent_digest) s.(submission_owner_hash) s.(submitter) v s.(pgid)
    s.(pid_start_time) s.(scheduler_target) s.(scheduler_job_id) s.(scheduler_state)
    s.(scheduler_remote_workspace) s.(scheduler_submitted_at) s.(scheduler_started_at)
    s.(started_at) s.(finished_at) s.(last_heartbeat_at) s.(pause_intent_at) s.(exit_code)
    s.(workdir) s.(program) s.(program_runtime_pin) s.(qvf_artifact_name) s.(paused_at)
    s.(paused_monotonic_at) s.(paused_seconds_total) s.(paused_by) s.(pause_intent_monotonic_at)
    s.(pause_intent_pgid) s.(pause_intent_by).
Definition set_pgid (v : option Z) (s : JobSpec) : JobSpec :=
  MkSpec s.(id) s.(command) s.(cwd) s.(cpus) s.(gpus) s.(gpu_devices) s.(mem_mb)
    s.(wall_time_seconds) s.(priority) s.(refresh_before) s.(build_env) s.(job_name)
    s.(retry_max) s.(retry_count) s.(not_before) s.(depends_on) s.(depends_on_any)
    s.(failure_reason) s.(failure_tail) s.(state) s.(submitted_at) s.(idempotency_key_hash)
    s.(submission_intent_digest) s.(submission_owner_hash) s.(submitter) s.(pid) v
    s.(pid_start_time) s.(scheduler_target) s.(scheduler_job_id) s.(scheduler_state)
    s.(scheduler_remote_workspace) s.(scheduler_submitted_at) s.(scheduler_started_at)
    s.(started_at) s.(finished_at) s.(last_heartbeat_at) s.(pause_intent_at) s.(exit_code)
    s.(workdir) s.(program) s.(program_runtime_pin) s.(qvf_artifact_name) s.(paused_at)
    s.(paused_monotonic_at) s.(paused_seconds_total) s.(paused_by) s.(pause_intent_monotonic_at)
    s.(pause_intent_pgid) s.(pause_intent_by).
Definition set_pid_start_time (v : option Z) (s : JobSpec) : JobSpec :=
  MkSpec s.(id) s.(command) s.(cwd) s.(cpus) s.(gpus) s.(gpu_devices) s.(mem_mb)
    s.(wall_time_seconds) s.(priority) s.(refresh_before) s.(build_env) s.(job_name)
    s.(retry_max) s.(retry_count) s.(not_before) s.(depends_on) s.(depends_on_any)
    s.(failure_reason) s.(failure_tail) s.(state) s.(submitted_at) s.(idempotency_key_hash)
    s.(submission_intent_digest) s.(submission_owner_hash) s.(submitter) s.(pid) s.(pgid) v
    s.(scheduler_target) s.(scheduler_job_id) s.(scheduler_state) s.(scheduler_remote_workspace)
    s.(scheduler_submitted_at) s.(scheduler_started_at) s.(started_at) s.(finished_at)
    s.(last_heartbeat_at) s.(pause_intent_at) s.(exit_code) s.(workdir) s.(program)
    s.(program_runtime_pin) s.(qvf_artifact_name) s.(paused_at)
    s.(paused_monotonic_at) s.(paused_seconds_total) s.(paused_by) s.(pause_intent_monotonic_at)
    s.(pause_intent_pgid) s.(pause_intent_by).
Definition set_started_at (v : option timestamp) (s : JobSpec) : JobSpec :=
  MkSpec s.(id) s.(command) s.(cwd) s.(cpus) s.(gpus) s.(gpu_devices) s.(mem_mb)
    s.(wall_time_seconds) s.(priority) s.(refresh_before) s.(build_env) s.(job_name)
    s.(retry_max) s.(retry_count) s.(not_before) s.(depends_on) s.(depends_on_any)
    s.(failure_reason) s.(failure_tail) s.(state) s.(submitted_at) s.(idempotency_key_hash)
    s.(submission_intent_digest) s.(submission_owner_hash) s.(submitter) s.(pid) s.(pgid)
    s.(pid_start_time) s.(scheduler_target) s.(scheduler_job_id) s.(scheduler_state)
    s.(scheduler_remote_workspace) s.(scheduler_submitted_at) s.(scheduler_started_at) v
    s.(finished_at) s.(last_heartbeat_at) s.(pause_intent_at) s.(exit_code) s.(workdir)
    s.(program) s.(program_runtime_pin) s.(qvf_artifact_name) s.(paused_at)
    s.(paused_monotonic_at) s.(paused_seconds_total) s.(paused_by) s.(pause_intent_monotonic_at)
    s.(pause_intent_pgid) s.(pause_intent_by).
Definition set_retry_count (v : Z) (s : JobSpec) : JobSpec :=
  MkSpec s.(id) s.(command) s.(cwd) s.(cpus) s.(gpus) s.(gpu_devices) s.(mem_mb)
    s.(wall_time_seconds) s.(priority) s.(refresh_before) s.(build_env) s.(job_name)
    s.(retry_max) v s.(not_before) s.(depends_on) s.(depends_on_any) s.(failure_reason)
    s.(failure_tail) s.(state) s.(submitted_at) s.(idempotency_key_hash)
    s.(submission_intent_digest) s.(submission_owner_hash) s.(submitter) s.(pid) s.(pgid)
    s.(pid_start_time) s.(scheduler_target) s.(scheduler_job_id) s.(scheduler_state)
    s.(scheduler_remote_workspace) s.(scheduler_submitted_at) s.(scheduler_started_at)
    s.(started_at) s.(finished_at) s.(last_heartbeat_at) s.(pause_intent_at) s.(exit_code)
    s.(workdir) s.(program) s.(program_runtime_pin) s.(qvf_artifact_name) s.(paused_at)
    s.(paused_monotonic_at) s.(paused_seconds_total) s.(paused_by) s.(pause_intent_monotonic_at)
    s.(pause_intent_pgid) s.(pause_intent_by).
Definition set_not_before (v : option timestamp) (s : JobSpec) : JobSpec :=
  MkSpec s.(id) s.(command) s.(cwd) s.(cpus) s.(gpus) s.(gpu_devices) s.(mem_mb)
    s.(wall_time_seconds) s.(priority) s.(refresh_before) s.(build_env) s.(job_name)
    s.(retry_max) s.(retry_count) v s.(depends_on) s.(depends_on_any) s.(failure_reason)
    s.(failure_tail) s.(state) s.(submitted_at) s.(idempotency_key_hash)
    s.(submission_intent_digest) s.(submission_owner_hash) s.(submitter) s.(pid) s.(pgid)
    s.(pid_start_time) s.(scheduler_target) s.(scheduler_job_id) s.(scheduler_state)
    s.(scheduler_remote_workspace) s.(scheduler_submitted_at) s.(scheduler_started_at)
    s.(started_at) s.(finished_at) s.(last_heartbeat_at) s.(pause_intent_at) s.(exit_code)
    s.(workdir) s.(program) s.(program_runtime_pin) s.(qvf_artifact_name) s.(paused_at)
    s.(paused_monotonic_at) s.(paused_seconds_total) s.(paused_by) s.(pause_intent_monotonic_at)
    s.(pause_intent_pgid) s.(pause_intent_by).
Definition set_scheduler_job_id (v : option string) (s : JobSpec) : JobSpec :=
  MkSpec s.(id) s.(command) s.(cwd) s.(cpus) s.(gpus) s.(gpu_devices) s.(mem_mb)
    s.(wall_time_seconds) s.(priority) s.(refresh_before) s.(build_env) s.(job_name)
    s.(retry_max) s.(retry_count) s.(not_before) s.(depends_on) s.(depends_on_any)
    s.(failure_reason) s.(failure_tail) s.(state) s.(submitted_at) s.(idempotency_key_hash)
    s.(submission_intent_digest) s.(submission_owner_hash) s.(submitter) s.(pid) s.(pgid)
    s.(pid_start_time) s.(scheduler_target) v s.(scheduler_state) s.(scheduler_remote_workspace)
    s.(scheduler_submitted_at) s.(scheduler_started_at) s.(started_at) s.(finished_at)
    s.(last_heartbeat_at) s.(pause_intent_at) s.(exit_code) s.(workdir) s.(program)
    s.(program_runtime_pin) s.(qvf_artifact_name) s.(paused_at)
    s.(paused_monotonic_at) s.(paused_seconds_total) s.(paused_by) s.(pause_intent_monotonic_at)
    s.(pause_intent_pgid) s.(pause_intent_by).
Definition set_scheduler_state (v : option string) (s : JobSpec) : JobSpec :=
  MkSpec s.(id) s.(command) s.(cwd) s.(cpus) s.(gpus) s.(gpu_devices) s.(mem_mb)
    s.(wall_time_seconds) s.(priority) s.(refresh_before) s.(build_env) s.(job_name)
    s.(retry_max) s.(retry_count) s.(not_before) s.(depends_on) s.(depends_on_any)
    s.(failure_reason) s.(failure_tail) s.(state) s.(submitted_at) s.(idempotency_key_hash)
    s.(submission_intent_digest) s.(submission_owner_hash) s.(submitter) s.(pid) s.(pgid)
    s.(pid_start_time) s.(scheduler_target) s.(scheduler_job_id) v
    s.(scheduler_remote_workspace) s.(scheduler_submitted_at) s.(scheduler_started_at)
    s.(started_at) s.(finished_at) s.(last_heartbeat_at) s.(pause_intent_at) s.(exit_code)
    s.(workdir) s.(program) s.(program_runtime_pin) s.(qvf_artifact_name) s.(paused_at)
    s.(paused_monotonic_at) s.(paused_seconds_total) s.(paused_by) s.(pause_intent_monotonic_at)
    s.(pause_intent_pgid) s.(pause_intent_by).
Definition set_scheduler_submitted_at (v : option timestamp) (s : JobSpec) : JobSpec :=
  MkSpec s.(id) s.(command) s.(cwd) s.(cpus) s.(gpus) s.(gpu_devices) s.(mem_mb)
    s.(wall_time_seconds) s.(priority) s.(refresh_before) s.(build_env) s.(job_name)
    s.(retry_max) s.(retry_count) s.(not_before) s.(depends_on) s.(depends_on_any)
    s.(failure_reason) s.(failure_tail) s.(state) s.(submitted_at) s.(idempotency_key_hash)
    s.(submission_intent_digest) s.(submission_owner_hash) s.(submitter) s.(pid) s.(pgid)
    s.(pid_start_time) s.(scheduler_target) s.(scheduler_job_id) s.(scheduler_state)
    s.(scheduler_remote_workspace) v s.(scheduler_started_at) s.(started_at) s.(finished_at)
    s.(last_heartbeat_at) s.(pause_intent_at) s.(exit_code) s.(workdir) s.(program)
    s.(program_runtime_pin) s.(qvf_artifact_name) s.(paused_at)
    s.(paused_monotonic_at) s.(paused_seconds_total) s.(paused_by) s.(pause_intent_monotonic_at)
    s.(pause_intent_pgid) s.(pause_intent_by).
Definition set_scheduler_started_at (v : option timestamp) (s : JobSpec) : JobSpec :=
  MkSpec s.(id) s.(command) s.(cwd) s.(cpus) s.(gpus) s.(gpu_devices) s.(mem_mb)
    s.(wall_time_seconds) s.(priority) s.(refresh_before) s.(build_env) s.(job_name)
    s.(retry_max) s.(retry_count) s.(not_before) s.(depends_on) s.(depends_on_any)
    s.(failure_reason) s.(failure_tail) s.(state) s.(submitted_at) s.(idempotency_key_hash)
    s.(submission_intent_digest) s.(submission_owner_hash) s.(submitter) s.(pid) s.(pgid)
    s.(pid_start_time) s.(scheduler_target) s.(scheduler_job_id) s.(scheduler_state)
    s.(scheduler_remote_workspace) s.(scheduler_submitted_at) v s.(started_at) s.(finished_at)
    s.(last_heartbeat_at) s.(pause_intent_at) s.(exit_code) s.(workdir) s.(program)
    s.(program_runtime_pin) s.(qvf_artifact_name) s.(paused_at)
    s.(paused_monotonic_at) s.(paused_seconds_total) s.(paused_by) s.(pause_intent_monotonic_at)
    s.(pause_intent_pgid) s.(pause_intent_by).
Definition set_program_runtime_pin (v : option ProgramRuntimePin) (s : JobSpec) : JobSpec :=
  MkSpec s.(id) s.(command) s.(cwd) s.(cpus) s.(gpus) s.(gpu_devices) s.(mem_mb)
    s.(wall_time_seconds) s.(priority) s.(refresh_before) s.(build_env) s.(job_name)
    s.(retry_max) s.(retry_count) s.(not_before) s.(depends_on) s.(depends_on_any)
    s.(failure_reason) s.(failure_tail) s.(state) s.(submitted_at) s.(idempotency_key_hash)
    s.(submission_intent_digest) s.(submission_owner_hash) s.(submitter) s.(pid) s.(pgid)
    s.(pid_start_time) s.(scheduler_target) s.(scheduler_job_id) s.(scheduler_state)
    s.(scheduler_remote_workspace) s.(scheduler_submitted_at) s.(scheduler_started_at)
    s.(started_at) s.(finished_at) s.(last_heartbeat_at) s.(pause_intent_at) s.(exit_code)
    s.(workdir) s.(program) v s.(qvf_artifact_name) s.(paused_at)
    s.(paused_monotonic_at) s.(paused_seconds_total) s.(paused_by) s.(pause_intent_monotonic_at)
    s.(pause_intent_pgid) s.(pause_intent_by).
Definition set_idempotency_key_hash (v : option string) (s : JobSpec) : JobSpec :=
  MkSpec s.(id) s.(command) s.(cwd) s.(cpus) s.(gpus) s.(gpu_devices) s.(mem_mb)
    s.(wall_time_seconds) s.(priority) s.(refresh_before) s.(build_env) s.(job_name)
    s.(retry_max) s.(retry_count) s.(not_before) s.(depends_on) s.(depends_on_any)
    s.(failure_reason) s.(failure_tail) s.(state) s.(submitted_at) v
    s.(submission_intent_digest) s.(submission_owner_hash) s.(submitter) s.(pid) s.(pgid)
    s.(pid_start_time) s.(scheduler_target) s.(scheduler_job_id) s.(scheduler_state)
    s.(scheduler_remote_workspace) s.(scheduler_submitted_at) s.(scheduler_started_at)
    s.(started_at) s.(finished_at) s.(last_heartbeat_at) s.(pause_intent_at) s.(exit_code)
    s.(workdir) s.(program) s.(program_runtime_pin) s.(qvf_artifact_name) s.(paused_at)
    s.(paused_monotonic_at) s.(paused_seconds_total) s.(paused_by) s.(pause_intent_monotonic_at)
    s.(pause_intent_pgid) s.(pause_intent_by).
Definition set_submission_intent_digest (v : option string) (s : JobSpec) : JobSpec :=
  MkSpec s.(id) s.(command) s.(cwd) s.(cpus) s.(gpus) s.(gpu_devices) s.(mem_mb)
    s.(wall_time_seconds) s.(priority) s.(refresh_before) s.(build_env) s.(job_name)
    s.(retry_max) s.(retry_count) s.(not_before) s.(depends_on) s.(depends_on_any)
    s.(failure_reason) s.(failure_tail) s.(state) s.(submitted_at) s.(idempotency_key_hash) v
    s.(submission_owner_hash) s.(submitter) s.(pid) s.(pgid) s.(pid_start_time)
    s.(scheduler_target) s.(scheduler_job_id) s.(scheduler_state) s.(scheduler_remote_workspace)
    s.(scheduler_submitted_at) s.(scheduler_started_at) s.(started_at) s.(finished_at)
    s.(last_heartbeat_at) s.(pause_intent_at) s.(exit_code) s.(workdir) s.(program)
    s.(program_runtime_pin) s.(qvf_artifact_name) s.(paused_at)
    s.(paused_monotonic_at) s.(paused_seconds_total) s.(paused_by) s.(pause_intent_monotonic_at)
    s.(pause_intent_pgid) s.(pause_intent_by).
Definition set_submission_owner_hash (v : option string) (s : JobSpec) : JobSpec :=
  MkSpec s.(id) s.(command) s.(cwd) s.(cpus) s.(gpus) s.(gpu_devices) s.(mem_mb)
    s.(wall_time_seconds) s.(priority) s.(refresh_before) s.(build_env) s.(job_name)
    s.(retry_max) s.(retry_count) s.(not_before) s.(depends_on) s.(depends_on_any)
    s.(failure_reason) s.(failure_tail) s.(state) s.(submitted_at) s.(idempotency_key_hash)
    s.(submission_intent_digest) v s.(submitter) s.(pid) s.(pgid) s.(pid_start_time)
    s.(scheduler_target) s.(scheduler_job_id) s.(scheduler_state) s.(scheduler_remote_workspace)
    s.(scheduler_submitted_at) s.(scheduler_started_at) s.(started_at) s.(finished_at)
    s.(last_heartbeat_at) s.(pause_intent_at) s.(exit_code) s.(workdir) s.(program)
    s.(program_runtime_pin) s.(qvf_artifact_name) s.(paused_at)
    s.(paused_monotonic_at) s.(paused_seconds_total) s.(paused_by) s.(pause_intent_monotonic_at)
    s.(pause_intent_pgid) s.(pause_intent_by).
Definition set_depends_on (v : list string) (s : JobSpec) : JobSpec :=
  MkSpec s.(id) s.(command) s.(cwd) s.(cpus) s.(gpus) s.(gpu_devices) s.(mem_mb)
    s.(wall_time_seconds) s.(priority) s.(refresh_before) s.(build_env) s.(job_name)
    s.(retry_max) s.(retry_count) s.(not_before) v s.(depends_on_any) s.(failure_reason)
    s.(failure_tail) s.(state) s.(submitted_at) s.(idempotency_key_hash)
    s.(submission_intent_digest) s.(submission_owner_hash) s.(submitter) s.(pid) s.(pgid)
    s.(pid_start_time) s.(scheduler_target) s.(scheduler_job_id) s.(scheduler_state)
    s.(scheduler_remote_workspace) s.(scheduler_submitted_at) s.(scheduler_started_at)
    s.(started_at) s.(finished_at) s.(last_heartbeat_at) s.(pause_intent_at) s.(exit_code)
    s.(workdir) s.(program) s.(program_runtime_pin) s.(qvf_artifact_name) s.(paused_at)
    s.(paused_monotonic_at) s.(paused_seconds_total) s.(paused_by) s.(pause_intent_monotonic_at)
    s.(pause_intent_pgid) s.(pause_intent_by).
Definition set_refresh_before (v : option string) (s : JobSpec) : JobSpec :=
  MkSpec s.(id) s.(command) s.(cwd) s.(cpus) s.(gpus) s.(gpu_devices) s.(mem_mb)
    s.(wall_time_seconds) s.(priority) v s.(build_env) s.(job_name) s.(retry_max)
    s.(retry_count) s.(not_before) s.(depends_on) s.(depends_on_any) s.(failure_reason)
    s.(failure_tail) s.(state) s.(submitted_at) s.(idempotency_key_hash)
    s.(submission_intent_digest) s.(submission_owner_hash) s.(submitter) s.(pid) s.(pgid)
    s.(pid_start_time) s.(scheduler_target) s.(scheduler_job_id) s.(scheduler_state)
    s.(scheduler_remote_workspace) s.(scheduler_submitted_at) s.(scheduler_started_at)
    s.(started_at) s.(finished_at) s.(last_heartbeat_at) s.(pause_intent_at) s.(exit_code)
    s.(workdir) s.(program) s.(program_runtime_pin) s.(qvf_artifact_name) s.(paused_at)
    s.(paused_monotonic_at) s.(paused_seconds_total) s.(paused_by) s.(pause_intent_monotonic_at)
    s.(pause_intent_pgid) s.(pause_intent_by).
Definition set_gpu_devices (v : option (list string)) (s : JobSpec) : JobSpec :=
  MkSpec s.(id) s.(command) s.(cwd) s.(cpus) s.(gpus) v s.(mem_mb) s.(wall_time_seconds)
    s.(priority) s.(refresh_before) s.(build_env) s.(job_name) s.(retry_max) s.(retry_count)
    s.(not_before) s.(depends_on) s.(depends_on_any) s.(failure_reason) s.(failure_tail)
    s.(state) s.(submitted_at) s.(idempotency_key_hash) s.(submission_intent_digest)
    s.(submission_owner_hash) s.(submitter) s.(pid) s.(pgid) s.(pid_start_time)
    s.(scheduler_target) s.(scheduler_job_id) s.(scheduler_state) s.(scheduler_remote_workspace)
    s.(scheduler_submitted_at) s.(scheduler_started_at) s.(started_at) s.(finished_at)
    s.(last_heartbeat_at) s.(pause_intent_at) s.(exit_code) s.(workdir) s.(program)
    s.(program_runtime_pin) s.(qvf_artifact_name) s.(paused_at)
    s.(paused_monotonic_at) s.(paused_seconds_total) s.(paused_by) s.(pause_intent_monotonic_at)
    s.(pause_intent_pgid) s.(pause_intent_by).
Definition set_workdir (v : option string) (s : JobSpec) : JobSpec :=
  MkSpec s.(id) s.(command) s.(cwd) s.(cpus) s.(gpus) s.(gpu_devices) s.(mem_mb)
    s.(wall_time_seconds) s.(priority) s.(refresh_before) s.(build_env) s.(job_name)
    s.(retry_max) s.(retry_count) s.(not_before) s.(depends_on) s.(depends_on_any)
    s.(failure_reason) s.(failure_tail) s.(state) s.(submitted_at) s.(idempotency_key_hash)
    s.(submission_intent_digest) s.(submission_owner_hash) s.(submitter) s.(pid) s.(pgid)
    s.(pid_start_time) s.(scheduler_target) s.(scheduler_job_id) s.(scheduler_state)
    s.(scheduler_remote_workspace) s.(scheduler_submitted_at) s.(scheduler_started_at)
    s.(started_at) s.(finished_at) s.(last_heartbeat_at) s.(pause_intent_at) s.(exit_code) v
    s.(program) s.(program_runtime_pin) s.(qvf_artifact_name) s.(paused_at)
    s.(paused_monotonic_at) s.(paused_seconds_total) s.(paused_by) s.(pause_intent_monotonic_at)
    s.(pause_intent_pgid) s.(pause_intent_by).
Definition set_scheduler_remote_workspace (v : option string) (s : JobSpec) : JobSpec :=
  MkSpec s.(id) s.(command) s.(cwd) s.(cpus) s.(gpus) s.(gpu_devices) s.(mem_mb)
    s.(wall_time_seconds) s.(priority) s.(refresh_before) s.(build_env) s.(job_name)
    s.(retry_max) s.(retry_count) s.(not_before) s.(depends_on) s.(depends_on_any)
    s.(failure_reason) s.(failure_tail) s.(state) s.(submitted_at) s.(idempotency_key_hash)
    s.(submission_intent_digest) s.(submission_owner_hash) s.(submitter) s.(pid) s.(pgid)
    s.(pid_start_time) s.(scheduler_target) s.(scheduler_job_id) s.(scheduler_state) v
    s.(scheduler_submitted_at) s.(scheduler_started_at) s.(started_at) s.(finished_at)
    s.(last_heartbeat_at) s.(pause_intent_at) s.(exit_code) s.(workdir) s.(program)
    s.(program_runtime_pin) s.(qvf_artifact_name) s.(paused_at)
    s.(paused_monotonic_at) s.(paused_seconds_total) s.(paused_by) s.(pause_intent_monotonic_at)
    s.(pause_intent_pgid) s.(pause_intent_by).
Definition set_last_heartbeat_at (v : option timestamp) (s : JobSpec) : JobSpec :=
  MkSpec s.(id) s.(command) s.(cwd) s.(cpus) s.(gpus) s.(gpu_devices) s.(mem_mb)
    s.(wall_time_seconds) s.(priority) s.(refresh_before) s.(build_env) s.(job_name)
    s.(retry_max) s.(retry_count) s.(not_before) s.(depends_on) s.(depends_on_any)
    s.(failure_reason) s.(failure_tail) s.(state) s.(submitted_at) s.(idempotency_key_hash)
    s.(submission_intent_digest) s.(submission_owner_hash) s.(submitter) s.(pid) s.(pgid)
    s.(pid_start_time) s.(scheduler_target) s.(scheduler_job_id) s.(scheduler_state)
    s.(scheduler_remote_workspace) s.(scheduler_submitted_at) s.(scheduler_started_at)
    s.(started_at) s.(finished_at) v s.(pause_intent_at) s.(exit_code) s.(workdir) s.(program)
    s.(program_runtime_pin) s.(qvf_artifact_name) s.(paused_at)
    s.(paused_monotonic_at) s.(paused_seconds_total) s.(paused_by) s.(pause_intent_monotonic_at)
    s.(pause_intent_pgid) s.(pause_intent_by).
Definition set_scheduler_target (v : option string) (s : JobSpec) : JobSpec :=
  MkSpec s.(id) s.(command) s.(cwd) s.(cpus) s.(gpus) s.(gpu_devices) s.(mem_mb)
    s.(wall_time_seconds) s.(priority) s.(refresh_before) s.(build_env) s.(job_name)
    s.(retry_max) s.(retry_count) s.(not_before) s.(depends_on) s.(depends_on_any)
    s.(failure_reason) s.(failure_tail) s.(state) s.(submitted_at) s.(idempotency_key_hash)
    s.(submission_intent_digest) s.(submission_owner_hash) s.(submitter) s.(pid) s.(pgid)
    s.(pid_start_time) v s.(scheduler_job_id) s.(scheduler_state) s.(scheduler_remote_workspace)
    s.(scheduler_submitted_at) s.(scheduler_started_at) s.(started_at) s.(finished_at)
    s.(last_heartbeat_at) s.(pause_intent_at) s.(exit_code) s.(workdir) s.(program)
    s.(program_runtime_pin) s.(qvf_artifact_name) s.(paused_at)
    s.(paused_monotonic_at) s.(paused_seconds_total) s.(paused_by) s.(pause_intent_monotonic_at)
    s.(pause_intent_pgid) s.(pause_intent_by).
Definition set_command (v : list string) (s : JobSpec) : JobSpec :=
  MkSpec s.(id) v s.(cwd) s.(cpus) s.(gpus) s.(gpu_devices) s.(mem_mb) s.(wall_time_seconds)
    s.(priority) s.(refresh_before) s.(build_env) s.(job_name) s.(retry_max) s.(retry_count)
    s.(not_before) s.(depends_on) s.(depends_on_any) s.(failure_reason) s.(failure_tail)
    s.(state) s.(submitted_at) s.(idempotency_key_hash) s.(submission_intent_digest)
    s.(submission_owner_hash) s.(submitter) s.(pid) s.(pgid) s.(pid_start_time)
    s.(scheduler_target) s.(scheduler_job_id) s.(scheduler_state) s.(scheduler_remote_workspace)
    s.(scheduler_submitted_at) s.(scheduler_started_at) s.(started_at) s.(finished_at)
    s.(last_heartbeat_at) s.(pause_intent_at) s.(exit_code) s.(workdir) s.(program)
    s.(program_runtime_pin) s.(qvf_artifact_name) s.(paused_at)
    s.(paused_monotonic_at) s.(paused_seconds_total) s.(paused_by) s.(pause_intent_monotonic_at)
    s.(pause_intent_pgid) s.(pause_intent_by).
Definition set_failure_tail (v : option string) (s : JobSpec) : JobSpec :=
  MkSpec s.(id) s.(command) s.(cwd) s.(cpus) s.(gpus) s.(gpu_devices) s.(mem_mb)
    s.(wall_time_seconds) s.(priority) s.(refresh_before) s.(build_env) s.(job_name)
    s.(retry_max) s.(retry_count) s.(not_before) s.(depends_on) s.(depends_on_any)
    s.(failure_reason) v s.(state) s.(submitted_at) s.(idempotency_key_hash)
    s.(submission_intent_digest) s.(submission_owner_hash) s.(submitter) s.(pid) s.(pgid)
    s.(pid_start_time) s.(scheduler_target) s.(scheduler_job_id) s.(scheduler_state)
    s.(scheduler_remote_workspace) s.(scheduler_submitted_at) s.(scheduler_started_at)
    s.(started_at) s.(finished_at) s.(last_heartbeat_at) s.(pause_intent_at) s.(exit_code)
    s.(workdir) s.(program) s.(program_runtime_pin) s.(qvf_artifact_name) s.(paused_at)
    s.(paused_monotonic_at) s.(paused_seconds_total) s.(paused_by) s.(pause_intent_monotonic_at)
    s.(pause_intent_pgid) s.(pause_intent_by).
Definition set_paused_at (v : option timestamp) (s : JobSpec) : JobSpec :=
  MkSpec s.(id) s.(command) s.(cwd) s.(cpus) s.(gpus) s.(gpu_devices) s.(mem_mb)
    s.(wall_time_seconds) s.(priority) s.(refresh_before) s.(build_env) s.(job_name)
    s.(retry_max) s.(retry_count) s.(not_before) s.(depends_on) s.(depends_on_any)
    s.(failure_reason) s.(failure_tail) s.(state) s.(submitted_at) s.(idempotency_key_hash)
    s.(submission_intent_digest) s.(submission_owner_hash) s.(submitter) s.(pid) s.(pgid)
    s.(pid_start_time) s.(scheduler_target) s.(scheduler_job_id) s.(scheduler_state)
    s.(scheduler_remote_workspace) s.(scheduler_submitted_at) s.(scheduler_started_at)
    s.(started_at) s.(finished_at) s.(last_heartbeat_at) s.(pause_intent_at) s.(exit_code)
    s.(workdir) s.(program) s.(program_runtime_pin) s.(qvf_artifact_name) v
    s.(paused_monotonic_at) s.(paused_seconds_total) s.(paused_by)
    s.(pause_intent_monotonic_at) s.(pause_intent_pgid) s.(pause_intent_by).
Definition set_paused_monotonic_at (v : option Z) (s : JobSpec) : JobSpec :=
  MkSpec s.(id) s.(command) s.(cwd) s.(cpus) s.(gpus) s.(gpu_devices) s.(mem_mb)
    s.(wall_time_seconds) s.(priority) s.(refresh_before) s.(build_env) s.(job_name)
    s.(retry_max) s.(retry_count) s.(not_before) s.(depends_on) s.(depends_on_any)
    s.(failure_reason) s.(failure_tail) s.(state) s.(submitted_at) s.(idempotency_key_hash)
    s.(submission_intent_digest) s.(submission_owner_hash) s.(submitter) s.(pid) s.(pgid)
    s.(pid_start_time) s.(scheduler_target) s.(scheduler_job_id) s.(scheduler_state)
    s.(scheduler_remote_workspace) s.(scheduler_submitted_at) s.(scheduler_started_at)
    s.(started_at) s.(finished_at) s.(last_heartbeat_at) s.(pause_intent_at) s.(exit_code)
    s.(workdir) s.(program) s.(program_runtime_pin) s.(qvf_artifact_name) s.(paused_at) v
    s.(paused_seconds_total) s.(paused_by) s.(pause_intent_monotonic_at) s.(pause_intent_pgid)
    s.(pause_intent_by).
Definition set_paused_seconds_total (v : Z) (s : JobSpec) : JobSpec :=
  MkSpec s.(id) s.(command) s.(cwd) s.(cpus) s.(gpus) s.(gpu_devices) s.(mem_mb)
    s.(wall_time_seconds) s.(priority) s.(refresh_before) s.(build_env) s.(job_name)
    s.(retry_max) s.(retry_count) s.(not_before) s.(depends_on) s.(depends_on_any)
    s.(failure_reason) s.(failure_tail) s.(state) s.(submitted_at) s.(idempotency_key_hash)
    s.(submission_intent_digest) s.(submission_owner_hash) s.(submitter) s.(pid) s.(pgid)
    s.(pid_start_time) s.(scheduler_target) s.(scheduler_job_id) s.(scheduler_state)
    s.(scheduler_remote_workspace) s.(scheduler_submitted_at) s.(scheduler_started_at)
    s.(started_at) s.(finished_at) s.(last_heartbeat_at) s.(pause_intent_at) s.(exit_code)
    s.(workdir) s.(program) s.(program_runtime_pin) s.(qvf_artifact_name) s.(paused_at)
    s.(paused_monotonic_at) v s.(paused_by) s.(pause_intent_monotonic_at)
    s.(pause_intent_pgid) s.(pause_intent_by).
Definition set_paused_by (v : option string) (s : JobSpec) : JobSpec :=
  MkSpec s.(id) s.(command) s.(cwd) s.(cpus) s.(gpus) s.(gpu_devices) s.(mem_mb)
    s.(wall_time_seconds) s.(priority) s.(refresh_before) s.(build_env) s.(job_name)
    s.(retry_max) s.(retry_count) s.(not_before) s.(depends_on) s.(depends_on_any)
    s.(failure_reason) s.(failure_tail) s.(state) s.(submitted_at) s.(idempotency_key_hash)
    s.(submission_intent_digest) s.(submission_owner_hash) s.(submitter) s.(pid) s.(pgid)
    s.(pid_start_time) s.(scheduler_target) s.(scheduler_job_id) s.(scheduler_state)
    s.(scheduler_remote_workspace) s.(scheduler_submitted_at) s.(scheduler_started_at)
    s.(started_at) s.(finished_at) s.(last_heartbeat_at) s.(pause_intent_at) s.(exit_code)
    s.(workdir) s.(program) s.(program_runtime_pin) s.(qvf_artifact_name) s.(paused_at)
    s.(paused_monotonic_at) s.(paused_seconds_total) v s.(pause_intent_monotonic_at)
    s.(pause_intent_pgid) s.(pause_intent_by).
Definition set_pause_intent_monotonic_at (v : option Z) (s : JobSpec) : JobSpec :=
  MkSpec s.(id) s.(command) s.(cwd) s.(cpus) s.(gpus) s.(gpu_devices) s.(mem_mb)
    s.(wall_time_seconds) s.(priority) s.(refresh_before) s.(build_env) s.(job_name)
    s.(retry_max) s.(retry_count) s.(not_before) s.(depends_on) s.(depends_on_any)
    s.(failure_reason) s.(failure_tail) s.(state) s.(submitted_at) s.(idempotency_key_hash)
    s.(submission_intent_digest) s.(submission_owner_hash) s.(submitter) s.(pid) s.(pgid)
    s.(pid_start_time) s.(scheduler_target) s.(scheduler_job_id) s.(scheduler_state)
    s.(scheduler_remote_workspace) s.(scheduler_submitted_at) s.(scheduler_started_at)
    s.(started_at) s.(finished_at) s.(last_heartbeat_at) s.(pause_intent_at) s.(exit_code)
    s.(workdir) s.(program) s.(program_runtime_pin) s.(qvf_artifact_name) s.(paused_at)
    s.(paused_monotonic_at) s.(paused_seconds_total) s.(paused_by) v s.(pause_intent_pgid)
    s.(pause_intent_by).
Definition set_pause_intent_pgid (v : option Z) (s : JobSpec) : JobSpec :=
  MkSpec s.(id) s.(command) s.(cwd) s.(cpus) s.(gpus) s.(gpu_devices) s.(mem_mb)
    s.(wall_time_seconds) s.(priority) s.(refresh_before) s.(build_env) s.(job_name)
    s.(retry_max) s.(retry_count) s.(not_before) s.(depends_on) s.(depends_on_any)
    s.(failure_reason) s.(failure_tail) s.(state) s.(submitted_at) s.(idempotency_key_hash)
    s.(submission_intent_digest) s.(submission_owner_hash) s.(submitter) s.(pid) s.(pgid)
    s.(pid_start_time) s.(scheduler_target) s.(scheduler_job_id) s.(scheduler_state)
    s.(scheduler_remote_workspace) s.(scheduler_submitted_at) s.(scheduler_started_at)
    s.(started_at) s.(finished_at) s.(last_heartbeat_at) s.(pause_intent_at) s.(exit_code)
    s.(workdir) s.(program) s.(program_runtime_pin) s.(qvf_artifact_name) s.(paused_at)
    s.(paused_monotonic_at) s.(paused_seconds_total) s.(paused_by)
    s.(pause_intent_monotonic_at) v s.(pause_intent_by).
Definition set_pause_intent_by (v : option string) (s : JobSpec) : JobSpec :=
  MkSpec s.(id) s.(command) s.(cwd) s.(cpus) s.(gpus) s.(gpu_devices) s.(mem_mb)
    s.(wall_time_seconds) s.(priority) s.(refresh_before) s.(build_env) s.(job_name)
    s.(retry_max) s.(retry_count) s.(not_before) s.(depends_on) s.(depends_on_any)
    s.(failure_reason) s.(failure_tail) s.(state) s.(submitted_at) s.(idempotency_key_hash)
    s.(submission_intent_digest) s.(submission_owner_hash) s.(submitter) s.(pid) s.(pgid)
    s.(pid_start_time) s.(scheduler_target) s.(scheduler_job_id) s.(scheduler_state)
    s.(scheduler_remote_workspace) s.(scheduler_submitted_at) s.(scheduler_started_at)
    s.(started_at) s.(finished_at) s.(last_heartbeat_at) s.(pause_intent_at) s.(exit_code)
    s.(workdir) s.(program) s.(program_runtime_pin) s.(qvf_artifact_name) s.(paused_at)
    s.(paused_monotonic_at) s.(paused_seconds_total) s.(paused_by)
    s.(pause_intent_monotonic_at) s.(pause_intent_pgid) v.
Definition set_pause_intent_at (v : option timestamp) (s : JobSpec) : JobSpec :=
  MkSpec s.(id) s.(command) s.(cwd) s.(cpus) s.(gpus) s.(gpu_devices) s.(mem_mb)
    s.(wall_time_seconds) s.(priority) s.(refresh_before) s.(build_env) s.(job_name)
    s.(retry_max) s.(retry_count) s.(not_before) s.(depends_on) s.(depends_on_any)
    s.(failure_reason) s.(failure_tail) s.(state) s.(submitted_at) s.(idempotency_key_hash)
    s.(submission_intent_digest) s.(submission_owner_hash) s.(submitter) s.(pid) s.(pgid)
    s.(pid_start_time) s.(scheduler_target) s.(scheduler_job_id) s.(scheduler_state)
    s.(scheduler_remote_workspace) s.(scheduler_submitted_at) s.(scheduler_started_at)
    s.(started_at) s.(finished_at) s.(last_heartbeat_at) v s.(exit_code) s.(workdir)
    s.(program) s.(program_runtime_pin) s.(qvf_artifact_name) s.(paused_at)
    s.(paused_monotonic_at) s.(paused_seconds_total) s.(paused_by)
    s.(pause_intent_monotonic_at) s.(pause_intent_pgid) s.(pause_intent_by).

Definition is_terminal (s : JobSpec) : bool := state_is_terminal s.(state).
Definition is_watchdog_killed (s : JobSpec) : bool := state_is_watchdog_killed s.(state).

(** ** Facts *)

Lemma is_terminal_spec st : state_is_terminal st = true ↔ st ∈ TERMINAL_STATES.
Proof. apply bool_decide_eq_true. Qed.

Lemma elem_of_dedupe x l : x ∈ dedupe l ↔ x ∈ l.
Proof.
  induction l as [|y l IH]; simpl; [done|]. rewrite mem_str_decide.
  case_bool_decide; rewrite ?elem_of_cons, IH; naive_solver.
Qed.

Lemma dedupe_NoDup l : NoDup (dedupe l).
Proof.
  induction l as [|y l IH]; simpl; [constructor|]. rewrite mem_str_decide.
  case_bool_decide; [done|]. constructor; [by rewrite elem_of_dedupe|done].
Qed.

Lemma elem_of_sorted_set x l : x ∈ sorted_set l ↔ x ∈ l.
Proof. unfold sorted_set. by rewrite elem_of_sort_by, elem_of_dedupe. Qed.

Lemma sorted_set_NoDup l : NoDup (sorted_set l).
Proof. unfold sorted_set. rewrite sort_by_perm. apply dedupe_NoDup. Qed.

Lemma sorted_set_ext l1 l2 : (∀ x, x ∈ l1 ↔ x ∈ l2) → sorted_set l1 = sorted_set l2.
Proof.
  intros H. apply sort_by_perm_eq; [apply _|apply String.leb_antisym|].
  apply NoDup_Permutation; [apply dedupe_NoDup..|]. intros x. by rewrite !elem_of_dedupe.
Qed.

Lemma sorted_set_idemp l : sorted_set (sorted_set l) = sorted_set l.
Proof. apply sorted_set_ext. intros x. apply elem_of_sorted_set. Qed.

Lemma sorted_set_nil l : sorted_set l = [] → l = [].
Proof.
  intros H. destruct l as [|x l]; [done|].
  assert (x ∈ sorted_set (x :: l)) as Hx by (rewrite elem_of_sorted_set; set_solver).
  rewrite H in Hx. set_solver.
Qed.

Lemma all_chars_no_char p c s :
  all_chars p s = true → p c = false → any_char (Ascii.eqb c) s = false.
Proof.
  induction s as [|d s IH]; simpl; [done|]. intros [Hd Hs]%andb_true_iff Hc.
  apply orb_false_iff. split; [|auto]. destruct (Ascii.eqb_spec c d); congruence.
Qed.
