(* ===== verification/Dialect.v ===== *)
(** * Reading batch schedulers: [src/vq/scheduler_dialect.py]

    What the daemon learns from squeue, sacct and qstat: job states and their
    coarse phases, the live poll, the accounting rows of an allocation and
    their collapse into one verdict, and walltimes.  Characters are code
    points below 256. *)

From S2P Require Import Prelude.

(** [DialectError], and the [IndexError] of an empty state. *)
Inductive dialect_error : Type := DialectError | StateIndexError.

(** ** Text *)

Definition push (c : ascii) (l : list string) : list string :=
  match l with [] => [String c ""] | h :: t => String c h :: t end.

(** [s.split(sep)], [s.split(sep, n)] *)
Fixpoint split_on (sep : ascii) (s : string) : list string :=
  match s with
  | EmptyString => [""]
  | String c r => if Ascii.eqb c sep then "" :: split_on sep r else push c (split_on sep r)
  end.

Fixpoint split_max (sep : ascii) (n : nat) (s : string) {struct s} : list string :=
  match n with
  | O => [s]
  | S n' =>
    match s with
    | EmptyString => [""]
    | String c r => if Ascii.eqb c sep then "" :: split_max sep n' r else push c (split_max sep n r)
    end
  end.

(** [s.splitlines()] *)
Definition is_line_break (c : ascii) : bool :=
  let n := N_of_ascii c in (((10 <=? n) && (n <=? 13)) || ((28 <=? n) && (n <=? 30)) || (n =? 133))%N.

Fixpoint splitlines (s : string) : list string :=
  match s with
  | EmptyString => []
  | String c r =>
    if is_line_break c then
      match Ascii.eqb c "013", r with
      | true, String d r' => if Ascii.eqb d "010" then "" :: splitlines r' else "" :: splitlines r
      | _, _ => "" :: splitlines r
      end
    else push c (splitlines r)
  end.

(** [s.split()] *)
Fixpoint words (s : string) : list string :=
  match s with
  | EmptyString => []
  | String c r =>
    if is_space c then words r
    else match r with
         | EmptyString => [String c ""]
         | String d _ => if is_space d then String c "" :: words r else push c (words r)
         end
  end.

Definition upper_char (c : ascii) : ascii :=
  if is_lower c then ascii_of_N (N_of_ascii c - 32) else c.
Fixpoint upper (s : string) : string :=
  match s with EmptyString => "" | String c r => String (upper_char c) (upper r) end.

Definition lower_char (c : ascii) : ascii :=
  if is_upper c then ascii_of_N (N_of_ascii c + 32) else c.
Fixpoint lower (s : string) : string :=
  match s with EmptyString => "" | String c r => String (lower_char c) (lower r) end.

(** [repr(s)]: quoted, with backslash escapes. *)
Definition hex_char (n : N) : ascii := if (n <? 10)%N then ascii_of_N (48 + n) else ascii_of_N (87 + n).
Definition repr_char (quote c : ascii) : string :=
  let n := N_of_ascii c in
  if Ascii.eqb c quote || Ascii.eqb c "\" then String "\" (String c "")
  else if Ascii.eqb c "009" then "\t" else if Ascii.eqb c "010" then "\n" else if Ascii.eqb c "013" then "\r"
  else if ((n <? 32) || ((127 <=? n) && (n <=? 160)) || (n =? 173))%N
  then "\x" +:+ String (hex_char (n / 16)) (String (hex_char (n mod 16)) "")
  else String c "".
Fixpoint repr_chars (quote : ascii) (s : string) : string :=
  match s with EmptyString => "" | String c r => repr_char quote c +:+ repr_chars quote r end.
Definition py_repr (s : string) : string :=
  let quote := if any_char (Ascii.eqb "'") s && negb (any_char (Ascii.eqb "034") s) then "034"%char else "'"%char in
  String quote "" +:+ repr_chars quote s +:+ String quote "".

Fixpoint lstrip_char (x : ascii) (s : string) : string :=
  match s with
  | EmptyString => EmptyString
  | String c r => if Ascii.eqb c x then lstrip_char x r else s
  end.
Definition rstrip_char (x : ascii) (s : string) : string := string_rev (lstrip_char x (string_rev s)).

(** The number a string of digits denotes. *)
Fixpoint digits_value (acc : Z) (s : string) : option Z :=
  match s with
  | EmptyString => Some acc
  | String c r =>
    if is_digit c then digits_value (10 * acc + (Z.of_N (N_of_ascii c) - 48)) r else None
  end.
Definition decimal (s : string) : option Z := match s with EmptyString => None | _ => digits_value 0 s end.

(** [int(s)]: white space around, a sign, and underscores between digits. *)
Definition signed (s : string) : option Z :=
  match s with
  | String "-" r => Z.opp <$> decimal r
  | String "+" r => decimal r
  | _ => decimal s
  end.
Fixpoint drop_underscores (after_digit : bool) (s : string) : option string :=
  match s with
  | EmptyString => Some ""
  | String c r =>
    if Ascii.eqb c "_" then
      match r with
      | String d _ => if after_digit && is_digit d then drop_underscores false r else None
      | EmptyString => None
      end
    else String c <$> drop_underscores (is_digit c) r
  end.
Definition py_int (s : string) : option Z := s ← drop_underscores false (strip s); signed s.

(** [s or None] *)
Definition or_none (s : string) : option string := match s with EmptyString => None | _ => Some s end.

(** ** Phases and states *)

Inductive SchedulerPhase : Type := PhasePending | PhaseRunning | PhaseFinished.

#[global] Instance SchedulerPhase_eq_dec : EqDecision SchedulerPhase.
Proof. solve_decision. Defined.

(** The part of [QstatDetail] that accounting rows fill. *)
Record QstatDetail : Type := MkDetail {
  qd_raw_state : string;
  qd_exec_host : option string;
  qd_walltime_used : option string;
  qd_walltime_limit : option string;
  qd_exit_code : option Z;
}.

#[global] Instance QstatDetail_eq_dec : EqDecision QstatDetail.
Proof. solve_decision. Defined.

Inductive dialect : Type := Torque | Slurm.

Definition torque_phase (state : string) : res dialect_error SchedulerPhase :=
  if mem_str state ["Q"; "W"; "H"; "T"] then Ok PhasePending
  else if mem_str state ["R"; "E"; "S"] then Ok PhaseRunning
  else if String.eqb state "C" then Ok PhaseFinished
  else Err DialectError.

Definition _PENDING_STATES : list string :=
  ["PENDING"; "CONFIGURING"; "REQUEUED"; "RESV_DEL_HOLD"; "REQUEUE_FED"; "REQUEUE_HOLD"].
Definition _RUNNING_STATES : list string :=
  ["RUNNING"; "COMPLETING"; "SUSPENDED"; "STOPPED"; "RESIZING"; "SIGNALING"; "STAGE_OUT"].
Definition _FINISHED_STATES : list string :=
  ["BOOT_FAIL"; "CANCELLED"; "COMPLETED"; "DEADLINE"; "FAILED"; "NODE_FAIL"; "OUT_OF_MEMORY"; "PREEMPTED";
   "REVOKED"; "SPECIAL_EXIT"; "TIMEOUT"].
Definition _STATE_ALIASES : list (string * string) :=
  [("PD", "PENDING"); ("CF", "CONFIGURING"); ("RQ", "REQUEUED"); ("R", "RUNNING"); ("CG", "COMPLETING");
   ("S", "SUSPENDED"); ("ST", "STOPPED"); ("BF", "BOOT_FAIL"); ("CA", "CANCELLED"); ("CD", "COMPLETED");
   ("DL", "DEADLINE"); ("F", "FAILED"); ("NF", "NODE_FAIL"); ("OOM", "OUT_OF_MEMORY"); ("PR", "PREEMPTED");
   ("TO", "TIMEOUT")].
Definition _ABNORMAL_FINISHED_STATES : list string :=
  List.filter (λ s, negb (mem_str s ["COMPLETED"; "FAILED"])) _FINISHED_STATES.

(** [_normalize_state] *)
Definition normalize_state (state : string) : res dialect_error string :=
  match words state with
  | [] => Err StateIndexError
  | w :: _ => let token := upper (rstrip_char "+" w) in Ok (opt_or (assoc token _STATE_ALIASES) token)
  end.

Definition slurm_phase (state : string) : res dialect_error SchedulerPhase :=
  let? normalized := normalize_state state in
  if mem_str normalized _PENDING_STATES then Ok PhasePending
  else if mem_str normalized _RUNNING_STATES then Ok PhaseRunning
  else if mem_str normalized _FINISHED_STATES then Ok PhaseFinished
  else Err DialectError.

(** [phase_for_state], [abnormal_termination] and [ended_on_its_own] of the
    two dialects. *)
Definition phase_for_state (d : dialect) : string → res dialect_error SchedulerPhase :=
  match d with Torque => torque_phase | Slurm => slurm_phase end.

Definition abnormal_termination (d : dialect) (state : string) : res dialect_error (option string) :=
  match d with
  | Torque => Ok None
  | Slurm =>
    let? normalized := normalize_state state in
    Ok (if mem_str normalized _ABNORMAL_FINISHED_STATES then Some normalized else None)
  end.

Definition ended_on_its_own (d : dialect) (state : string) : res dialect_error bool :=
  match d with
  | Torque => Ok false
  | Slurm =>
    if String.eqb (strip state) "" then Ok false
    else let? normalized := normalize_state state in Ok (mem_str normalized ["COMPLETED"; "FAILED"])
  end.

(** ** The live poll *)

Definition _POLL_FIELD_COUNT : nat := 6.

(** [_split_poll_row] *)
Definition split_poll_row (line : string) : res dialect_error (list string) :=
  let fields := split_max "|" (_POLL_FIELD_COUNT - 1) line in
  match fields with
  | [id; st; _; _; _; _] =>
    raise? DialectError when (String.eqb (strip id) "" || String.eqb (strip st) "") in Ok fields
  | _ => Err DialectError
  end.

(** The rows of squeue, in order; blank lines are skipped. *)
Fixpoint parse_squeue (result : gmap string SchedulerPhase) (lines : list string)
    : res dialect_error (gmap string SchedulerPhase) :=
  match lines with
  | [] => Ok result
  | line :: lines =>
    if String.eqb (strip line) "" then parse_squeue result lines
    else
      let? fields := split_poll_row line in
      match fields with
      | id :: st :: _ =>
        let job_id := strip id in
        raise? DialectError when is_some (result !! job_id) in
        let? phase := slurm_phase (strip st) in
        parse_squeue (<[job_id := phase]> result) lines
      | _ => Err DialectError
      end
  end.

(** [_POLL_ROW_RE]: digits, an array suffix, a server, then white space. *)
Fixpoint drop_while (p : ascii → bool) (s : string) : string :=
  match s with
  | EmptyString => ""
  | String c r => if p c then drop_while p r else s
  end.
Definition is_torque_row (line : string) : bool :=
  match line with
  | String c _ =>
    let rest := drop_while is_digit line in
    let rest := match rest with
                | String "[" r => match drop_while is_digit r with String "]" r' => Some r' | _ => None end
                | _ => Some rest
                end in
    is_digit c
    && match rest with
       | Some (String "." r) =>
         match r with
         | String d _ => negb (is_space d)
                         && match drop_while (λ c, negb (is_space c)) r with EmptyString => false | _ => true end
         | EmptyString => false
         end
       | Some (String d _) => is_space d
       | _ => false
       end
  | EmptyString => false
  end.

Fixpoint parse_qstat (result : gmap string SchedulerPhase) (lines : list string)
    : res dialect_error (gmap string SchedulerPhase) :=
  match lines with
  | [] => Ok result
  | line :: lines =>
    let fields := words line in
    if is_torque_row line && Nat.leb 6 (length fields) then
      let? phase := torque_phase (nth (length fields - 2) fields "") in
      parse_qstat (<[nth 0 fields "" := phase]> result) lines
    else parse_qstat result lines
  end.

(** [parse_poll] *)
Definition parse_poll (d : dialect) (stdout : string) : res dialect_error (gmap string SchedulerPhase) :=
  match d with Torque => parse_qstat ∅ (splitlines stdout) | Slurm => parse_squeue ∅ (splitlines stdout) end.

(** ** Accounting rows *)

(** [_EXIT_CODE_RE]: the two numbers of an ExitCode field. *)
Definition exit_code_pair (value : string) : option (Z * Z) :=
  match split_on ":" value with
  | [a; b] =>
    status ← (match a with String "-" r => Z.opp <$> decimal r | _ => decimal a end);
    signal ← decimal b;
    Some (status, signal)
  | _ => None
  end.

(** [_terminal_exit_code] *)
Definition terminal_exit_code (raw_state value : string) : res dialect_error (option Z) :=
  match exit_code_pair value with
  | None => Ok None
  | Some (status, signal) =>
    if negb (status =? 0) then Ok (Some status)
    else if negb (signal =? 0) then Ok (Some (128 + signal))
    else let? normalized := normalize_state raw_state in
         Ok (Some (if String.eqb normalized "COMPLETED" then 0 else 1))
  end.

(** One row of sacct: [None] for a step of a job. *)
Definition parse_row (fields : list string) : res dialect_error (string * option QstatDetail) :=
  match fields with
  | [job_id; state; exit_code; elapsed; timelimit; nodelist] =>
    let job_id := strip job_id in
    let raw_state := strip state in
    raise? DialectError when (String.eqb job_id "" || String.eqb raw_state "") in
    if any_char (Ascii.eqb ".") job_id then Ok (job_id, None)
    else
      let? phase := slurm_phase raw_state in
      let? code := (if decide (phase = PhaseFinished) then terminal_exit_code raw_state (strip exit_code)
                    else Ok None) in
      Ok (job_id, Some (MkDetail raw_state (or_none (strip nodelist)) (or_none (strip elapsed))
                          (or_none (strip timelimit)) code))
  | _ => Err DialectError
  end.

(** [_ARRAY_ELEMENT_RE]: the allocation an array element belongs to. *)
Definition is_range_char (c : ascii) : bool := is_digit c || mem_str (String c "") [","; ":"; "%"; "-"].
Definition master_of (job_id : string) : string :=
  match split_max "_" 1 job_id with
  | [m; e] =>
    let element := is_some (decimal e)
      || match e with
         | String "[" r =>
           match string_rev r with
           | String "]" r' => negb (String.eqb r' "") && all_chars is_range_char r'
           | _ => false
           end
         | _ => false
         end in
    if is_some (decimal m) && element then m else job_id
  | _ => job_id
  end.

(** The rows that describe jobs, in order; a repeated id is refused. *)
Fixpoint parse_rows (seen : list string) (lines : list string)
    : res dialect_error (list (string * QstatDetail)) :=
  match lines with
  | [] => Ok []
  | line :: lines =>
    if String.eqb (strip line) "" then parse_rows seen lines
    else
      let? row := parse_row (split_on "|" line) in
      raise? DialectError when mem_str row.1 seen in
      let? rest := parse_rows (row.1 :: seen) lines in
      Ok (match row.2 with Some detail => (row.1, detail) :: rest | None => rest end)
  end.

(** ** One verdict per allocation *)

(** [_detail_sort_key] on a normalized state. *)
Definition sort_key (row : string * QstatDetail) : string * (string * (string * (string * string))) :=
  let d := row.2 in
  (opt_or (match normalize_state d.(qd_raw_state) with Ok s => Some s | Err _ => None end) "",
   (row.1, (opt_or d.(qd_exec_host) "", (opt_or d.(qd_walltime_used) "", opt_or d.(qd_walltime_limit) "")))).

Definition key_leb : string * (string * (string * (string * string)))
    → string * (string * (string * (string * string))) → bool :=
  lex_leb String.leb (lex_leb String.leb (lex_leb String.leb (lex_leb String.leb String.leb))).

(** [min(rows, key=self._detail_sort_key)]: the first of the smallest. *)
Definition min_row (rows : list (string * QstatDetail)) : option (string * QstatDetail) :=
  head (sort_by (on_key key_leb sort_key) rows).

Definition in_phase (phase : SchedulerPhase) (row : string * QstatDetail) : bool :=
  match slurm_phase row.2.(qd_raw_state) with Ok p => bool_decide (p = phase) | Err _ => false end.
Definition not_completed (row : string * QstatDetail) : bool :=
  match normalize_state row.2.(qd_raw_state) with Ok s => negb (String.eqb s "COMPLETED") | Err _ => true end.

(** The exit code of a terminal allocation: unknown if one row's is. *)
Definition aggregate_exit_code (terminal : list (string * QstatDetail)) : option Z :=
  codes ← mapM (λ row, row.2.(qd_exit_code)) terminal;
  match sort_by Z.leb (List.filter (λ c, negb (c =? 0)) codes) with
  | c :: _ => Some c
  | [] => Some 0
  end.

(** [failed or terminal] *)
Definition or_all {A} (l all : list A) : list A := match l with [] => all | _ => l end.

(** [_aggregate_details]; the rows of an allocation have states of a known
    phase, and there is at least one. *)
Definition aggregate_details (rows : list (string * QstatDetail)) : option QstatDetail :=
  match min_row (List.filter (in_phase PhaseRunning) rows) with
  | Some r => Some r.2
  | None =>
    match min_row (List.filter (in_phase PhasePending) rows) with
    | Some r => Some r.2
    | None =>
      let terminal := List.filter (in_phase PhaseFinished) rows in
      selected ← min_row (or_all (List.filter not_completed terminal) terminal);
      Some (MkDetail selected.2.(qd_raw_state) selected.2.(qd_exec_host) selected.2.(qd_walltime_used)
              selected.2.(qd_walltime_limit) (aggregate_exit_code terminal))
    end
  end.

(** The rows of one allocation. *)
Definition rows_of (master : string) : list (string * QstatDetail) → list (string * QstatDetail) :=
  List.filter (λ row, String.eqb (master_of row.1) master).

(** [parse_qstat_detail] of Slurm: every row by its id, every allocation by
    its verdict. *)
Definition lookup_detail (rows : list (string * QstatDetail)) (job_id : string) : option QstatDetail :=
  match rows_of job_id rows with
  | [] => assoc job_id rows
  | mine => aggregate_details mine
  end.

Definition parse_sacct (stdout : string) : res dialect_error (string → option QstatDetail) :=
  let? rows := parse_rows [] (splitlines stdout) in Ok (lookup_detail rows).

(** [parse_exit_status] of Slurm. *)
Definition parse_exit_status (stdout : string) : res dialect_error (option Z) :=
  let? rows := parse_rows [] (splitlines stdout) in
  let terminal := List.filter (in_phase PhaseFinished) rows in
  Ok (match terminal with
      | [] => None
      | _ => codes ← mapM (λ row, row.2.(qd_exit_code)) terminal;
             Some (opt_or (head (List.filter (λ c, negb (c =? 0)) codes)) 0)
      end).

(** ** Walltimes *)

Definition two_digits (n : Z) : string := if n <? 10 then "0" +:+ pretty n else pretty n.

(** [format_walltime]: [None] raises. *)
Definition format_walltime (seconds : Z) : option string :=
  if seconds <? 0 then None
  else let hours := seconds / 3600 in
       let rem := seconds mod 3600 in
       Some (two_digits hours +:+ ":" +:+ two_digits (rem / 60) +:+ ":" +:+ two_digits (rem mod 60)).

(** [_scheduler_hms_to_seconds] of [daemon.py] *)
Definition scheduler_hms_to_seconds (value : option string) : option Z :=
  value ← value;
  match split_on ":" value with
  | [h; m; s] =>
    hours ← py_int h; minutes ← py_int m; seconds ← py_int s;
    if (hours <? 0) || negb ((0 <=? minutes) && (minutes <? 60)) || negb ((0 <=? seconds) && (seconds <? 60))
    then None else Some (hours * 3600 + minutes * 60 + seconds)
  | _ => None
  end.
