(* ===== verification/DialectGuarantees.v ===== *)
(** * What the dialects guarantee

    The verdict on an allocation does not depend on the order of the rows
    accounting prints and fails closed; states are classified once; walltimes
    survive printing and reading. *)

From S2P Require Import Prelude Dialect.

Create HintDb vq_dialect.

(** ** Rows *)

Definition blank (line : string) : bool := String.eqb (strip line) "".

(** The id and the detail a line holds, if it is well formed. *)
Definition parsed (line : string) : option (string * option QstatDetail) :=
  match parse_row (split_on "|" line) with Ok row => Some row | Err _ => None end.

Definition job_row (row : string * option QstatDetail) : option (string * QstatDetail) := pair row.1 <$> row.2.

Definition parsed_lines (lines : list string) : list (string * option QstatDetail) :=
  omap parsed (List.filter (negb ∘ blank) lines).

Lemma parsed_lines_cons line lines :
  parsed_lines (line :: lines)
  = if blank line then parsed_lines lines
    else match parsed line with Some row => row :: parsed_lines lines | None => parsed_lines lines end.
Proof. unfold parsed_lines. simpl. by destruct (blank line). Qed.

(** The loop accepts exactly the outputs whose lines are all well formed and
    whose ids differ. *)
Lemma parse_rows_ok seen lines rows :
  parse_rows seen lines = Ok rows ↔
  Forall (λ l, is_Some (parsed l)) (List.filter (negb ∘ blank) lines)
  ∧ NoDup (parsed_lines lines).*1 ∧ (∀ j, j ∈ (parsed_lines lines).*1 → j ∉ seen)
  ∧ rows = omap job_row (parsed_lines lines).
Proof.
  revert seen rows. induction lines as [|line lines IH]; intros seen rows; simpl.
  { unfold parsed_lines. simpl. split; [intros [= <-]; split_and!; [constructor..|set_solver|done]|].
    by intros (_ & _ & _ & ->). }
  rewrite parsed_lines_cons. fold (blank line). destruct (blank line) eqn:Eb; simpl; [apply IH|]. rewrite Forall_cons.
  destruct (parse_row (split_on "|" line)) as [row|e] eqn:Er; simpl.
  2: { split; [done|]. intros [[[? Hl] _] _]. unfold parsed in Hl. by rewrite Er in Hl. }
  assert (parsed line = Some row) as -> by (unfold parsed; by rewrite Er). simpl.
  destruct (mem_str row.1 seen) eqn:Em; simpl.
  { apply mem_str_spec in Em. split; [done|]. intros (_ & _ & Hs & _). exfalso. apply (Hs row.1); [by left|done]. }
  assert (row.1 ∉ seen) as Hn by (intros Hs; apply mem_str_spec in Hs; congruence).
  rewrite NoDup_cons. destruct (parse_rows (row.1 :: seen) lines) as [rest|e] eqn:Ep.
  - apply IH in Ep as (Hf & Hd & Hs & ->). split.
    + intros [= <-]. split_and!; [by eexists|done| |done| |].
      * intros Hi. apply (Hs _ Hi). by left.
      * intros j [->|Hj]%elem_of_cons; [done|]. intros Hjs. apply (Hs j Hj). by right.
      * unfold job_row at 2. by destruct row as [j [d|]].
    + intros (_ & _ & _ & ->). unfold job_row at 2. by destruct row as [j [d|]].
  - split; [done|]. intros ((_ & Hf) & [Hnr Hd] & Hs & _).
    assert (parse_rows (row.1 :: seen) lines = Ok (omap job_row (parsed_lines lines))); [|congruence].
    apply IH. split_and!; [done..| |done]. intros j Hj. intros [->|Hjs]%elem_of_cons; [done|].
    apply (Hs j); [by right|done].
Qed.

Lemma omap_fst_sublist (l : list (string * option QstatDetail)) : (omap job_row l).*1 `sublist_of` l.*1.
Proof. induction l as [|[j [d|]] l IH]; simpl; by constructor. Qed.

Lemma parse_rows_nodup seen lines rows : parse_rows seen lines = Ok rows → NoDup rows.*1.
Proof. intros (_ & Hd & _ & ->)%parse_rows_ok. eapply sublist_NoDup; [done|apply omap_fst_sublist]. Qed.

Lemma elem_of_rows seen lines rows j d :
  parse_rows seen lines = Ok rows →
  (j, d) ∈ rows ↔ ∃ line, line ∈ lines ∧ blank line = false ∧ parse_row (split_on "|" line) = Ok (j, Some d).
Proof.
  intros (_ & _ & _ & ->)%parse_rows_ok. unfold parsed_lines. rewrite list_elem_of_omap. split.
  - intros ([j' o] & (line & Hl & Hp)%list_elem_of_omap & Hj). unfold job_row in Hj. simpl in Hj.
    destruct o as [d'|]; [|done]. simpl in Hj. simplify_eq.
    apply list_elem_of_In, filter_In in Hl as [Hl Hb]. apply list_elem_of_In in Hl. exists line.
    simpl in Hb. split_and!; [done|by apply negb_true_iff|].
    unfold parsed in Hp. destruct (parse_row _); by simplify_eq.
  - intros (line & Hl & Hb & Hp). exists (j, Some d). split; [|done]. apply list_elem_of_omap. exists line.
    split; [|unfold parsed; by rewrite Hp]. apply list_elem_of_In, filter_In. split; [by apply list_elem_of_In|].
    simpl. by rewrite Hb.
Qed.

#[export] Instance filter_proper {A} (p : A → bool) : Proper ((≡ₚ) ==> (≡ₚ)) (List.filter p).
Proof.
  induction 1 as [|x l l' _ IH|x y l|l1 l2 l3 _ IH1 _ IH2]; simpl; [done| |by destruct (p x), (p y); try apply Permutation_swap|by rewrite IH1].
  destruct (p x); by rewrite IH.
Qed.

Lemma parse_rows_perm lines lines' rows :
  lines ≡ₚ lines' → parse_rows [] lines = Ok rows → ∃ rows', parse_rows [] lines' = Ok rows' ∧ rows ≡ₚ rows'.
Proof.
  intros Hp (Hf & Hd & _ & ->)%parse_rows_ok.
  assert (parsed_lines lines ≡ₚ parsed_lines lines') as Hl by (unfold parsed_lines; by rewrite Hp).
  exists (omap job_row (parsed_lines lines')). split; [|by rewrite Hl]. apply parse_rows_ok.
  split_and!; [by rewrite <- Hp|by rewrite <- Hl|set_solver|done].
Qed.

(** ** Verdicts *)

Lemma assoc_unique {A} (l : list (string * A)) k v : NoDup l.*1 → assoc k l = Some v ↔ (k, v) ∈ l.
Proof.
  induction l as [|[k' v'] l IH]; simpl; intros Hd; [split; [done|by intros ?%elem_of_nil]|].
  apply NoDup_cons in Hd as [Hn Hd]. rewrite elem_of_cons. destruct (String.eqb_spec k k') as [->|Hk].
  - split; [intros [= <-]; by left|]. intros [[= <-]|Hin]; [done|]. destruct Hn. by apply (list_elem_of_fmap_2 fst l (k', v)).
  - rewrite IH by done. split; [by right|]. by intros [[= <- <-]|?].
Qed.

Lemma row_unique (rows : list (string * QstatDetail)) r r' :
  NoDup rows.*1 → r ∈ rows → r' ∈ rows → r.1 = r'.1 → r = r'.
Proof.
  destruct r as [j d], r' as [j' d']; simpl. intros Hd H1 H2 ->. apply (assoc_unique rows) in H1, H2; [|done..]. congruence.
Qed.

Lemma lex_leb_fst {A B} (la : A → A → bool) (lb : B → B → bool) x y :
  lex_leb la lb x y = true → lex_leb la lb y x = true →
  la x.1 y.1 = true ∧ la y.1 x.1 = true ∧ lb x.2 y.2 = true ∧ lb y.2 x.2 = true.
Proof. unfold lex_leb. destruct (la x.1 y.1), (la y.1 x.1), (lb x.2 y.2), (lb y.2 x.2); naive_solver. Qed.

Lemma string_leb_antisym s t : String.leb s t = true → String.leb t s = true → s = t.
Proof.
  rewrite !string_leb_cases. intros [->|H1] [H2|H2]; [done..|]. pose proof (string_compare_lt_trans _ _ _ H1 H2) as H.
  by rewrite string_compare_refl in H.
Qed.

#[export] Instance key_leb_total : TotalLeb (on_key key_leb sort_key).
Proof. unfold key_leb. apply _. Qed.

Lemma min_row_least rows r :
  min_row rows = Some r → r ∈ rows ∧ ∀ y, y ∈ rows → on_key key_leb sort_key r y = true.
Proof.
  unfold min_row. destruct (sort_by _ rows) as [|x rest] eqn:E; [done|]. intros [= <-]. exact (sort_by_head (on_key key_leb sort_key) _ _ _ E).
Qed.

Lemma min_row_none rows : min_row rows = None ↔ rows = [].
Proof.
  unfold min_row. pose proof (length_sort_by (on_key key_leb sort_key) rows) as Hl.
  destruct (sort_by _ rows) as [|x l]; destruct rows; simpl in *; by split.
Qed.

Lemma min_row_perm rows rows' : NoDup rows.*1 → rows ≡ₚ rows' → min_row rows = min_row rows'.
Proof.
  intros Hd Hp. destruct (min_row rows) as [r|] eqn:E, (min_row rows') as [r'|] eqn:E'.
  - apply min_row_least in E as [Hr Hle], E' as [Hr' Hle']. f_equal. rewrite <- Hp in Hr'.
    apply (row_unique rows); [done..|]. specialize (Hle r' Hr'). rewrite Hp in Hr. specialize (Hle' r Hr).
    unfold on_key, key_leb in *. destruct (lex_leb_fst _ _ _ _ Hle Hle') as (_ & _ & H1 & H2).
    destruct (lex_leb_fst _ _ _ _ H1 H2) as (H3 & H4 & _). by apply string_leb_antisym.
  - apply min_row_none in E' as ->. apply Permutation_nil_r in Hp. by subst.
  - apply min_row_none in E as ->. apply Permutation_nil_l in Hp. by subst.
  - done.
Qed.

Lemma filter_fst_nodup (p : string * QstatDetail → bool) rows : NoDup rows.*1 → NoDup (List.filter p rows).*1.
Proof.
  induction rows as [|r rows IH]; simpl; [done|]. intros [Hn Hd]%NoDup_cons. destruct (p r); simpl; [|by apply IH].
  constructor; [|by apply IH]. intros (x & Hx & Hin)%list_elem_of_fmap. apply list_elem_of_In, filter_In in Hin as [Hin _].
  apply Hn. rewrite Hx. apply list_elem_of_fmap_2, list_elem_of_In, Hin.
Qed.

#[export] Hint Resolve filter_fst_nodup : vq_dialect.

Lemma mapM_omap {A B} (f : A → option B) l :
  mapM f l = if forallb (λ x, is_some (f x)) l then Some (omap f l) else None.
Proof.
  induction l as [|x l IH]; simpl; [done|]. destruct (f x) as [y|]; simpl; [|done]. rewrite IH. by destruct (forallb _ _).
Qed.

Lemma forallb_perm {A} (p : A → bool) l l' : l ≡ₚ l' → forallb p l = forallb p l'.
Proof.
  induction 1; simpl; [done|by f_equal|by rewrite !andb_assoc, (andb_comm (p _))|congruence].
Qed.

Lemma aggregate_exit_code_perm rows rows' : rows ≡ₚ rows' → aggregate_exit_code rows = aggregate_exit_code rows'.
Proof.
  intros Hp. unfold aggregate_exit_code. rewrite !mapM_omap, (forallb_perm _ _ _ Hp). destruct (forallb _ _); [|done].
  simpl. rewrite (sort_by_perm_eq Z.leb _ (List.filter (λ c, negb (c =? 0)) (omap (λ r, r.2.(qd_exit_code)) rows')));
    [done| |by rewrite Hp].
  intros a b Ha Hb. apply Z.leb_le in Ha, Hb. lia.
Qed.

Lemma or_all_perm {A} (l l' all all' : list A) : l ≡ₚ l' → all ≡ₚ all' → or_all l all ≡ₚ or_all l' all'.
Proof.
  intros Hl Ha. destruct l as [|x l]; [apply Permutation_nil_l in Hl; by subst|].
  destruct l' as [|y l']; [by apply Permutation_nil_r in Hl|done].
Qed.

Lemma or_all_nodup (l all : list (string * QstatDetail)) : NoDup l.*1 → NoDup all.*1 → NoDup (or_all l all).*1.
Proof. by destruct l. Qed.

#[export] Hint Resolve or_all_nodup : vq_dialect.

Lemma aggregate_perm rows rows' : NoDup rows.*1 → rows ≡ₚ rows' → aggregate_details rows = aggregate_details rows'.
Proof.
  intros Hd Hp. unfold aggregate_details.
  rewrite (min_row_perm (List.filter (in_phase PhaseRunning) rows) (List.filter (in_phase PhaseRunning) rows')) by
    (auto with vq_dialect; by rewrite Hp).
  rewrite (min_row_perm (List.filter (in_phase PhasePending) rows) (List.filter (in_phase PhasePending) rows')) by
    (auto with vq_dialect; by rewrite Hp).
  rewrite (aggregate_exit_code_perm (List.filter (in_phase PhaseFinished) rows) (List.filter (in_phase PhaseFinished) rows'))
    by by rewrite Hp.
  rewrite (min_row_perm (or_all _ (List.filter (in_phase PhaseFinished) rows))
    (or_all (List.filter not_completed (List.filter (in_phase PhaseFinished) rows')) (List.filter (in_phase PhaseFinished) rows')));
    [done|auto with vq_dialect|apply or_all_perm; by rewrite Hp].
Qed.

Lemma lookup_detail_perm rows rows' j : NoDup rows.*1 → rows ≡ₚ rows' → lookup_detail rows j = lookup_detail rows' j.
Proof.
  intros Hd Hp. assert (rows_of j rows ≡ₚ rows_of j rows') as Hr by (unfold rows_of; by rewrite Hp).
  unfold lookup_detail. destruct (rows_of j rows) as [|r mine] eqn:E.
  - apply Permutation_nil_l in Hr. rewrite <- Hr. destruct (assoc j rows) as [d|] eqn:Ea, (assoc j rows') as [d'|] eqn:Ea'; [| | |done].
    + apply assoc_unique in Ea, Ea'; [|by rewrite <- Hp|done]. f_equal. rewrite <- Hp in Ea'.
      apply (assoc_unique rows) in Ea, Ea'; [|done..]. congruence.
    + apply assoc_unique in Ea; [|done]. rewrite Hp in Ea. apply (assoc_unique rows') in Ea; [congruence|by rewrite <- Hp].
    + apply assoc_unique in Ea'; [|by rewrite <- Hp]. rewrite <- Hp in Ea'. apply (assoc_unique rows) in Ea'; [congruence|done].
  - destruct (rows_of j rows') as [|r' mine'] eqn:E'; [by apply Permutation_nil_r in Hr|]. rewrite <- E, <- E' in *.
    apply aggregate_perm; [|done]. unfold rows_of. auto with vq_dialect.
Qed.

(** C30: the order in which accounting prints its rows means nothing.  Two
    outputs with the same lines, in whatever order, are both refused, or give
    the same detail and the same verdict for every job and allocation. *)
Theorem sacct_order_irrelevant stdout stdout' :
  splitlines stdout ≡ₚ splitlines stdout' →
  match parse_sacct stdout, parse_sacct stdout' with
  | Ok details, Ok details' => ∀ job_id, details job_id = details' job_id
  | Err _, Err _ => True
  | _, _ => False
  end.
Proof.
  intros Hp. unfold parse_sacct.
  destruct (parse_rows [] (splitlines stdout)) as [rows|e] eqn:E.
  - destruct (parse_rows_perm _ _ _ Hp E) as (rows' & -> & Hr). intros j. apply lookup_detail_perm; [|done].
    by eapply parse_rows_nodup.
  - destruct (parse_rows [] (splitlines stdout')) as [rows'|e'] eqn:E'; [|done].
    symmetry in Hp. destruct (parse_rows_perm _ _ _ Hp E') as (rows & Hrows & _). congruence.
Qed.

(** ** Failing closed *)

Lemma digits_value_nonneg s acc n : 0 <= acc → digits_value acc s = Some n → 0 <= n.
Proof.
  revert acc. induction s as [|c s IH]; simpl; intros acc Ha; [by intros [= <-]|].
  destruct (is_digit c) eqn:Ed; [|done]. apply IH. unfold is_digit, char_between in Ed.
  apply andb_true_iff in Ed as [Ed _]. apply N.leb_le in Ed. change (N_of_ascii "0") with 48%N in Ed. lia.
Qed.

Lemma decimal_nonneg s n : decimal s = Some n → 0 <= n.
Proof. destruct s; [done|]. by apply digits_value_nonneg. Qed.

(** Exit code 0 is a completed job's own. *)
Lemma terminal_exit_zero raw_state value :
  terminal_exit_code raw_state value = Ok (Some 0) →
  normalize_state raw_state = Ok "COMPLETED" ∧ exit_code_pair value = Some (0, 0).
Proof.
  unfold terminal_exit_code. destruct (exit_code_pair value) as [[status signal]|] eqn:E; [|done].
  destruct (Z.eqb_spec status 0) as [->|Hs]; simpl; [|by intros [= ->]].
  assert (0 <= signal) as Hsig.
  { unfold exit_code_pair in E. destruct (split_on ":" value) as [|a [|b [|]]]; try done. simpl in E.
    apply bind_Some in E as (x & _ & (y & Hy & [= _ <-])%bind_Some). by eapply decimal_nonneg. }
  destruct (Z.eqb_spec signal 0) as [->|Hn]; simpl; [|intros [= ?]; lia].
  destruct (normalize_state raw_state) as [s|]; simpl; [|done].
  destruct (String.eqb_spec s "COMPLETED") as [->|]; [done|]. by intros [= ?].
Qed.

(** What a row says of its job: a known phase, and an exit code only when it has finished. *)
Lemma parse_row_facts fields j e :
  parse_row fields = Ok (j, Some e) →
  (∃ phase, slurm_phase e.(qd_raw_state) = Ok phase)
  ∧ (is_Some e.(qd_exit_code) → slurm_phase e.(qd_raw_state) = Ok PhaseFinished)
  ∧ (e.(qd_exit_code) = Some 0 →
     normalize_state e.(qd_raw_state) = Ok "COMPLETED" ∧ exit_code_pair (strip (nth 2 fields "")) = Some (0, 0)).
Proof.
  unfold parse_row. destruct fields as [|f0 [|f1 [|f2 [|f3 [|f4 [|f5 [|]]]]]]]; try done. simpl.
  destruct (_ || _); [done|]. destruct (any_char _ _); [done|].
  destruct (slurm_phase (strip f1)) as [phase|] eqn:Ep; [|done]. simpl.
  case_decide as Hf; simpl.
  - subst phase. destruct (terminal_exit_code _ _) as [code|] eqn:Ec; [|done]. simpl. intros [= <- <-]. simpl.
    split_and!; [by eexists|done|]. intros ->. by apply terminal_exit_zero.
  - intros [= <- <-]. simpl. split_and!; [by eexists|by intros [? ?]|done].
Qed.

Lemma decimal_no_char x s : is_digit x = false → is_some (decimal s) = true → split_max x 1 s = [s].
Proof.
  intros Hx. unfold decimal. destruct s as [|c s]; [done|]. generalize 0. revert c.
  induction s as [|c' s IH]; intros c acc; cbn -[is_digit]; (destruct (is_digit c) eqn:Ec; [|done]);
    (destruct (Ascii.eqb_spec c x) as [->|_]; [congruence|]); [done|].
  intros H. specialize (IH c' _ H). cbn -[is_digit] in IH. by rewrite IH.
Qed.

Lemma master_of_idem j : master_of (master_of j) = master_of j.
Proof.
  assert (∀ m, is_some (decimal m) = true → master_of m = m) as Hm.
  { intros m Hd. unfold master_of. by rewrite (decimal_no_char "_" m). }
  unfold master_of at 2 3. destruct (split_max "_" 1 j) as [|m [|e [|]]] eqn:E;
    try (unfold master_of; by rewrite E).
  destruct (is_some (decimal m)) eqn:Ed; cbn [andb]; [|unfold master_of; by rewrite E, Ed].
  match goal with |- context [if ?b then m else j] => destruct b eqn:Eb end; [by apply Hm|].
  unfold master_of. rewrite E, Ed. cbn [andb]. by rewrite Eb.
Qed.

Lemma elem_of_filter_b {A} (p : A → bool) x l : x ∈ List.filter p l ↔ x ∈ l ∧ p x = true.
Proof. rewrite !list_elem_of_In. apply filter_In. Qed.

Lemma aggregate_exit_zero rows :
  aggregate_exit_code rows = Some 0 → ∀ r, r ∈ rows → r.2.(qd_exit_code) = Some 0.
Proof.
  unfold aggregate_exit_code. intros (codes & Hc & Hz)%bind_Some r Hr.
  apply mapM_Some in Hc. destruct (Forall2_in_l _ _ _ _ Hc Hr) as (c & Hin & ->). f_equal.
  destruct (sort_by Z.leb _) as [|x l] eqn:E.
  - apply (f_equal length) in E. rewrite length_sort_by in E. destruct (Z.eqb_spec c 0) as [|Hn]; [done|].
    assert (c ∈ List.filter (λ c, negb (c =? 0)) codes) as Hf.
    { apply elem_of_filter_b. split; [done|]. by destruct (Z.eqb_spec c 0). }
    destruct (List.filter _ codes); [by apply elem_of_nil in Hf|done].
  - injection Hz as ->. destruct (sort_by_head Z.leb _ _ _ E) as [H0 _]. by apply elem_of_filter_b in H0 as [_ ?].
Qed.

(** The verdict of an allocation: finished only with all its rows, and its
    exit code is theirs together. *)
Lemma aggregate_cases rows d :
  (∀ r, r ∈ rows → ∃ phase, slurm_phase r.2.(qd_raw_state) = Ok phase) → aggregate_details rows = Some d →
  (∃ r, r ∈ rows ∧ d = r.2 ∧ slurm_phase d.(qd_raw_state) ≠ Ok PhaseFinished)
  ∨ ((∀ r, r ∈ rows → slurm_phase r.2.(qd_raw_state) = Ok PhaseFinished) ∧ d.(qd_exit_code) = aggregate_exit_code rows).
Proof.
  intros Hk. unfold aggregate_details.
  assert (∀ phase r, phase ≠ PhaseFinished → min_row (List.filter (in_phase phase) rows) = Some r →
    ∃ r', r' ∈ rows ∧ r.2 = r'.2 ∧ slurm_phase r.2.(qd_raw_state) ≠ Ok PhaseFinished) as Hlive.
  { intros phase r Hn [[Hr Hp]%elem_of_filter_b _]%min_row_least. exists r. split_and!; [done..|]. intros E.
    unfold in_phase in Hp. rewrite E in Hp. by apply bool_decide_eq_true in Hp. }
  destruct (min_row (List.filter (in_phase PhaseRunning) rows)) as [r|] eqn:E1; [intros [= <-]; left; by apply (Hlive PhaseRunning)|].
  destruct (min_row (List.filter (in_phase PhasePending) rows)) as [r|] eqn:E2; [intros [= <-]; left; by apply (Hlive PhasePending)|].
  apply min_row_none in E1, E2. intros (sel & _ & [= <-])%bind_Some. right. simpl.
  assert (∀ r, r ∈ rows → slurm_phase r.2.(qd_raw_state) = Ok PhaseFinished) as Hfin.
  { intros r Hr. destruct (Hk r Hr) as [[] Hph]; [| |done].
    - assert (r ∈ List.filter (in_phase PhasePending) rows) as H; [|rewrite E2 in H; by apply elem_of_nil in H].
      apply elem_of_filter_b. split; [done|]. unfold in_phase. by rewrite Hph.
    - assert (r ∈ List.filter (in_phase PhaseRunning) rows) as H; [|rewrite E1 in H; by apply elem_of_nil in H].
      apply elem_of_filter_b. split; [done|]. unfold in_phase. by rewrite Hph. }
  split; [done|]. f_equal. clear -Hfin. induction rows as [|r rows IH]; [done|]. simpl.
  unfold in_phase at 1. rewrite (Hfin r) by by left. simpl. f_equal. apply IH. intros x Hx. apply Hfin. by right.
Qed.

(** C29: accounting fails closed.  Whatever sacct prints, if the detail the
    daemon takes from it for a job says finished, every row of that job or
    allocation does; if it gives exit code 0, every one of them is COMPLETED
    with exit code [0:0]: no element that is pending, running, failed,
    cancelled or unreadable is lost behind the others. *)
Theorem sacct_fails_closed stdout details job_id d :
  parse_sacct stdout = Ok details → details job_id = Some d →
  ∀ line j e, line ∈ splitlines stdout → blank line = false →
    parse_row (split_on "|" line) = Ok (j, Some e) → j = job_id ∨ master_of j = job_id →
    (slurm_phase d.(qd_raw_state) = Ok PhaseFinished → slurm_phase e.(qd_raw_state) = Ok PhaseFinished)
    ∧ (d.(qd_exit_code) = Some 0 → normalize_state e.(qd_raw_state) = Ok "COMPLETED"
         ∧ exit_code_pair (strip (nth 2 (split_on "|" line) "")) = Some (0, 0)).
Proof.
  unfold parse_sacct. destruct (parse_rows [] (splitlines stdout)) as [rows|] eqn:Erows; [|done].
  intros [= <-] Hd line j e Hline Hb Hrow Hj. destruct (parse_row_facts _ _ _ Hrow) as (_ & _ & Hzero).
  pose proof (parse_rows_nodup _ _ _ Erows) as Hnd.
  assert ((j, e) ∈ rows) as Hin by (apply (elem_of_rows _ _ _ _ _ Erows); by exists line).
  assert (∀ r, r ∈ rows → (∃ phase, slurm_phase r.2.(qd_raw_state) = Ok phase)
    ∧ (is_Some r.2.(qd_exit_code) → slurm_phase r.2.(qd_raw_state) = Ok PhaseFinished)) as Hfacts.
  { intros [j' e'] (line' & _ & _ & Hr)%(elem_of_rows _ _ _ _ _ Erows).
    destruct (parse_row_facts _ _ _ Hr) as (? & ? & _). done. }
  unfold lookup_detail in Hd. destruct (rows_of job_id rows) as [|r0 mine] eqn:Emine.
  - assert (j = job_id) as ->.
    { destruct Hj as [|Hm]; [done|]. assert ((j, e) ∈ rows_of job_id rows) as H; [|rewrite Emine in H; by apply elem_of_nil in H].
      apply elem_of_filter_b. split; [done|]. by apply String.eqb_eq. }
    apply assoc_unique in Hd; [|done]. assert (d = e) as ->; [|done].
    pose proof (row_unique rows _ _ Hnd Hd Hin eq_refl). congruence.
  - assert (∀ r, r ∈ r0 :: mine → r ∈ rows ∧ master_of r.1 = job_id) as Hmine.
    { intros r Hr. rewrite <- Emine in Hr. apply elem_of_filter_b in Hr as [? ?%String.eqb_eq]. done. }
    assert ((j, e) ∈ r0 :: mine) as Hje.
    { rewrite <- Emine. apply elem_of_filter_b. split; [done|]. apply String.eqb_eq. simpl.
      destruct Hj as [->|]; [|done]. destruct (Hmine r0) as [_ <-]; [by left|]. apply master_of_idem. }
    destruct (aggregate_cases (r0 :: mine) d) as [(r & Hr & -> & Hnf)|[Hfin Hcode]]; [|done|..].
    + intros r Hr. by apply Hfacts, Hmine.
    + split; [done|]. intros Hz. destruct Hnf. apply Hfacts; [by apply Hmine|]. by rewrite Hz.
    + split; [intros _; by apply (Hfin (j, e))|]. rewrite Hcode. intros Hz. apply Hzero.
      by apply (aggregate_exit_zero _ Hz (j, e)).
Qed.

(** ** Ends *)

Lemma lstrip_nil s : lstrip s = "" → all_chars is_space s = true.
Proof. induction s as [|c s IH]; simpl; [done|]. by destruct (is_space c). Qed.

Lemma lstrip_suffix s : all_chars is_space (lstrip s) = true → all_chars is_space s = true.
Proof. induction s as [|c s IH]; simpl; [done|]. destruct (is_space c) eqn:E; [done|]. simpl. by rewrite E. Qed.

Lemma strip_nil s : strip s = "" → words s = [].
Proof.
  intros Hs. assert (all_chars is_space s = true) as Ha.
  { apply lstrip_suffix. rewrite <- all_chars_rev. apply lstrip_nil. unfold strip in Hs.
    by rewrite <- (string_rev_involutive (lstrip _)), Hs. }
  clear Hs. induction s as [|c s IH]; [done|]. simpl in *. apply andb_true_iff in Ha as [-> Ha]. by apply IH.
Qed.

(** The end of a Slurm job is its own (COMPLETED, FAILED) or the scheduler's
    (every other terminal state), never both and never neither; a state that
    is not terminal is neither. *)
Theorem slurm_ends_classified state phase :
  slurm_phase state = Ok phase →
  (abnormal_termination Slurm state = Ok None ∧ ended_on_its_own Slurm state = Ok (bool_decide (phase = PhaseFinished)))
  ∨ ∃ verdict, phase = PhaseFinished ∧ abnormal_termination Slurm state = Ok (Some verdict)
      ∧ ended_on_its_own Slurm state = Ok false.
Proof.
  unfold slurm_phase, abnormal_termination, ended_on_its_own. destruct (normalize_state state) as [s|] eqn:En; [|done].
  assert (String.eqb (strip state) "" = false) as ->.
  { apply String.eqb_neq. intros Hs%strip_nil. unfold normalize_state in En. by rewrite Hs in En. }
  rewrite !mem_str_decide. intros Hp. revert Hp. repeat case_bool_decide; intros Hp; simplify_eq; try done;
    unfold _PENDING_STATES, _RUNNING_STATES, _FINISHED_STATES, _ABNORMAL_FINISHED_STATES in *;
    try (by left); try (right; by eexists);
    exfalso; set_solver.
Qed.

(** ** Walltimes *)

Lemma pretty_char_digit d : (d < 10)%N →
  is_digit (pretty_N_char d) = true ∧ Z.of_N (N_of_ascii (pretty_N_char d)) - 48 = Z.of_N d.
Proof.
  intros Hd. assert (d = 0 ∨ d = 1 ∨ d = 2 ∨ d = 3 ∨ d = 4 ∨ d = 5 ∨ d = 6 ∨ d = 7 ∨ d = 8 ∨ d = 9)%N as H by lia.
  by destruct_or! H; subst.
Qed.

Lemma pretty_go_digits x s :
  digits_value 0 (pretty_N_go x s) = digits_value (Z.of_N x) s
  ∧ all_chars is_digit (pretty_N_go x s) = all_chars is_digit s.
Proof.
  revert s. induction (N.lt_wf_0 x) as [x _ IH]; intros s.
  assert (x = 0 ∨ 0 < x)%N as [->|Hx] by lia; [by rewrite pretty_N_go_0|].
  rewrite pretty_N_go_step by done. destruct (IH (x `div` 10)%N (N.div_lt x 10 Hx eq_refl)
    (String (pretty_N_char (x `mod` 10)) s)) as [-> ->].
  destruct (pretty_char_digit (x `mod` 10)) as [Hd Hv]; [by apply N.mod_lt|]. simpl. rewrite Hd, Hv.
  split; [|done]. f_equal. rewrite N2Z.inj_div, N2Z.inj_mod. pose proof (Z.div_mod (Z.of_N x) 10). lia.
Qed.

Lemma pretty_digits n : 0 <= n → digits_value 0 (pretty n) = Some n ∧ all_chars is_digit (pretty n) = true.
Proof.
  intros Hn. destruct n as [|p|p]; [done| |lia]. change (pretty (Z.pos p)) with (pretty_N_go (N.pos p) "").
  by destruct (pretty_go_digits (N.pos p) "") as [-> ->].
Qed.

(** A numeral: digits, at least one. *)
Definition numeral (t : string) (n : Z) : Prop := all_chars is_digit t = true ∧ decimal t = Some n.

Lemma two_digits_numeral n : 0 <= n → numeral (two_digits n) n.
Proof.
  intros Hn. destruct (pretty_digits n Hn) as [Hv Hd]. unfold numeral, two_digits. destruct (n <? 10).
  - change (all_chars is_digit (pretty n) = true ∧ digits_value 0 (pretty n) = Some n). done.
  - split; [done|]. unfold decimal. destruct (pretty n) as [|c s] eqn:E; [|done].
    simpl in Hv. injection Hv as <-. by vm_compute in E.
Qed.

Lemma digit_plain c : is_digit c = true →
  is_space c = false ∧ Ascii.eqb c "_" = false ∧ Ascii.eqb c ":" = false ∧ Ascii.eqb c "-" = false ∧ Ascii.eqb c "+" = false.
Proof. destruct c as [[] [] [] [] [] [] [] []]; vm_compute; intuition congruence. Qed.

Lemma lstrip_digits t : all_chars is_digit t = true → lstrip t = t.
Proof. destruct t as [|c t]; [done|]. simpl. intros [(-> & _)%digit_plain _]%andb_true_iff. done. Qed.

Lemma numeral_int t n : numeral t n → py_int t = Some n.
Proof.
  intros [Hd Hn]. unfold py_int, strip. rewrite (lstrip_digits t Hd), lstrip_digits, string_rev_involutive by by rewrite all_chars_rev.
  assert (∀ b, drop_underscores b t = Some t) as Hu.
  { clear Hn. induction t as [|c t IH]; intros b; [done|]. simpl in Hd. apply andb_true_iff in Hd as [Hc Hd].
    simpl. destruct (digit_plain c Hc) as (_ & -> & _). by rewrite IH. }
  rewrite Hu. simpl. destruct t as [|c t]; [done|]. simpl in Hd. apply andb_true_iff in Hd as [Hc _].
  destruct (digit_plain c Hc) as (_ & _ & _ & H1 & H2). apply Ascii.eqb_neq in H1, H2. rewrite <- Hn. unfold signed.
  by repeat case_match; simplify_eq.
Qed.

Lemma split_on_digits t r : all_chars is_digit t = true → split_on ":" (t +:+ ":" +:+ r) = t :: split_on ":" r.
Proof.
  induction t as [|c t IH]; [done|]. simpl. intros [Hc Hd]%andb_true_iff.
  destruct (digit_plain c Hc) as (_ & _ & -> & _). by rewrite IH.
Qed.

Lemma split_on_digits_end t : all_chars is_digit t = true → split_on ":" t = [t].
Proof.
  induction t as [|c t IH]; [done|]. simpl. intros [Hc Hd]%andb_true_iff.
  destruct (digit_plain c Hc) as (_ & _ & -> & _). by rewrite IH.
Qed.

(** A walltime the daemon prints into a submission is read back from
    accounting as the same number of seconds. *)
Theorem walltime_roundtrip seconds :
  0 <= seconds → scheduler_hms_to_seconds (format_walltime seconds) = Some seconds.
Proof.
  intros Hs. unfold format_walltime. destruct (Z.ltb_spec seconds 0) as [|_]; [lia|]. unfold scheduler_hms_to_seconds. simpl.
  set (h := seconds / 3600). set (r := seconds mod 3600).
  assert (0 <= h) as Hh by (apply Z.div_pos; lia). assert (0 <= r < 3600) as Hr by (apply Z.mod_pos_bound; lia).
  assert (0 <= r / 60 < 60) as Hm by (split; [apply Z.div_pos|apply Z.div_lt_upper_bound]; lia).
  assert (0 <= r mod 60 < 60) as Hx by (apply Z.mod_pos_bound; lia).
  pose proof (two_digits_numeral h Hh) as Nh. pose proof (two_digits_numeral (r / 60) (proj1 Hm)) as Nm.
  pose proof (two_digits_numeral (r mod 60) (proj1 Hx)) as Ns.
  rewrite !split_on_digits, split_on_digits_end by apply Nh || apply Nm || apply Ns.
  rewrite (numeral_int _ _ Nh), (numeral_int _ _ Nm), (numeral_int _ _ Ns). simpl.
  destruct (Z.ltb_spec h 0); [lia|]. destruct (Z.leb_spec 0 (r / 60)), (Z.ltb_spec (r / 60) 60); try lia.
  destruct (Z.leb_spec 0 (r mod 60)), (Z.ltb_spec (r mod 60) 60); try lia. simpl. f_equal.
  pose proof (Z.div_mod seconds 3600 ltac:(done)) as E1. pose proof (Z.div_mod r 60 ltac:(done)) as E2. fold h r in E1. lia.
Qed.
