(* ===== verification/Overview.v ===== *)
(** * Placement advice: [src/vq/overview.py]

    The capacity snapshot of a host, the broker's eligibility test
    ([broker_host_blocker]), its ranking ([place_broker_job]) and the
    client-side recommendation ([recommend_host]), which share one rank. *)

From S2P Require Import Prelude.

(** ** Data *)

Record BrokerPlacementRequest : Type := MkRequest {
  req_cpus : Z;
  req_mem_mb : Z;
  req_pool : option string;
  req_wall_time_seconds : option pyfloat;
}.

#[global] Instance BrokerPlacementRequest_eq_dec : EqDecision BrokerPlacementRequest.
Proof. solve_decision. Defined.

(** [BrokerPlacementRequest.__post_init__] *)
Definition request_valid (r : BrokerPlacementRequest) : bool :=
  (0 <? r.(req_cpus)) && (0 <? r.(req_mem_mb)) &&
  match r.(req_wall_time_seconds) with
  | None => true
  | Some w => isfinite w && fltb fzero w
  end.

Record BrokerCapacitySnapshot : Type := MkSnapshot {
  host : string;
  observed_at : pyfloat;
  free_cpus : option Z;
  free_mem_mb : option Z;
  free_jobs : option Z;
  reachable : bool;
  daemon_healthy : bool;
  state_root_agreement : bool;
  admission_open : bool;
  queue_ready : bool;
  is_scheduler_host : bool;
  scheduler_admission : bool;
  max_request_cpus : option Z;
  authority : option (list (string * string));
  runtime_pins : option (list (string * string));
  pools : list string;
  max_wall_time_seconds : option pyfloat;
  pending_cpus : Z;
  idle_seconds : option Z;
}.

#[global] Instance BrokerCapacitySnapshot_eq_dec : EqDecision BrokerCapacitySnapshot.
Proof. solve_decision. Defined.

(** The rank tuple, compared lexicographically; its last component is the host. *)
Definition rank : Type := Z * (Z * (Z * (Z * (Z * (Z * string))))).

Definition rank_host (r : rank) : string := r.2.2.2.2.2.2.

Definition rank_leb : rank → rank → bool :=
  lex_leb Z.leb (lex_leb Z.leb (lex_leb Z.leb (lex_leb Z.leb
    (lex_leb Z.leb (lex_leb Z.leb String.leb))))).

Record BrokerPlacementDecision : Type := MkDecision {
  dec_host : option string;
  dec_blockers : list (string * string);
  dec_ranking : list rank;
}.

(** The exceptions of this module are all [ValueError]s. *)
Inductive placement_error : Type :=
| BadObservationPolicy
| UnnamedHost
| DuplicateHost.

(** ** Operations *)

Definition b2z (b : bool) : Z := if b then 1 else 0.

Definition placement_rank (host : string) (free_cpus : Z) (mem_available_mb : option Z)
    (pending_cpus : Z) (idle_seconds : option Z) (job_cpus job_mem_mb : option Z) : rank :=
  let mem_fits := match job_mem_mb, mem_available_mb with
                  | None, _ | _, None => true
                  | Some m, Some a => m <=? a
                  end in
  let cpu_fits := match job_cpus with None => true | Some c => c <=? free_cpus end in
  (- b2z mem_fits, (- b2z cpu_fits, (- opt_or mem_available_mb 0, (- free_cpus,
    (pending_cpus, (- opt_or idle_seconds (-1), host)))))).

Definition broker_observation_policy (now max_age_seconds : pyfloat) : res placement_error unit :=
  raise? BadObservationPolicy
    when (negb (isfinite now) || negb (isfinite max_age_seconds)
          || fleb max_age_seconds fzero) in
  Ok tt.

(** Why a held job cannot run on the host now. *)
Inductive blocker : Type :=
| scheduler_unsupported | unreachable | daemon_not_ready | state_root_unverified
| admission_blocked | queue_not_ready | snapshot_invalid | snapshot_future
| snapshot_stale | pool_mismatch | capacity_invalid | wall_time_unknown
| wall_time_exceeded | cpus_exceeded | capacity_unknown | job_slots_insufficient
| cpus_insufficient | memory_insufficient.

Definition blocker_text (b : blocker) : string :=
  match b with
  | scheduler_unsupported => "scheduler-unsupported" | unreachable => "unreachable"
  | daemon_not_ready => "daemon-not-ready" | state_root_unverified => "state-root-unverified"
  | admission_blocked => "admission-blocked" | queue_not_ready => "queue-not-ready"
  | snapshot_invalid => "snapshot-invalid" | snapshot_future => "snapshot-future"
  | snapshot_stale => "snapshot-stale" | pool_mismatch => "pool-mismatch"
  | capacity_invalid => "capacity-invalid" | wall_time_unknown => "wall-time-unknown"
  | wall_time_exceeded => "wall-time-exceeded" | cpus_exceeded => "cpus-exceeded"
  | capacity_unknown => "capacity-unknown" | job_slots_insufficient => "job-slots-insufficient"
  | cpus_insufficient => "cpus-insufficient" | memory_insufficient => "memory-insufficient"
  end.

(** [if b: return Some reason] *)
Notation "'block?' r 'when' b 'in' k" := (if b then Some r else k)
  (at level 10, r at level 100, b at level 100, k at level 200,
   format "'[v' 'block?'  r  'when'  b  'in' '/' k ']'") : vq_scope.

Definition wall_time_blocker (s : BrokerCapacitySnapshot) (r : BrokerPlacementRequest)
    : option blocker :=
  match s.(max_wall_time_seconds) with
  | None => None
  | Some limit =>
    block? capacity_invalid when (negb (isfinite limit) || fleb limit fzero) in
    match r.(req_wall_time_seconds) with
    | None => Some wall_time_unknown
    | Some w => block? wall_time_exceeded when (fltb limit w) in None
    end
  end.

Definition scheduler_blocker (s : BrokerCapacitySnapshot) (r : BrokerPlacementRequest)
    : option blocker :=
  match (match s.(max_request_cpus) with
         | None => None
         | Some m => block? capacity_invalid when (m <? 1) in
                     block? cpus_exceeded when (m <? r.(req_cpus)) in None
         end) with
  | Some b => Some b
  | None =>
    match s.(free_jobs) with
    | None => Some capacity_unknown
    | Some j => block? job_slots_insufficient when (j <? 1) in None
    end
  end.

Definition daemon_blocker (s : BrokerCapacitySnapshot) (r : BrokerPlacementRequest)
    : option blocker :=
  match s.(free_cpus), s.(free_mem_mb), s.(free_jobs) with
  | Some c, Some m, Some j =>
    block? capacity_invalid
      when ((s.(pending_cpus) <? 0)
            || match s.(idle_seconds) with None => false | Some i => i <? 0 end) in
    block? cpus_insufficient when (c <? r.(req_cpus)) in
    block? memory_insufficient when (m <? r.(req_mem_mb)) in
    block? job_slots_insufficient when (j <? 1) in
    None
  | _, _, _ => Some capacity_unknown
  end.

(** The tests of [broker_host_blocker] after its observation policy. *)
Definition snapshot_blocker (s : BrokerCapacitySnapshot) (r : BrokerPlacementRequest)
    (now max_age_seconds : pyfloat) : option blocker :=
  block? scheduler_unsupported
    when (s.(is_scheduler_host) && negb s.(scheduler_admission)) in
  block? unreachable when (negb s.(reachable)) in
  block? daemon_not_ready when (negb s.(daemon_healthy)) in
  block? state_root_unverified when (negb s.(state_root_agreement)) in
  block? admission_blocked when (negb s.(admission_open)) in
  block? queue_not_ready when (negb s.(queue_ready)) in
  block? snapshot_invalid when (negb (isfinite s.(observed_at))) in
  let age := fsub now s.(observed_at) in
  block? snapshot_future when (fltb age fzero) in
  block? snapshot_stale when (fltb max_age_seconds age) in
  block? pool_mismatch
    when (match r.(req_pool) with
          | None => false
          | Some p => negb (mem_str p s.(pools))
          end) in
  match wall_time_blocker s r with
  | Some b => Some b
  | None =>
    if s.(is_scheduler_host) then scheduler_blocker s r else daemon_blocker s r
  end.

Definition broker_host_blocker (s : BrokerCapacitySnapshot) (r : BrokerPlacementRequest)
    (now max_age_seconds : pyfloat) : res placement_error (option blocker) :=
  let? _ := broker_observation_policy now max_age_seconds in
  Ok (snapshot_blocker s r now max_age_seconds).

(** The rank an eligible snapshot is appended with. *)
Definition snapshot_rank (s : BrokerCapacitySnapshot) (r : BrokerPlacementRequest) : rank :=
  if s.(is_scheduler_host) then (0, (0, (0, (0, (0, (0, s.(host)))))))
  else placement_rank s.(host) (opt_or s.(free_cpus) 0) s.(free_mem_mb) s.(pending_cpus)
         s.(idle_seconds) (Some r.(req_cpus)) (Some r.(req_mem_mb)).

(** One iteration of the loop of [place_broker_job]: the hosts seen so far,
    the blockers and the ranks, each newest last. *)
Definition place_one (r : BrokerPlacementRequest) (now max_age_seconds : pyfloat)
    (acc : list string * list (string * string) * list rank) (s : BrokerCapacitySnapshot)
    : res placement_error (list string * list (string * string) * list rank) :=
  let '(hosts, blockers, ranks) := acc in
  raise? UnnamedHost when (String.eqb (strip s.(host)) "") in
  raise? DuplicateHost when (mem_str s.(host) hosts) in
  let? reason := broker_host_blocker s r now max_age_seconds in
  match reason with
  | Some b => Ok (hosts ++ [s.(host)], blockers ++ [(s.(host), blocker_text b)], ranks)
  | None => Ok (hosts ++ [s.(host)], blockers, ranks ++ [snapshot_rank s r])
  end.

Fixpoint foldM_res {E A B} (f : A → B → res E A) (acc : A) (l : list B) : res E A :=
  match l with
  | [] => Ok acc
  | x :: l' => let? acc' := f acc x in foldM_res f acc' l'
  end.

Definition pair_leb : string * string → string * string → bool := lex_leb String.leb String.leb.

Definition place_broker_job (snapshots : list BrokerCapacitySnapshot)
    (r : BrokerPlacementRequest) (now max_age_seconds : pyfloat)
    : res placement_error BrokerPlacementDecision :=
  let? _ := broker_observation_policy now max_age_seconds in
  let? acc := foldM_res (place_one r now max_age_seconds) ([], [], []) snapshots in
  let '(_, blockers, ranks) := acc in
  let ranks := sort_by rank_leb ranks in
  Ok {| dec_host := match ranks with [] => None | rk :: _ => Some (rank_host rk) end;
        dec_blockers := sort_by pair_leb blockers;
        dec_ranking := ranks |}.

(** ** The client-side recommendation *)

Record HostOverview : Type := MkOverview {
  ov_host : string;
  ov_reachable : bool;
  ov_admin_down : bool;
  ov_full_drain : bool;
  ov_daemon_ok : option bool;
  ov_running_cpus : Z;
  ov_pending_cpus : Z;
  ov_max_cpus : option Z;
  ov_mem_available_mb : option Z;
  ov_idle_seconds : option Z;
}.

Definition candidate_ok (o : HostOverview) : bool :=
  o.(ov_reachable) && negb o.(ov_admin_down) && negb o.(ov_full_drain)
  && match o.(ov_daemon_ok) with Some false => false | _ => true end.

Definition overview_free_cpus (o : HostOverview) : Z :=
  let committed := o.(ov_running_cpus) + o.(ov_pending_cpus) in
  match o.(ov_max_cpus) with
  | Some m => m - committed
  | None => - committed
  end.

Definition overview_rank (job_cpus job_mem_mb : option Z) (o : HostOverview) : rank :=
  placement_rank o.(ov_host) (overview_free_cpus o) o.(ov_mem_available_mb) o.(ov_pending_cpus)
    o.(ov_idle_seconds) job_cpus job_mem_mb.

Definition recommend_host (overviews : list HostOverview) (job_cpus job_mem_mb : option Z)
    : option string :=
  let candidates := List.filter candidate_ok overviews in
  match sort_by (on_key rank_leb (overview_rank job_cpus job_mem_mb)) candidates with
  | [] => None
  | o :: _ => Some o.(ov_host)
  end.

(** ** Facts *)

Lemma rank_leb_total_order : TotalLeb rank_leb.
Proof. apply _. Qed.
#[global] Existing Instance rank_leb_total_order.

#[global] Instance pair_leb_total_order : TotalLeb pair_leb.
Proof. apply _. Qed.

Lemma lex_leb_antisym {A B} (la : A → A → bool) (lb : B → B → bool) :
  (∀ x y, la x y = true → la y x = true → x = y) →
  (∀ x y, lb x y = true → lb y x = true → x = y) →
  ∀ x y, lex_leb la lb x y = true → lex_leb la lb y x = true → x = y.
Proof.
  intros Ha Hb [a b] [a' b']. unfold lex_leb; simpl.
  rewrite !andb_true_iff, !orb_true_iff, !negb_true_iff. intros [H1 H2] [H3 H4].
  f_equal; [auto|]. destruct H2, H4; try congruence. auto.
Qed.

Lemma Zleb_antisym x y : Z.leb x y = true → Z.leb y x = true → x = y.
Proof. rewrite !Z.leb_le. lia. Qed.

Lemma rank_leb_antisym x y : rank_leb x y = true → rank_leb y x = true → x = y.
Proof.
  repeat (apply lex_leb_antisym; [apply Zleb_antisym|]). apply String.leb_antisym.
Qed.

Lemma pair_leb_antisym x y : pair_leb x y = true → pair_leb y x = true → x = y.
Proof. apply lex_leb_antisym; apply String.leb_antisym. Qed.

Lemma snapshot_rank_host s r : rank_host (snapshot_rank s r) = s.(host).
Proof. unfold snapshot_rank. by case_match. Qed.

Section place_facts.
Context (r : BrokerPlacementRequest) (now max_age_seconds : pyfloat).

Definition blocked_of (s : BrokerCapacitySnapshot) : option (string * string) :=
  b ← snapshot_blocker s r now max_age_seconds; Some (s.(host), blocker_text b).

Definition ranked_of (s : BrokerCapacitySnapshot) : option rank :=
  match snapshot_blocker s r now max_age_seconds with
  | Some _ => None
  | None => Some (snapshot_rank s r)
  end.

Definition named (s : BrokerCapacitySnapshot) : bool := negb (String.eqb (strip s.(host)) "").

Definition policy_ok : bool := is_ok (broker_observation_policy now max_age_seconds).

Lemma place_one_ok hosts bs rs s :
  policy_ok = true →
  place_one r now max_age_seconds (hosts, bs, rs) s =
    if negb (named s) then Err UnnamedHost
    else if mem_str s.(host) hosts then Err DuplicateHost
    else Ok (hosts ++ [s.(host)], bs ++ option_list (blocked_of s),
             rs ++ option_list (ranked_of s)).
Proof.
  unfold policy_ok, place_one, named, broker_host_blocker, blocked_of, ranked_of.
  rewrite negb_involutive.
  destruct (broker_observation_policy now max_age_seconds) as [[]|]; [|done]. intros _.
  repeat case_match; simpl; rewrite ?app_nil_r; done.
Qed.

Lemma place_fold hosts bs rs l out :
  policy_ok = true →
  foldM_res (place_one r now max_age_seconds) (hosts, bs, rs) l = Ok out ↔
    Forall (λ s, named s = true) l ∧
    NoDup (map host l) ∧ (∀ s, s ∈ l → s.(host) ∉ hosts) ∧
    out = (hosts ++ map host l, bs ++ omap blocked_of l, rs ++ omap ranked_of l).
Proof.
  intros Hp. revert hosts bs rs. induction l as [|s l IH]; intros hosts bs rs.
  { simpl. rewrite !app_nil_r. split.
    - intros [= <-]. repeat split; [constructor|constructor|set_solver].
    - by intros (_ & _ & _ & ->). }
  cbn [foldM_res]. rewrite place_one_ok by done.
  destruct (named s) eqn:Hn; simpl; cycle 1.
  { split; [done|]. intros (HF & _). inv HF. congruence. }
  rewrite mem_str_decide. case_bool_decide as Hin.
  { split; [done|]. intros (_ & _ & Hh & _). exfalso. apply (Hh s); set_solver. }
  rewrite IH, NoDup_cons, Forall_cons.
  assert (∀ {A} (o : option A) (g : list A),
            option_list o ++ g = match o with Some y => y :: g | None => g end) as Ho
    by (intros ? [] ?; done).
  rewrite <-!app_assoc, !Ho. simpl.
  split; [intros (? & ? & Hh & ->)|intros ((? & ?) & (? & ?) & Hh & ->)].
  - split_and!; try done.
    + intros (s' & Heq & Hs')%list_elem_of_fmap. apply (Hh s' Hs'). rewrite <-Heq. set_solver.
    + intros s' [->|Hs']%elem_of_cons; [done|]. specialize (Hh s' Hs'). set_solver.
  - split_and!; try done. intros s' Hs'. rewrite not_elem_of_app, not_elem_of_cons.
    split_and!; [apply Hh; set_solver| |set_solver]. intros Heq.
    match goal with H : host s ∉ _ |- _ => apply H end.
    apply list_elem_of_fmap. exists s'. split; [by rewrite <-Heq|done].
Qed.

Definition reference_decision (l : list BrokerCapacitySnapshot) : BrokerPlacementDecision :=
  let ranks := sort_by rank_leb (omap ranked_of l) in
  {| dec_host := match ranks with [] => None | rk :: _ => Some (rank_host rk) end;
     dec_blockers := sort_by pair_leb (omap blocked_of l);
     dec_ranking := ranks |}.

Lemma place_broker_job_spec l d :
  place_broker_job l r now max_age_seconds = Ok d ↔
    policy_ok = true ∧ Forall (λ s, named s = true) l ∧ NoDup (map host l) ∧
    d = reference_decision l.
Proof.
  unfold place_broker_job, policy_ok.
  destruct (broker_observation_policy now max_age_seconds) as [[]|] eqn:Hp; simpl; [|naive_solver].
  assert (policy_ok = true) as Hok by (unfold policy_ok; by rewrite Hp).
  destruct (foldM_res _ _ l) as [[[hs bs] rs]|e] eqn:Hf.
  - apply place_fold in Hf as (HF & HN & _ & Heq); [|done]. simplify_eq.
    unfold reference_decision. naive_solver.
  - split; [done|]. intros (_ & HF & HN & ->). exfalso.
    assert (foldM_res (place_one r now max_age_seconds) ([], [], []) l =
            Ok ([] ++ map host l, [] ++ omap blocked_of l, [] ++ omap ranked_of l)) as Hc
      by (apply place_fold; [done|]; split_and!; try done; set_solver).
    congruence.
Qed.

Lemma elem_of_ranked rk (l : list BrokerCapacitySnapshot) :
  rk ∈ omap ranked_of l ↔
    ∃ s, s ∈ l ∧ snapshot_blocker s r now max_age_seconds = None ∧ rk = snapshot_rank s r.
Proof.
  rewrite list_elem_of_omap. unfold ranked_of. split.
  - intros (s & Hs & Heq). exists s. case_match; naive_solver.
  - intros (s & Hs & Hb & ->). exists s. by rewrite Hb.
Qed.

Lemma omap_perm {A B} (f : A → option B) (l1 l2 : list A) : l1 ≡ₚ l2 → omap f l1 ≡ₚ omap f l2.
Proof.
  induction 1 as [|x l1 l2 _ IH|x y l|l1 l2 l3 _ IH1 _ IH2]; simpl.
  - done.
  - destruct (f x); [by constructor|done].
  - destruct (f x), (f y); try done. constructor.
  - by etrans.
Qed.

#[global] Instance reference_decision_proper : Proper (Permutation ==> eq) reference_decision.
Proof.
  intros l1 l2 Hp. unfold reference_decision.
  rewrite (sort_by_perm_eq rank_leb (omap ranked_of l1) (omap ranked_of l2)),
          (sort_by_perm_eq pair_leb (omap blocked_of l1) (omap blocked_of l2));
    auto using rank_leb_antisym, pair_leb_antisym, omap_perm.
Qed.
End place_facts.

(** What [broker_host_blocker] proves of a daemon host it lets through. *)
Lemma daemon_eligible s r now age :
  snapshot_blocker s r now age = None → s.(is_scheduler_host) = false →
  ∃ c m j, s.(free_cpus) = Some c ∧ s.(free_mem_mb) = Some m ∧ s.(free_jobs) = Some j ∧
    r.(req_cpus) <= c ∧ r.(req_mem_mb) <= m ∧ 1 <= j.
Proof.
  unfold snapshot_blocker, daemon_blocker. intros Hb Hs. rewrite Hs in Hb. simpl in Hb.
  repeat case_match; simplify_eq; propify; eexists _, _, _; split_and!; try done; lia.
Qed.

Lemma eligible_gates s r now age :
  snapshot_blocker s r now age = None →
  s.(reachable) = true ∧ s.(daemon_healthy) = true ∧ s.(state_root_agreement) = true ∧
  s.(admission_open) = true ∧ s.(queue_ready) = true ∧
  fltb (fsub now s.(observed_at)) fzero = false ∧ fltb age (fsub now s.(observed_at)) = false.
Proof.
  unfold snapshot_blocker. intros Hb.
  repeat match type of Hb with (if ?b then _ else _) = _ => destruct b eqn:?; [done|] end.
  propify. done.
Qed.

(** ** Properties *)

(** The broker's choice is eligible and best.  When
    [place_broker_job] names a host, that host is one of the snapshots, every
    gate of [broker_host_blocker] let it through (so a daemon host has the
    CPUs, memory and a job slot free now), and no eligible snapshot ranks
    before it. *)
Theorem place_broker_job_best l r now age d h :
  place_broker_job l r now age = Ok d → d.(dec_host) = Some h →
  ∃ s, s ∈ l ∧ s.(host) = h ∧ broker_host_blocker s r now age = Ok None ∧
    (s.(is_scheduler_host) = false →
       ∃ c m j, s.(free_cpus) = Some c ∧ s.(free_mem_mb) = Some m ∧ s.(free_jobs) = Some j ∧
         r.(req_cpus) <= c ∧ r.(req_mem_mb) <= m ∧ 1 <= j) ∧
    (∀ s', s' ∈ l → broker_host_blocker s' r now age = Ok None →
       rank_leb (snapshot_rank s r) (snapshot_rank s' r) = true).
Proof.
  intros (Hp & _ & _ & ->)%place_broker_job_spec. simpl.
  destruct (sort_by _ _) as [|rk rks] eqn:Hs; [done|]. intros [= <-].
  apply sort_by_head in Hs as [(s & Hin & Hb & ->)%elem_of_ranked Hmin]; [|apply _].
  unfold policy_ok in Hp. unfold broker_host_blocker.
  destruct (broker_observation_policy now age) as [[]|]; [|done].
  exists s. rewrite snapshot_rank_host, Hb. split_and!; try done.
  - eauto using daemon_eligible.
  - intros s' Hs' [= Hb']. apply Hmin, elem_of_ranked. eauto.
Qed.

(** Every host is accounted for.  The decision ranks
    exactly the eligible snapshots and gives a reason for every other one; no
    host appears twice. *)
Theorem place_broker_job_partition l r now age d :
  place_broker_job l r now age = Ok d →
  map fst d.(dec_blockers) ++ map rank_host d.(dec_ranking) ≡ₚ map host l ∧
  NoDup (map fst d.(dec_blockers) ++ map rank_host d.(dec_ranking)).
Proof.
  intros (_ & _ & HN & ->)%place_broker_job_spec. simpl.
  assert (map fst (sort_by pair_leb (omap (blocked_of r now age) l)) ++
          map rank_host (sort_by rank_leb (omap (ranked_of r now age) l)) ≡ₚ map host l) as Hp.
  { rewrite !sort_by_perm. clear HN. induction l as [|s l IH]; simpl; [done|].
    unfold blocked_of at 1, ranked_of at 1.
    pose proof (snapshot_rank_host s r) as Hh.
    destruct (snapshot_blocker s r now age) as [b|]; simpl.
    - by rewrite IH.
    - rewrite Hh, <-IH. by rewrite Permutation_middle. }
  split; [done|by rewrite Hp].
Qed.

(** The advice does not depend on the order in which the
    snapshots were collected. *)
Theorem place_broker_job_order_independent l l' r now age d :
  l ≡ₚ l' → place_broker_job l r now age = Ok d → place_broker_job l' r now age = Ok d.
Proof.
  intros Hp. rewrite !place_broker_job_spec. by setoid_rewrite Hp.
Qed.

(** [recommend_host] never names an unreachable,
    administratively down, fully drained or dead host, and names one whenever
    some host passes the filter. *)
Theorem recommend_host_sound l jc jm :
  match recommend_host l jc jm with
  | Some h => ∃ o, o ∈ l ∧ o.(ov_host) = h ∧ candidate_ok o = true ∧
      ∀ o', o' ∈ l → candidate_ok o' = true →
        rank_leb (overview_rank jc jm o) (overview_rank jc jm o') = true
  | None => ∀ o, o ∈ l → candidate_ok o = false
  end.
Proof.
  unfold recommend_host.
  assert (∀ o, o ∈ List.filter candidate_ok l ↔ o ∈ l ∧ candidate_ok o = true) as Hf
    by (intros o; rewrite !list_elem_of_In; apply filter_In).
  destruct (sort_by _ _) as [|o os] eqn:Hs.
  - intros o Ho. destruct (candidate_ok o) eqn:Hc; [|done]. exfalso.
    assert (o ∈ (@nil HostOverview)); [|set_solver].
    rewrite <-Hs, elem_of_sort_by. by apply Hf.
  - apply sort_by_head in Hs as [[Hin Hc]%Hf Hmin]; [|apply _].
    exists o. split_and!; try done. intros o' Ho' Hc'. apply (Hmin o'). by apply Hf.
Qed.

(** ** Witnesses *)

Definition sample_request : BrokerPlacementRequest :=
  {| req_cpus := 4; req_mem_mb := 2000; req_pool := None; req_wall_time_seconds := None |}.

Definition sample_host (name : string) (cpus : Z) (up : bool) : BrokerCapacitySnapshot :=
  {| host := name; observed_at := FFin 5; free_cpus := Some cpus; free_mem_mb := Some 16000;
     free_jobs := Some 2; reachable := up; daemon_healthy := true; state_root_agreement := true;
     admission_open := true; queue_ready := true; is_scheduler_host := false;
     scheduler_admission := false; max_request_cpus := None; authority := None;
     runtime_pins := None; pools := []; max_wall_time_seconds := None; pending_cpus := 0;
     idle_seconds := None |}.

Definition sample_hosts : list BrokerCapacitySnapshot :=
  [sample_host "alpha" 8 true; sample_host "beta" 16 true; sample_host "gamma" 32 false].

Definition sample_decision : BrokerPlacementDecision :=
  match place_broker_job sample_hosts sample_request (FFin 10) (FFin 100) with
  | Ok d => d
  | Err _ => {| dec_host := None; dec_blockers := []; dec_ranking := [] |}
  end.

Lemma place_broker_job_best_witness :
  ∃ s, s ∈ sample_hosts ∧ s.(host) = "beta"
    ∧ broker_host_blocker s sample_request (FFin 10) (FFin 100) = Ok None ∧
    (s.(is_scheduler_host) = false →
       ∃ c m j, s.(free_cpus) = Some c ∧ s.(free_mem_mb) = Some m ∧ s.(free_jobs) = Some j ∧
         4 <= c ∧ 2000 <= m ∧ 1 <= j) ∧
    (∀ s', s' ∈ sample_hosts →
       broker_host_blocker s' sample_request (FFin 10) (FFin 100) = Ok None →
       rank_leb (snapshot_rank s sample_request) (snapshot_rank s' sample_request) = true).
Proof.
  apply (place_broker_job_best sample_hosts sample_request (FFin 10) (FFin 100) sample_decision);
    vm_compute; reflexivity.
Defined.

Lemma place_broker_job_partition_witness :
  map fst sample_decision.(dec_blockers) ++ map rank_host sample_decision.(dec_ranking)
    ≡ₚ map host sample_hosts ∧
  NoDup (map fst sample_decision.(dec_blockers) ++ map rank_host sample_decision.(dec_ranking)).
Proof.
  apply (place_broker_job_partition sample_hosts sample_request (FFin 10) (FFin 100)).
  vm_compute. reflexivity.
Defined.

Lemma place_broker_job_order_independent_witness :
  place_broker_job (rev sample_hosts) sample_request (FFin 10) (FFin 100) = Ok sample_decision.
Proof.
  apply (place_broker_job_order_independent sample_hosts); [|vm_compute; reflexivity].
  apply Permutation_rev.
Defined.
