(* ===== verification/Json.v ===== *)
(** * JSON values

    What [json.loads] yields: the durable form of broker records.  Objects
    keep their keys in the order written; a dictionary never repeats a key. *)

From S2P Require Import Prelude.

Inductive json : Type :=
| JNull
| JBool (b : bool)
| JInt (z : Z)
| JFloat (f : pyfloat)
| JStr (s : string)
| JList (l : list json)
| JObj (kvs : list (string * json)).

(** Induction through the two nested list types. *)
Section json_ind_nested.
Context (P : json → Prop).
Context (Hnull : P JNull) (Hbool : ∀ b, P (JBool b)) (Hint : ∀ z, P (JInt z))
        (Hfloat : ∀ f, P (JFloat f)) (Hstr : ∀ s, P (JStr s))
        (Hlist : ∀ l, Forall P l → P (JList l))
        (Hobj : ∀ kvs, Forall (λ kv, P kv.2) kvs → P (JObj kvs)).

Fixpoint json_ind_nested (j : json) : P j :=
  match j with
  | JNull => Hnull
  | JBool b => Hbool b
  | JInt z => Hint z
  | JFloat f => Hfloat f
  | JStr s => Hstr s
  | JList l =>
    Hlist l ((fix go l : Forall P l :=
      match l with
      | [] => Forall_nil_2 P
      | x :: l => Forall_cons_2 P x l (json_ind_nested x) (go l)
      end) l)
  | JObj kvs =>
    Hobj kvs ((fix go kvs : Forall (λ kv, P kv.2) kvs :=
      match kvs with
      | [] => Forall_nil_2 _
      | kv :: kvs => Forall_cons_2 (λ kv, P kv.2) kv kvs (json_ind_nested kv.2) (go kvs)
      end) kvs)
  end.
End json_ind_nested.

(** [a == b] on the values of one JSON type. *)
Fixpoint json_eqb (a b : json) : bool :=
  match a, b with
  | JNull, JNull => true
  | JBool x, JBool y => Bool.eqb x y
  | JInt x, JInt y => x =? y
  | JFloat x, JFloat y => bool_decide (x = y)
  | JStr x, JStr y => String.eqb x y
  | JList l, JList m =>
    (fix go l m := match l, m with
                   | [], [] => true
                   | x :: l, y :: m => json_eqb x y && go l m
                   | _, _ => false
                   end) l m
  | JObj l, JObj m =>
    (fix go l m := match l, m with
                   | [], [] => true
                   | (k, x) :: l, (k', y) :: m => String.eqb k k' && json_eqb x y && go l m
                   | _, _ => false
                   end) l m
  | _, _ => false
  end.

Lemma json_eqb_spec a b : json_eqb a b = true ↔ a = b.
Proof.
  revert b. induction a as [|x|x|x|x|l IH|l IH] using json_ind_nested;
    intros b; destruct b as [|y|y|y|y|m|m]; simpl; try done.
  - rewrite Bool.eqb_true_iff. naive_solver.
  - rewrite Z.eqb_eq. naive_solver.
  - rewrite bool_decide_eq_true. naive_solver.
  - rewrite String.eqb_eq. naive_solver.
  - revert m. induction IH as [|x l Hx _ IHl]; intros [|y m]; try done.
    rewrite andb_true_iff, Hx, IHl. naive_solver.
  - revert m. induction IH as [|[k x] l Hx _ IHl]; intros [|[k' y] m]; try done.
    rewrite !andb_true_iff, String.eqb_eq, Hx, IHl. simpl. naive_solver.
Qed.

#[global] Instance json_eq_dec : EqDecision json.
Proof.
  intros a b. destruct (json_eqb a b) eqn:E.
  - left. by apply json_eqb_spec.
  - right. intros ->. rewrite (proj2 (json_eqb_spec b b)) in E; done.
Defined.

(** [raw[k]], for a key the object is known to have. *)
Definition jget (kvs : list (string * json)) (k : string) : json := opt_or (assoc k kvs) JNull.

(** [set(data) == keys] *)
Definition same_keys (kvs : list (string * json)) (keys : list string) : bool :=
  forallb (λ k, mem_str k keys) (map fst kvs) && forallb (λ k, mem_str k (map fst kvs)) keys.

Definition jopt {A} (f : A → json) (o : option A) : json :=
  match o with Some x => f x | None => JNull end.

(** [x == n] for an int [n]: Python's [True] is 1 and [2.0] is 2. *)
Definition json_eq_int (j : json) (n : Z) : bool :=
  match j with
  | JInt z => z =? n
  | JBool b => (if b then 1 else 0) =? n
  | JFloat (FFin t) => t =? n * TICKS_PER_SECOND
  | _ => false
  end.

(** A list or object is unhashable: a set membership test raises [TypeError]. *)
Definition json_unhashable (j : json) : bool :=
  match j with JList _ | JObj _ => true | _ => false end.
