(* ===== verification/BrokerRecord.v ===== *)
(** * Broker records: the data model of [src/vq/broker_store.py]

    The submission intent of a held job, its placement attempts, the record,
    the JSON each is written as, the parser that reads it back and the
    consistency test every read and write passes through.  The intent's
    validation is that of [src/vq/submit.py] it calls. *)

From S2P Require Import Prelude Spec Overview Json.

(** [hashlib] and the canonical serialisation of [json.dumps]: library code,
    so parameters.  [HashingOk] is the documented shape of a SHA-256 digest. *)
Class Hashing : Type := {
  canonical_json : json → string;
  sha256_hex : string → string;
}.

Definition is_sha256_hex (s : string) : bool := fullmatch_class is_lower_hex 64 64 s.

Class HashingOk (H : Hashing) : Prop := {
  sha256_hex_shape s : is_sha256_hex (sha256_hex s) = true;
}.

(** ** Exceptions

    [StoreError] and its four subclasses; the others are not caught by [except BrokerStoreError]. *)
Inductive broker_error : Type :=
| StoreError | StoreBusy | RecordConflict | IdempotencyConflict | RecordCorrupt
| PyTypeError | PyIndexError | PyAttributeError | PyValueError | PyStopIteration | OSError.

#[global] Instance broker_error_eq_dec : EqDecision broker_error.
Proof. solve_decision. Defined.

Definition is_store_error (e : broker_error) : bool :=
  match e with
  | StoreError | StoreBusy | RecordConflict | IdempotencyConflict | RecordCorrupt => true
  | _ => false
  end.

(** ** States *)

Inductive broker_state : Type :=
| HELD | RESERVED | TRANSFERRING | PLACED | RETURNED | CANCELLED.

#[global] Instance broker_state_eq_dec : EqDecision broker_state.
Proof. solve_decision. Defined.

Definition state_text (s : broker_state) : string :=
  match s with
  | HELD => "held" | RESERVED => "reserved" | TRANSFERRING => "transferring"
  | PLACED => "placed" | RETURNED => "returned" | CANCELLED => "cancelled"
  end.

Definition state_of_text (s : string) : option broker_state :=
  if String.eqb s "held" then Some HELD
  else if String.eqb s "reserved" then Some RESERVED
  else if String.eqb s "transferring" then Some TRANSFERRING
  else if String.eqb s "placed" then Some PLACED
  else if String.eqb s "returned" then Some RETURNED
  else if String.eqb s "cancelled" then Some CANCELLED
  else None.

(** [BROKER_JOB_ID_PATTERN.fullmatch]: ["b-[0-9a-f]{12}"] *)
Definition BROKER_JOB_ID_PATTERN (s : string) : bool :=
  match s with
  | String b (String d rest) =>
    Ascii.eqb b "b" && Ascii.eqb d "-" && fullmatch_class is_lower_hex 12 12 rest
  | _ => false
  end.

Definition validate_broker_job_id (value : string) : res broker_error string :=
  raise? StoreError when (negb (BROKER_JOB_ID_PATTERN value)) in Ok value.

(** ["[A-Za-z0-9][A-Za-z0-9._:-]{0,127}"] *)
Definition IDEMPOTENCY_KEY_PATTERN (s : string) : bool :=
  match s with
  | EmptyString => false
  | String c rest =>
    is_alnum c && fullmatch_class (λ c, name_char c || Ascii.eqb c ":") 0 127 rest
  end.

Section with_hashing.
Context {H : Hashing}.

(** The key is hashed after the domain and a NUL. *)
Definition broker_job_id_for_key (key : string) : res broker_error string :=
  raise? StoreError when (negb (IDEMPOTENCY_KEY_PATTERN key)) in
  Ok ("b-" +:+ str_take 12 (sha256_hex
    ("vq.broker.idempotency-key/1" +:+ String "000"%char key))).
End with_hashing.

(** ** Submission intent *)

(** A Python [int] or [float]. *)
Inductive pynum : Type := NInt (z : Z) | NFloat (f : pyfloat).

#[global] Instance pynum_eq_dec : EqDecision pynum.
Proof. solve_decision. Defined.

Definition num_float (n : pynum) : pyfloat :=
  match n with NInt z => float_of_int z | NFloat f => f end.

Record BrokerIntent : Type := MkIntent {
  i_command : list string;
  i_cpus : Z;
  i_mem_mb : Z;
  i_wall_time_seconds : option Z;
  i_priority : Z;
  i_auto_resume : bool;
  i_retry : Z;
  i_job_name : option string;
  i_program : option string;
  i_expected_sha : option string;
  i_tags : list string;
  i_clean_workdir_on_terminal : bool;
  i_rerun_until_file_exists : option string;
  i_rerun_max : Z;
  i_pool : option string;
  i_runtime_seconds : option (pynum * pynum);
}.

#[global] Instance BrokerIntent_eq_dec : EqDecision BrokerIntent.
Proof. solve_decision. Defined.

Definition placement_request (i : BrokerIntent) : BrokerPlacementRequest :=
  {| req_cpus := i.(i_cpus); req_mem_mb := i.(i_mem_mb); req_pool := i.(i_pool);
     req_wall_time_seconds := float_of_int <$> i.(i_wall_time_seconds) |}.

(** [submit._validate_command_head] *)
Definition validate_command_head (command : list string) : bool :=
  let head := match command with [] => "" | h :: _ => h end in
  negb (String.eqb head "" || startswith head "-"
        || any_char (Ascii.eqb "000"%char) head).

Definition EXPECTED_SHA_MIN_PREFIX_LEN : Z := 7.

(** [submit._validate_remote_submit_fields] at the arguments an intent passes:
    the expected-SHA test and the [JobSpec] field constraints; every other
    argument is absent. *)
Definition validate_remote_submit_fields (i : BrokerIntent) : bool :=
  match i.(i_expected_sha) with
  | None => true
  | Some sha =>
    let normalized_sha := strip sha in
    negb ((str_len normalized_sha <? EXPECTED_SHA_MIN_PREFIX_LEN)
          || negb (all_chars is_hex normalized_sha))
    && match i.(i_program) with None => false | Some _ => true end
  end
  && match i.(i_command) with [] => false | _ => true end
  && (1 <=? i.(i_cpus)) && (1 <=? i.(i_mem_mb))
  && match i.(i_wall_time_seconds) with None => true | Some w => 1 <=? w end
  && (0 <=? i.(i_retry)) && (0 <=? i.(i_rerun_max))
  && is_ok (check_job_name i.(i_job_name))
  && is_ok (check_program i.(i_program))
  && is_ok (check_tags i.(i_tags)).

Definition runtime_seconds_ok (bounds : pynum * pynum) : bool :=
  let low := num_float bounds.1 in let high := num_float bounds.2 in
  isfinite low && isfinite high && fleb fzero low && fleb low high.

(** [BrokerIntent.__post_init__] *)
Definition intent_valid (i : BrokerIntent) : bool :=
  match i.(i_command) with [] => false | _ => true end
  && match i.(i_pool) with Some p => negb (String.eqb p "") | None => true end
  && match i.(i_runtime_seconds) with Some b => runtime_seconds_ok b | None => true end
  && request_valid (placement_request i)
  && validate_command_head i.(i_command)
  && validate_remote_submit_fields i.

Definition jnum (n : pynum) : json :=
  match n with NInt z => JInt z | NFloat f => JFloat f end.

(** [BrokerIntent.to_json] *)
Definition intent_to_json (i : BrokerIntent) : json :=
  JObj ([
    ("command", JList (map JStr i.(i_command)));
    ("cpus", JInt i.(i_cpus));
    ("mem_mb", JInt i.(i_mem_mb));
    ("wall_time_seconds", jopt JInt i.(i_wall_time_seconds));
    ("priority", JInt i.(i_priority));
    ("auto_resume", JBool i.(i_auto_resume));
    ("retry", JInt i.(i_retry));
    ("job_name", jopt JStr i.(i_job_name));
    ("program", jopt JStr i.(i_program));
    ("expected_sha", jopt JStr i.(i_expected_sha));
    ("tags", JList (map JStr i.(i_tags)));
    ("clean_workdir_on_terminal", JBool i.(i_clean_workdir_on_terminal));
    ("rerun_until_file_exists", jopt JStr i.(i_rerun_until_file_exists));
    ("rerun_max", JInt i.(i_rerun_max));
    ("pool", jopt JStr i.(i_pool))
  ] ++ match i.(i_runtime_seconds) with
       | Some (low, high) => [("runtime_seconds", JList [jnum low; jnum high])]
       | None => []
       end).

Definition INTENT_BASE_KEYS : list string :=
  ["command"; "cpus"; "mem_mb"; "wall_time_seconds"; "priority"; "auto_resume"; "retry";
   "job_name"; "program"; "expected_sha"; "tags"; "clean_workdir_on_terminal";
   "rerun_until_file_exists"; "rerun_max"; "pool"].

Definition exact_keys (data : json) (keys : list string) : res broker_error (list (string * json)) :=
  match data with
  | JObj kvs => raise? RecordCorrupt when (negb (same_keys kvs keys)) in Ok kvs
  | _ => Err RecordCorrupt
  end.

(** The type tests of [__post_init__] on values read from JSON; a failed one
    is re-raised as [BrokerRecordCorrupt]. *)
Definition as_int (j : json) : res broker_error Z :=
  match j with JInt z => Ok z | _ => Err RecordCorrupt end.
Definition as_opt_int (j : json) : res broker_error (option Z) :=
  match j with JNull => Ok None | JInt z => Ok (Some z) | _ => Err RecordCorrupt end.
Definition as_bool (j : json) : res broker_error bool :=
  match j with JBool b => Ok b | _ => Err RecordCorrupt end.
Definition as_str (j : json) : res broker_error string :=
  match j with JStr s => Ok s | _ => Err RecordCorrupt end.
Definition as_opt_str (j : json) : res broker_error (option string) :=
  match j with JNull => Ok None | JStr s => Ok (Some s) | _ => Err RecordCorrupt end.
Definition as_str_list (j : json) : res broker_error (list string) :=
  match j with JList l => mapM_res as_str l | _ => Err RecordCorrupt end.
Definition as_num (j : json) : res broker_error pynum :=
  match j with JInt z => Ok (NInt z) | JFloat f => Ok (NFloat f) | _ => Err RecordCorrupt end.
Definition as_bounds (j : json) : res broker_error (option (pynum * pynum)) :=
  match j with
  | JList [a; b] => let? low := as_num a in let? high := as_num b in Ok (Some (low, high))
  | _ => Err RecordCorrupt
  end.

(** [BrokerIntent.from_json] *)
Definition intent_from_json (data : json) : res broker_error BrokerIntent :=
  let has_runtime := match data with
                     | JObj kvs => mem_str "runtime_seconds" (map fst kvs)
                     | _ => false
                     end in
  let keys := if has_runtime then INTENT_BASE_KEYS ++ ["runtime_seconds"] else INTENT_BASE_KEYS in
  let? f := exact_keys data keys in
  let? runtime_seconds := if has_runtime then as_bounds (jget f "runtime_seconds") else Ok None in
  let? command := as_str_list (jget f "command") in
  let? tags := as_str_list (jget f "tags") in
  let? cpus := as_int (jget f "cpus") in
  let? mem_mb := as_int (jget f "mem_mb") in
  let? wall_time_seconds := as_opt_int (jget f "wall_time_seconds") in
  let? priority := as_int (jget f "priority") in
  let? auto_resume := as_bool (jget f "auto_resume") in
  let? retry := as_int (jget f "retry") in
  let? job_name := as_opt_str (jget f "job_name") in
  let? program := as_opt_str (jget f "program") in
  let? expected_sha := as_opt_str (jget f "expected_sha") in
  let? clean := as_bool (jget f "clean_workdir_on_terminal") in
  let? rerun_until := as_opt_str (jget f "rerun_until_file_exists") in
  let? rerun_max := as_int (jget f "rerun_max") in
  let? pool := as_opt_str (jget f "pool") in
  let i := {| i_command := command; i_cpus := cpus; i_mem_mb := mem_mb;
              i_wall_time_seconds := wall_time_seconds; i_priority := priority;
              i_auto_resume := auto_resume; i_retry := retry; i_job_name := job_name;
              i_program := program; i_expected_sha := expected_sha; i_tags := tags;
              i_clean_workdir_on_terminal := clean; i_rerun_until_file_exists := rerun_until;
              i_rerun_max := rerun_max; i_pool := pool; i_runtime_seconds := runtime_seconds |} in
  raise? RecordCorrupt when (negb (intent_valid i)) in
  Ok i.

(** ** Records *)

Record BrokerCharge : Type := MkCharge { c_cpus : Z; c_mem_mb : Z; c_job_slots : Z }.

#[global] Instance BrokerCharge_eq_dec : EqDecision BrokerCharge.
Proof. solve_decision. Defined.

Record BrokerAttempt : Type := MkAttempt {
  number : Z;
  phase : broker_state;
  target_host : string;
  target_state_root : string;
  reservation_id : string;
  charge : BrokerCharge;
  decided_at : pyfloat;
  snapshot : list (string * json);
  ranking : list json;
  blockers : list (string * json);
  idempotency_key : string;
  request_fingerprint : option string;
  transfer_started_at : option pyfloat;
  target_job_id : option string;
  accepted_at : option pyfloat;
  returned_at : option pyfloat;
  return_reason : option string;
  charge_released_at : option pyfloat;
  diagnostics : list string;
}.

#[global] Instance BrokerAttempt_eq_dec : EqDecision BrokerAttempt.
Proof. solve_decision. Defined.

Record BrokerCancellation : Type := MkCancellation {
  requested_at : pyfloat;
  reason : string;
  completed_at : option pyfloat;
}.

#[global] Instance BrokerCancellation_eq_dec : EqDecision BrokerCancellation.
Proof. solve_decision. Defined.

Record BrokerRecord : Type := MkRecord {
  broker_job_id : string;
  revision : Z;
  rstate : broker_state;
  created_at : pyfloat;
  updated_at : pyfloat;
  intent : BrokerIntent;
  payload_sha256 : string;
  payload_size : Z;
  attempts : list BrokerAttempt;
  cancellation : option BrokerCancellation;
  held_blockers : list (string * string);
}.

#[global] Instance BrokerRecord_eq_dec : EqDecision BrokerRecord.
Proof. solve_decision. Defined.

Definition current_attempt (r : BrokerRecord) : option BrokerAttempt := last r.(attempts).

(** ** Serialisation *)

Definition charge_to_json (c : BrokerCharge) : json :=
  JObj [("cpus", JInt c.(c_cpus)); ("mem_mb", JInt c.(c_mem_mb));
        ("job_slots", JInt c.(c_job_slots))].

Definition attempt_to_json (a : BrokerAttempt) : json :=
  JObj [
    ("number", JInt a.(number));
    ("phase", JStr (state_text a.(phase)));
    ("target_host", JStr a.(target_host));
    ("target_state_root", JStr a.(target_state_root));
    ("reservation_id", JStr a.(reservation_id));
    ("charge", charge_to_json a.(charge));
    ("decided_at", JFloat a.(decided_at));
    ("snapshot", JObj a.(snapshot));
    ("ranking", JList a.(ranking));
    ("blockers", JObj a.(blockers));
    ("idempotency_key", JStr a.(idempotency_key));
    ("request_fingerprint", jopt JStr a.(request_fingerprint));
    ("transfer_started_at", jopt JFloat a.(transfer_started_at));
    ("target_job_id", jopt JStr a.(target_job_id));
    ("accepted_at", jopt JFloat a.(accepted_at));
    ("returned_at", jopt JFloat a.(returned_at));
    ("return_reason", jopt JStr a.(return_reason));
    ("charge_released_at", jopt JFloat a.(charge_released_at));
    ("diagnostics", JList (map JStr a.(diagnostics)))
  ].

Definition cancellation_to_json (c : BrokerCancellation) : json :=
  JObj [("requested_at", JFloat c.(requested_at)); ("reason", JStr c.(reason));
        ("completed_at", jopt JFloat c.(completed_at))].

Definition RECORD_SCHEMA : string := "vq.broker-record.v1".

(** [dict(pairs)]: a repeated key keeps its first position and its last value. *)
Definition dict_of {A} (pairs : list (string * A)) : list (string * A) :=
  foldl (λ d kv, assoc_set kv.1 kv.2 d) [] pairs.

Section with_hashing.
Context {H : Hashing}.

(** [_sha256_hex(_canonical_json(v))] *)
Definition json_digest (v : json) : string := sha256_hex (canonical_json v).

Definition intent_digest (i : BrokerIntent) : string := json_digest (intent_to_json i).

(** [BrokerRecord.to_json] *)
Definition record_to_json (r : BrokerRecord) : json :=
  JObj ([
    ("schema", JStr RECORD_SCHEMA);
    ("broker_job_id", JStr r.(broker_job_id));
    ("revision", JInt r.(revision));
    ("state", JStr (state_text r.(rstate)));
    ("created_at", JFloat r.(created_at));
    ("updated_at", JFloat r.(updated_at));
    ("intent", intent_to_json r.(intent));
    ("intent_digest", JStr (intent_digest r.(intent)));
    ("payload", JObj [("sha256", JStr r.(payload_sha256)); ("size", JInt r.(payload_size))]);
    ("attempts", JList (map attempt_to_json r.(attempts)));
    ("cancellation", jopt cancellation_to_json r.(cancellation))
  ] ++ match r.(held_blockers) with
       | [] => []
       | bs => [("held_blockers", JObj (map (λ kv, (kv.1, JStr kv.2)) (dict_of bs)))]
       end).
End with_hashing.

(** ** Parsing *)

(** [_finite_time]: an int or float that is finite and not negative, as a float. *)
Definition finite_time (n : pynum) : res broker_error pyfloat :=
  let f := num_float n in
  raise? StoreError when (negb (isfinite f) || fltb f fzero) in Ok f.

Definition parse_time (j : json) : res broker_error pyfloat :=
  match as_num j with
  | Ok n => match finite_time n with Ok f => Ok f | Err _ => Err RecordCorrupt end
  | Err _ => Err RecordCorrupt
  end.

Definition parse_opt_time (j : json) : res broker_error (option pyfloat) :=
  match j with JNull => Ok None | _ => let? f := parse_time j in Ok (Some f) end.

Definition parse_str (j : json) : res broker_error string :=
  match j with
  | JStr s => raise? RecordCorrupt when (String.eqb s "") in Ok s
  | _ => Err RecordCorrupt
  end.

Definition parse_opt_str (j : json) : res broker_error (option string) :=
  match j with JNull => Ok None | _ => let? s := parse_str j in Ok (Some s) end.

Definition parse_positive_int (j : json) : res broker_error Z :=
  match j with
  | JInt z => raise? RecordCorrupt when (z <=? 0) in Ok z
  | _ => Err RecordCorrupt
  end.

(** [value in frozenset(states)]: unhashable values raise [TypeError]. *)
Definition parse_state (j : json) (allowed : list broker_state) : res broker_error broker_state :=
  raise? PyTypeError when (json_unhashable j) in
  match j with
  | JStr s => match state_of_text s with
              | Some st => raise? RecordCorrupt when (negb (bool_decide (st ∈ allowed))) in Ok st
              | None => Err RecordCorrupt
              end
  | _ => Err RecordCorrupt
  end.

Definition STATES : list broker_state := [HELD; RESERVED; TRANSFERRING; PLACED; RETURNED; CANCELLED].
Definition ATTEMPT_PHASES : list broker_state := [RESERVED; TRANSFERRING; PLACED; RETURNED].

Definition ATTEMPT_KEYS : list string :=
  ["number"; "phase"; "target_host"; "target_state_root"; "reservation_id"; "charge";
   "decided_at"; "snapshot"; "ranking"; "blockers"; "idempotency_key"; "request_fingerprint";
   "transfer_started_at"; "target_job_id"; "accepted_at"; "returned_at"; "return_reason";
   "charge_released_at"; "diagnostics"].

Definition as_dict (j : json) : res broker_error (list (string * json)) :=
  match j with JObj kvs => Ok kvs | _ => Err RecordCorrupt end.
Definition as_list (j : json) : res broker_error (list json) :=
  match j with JList l => Ok l | _ => Err RecordCorrupt end.

Definition parse_target_job_id (j : json) : res broker_error (option string) :=
  match j with
  | JNull => Ok None
  | JStr s => match validate_job_id s with Ok v => Ok (Some v) | Err _ => Err RecordCorrupt end
  | _ => Err RecordCorrupt
  end.

Definition parse_fingerprint (j : json) : res broker_error (option string) :=
  match j with
  | JNull => Ok None
  | JStr s => raise? RecordCorrupt when (negb (is_sha256_hex s)) in Ok (Some s)
  | _ => Err RecordCorrupt
  end.

(** [_parse_attempt] *)
Definition parse_attempt (data : json) (n : Z) (job_id : string) : res broker_error BrokerAttempt :=
  let? raw := exact_keys data ATTEMPT_KEYS in
  raise? RecordCorrupt when (negb (json_eq_int (jget raw "number") n)) in
  let? phase := parse_state (jget raw "phase") ATTEMPT_PHASES in
  raise? RecordCorrupt when (negb (bool_decide (jget raw "idempotency_key" = JStr job_id))) in
  let? ch := exact_keys (jget raw "charge") ["cpus"; "mem_mb"; "job_slots"] in
  let? diagnostics := as_str_list (jget raw "diagnostics") in
  let? snapshot := as_dict (jget raw "snapshot") in
  let? ranking := as_list (jget raw "ranking") in
  let? blockers := as_dict (jget raw "blockers") in
  let? target_job_id := parse_target_job_id (jget raw "target_job_id") in
  let? fingerprint := parse_fingerprint (jget raw "request_fingerprint") in
  let? target_host := parse_str (jget raw "target_host") in
  let? target_state_root := parse_str (jget raw "target_state_root") in
  let? reservation_id := parse_str (jget raw "reservation_id") in
  let? c := parse_positive_int (jget ch "cpus") in
  let? m := parse_positive_int (jget ch "mem_mb") in
  let? j := parse_positive_int (jget ch "job_slots") in
  let? decided_at := parse_time (jget raw "decided_at") in
  let? transfer_started_at := parse_opt_time (jget raw "transfer_started_at") in
  let? accepted_at := parse_opt_time (jget raw "accepted_at") in
  let? returned_at := parse_opt_time (jget raw "returned_at") in
  let? return_reason := parse_opt_str (jget raw "return_reason") in
  let? charge_released_at := parse_opt_time (jget raw "charge_released_at") in
  Ok {| number := n; phase := phase; target_host := target_host;
        target_state_root := target_state_root; reservation_id := reservation_id;
        charge := {| c_cpus := c; c_mem_mb := m; c_job_slots := j |};
        decided_at := decided_at; snapshot := snapshot; ranking := ranking;
        blockers := blockers; idempotency_key := job_id; request_fingerprint := fingerprint;
        transfer_started_at := transfer_started_at; target_job_id := target_job_id;
        accepted_at := accepted_at; returned_at := returned_at;
        return_reason := return_reason; charge_released_at := charge_released_at;
        diagnostics := diagnostics |}.

Definition FENCED_RETURN_PREFIX : string := "fenced on target: ".

(** One iteration of the loop of [_check_consistency] over all attempts. *)
Definition attempt_contradiction (a : BrokerAttempt) : bool :=
  let started := is_some a.(transfer_started_at) || is_some a.(request_fingerprint) in
  (bool_decide (a.(phase) ∈ [TRANSFERRING; PLACED])
   && negb (is_some a.(transfer_started_at) && is_some a.(request_fingerprint)))
  || (bool_decide (a.(phase) = RETURNED) && started
      && negb (startswith (opt_or a.(return_reason) "") FENCED_RETURN_PREFIX))
  || negb (Bool.eqb (bool_decide (a.(phase) = PLACED)) (is_some a.(target_job_id)))
  || negb (Bool.eqb (bool_decide (a.(phase) = RETURNED)) (is_some a.(returned_at)))
  || (bool_decide (a.(phase) ∈ [RESERVED; TRANSFERRING]) && is_some a.(charge_released_at)).

(** The phases the current attempt may have in a state; [None] is no attempt. *)
Definition expected_phase (s : broker_state) : list (option broker_state) :=
  match s with
  | HELD | CANCELLED => [None; Some RETURNED]
  | RESERVED => [Some RESERVED]
  | TRANSFERRING => [Some TRANSFERRING]
  | PLACED => [Some PLACED]
  | RETURNED => [Some RETURNED]
  end.

(** [_check_consistency] *)
Definition check_consistency (r : BrokerRecord) : res broker_error unit :=
  let completed := match r.(cancellation) with
                   | Some c => is_some c.(completed_at)
                   | None => false
                   end in
  raise? RecordCorrupt
    when (negb (bool_decide (r.(held_blockers) = []))
          && negb (bool_decide (r.(rstate) ∈ [HELD; CANCELLED]))) in
  raise? RecordCorrupt
    when (existsb (λ a, negb (bool_decide (a.(phase) = RETURNED))
                        || negb (is_some a.(charge_released_at))) (removelast r.(attempts))) in
  raise? RecordCorrupt when (existsb attempt_contradiction r.(attempts)) in
  raise? RecordCorrupt
    when (negb (bool_decide (phase <$> current_attempt r ∈ expected_phase r.(rstate)))) in
  raise? RecordCorrupt
    when (bool_decide (r.(rstate) ∈ [HELD; CANCELLED])
          && match current_attempt r with
             | Some a => negb (is_some a.(charge_released_at))
             | None => false
             end) in
  raise? RecordCorrupt when (bool_decide (r.(rstate) = CANCELLED) && negb completed) in
  raise? RecordCorrupt when (negb (bool_decide (r.(rstate) = CANCELLED)) && completed) in
  Ok tt.

Definition RECORD_KEYS : list string :=
  ["schema"; "broker_job_id"; "revision"; "state"; "created_at"; "updated_at"; "intent";
   "intent_digest"; "payload"; "attempts"; "cancellation"].

Definition ATTEMPTS_MAX : nat := 1000.
#[global] Arguments ATTEMPTS_MAX : simpl never.

Definition parse_cancellation (j : json) : res broker_error (option BrokerCancellation) :=
  match j with
  | JNull => Ok None
  | _ =>
    let? c := exact_keys j ["requested_at"; "reason"; "completed_at"] in
    let? requested_at := parse_time (jget c "requested_at") in
    let? reason := parse_str (jget c "reason") in
    let? completed_at := parse_opt_time (jget c "completed_at") in
    Ok (Some {| requested_at := requested_at; reason := reason; completed_at := completed_at |})
  end.

(** Held blockers map non-empty hosts to non-empty reasons. *)
Definition parse_blocker (kv : string * json) : res broker_error (string * string) :=
  raise? RecordCorrupt when (String.eqb kv.1 "") in
  let? why := parse_str kv.2 in Ok (kv.1, why).

(** [_parse_attempt(item, index + 1, job_id)] over [enumerate(attempts_raw)] *)
Fixpoint parse_attempts (l : list json) (n : Z) (job_id : string)
    : res broker_error (list BrokerAttempt) :=
  match l with
  | [] => Ok []
  | item :: l' =>
    let? a := parse_attempt item n job_id in
    let? rest := parse_attempts l' (n + 1) job_id in
    Ok (a :: rest)
  end.

Section with_hashing.
Context {H : Hashing}.

Definition parse_record (data : json) : res broker_error BrokerRecord :=
  let has_blockers := match data with
                      | JObj kvs => mem_str "held_blockers" (map fst kvs)
                      | _ => false
                      end in
  let keys := if has_blockers then RECORD_KEYS ++ ["held_blockers"] else RECORD_KEYS in
  let? raw := exact_keys data keys in
  let? held := (if has_blockers
                then let? kvs := as_dict (jget raw "held_blockers") in
                     mapM_res parse_blocker (dict_of kvs)
                else Ok []) in
  raise? RecordCorrupt when (negb (bool_decide (jget raw "schema" = JStr RECORD_SCHEMA))) in
  let? job_id := (match jget raw "broker_job_id" with
                  | JStr s => raise? RecordCorrupt when (negb (BROKER_JOB_ID_PATTERN s)) in Ok s
                  | _ => Err RecordCorrupt
                  end) in
  let? state := parse_state (jget raw "state") STATES in
  let? intent := intent_from_json (jget raw "intent") in
  raise? RecordCorrupt
    when (negb (bool_decide (jget raw "intent_digest" = JStr (intent_digest intent)))) in
  let? payload := exact_keys (jget raw "payload") ["sha256"; "size"] in
  let? sha := (match jget payload "sha256" with
               | JStr s => raise? RecordCorrupt when (negb (is_sha256_hex s)) in Ok s
               | _ => Err RecordCorrupt
               end) in
  let? size := (match jget payload "size" with
                | JInt z => raise? RecordCorrupt when (z <? 0) in Ok z
                | _ => Err RecordCorrupt
                end) in
  let? attempts_raw := as_list (jget raw "attempts") in
  raise? RecordCorrupt when (Nat.ltb ATTEMPTS_MAX (length attempts_raw)) in
  let? cancellation := parse_cancellation (jget raw "cancellation") in
  let? revision := parse_positive_int (jget raw "revision") in
  let? created_at := parse_time (jget raw "created_at") in
  let? updated_at := parse_time (jget raw "updated_at") in
  let? attempts := parse_attempts attempts_raw 1 job_id in
  let record := {| broker_job_id := job_id; revision := revision; rstate := state;
                   created_at := created_at; updated_at := updated_at; intent := intent;
                   payload_sha256 := sha; payload_size := size; attempts := attempts;
                   cancellation := cancellation; held_blockers := sort_by pair_leb held |} in
  let? _ := check_consistency record in
  Ok record.

Definition FINGERPRINT_SCHEMA : string := "vq.broker-transfer.v1".

(** Identity of one keyed submission: authority, key, intent and payload. *)
Definition transfer_fingerprint (r : BrokerRecord) (a : BrokerAttempt) : string :=
  json_digest (JObj ([
    ("schema", JStr FINGERPRINT_SCHEMA);
    ("target_host", JStr a.(target_host));
    ("target_state_root", JStr a.(target_state_root));
    ("idempotency_key", JStr a.(idempotency_key));
    ("intent_digest", JStr (intent_digest r.(intent)));
    ("payload_sha256", JStr r.(payload_sha256))
  ] ++ match assoc "authority" a.(snapshot) with
       | Some v => [("authority", v)] | None => [] end
    ++ match assoc "runtime_pins" a.(snapshot) with
       | Some v => [("runtime_pins", v)] | None => [] end)).
End with_hashing.

(** ** Well-formed records

    What [parse_record] guarantees of a record beyond its types, and what
    every store transition keeps true. *)

Definition time_wf (f : pyfloat) : bool := isfinite f && negb (fltb f fzero).
Definition opt_wf {A} (p : A → bool) (o : option A) : bool :=
  match o with Some x => p x | None => true end.
Definition nonempty (s : string) : bool := negb (String.eqb s "").

Definition charge_wf (c : BrokerCharge) : bool :=
  (0 <? c.(c_cpus)) && (0 <? c.(c_mem_mb)) && (0 <? c.(c_job_slots)).

Definition attempt_wf (n : Z) (job_id : string) (a : BrokerAttempt) : bool :=
  (a.(number) =? n) && bool_decide (a.(phase) ∈ ATTEMPT_PHASES)
  && String.eqb a.(idempotency_key) job_id && nonempty a.(target_host)
  && nonempty a.(target_state_root) && nonempty a.(reservation_id) && charge_wf a.(charge)
  && time_wf a.(decided_at) && opt_wf time_wf a.(transfer_started_at)
  && opt_wf time_wf a.(accepted_at) && opt_wf time_wf a.(returned_at)
  && opt_wf time_wf a.(charge_released_at) && opt_wf nonempty a.(return_reason)
  && opt_wf (λ s, is_ok (validate_job_id s)) a.(target_job_id)
  && opt_wf is_sha256_hex a.(request_fingerprint).

Fixpoint attempts_wf (n : Z) (job_id : string) (l : list BrokerAttempt) : bool :=
  match l with
  | [] => true
  | a :: l' => attempt_wf n job_id a && attempts_wf (n + 1) job_id l'
  end.

Definition cancellation_wf (c : BrokerCancellation) : bool :=
  time_wf c.(requested_at) && nonempty c.(reason) && opt_wf time_wf c.(completed_at).

Definition blockers_nonempty (bs : list (string * string)) : bool :=
  forallb (λ kv, nonempty kv.1 && nonempty kv.2) bs.

Definition held_blockers_wf (bs : list (string * string)) : bool :=
  blockers_nonempty bs && bool_decide (NoDup (map fst bs)) && bool_decide (sort_by pair_leb bs = bs).

(** Everything but the held blockers and the consistency of state and attempts. *)
Definition record_core_wf (r : BrokerRecord) : bool :=
  BROKER_JOB_ID_PATTERN r.(broker_job_id) && (0 <? r.(revision))
  && time_wf r.(created_at) && time_wf r.(updated_at) && intent_valid r.(intent)
  && is_sha256_hex r.(payload_sha256) && (0 <=? r.(payload_size))
  && Nat.leb (length r.(attempts)) ATTEMPTS_MAX && attempts_wf 1 r.(broker_job_id) r.(attempts)
  && opt_wf cancellation_wf r.(cancellation).

Definition record_fields_wf (r : BrokerRecord) : bool :=
  record_core_wf r && held_blockers_wf r.(held_blockers).

(** The record a reader sees: its held blockers went through a dictionary. *)
Definition normalise (r : BrokerRecord) : BrokerRecord :=
  {| broker_job_id := r.(broker_job_id); revision := r.(revision); rstate := r.(rstate);
     created_at := r.(created_at); updated_at := r.(updated_at); intent := r.(intent);
     payload_sha256 := r.(payload_sha256); payload_size := r.(payload_size);
     attempts := r.(attempts); cancellation := r.(cancellation);
     held_blockers := sort_by pair_leb (dict_of r.(held_blockers)) |}.

Definition record_wf (r : BrokerRecord) : bool :=
  record_fields_wf r && is_ok (check_consistency r).

(** ** Round trip *)

Lemma assoc_set_fst {A} k (v : A) l :
  map fst (assoc_set k v l) = if bool_decide (k ∈ map fst l) then map fst l else map fst l ++ [k].
Proof.
  induction l as [|[k' v'] l IH]; simpl; [done|].
  destruct (String.eqb_spec k k') as [->|Hne]; simpl.
  - rewrite bool_decide_eq_true_2 by set_solver. done.
  - rewrite IH. repeat case_bool_decide; set_solver.
Qed.

Lemma assoc_set_fresh {A} k (v : A) l : k ∉ map fst l → assoc_set k v l = l ++ [(k, v)].
Proof.
  induction l as [|[k' v'] l IH]; simpl; [done|]. intros Hk.
  destruct (String.eqb_spec k k') as [->|Hne]; [set_solver|]. rewrite IH; set_solver.
Qed.

Lemma dict_fold_NoDup {A} (l acc : list (string * A)) :
  NoDup (map fst acc) → NoDup (map fst (foldl (λ d kv, assoc_set kv.1 kv.2 d) acc l)).
Proof.
  revert acc. induction l as [|[k v] l IH]; simpl; intros acc Hacc; [done|].
  apply IH. rewrite assoc_set_fst. case_bool_decide; [done|].
  apply NoDup_app. split_and!; [done|set_solver|apply NoDup_singleton].
Qed.

Lemma dict_of_NoDup {A} (l : list (string * A)) : NoDup (map fst (dict_of l)).
Proof. apply dict_fold_NoDup. constructor. Qed.

Lemma dict_fold_id {A} (l acc : list (string * A)) :
  NoDup (map fst (acc ++ l)) → foldl (λ d kv, assoc_set kv.1 kv.2 d) acc l = acc ++ l.
Proof.
  revert acc. induction l as [|[k v] l IH]; simpl; intros acc Hnd; [by rewrite app_nil_r|].
  rewrite assoc_set_fresh; simpl.
  - rewrite IH; rewrite <-app_assoc; done.
  - rewrite map_app in Hnd. apply NoDup_app in Hnd as (_ & Hd & _). simpl in Hd. set_solver.
Qed.

Lemma dict_of_id {A} (l : list (string * A)) : NoDup (map fst l) → dict_of l = l.
Proof. intros. unfold dict_of. by rewrite dict_fold_id. Qed.

Lemma dict_of_nil {A} (l : list (string * A)) : dict_of l = [] → l = [].
Proof.
  destruct l as [|[k v] l]; [done|]. unfold dict_of. simpl.
  enough (∀ acc, acc ≠ [] → foldl (λ d kv, assoc_set kv.1 kv.2 d) acc l ≠ []) as Hn
    by (intros He; exfalso; by apply (Hn [(k, v)])).
  clear. induction l as [|[k' v'] l IH]; simpl; [done|]. intros acc Hacc. apply IH.
  destruct acc as [|[k'' v''] acc]; simpl; [done|]. by destruct (String.eqb k' k'').
Qed.

Lemma as_str_list_roundtrip l : as_str_list (JList (map JStr l)) = Ok l.
Proof. simpl. induction l as [|s l IH]; simpl; [done|]. by rewrite IH. Qed.

Lemma as_num_jnum n : as_num (jnum n) = Ok n.
Proof. by destruct n. Qed.

Lemma as_opt_int_jopt o : as_opt_int (jopt JInt o) = Ok o.
Proof. by destruct o. Qed.

Lemma as_opt_str_jopt o : as_opt_str (jopt JStr o) = Ok o.
Proof. by destruct o. Qed.

Lemma parse_time_wf f : time_wf f = true → parse_time (JFloat f) = Ok f.
Proof.
  unfold time_wf, parse_time, finite_time; simpl.
  destruct (isfinite f); simpl; [|done]. by destruct (fltb f fzero).
Qed.

Lemma parse_opt_time_wf o : opt_wf time_wf o = true → parse_opt_time (jopt JFloat o) = Ok o.
Proof. destruct o as [f|]; [|done]. intros Hf. simpl. by rewrite parse_time_wf. Qed.

Lemma parse_str_wf s : nonempty s = true → parse_str (JStr s) = Ok s.
Proof. unfold nonempty, parse_str. by destruct (String.eqb s ""). Qed.

Lemma parse_opt_str_wf o : opt_wf nonempty o = true → parse_opt_str (jopt JStr o) = Ok o.
Proof. destruct o as [s|]; [|done]. intros Hs. unfold parse_opt_str, jopt. by rewrite parse_str_wf. Qed.

Lemma parse_positive_int_wf z : (0 <? z) = true → parse_positive_int (JInt z) = Ok z.
Proof. intros Hz. propify. simpl. destruct (Z.leb_spec z 0); [lia|done]. Qed.

Lemma parse_state_text s l : s ∈ l → parse_state (JStr (state_text s)) l = Ok s.
Proof.
  intros Hs. unfold parse_state, json_unhashable.
  assert (state_of_text (state_text s) = Some s) as -> by (by destruct s).
  by rewrite bool_decide_eq_true_2.
Qed.

Lemma parse_target_job_id_wf o :
  opt_wf (λ s, is_ok (validate_job_id s)) o = true → parse_target_job_id (jopt JStr o) = Ok o.
Proof.
  destruct o as [s|]; [|done]. simpl. unfold validate_job_id. by case_match.
Qed.

Lemma parse_fingerprint_wf o :
  opt_wf is_sha256_hex o = true → parse_fingerprint (jopt JStr o) = Ok o.
Proof. destruct o as [s|]; [|done]. simpl. by intros ->. Qed.

#[export] Hint Rewrite as_str_list_roundtrip as_num_jnum as_opt_int_jopt as_opt_str_jopt : vq_json.

Lemma intent_roundtrip i : intent_valid i = true → intent_from_json (intent_to_json i) = Ok i.
Proof.
  intros Hv. unfold intent_from_json, intent_to_json.
  destruct i as [cmd cpus mem wall prio ar retry jn prog sha tags clean rr rm pool rt].
  destruct rt as [[lo hi]|]; cbn -[as_str_list as_opt_int as_opt_str as_num intent_valid];
    autorewrite with vq_json; by rewrite Hv.
Qed.

Lemma attempt_roundtrip n job_id a :
  attempt_wf n job_id a = true → parse_attempt (attempt_to_json a) n job_id = Ok a.
Proof.
  intros Hw. unfold attempt_wf, charge_wf in Hw.
  destruct a as [num ph th tr ri [cc cm cj] da sn rk bl ik fp ts tj ac ra rr cr dg].
  simpl in Hw. rewrite !andb_true_iff in Hw.
  destruct Hw as ((((((((((((((Hn & Hph) & Hk) & Hth) & Htr) & Hri) & ((Hcc & Hcm) & Hcj)) & Hda)
    & Hts) & Hac) & Hra) & Hcr) & Hrr) & Htj) & Hfp).
  apply Z.eqb_eq in Hn as ->. apply String.eqb_eq in Hk as ->.
  apply bool_decide_eq_true_1 in Hph.
  unfold parse_attempt, attempt_to_json.
  cbn -[as_str_list parse_state parse_time parse_opt_time parse_opt_str parse_str
        parse_positive_int parse_target_job_id parse_fingerprint bool_decide].
  rewrite Z.eqb_refl, bool_decide_eq_true_2 by done. cbn [negb].
  rewrite parse_state_text, as_str_list_roundtrip by done.
  rewrite parse_target_job_id_wf, parse_fingerprint_wf by done.
  rewrite !parse_str_wf, !parse_positive_int_wf, parse_time_wf by done.
  rewrite !parse_opt_time_wf, parse_opt_str_wf by done.
  done.
Qed.

Lemma attempts_roundtrip n job_id l :
  attempts_wf n job_id l = true → parse_attempts (map attempt_to_json l) n job_id = Ok l.
Proof.
  revert n. induction l as [|a l IH]; intros n; simpl; [done|].
  intros [Ha Hl]%andb_true_iff. by rewrite attempt_roundtrip, IH.
Qed.

Lemma cancellation_roundtrip o :
  opt_wf cancellation_wf o = true → parse_cancellation (jopt cancellation_to_json o) = Ok o.
Proof.
  destruct o as [[ra rs co]|]; [|done]. unfold cancellation_wf. simpl.
  intros Hw. propify.
  unfold parse_cancellation. cbn -[parse_time parse_opt_time parse_str].
  rewrite parse_time_wf, parse_opt_time_wf by done. unfold nonempty in *.
  by destruct (String.eqb rs "").
Qed.

Lemma blockers_roundtrip (bs : list (string * string)) :
  blockers_nonempty bs = true →
  mapM_res parse_blocker (map (λ kv, (kv.1, JStr kv.2)) bs) = Ok bs.
Proof.
  induction bs as [|[h why] bs IH]; simpl; [done|]. intros [[Hh Hw]%andb_true_iff Hbs]%andb_true_iff.
  unfold parse_blocker at 1. simpl fst. simpl snd.
  rewrite IH, parse_str_wf by done. unfold nonempty in Hh. by destruct (String.eqb h "").
Qed.

Section with_hashing.
Context {H : Hashing}.

(** What [_publish] writes, [get] reads back. *)
Lemma record_roundtrip_normal r :
  record_core_wf r = true → blockers_nonempty (dict_of r.(held_blockers)) = true →
  is_ok (check_consistency (normalise r)) = true →
  parse_record (record_to_json r) = Ok (normalise r).
Proof.
  destruct r as [bid rev st ca ua it sha sz atts cn bs].
  unfold record_core_wf, normalise. simpl.
  rewrite !andb_true_iff. intros Hf Hbs Hc.
  destruct Hf as (((((((((Hid & Hrev) & Hca) & Hua) & Hit) & Hsha) & Hsz) & Hlen) & Hatt) & Hcn).
  apply Nat.leb_le in Hlen.
  assert (Hl : Nat.ltb ATTEMPTS_MAX (length (map attempt_to_json atts)) = false).
  { apply Nat.ltb_ge. by rewrite length_map. }
  assert (Hz : (sz <? 0) = false) by (propify; apply Z.ltb_ge; lia).
  assert (Hst : parse_state (JStr (state_text st)) STATES = Ok st).
  { apply parse_state_text. by destruct st; cbv; repeat constructor. }
  assert (Hdict : dict_of (map (λ kv : string * string, (kv.1, JStr kv.2)) (dict_of bs)) =
                  map (λ kv, (kv.1, JStr kv.2)) (dict_of bs)).
  { apply dict_of_id. rewrite map_map. apply (dict_of_NoDup bs). }
  unfold parse_record, record_to_json. simpl held_blockers.
  destruct bs as [|b bs'] eqn:Ebs; [|rewrite <-Ebs in *];
    cbn -[parse_state intent_from_json intent_to_json intent_digest parse_time parse_positive_int
          parse_attempts parse_cancellation check_consistency Nat.ltb BROKER_JOB_ID_PATTERN
          bool_decide is_sha256_hex dict_of Z.ltb sort_by];
    rewrite bool_decide_eq_true_2 by done; cbn [negb];
    rewrite ?Hdict, ?blockers_roundtrip by done;
    rewrite Hid; cbn [negb]; rewrite Hst, intent_roundtrip by done;
    rewrite bool_decide_eq_true_2 by done; cbn [negb];
    rewrite Hsha; cbn [negb]; rewrite Hz, Hl, cancellation_roundtrip by done;
    rewrite parse_positive_int_wf, !parse_time_wf, attempts_roundtrip by done;
    destruct (check_consistency _) as [[]|] eqn:E; done.
Qed.

Lemma held_blockers_wf_normal bs :
  held_blockers_wf bs = true →
  dict_of bs = bs ∧ sort_by pair_leb bs = bs ∧ blockers_nonempty bs = true.
Proof.
  unfold held_blockers_wf. rewrite !andb_true_iff. intros ((Hbs & Hnd) & Hsort).
  apply bool_decide_eq_true_1 in Hnd, Hsort. eauto using dict_of_id.
Qed.

Lemma normalise_wf r : held_blockers_wf r.(held_blockers) = true → normalise r = r.
Proof.
  intros (Hd & Hs & _)%held_blockers_wf_normal. destruct r. unfold normalise. simpl in *.
  by rewrite Hd, Hs.
Qed.

Lemma record_wf_roundtrip r : record_wf r = true → parse_record (record_to_json r) = Ok r.
Proof.
  unfold record_wf, record_fields_wf. rewrite !andb_true_iff. intros ((Hcore & Hb) & Hc).
  pose proof (normalise_wf r Hb) as Hn.
  rewrite record_roundtrip_normal; rewrite ?Hn; try done.
  by destruct (held_blockers_wf_normal _ Hb) as (-> & _ & ->).
Qed.
End with_hashing.

(** ** What a parsed record is known to satisfy *)

Lemma parse_time_ok j f : parse_time j = Ok f → time_wf f = true.
Proof.
  unfold parse_time, finite_time, time_wf. destruct (as_num j) as [n|]; [|done].
  destruct (isfinite (num_float n)) eqn:Hf, (fltb (num_float n) fzero) eqn:Hz; simpl; try done.
  intros [= <-]. by rewrite Hf, Hz.
Qed.

Lemma parse_opt_time_ok j o : parse_opt_time j = Ok o → opt_wf time_wf o = true.
Proof.
  unfold parse_opt_time. destruct j; [by intros [= <-]|..];
    (destruct (parse_time _) eqn:E; [intros [= <-]; eauto using parse_time_ok|done]).
Qed.

Lemma parse_str_ok j s : parse_str j = Ok s → nonempty s = true.
Proof.
  unfold parse_str, nonempty. destruct j as [| | | |t| |]; try done.
  destruct (String.eqb t "") eqn:E; [done|]. intros [= <-]. by rewrite E.
Qed.

Lemma parse_opt_str_ok j o : parse_opt_str j = Ok o → opt_wf nonempty o = true.
Proof.
  unfold parse_opt_str. destruct j; [by intros [= <-]|..];
    (destruct (parse_str _) eqn:E; [intros [= <-]; eauto using parse_str_ok|done]).
Qed.

Lemma parse_positive_int_ok j z : parse_positive_int j = Ok z → (0 <? z) = true.
Proof.
  unfold parse_positive_int. destruct j as [| |n| | | |]; try done.
  destruct (Z.leb_spec n 0); [done|]. intros [= <-]. by apply Z.ltb_lt.
Qed.

Lemma parse_state_ok j l s : parse_state j l = Ok s → s ∈ l.
Proof.
  unfold parse_state. destruct j as [| | | |t| |]; try done. simpl.
  destruct (state_of_text t) as [st|]; [|done].
  case_bool_decide; [by intros [= <-]|done].
Qed.

Lemma parse_target_job_id_ok j o :
  parse_target_job_id j = Ok o → opt_wf (λ s, is_ok (validate_job_id s)) o = true.
Proof.
  unfold parse_target_job_id. destruct j as [| | | |t| |]; try done; [by intros [= <-]|].
  destruct (validate_job_id t) as [v|] eqn:E; [|done]. intros [= <-]. simpl.
  assert (v = t) as -> by (unfold validate_job_id in E; crush). by rewrite E.
Qed.

Lemma parse_fingerprint_ok j o : parse_fingerprint j = Ok o → opt_wf is_sha256_hex o = true.
Proof.
  unfold parse_fingerprint. destruct j as [| | | |t| |]; try done; [by intros [= <-]|].
  destruct (is_sha256_hex t) eqn:E; [|done]. by intros [= <-].
Qed.

(** Split the binds of a parser that returned. *)
Ltac unbind :=
  repeat match goal with
  | Hm : match ?m with Ok _ => _ | Err _ => _ end = Ok _ |- _ => destruct m eqn:?; [|discriminate Hm]
  | Hm : (if ?b then Err _ else _) = Ok _ |- _ => destruct b eqn:?; [discriminate Hm|]
  end.

Lemma parse_attempt_ok j n job_id a : parse_attempt j n job_id = Ok a → attempt_wf n job_id a = true.
Proof.
  unfold parse_attempt. intros Hp. unbind. injection Hp as <-.
  unfold attempt_wf, charge_wf. simpl. rewrite !andb_true_iff. split_and!;
    eauto using parse_time_ok, parse_opt_time_ok, parse_str_ok, parse_opt_str_ok,
      parse_positive_int_ok, parse_target_job_id_ok, parse_fingerprint_ok.
  - apply Z.eqb_refl.
  - apply bool_decide_eq_true_2. eauto using parse_state_ok.
  - apply String.eqb_refl.
Qed.

Lemma parse_attempts_ok l n job_id atts :
  parse_attempts l n job_id = Ok atts →
  attempts_wf n job_id atts = true ∧ length atts = length l.
Proof.
  revert n atts. induction l as [|j l IH]; intros n atts; simpl; [by intros [= <-]|].
  intros Hp. unbind. injection Hp as <-. simpl.
  destruct (IH _ _ Heqr0) as [-> ->]. by erewrite parse_attempt_ok.
Qed.

Lemma parse_cancellation_ok j o : parse_cancellation j = Ok o → opt_wf cancellation_wf o = true.
Proof.
  destruct j; [by intros [= <-]|..]; unfold parse_cancellation; intros Hp; unbind;
    injection Hp as <-; simpl; unfold cancellation_wf; simpl;
    rewrite !andb_true_iff; split_and!;
    eauto using parse_time_ok, parse_opt_time_ok, parse_str_ok.
Qed.

Lemma intent_from_json_ok j i : intent_from_json j = Ok i → intent_valid i = true.
Proof. unfold intent_from_json. intros Hp. unbind. injection Hp as <-. by propify. Qed.

Lemma parse_blockers_ok kvs bs :
  mapM_res parse_blocker kvs = Ok bs →
  blockers_nonempty bs = true ∧ map fst bs = map fst kvs.
Proof.
  revert bs. induction kvs as [|[k v] kvs IH]; intros bs; simpl; [by intros [= <-]|].
  unfold parse_blocker at 1. simpl. intros Hp. unbind. injection Hp as <-.
  injection Heqr as <-. cbn [map fst].
  change (blockers_nonempty ((k, a1) :: a0)) with (nonempty k && nonempty a1 && blockers_nonempty a0).
  destruct (IH _ eq_refl) as [-> ->].
  match goal with Hs : parse_str _ = Ok _ |- _ => rewrite (parse_str_ok _ _ Hs) end.
  unfold nonempty. by rewrite Heqb.
Qed.

Lemma sort_by_idem {A} (leb : A → A → bool) `{!TotalLeb leb} (l : list A) :
  (∀ a b, leb a b = true → leb b a = true → a = b) →
  sort_by leb (sort_by leb l) = sort_by leb l.
Proof. intros Ha. apply sort_by_perm_eq; [done|done|]. apply sort_by_perm. Qed.

Lemma held_blockers_sorted_wf kvs bs :
  mapM_res parse_blocker (dict_of kvs) = Ok bs → held_blockers_wf (sort_by pair_leb bs) = true.
Proof.
  intros [Hne Hk]%parse_blockers_ok. unfold held_blockers_wf. rewrite !andb_true_iff. split_and!.
  - unfold blockers_nonempty in *. apply forallb_forall. intros kv Hkv.
    rewrite forallb_forall in Hne. apply Hne.
    apply list_elem_of_In. apply list_elem_of_In in Hkv. by apply elem_of_sort_by in Hkv.
  - apply bool_decide_eq_true_2. rewrite sort_by_perm, Hk. apply dict_of_NoDup.
  - apply bool_decide_eq_true_2. apply sort_by_idem; [apply _|apply pair_leb_antisym].
Qed.

Section with_hashing.
Context {H : Hashing}.

Lemma parse_record_ok j r : parse_record j = Ok r → record_wf r = true.
Proof.
  unfold parse_record. intros Hp. unbind. injection Hp as <-.
  match goal with Hc : check_consistency _ = Ok _ |- _ => rename Hc into Hcons end.
  unfold record_wf. rewrite Hcons. unfold record_fields_wf, record_core_wf. simpl. rewrite !andb_true_iff.
  match goal with Ha : parse_attempts _ _ _ = Ok _ |- _ =>
    destruct (parse_attempts_ok _ _ _ _ Ha) as [Hatt Hlen] end.
  split_and!; eauto using parse_time_ok, parse_positive_int_ok, intent_from_json_ok,
    parse_cancellation_ok.
  - destruct (jget _ "broker_job_id"); try done. unbind. by simplify_eq; propify.
  - destruct (jget _ "sha256"); try done. unbind. by simplify_eq; propify.
  - destruct (jget _ "size"); try done. unbind. simplify_eq; propify. by apply Z.leb_le.
  - rewrite Hlen. apply Nat.leb_le. by apply Nat.ltb_ge.
  - match goal with Hh : (if ?b then _ else Ok []) = Ok _ |- _ => destruct b; unbind end;
      [eauto using held_blockers_sorted_wf|by simplify_eq].
Qed.
End with_hashing.

Lemma sort_by_nil {A} (leb : A → A → bool) (l : list A) : sort_by leb l = [] ↔ l = [].
Proof.
  split; [|by intros ->]. intros Hs. apply Permutation_nil_r.
  by rewrite <-(sort_by_perm leb l), Hs.
Qed.

(** Consistency looks at the held blockers only for emptiness. *)
Lemma check_consistency_normalise r : check_consistency (normalise r) = check_consistency r.
Proof.
  unfold check_consistency, current_attempt. simpl.
  assert (bool_decide (sort_by pair_leb (dict_of (held_blockers r)) = []) =
          bool_decide (held_blockers r = [])) as ->; [|done].
  apply bool_decide_ext. rewrite sort_by_nil. split; [apply dict_of_nil|by intros ->].
Qed.
