(* ===== verification/StartFence.v ===== *)
(** * The start fence: [src/vq/scheduler_start_fence.py]

    A submission whose outcome is unknown cannot be proven absent, but it can
    be made unable to start: every attempt carries a token, and the job's
    first action is an exclusive hard link on the claim file of its token; an
    operator's fence is the same link with another line.  This file models
    the daemon's records of tokens and fences, the two shell scripts that race
    for the claim, and the reading of the reply. *)

From S2P Require Import Prelude Spec Json BrokerRecord.

(** ** Names and records *)

(** [ValueError], [KeyError], [OSError]: the daemon catches all three. *)
Inductive fence_error : Type := FenceError.

Definition TOKEN_RE (token : string) : bool := fullmatch_class is_lower_hex 32 32 token.
Definition TOKEN_SCHEMA : string := "vq.scheduler-start-token/1".
Definition FENCE_SCHEMA : string := "vq.scheduler-start-fence/1".
Definition RESULT_SCHEMA : string := "vq.scheduler-start-fence-result/1".
Definition FENCED_STATE : string := "submit_fenced_unstarted".
Definition FENCED_AFTER_TERMINAL_STATE : string := "submit_fenced_after_terminal".
Definition FENCED_REASON : string :=
  "scheduler attempt fenced before start by operator: the command never ran under this attempt (not a scheduler rejection, not proven non-admission)".

Definition claim_name (token : string) : res fence_error string :=
  raise? FenceError when negb (TOKEN_RE token) in
  Ok ("attempt-" +:+ token +:+ ".claim").

(** The daemon-owned directory of records, by file name; [None] is a record
    [_read] refuses. *)
Abbreviation fence_dir := (gmap string (option (list (string * json)))).
Abbreviation fop := (eff fence_dir fence_error).

(** [_private_path]: [uid] is the daemon's own in single-user mode. *)
Definition private_path (uid job_id : string) (retry_count : Z) (kind : string) : res fence_error string :=
  raise? FenceError when (retry_count <? 0) in
  match validate_job_id job_id with
  | Err _ => Err FenceError
  | Ok job_id => Ok (uid +:+ "." +:+ job_id +:+ "." +:+ pretty retry_count +:+ "." +:+ kind +:+ ".json")
  end.

(** [_read] *)
Definition read_record (path : string) : fop (option (list (string * json))) := λ d,
  match d !! path with
  | None => (Ok None, d)
  | Some None => (Err FenceError, d)
  | Some (Some v) => (Ok (Some v), d)
  end.

(** What happens around the link of [_create]: another process may publish
    first, and the write or the link may fail. *)
Record create_env : Type := MkCreateEnv {
  ce_other : option (option (list (string * json)));
  ce_fails : bool;
}.

(** [_create]: an existing record wins and is returned. *)
Definition create_record (ev : create_env) (path : string) (value : list (string * json))
    : fop (list (string * json)) :=
  do? existing := read_record path in
  match existing with
  | Some v => ret v
  | None =>
    do? _ := (λ d, (Ok tt, match ev.(ce_other) with Some o => <[path := o]> d | None => d end)) in
    if ev.(ce_fails) then throw FenceError
    else
      do? _ := (λ d, (Ok tt, match d !! path with Some _ => d | None => <[path := Some value]> d end)) in
      do? published := read_record path in
      match published with Some v => ret v | None => throw FenceError end
  end.

(** ** The token of an attempt *)

Definition token_record (job_id : string) (retry_count : Z) (workspace token issued_at : string)
    : list (string * json) :=
  [("schema", JStr TOKEN_SCHEMA); ("job_id", JStr job_id); ("retry_count", JInt retry_count);
   ("remote_workspace", JStr workspace); ("token", JStr token); ("issued_at", JStr issued_at)].

(** The tests [issue_token] and [plan] share: the token, if the record is one
    of this attempt. *)
Definition token_of (record : list (string * json)) (job_id retry_count workspace : json)
    : res fence_error string :=
  match jget record "token" with
  | JStr token =>
    if negb (json_eqb (jget record "schema") (JStr TOKEN_SCHEMA))
       || negb (json_eqb (jget record "job_id") job_id)
       || negb (json_eqb (jget record "retry_count") retry_count)
       || negb (json_eqb (jget record "remote_workspace") workspace)
       || negb (TOKEN_RE token)
    then Err FenceError else Ok token
  | _ => Err FenceError
  end.

(** [issue_token]; [fresh] is the draw of [new_token]. *)
Definition issue_token (ev : create_env) (uid job_id : string) (retry_count : Z)
    (workspace fresh issued_at : string) : fop string :=
  do? path := lift (private_path uid job_id retry_count "token") in
  do? record := create_record ev path (token_record job_id retry_count workspace fresh issued_at) in
  lift (token_of record (JStr job_id) (JInt retry_count) (JStr workspace)).

(** ** Planning and recording a fence *)

(** What [plan] adds to the binding. *)
Record FencePlan : Type := MkFencePlan {
  fp_binding : json;
  fp_token : string;
  fp_claim : string;
  fp_claim_line : string;
}.

Section plans.
Context {H : Hashing}.

Definition plan_json (p : FencePlan) : json :=
  JObj [("schema", JStr FENCE_SCHEMA); ("decision", JStr "fence-unstarted"); ("binding", p.(fp_binding));
        ("token", JStr p.(fp_token)); ("claim", JStr p.(fp_claim)); ("claim_line", JStr p.(fp_claim_line))].

Definition plan_digest (p : FencePlan) : string := json_digest (plan_json p).

Definition fence_id (binding : json) (token : string) : string :=
  str_take 32 (json_digest (JObj [("binding", binding); ("token", JStr token)])).

(** [plan]; [original["intent"]] and its fields must be there. *)
Definition plan (original : json) (record : option (list (string * json))) : res fence_error FencePlan :=
  match original with
  | JObj o =>
    match assoc "intent" o, record with
    | Some (JObj intent), Some record =>
      match assoc "id" intent, assoc "retry_count" intent, assoc "scheduler_remote_workspace" intent with
      | Some job_id, Some retry_count, Some workspace =>
        let? token := token_of record job_id retry_count workspace in
        let? claim := claim_name token in
        Ok {| fp_binding := original; fp_token := token; fp_claim := claim;
              fp_claim_line := "fenced " +:+ token +:+ " " +:+ fence_id original token |}
      | _, _, _ => Err FenceError
      end
    | _, _ => Err FenceError
    end
  | _ => Err FenceError
  end.

(** [persist_intent]: the plan with who asked for it, published once. *)
Definition persist_intent (ev : create_env) (uid job_id : string) (retry_count : Z) (p : FencePlan)
    (requested_at : string) (operator_uid : option Z) : fop (list (string * json)) :=
  do? path := lift (private_path uid job_id retry_count "fence") in
  let fields := match plan_json p with JObj kvs => kvs | _ => [] end in
  do? record := create_record ev path
    (fields ++ [("plan_digest", JStr (plan_digest p)); ("requested_at", JStr requested_at);
                ("operator_uid", jopt JInt operator_uid); ("operator_auth", JStr "owner-socket")]) in
  if json_eqb (jget record "plan_digest") (JStr (plan_digest p)) then ret record else throw FenceError.

(** What [fence_argv] and [interpret] take from a recorded fence; [None] makes
    them raise. *)
Definition fence_of (intent : list (string * json)) : option FencePlan :=
  match jget intent "token", jget intent "claim_line" with
  | JStr token, JStr line =>
    match claim_name token with
    | Ok claim => Some {| fp_binding := jget intent "binding"; fp_token := token; fp_claim := claim;
                          fp_claim_line := line |}
    | Err _ => None
    end
  | _, _ => None
  end.

(** The part of [_apply_scheduler_start_fence] before the remote command: the
    recorded fence, if it is of the attempt as it is now. *)
Definition recorded_fence (uid job_id : string) (retry_count : Z) (original : res fence_error json)
    : fop (option (list (string * json))) :=
  do? path := lift (private_path uid job_id retry_count "fence") in
  do? intent := read_record path in
  match intent with
  | None => ret None
  | Some intent =>
    do? original := lift original in
    do? path := lift (private_path uid job_id retry_count "token") in
    do? token := read_record path in
    do? current := lift (plan original token) in
    if json_eqb (JStr (plan_digest current)) (jget intent "plan_digest") then ret (Some intent)
    else throw FenceError
  end.
End plans.

(** ** The race for the claim

    [ln] on a shared file system: it links only where nothing is, and may
    report a failure although it linked. *)

Inductive claim_file : Type :=
| NoClaim
| ClaimFile (text : string)
| ClaimOther.

Inductive link_outcome : Type := Linked | LinkedUnreported | LinkFailed.

Definition NL : string := String "010" "".

Definition link (claim : claim_file) (line : string) (o : link_outcome) : bool * claim_file :=
  match claim, o with
  | NoClaim, Linked => (true, ClaimFile (line +:+ NL))
  | NoClaim, LinkedUnreported => (false, ClaimFile (line +:+ NL))
  | c, _ => (false, c)
  end.

(** [FENCE_SCRIPT]: what it prints, and the claim afterwards; [trouble] is the
    reason of an early exit (a bad workspace or marker directory). *)
Definition fence_script (trouble : option string) (o : link_outcome) (line : string) (claim : claim_file)
    : string * claim_file :=
  match trouble with
  | Some why => ("unsafe:" +:+ why +:+ NL, claim)
  | None =>
    let (reported, claim) := link claim line o in
    if reported then ("created" +:+ NL, claim)
    else match claim with
         | ClaimFile text => ("exists:" +:+ str_take 256 text, claim)
         | _ => ("unsafe:" +:+ "claim" +:+ NL, claim)
         end
  end.

(** Trailing newlines removed: [rstrip("\n")], and a shell's [$(...)]. *)
Fixpoint lstrip_nl (s : string) : string :=
  match s with
  | EmptyString => EmptyString
  | String c rest => if Ascii.eqb c "010" then lstrip_nl rest else s
  end.
Definition rstrip_nl (s : string) : string := string_rev (lstrip_nl (string_rev s)).

Definition started_line (token job_id : string) : string := "started " +:+ token +:+ " " +:+ job_id.

(** [job_script_lines]: the job claims its own start or exits without running.
    [superseded]: the staged script carries another token; [unwritable]: the
    temporary file cannot be created. *)
Definition job_start (superseded unwritable : bool) (o : link_outcome) (token job_id : string)
    (claim : claim_file) : bool * claim_file :=
  if superseded || unwritable then (false, claim)
  else
    let (reported, claim) := link claim (started_line token job_id) o in
    if reported then (true, claim)
    else match claim with
         | ClaimFile text => (String.eqb (rstrip_nl (str_take 256 text)) (started_line token job_id), claim)
         | _ => (false, claim)
         end.

(** ** Reading the reply *)

Inductive fence_outcome : Type :=
| Fenced
| JobStarted (scheduler_job_id : string)
| Conflict
| Unsafe.

(** [claim.split(" ")] *)
Fixpoint split_space (acc : string) (s : string) : list string :=
  match s with
  | EmptyString => [acc]
  | String c rest =>
    if Ascii.eqb c " " then acc :: split_space "" rest else split_space (acc +:+ String c "") rest
  end.

Definition removeprefix (p s : string) : string :=
  if startswith s p then String.substring (String.length p) (String.length s - String.length p) s else s.

Definition _MAX_REPLY_BYTES : nat := 4096.

(** [interpret] *)
Definition interpret (p : FencePlan) (stdout : string) : fence_outcome :=
  let text := str_take _MAX_REPLY_BYTES stdout in
  if String.eqb (strip text) "created" then Fenced
  else if startswith text "exists:" then
    let claim := rstrip_nl (removeprefix "exists:" text) in
    if String.eqb claim p.(fp_claim_line) then Fenced
    else match split_space "" claim with
         | [a; b; c] => if String.eqb a "started" && String.eqb b p.(fp_token) then JobStarted c else Conflict
         | _ => Conflict
         end
  else Unsafe.
