(* ===== verification/StartFenceGuarantees.v ===== *)
(** * What the start fence guarantees

    Whatever the order of job starts and fences, a fence that is read as
    placed excludes every run of the attempt, before and after it, and at most
    one admitted job of an attempt runs; the token of an attempt is drawn
    once. *)

From S2P Require Import Prelude Spec Json BrokerRecord StartFence.

(** ** Strings *)

Lemma lstrip_nl_suffix s : ∃ pre, s = pre +:+ lstrip_nl s.
Proof.
  induction s as [|c s [pre IH]]; simpl; [by exists ""|]. destruct (Ascii.eqb c "010"); [|by exists ""].
  exists (String c pre). by rewrite IH at 1.
Qed.

Lemma rstrip_nl_prefix s : ∃ rest, s = rstrip_nl s +:+ rest.
Proof.
  destruct (lstrip_nl_suffix (string_rev s)) as [pre Hp]. exists (string_rev pre). unfold rstrip_nl.
  by rewrite <- string_rev_app, <- Hp, string_rev_involutive.
Qed.

(** A line without a newline loses only the newline that ends it. *)
Lemma lstrip_nl_id s : all_chars (λ c, negb (Ascii.eqb c "010")) s = true → lstrip_nl s = s.
Proof. destruct s as [|c s]; [done|]. simpl. by destruct (Ascii.eqb c "010"). Qed.

Lemma rstrip_nl_line s : all_chars (λ c, negb (Ascii.eqb c "010")) s = true → rstrip_nl (s +:+ NL) = s.
Proof.
  intros Hs. unfold rstrip_nl. rewrite string_rev_app. change (string_rev NL) with NL.
  change (lstrip_nl (NL +:+ string_rev s)) with (lstrip_nl (string_rev s)).
  rewrite lstrip_nl_id by by rewrite all_chars_rev. apply string_rev_involutive.
Qed.

(** ** Histories of a claim *)

(** The fence, a job of the attempt starting, or anything else that creates
    the claim file. *)
Inductive claim_step : Type :=
| DoFence (trouble : option string) (o : link_outcome)
| DoStart (superseded unwritable : bool) (o : link_outcome) (job_id : string)
| DoForeign (content : option string).

Inductive claim_event : Type :=
| FenceReply (o : fence_outcome)
| Ran (job_id : string)
| Refused (job_id : string)
| ForeignWrite.

Definition do_claim (p : FencePlan) (step : claim_step) (c : claim_file) : claim_event * claim_file :=
  match step with
  | DoFence trouble o =>
    let (stdout, c) := fence_script trouble o p.(fp_claim_line) c in (FenceReply (interpret p stdout), c)
  | DoStart superseded unwritable o job_id =>
    let (ran, c) := job_start superseded unwritable o p.(fp_token) job_id c in
    ((if ran : bool then Ran job_id else Refused job_id), c)
  | DoForeign content =>
    (ForeignWrite, match c, content with
                   | NoClaim, Some text => ClaimFile text
                   | NoClaim, None => ClaimOther
                   | c, _ => c
                   end)
  end.

Fixpoint do_claims (p : FencePlan) (steps : list claim_step) (c : claim_file) : list claim_event * claim_file :=
  match steps with
  | [] => ([], c)
  | step :: steps =>
    let (e, c) := do_claim p step c in let (es, c) := do_claims p steps c in (e :: es, c)
  end.

(** Once there, a claim stays as it is. *)
Definition claim_le (c c' : claim_file) : Prop := c = NoClaim ∨ c' = c.

#[export] Instance claim_le_preorder : PreOrder claim_le.
Proof. split; [by right|]. intros c1 c2 c3 [->| ->] [->| ->]; by (left + right). Qed.

Lemma do_claim_le p step c : claim_le c (do_claim p step c).2.
Proof.
  destruct c as [|t|]; [by left|right..]; destruct step as [[]|? ? ?|]; simpl; try done;
    unfold job_start; by destruct (_ || _).
Qed.

(** What an event says of the claim it left. *)
Definition event_says (p : FencePlan) (e : claim_event) (c : claim_file) : Prop :=
  match e with
  | FenceReply Fenced => ∃ t, c = ClaimFile (String "f" t)
  | Ran job_id => ∃ t, c = ClaimFile t
      ∧ (t = started_line p.(fp_token) job_id +:+ NL
         ∨ rstrip_nl (str_take 256 t) = started_line p.(fp_token) job_id)
  | _ => True
  end.

Lemma strip_first c s : is_space c = false → ∃ t, strip (String c s) = String c t.
Proof.
  intros Hc. unfold strip. simpl. rewrite Hc. rewrite string_rev_cons.
  assert (∀ u, ∃ v, lstrip (u +:+ String c "") = v +:+ String c "") as Hl.
  { induction u as [|d u [v IH]]; simpl; [exists ""; by rewrite Hc|]. destruct (is_space d); [by exists v|].
    by exists (String d u). }
  destruct (Hl (string_rev s)) as [v ->]. exists (string_rev v). by rewrite string_rev_app.
Qed.

Lemma str_take_cons n c s : str_take (S n) (String c s) = String c (str_take n s).
Proof. done. Qed.

Lemma removeprefix_app p s : removeprefix p (p +:+ s) = s.
Proof.
  unfold removeprefix. rewrite startswith_app, string_length_app. replace (_ + _ - _)%nat with (String.length s) by lia.
  rewrite substring_app_skip by done.
  pose proof (substring_app_keep s "") as Hk. by rewrite string_app_nil in Hk.
Qed.

Lemma str_take_head n p s :
  str_take (String.length p + n) (p +:+ s) = p +:+ str_take n s.
Proof.
  induction p as [|c p IH]; [done|].
  change (String c (str_take (String.length p + n) (p +:+ s)) = String c (p +:+ str_take n s)). by rewrite IH.
Qed.

Lemma interpret_unsafe p x : interpret p ("unsafe:" +:+ x) = Unsafe.
Proof.
  unfold interpret. change _MAX_REPLY_BYTES with (String.length "unsafe:" + 4089)%nat. rewrite str_take_head.
  change ("unsafe:" +:+ str_take 4089 x) with (String "u" ("nsafe:" +:+ str_take 4089 x)).
  by destruct (strip_first "u" ("nsafe:" +:+ str_take 4089 x)) as [t ->].
Qed.

Lemma interpret_exists p x :
  interpret p ("exists:" +:+ x)
  = let claim := rstrip_nl (str_take 4089 x) in
    if String.eqb claim p.(fp_claim_line) then Fenced
    else match split_space "" claim with
         | [a; b; c] => if String.eqb a "started" && String.eqb b p.(fp_token) then JobStarted c else Conflict
         | _ => Conflict
         end.
Proof.
  unfold interpret. change _MAX_REPLY_BYTES with (String.length "exists:" + 4089)%nat. rewrite str_take_head.
  rewrite removeprefix_app, startswith_app.
  change ("exists:" +:+ str_take 4089 x) with (String "e" ("xists:" +:+ str_take 4089 x)).
  by destruct (strip_first "e" ("xists:" +:+ str_take 4089 x)) as [t ->].
Qed.

(** The first character survives the cutting of a text. *)
Lemma cut_first (n : nat) t c u : rstrip_nl (str_take n t) = String c u → ∃ v, t = String c v.
Proof.
  intros E. destruct (rstrip_nl_prefix (str_take n t)) as [rest Hr]. rewrite E in Hr.
  destruct (str_take_split n t) as [rest' Ht]. rewrite Hr in Ht. by exists ((u +:+ rest) +:+ rest').
Qed.

(** What the fence script prints, it says of the claim it leaves. *)
Lemma fence_reply_says p trouble o c :
  startswith p.(fp_claim_line) "f" = true →
  let e := do_claim p (DoFence trouble o) c in event_says p e.1 e.2.
Proof.
  intros Hp. destruct (fp_claim_line p) as [|f line] eqn:El; [done|].
  assert (f = "f"%char) as ->.
  { unfold startswith in Hp. cbn [String.prefix] in Hp. by destruct (ascii_dec "f" f). }
  unfold do_claim, fence_script. rewrite El. destruct trouble as [why|].
  { simpl. by rewrite interpret_unsafe. }
  destruct (link c (String "f" line) o) as [reported c'] eqn:Elk. destruct reported.
  { destruct c, o; simplify_eq/=. by exists (line +:+ NL). }
  destruct c' as [|t|]; [by cbn [fst snd]; rewrite interpret_unsafe| |by cbn [fst snd]; rewrite interpret_unsafe].
  rewrite interpret_exists, El. cbn zeta. cbn [fst snd].
  destruct (String.eqb (rstrip_nl (str_take 4089 (str_take 256 t))) (String "f" line)) eqn:Ec; [|by repeat case_match].
  apply String.eqb_eq, cut_first in Ec as [v Ev]. destruct (str_take_split 256 t) as [rest Ht].
  rewrite Ev in Ht. exists (v +:+ rest). by rewrite Ht.
Qed.

Lemma start_says p superseded unwritable o job_id c :
  let e := do_claim p (DoStart superseded unwritable o job_id) c in event_says p e.1 e.2.
Proof.
  unfold do_claim, job_start. destruct (_ || _); [done|].
  destruct (link c (started_line (fp_token p) job_id) o) as [reported c'] eqn:Elk. destruct reported.
  { destruct c, o; simplify_eq/=. eexists. split; [done|by left]. }
  destruct c' as [|t|]; [done| |done]. case_match eqn:Ec; [|done]. apply String.eqb_eq in Ec.
  exists t. split; [done|by right].
Qed.

Lemma event_says_le p e c c' : event_says p e c → claim_le c c' → event_says p e c'.
Proof.
  intros He [->| ->]; [|done]. destruct e as [[]|job_id| |]; simpl in *; try done.
  - by destruct He.
  - by destruct He as (? & ? & _).
Qed.

Lemma do_claims_say p steps c :
  startswith p.(fp_claim_line) "f" = true →
  let '(log, c') := do_claims p steps c in claim_le c c' ∧ ∀ e, e ∈ log → event_says p e c'.
Proof.
  intros Hp. revert c. induction steps as [|step steps IH]; intros c; simpl; [by split; [|set_solver]|].
  pose proof (do_claim_le p step c) as Hle.
  assert (let e := do_claim p step c in event_says p e.1 e.2) as Hsay.
  { destruct step; [by apply fence_reply_says|apply start_says|done]. }
  destruct (do_claim p step c) as [e c1]. simpl in *. specialize (IH c1).
  destruct (do_claims p steps c1) as [es c2]. destruct IH as [Hle' Hes].
  split; [by etransitivity|]. intros e' [->|He]%elem_of_cons; [by eapply event_says_le|auto].
Qed.

(** An id the scheduler would give: no newline, and short enough for the
    script's 256 bytes. *)
Definition plain_id (p : FencePlan) (job_id : string) : Prop :=
  all_chars (λ c, negb (Ascii.eqb c "010")) (started_line p.(fp_token) job_id) = true
  ∧ str_len (started_line p.(fp_token) job_id) <= 255.

Lemma ran_line p job_id c :
  plain_id p job_id → event_says p (Ran job_id) c →
  ∃ t, c = ClaimFile t ∧ rstrip_nl (str_take 256 t) = started_line p.(fp_token) job_id.
Proof.
  intros [Hnl Hlen] (t & -> & [->|Ht]); [|by exists t]. eexists. split; [done|].
  rewrite str_take_all; [by apply rstrip_nl_line|]. rewrite str_len_app. change (str_len NL) with 1. lia.
Qed.

Lemma plan_fences {H : Hashing} original record p : plan original record = Ok p → startswith p.(fp_claim_line) "f" = true.
Proof. unfold plan. intros Hp. repeat case_match; by simplify_eq. Qed.

(** C18: the start fence is exclusive.  In any history of one attempt's claim
    file, with any number of fences and of jobs that carry the attempt's
    token, links that succeed, fail or succeed unnoticed, scripts that stop
    early and foreign files: if a fence is ever read as placed, no job of the
    attempt ran or will run; and all the jobs that ran are one job of the
    scheduler. *)
Theorem start_fence_exclusive {H : Hashing} original record p steps c :
  plan original record = Ok p →
  let log := (do_claims p steps c).1 in
  (FenceReply Fenced ∈ log → ∀ job_id, Ran job_id ∉ log)
  ∧ (∀ job_id job_id', plain_id p job_id → plain_id p job_id' →
       Ran job_id ∈ log → Ran job_id' ∈ log → job_id = job_id').
Proof.
  intros Hp%plan_fences. pose proof (do_claims_say p steps c Hp) as Hsay.
  destruct (do_claims p steps c) as [log c']. destruct Hsay as [_ Hsay]. simpl. split.
  - intros [t Hf]%Hsay job_id (t' & Ht' & Hr)%Hsay. rewrite Hf in Ht'. injection Ht' as <-.
    destruct Hr as [Hr|Hr]; [done|]. unfold started_line in Hr. by apply cut_first in Hr as [v ?].
  - intros job_id job_id' Hi Hi' H1%Hsay H2%Hsay.
    destruct (ran_line p job_id c') as (t & -> & Et); [done..|].
    destruct (ran_line p job_id' (ClaimFile t)) as (t' & [= <-] & Et'); [done..|].
    rewrite Et in Et'. unfold started_line in Et'. by do 3 apply string_app_inj_l in Et'.
Qed.

(** ** One token per attempt *)

(** A published record stays, and is what every later [_create] returns. *)
Lemma create_record_published ev path value d v d' :
  create_record ev path value d = (Ok v, d') → d' !! path = Some (Some v).
Proof.
  unfold create_record, bind, read_record. destruct (d !! path) as [[v0|]|] eqn:Ed; intros E; [by injection E as <- <-|done|].
  destruct (ce_fails ev); [done|]. simpl in E.
  set (d1 := match ce_other ev with Some o => <[path:=o]> d | None => d end) in E.
  set (d2 := match d1 !! path with Some _ => d1 | None => <[path:=Some value]> d1 end) in E.
  destruct (d2 !! path) as [[v1|]|] eqn:E2; [|done..]. by injection E as <- <-.
Qed.

Lemma create_record_stable ev path value d v : d !! path = Some (Some v) → create_record ev path value d = (Ok v, d).
Proof. intros Hd. unfold create_record, bind, read_record. by rewrite Hd. Qed.

Lemma issue_token_path ev uid job_id n ws fresh at_ d token d' :
  issue_token ev uid job_id n ws fresh at_ d = (Ok token, d') →
  ∃ path record, private_path uid job_id n "token" = Ok path ∧ d' !! path = Some (Some record)
    ∧ token_of record (JStr job_id) (JInt n) (JStr ws) = Ok token.
Proof.
  unfold issue_token, bind, lift. destruct (private_path _ _ _ _) as [path|e]; [|done].
  destruct (create_record _ _ _ _) as [[record|e] d1] eqn:Ec; [|done]. intros [= Ht <-].
  exists path, record. split_and!; [done| |done]. by eapply create_record_published.
Qed.

(** Once a token is issued for an attempt, every script of the attempt gets
    it, and a fence of the attempt is planned for it. *)
Theorem start_token_once {H : Hashing} ev uid job_id n ws fresh at_ d token d' :
  issue_token ev uid job_id n ws fresh at_ d = (Ok token, d') →
  (∀ ev' fresh' at', issue_token ev' uid job_id n ws fresh' at' d' = (Ok token, d'))
  ∧ ∀ path original intent p,
      private_path uid job_id n "token" = Ok path →
      assoc "intent" original = Some (JObj intent) →
      assoc "id" intent = Some (JStr job_id) → assoc "retry_count" intent = Some (JInt n) →
      assoc "scheduler_remote_workspace" intent = Some (JStr ws) →
      plan (JObj original) (opt_or (d' !! path) None) = Ok p → p.(fp_token) = token.
Proof.
  intros (path & record & Hp & Hr & Ht)%issue_token_path. split.
  - intros ev' fresh' at'. unfold issue_token, bind, lift. rewrite Hp. by rewrite (create_record_stable _ _ _ _ _ Hr), Ht.
  - intros path' original intent p Hp' Hi Hid Hn Hws. rewrite Hp in Hp'. injection Hp' as <-. rewrite Hr. simpl.
    rewrite Hi, Hid, Hn, Hws. rewrite Ht. destruct (claim_name token) as [c|]; [|done]. by intros [= <-].
Qed.
