(* ===== verification/BrokerStore.v ===== *)
(** * The broker's held-job store: [src/vq/broker_store.py]

    The durable store and every transition of its state machine.  A store is
    the three directories the code keeps (records, payloads, staging); an
    operation is a function from a store to its result and the next store.
    Each transition runs under the writer lock and reads, checks and
    publishes in one step, so several processes are an interleaving of whole
    operations; [accept] stages outside the lock and is two steps. *)

From S2P Require Import Prelude Spec Overview Json BrokerRecord.

(** What a file of the records directory yields to a reader: JSON, or
    something [get] refuses (not JSON, too large, not an owned regular file). *)
Inductive rfile : Type :=
| RJson (j : json)
| RGarbage.

Record store : Type := MkStore {
  closed : bool;
  records : gmap string rfile;
  payloads : gmap string string;
  staging : gmap string string;
}.

(** Where an operation's I/O fails, and whether the writer lock stays busy
    until the timeout. *)
Inductive io_fault : Type :=
| NoFault | FaultWrite | FaultRename | FaultFsync | FaultPayloadLink | FaultPayloadSync.

#[global] Instance io_fault_eq_dec : EqDecision io_fault.
Proof. solve_decision. Defined.

Record env : Type := MkEnv { lock_busy : bool; fault : io_fault }.

Definition calm : env := {| lock_busy := false; fault := NoFault |}.

Definition record_name (job_id : string) : string := job_id +:+ ".json".
Definition payload_name (job_id : string) : string := job_id +:+ ".tar".
Definition staged_name (job_id : string) : string := job_id +:+ ".tar.part".

Definition set_records (s : store) (m : gmap string rfile) : store :=
  {| closed := s.(closed); records := m; payloads := s.(payloads); staging := s.(staging) |}.
Definition set_payloads (s : store) (m : gmap string string) : store :=
  {| closed := s.(closed); records := s.(records); payloads := m; staging := s.(staging) |}.
Definition set_staging (s : store) (m : gmap string string) : store :=
  {| closed := s.(closed); records := s.(records); payloads := s.(payloads); staging := m |}.

(** ** [dataclasses.replace] on records and attempts *)

Definition with_state (r : BrokerRecord) (st : broker_state) : BrokerRecord :=
  {| broker_job_id := r.(broker_job_id); revision := r.(revision); rstate := st;
     created_at := r.(created_at); updated_at := r.(updated_at); intent := r.(intent);
     payload_sha256 := r.(payload_sha256); payload_size := r.(payload_size);
     attempts := r.(attempts); cancellation := r.(cancellation);
     held_blockers := r.(held_blockers) |}.

Definition with_revision (r : BrokerRecord) (rev : Z) (now : pyfloat) : BrokerRecord :=
  {| broker_job_id := r.(broker_job_id); revision := rev; rstate := r.(rstate);
     created_at := r.(created_at); updated_at := now; intent := r.(intent);
     payload_sha256 := r.(payload_sha256); payload_size := r.(payload_size);
     attempts := r.(attempts); cancellation := r.(cancellation);
     held_blockers := r.(held_blockers) |}.

Definition with_attempts (r : BrokerRecord) (l : list BrokerAttempt) : BrokerRecord :=
  {| broker_job_id := r.(broker_job_id); revision := r.(revision); rstate := r.(rstate);
     created_at := r.(created_at); updated_at := r.(updated_at); intent := r.(intent);
     payload_sha256 := r.(payload_sha256); payload_size := r.(payload_size);
     attempts := l; cancellation := r.(cancellation); held_blockers := r.(held_blockers) |}.

Definition with_cancellation (r : BrokerRecord) (c : option BrokerCancellation) : BrokerRecord :=
  {| broker_job_id := r.(broker_job_id); revision := r.(revision); rstate := r.(rstate);
     created_at := r.(created_at); updated_at := r.(updated_at); intent := r.(intent);
     payload_sha256 := r.(payload_sha256); payload_size := r.(payload_size);
     attempts := r.(attempts); cancellation := c; held_blockers := r.(held_blockers) |}.

Definition with_blockers (r : BrokerRecord) (bs : list (string * string)) : BrokerRecord :=
  {| broker_job_id := r.(broker_job_id); revision := r.(revision); rstate := r.(rstate);
     created_at := r.(created_at); updated_at := r.(updated_at); intent := r.(intent);
     payload_sha256 := r.(payload_sha256); payload_size := r.(payload_size);
     attempts := r.(attempts); cancellation := r.(cancellation); held_blockers := bs |}.

(** The attempt's mutable fields; every other field is kept. *)
Definition with_outcome (a : BrokerAttempt) (ph : broker_state) (fp : option string)
    (started : option pyfloat) (tid : option string) (acc ret : option pyfloat)
    (why : option string) (released : option pyfloat) : BrokerAttempt :=
  {| number := a.(number); phase := ph; target_host := a.(target_host);
     target_state_root := a.(target_state_root); reservation_id := a.(reservation_id);
     charge := a.(charge); decided_at := a.(decided_at); snapshot := a.(snapshot);
     ranking := a.(ranking); blockers := a.(blockers); idempotency_key := a.(idempotency_key);
     request_fingerprint := fp; transfer_started_at := started; target_job_id := tid;
     accepted_at := acc; returned_at := ret; return_reason := why;
     charge_released_at := released; diagnostics := a.(diagnostics) |}.

Definition with_diagnostics (a : BrokerAttempt) (ds : list string) : BrokerAttempt :=
  {| number := a.(number); phase := a.(phase); target_host := a.(target_host);
     target_state_root := a.(target_state_root); reservation_id := a.(reservation_id);
     charge := a.(charge); decided_at := a.(decided_at); snapshot := a.(snapshot);
     ranking := a.(ranking); blockers := a.(blockers); idempotency_key := a.(idempotency_key);
     request_fingerprint := a.(request_fingerprint);
     transfer_started_at := a.(transfer_started_at); target_job_id := a.(target_job_id);
     accepted_at := a.(accepted_at); returned_at := a.(returned_at);
     return_reason := a.(return_reason); charge_released_at := a.(charge_released_at);
     diagnostics := ds |}.

Definition returned_attempt (a : BrokerAttempt) (now : pyfloat) (why : string) : BrokerAttempt :=
  with_outcome a RETURNED a.(request_fingerprint) a.(transfer_started_at) a.(target_job_id)
    a.(accepted_at) (Some now) (Some why) (Some now).

(** [_replace_attempt] *)
Definition replace_attempt (r : BrokerRecord) (a : BrokerAttempt) : BrokerRecord :=
  with_attempts r (removelast r.(attempts) ++ [a]).

(** [_parse_reason] *)
Definition DIAGNOSTIC_MAX_CHARS : nat := 2000.
Definition DIAGNOSTICS_MAX : nat := 50.

Definition parse_reason (value : string) : res broker_error string :=
  raise? StoreError when (String.eqb (strip value) "") in
  Ok (str_take DIAGNOSTIC_MAX_CHARS value).

(** [l[-n:]] for a positive [n] *)
Definition last_n {A} (n : nat) (l : list A) : list A := drop (length l - n) l.

Section with_hashing.
Context {H : Hashing}.

Definition RECORD_MAX_BYTES : Z := 1024 * 1024.

(** ** Reading *)

Definition get (s : store) (job_id : string) : res broker_error BrokerRecord :=
  raise? StoreError when s.(closed) in
  let? job_id := validate_broker_job_id job_id in
  match s.(records) !! record_name job_id with
  | None => Err StoreError
  | Some RGarbage => Err RecordCorrupt
  | Some (RJson j) =>
    let? record := parse_record j in
    raise? RecordCorrupt when (negb (String.eqb record.(broker_job_id) job_id)) in
    Ok record
  end.

(** [name.endswith(suffix)], and [name[:-5]] for [".json"] *)
Definition endswith (s suffix : string) : bool := String.prefix (string_rev suffix) (string_rev s).
Definition drop_json (name : string) : string := str_take (String.length name - 5) name.

Fixpoint scan_names (s : store) (names : list string)
    : res broker_error (list BrokerRecord * list string) :=
  match names with
  | [] => Ok ([], [])
  | name :: names' =>
    if endswith name ".tmp" then scan_names s names'
    else
      let stem := if endswith name ".json" then drop_json name else name in
      if negb (endswith name ".json") || negb (BROKER_JOB_ID_PATTERN stem) then
        let? out := scan_names s names' in Ok (out.1, name :: out.2)
      else
        match get s stem with
        | Ok r => let? out := scan_names s names' in Ok (r :: out.1, out.2)
        | Err e =>
          if is_store_error e then let? out := scan_names s names' in Ok (out.1, stem :: out.2)
          else Err e
        end
  end.

Definition record_names (s : store) : list string :=
  sort_by String.leb (map fst (map_to_list s.(records))).

(** Every record, and the name of each entry that is unusable. *)
Definition scan (s : store) : res broker_error (list BrokerRecord * list string) :=
  raise? StoreError when s.(closed) in scan_names s (record_names s).

Definition add_charge (totals : list (string * BrokerCharge)) (a : BrokerAttempt)
    : list (string * BrokerCharge) :=
  if is_some a.(charge_released_at) then totals
  else
    let prior := opt_or (assoc a.(target_host) totals) (MkCharge 0 0 0) in
    assoc_set a.(target_host)
      (MkCharge (prior.(c_cpus) + a.(charge).(c_cpus)) (prior.(c_mem_mb) + a.(charge).(c_mem_mb))
         (prior.(c_job_slots) + a.(charge).(c_job_slots))) totals.

Definition outstanding_charges (s : store) : res broker_error (list (string * BrokerCharge)) :=
  let? out := scan s in
  let '(records, problems) := out in
  raise? RecordCorrupt when (negb (bool_decide (problems = []))) in
  Ok (foldl (λ totals r, foldl add_charge totals r.(attempts)) [] records).

Definition verify_payload (s : store) (r : BrokerRecord) : res broker_error string :=
  raise? StoreError when s.(closed) in
  match s.(payloads) !! payload_name r.(broker_job_id) with
  | None => Err RecordCorrupt
  | Some bytes =>
    raise? RecordCorrupt
      when (negb (str_len bytes =? r.(payload_size))
            || negb (String.eqb (sha256_hex bytes) r.(payload_sha256))) in
    Ok (payload_name r.(broker_job_id))
  end.

(** ** Writing *)

Definition publish (ev : env) (s : store) (r : BrokerRecord) (create : bool)
    : res broker_error BrokerRecord * store :=
  let name := record_name r.(broker_job_id) in
  let data := record_to_json r in
  match check_consistency r with
  | Err e => (Err e, s)
  | Ok _ =>
    if RECORD_MAX_BYTES <? str_len (canonical_json data) then (Err StoreError, s)
    else if bool_decide (ev.(fault) = FaultWrite) then (Err OSError, s)
    else if bool_decide (ev.(fault) = FaultRename) then (Err OSError, s)
    else if create && is_some (s.(records) !! name) then (Err OSError, s)
    else
      let s' := set_records s (<[name := RJson data]> s.(records)) in
      if bool_decide (ev.(fault) = FaultFsync) then
        (Err OSError, if create then set_records s (delete name s.(records)) else s')
      else (Ok r, s')
  end.

Definition update (ev : env) (s : store) (job_id : string) (expected_revision : Z) (now : pyfloat)
    (change : BrokerRecord → pyfloat → res broker_error BrokerRecord)
    : res broker_error BrokerRecord * store :=
  if s.(closed) then (Err StoreError, s) else
  match finite_time (NFloat now) with
  | Err e => (Err e, s)
  | Ok now =>
    if ev.(lock_busy) then (Err StoreBusy, s) else
    match get s job_id with
    | Err e => (Err e, s)
    | Ok current =>
      if negb (current.(revision) =? expected_revision) then (Err RecordConflict, s) else
      match change current now with
      | Err e => (Err e, s)
      | Ok updated => publish ev s (with_revision updated (current.(revision) + 1) now) false
      end
    end
  end.

(** An argument check that raises before [_update] is entered. *)
Definition checked {A} (arg : res broker_error A) (s : store)
    (k : A → res broker_error BrokerRecord * store) : res broker_error BrokerRecord * store :=
  match arg with Ok a => k a | Err e => (Err e, s) end.

(** ** Acceptance *)

Inductive accept_key : Type := Keyed (key : string) | Fresh (job_id : string).

(** What an [accept] that has staged its payload still remembers. *)
Record pending : Type := MkPending {
  p_keyed : bool;
  p_job_id : string;
  p_intent : BrokerIntent;
  p_now : pyfloat;
  p_sha256 : string;
  p_size : Z;
}.

(** The part of [accept] before the lock: copy the payload to the staging
    directory under an exclusive name, hashing it.  [source] is [None] when
    the payload cannot be opened as a regular file; [Fresh] carries the id
    [new_broker_job_id] drew.  A failed exclusive open unlinks the name too. *)
Definition accept_stage (ev : env) (s : store) (source : option string) (i : BrokerIntent)
    (now : pyfloat) (key : accept_key) : res broker_error pending * store :=
  if s.(closed) then (Err StoreError, s) else
  match finite_time (NFloat now),
        (match key with Keyed k => broker_job_id_for_key k | Fresh id => Ok id end) with
  | Err e, _ | _, Err e => (Err e, s)
  | Ok now, Ok job_id =>
    match source with
    | None => (Err StoreError, s)
    | Some bytes =>
      let staged := staged_name job_id in
      if is_some (s.(staging) !! staged) || bool_decide (ev.(fault) = FaultWrite)
      then (Err OSError, set_staging s (delete staged s.(staging)))
      else (Ok {| p_keyed := match key with Keyed _ => true | Fresh _ => false end;
                  p_job_id := job_id; p_intent := i; p_now := now;
                  p_sha256 := sha256_hex bytes; p_size := str_len bytes |},
            set_staging s (<[staged := bytes]> s.(staging)))
    end
  end.

(** [_existing_record] *)
Definition existing_record (s : store) (job_id : string) : res broker_error (option BrokerRecord) :=
  match get s job_id with
  | Ok r => Ok (Some r)
  | Err RecordCorrupt => Err RecordCorrupt
  | Err e => if is_store_error e then Ok None else Err e
  end.

(** [_payload_sha256] *)
Definition stored_payload_sha256 (s : store) (name : string) : option string :=
  sha256_hex <$> s.(payloads) !! name.

(** [_link_payload]: never replaces an existing payload; adopts one only when
    its bytes hash the same. *)
Definition link_payload (ev : env) (s : store) (staged final : string)
    (adopt_sha256 : option string) : res broker_error unit * store :=
  let finish s' :=
    let s'' := set_staging s' (delete staged s'.(staging)) in
    if bool_decide (ev.(fault) = FaultPayloadSync) then (Err OSError, s'') else (Ok tt, s'') in
  match s.(staging) !! staged with
  | None => (Err OSError, s)
  | Some bytes =>
    if bool_decide (ev.(fault) = FaultPayloadLink) then (Err OSError, s)
    else if is_some (s.(payloads) !! final) then
      if is_some adopt_sha256 && bool_decide (stored_payload_sha256 s final = adopt_sha256)
      then finish s
      else (Err StoreError, s)
    else finish (set_payloads s (<[final := bytes]> s.(payloads)))
  end.

(** [==] on intents: a runtime bound [1] equals [1.0]. *)
Definition bounds_eqb (a b : option (pynum * pynum)) : bool :=
  match a, b with
  | Some (l1, h1), Some (l2, h2) =>
    bool_decide (num_float l1 = num_float l2) && bool_decide (num_float h1 = num_float h2)
  | None, None => true
  | _, _ => false
  end.

Definition intent_eqb (i j : BrokerIntent) : bool :=
  bool_decide (i.(i_command) = j.(i_command)) && (i.(i_cpus) =? j.(i_cpus))
  && (i.(i_mem_mb) =? j.(i_mem_mb))
  && bool_decide (i.(i_wall_time_seconds) = j.(i_wall_time_seconds))
  && (i.(i_priority) =? j.(i_priority)) && Bool.eqb i.(i_auto_resume) j.(i_auto_resume)
  && (i.(i_retry) =? j.(i_retry)) && bool_decide (i.(i_job_name) = j.(i_job_name))
  && bool_decide (i.(i_program) = j.(i_program))
  && bool_decide (i.(i_expected_sha) = j.(i_expected_sha))
  && bool_decide (i.(i_tags) = j.(i_tags))
  && Bool.eqb i.(i_clean_workdir_on_terminal) j.(i_clean_workdir_on_terminal)
  && bool_decide (i.(i_rerun_until_file_exists) = j.(i_rerun_until_file_exists))
  && (i.(i_rerun_max) =? j.(i_rerun_max)) && bool_decide (i.(i_pool) = j.(i_pool))
  && bounds_eqb i.(i_runtime_seconds) j.(i_runtime_seconds).

(** The record a new submission starts as. *)
Definition held_record (p : pending) : BrokerRecord :=
  {| broker_job_id := p.(p_job_id); revision := 1; rstate := HELD; created_at := p.(p_now);
     updated_at := p.(p_now); intent := p.(p_intent); payload_sha256 := p.(p_sha256);
     payload_size := p.(p_size); attempts := []; cancellation := None; held_blockers := [] |}.

(** [tarfile.is_tarfile] and the entry-point check of [submit.py], which
    inspect the archive's bytes. *)
Class PayloadCheck : Type := {
  is_tarfile : string → bool;
  staged_entrypoint_ok : list string → string → bool;
}.

(** Publishing once the payload is linked; a failure withdraws the payload. *)
Definition publish_new (ev : env) (s : store) (p : pending) : res broker_error BrokerRecord * store :=
  match publish ev s (held_record p) true with
  | (Ok r, s') => (Ok r, s')
  | (Err e, s') => (Err e, set_payloads s' (delete (payload_name p.(p_job_id)) s'.(payloads)))
  end.

(** The part of [accept] after staging.  The file that is inspected and linked
    is whatever the staging directory holds under this job's name by then. *)
Definition accept_commit `{PayloadCheck} (ev : env) (s : store) (p : pending)
    : res broker_error BrokerRecord * store :=
  let staged := staged_name p.(p_job_id) in
  let final := payload_name p.(p_job_id) in
  let unstage s' := set_staging s' (delete staged s'.(staging)) in
  match s.(staging) !! staged with
  | None => (Err OSError, s)
  | Some bytes =>
    if negb (is_tarfile bytes) then (Err StoreError, unstage s)
    else if negb (staged_entrypoint_ok p.(p_intent).(i_command) bytes)
    then (Err StoreError, unstage s)
    else if p.(p_keyed) then
      if ev.(lock_busy) then (Err StoreBusy, unstage s) else
      match existing_record s p.(p_job_id) with
      | Err e => (Err e, unstage s)
      | Ok (Some existing) =>
        (if intent_eqb existing.(intent) p.(p_intent)
            && String.eqb existing.(payload_sha256) p.(p_sha256)
         then Ok existing else Err IdempotencyConflict, unstage s)
      | Ok None =>
        match link_payload ev s staged final (Some p.(p_sha256)) with
        | (Err e, s') => (Err e, unstage s')
        | (Ok _, s') => publish_new ev s' p
        end
      end
    else
      match link_payload ev s staged final None with
      | (Err e, s') => (Err e, unstage s')
      | (Ok _, s') =>
        if ev.(lock_busy)
        then (Err StoreBusy, set_payloads s' (delete final s'.(payloads)))
        else publish_new ev s' p
      end
  end.

(** [accept] when nothing intervenes between its two parts. *)
Definition accept `{PayloadCheck} (ev : env) (s : store) (source : option string) (i : BrokerIntent)
    (now : pyfloat) (key : accept_key) : res broker_error BrokerRecord * store :=
  match accept_stage ev s source i now key with
  | (Err e, s') => (Err e, s')
  | (Ok p, s') => accept_commit ev s' p
  end.

(** ** Transitions

    Each [*_change] is the closure the method passes to [_update]. *)

(** [record.attempts[-1]] *)
Definition last_attempt (r : BrokerRecord) : res broker_error BrokerAttempt :=
  match current_attempt r with Some a => Ok a | None => Err PyIndexError end.

Definition held_blockers_change (bs : list (string * string)) (r : BrokerRecord) (_ : pyfloat)
    : res broker_error BrokerRecord :=
  raise? RecordConflict
    when (negb (bool_decide (r.(rstate) = HELD)) || is_some r.(cancellation)) in
  let candidate := with_blockers r bs in
  let? _ := parse_record (record_to_json candidate) in
  Ok candidate.

Definition record_held_blockers (ev : env) (s : store) (job_id : string) (rev : Z)
    (bs : list (string * string)) (now : pyfloat) : res broker_error BrokerRecord * store :=
  update ev s job_id rev now (held_blockers_change bs).

Definition rank_to_json (r : rank) : json :=
  let '(a, (b, (c, (d, (e, (f, h)))))) := r in
  JList [JInt a; JInt b; JInt c; JInt d; JInt e; JInt f; JStr h].

Definition str_dict (d : list (string * string)) : json := JObj (map (λ kv, (kv.1, JStr kv.2)) d).

Definition snapshot_json (sn : BrokerCapacitySnapshot) : list (string * json) :=
  [("host", JStr sn.(host)); ("observed_at", JFloat sn.(observed_at));
   ("free_cpus", jopt JInt sn.(free_cpus)); ("free_mem_mb", jopt JInt sn.(free_mem_mb));
   ("free_jobs", jopt JInt sn.(free_jobs)); ("pending_cpus", JInt sn.(pending_cpus));
   ("idle_seconds", jopt JInt sn.(idle_seconds));
   ("pools", JList (map JStr (sort_by String.leb sn.(pools))));
   ("max_wall_time_seconds", jopt JFloat sn.(max_wall_time_seconds))]
  ++ match sn.(authority) with Some a => [("authority", str_dict a)] | None => [] end
  ++ match sn.(runtime_pins) with Some a => [("runtime_pins", str_dict a)] | None => [] end.

Definition reserved_attempt (d : BrokerPlacementDecision) (sn : BrokerCapacitySnapshot)
    (root : string) (r : BrokerRecord) (now : pyfloat) : BrokerAttempt :=
  let n := Z.of_nat (length r.(attempts)) + 1 in
  {| number := n; phase := RESERVED; target_host := sn.(host); target_state_root := root;
     reservation_id := r.(broker_job_id) +:+ "." +:+ pretty n;
     charge := {| c_cpus := r.(intent).(i_cpus); c_mem_mb := r.(intent).(i_mem_mb);
                  c_job_slots := 1 |};
     decided_at := now; snapshot := snapshot_json sn; ranking := map rank_to_json d.(dec_ranking);
     blockers := map (λ kv, (kv.1, JStr kv.2)) (dict_of d.(dec_blockers));
     idempotency_key := r.(broker_job_id); request_fingerprint := None;
     transfer_started_at := None; target_job_id := None; accepted_at := None;
     returned_at := None; return_reason := None; charge_released_at := None; diagnostics := [] |}.

Definition reserve_change (d : BrokerPlacementDecision) (sn : BrokerCapacitySnapshot)
    (root : string) (r : BrokerRecord) (now : pyfloat) : res broker_error BrokerRecord :=
  raise? RecordConflict when (negb (bool_decide (r.(rstate) = HELD))) in
  raise? RecordConflict when (is_some r.(cancellation)) in
  raise? StoreError when (Nat.leb ATTEMPTS_MAX (length r.(attempts))) in
  Ok (with_blockers (with_attempts (with_state r RESERVED)
        (r.(attempts) ++ [reserved_attempt d sn root r now])) []).

Definition reserve_args (d : BrokerPlacementDecision) (sn : BrokerCapacitySnapshot) (root : string)
    : res broker_error unit :=
  raise? StoreError when (negb (bool_decide (d.(dec_host) = Some sn.(host)))) in
  raise? StoreError when (negb (startswith root "/")) in
  Ok tt.

Definition reserve (ev : env) (s : store) (job_id : string) (rev : Z) (d : BrokerPlacementDecision)
    (sn : BrokerCapacitySnapshot) (root : string) (now : pyfloat)
    : res broker_error BrokerRecord * store :=
  checked (reserve_args d sn root) s (λ _, update ev s job_id rev now (reserve_change d sn root)).

Definition release_change (why : string) (r : BrokerRecord) (now : pyfloat)
    : res broker_error BrokerRecord :=
  raise? RecordConflict when (negb (bool_decide (r.(rstate) = RESERVED))) in
  let? a := last_attempt r in
  Ok (with_state (replace_attempt r (returned_attempt a now why)) RETURNED).

Definition release_reservation (ev : env) (s : store) (job_id : string) (rev : Z)
    (why : string) (now : pyfloat) : res broker_error BrokerRecord * store :=
  checked (parse_reason why) s (λ why, update ev s job_id rev now (release_change why)).

Definition fence_change (proof : string) (r : BrokerRecord) (now : pyfloat)
    : res broker_error BrokerRecord :=
  raise? RecordConflict when (negb (bool_decide (r.(rstate) = TRANSFERRING))) in
  let? a := last_attempt r in
  Ok (with_state (replace_attempt r (returned_attempt a now (FENCED_RETURN_PREFIX +:+ proof)))
        RETURNED).

Definition fence_transfer (ev : env) (s : store) (job_id : string) (rev : Z)
    (proof : string) (now : pyfloat) : res broker_error BrokerRecord * store :=
  checked (parse_reason proof) s (λ proof, update ev s job_id rev now (fence_change proof)).

Definition complete (c : BrokerCancellation) (now : pyfloat) : BrokerCancellation :=
  {| requested_at := c.(requested_at); reason := c.(reason); completed_at := Some now |}.

Definition resume_change (r : BrokerRecord) (now : pyfloat) : res broker_error BrokerRecord :=
  raise? RecordConflict when (negb (bool_decide (r.(rstate) = RETURNED))) in
  match r.(cancellation) with
  | Some c => Ok (with_cancellation (with_state r CANCELLED) (Some (complete c now)))
  | None => Ok (with_state r HELD)
  end.

Definition resume_holding (ev : env) (s : store) (job_id : string) (rev : Z) (now : pyfloat)
    : res broker_error BrokerRecord * store :=
  update ev s job_id rev now resume_change.

Definition begin_change (r : BrokerRecord) (now : pyfloat) : res broker_error BrokerRecord :=
  raise? RecordConflict when (negb (bool_decide (r.(rstate) = RESERVED))) in
  raise? RecordConflict when (is_some r.(cancellation)) in
  let? a := last_attempt r in
  Ok (with_state (replace_attempt r
        (with_outcome a TRANSFERRING (Some (transfer_fingerprint r a)) (Some now) a.(target_job_id)
           a.(accepted_at) a.(returned_at) a.(return_reason) a.(charge_released_at)))
        TRANSFERRING).

Definition begin_transfer (ev : env) (s : store) (job_id : string) (rev : Z) (now : pyfloat)
    : res broker_error BrokerRecord * store :=
  update ev s job_id rev now begin_change.

Definition diagnostic_change (message : string) (r : BrokerRecord) (_ : pyfloat)
    : res broker_error BrokerRecord :=
  raise? RecordConflict when (negb (bool_decide (r.(rstate) = TRANSFERRING))) in
  let? a := last_attempt r in
  Ok (replace_attempt r
        (with_diagnostics a (last_n DIAGNOSTICS_MAX (a.(diagnostics) ++ [message])))).

Definition record_transfer_diagnostic (ev : env) (s : store) (job_id : string) (rev : Z)
    (message : string) (now : pyfloat) : res broker_error BrokerRecord * store :=
  checked (parse_reason message) s (λ message, update ev s job_id rev now (diagnostic_change message)).

Definition placed_change (fp tid : string) (r : BrokerRecord) (now : pyfloat)
    : res broker_error BrokerRecord :=
  raise? RecordConflict when (negb (bool_decide (r.(rstate) = TRANSFERRING))) in
  let? a := last_attempt r in
  raise? RecordConflict when (negb (bool_decide (a.(request_fingerprint) = Some fp))) in
  Ok (with_state (replace_attempt r
        (with_outcome a PLACED a.(request_fingerprint) a.(transfer_started_at) (Some tid)
           (Some now) a.(returned_at) a.(return_reason) a.(charge_released_at))) PLACED).

Definition target_id_arg (tid : string) : res broker_error string :=
  match validate_job_id tid with Ok v => Ok v | Err _ => Err StoreError end.

Definition record_placed (ev : env) (s : store) (job_id : string) (rev : Z)
    (fp tid : string) (now : pyfloat) : res broker_error BrokerRecord * store :=
  checked (target_id_arg tid) s (λ tid, update ev s job_id rev now (placed_change fp tid)).

Definition settle_change (r : BrokerRecord) (now : pyfloat) : res broker_error BrokerRecord :=
  raise? RecordConflict when (negb (bool_decide (r.(rstate) = PLACED))) in
  let? a := last_attempt r in
  raise? RecordConflict when (is_some a.(charge_released_at)) in
  Ok (replace_attempt r
        (with_outcome a a.(phase) a.(request_fingerprint) a.(transfer_started_at) a.(target_job_id)
           a.(accepted_at) a.(returned_at) a.(return_reason) (Some now))).

Definition settle_charge (ev : env) (s : store) (job_id : string) (rev : Z) (now : pyfloat)
    : res broker_error BrokerRecord * store :=
  update ev s job_id rev now settle_change.

Definition cancel_change (why : string) (r : BrokerRecord) (now : pyfloat)
    : res broker_error BrokerRecord :=
  raise? RecordConflict
    when (bool_decide (r.(rstate) = CANCELLED) || is_some r.(cancellation)) in
  let c := {| requested_at := now; reason := why; completed_at := None |} in
  if bool_decide (r.(rstate) = HELD)
  then Ok (with_cancellation (with_state r CANCELLED) (Some (complete c now)))
  else Ok (with_cancellation r (Some c)).

Definition request_cancel (ev : env) (s : store) (job_id : string) (rev : Z)
    (why : string) (now : pyfloat) : res broker_error BrokerRecord * store :=
  checked (parse_reason why) s (λ why, update ev s job_id rev now (cancel_change why)).

(** ** The keyed submission *)

Record BrokerTransferRequest : Type := MkTransfer {
  t_broker_job_id : string;
  t_target_host : string;
  t_target_state_root : string;
  t_idempotency_key : string;
  t_request_fingerprint : option string;
  t_payload_path : string;
  t_intent : BrokerIntent;
  t_expected_sha : option json;
  t_authority : option json;
}.

(** [intent.expected_sha or (pins.get(program) if program else None)] *)
Definition truthy_str (o : option string) : bool := match o with Some s => nonempty s | None => false end.

Definition expected_sha_for (i : BrokerIntent) (snap : list (string * json))
    : res broker_error (option json) :=
  if truthy_str i.(i_expected_sha) then Ok (JStr <$> i.(i_expected_sha))
  else match i.(i_program) with
       | Some p =>
         if nonempty p then
           match assoc "runtime_pins" snap with
           | Some (JObj pins) => Ok (assoc p pins)
           | Some _ => Err PyAttributeError
           | None => Ok None
           end
         else Ok None
       | None => Ok None
       end.

(** The [submit_kwargs] other than those listed are the intent's own fields. *)
Definition transfer_request (s : store) (r : BrokerRecord) : res broker_error BrokerTransferRequest :=
  let? current := get s r.(broker_job_id) in
  raise? RecordConflict when (negb (bool_decide (current = r))) in
  raise? RecordConflict when (negb (bool_decide (current.(rstate) = TRANSFERRING))) in
  let? a := last_attempt current in
  raise? RecordConflict
    when (negb (bool_decide (a.(request_fingerprint) = Some (transfer_fingerprint current a)))) in
  let? path := verify_payload s current in
  let? sha := expected_sha_for current.(intent) a.(snapshot) in
  Ok {| t_broker_job_id := current.(broker_job_id); t_target_host := a.(target_host);
        t_target_state_root := a.(target_state_root); t_idempotency_key := a.(idempotency_key);
        t_request_fingerprint := a.(request_fingerprint); t_payload_path := path;
        t_intent := current.(intent);
        t_expected_sha := sha;
        t_authority := assoc "authority" a.(snapshot) |}.
End with_hashing.
