(* ===== verification/BrokerLifecycle.v ===== *)
(** * The broker store's state machine: what its transitions preserve

    The processes that share a store as a transition system over its
    operations, and the guarantees every run of it keeps: records stay
    readable, history is append-only, a transfer stays pinned to its target,
    settled states are final. *)

From S2P Require Import Prelude Spec Overview Json BrokerRecord BrokerStore.

(** ** Well-formedness of the pieces a transition assembles *)

Lemma time_wf_finite now f : finite_time (NFloat now) = Ok f → f = now ∧ time_wf now = true.
Proof.
  unfold finite_time, time_wf. simpl. destruct (isfinite now), (fltb now fzero); simpl; naive_solver.
Qed.

Lemma last_split {A} (l : list A) a : last l = Some a → l = removelast l ++ [a].
Proof.
  induction l as [|x [|y l] IH]; [done|by intros [= ->]|]. intros Hl. simpl in *. f_equal. by apply IH.
Qed.

Lemma removelast_snoc {A} (l : list A) a : removelast (l ++ [a]) = l.
Proof. apply removelast_last. Qed.

Lemma attempts_wf_app n id l1 l2 :
  attempts_wf n id (l1 ++ l2)
  = attempts_wf n id l1 && attempts_wf (n + Z.of_nat (length l1)) id l2.
Proof.
  revert n. induction l1 as [|a l1 IH]; intros n; simpl; [by rewrite Z.add_0_r|].
  rewrite IH, andb_assoc. do 2 f_equal. lia.
Qed.

(** The fields an attempt fixes when it is made. *)
Definition same_pins (a b : BrokerAttempt) : Prop :=
  a.(number) = b.(number) ∧ a.(target_host) = b.(target_host)
  ∧ a.(target_state_root) = b.(target_state_root) ∧ a.(reservation_id) = b.(reservation_id)
  ∧ a.(charge) = b.(charge) ∧ a.(decided_at) = b.(decided_at) ∧ a.(snapshot) = b.(snapshot)
  ∧ a.(ranking) = b.(ranking) ∧ a.(blockers) = b.(blockers)
  ∧ a.(idempotency_key) = b.(idempotency_key).

#[global] Instance same_pins_equivalence : Equivalence same_pins.
Proof. unfold same_pins. split; repeat intro; intuition congruence. Qed.

(** The outcome fields of an attempt are well formed. *)
Definition outcome_wf (a : BrokerAttempt) : bool :=
  bool_decide (a.(phase) ∈ ATTEMPT_PHASES) && opt_wf time_wf a.(transfer_started_at)
  && opt_wf time_wf a.(accepted_at) && opt_wf time_wf a.(returned_at)
  && opt_wf time_wf a.(charge_released_at) && opt_wf nonempty a.(return_reason)
  && opt_wf (λ s, is_ok (validate_job_id s)) a.(target_job_id)
  && opt_wf is_sha256_hex a.(request_fingerprint).

Lemma attempt_wf_outcome n id a : attempt_wf n id a = true → outcome_wf a = true.
Proof. unfold attempt_wf, outcome_wf. rewrite !andb_true_iff. tauto. Qed.

Lemma attempt_wf_pins n id a b :
  attempt_wf n id a = true → same_pins a b → outcome_wf b = true → attempt_wf n id b = true.
Proof.
  unfold same_pins, attempt_wf, outcome_wf. rewrite !andb_true_iff.
  intros Ha (<- & <- & <- & <- & <- & <- & _ & _ & _ & <-) Hb. tauto.
Qed.

Lemma attempts_wf_replace n id l a b :
  last l = Some a → attempts_wf n id l = true → same_pins a b →
  (outcome_wf a = true → outcome_wf b = true) → attempts_wf n id (removelast l ++ [b]) = true.
Proof.
  intros Hl Hw Hp Ho. rewrite (last_split _ _ Hl) in Hw. rewrite attempts_wf_app in *.
  simpl in *. rewrite !andb_true_r in *. apply andb_true_iff in Hw as [-> Ha]. simpl.
  eauto using attempt_wf_pins, attempt_wf_outcome.
Qed.

Lemma length_replace {A} (l : list A) a b : last l = Some a → length (removelast l ++ [b]) = length l.
Proof. intros Hl. rewrite (last_split _ _ Hl) at 2. by rewrite !length_app. Qed.

Lemma parse_reason_nonempty v w : parse_reason v = Ok w → nonempty w = true.
Proof. unfold parse_reason. intros Hp. unbind. simplify_eq. by destruct v. Qed.

Lemma validate_job_id_id v w : validate_job_id v = Ok w → w = v.
Proof. unfold validate_job_id. intros Hv. unbind. by simplify_eq. Qed.

Lemma nonempty_app_r s t : nonempty t = true → nonempty (s +:+ t) = true.
Proof. by destruct s. Qed.

(** ** The transitions as data *)

Inductive transition : Type :=
| TBlockers (bs : list (string * string))
| TReserve (d : BrokerPlacementDecision) (sn : BrokerCapacitySnapshot) (root : string)
| TRelease (why : string)
| TFence (proof : string)
| TResume
| TBegin
| TDiagnostic (message : string)
| TPlaced (fp tid : string)
| TSettle
| TCancel (why : string).

Section with_hashing.
Context {H : Hashing}.

Definition run_transition (ev : env) (s : store) (job_id : string) (rev : Z) (now : pyfloat)
    (t : transition) : res broker_error BrokerRecord * store :=
  match t with
  | TBlockers bs => record_held_blockers ev s job_id rev bs now
  | TReserve d sn root => reserve ev s job_id rev d sn root now
  | TRelease why => release_reservation ev s job_id rev why now
  | TFence proof => fence_transfer ev s job_id rev proof now
  | TResume => resume_holding ev s job_id rev now
  | TBegin => begin_transfer ev s job_id rev now
  | TDiagnostic message => record_transfer_diagnostic ev s job_id rev message now
  | TPlaced fp tid => record_placed ev s job_id rev fp tid now
  | TSettle => settle_charge ev s job_id rev now
  | TCancel why => request_cancel ev s job_id rev why now
  end.

(** What a transition does before and inside [_update]. *)
Definition transition_args (t : transition) : res broker_error transition :=
  match t with
  | TReserve d sn root => let? _ := reserve_args d sn root in Ok t
  | TRelease why => let? why := parse_reason why in Ok (TRelease why)
  | TFence proof => let? proof := parse_reason proof in Ok (TFence proof)
  | TDiagnostic m => let? m := parse_reason m in Ok (TDiagnostic m)
  | TPlaced fp tid => let? tid := target_id_arg tid in Ok (TPlaced fp tid)
  | TCancel why => let? why := parse_reason why in Ok (TCancel why)
  | _ => Ok t
  end.

Definition change_of (t : transition) : BrokerRecord → pyfloat → res broker_error BrokerRecord :=
  match t with
  | TBlockers bs => held_blockers_change bs
  | TReserve d sn root => reserve_change d sn root
  | TRelease why => release_change why
  | TFence proof => fence_change proof
  | TResume => resume_change
  | TBegin => begin_change
  | TDiagnostic message => diagnostic_change message
  | TPlaced fp tid => placed_change fp tid
  | TSettle => settle_change
  | TCancel why => cancel_change why
  end.

Lemma run_transition_update ev s job_id rev now t :
  run_transition ev s job_id rev now t =
  checked (transition_args t) s (λ t', update ev s job_id rev now (change_of t')).
Proof.
  destruct t; simpl; try done;
    unfold reserve, release_reservation, fence_transfer, record_transfer_diagnostic,
      record_placed, request_cancel, checked;
    by repeat case_match; simplify_eq.
Qed.

(** The placer only reserves a named host: [place_broker_job] refuses others. *)
Definition contract (t : transition) : bool :=
  match t with TReserve _ sn _ => nonempty sn.(host) | _ => true end.

Definition args_wf (t : transition) : bool :=
  match t with
  | TReserve _ sn root => nonempty sn.(host) && nonempty root
  | TRelease s | TFence s | TCancel s => nonempty s
  | TPlaced _ tid => is_ok (validate_job_id tid)
  | _ => true
  end.

Lemma transition_args_wf t t' :
  contract t = true → transition_args t = Ok t' → args_wf t' = true.
Proof.
  destruct t; simpl; intros Hc Ha; unbind; simplify_eq; simpl; eauto using parse_reason_nonempty.
  - rewrite Hc. unfold reserve_args in *. unbind. by destruct root.
  - unfold target_id_arg in *. destruct (validate_job_id _) as [v|] eqn:E; [|done]. simplify_eq.
    by rewrite (validate_job_id_id _ _ E) in *; rewrite E.
Qed.
End with_hashing.

(** ** Consistency, as a proposition *)

Definition completed (r : BrokerRecord) : bool :=
  match r.(cancellation) with Some c => is_some c.(completed_at) | None => false end.

Record consistent (r : BrokerRecord) : Prop := {
  cons_blockers : r.(held_blockers) = [] ∨ r.(rstate) ∈ [HELD; CANCELLED];
  cons_earlier a : a ∈ removelast r.(attempts) → a.(phase) = RETURNED ∧ is_some a.(charge_released_at);
  cons_attempt a : a ∈ r.(attempts) → attempt_contradiction a = false;
  cons_phase : phase <$> current_attempt r ∈ expected_phase r.(rstate);
  cons_released a : r.(rstate) ∈ [HELD; CANCELLED] → current_attempt r = Some a →
    is_some a.(charge_released_at);
  cons_completed : r.(rstate) = CANCELLED ↔ completed r;
}.

Lemma existsb_false {A} (p : A → bool) l : existsb p l = false ↔ ∀ x, x ∈ l → p x = false.
Proof.
  rewrite <-not_true_iff_false, existsb_exists. setoid_rewrite <-list_elem_of_In. split.
  - intros Hn x Hx. apply not_true_is_false. eauto.
  - intros Hf (x & Hx & Hp). rewrite Hf in Hp; done.
Qed.

Lemma check_consistency_spec r : is_ok (check_consistency r) = true ↔ consistent r.
Proof.
  unfold check_consistency. fold (completed r). split.
  - intros Hc. destruct (_ && _) eqn:H1 in Hc; [done|]. destruct (existsb _ _) eqn:H2 in Hc; [done|].
    destruct (existsb _ _) eqn:H3 in Hc; [done|]. destruct (negb _) eqn:H4 in Hc; [done|].
    destruct (_ && _) eqn:H5 in Hc; [done|]. destruct (_ && _) eqn:H6 in Hc; [done|].
    destruct (_ && _) eqn:H7 in Hc; [done|]. rewrite existsb_false in H2, H3. propify. split; try done.
    + apply andb_false_iff in H1 as [H1|H1]; propify; [by left|by right].
    + intros a Ha. specialize (H2 a Ha). propify. auto using Is_true_eq_left.
    + intros a Hs Ha. rewrite (bool_decide_eq_true_2 _ Hs), Ha in H5. simpl in H5. propify.
      auto using Is_true_eq_left.
    + repeat case_bool_decide; destruct (completed r); naive_solver.
  - intros [H1 H2 H3 H4 H5 H6].
    assert (_ && _ = false) as -> by (destruct H1 as [->|H1];
      [done|rewrite (bool_decide_eq_true_2 _ H1); apply andb_false_r]).
    assert (existsb _ (removelast (attempts r)) = false) as ->.
    { apply existsb_false. intros a Ha. destruct (H2 a Ha) as [-> ?]. by destruct (is_some _). }
    assert (existsb _ (attempts r) = false) as -> by by apply existsb_false.
    rewrite (bool_decide_eq_true_2 _ H4). cbn [negb].
    assert (bool_decide (rstate r ∈ [HELD; CANCELLED]) && _ = false) as ->.
    { case_bool_decide as Hs; [|done]. simpl. destruct (current_attempt r) eqn:E; [|done].
      specialize (H5 _ Hs eq_refl). by destruct (is_some _). }
    case_bool_decide; destruct (completed r); naive_solver.
Qed.

Lemma record_wf_consistent r : record_wf r = true → consistent r.
Proof. unfold record_wf. intros [_ ?]%andb_true_iff. by apply check_consistency_spec. Qed.

(** The current attempt of a record with a live attempt. *)
Lemma live_attempt r :
  consistent r → r.(rstate) ∈ [RESERVED; TRANSFERRING; PLACED; RETURNED] →
  ∃ a, current_attempt r = Some a ∧ a.(phase) = r.(rstate) ∧ a ∈ r.(attempts).
Proof.
  intros [_ _ _ Hp _ _] Hs. unfold current_attempt in *.
  destruct (last (attempts r)) as [a|] eqn:E.
  - exists a. split_and!; [done| |].
    + simpl in Hp. destruct (rstate r); simpl in Hp; set_solver.
    + rewrite (last_split _ _ E). set_solver.
  - simpl in Hp. destruct (rstate r); simpl in Hp; set_solver.
Qed.

Lemma last_attempt_live r a :
  consistent r → last_attempt r = Ok a → r.(rstate) ∈ [RESERVED; TRANSFERRING; PLACED; RETURNED] →
  last r.(attempts) = Some a ∧ a.(phase) = r.(rstate).
Proof.
  intros Hc Ha Hs. destruct (live_attempt r Hc Hs) as (b & Hb & Hph & _).
  unfold last_attempt in Ha. rewrite Hb in Ha. by simplify_eq.
Qed.

(** ** History only grows *)

(** What may still happen to an attempt once it is in a record. *)
Record attempt_evolves (a b : BrokerAttempt) : Prop := {
  ae_pins : same_pins a b;
  ae_begun : a.(phase) ≠ RESERVED → b.(phase) ≠ RESERVED
    ∧ b.(request_fingerprint) = a.(request_fingerprint)
    ∧ b.(transfer_started_at) = a.(transfer_started_at);
  ae_target f : a.(target_job_id) = Some f → b.(target_job_id) = Some f;
  ae_released f : a.(charge_released_at) = Some f → b.(charge_released_at) = Some f;
  ae_returned : a.(phase) = RETURNED → b = a;
  ae_placed : a.(phase) = PLACED → b.(phase) = PLACED;
}.

#[global] Instance attempt_evolves_preorder : PreOrder attempt_evolves.
Proof.
  split.
  - intros a. by split.
  - intros a b c Hab Hbc. split.
    + transitivity b; apply ae_pins; done.
    + intros Ha. destruct (ae_begun _ _ Hab Ha) as (Hb & <- & <-). by apply Hbc.
    + intros f Hf. apply Hbc, Hab, Hf.
    + intros f Hf. apply Hbc, Hab, Hf.
    + intros Hr. pose proof (ae_returned _ _ Hab Hr) as ->. by apply Hbc.
    + intros Hp. by apply Hbc, Hab.
Qed.

(** Earlier attempts evolve in place, new ones are appended. *)
Definition history_le (l l' : list BrokerAttempt) : Prop :=
  ∃ l1 l2, l' = l1 ++ l2 ∧ Forall2 attempt_evolves l l1.

#[global] Instance history_le_preorder : PreOrder history_le.
Proof.
  split.
  - intros l. exists l, []. rewrite app_nil_r. split; [done|]. by induction l; constructor.
  - intros l1 l2 l3 (a & b & -> & H1) (c & d & -> & H2).
    apply Forall2_app_inv_l in H2 as (c1 & c2 & Hc1 & Hc2 & ->).
    exists c1, (c2 ++ d). rewrite app_assoc. split; [done|].
    by transitivity a.
Qed.

Lemma history_le_snoc l a : history_le l (l ++ [a]).
Proof. exists l, [a]. split; [done|]. by induction l; constructor. Qed.

Lemma history_le_replace l a b :
  last l = Some a → attempt_evolves a b → history_le l (removelast l ++ [b]).
Proof.
  intros Hl Hab. exists (removelast l ++ [b]), []. rewrite app_nil_r. split; [done|].
  rewrite (last_split _ _ Hl) at 1. apply Forall2_app; [done|by constructor].
Qed.

(** What one transition may do to a record. *)
Record evolves (r r' : BrokerRecord) : Prop := {
  ev_id : r'.(broker_job_id) = r.(broker_job_id);
  ev_created : r'.(created_at) = r.(created_at);
  ev_intent : r'.(intent) = r.(intent);
  ev_sha : r'.(payload_sha256) = r.(payload_sha256);
  ev_size : r'.(payload_size) = r.(payload_size);
  ev_history : history_le r.(attempts) r'.(attempts);
  ev_cancel c : r.(cancellation) = Some c →
    ∃ c', r'.(cancellation) = Some c' ∧ c'.(requested_at) = c.(requested_at)
          ∧ c'.(reason) = c.(reason);
  ev_placed : r.(rstate) = PLACED → r'.(rstate) = PLACED;
  ev_cancelled : r.(rstate) = CANCELLED → r'.(rstate) = CANCELLED;
}.

#[global] Instance evolves_preorder : PreOrder evolves.
Proof.
  split.
  - intros r. split; try done. eauto.
  - intros a b c Hab Hbc. split.
    1-5: destruct Hab, Hbc; congruence.
    + transitivity (attempts b); [apply Hab|apply Hbc].
    + intros d Hd. destruct (ev_cancel _ _ Hab d Hd) as (d' & Hd' & <- & <-). by apply Hbc.
    + intros Hp. by apply Hbc, Hab.
    + intros Hp. by apply Hbc, Hab.
Qed.

(** [open_change] splits the guards of a transition that succeeded;
    [open_attempt] exposes the current attempt of one that rewrites it. *)
Ltac open_attempt Hcons :=
  match goal with
  | Hl : last_attempt ?r = Ok ?a |- _ =>
    let Hlast := fresh "Hlast" in let Hph := fresh "Hph" in
    destruct (last_attempt_live r a Hcons Hl) as [Hlast Hph]; [set_solver|]
  end.

Ltac open_change Hc :=
  cbn [change_of] in Hc;
  unfold held_blockers_change, reserve_change, release_change, fence_change, resume_change,
    begin_change, diagnostic_change, placed_change, settle_change, cancel_change in Hc;
  unbind; propify; simplify_eq.

(** ** Every transition keeps a record well formed *)

Section with_hashing.
Context {H : Hashing}.

(** A record that reads back: what [publish] needs of its argument. *)
Definition printable (r : BrokerRecord) : Prop :=
  record_core_wf r = true ∧ blockers_nonempty (dict_of r.(held_blockers)) = true.

Lemma record_wf_printable r : record_wf r = true → printable r.
Proof.
  unfold record_wf, record_fields_wf, printable. rewrite !andb_true_iff. intros [[? Hb] _].
  by destruct (held_blockers_wf_normal _ Hb) as (-> & _ & ->).
Qed.

Lemma record_core_wf_attempts r :
  record_core_wf r = true → attempts_wf 1 r.(broker_job_id) r.(attempts) = true.
Proof. unfold record_core_wf. rewrite !andb_true_iff. tauto. Qed.

Lemma printable_state r st : printable r → printable (with_state r st).
Proof. done. Qed.

Lemma printable_revision r rev now :
  printable r → 0 < rev → time_wf now = true → printable (with_revision r rev now).
Proof.
  unfold printable, record_core_wf. simpl. rewrite <-Z.ltb_lt, !andb_true_iff. tauto.
Qed.

Lemma printable_cancellation r c :
  printable r → opt_wf cancellation_wf c = true → printable (with_cancellation r c).
Proof. unfold printable, record_core_wf. simpl. rewrite !andb_true_iff. tauto. Qed.

Lemma printable_attempts r l :
  printable r → (length l <= ATTEMPTS_MAX)%nat → attempts_wf 1 r.(broker_job_id) l = true →
  printable (with_attempts r l).
Proof.
  unfold printable, record_core_wf. simpl. rewrite <-Nat.leb_le, !andb_true_iff. tauto.
Qed.

Lemma printable_length r : printable r → (length r.(attempts) <= ATTEMPTS_MAX)%nat.
Proof. unfold printable, record_core_wf. rewrite <-Nat.leb_le, !andb_true_iff. tauto. Qed.

Lemma printable_replace r a b :
  printable r → last r.(attempts) = Some a → same_pins a b →
  (outcome_wf a = true → outcome_wf b = true) → printable (replace_attempt r b).
Proof.
  intros Hr Hl Hp Ho. unfold replace_attempt. apply printable_attempts; [done|..].
  - erewrite length_replace by done. by apply printable_length.
  - eapply attempts_wf_replace; [done| |done|done]. apply record_core_wf_attempts, Hr.
Qed.

Lemma printable_blockers r bs r' :
  printable r → parse_record (record_to_json (with_blockers r bs)) = Ok r' →
  printable (with_blockers r bs).
Proof.
  intros [Hc _] Hp. split; [done|]. unfold parse_record, record_to_json in Hp.
  cbn [with_blockers held_blockers] in *. destruct bs as [|b bs'] eqn:Ebs; [done|].
  rewrite <-Ebs in *. clear Ebs.
  cbn -[dict_of parse_blocker mapM_res parse_state intent_from_json parse_attempts] in Hp.
  destruct (mapM_res parse_blocker _) as [kvs|] eqn:E; [|done]. clear Hp.
  rewrite dict_of_id in E by (rewrite map_map; apply (dict_of_NoDup bs)).
  revert kvs E. induction (dict_of bs) as [|[k v] l IH]; simpl; [done|]. intros kvs.
  unfold parse_blocker at 1. simpl. intros E. unbind. rewrite (IH _ eq_refl).
  unfold nonempty. repeat match goal with Hb : String.eqb _ _ = false |- _ => rewrite Hb; clear Hb end.
  done.
Qed.

Lemma reserved_attempt_wf d sn root r now :
  printable r → time_wf now = true → nonempty sn.(host) = true → nonempty root = true →
  attempt_wf (1 + Z.of_nat (length r.(attempts))) r.(broker_job_id)
    (reserved_attempt d sn root r now) = true.
Proof.
  intros [Hc _] Hn Hh Hr. unfold record_core_wf, intent_valid, request_valid in Hc.
  rewrite !andb_true_iff in Hc. unfold attempt_wf, charge_wf. simpl.
  rewrite !andb_true_iff. split_and!; try tauto; try done.
  - apply Z.eqb_eq. lia.
  - apply String.eqb_refl.
  - by apply nonempty_app_r.
Qed.

Context {Hok : HashingOk H}.

Lemma fingerprint_shape r a : is_sha256_hex (transfer_fingerprint r a) = true.
Proof using Hok. apply sha256_hex_shape. Qed.

Lemma change_printable t r now r' :
  args_wf t = true → time_wf now = true → record_wf r = true → change_of t r now = Ok r' →
  printable r'.
Proof using Hok.
  intros Ha Hn Hr Hc. pose proof (record_wf_printable _ Hr) as Hp.
  pose proof (record_wf_consistent _ Hr) as Hcons.
  destruct t; simpl in Ha; open_change Hc; try open_attempt Hcons;
    try (try apply printable_state; eapply printable_replace; [done|done|done|];
         unfold outcome_wf; cbn -[is_sha256_hex transfer_fingerprint];
         rewrite ?fingerprint_shape, !andb_true_iff;
         intuition eauto using nonempty_app_r; fail).
  - eauto using printable_blockers.
  - assert (printable (with_attempts r (attempts r ++ [reserved_attempt d sn root r now]))) as [? _].
    { apply printable_attempts; [done|..].
      - rewrite length_app. simpl.
        match goal with Hl : Nat.leb _ _ = false |- _ => apply Nat.leb_gt in Hl end. lia.
      - rewrite attempts_wf_app, record_core_wf_attempts by apply Hp. simpl.
        by rewrite reserved_attempt_wf. }
    by split.
  - destruct (cancellation r) as [c|] eqn:Ec; simplify_eq; [|done].
    apply printable_cancellation; [done|]. destruct Hp as [Hp _].
    unfold record_core_wf in Hp. rewrite Ec in Hp. simpl in *. unfold cancellation_wf in *.
    simpl. rewrite !andb_true_iff in *. tauto.
  - case_bool_decide; simplify_eq; apply printable_cancellation; try done;
      simpl; unfold cancellation_wf; simpl; by rewrite Hn, Ha.
Qed.

(** A live attempt has no outcome yet. *)
Lemma unsettled_attempt a :
  attempt_contradiction a = false → a.(phase) ∈ [RESERVED; TRANSFERRING] →
  a.(target_job_id) = None ∧ a.(charge_released_at) = None ∧ a.(returned_at) = None.
Proof.
  unfold attempt_contradiction. intros Hc Hph.
  assert (phase a = RESERVED ∨ phase a = TRANSFERRING) as [Hp|Hp] by set_solver;
    rewrite Hp in Hc; destruct (target_job_id a), (charge_released_at a), (returned_at a);
    cbn in Hc; rewrite ?orb_true_r in Hc; done.
Qed.

Lemma live_unsettled r a :
  consistent r → last r.(attempts) = Some a → a.(phase) ∈ [RESERVED; TRANSFERRING] →
  a.(target_job_id) = None ∧ a.(charge_released_at) = None ∧ a.(returned_at) = None.
Proof.
  intros Hc Hl. apply unsettled_attempt, (cons_attempt _ Hc). rewrite (last_split _ _ Hl). set_solver.
Qed.

(** Rewriting the current attempt, seen from the record. *)
Lemma evolves_replace r a b st :
  last r.(attempts) = Some a → attempt_evolves a b →
  (r.(rstate) = PLACED → st = PLACED) → r.(rstate) ≠ CANCELLED →
  evolves r (with_state (replace_attempt r b) st).
Proof.
  intros Hl Hab Hp Hc. split; simpl; try done; [by eapply history_le_replace|eauto].
Qed.

Lemma with_state_same r : with_state r r.(rstate) = r.
Proof. by destruct r. Qed.

Lemma attempt_evolves_outcome a ph fp started tid acc ret why released :
  a.(phase) ≠ RETURNED → (a.(phase) = PLACED → ph = PLACED) →
  (a.(phase) ≠ RESERVED →
   ph ≠ RESERVED ∧ fp = a.(request_fingerprint) ∧ started = a.(transfer_started_at)) →
  (∀ f, a.(target_job_id) = Some f → tid = Some f) →
  (∀ f, a.(charge_released_at) = Some f → released = Some f) →
  attempt_evolves a (with_outcome a ph fp started tid acc ret why released).
Proof. intros. by split. Qed.

Lemma change_evolves t r now r' :
  record_wf r = true → change_of t r now = Ok r' → evolves r r'.
Proof.
  intros Hr Hc. pose proof (record_wf_consistent _ Hr) as Hcons.
  destruct t; open_change Hc; try open_attempt Hcons.
  1: split; simpl; solve [congruence | eauto | done].
  1: split; simpl; solve [congruence | eauto using history_le_snoc].
  3: destruct (cancellation r) as [c|] eqn:Ec; simplify_eq; split; simpl;
       try solve [congruence | done | intros; simplify_eq; eauto].
  7: case_bool_decide; simplify_eq; split; simpl;
       try solve [congruence | done | intros; destruct (cancellation r); done].
  all: try (destruct (live_unsettled _ _ Hcons Hlast) as (Ht & Hrel & _);
            [rewrite Hph; set_solver|]).
  4,6: rewrite <-with_state_same; cbn [rstate replace_attempt with_attempts].
  all: eapply evolves_replace; [done| |congruence|congruence].
  4: by split; simpl; try congruence.
  all: apply attempt_evolves_outcome; try (intuition congruence).
  by destruct (charge_released_at a).
Qed.

(** ** The store as files of readable records *)

Lemma evolves_normalise r r' : evolves r r' → evolves r (normalise r').
Proof. by intros []; split. Qed.

Lemma evolves_revision r r' rev now : evolves r r' → evolves r (with_revision r' rev now).
Proof. by intros []; split. Qed.

Lemma consistent_normalise r : consistent r ↔ consistent (normalise r).
Proof. by rewrite <-!check_consistency_spec, check_consistency_normalise. Qed.

(** What the store's own attempts satisfy beyond the consistency test: a
    reservation has not begun, and a returned attempt's charge is released. *)
Definition regular (a : BrokerAttempt) : Prop :=
  (a.(phase) = RESERVED → a.(transfer_started_at) = None ∧ a.(request_fingerprint) = None)
  ∧ (a.(phase) = RETURNED → is_some a.(charge_released_at)).

Lemma change_regular t r now r' :
  change_of t r now = Ok r' → Forall regular r.(attempts) → Forall regular r'.(attempts).
Proof.
  intros Hc Hu.
  assert (Hrep : ∀ b, regular b → Forall regular (removelast (attempts r) ++ [b])).
  { intros b Hb. apply Forall_app. split; [|by constructor].
    apply Forall_forall. intros a Ha. rewrite Forall_forall in Hu. apply Hu.
    destruct (last (attempts r)) eqn:E; [rewrite (last_split _ _ E); set_solver|].
    apply last_None in E; rewrite E in Ha; set_solver. }
  destruct t; open_change Hc; simpl; try done; try (apply Hrep; by split).
  - apply Forall_app. split; [done|]. by constructor.
  - by destruct (cancellation r); simplify_eq.
  - apply Hrep. unfold last_attempt, current_attempt in *.
    destruct (last (attempts r)) eqn:E; simplify_eq. rewrite (last_split _ _ E) in Hu.
    by apply Forall_app in Hu as [_ [? _]%Forall_cons].
  - apply Hrep. unfold last_attempt, current_attempt in *.
    destruct (last (attempts r)) eqn:E; simplify_eq. rewrite (last_split _ _ E) in Hu.
    by apply Forall_app in Hu as [_ [[? _] _]%Forall_cons]; split.
  - case_bool_decide; by simplify_eq.
Qed.

Definition file_ok (name : string) (f : rfile) : Prop :=
  ∃ r, printable r ∧ consistent r ∧ Forall regular r.(attempts) ∧ name = record_name r.(broker_job_id)
       ∧ f = RJson (record_to_json r).

Definition store_wf (s : store) : Prop := s.(closed) = false ∧ map_Forall file_ok s.(records).

Lemma record_name_inj a b : record_name a = record_name b → a = b.
Proof. apply string_app_inj_r. Qed.

Lemma printable_parse r :
  printable r → consistent r → parse_record (record_to_json r) = Ok (normalise r).
Proof.
  intros [] Hc. apply record_roundtrip_normal; [done|done|].
  by rewrite check_consistency_normalise, check_consistency_spec.
Qed.

Lemma get_written s r :
  s.(closed) = false → printable r → consistent r →
  s.(records) !! record_name r.(broker_job_id) = Some (RJson (record_to_json r)) →
  get s r.(broker_job_id) = Ok (normalise r).
Proof.
  intros Ho Hp Hc Hl. unfold get, validate_broker_job_id. rewrite Ho.
  assert (BROKER_JOB_ID_PATTERN (broker_job_id r) = true) as ->.
  { destruct Hp as [Hp _]. unfold record_core_wf in Hp. rewrite !andb_true_iff in Hp. tauto. }
  simpl. rewrite Hl, printable_parse by done. simpl. by rewrite String.eqb_refl.
Qed.

Lemma get_lookup s s' id :
  s'.(closed) = s.(closed) → s'.(records) !! record_name id = s.(records) !! record_name id →
  get s' id = get s id.
Proof.
  intros Hc Hl. unfold get, validate_broker_job_id. rewrite Hc.
  destruct (closed s), (BROKER_JOB_ID_PATTERN id); simpl; try done. by rewrite Hl.
Qed.

Lemma get_ok s id r :
  get s id = Ok r → record_wf r = true ∧ r.(broker_job_id) = id ∧ BROKER_JOB_ID_PATTERN id = true.
Proof.
  unfold get, validate_broker_job_id. destruct (closed s); [done|].
  destruct (BROKER_JOB_ID_PATTERN id); simpl; [|done].
  destruct (records s !! _) as [[j|]|]; try done. destruct (parse_record j) as [r0|] eqn:E; [|done].
  intros Hg. destruct (String.eqb_spec (broker_job_id r0) id) as [Hid|]; [|done].
  simpl in Hg. simplify_eq. eauto using parse_record_ok.
Qed.

(** Every record of a well-formed store that reads back was written by it. *)
Lemma get_regular s id r : store_wf s → get s id = Ok r → Forall regular r.(attempts).
Proof.
  intros [Ho Hs] Hg. unfold get, validate_broker_job_id in Hg. rewrite Ho in Hg.
  destruct (BROKER_JOB_ID_PATTERN id); [|done]. cbn [negb] in Hg.
  destruct (records s !! _) as [f|] eqn:E; [|done].
  destruct (Hs _ _ E) as (r0 & Hp & Hc & Hu & _ & ->). rewrite printable_parse in Hg by done.
  unbind. by simplify_eq.
Qed.

(** What [_publish] leaves behind: nothing, or the record under its name; a
    new record is withdrawn unless it was acknowledged. *)
Lemma publish_cases ev s r create out s' :
  publish ev s r create = (out, s') →
  (s' = s ∧ ∃ e, out = Err e) ∨
  (consistent r ∧ s' = set_records s (<[record_name r.(broker_job_id) := RJson (record_to_json r)]> s.(records))
   ∧ (create = true → s.(records) !! record_name r.(broker_job_id) = None ∧ out = Ok r)
   ∧ (out = Ok r ∨ out = Err OSError)).
Proof.
  unfold publish. destruct (check_consistency r) eqn:Hc; [|by intros; simplify_eq; eauto].
  assert (consistent r) by (by apply check_consistency_spec; rewrite Hc).
  repeat (case_match || case_bool_decide); intros; simplify_eq; eauto 10.
  - destruct (records s !! _) eqn:E; [done|]. left. split; [|eauto].
    destruct s. unfold set_records. simpl in *. by rewrite delete_id.
  - right. split_and!; try done. by right.
  - right. split_and!; try done; [|by left]. intros ->. simpl in *. by destruct (records s !! _).
Qed.

Lemma update_cases ev s id rev now f out s' :
  update ev s id rev now f = (out, s') →
  (s' = s ∧ ∃ e, out = Err e) ∨
  ∃ cur r', get s id = Ok cur ∧ cur.(revision) = rev ∧ time_wf now = true ∧ f cur now = Ok r'
    ∧ let r'' := with_revision r' (rev + 1) now in
      consistent r''
      ∧ s' = set_records s (<[record_name r''.(broker_job_id) := RJson (record_to_json r'')]> s.(records))
      ∧ (out = Ok r'' ∨ out = Err OSError).
Proof.
  unfold update. destruct (closed s); [by intros; simplify_eq; eauto|].
  destruct (finite_time _) as [now'|] eqn:Ht; [|by intros; simplify_eq; eauto].
  apply time_wf_finite in Ht as [-> Ht]. destruct (lock_busy ev); [by intros; simplify_eq; eauto|].
  destruct (get s id) as [cur|]; [|by intros; simplify_eq; eauto].
  destruct (Z.eqb_spec (revision cur) rev) as [<-|]; simpl; [|by intros; simplify_eq; eauto].
  destruct (f cur now) as [r'|] eqn:Hf; [|by intros; simplify_eq; eauto].
  intros [?|(? & ? & _ & ?)]%publish_cases; [by left|]. right. eauto 10.
Qed.

(** The record at a later moment: equal, or at a higher revision. *)
Definition advances (r r' : BrokerRecord) : Prop :=
  evolves r r' ∧ (r' = r ∨ r.(revision) < r'.(revision)).

#[global] Instance advances_preorder : PreOrder advances.
Proof.
  split.
  - intros r. split; [done|by left].
  - intros a b c [Hab Hr] [Hbc Hr']. split; [by transitivity b|].
    destruct Hr as [->|], Hr' as [->|]; auto; right; lia.
Qed.

(** A store at a later moment: no record is lost and each has advanced. *)
Definition store_advances (s s' : store) : Prop :=
  ∀ id r, get s id = Ok r → ∃ r', get s' id = Ok r' ∧ advances r r'.

#[global] Instance store_advances_preorder : PreOrder store_advances.
Proof.
  split.
  - intros s id r Hr. by exists r.
  - intros a b c Hab Hbc id r Hr. destruct (Hab _ _ Hr) as (r' & Hr' & ?).
    destruct (Hbc _ _ Hr') as (r'' & ? & ?). exists r''. split; [done|by transitivity r'].
Qed.

Lemma store_advances_records s s' :
  s'.(closed) = s.(closed) → s'.(records) = s.(records) → store_advances s s'.
Proof.
  intros Hc Hr id r Hg. exists r. split; [|done]. rewrite <-Hg. apply get_lookup; [done|by rewrite Hr].
Qed.

(** Writing a readable record keeps the store readable. *)
Lemma store_wf_write s r :
  store_wf s → printable r → consistent r → Forall regular r.(attempts) →
  store_wf (set_records s (<[record_name r.(broker_job_id) := RJson (record_to_json r)]> s.(records))).
Proof.
  intros [Hc Hs] Hp Hr Hu. split; [done|]. apply map_Forall_insert_2; [|done]. exists r. done.
Qed.

Lemma store_advances_write s r :
  store_wf s → printable r → consistent r →
  (∀ r0, get s r.(broker_job_id) = Ok r0 → advances r0 (normalise r)) →
  store_advances s
    (set_records s (<[record_name r.(broker_job_id) := RJson (record_to_json r)]> s.(records))).
Proof.
  intros [Hc Hs] Hp Hr Hadv id r0 Hg. destruct (decide (id = r.(broker_job_id))) as [->|Hne].
  - exists (normalise r). split; [|by apply Hadv]. apply get_written; try done. apply lookup_insert_eq.
  - exists r0. split; [|done]. rewrite <-Hg. apply get_lookup; [done|].
    apply lookup_insert_ne. intros E. by apply Hne, eq_sym, record_name_inj.
Qed.

Lemma update_sound ev s id rev now t out s' :
  store_wf s → args_wf t = true → update ev s id rev now (change_of t) = (out, s') →
  store_wf s' ∧ store_advances s s'.
Proof using Hok.
  intros Hs Ha [[-> _]|(cur & r' & Hg & <- & Hn & Hf & Hc & -> & _)]%update_cases; [done|].
  destruct (get_ok _ _ _ Hg) as (Hw & Hid & _).
  pose proof (change_evolves _ _ _ _ Hw Hf) as He.
  assert (0 < revision cur + 1).
  { apply record_wf_printable in Hw as [Hw _]. unfold record_core_wf in Hw.
    rewrite !andb_true_iff, Z.ltb_lt in Hw. lia. }
  assert (printable (with_revision r' (revision cur + 1) now)).
  { apply printable_revision; [by eapply change_printable|done|done]. }
  pose proof (change_regular _ _ _ _ Hf (get_regular _ _ _ Hs Hg)) as Hu.
  split; [by apply store_wf_write|].
  apply store_advances_write; try done.
  intros r0 Hr0. simpl in Hr0. rewrite (ev_id _ _ He), Hid, Hg in Hr0. simplify_eq. split.
  - by apply evolves_normalise, evolves_revision.
  - right. simpl. lia.
Qed.

Lemma run_transition_sound ev s id rev now t out s' :
  store_wf s → contract t = true → run_transition ev s id rev now t = (out, s') →
  store_wf s' ∧ store_advances s s'.
Proof using Hok.
  rewrite run_transition_update. unfold checked. intros Hs Hc.
  destruct (transition_args t) as [t'|] eqn:E; [|by intros; simplify_eq].
  intros Hu. eapply update_sound; [done| |done]. by eapply transition_args_wf.
Qed.

(** ** Acceptance keeps the store readable *)

Definition pending_wf (p : pending) : bool :=
  BROKER_JOB_ID_PATTERN p.(p_job_id) && intent_valid p.(p_intent) && time_wf p.(p_now)
  && is_sha256_hex p.(p_sha256) && (0 <=? p.(p_size)).

Lemma held_record_printable p :
  pending_wf p = true → printable (held_record p) ∧ consistent (held_record p).
Proof.
  unfold pending_wf. rewrite !andb_true_iff. intros. split.
  - split; [|done]. unfold record_core_wf. simpl. rewrite !andb_true_iff. tauto.
  - by apply check_consistency_spec.
Qed.

Lemma link_payload_records ev s a b c out s' :
  link_payload ev s a b c = (out, s') → s'.(records) = s.(records) ∧ s'.(closed) = s.(closed).
Proof. unfold link_payload. intros Hl. repeat case_match; by simplify_eq. Qed.

Lemma publish_new_sound ev s p out s' :
  store_wf s → pending_wf p = true → publish_new ev s p = (out, s') →
  store_wf s' ∧ store_advances s s'.
Proof.
  intros Hs Hp. destruct (held_record_printable p Hp) as [Hpr Hcons]. unfold publish_new.
  destruct (publish _ _ _ _) as [o s1] eqn:E.
  apply publish_cases in E as [[-> [e ->]]|(_ & -> & Hn & _)].
  - intros; simplify_eq. split; [done|]. by apply store_advances_records.
  - destruct (Hn eq_refl) as [Hnone ->]. intros; simplify_eq.
    split; [apply store_wf_write; try done; constructor|].
    apply store_advances_write; try done. intros r0 Hr0. exfalso.
    unfold get in Hr0. destruct Hs as [Hs _]. rewrite Hs in Hr0.
    unfold validate_broker_job_id in Hr0. destruct (BROKER_JOB_ID_PATTERN _); [|done].
    cbn [negb] in Hr0. by rewrite Hnone in Hr0.
Qed.

Lemma store_wf_records s s' :
  s'.(closed) = s.(closed) → s'.(records) = s.(records) → store_wf s → store_wf s'.
Proof. intros Hc Hr [? ?]. split; [by rewrite Hc|by rewrite Hr]. Qed.

Definition sound_step (s s' : store) : Prop := store_wf s' ∧ store_advances s s'.

Lemma sound_step_records s s1 s2 :
  store_wf s → s2.(closed) = s1.(closed) → s2.(records) = s1.(records) → sound_step s s1 →
  sound_step s s2.
Proof.
  intros Hs Hc Hr [H1 H2]. split; [by eapply store_wf_records|].
  transitivity s1; [done|by apply store_advances_records].
Qed.

Lemma sound_step_refl s : store_wf s → sound_step s s.
Proof. by split. Qed.

Lemma accept_commit_sound `{PayloadCheck} ev s p out s' :
  store_wf s → pending_wf p = true → accept_commit ev s p = (out, s') → sound_step s s'.
Proof.
  intros Hs Hp Hacc. unfold accept_commit in Hacc.
  assert (Hpub : ∀ adopt s1 o, link_payload ev s (staged_name (p_job_id p))
            (payload_name (p_job_id p)) adopt = (o, s1) → store_wf s1 ∧ sound_step s s1).
  { intros adopt s1 o [Hr Hc]%link_payload_records.
    assert (sound_step s s1) by (eapply sound_step_records; eauto using sound_step_refl).
    split; [eapply store_wf_records; eauto|done]. }
  repeat case_match; simplify_eq; try done;
    try (eapply sound_step_records; [done|..|by apply sound_step_refl]; done);
    match goal with
    | Hl : link_payload _ _ _ _ _ = (_, ?s1) |- _ =>
      destruct (Hpub _ _ _ Hl) as [Hs1 [_ Hadv]]
    end.
  - destruct (publish_new_sound _ _ _ _ _ Hs1 Hp Hacc). split; [done|by etransitivity].
  - by eapply (sound_step_records s).
  - by eapply (sound_step_records s).
  - destruct (publish_new_sound _ _ _ _ _ Hs1 Hp Hacc). split; [done|by etransitivity].
  - by eapply (sound_step_records s).
Qed.

Lemma str_take_hex n s :
  (n <= String.length s)%nat → all_chars is_lower_hex s = true →
  String.length (str_take n s) = n ∧ all_chars is_lower_hex (str_take n s) = true.
Proof.
  unfold str_take. revert n. induction s as [|c s IH]; intros [|n]; simpl; try done; [lia|].
  intros Hn [Hc Hs]%andb_true_iff. destruct (IH n) as [-> ->]; [lia|done|]. by rewrite Hc.
Qed.

Lemma broker_job_id_for_key_pattern k id :
  broker_job_id_for_key k = Ok id → BROKER_JOB_ID_PATTERN id = true.
Proof using Hok.
  unfold broker_job_id_for_key. intros Hk. unbind. injection Hk as <-.
  match goal with |- context [sha256_hex ?x] => pose proof (sha256_hex_shape x) as Hs; revert Hs;
    generalize (sha256_hex x) end. intros h Hs.
  change (fullmatch_class is_lower_hex 12 12 (str_take 12 h) = true).
  unfold is_sha256_hex, fullmatch_class, str_len in *. propify.
  destruct (str_take_hex 12 h) as [-> ->]; [lia|done|]. done.
Qed.

(** What an [accept] that is about to stage was given: a constructed intent,
    and an id of the documented form when it drew one. *)
Definition accept_args_ok (i : BrokerIntent) (key : accept_key) : bool :=
  intent_valid i && match key with Fresh id => BROKER_JOB_ID_PATTERN id | Keyed _ => true end.

Lemma accept_stage_sound ev s source i now key out s' :
  store_wf s → accept_args_ok i key = true → accept_stage ev s source i now key = (out, s') →
  sound_step s s' ∧ ∀ p, out = Ok p → pending_wf p = true.
Proof using Hok.
  unfold accept_args_ok. intros Hs [Hi Hk]%andb_true_iff Hst. unfold accept_stage in Hst.
  destruct (closed s); [by simplify_eq; split; [apply sound_step_refl|]|].
  destruct (finite_time _) as [now'|] eqn:Ht; [|by simplify_eq; split; [apply sound_step_refl|]].
  apply time_wf_finite in Ht as [-> Ht].
  destruct (match key with Keyed _ => _ | Fresh _ => _ end) as [id|] eqn:Hid in Hst;
    [|by simplify_eq; split; [apply sound_step_refl|]].
  destruct source as [bytes|]; [|by simplify_eq; split; [apply sound_step_refl|]].
  destruct (_ || _) in Hst; simplify_eq.
  - split; [|done]. by apply (sound_step_records s s); try apply sound_step_refl.
  - split; [by apply (sound_step_records s s); try apply sound_step_refl|].
    intros p [= <-]. unfold pending_wf. simpl. rewrite Hi, Ht, sha256_hex_shape.
    assert (BROKER_JOB_ID_PATTERN id = true) as ->.
    { destruct key; simplify_eq; eauto using broker_job_id_for_key_pattern. }
    simpl. apply Z.leb_le. unfold str_len. lia.
Qed.

(** ** The system: any number of processes on one store

    A step is one whole operation of one process, under any environment
    (a busy lock, a failing file system); an [accept] in progress is between
    its two steps. *)

Record system : Type := MkSystem { st : store; inflight : list pending }.

Definition initial : system :=
  {| st := {| closed := false; records := ∅; payloads := ∅; staging := ∅ |}; inflight := [] |}.

Inductive step `{PayloadCheck} : system → system → Prop :=
| step_stage ev s ps source i now key out s' :
    accept_args_ok i key = true →
    accept_stage ev s source i now key = (out, s') →
    step (MkSystem s ps) (MkSystem s' (match out with Ok p => p :: ps | Err _ => ps end))
| step_commit ev s ps1 p ps2 out s' :
    accept_commit ev s p = (out, s') →
    step (MkSystem s (ps1 ++ p :: ps2)) (MkSystem s' (ps1 ++ ps2))
| step_transition ev s ps id rev now t out s' :
    contract t = true →
    run_transition ev s id rev now t = (out, s') →
    step (MkSystem s ps) (MkSystem s' ps).

Definition system_wf (y : system) : Prop :=
  store_wf y.(st) ∧ Forall (λ p, pending_wf p = true) y.(inflight).

Lemma step_sound `{PayloadCheck} y y' :
  system_wf y → step y y' → system_wf y' ∧ store_advances y.(st) y'.(st).
Proof using Hok.
  intros [Hs Hp] Hstep. destruct Hstep as [ev s ps src i now key out s' Ha Hst
                                          |ev s ps1 p ps2 out s' Hc|ev s ps id rev now t out s' Hc Ht];
    simpl in *.
  - destruct (accept_stage_sound _ _ _ _ _ _ _ _ Hs Ha Hst) as [[? ?] Hpw]. split; [|done].
    split; [done|]. destruct out; simpl; [|done]. constructor; [by apply Hpw|done].
  - apply Forall_app in Hp as [Hp1 [Hpp Hp2]%Forall_cons].
    destruct (accept_commit_sound _ _ _ _ _ Hs Hpp Hc). split; [|done]. split; [done|].
    by apply Forall_app.
  - destruct (run_transition_sound _ _ _ _ _ _ _ _ Hs Hc Ht). by split; [split|].
Qed.

Lemma steps_sound `{PayloadCheck} y y' :
  system_wf y → rtc step y y' → system_wf y' ∧ store_advances y.(st) y'.(st).
Proof using Hok.
  intros Hy Hr. induction Hr as [y|y1 y2 y3 H12 _ IH]; [by split|].
  destruct (step_sound _ _ Hy H12) as [Hy2 ?]. destruct (IH Hy2). split; [done|by etransitivity].
Qed.

Lemma initial_wf : system_wf initial.
Proof. split; [split; [done|apply map_Forall_empty]|constructor]. Qed.
End with_hashing.
