(* ===== verification/BrokerSpec.v ===== *)
(** * What the broker store promises

    An abstract machine of one held job, the refinement of the store's
    transitions to it, and the guarantees of a run of the whole system:
    readable records, permanent history, pinned transfers, exact charges,
    idempotent acceptance. *)

From S2P Require Import Prelude Spec Overview Json BrokerRecord BrokerStore BrokerLifecycle.

(** ** The abstract job *)

(** Where an attempt goes and what it costs there. *)
Record target : Type := MkTarget {
  tg_host : string;
  tg_root : string;
  tg_key : string;
  tg_charge : BrokerCharge;
}.

Inductive phase_view : Type :=
| VHeld
| VReserved (tg : target)
| VTransferring (tg : target) (fp : string)
| VPlaced (tg : target) (fp tid : string) (settled : bool)
| VReturned
| VCancelled.

(** A job: where it is, whether its cancellation was asked for, how many
    attempts it made. *)
Record job_view : Type := Job {
  v_phase : phase_view;
  v_cancel : bool;
  v_tries : nat;
}.

(** The job may be at a target, or on its way to one. *)
Definition in_flight (ph : phase_view) : bool :=
  match ph with VHeld | VCancelled => false | _ => true end.

Inductive job_step : transition → job_view → job_view → Prop :=
| js_blockers bs n :
    job_step (TBlockers bs) (Job VHeld false n) (Job VHeld false n)
| js_reserve d sn root tg n :
    tg.(tg_host) = sn.(host) → tg.(tg_root) = root → (n < ATTEMPTS_MAX)%nat →
    job_step (TReserve d sn root) (Job VHeld false n) (Job (VReserved tg) false (S n))
| js_release why tg c n :
    job_step (TRelease why) (Job (VReserved tg) c n) (Job VReturned c n)
| js_begin tg fp n :
    job_step TBegin (Job (VReserved tg) false n) (Job (VTransferring tg fp) false n)
| js_diagnostic m tg fp c n :
    job_step (TDiagnostic m) (Job (VTransferring tg fp) c n) (Job (VTransferring tg fp) c n)
| js_placed fp tid tg c n :
    job_step (TPlaced fp tid) (Job (VTransferring tg fp) c n) (Job (VPlaced tg fp tid false) c n)
| js_fence proof tg fp c n :
    job_step (TFence proof) (Job (VTransferring tg fp) c n) (Job VReturned c n)
| js_resume n :
    job_step TResume (Job VReturned false n) (Job VHeld false n)
| js_resume_cancelled n :
    job_step TResume (Job VReturned true n) (Job VCancelled true n)
| js_settle tg fp tid c n :
    job_step TSettle (Job (VPlaced tg fp tid false) c n) (Job (VPlaced tg fp tid true) c n)
| js_cancel_held why n :
    job_step (TCancel why) (Job VHeld false n) (Job VCancelled true n)
| js_cancel_pending why ph n :
    in_flight ph = true → job_step (TCancel why) (Job ph false n) (Job ph true n).

(** The abstract job of a stored record. *)
Definition target_of (a : BrokerAttempt) : target :=
  {| tg_host := a.(target_host); tg_root := a.(target_state_root);
     tg_key := a.(idempotency_key); tg_charge := a.(charge) |}.

Definition phase_at (st : broker_state) (cur : option BrokerAttempt) : phase_view :=
  match st, cur with
  | RESERVED, Some a => VReserved (target_of a)
  | TRANSFERRING, Some a => VTransferring (target_of a) (opt_or a.(request_fingerprint) "")
  | PLACED, Some a =>
    VPlaced (target_of a) (opt_or a.(request_fingerprint) "") (opt_or a.(target_job_id) "")
      (is_some a.(charge_released_at))
  | RETURNED, _ => VReturned
  | CANCELLED, _ => VCancelled
  | _, _ => VHeld
  end.

Definition view (r : BrokerRecord) : job_view :=
  {| v_phase := phase_at r.(rstate) (current_attempt r); v_cancel := is_some r.(cancellation);
     v_tries := length r.(attempts) |}.

Lemma view_normalise r : view (normalise r) = view r.
Proof. done. Qed.

Lemma view_live r a :
  last r.(attempts) = Some a →
  view r = Job (phase_at r.(rstate) (Some a)) (is_some r.(cancellation)) (length r.(attempts)).
Proof. unfold view, current_attempt. by intros ->. Qed.

Lemma view_replace r a b st :
  last r.(attempts) = Some a →
  view (with_state (replace_attempt r b) st)
  = Job (phase_at st (Some b)) (is_some r.(cancellation)) (length r.(attempts)).
Proof.
  intros Hl. unfold view, current_attempt, replace_attempt. simpl.
  by rewrite last_snoc, (length_replace _ _ _ Hl).
Qed.

Lemma view_rewrite r a b :
  last r.(attempts) = Some a →
  view (replace_attempt r b)
  = Job (phase_at r.(rstate) (Some b)) (is_some r.(cancellation)) (length r.(attempts)).
Proof. intros Hl. rewrite <-(with_state_same (replace_attempt r b)). by apply (view_replace r a). Qed.

Lemma in_flight_view r :
  consistent r → r.(rstate) ∈ [RESERVED; TRANSFERRING; PLACED; RETURNED] →
  in_flight (phase_at r.(rstate) (current_attempt r)) = true.
Proof.
  intros Hc Hs. destruct (live_attempt r Hc Hs) as (a & -> & _ & _).
  destruct (rstate r); simpl; set_solver.
Qed.

Definition state_of_phase (ph : phase_view) : broker_state :=
  match ph with
  | VHeld => HELD | VReserved _ => RESERVED | VTransferring _ _ => TRANSFERRING
  | VPlaced _ _ _ _ => PLACED | VReturned => RETURNED | VCancelled => CANCELLED
  end.

Lemma state_of_view r :
  consistent r → r.(rstate) = state_of_phase (phase_at r.(rstate) (current_attempt r)).
Proof.
  intros Hc. destruct (rstate r) eqn:Hs; try done;
    (destruct (live_attempt r Hc) as (a & -> & _ & _); [rewrite Hs; set_solver|done]).
Qed.

Ltac rewrite_guards :=
  repeat match goal with
  | Hs : rstate _ = _ |- _ => progress rewrite !Hs
  | Hi : is_some _ = false |- _ => progress rewrite !Hi
  end.

Section with_hashing.
Context {H : Hashing} {Hok : HashingOk H}.

(** A change of the code is a step of the abstract job. *)
Lemma change_refines t r now r' :
  record_wf r = true → change_of t r now = Ok r' → job_step t (view r) (view r').
Proof.
  intros Hr Hc. pose proof (record_wf_consistent _ Hr) as Hcons.
  destruct t; open_change Hc; try open_attempt Hcons;
    repeat match goal with
    | Hl : last (attempts r) = Some _ |- context [view (with_state (replace_attempt r ?b) ?st)] =>
      rewrite (view_replace r _ b st Hl), (view_live r _ Hl)
    | Hl : last (attempts r) = Some _ |- context [view (replace_attempt r ?b)] =>
      rewrite (view_rewrite r _ b Hl), (view_live r _ Hl)
    | Hs : rstate r = _ |- context [phase_at (rstate r)] => rewrite Hs
    end; try by constructor.
  - unfold view. simpl. rewrite_guards. constructor.
  - unfold view, current_attempt. simpl. rewrite last_snoc, length_app, Nat.add_1_r.
    rewrite_guards. simpl. constructor; [done|done|by apply Nat.leb_gt].
  - unfold view. destruct (cancellation r) eqn:Ec; simplify_eq; simpl; rewrite_guards;
      rewrite ?Ec; constructor.
  - rewrite_guards. constructor.
  - simpl. destruct (live_unsettled _ _ Hcons Hlast) as (_ & -> & _); [rewrite Hph; set_solver|].
    match goal with Hf : request_fingerprint a = _ |- _ => rewrite Hf end. constructor.
  - simpl. rewrite_guards. constructor.
  - unfold view. destruct (cancellation r) eqn:Ec; [done|].
    case_bool_decide as Hs; simplify_eq; simpl; [rewrite Hs; constructor|].
    apply (js_cancel_pending why (phase_at r.(rstate) (current_attempt r))). apply in_flight_view; [done|].
    destruct (rstate r); set_solver.
Qed.

(** What the abstract phase says of the current attempt. *)
Definition attempt_view (ph : phase_view) (a : BrokerAttempt) : Prop :=
  match ph with
  | VTransferring _ fp => a.(request_fingerprint) = Some fp
  | VPlaced _ _ _ settled => is_some a.(charge_released_at) = settled
  | _ => True
  end.

Lemma attempt_of_view r :
  consistent r → r.(rstate) ≠ HELD → r.(rstate) ≠ CANCELLED →
  ∃ a, last_attempt r = Ok a ∧ attempt_view (v_phase (view r)) a.
Proof.
  intros Hc H1 H2. destruct (live_attempt r Hc) as (a & Ha & Hph & Hin);
    [destruct (rstate r); set_solver|].
  exists a. unfold last_attempt, view. rewrite Ha. split; [done|].
  pose proof (cons_attempt _ Hc a Hin) as Hcon. unfold attempt_contradiction in Hcon.
  rewrite Hph in Hcon. simpl. destruct (rstate r); simpl; try done.
  destruct (request_fingerprint a); [done|]. by destruct (transfer_started_at a).
Qed.

(** Conversely the code refuses no step of the abstract job. *)
Lemma change_enabled t r now j :
  record_wf r = true → job_step t (view r) j →
  (∀ bs, t = TBlockers bs → is_ok (parse_record (record_to_json (with_blockers r bs))) = true) →
  ∃ r', change_of t r now = Ok r'.
Proof.
  intros Hr Hstep Hbs. pose proof (record_wf_consistent _ Hr) as Hcons.
  pose proof (attempt_of_view r Hcons) as Hlive.
  assert (Hst : rstate r = state_of_phase (v_phase (view r))) by by apply state_of_view.
  assert (Hcan : is_some (cancellation r) = v_cancel (view r)) by done.
  assert (Hlen : length (attempts r) = v_tries (view r)) by done.
  remember (view r) as v eqn:Hv. clear Hv. destruct Hstep; simpl in Hst, Hcan, Hlen; cbn [change_of];
    unfold held_blockers_change, reserve_change, release_change, fence_change, resume_change,
      begin_change, diagnostic_change, placed_change, settle_change, cancel_change;
    rewrite Hst in Hlive; rewrite ?Hst, ?Hcan, ?Hlen;
    try (destruct (Hlive ltac:(done) ltac:(done)) as (a & -> & Hview); simpl in Hview);
    rewrite ?bool_decide_eq_true_2 by done; cbn [negb orb]; try by eexists.
  - specialize (Hbs _ eq_refl). destruct (parse_record _); [by eexists|done].
  - destruct (Nat.leb_spec ATTEMPTS_MAX n); [lia|by eexists].
  - destruct (cancellation r); by eexists.
  - destruct (cancellation r); by eexists.
  - rewrite Hview. by eexists.
  - assert (bool_decide (state_of_phase ph = CANCELLED) = false) as ->
      by (by destruct ph).
    case_bool_decide; by eexists.
Qed.

(** The consistency test [_publish] runs rejects no transition. *)
Lemma consistent_replace r a b st :
  consistent r → last r.(attempts) = Some a → r.(rstate) ≠ HELD → r.(rstate) ≠ CANCELLED →
  st ∉ [HELD; CANCELLED] → Some b.(phase) ∈ expected_phase st → attempt_contradiction b = false →
  consistent (with_state (replace_attempt r b) st).
Proof.
  intros [Hb He Ha Hp Hr Hcc] Hl H1 H2 H3 Hph Hok'. split; simpl.
  - left. destruct Hb as [|Hb]; [done|]. exfalso. set_solver.
  - intros x. rewrite removelast_snoc. apply He.
  - intros x [Hx| ->%list_elem_of_singleton]%elem_of_app; [|done].
    apply Ha. rewrite (last_split _ _ Hl). set_solver.
  - unfold current_attempt, replace_attempt. simpl. by rewrite last_snoc.
  - done.
  - change (completed _) with (completed r). destruct (completed r); set_solver.
Qed.

(** The current attempt of a consistent record contradicts nothing. *)
Lemma live_consistent r a :
  consistent r → last r.(attempts) = Some a → attempt_contradiction a = false.
Proof. intros Hc Hl. apply (cons_attempt _ Hc). rewrite (last_split _ _ Hl). set_solver. Qed.

Lemma live_regular r a : Forall regular r.(attempts) → last r.(attempts) = Some a → regular a.
Proof.
  intros Hu Hl. rewrite (last_split _ _ Hl) in Hu. by apply Forall_app in Hu as [_ [Hu _]%Forall_cons].
Qed.

Lemma consistent_reserve d sn root r now :
  consistent r → r.(rstate) = HELD →
  consistent (with_blockers (with_attempts (with_state r RESERVED)
    (r.(attempts) ++ [reserved_attempt d sn root r now])) []).
Proof.
  intros [Hb He Ha Hp Hr Hcc] Hs. split; simpl; try done.
  - by left.
  - intros x. rewrite removelast_snoc. unfold current_attempt in Hp, Hr. intros Hx.
    destruct (last (attempts r)) as [y|] eqn:E;
      [|apply last_None in E; rewrite E in Hx; set_solver].
    rewrite (last_split _ _ E) in Hx. apply elem_of_app in Hx as [Hx| ->%list_elem_of_singleton].
    + by apply He.
    + split; [|apply Hr; [rewrite Hs; set_solver|done]].
      rewrite Hs in Hp. simpl in Hp. set_solver.
  - intros x [Hx| ->%list_elem_of_singleton]%elem_of_app; [by apply Ha|done].
  - unfold current_attempt. simpl. rewrite last_snoc. simpl. set_solver.
  - intros x Hx. set_solver.
  - change (completed _) with (completed r). rewrite Hs in Hcc. split; [done|].
    intros Hx. by apply Hcc in Hx.
Qed.

(** A record whose last attempt is released may be held again or cancelled. *)
Lemma consistent_settled r st c :
  consistent r → st ∈ [HELD; CANCELLED] → phase <$> current_attempt r ∈ [None; Some RETURNED] →
  (∀ a, current_attempt r = Some a → is_some a.(charge_released_at)) →
  (st = CANCELLED ↔ completed (with_cancellation r c)) →
  consistent (with_cancellation (with_state r st) c).
Proof.
  intros [Hb He Ha Hp Hr Hcc] Hst Hph Hrel Hc. split; simpl; try done; [by right| |naive_solver].
  assert (st = HELD ∨ st = CANCELLED) as [-> | ->] by set_solver; done.
Qed.

Lemma with_cancellation_same r : with_cancellation r r.(cancellation) = r.
Proof. by destruct r. Qed.

Lemma fenced_prefix s : startswith (FENCED_RETURN_PREFIX +:+ s) FENCED_RETURN_PREFIX = true.
Proof. unfold startswith. simpl. by destruct s. Qed.

Lemma change_consistent t r now r' :
  record_wf r = true → Forall regular r.(attempts) → change_of t r now = Ok r' → consistent r'.
Proof.
  intros Hr Hu Hc. pose proof (record_wf_consistent _ Hr) as Hcons.
  destruct t; open_change Hc; try open_attempt Hcons.
  - destruct Hcons. split; simpl; try done. right. set_solver.
  - by apply consistent_reserve.
  - eapply consistent_replace; [done|done|congruence|congruence|set_solver|set_solver|].
    destruct (live_regular _ _ Hu Hlast) as [Hres _]. destruct Hres as [Hs Hf]; [congruence|].
    destruct (live_unsettled _ _ Hcons Hlast) as (Ht & _ & _); [rewrite Hph; set_solver|].
    unfold attempt_contradiction. simpl. by rewrite Hs, Hf, Ht.
  - eapply consistent_replace; [done|done|congruence|congruence|set_solver|set_solver|].
    destruct (live_unsettled _ _ Hcons Hlast) as (Ht & _ & _); [rewrite Hph; set_solver|].
    unfold attempt_contradiction. cbn -[FENCED_RETURN_PREFIX startswith].
    by rewrite Ht, fenced_prefix, andb_false_r.
  - destruct (live_attempt r Hcons) as (a & Ha & Hph & _); [set_solver|].
    assert (Hrel : is_some (charge_released_at a))
      by (apply (live_regular r a Hu); [exact Ha|congruence]).
    assert (phase <$> current_attempt r ∈ [None; Some RETURNED]) as Hin.
    { rewrite Ha. simpl. rewrite Hph, Heqb. set_solver. }
    destruct (cancellation r) as [c|] eqn:Ec; simplify_eq.
    + apply consistent_settled; [done|set_solver|done|naive_solver|done].
    + rewrite <-(with_cancellation_same (with_state r HELD)). simpl.
      apply consistent_settled; [done|set_solver|done|naive_solver|].
      unfold completed. simpl. by rewrite Ec.
  - eapply consistent_replace; [done|done|congruence|congruence|set_solver|set_solver|].
    destruct (live_unsettled _ _ Hcons Hlast) as (Ht & Hrel & Hret); [rewrite Hph; set_solver|].
    unfold attempt_contradiction. simpl. by rewrite Ht, Hrel, Hret.
  - rewrite <-with_state_same.
    eapply consistent_replace; [done|done|congruence|congruence|simpl; rewrite Heqb; set_solver|simpl|].
    { rewrite Hph, Heqb. set_solver. }
    exact (live_consistent r a Hcons Hlast).
  - eapply consistent_replace; [done|done|congruence|congruence|set_solver|set_solver|].
    destruct (live_unsettled _ _ Hcons Hlast) as (_ & Hrel & Hret); [rewrite Hph; set_solver|].
    pose proof (live_consistent _ _ Hcons Hlast) as Hcon. revert Hcon.
    unfold attempt_contradiction. rewrite Hph, Heqb. simpl.
    rewrite Hrel, Hret, !orb_false_r. destruct (is_some _ && is_some _); done.
  - rewrite <-with_state_same.
    eapply consistent_replace; [done|done|congruence|congruence|simpl; rewrite Heqb; set_solver|simpl|].
    + rewrite Hph, Heqb. set_solver.
    + pose proof (live_consistent _ _ Hcons Hlast) as Hcon. revert Hcon.
      unfold attempt_contradiction. simpl. rewrite Hph, Heqb. simpl.
      by rewrite !orb_false_r.
  - destruct (cancellation r) as [c|] eqn:Ec; [done|].
    case_bool_decide as Hs; simplify_eq.
    + apply consistent_settled; [done|set_solver| | |done].
      * pose proof (cons_phase _ Hcons) as Hp. by rewrite Hs in Hp.
      * intros a. apply (cons_released _ Hcons). rewrite Hs. set_solver.
    + destruct Hcons as [Hb He Ha Hp Hr' Hcc]. by split.
Qed.

(** ** Reading a well-formed store *)

Lemma record_name_endswith id :
  endswith (record_name id) ".tmp" = false ∧ endswith (record_name id) ".json" = true.
Proof.
  unfold endswith, record_name. rewrite !string_rev_app. simpl.
  split; [done|]. by destruct (string_rev id).
Qed.

Lemma substring_app s t : String.substring 0 (String.length s) (s +:+ t) = s.
Proof. induction s as [|c s IH]; simpl; [by destruct t|]. by rewrite IH. Qed.

Lemma drop_json_name id : drop_json (record_name id) = id.
Proof.
  unfold drop_json, record_name, str_take. rewrite string_length_app. simpl String.length.
  rewrite Nat.add_sub. apply substring_app.
Qed.

Lemma file_ok_get s name f :
  store_wf s → s.(records) !! name = Some f →
  ∃ r, name = record_name r.(broker_job_id) ∧ get s r.(broker_job_id) = Ok r
       ∧ BROKER_JOB_ID_PATTERN r.(broker_job_id) = true.
Proof.
  intros [Ho Hs] Hl. destruct (Hs _ _ Hl) as (r & Hp & Hc & _ & -> & ->).
  pose proof (get_written s r Ho Hp Hc Hl) as Hg. exists (normalise r). split; [done|].
  split; [done|]. by apply get_ok in Hg as (_ & _ & Hpat).
Qed.

Lemma scan_names_wf s names :
  store_wf s → (∀ n, n ∈ names → is_some (s.(records) !! n)) →
  ∃ rs, scan_names s names = Ok (rs, [])
        ∧ Forall2 (λ r n, n = record_name r.(broker_job_id) ∧ get s r.(broker_job_id) = Ok r) rs names.
Proof.
  intros Hs. induction names as [|n names IH]; intros Hn; [by exists []|].
  destruct IH as (rs & IH & HF); [set_solver|].
  assert (is_some (records s !! n)) as Hl by set_solver.
  destruct (records s !! n) as [f|] eqn:E; [|done].
  destruct (file_ok_get _ _ _ Hs E) as (r & -> & Hg & Hp). exists (r :: rs). simpl.
  destruct (record_name_endswith (broker_job_id r)) as [-> ->]. simpl.
  rewrite drop_json_name, Hp. simpl. rewrite Hg, IH. simpl. split; [done|]. by constructor.
Qed.

Lemma elem_of_record_names s n : n ∈ record_names s ↔ is_some (s.(records) !! n).
Proof.
  unfold record_names. rewrite elem_of_sort_by, list_elem_of_fmap. split.
  - intros ([k f] & -> & Hk). apply elem_of_map_to_list in Hk. simpl. by rewrite Hk.
  - destruct (records s !! n) as [f|] eqn:E; [|done]. intros _. exists (n, f).
    by rewrite elem_of_map_to_list.
Qed.

(** The scan of a well-formed store: every record once, no refusal. *)
Lemma scan_wf s :
  store_wf s →
  ∃ rs, scan s = Ok (rs, []) ∧ NoDup (map broker_job_id rs)
        ∧ ∀ r, r ∈ rs ↔ get s r.(broker_job_id) = Ok r.
Proof.
  intros Hs. destruct (scan_names_wf s (record_names s) Hs) as (rs & Hrs & HF).
  { intros n. apply elem_of_record_names. }
  exists rs. unfold scan. destruct (Hs) as [Ho _]. rewrite Ho. split; [done|].
  assert (record_names s = map (λ r, record_name (broker_job_id r)) rs) as Hnames.
  { clear -HF. induction HF as [|r n rs ns [-> _] _ IH]; simpl; [done|]. by rewrite <-IH. }
  split.
  - apply (NoDup_fmap_1 record_name). unfold fmap, list_fmap.
    assert (map record_name (map broker_job_id rs) = record_names s) as E
      by (rewrite Hnames; apply map_map).
    change (NoDup (map record_name (map broker_job_id rs))). rewrite E.
    unfold record_names. rewrite sort_by_perm. apply NoDup_fst_map_to_list.
  - intros r. split.
    + intros Hr. by destruct (Forall2_in_l _ _ _ _ HF Hr) as (n & _ & _ & ?).
    + intros Hg.
      assert (record_name (broker_job_id r) ∈ record_names s) as Hin.
      { apply elem_of_record_names. unfold get in Hg. rewrite Ho in Hg.
        unfold validate_broker_job_id in Hg. destruct (BROKER_JOB_ID_PATTERN _); [|done].
        cbn [negb] in Hg. by destruct (records s !! _). }
      destruct (Forall2_in_r _ _ _ _ HF Hin) as (r' & Hr' & Hn & Hg').
      apply record_name_inj in Hn. rewrite <-Hn in Hg'. assert (r' = r) as <- by congruence. done.
Qed.
End with_hashing.
