(* ===== verification/BrokerGuarantees.v ===== *)
(** * The broker store's guarantees

    The properties of [src/vq/broker_store.py] the rest of the broker relies
    on, each about stores the operations can reach or about one operation on
    any of them, with witnesses on a small store. *)

From S2P Require Import Prelude Spec Overview Json BrokerRecord BrokerStore BrokerLifecycle BrokerSpec.

Section guarantees.
Context {H : Hashing} {Hok : HashingOk H} {P : PayloadCheck}.

Definition sys_reachable (y : system) : Prop := rtc step initial y.

Lemma reachable_wf y : sys_reachable y → store_wf y.(st).
Proof using Hok. intros Hr. apply (steps_sound _ _ initial_wf) in Hr as [[? _] _]. done. Qed.

(** ** Charges *)

Inductive resource : Type := Cpus | Memory | Slots.

Definition amount (k : resource) (c : BrokerCharge) : Z :=
  match k with Cpus => c.(c_cpus) | Memory => c.(c_mem_mb) | Slots => c.(c_job_slots) end.

Definition charged (k : resource) (totals : list (string * BrokerCharge)) (h : string) : Z :=
  match assoc h totals with Some c => amount k c | None => 0 end.

(** What a job in this phase occupies at a host. *)
Definition phase_charge (k : resource) (h : string) (ph : phase_view) : Z :=
  match ph with
  | VReserved tg | VTransferring tg _ | VPlaced tg _ _ false =>
    if String.eqb tg.(tg_host) h then amount k tg.(tg_charge) else 0
  | _ => 0
  end.

Definition attempt_charge (k : resource) (h : string) (a : BrokerAttempt) : Z :=
  if negb (is_some a.(charge_released_at)) && String.eqb a.(target_host) h
  then amount k a.(charge) else 0.

Lemma assoc_assoc_set {A} h k (v : A) l :
  assoc h (assoc_set k v l) = if String.eqb h k then Some v else assoc h l.
Proof.
  induction l as [|[k' v'] l IH]; simpl; [done|].
  destruct (String.eqb_spec k k') as [->|Hne]; simpl.
  - by destruct (String.eqb h k').
  - rewrite IH. destruct (String.eqb_spec h k') as [->|]; [|done].
    destruct (String.eqb_spec k' k); [congruence|done].
Qed.

Lemma add_charge_charged k h totals a :
  charged k (add_charge totals a) h = charged k totals h + attempt_charge k h a.
Proof.
  unfold add_charge, charged, attempt_charge. destruct (is_some (charge_released_at a)); simpl; [lia|].
  rewrite assoc_assoc_set, (String.eqb_sym h).
  destruct (String.eqb_spec (target_host a) h) as [<-|]; [|lia].
  destruct (assoc _ totals); destruct k; simpl; lia.
Qed.

Lemma foldl_charged {A} k h (step : list (string * BrokerCharge) → A → _) (f : A → Z) l totals :
  (∀ t x, charged k (step t x) h = charged k t h + f x) →
  charged k (foldl step totals l) h = charged k totals h + sumZ f l.
Proof.
  intros Hs. revert totals. induction l as [|x l IH]; intros totals; simpl; [lia|].
  rewrite IH, Hs. lia.
Qed.

(** Only the current attempt of a record can hold a charge. *)
Lemma record_charge k h r :
  consistent r → Forall regular r.(attempts) →
  sumZ (attempt_charge k h) r.(attempts) = phase_charge k h (v_phase (view r)).
Proof.
  intros Hc Hu. unfold view, current_attempt. simpl.
  assert (Hearly : sumZ (attempt_charge k h) (removelast (attempts r)) = 0).
  { assert (∀ a, a ∈ removelast (attempts r) → attempt_charge k h a = 0) as Hz.
    { intros a Ha. destruct (cons_earlier _ Hc a Ha) as [_ Hr]. unfold attempt_charge.
      by destruct (is_some _). }
    induction (removelast (attempts r)) as [|a l IH]; simpl; [done|].
    rewrite Hz, IH by set_solver. done. }
  destruct (last (attempts r)) as [a|] eqn:E.
  - rewrite (last_split _ _ E), sumZ_app, Hearly. simpl.
    pose proof (cons_phase _ Hc) as Hp. unfold current_attempt in Hp. rewrite E in Hp. simpl in Hp.
    pose proof (cons_released _ Hc a) as Hrel. unfold current_attempt in Hrel. rewrite E in Hrel.
    destruct (live_regular _ _ Hu E) as [_ Hret].
    destruct (rstate r) eqn:Hs; simpl in *; unfold attempt_charge; simpl.
    + specialize (Hrel ltac:(set_solver) eq_refl). by destruct (is_some _).
    + destruct (live_unsettled _ _ Hc E) as (_ & -> & _); [set_solver|]. simpl. lia.
    + destruct (live_unsettled _ _ Hc E) as (_ & -> & _); [set_solver|]. simpl. lia.
    + destruct (is_some _); simpl; lia.
    + assert (phase a = RETURNED) as Hph by set_solver. specialize (Hret Hph).
      by destruct (is_some _).
    + specialize (Hrel ltac:(set_solver) eq_refl). by destruct (is_some _).
  - apply last_None in E. rewrite E. by destruct (rstate r).
Qed.

(** In every reachable store the broker's view of the capacity it has
    promised is exact: [outstanding_charges] succeeds, and at each host it is
    the sum, over the records, of the charge of the job's current placement
    while that is reserved, in transfer, or placed and not yet settled. *)
Theorem outstanding_charges_exact y :
  sys_reachable y →
  ∃ rs totals, scan y.(st) = Ok (rs, []) ∧ outstanding_charges y.(st) = Ok totals
    ∧ ∀ k h, charged k totals h = sumZ (λ r, phase_charge k h (v_phase (view r))) rs.
Proof using Hok.
  intros Hs%reachable_wf. destruct (scan_wf _ Hs) as (rs & Hscan & _ & Hin).
  exists rs. eexists. unfold outstanding_charges. rewrite Hscan. split_and!; [done|done|].
  intros k h. rewrite (foldl_charged k h _ (λ r, sumZ (attempt_charge k h) (attempts r))).
  - unfold charged. simpl. apply sumZ_ext. intros r Hr. apply Hin in Hr.
    apply record_charge; [|by eapply get_regular].
    by apply record_wf_consistent, (get_ok _ _ _ Hr).
  - intros t r. apply foldl_charged. intros. apply add_charge_charged.
Qed.

(** ** Readable records *)

(** Whatever the interleaving of accepts and transitions and wherever
    file-system operations fail, the store stays readable: a scan lists every
    record exactly once, reports no unusable entry, and each listed record is
    what [get] returns for its id. *)
Theorem reachable_scan y :
  sys_reachable y →
  ∃ rs, scan y.(st) = Ok (rs, []) ∧ NoDup (map broker_job_id rs)
        ∧ ∀ r, r ∈ rs ↔ get y.(st) r.(broker_job_id) = Ok r.
Proof using Hok. intros Hs%reachable_wf. by apply scan_wf. Qed.

(** ** Refinement *)

(** One successful transition, seen from the store before and after. *)
Lemma run_transition_ok s ev id rev now t r' s' :
  store_wf s → contract t = true → run_transition ev s id rev now t = (Ok r', s') →
  ∃ r t', get s id = Ok r ∧ r.(revision) = rev ∧ transition_args t = Ok t'
    ∧ job_step t' (view r) (view r') ∧ r'.(revision) = rev + 1
    ∧ get s' id = Ok (normalise r') ∧ ∀ id', id' ≠ id → get s' id' = get s id'.
Proof using Hok.
  intros Hs Hc. rewrite run_transition_update. unfold checked.
  destruct (transition_args t) as [t'|] eqn:Ha; [|done].
  intros [[_ [? ?]]|(r & r1 & Hg & Hrev & Hn & Hf & Hcons & -> & Hout)]%update_cases; [done|].
  destruct Hout as [[= ->]|?]; [|done].
  destruct (get_ok _ _ _ Hg) as (Hw & Hid & _).
  pose proof (change_printable _ _ _ _ (transition_args_wf _ _ Hc Ha) Hn Hw Hf) as Hp.
  pose proof (ev_id _ _ (change_evolves _ _ _ _ Hw Hf)) as Hid'.
  assert (0 < rev + 1).
  { apply record_wf_printable in Hw as [Hw' _]. unfold record_core_wf in Hw'.
    rewrite !andb_true_iff, Z.ltb_lt in Hw'. lia. }
  exists r, t'. split_and!; try done.
  - exact (change_refines _ _ _ _ Hw Hf).
  - assert (id = broker_job_id (with_revision r1 (rev + 1) now)) as -> by (simpl; congruence).
    apply get_written; [apply Hs|by apply printable_revision|done|apply lookup_insert_eq].
  - intros id' Hne. apply get_lookup; [done|]. apply lookup_insert_ne. simpl.
    intros E%record_name_inj. congruence.
Qed.

(** C4: a transition that succeeds on a reachable store is a step of the
    abstract job: it read the record at exactly the caller's revision, moved
    it as the abstract machine allows, wrote it back one revision higher, and
    touched no other record. *)
Theorem transition_refines y ev id rev now t r' s' :
  sys_reachable y → contract t = true → run_transition ev y.(st) id rev now t = (Ok r', s') →
  ∃ r t', get y.(st) id = Ok r ∧ r.(revision) = rev ∧ transition_args t = Ok t'
    ∧ job_step t' (view r) (view r') ∧ r'.(revision) = rev + 1
    ∧ get s' id = Ok (normalise r') ∧ ∀ id', id' ≠ id → get s' id' = get y.(st) id'.
Proof using Hok. intros Hs%reachable_wf. by apply run_transition_ok. Qed.

(** The record a transition writes, and the store that holds it. *)
Definition written (s : store) (r : BrokerRecord) : store :=
  set_records s (<[record_name r.(broker_job_id) := RJson (record_to_json r)]> s.(records)).

(** Conversely every step of the abstract job is available: with the
    current revision, a free lock and working storage, the operation succeeds
    unless the new record exceeds the size limit, which leaves the store
    unchanged; the consistency test never rejects a legal transition. *)
Theorem transition_progress y id now t t' r j :
  sys_reachable y → get y.(st) id = Ok r → transition_args t = Ok t' → time_wf now = true →
  job_step t' (view r) j →
  (∀ bs, t' = TBlockers bs → is_ok (parse_record (record_to_json (with_blockers r bs))) = true) →
  ∃ r1, change_of t' r now = Ok r1 ∧
    let r' := with_revision r1 (r.(revision) + 1) now in
    run_transition calm y.(st) id r.(revision) now t =
    if RECORD_MAX_BYTES <? str_len (canonical_json (record_to_json r'))
    then (Err StoreError, y.(st)) else (Ok r', written y.(st) r').
Proof using Hok.
  intros Hs%reachable_wf Hg Ha Hn Hstep Hbs. destruct (get_ok _ _ _ Hg) as (Hw & _ & _).
  destruct (change_enabled t' r now j Hw Hstep Hbs) as [r1 Hf]. exists r1. split; [done|].
  pose proof (change_consistent _ _ _ _ Hw (get_regular _ _ _ Hs Hg) Hf) as Hc. intros r'.
  rewrite run_transition_update, Ha. unfold checked, update. rewrite (proj1 Hs), Hg.
  assert (finite_time (NFloat now) = Ok now) as ->.
  { unfold finite_time, time_wf in *. simpl. by destruct (isfinite now), (fltb now fzero). }
  cbn [lock_busy calm]. rewrite Z.eqb_refl. cbn [negb]. rewrite Hf. fold r'.
  unfold publish. assert (check_consistency r' = Ok tt) as ->; [|by case_match].
  assert (consistent r') as Hc' by (by destruct Hc; split).
  apply check_consistency_spec in Hc'. by destruct (check_consistency r') as [[]|].
Qed.

(** ** Optimistic concurrency *)

Lemma no_overwrite s id rev now t ev r :
  get s id = Ok r → r.(revision) ≠ rev →
  ∃ e, run_transition ev s id rev now t = (Err e, s).
Proof.
  intros Hg Hne. rewrite run_transition_update. unfold checked.
  destruct (transition_args t) as [t'|]; [|eauto].
  destruct (update ev s id rev now (change_of t')) as [out s'] eqn:E.
  apply update_cases in E as [[-> [e ->]]|(r0 & ? & Hg' & ? & _)]; [eauto|]. congruence.
Qed.

(** No lost update: once a transition at some revision has succeeded, no
    transition of any process at that revision or an older one can succeed
    on that record in any later store, and the refused one changes nothing. *)
Theorem no_lost_update y y' ev ev' id rev rev' now now' t t' r1 s1 :
  sys_reachable y → contract t = true → run_transition ev y.(st) id rev now t = (Ok r1, s1) →
  rtc step (MkSystem s1 y.(inflight)) y' → rev' <= rev →
  ∃ e, run_transition ev' y'.(st) id rev' now' t' = (Err e, y'.(st)).
Proof using Hok.
  intros Hy Hc Hrun Hsteps Hle.
  destruct (run_transition_ok _ _ _ _ _ _ _ _ (reachable_wf _ Hy) Hc Hrun)
    as (r & t1 & Hg & Hrev & _ & _ & Hrev1 & Hg1 & _).
  assert (system_wf (MkSystem s1 (inflight y))) as Hwf.
  { apply (steps_sound _ _ initial_wf) in Hy as [Hy _]. eapply step_sound; [done|].
    destruct y. simpl in *. by eapply step_transition. }
  destruct (steps_sound _ _ Hwf Hsteps) as [_ Hadv].
  destruct (Hadv _ _ Hg1) as (r2 & Hg2 & _ & Hmono). eapply no_overwrite; [done|].
  assert (revision (normalise r1) <= revision r2) by (destruct Hmono as [->|]; lia).
  simpl in *. lia.
Qed.

(** ** History *)

(** C21: an accepted record is permanent: after any further steps of any
    processes it is still there, unchanged or at a higher revision; its
    intent and payload are the same, every attempt made keeps its target,
    charge and (once begun) fingerprint, a returned attempt never changes, a
    recorded acceptance stays recorded, a cancellation is not forgotten, and
    a placed or cancelled job stays so. *)
Theorem history_permanent y y' id r :
  sys_reachable y → rtc step y y' → get y.(st) id = Ok r →
  ∃ r', get y'.(st) id = Ok r' ∧ evolves r r' ∧ (r' = r ∨ r.(revision) < r'.(revision)).
Proof using Hok.
  intros Hy Hsteps Hg. apply (steps_sound _ _ initial_wf) in Hy as [Hy _].
  destruct (steps_sound _ _ Hy Hsteps) as [_ Hadv]. exact (Hadv _ _ Hg).
Qed.

(** An attempt a target may have accepted: its submission may have been sent
    and no fence says it never will be. *)
Definition in_doubt (a : BrokerAttempt) : bool :=
  is_some a.(transfer_started_at)
  && negb (bool_decide (a.(phase) = RETURNED)
           && startswith (opt_or a.(return_reason) "") FENCED_RETURN_PREFIX).

(** C5: a job is never in two places: in every record of a reachable store at
    most the current attempt may have reached a target; every earlier one was
    returned, its charge released, and if its transfer had begun a fence on
    the target is on record. *)
Theorem single_attempt_in_doubt y id r i a :
  sys_reachable y → get y.(st) id = Ok r → r.(attempts) !! i = Some a → in_doubt a = true →
  i = pred (length r.(attempts)) ∧ a.(phase) ∈ [TRANSFERRING; PLACED]
  ∧ r.(rstate) = a.(phase) ∧ is_some a.(request_fingerprint).
Proof using Hok.
  intros Hs%reachable_wf Hg Hi Hd. destruct (get_ok _ _ _ Hg) as (Hw & _ & _).
  pose proof (record_wf_consistent _ Hw) as Hc. pose proof (get_regular _ _ _ Hs Hg) as Hu.
  unfold in_doubt in Hd. apply andb_true_iff in Hd as [Hst Hd].
  pose proof (cons_attempt _ Hc a (list_elem_of_lookup_2 _ _ _ Hi)) as Hcon.
  assert (Hnr : phase a ≠ RETURNED).
  { intros Hr. unfold attempt_contradiction in Hcon. rewrite Hr, Hst in Hcon.
    rewrite Hr in Hd. destruct (startswith _ _); [done|]. by cbn in Hcon. }
  assert (Hnres : phase a ≠ RESERVED).
  { intros Hr. rewrite Forall_forall in Hu.
    destruct (Hu a (list_elem_of_lookup_2 _ _ _ Hi)) as [Hres _].
    destruct (Hres Hr) as [Hz _]. by rewrite Hz in Hst. }
  assert (Hlast : last (attempts r) = Some a ∧ i = pred (length (attempts r))).
  { destruct (last (attempts r)) as [b|] eqn:E.
    - pose proof (last_split _ _ E) as Hsp. rewrite Hsp in Hi.
      apply lookup_app_Some in Hi as [Hi|[Hle Hi]].
      + by destruct (cons_earlier _ Hc a (list_elem_of_lookup_2 _ _ _ Hi)).
      + apply list_lookup_singleton_Some in Hi as [Hz ->]. split; [done|].
        rewrite Hsp, length_app. simpl. lia.
    - apply last_None in E. by rewrite E in Hi. }
  destruct Hlast as [Hl ->]. split; [done|].
  pose proof (cons_phase _ Hc) as Hp. unfold current_attempt in Hp. rewrite Hl in Hp. simpl in Hp.
  assert (Hrs : rstate r = phase a) by (destruct (rstate r); simpl in Hp; set_solver).
  assert (Hph : phase a ∈ [TRANSFERRING; PLACED]).
  { rewrite <-Hrs in Hnr, Hnres, Hp |- *. destruct (rstate r); simpl in Hp; set_solver. }
  split_and!; [done|done|]. unfold attempt_contradiction in Hcon.
  rewrite (bool_decide_eq_true_2 _ Hph), Hst in Hcon. by destruct (is_some (request_fingerprint a)).
Qed.

(** ** Transfers *)

Lemma transfer_request_fields s r q :
  transfer_request s r = Ok q →
  ∃ a, current_attempt r = Some a ∧ get s r.(broker_job_id) = Ok r ∧ r.(rstate) = TRANSFERRING
    ∧ q.(t_broker_job_id) = r.(broker_job_id)
    ∧ q.(t_target_host) = a.(target_host) ∧ q.(t_target_state_root) = a.(target_state_root)
    ∧ q.(t_idempotency_key) = a.(idempotency_key)
    ∧ q.(t_request_fingerprint) = a.(request_fingerprint)
    ∧ a.(request_fingerprint) = Some (transfer_fingerprint r a)
    ∧ verify_payload s r = Ok q.(t_payload_path) ∧ q.(t_payload_path) = payload_name r.(broker_job_id)
    ∧ q.(t_intent) = r.(intent) ∧ expected_sha_for r.(intent) a.(snapshot) = Ok q.(t_expected_sha)
    ∧ q.(t_authority) = assoc "authority" a.(snapshot).
Proof.
  unfold transfer_request. intros Hq. unbind. propify. subst.
  unfold last_attempt in *. destruct (current_attempt r) as [a'|]; [|done]. simplify_eq.
  exists a0. simpl. split_and!; try done. unfold verify_payload in *. crush.
Qed.

Lemma current_evolves r r' a b :
  history_le r.(attempts) r'.(attempts) → length r'.(attempts) = length r.(attempts) →
  current_attempt r = Some a → current_attempt r' = Some b → attempt_evolves a b.
Proof.
  intros (l1 & l2 & E & HF) Hlen Ha Hb. unfold current_attempt in *.
  rewrite last_lookup in Ha, Hb. rewrite Hlen, E in Hb.
  pose proof (Forall2_length _ _ _ HF). pose proof (lookup_lt_Some _ _ _ Ha).
  rewrite lookup_app_l in Hb by lia. by eapply Forall2_lookup_lr.
Qed.

(** A transfer is replayed identically: however often the keyed request
    of one attempt is built, and whatever happened in between, it names the
    same host, state root, idempotency key, fingerprint, payload, intent,
    runtime pin and authority. *)
Theorem transfer_request_stable y y' id r r' q q' :
  sys_reachable y → rtc step y y' → get y.(st) id = Ok r → get y'.(st) id = Ok r' →
  length r'.(attempts) = length r.(attempts) →
  transfer_request y.(st) r = Ok q → transfer_request y'.(st) r' = Ok q' → q' = q.
Proof using Hok.
  intros Hy Hsteps Hg Hg' Hlen Hq Hq'.
  apply (steps_sound _ _ initial_wf) in Hy as [Hy _].
  destruct (steps_sound _ _ Hy Hsteps) as [_ Hadv].
  destruct (Hadv _ _ Hg) as (r1 & Hg1 & Hev & _). rewrite Hg' in Hg1. simplify_eq.
  apply transfer_request_fields in Hq as (a & Ha & _ & Hs & ? & ? & ? & ? & ? & ? & ? & ? & ? & ? & ?).
  apply transfer_request_fields in Hq' as (b & Hb & _ & _ & ? & ? & ? & ? & ? & ? & ? & ? & ? & ? & ?).
  pose proof (current_evolves _ _ _ _ (ev_history _ _ Hev) Hlen Ha Hb) as Hab.
  destruct Hev as [Hid _ Hint _ _ _ _ _ _]. destruct (ae_pins _ _ Hab) as (_&?&?&_&_&_&?&_&_&?).
  assert (phase a = TRANSFERRING) as Hph.
  { destruct (get_ok _ _ _ Hg) as (Hw & _). apply record_wf_consistent in Hw.
    destruct (live_attempt r Hw) as (a' & Ha' & ? & _); [set_solver|]. congruence. }
  destruct (ae_begun _ _ Hab) as (_ & ? & _); [congruence|].
  destruct q, q'. simpl in *. f_equal; congruence.
Qed.

(** ** Acceptance *)

Lemma publish_new_cases ev s p out s' :
  publish_new ev s p = (out, s') →
  match out with
  | Err _ => s'.(records) = s.(records)
  | Ok r => r = held_record p ∧ s.(records) !! record_name p.(p_job_id) = None
            ∧ s' = written s r
  end.
Proof.
  unfold publish_new. destruct (publish _ _ _ _) as [o s1] eqn:E.
  apply publish_cases in E as [[-> [e ->]]|(_ & -> & Hn & _)]; [by intros; simplify_eq|].
  destruct (Hn eq_refl) as [Hnone ->]. by intros; simplify_eq.
Qed.

Lemma link_payload_ok ev s staged final adopt s' bytes :
  s.(staging) !! staged = Some bytes → link_payload ev s staged final adopt = (Ok tt, s') →
  ∃ stored, s'.(payloads) !! final = Some stored
            ∧ (stored = bytes ∨ adopt = Some (sha256_hex stored)).
Proof.
  intros Hb. unfold link_payload. rewrite Hb. case_bool_decide; [done|].
  destruct (payloads s !! final) as [old|] eqn:E; simpl.
  - unfold stored_payload_sha256. rewrite E. simpl. intros Hl.
    destruct adopt as [sha|]; simpl in Hl; [|done]. case_bool_decide; [|done].
    case_bool_decide; [done|]. simplify_eq. simpl. exists old. rewrite E. split; [done|by right].
  - case_bool_decide; [done|]. intros; simplify_eq. simpl. exists bytes.
    rewrite lookup_insert_eq. split; [done|by left].
Qed.

Definition accept_outcome (s : store) (i : BrokerIntent) (out : res broker_error BrokerRecord)
    (s' : store) : Prop :=
  match out with
  | Err _ => s'.(records) = s.(records)
  | Ok r =>
    (s'.(records) = s.(records) ∧ get s r.(broker_job_id) = Ok r)
    ∨ (s.(records) !! record_name r.(broker_job_id) = None
       ∧ s'.(records) = <[record_name r.(broker_job_id) := RJson (record_to_json r)]> s.(records)
       ∧ r.(intent) = i ∧ r.(rstate) = HELD
       ∧ ∃ stored, s'.(payloads) !! payload_name r.(broker_job_id) = Some stored
                   ∧ sha256_hex stored = r.(payload_sha256))
  end.

Lemma accept_outcome_ok ev s source i now key :
  let '(out, s') := accept ev s source i now key in
  accept_outcome s i out s'.
Proof.
  unfold accept. destruct (accept_stage ev s source i now key) as [[p|e] s1] eqn:Es.
  2: { unfold accept_stage in Es. crush. }
  assert (∃ bytes, staging s1 !! staged_name (p_job_id p) = Some bytes
          ∧ p_sha256 p = sha256_hex bytes ∧ p_intent p = i
          ∧ records s1 = records s ∧ closed s1 = closed s) as (bytes & Hb & Hsha & Hi & Hr1 & Hc1).
  { unfold accept_stage in Es. crush; eexists; rewrite lookup_insert_eq; done. }
  destruct (accept_commit ev s1 p) as [out s2] eqn:Ec. unfold accept_commit in Ec.
  rewrite Hb in Ec.
  assert (Hpub : ∀ adopt s3, adopt = None ∨ adopt = Some (p_sha256 p) →
    link_payload ev s1 (staged_name (p_job_id p)) (payload_name (p_job_id p)) adopt = (Ok tt, s3) →
    publish_new ev s3 p = (out, s2) → accept_outcome s i out s2).
  { intros adopt s3 Ha Hl Hp. destruct (link_payload_records _ _ _ _ _ _ _ Hl) as [Hr3 _].
    destruct (link_payload_ok _ _ _ _ _ _ _ Hb Hl) as (stored & Hst & Hor).
    apply publish_new_cases in Hp. destruct out as [r|]; simpl; [|congruence].
    destruct Hp as (-> & Hnone & ->). right. simpl. rewrite Hr3, Hr1 in *.
    split_and!; try done. exists stored. split; [done|]. 
    destruct Ha as [->| ->], Hor as [->|Hor]; congruence. }
  destruct (is_tarfile bytes); [|cbn [negb] in Ec; simplify_eq; exact Hr1]. destruct (staged_entrypoint_ok _ _); [|cbn [negb] in Ec; simplify_eq; exact Hr1].
  cbn [negb] in Ec. destruct (p_keyed p).
  - destruct (lock_busy ev); [simplify_eq; exact Hr1|].
    destruct (existing_record s1 (p_job_id p)) as [[r|]|e] eqn:Ex; [| |simplify_eq; exact Hr1].
    + assert (get s (broker_job_id r) = Ok r).
      { unfold existing_record in Ex. destruct (get s1 _) as [r0|e0] eqn:Hg; [|by destruct e0].
        simplify_eq. destruct (get_ok _ _ _ Hg) as (_ & -> & _). rewrite <-Hg.
        apply get_lookup; [done|by rewrite Hr1]. }
      destruct (_ && _); simplify_eq; [by left|exact Hr1].
    + destruct (link_payload _ _ _ _ _) as [[[]|e] s3] eqn:El;
        [by eapply Hpub; [right|exact El|exact Ec]|].
      apply link_payload_records in El as [? _]. simplify_eq. simpl. congruence.
  - destruct (link_payload _ _ _ _ _) as [[[]|e] s3] eqn:El.
    + apply link_payload_records in El as Hl. destruct (lock_busy ev); [|by eapply Hpub; [left|exact El|exact Ec]].
      simplify_eq. simpl. destruct Hl; congruence.
    + apply link_payload_records in El as [? _]. simplify_eq. simpl. congruence.
Qed.


(** A keyed submission is idempotent: submitted again under a key that
    already names a record, it returns that record when the intent and the
    payload bytes are the same and is refused as a conflict otherwise; either
    way the store is exactly as before. *)
Theorem accept_replay s k id r bytes i now :
  s.(closed) = false → broker_job_id_for_key k = Ok id → get s id = Ok r → time_wf now = true →
  s.(staging) !! staged_name id = None →
  is_tarfile bytes = true → staged_entrypoint_ok i.(i_command) bytes = true →
  accept calm s (Some bytes) i now (Keyed k) =
  (if intent_eqb r.(intent) i && String.eqb r.(payload_sha256) (sha256_hex bytes)
   then Ok r else Err IdempotencyConflict, s).
Proof.
  intros Ho Hk Hg Hn Hst Ht He. unfold accept, accept_stage. rewrite Ho, Hk.
  assert (finite_time (NFloat now) = Ok now) as ->.
  { unfold finite_time, time_wf in *. simpl. by destruct (isfinite now), (fltb now fzero). }
  rewrite Hst. cbn [is_some orb calm fault]. rewrite bool_decide_eq_false_2 by done.
  unfold accept_commit. cbn [p_job_id p_intent p_keyed p_sha256 staging set_staging lock_busy].
  rewrite lookup_insert_eq, Ht, He. cbn [negb].
  unfold existing_record. rewrite (get_lookup s) by done. rewrite Hg.
  assert (set_staging (set_staging s (<[staged_name id := bytes]> (staging s)))
            (delete (staged_name id) (<[staged_name id := bytes]> (staging s))) = s) as ->.
  { destruct s as [c rs ps sg]. unfold set_staging. simpl in *. by rewrite delete_insert_id. }
  done.
Qed.

(** ** The record format *)

(** C40: the record format is stable: a record read from any JSON, written
    back and read again, is the same record. *)
Theorem record_codec_stable j r :
  parse_record j = Ok r → parse_record (record_to_json r) = Ok r.
Proof. intros Hr%parse_record_ok. by apply record_wf_roundtrip. Qed.
End guarantees.
