(* ===== verification/BrokerWitnesses.v ===== *)
(** * A small broker store

    Concrete stores that show the hypotheses of the broker theorems can hold:
    a checksum and a printer in place of the library's hash and JSON dump, a
    submission taken through its life. *)

From S2P Require Import Prelude Spec Overview Json BrokerRecord BrokerStore BrokerLifecycle BrokerSpec BrokerGuarantees.

(** ** A concrete hash *)

Definition hex_digit (n : nat) : ascii :=
  nth n (String.list_ascii_of_string "0123456789abcdef") "0"%char.

Definition checksum (s : string) : nat :=
  Z.to_nat (foldl (λ acc c, (31 * acc + Z.of_N (N_of_ascii c)) `mod` 65536) 7
              (String.list_ascii_of_string s)).

Definition toy_sha (s : string) : string :=
  let n := checksum s in
  String (hex_digit (n / 4096)) (String (hex_digit (n / 256 mod 16))
    (String (hex_digit (n / 16 mod 16)) (String (hex_digit (n mod 16))
      "000000000000000000000000000000000000000000000000000000000000"))).

Fixpoint toy_json (j : json) : string :=
  match j with
  | JNull => "null"
  | JBool b => if b then "true" else "false"
  | JInt z => pretty z
  | JFloat (FFin t) => pretty t +:+ "t"
  | JFloat _ => "nan"
  | JStr s => "'" +:+ s +:+ "'"
  | JList l => "[" +:+ (fix go l := match l with [] => "]" | x :: l => toy_json x +:+ "," +:+ go l end) l
  | JObj kvs =>
    "{" +:+ (fix go l := match l with
                         | [] => "}"
                         | (k, x) :: l => k +:+ ":" +:+ toy_json x +:+ "," +:+ go l
                         end) kvs
  end.

#[global] Instance toy_hashing : Hashing := {| canonical_json := toy_json; sha256_hex := toy_sha |}.

Lemma hex_digit_hex n : is_lower_hex (hex_digit n) = true.
Proof. do 16 (destruct n as [|n]; [reflexivity|]). by destruct n. Qed.

#[global] Instance toy_hashing_ok : HashingOk toy_hashing.
Proof.
  split. intros s. unfold is_sha256_hex, fullmatch_class. simpl. unfold toy_sha.
  generalize (checksum s). intros n.
  cbn -[hex_digit Nat.div Nat.modulo is_lower_hex]. by rewrite !hex_digit_hex.
Qed.

#[global] Instance toy_payloads : PayloadCheck :=
  {| is_tarfile s := negb (String.eqb s ""); staged_entrypoint_ok _ _ := true |}.

(** ** Running operations *)

Definition do_transition (y : system) (id : string) (rev : Z) (now : pyfloat) (t : transition) : system :=
  MkSystem (run_transition calm y.(st) id rev now t).2 y.(inflight).

Definition do_accept (y : system) (bytes : string) (i : BrokerIntent) (now : pyfloat)
    (key : accept_key) : system :=
  MkSystem (accept calm y.(st) (Some bytes) i now key).2 y.(inflight).

Lemma step_do_transition y id rev now t :
  contract t = true → rtc step y (do_transition y id rev now t).
Proof.
  intros Hc. apply rtc_once. destruct y as [s ps].
  eapply (step_transition calm); [done|]. apply surjective_pairing.
Qed.

Lemma step_do_accept y bytes i now key :
  accept_args_ok i key = true → rtc step y (do_accept y bytes i now key).
Proof.
  intros Ha. destruct y as [s ps]. unfold do_accept, accept. cbn [st inflight].
  destruct (accept_stage calm s (Some bytes) i now key) as [out s1] eqn:E.
  pose proof (step_stage calm s ps (Some bytes) i now key out s1 Ha E) as Hs.
  destruct out as [p|e]; [|by apply rtc_once].
  eapply rtc_l; [exact Hs|]. apply rtc_once. eapply (step_commit calm _ []). apply surjective_pairing.
Qed.

Definition demo_intent : BrokerIntent :=
  {| i_command := ["python"; "run.py"]; i_cpus := 4; i_mem_mb := 2000;
     i_wall_time_seconds := Some 3600; i_priority := 0; i_auto_resume := false; i_retry := 1;
     i_job_name := Some "h2o"; i_program := None; i_expected_sha := None; i_tags := ["a"; "b"];
     i_clean_workdir_on_terminal := false; i_rerun_until_file_exists := None; i_rerun_max := 0;
     i_pool := None; i_runtime_seconds := None |}.

Definition demo_snapshot : BrokerCapacitySnapshot :=
  {| host := "alpha"; observed_at := FFin 5; free_cpus := Some 8; free_mem_mb := Some 16000;
     free_jobs := Some 2; reachable := true; daemon_healthy := true; state_root_agreement := true;
     admission_open := true; queue_ready := true; is_scheduler_host := false;
     scheduler_admission := false; max_request_cpus := None; authority := None;
     runtime_pins := None; pools := []; max_wall_time_seconds := None; pending_cpus := 0;
     idle_seconds := None |}.

Definition demo_decision : BrokerPlacementDecision :=
  {| dec_host := Some "alpha"; dec_blockers := [("beta", "unreachable")]; dec_ranking := [] |}.

Definition demo_id : string := Eval vm_compute in
  match broker_job_id_for_key "job-1" with Ok id => id | Err _ => "" end.

Definition demo_held : system := do_accept initial "archive" demo_intent (FFin 1) (Keyed "job-1").
Definition demo_reserve : transition := TReserve demo_decision demo_snapshot "/srv/vq".
Definition demo_reserved : system := do_transition demo_held demo_id 1 (FFin 6) demo_reserve.
Definition demo_sent : system := do_transition demo_reserved demo_id 2 (FFin 7) TBegin.
Definition demo_noted : system :=
  do_transition demo_sent demo_id 3 (FFin 8) (TDiagnostic "timeout").

Example demo_states :
  map (λ y, match get y.(st) demo_id with Ok r => Some (rstate r, revision r) | Err _ => None end)
    [demo_held; demo_reserved; demo_sent; demo_noted]
  = [Some (HELD, 1); Some (RESERVED, 2); Some (TRANSFERRING, 3); Some (TRANSFERRING, 4)].
Proof. vm_compute. reflexivity. Qed.

Definition no_record : BrokerRecord :=
  held_record {| p_keyed := false; p_job_id := ""; p_intent := demo_intent; p_now := fzero;
                 p_sha256 := ""; p_size := 0 |}.

Definition demo_record (y : system) : BrokerRecord :=
  match get y.(st) demo_id with Ok r => r | Err _ => no_record end.

Lemma demo_held_reachable : sys_reachable demo_held.
Proof. apply step_do_accept. vm_compute. reflexivity. Qed.

Lemma demo_reserved_reachable : sys_reachable demo_reserved.
Proof. unfold sys_reachable. etransitivity; [apply demo_held_reachable|]. by apply step_do_transition. Qed.

Lemma demo_sent_reachable : sys_reachable demo_sent.
Proof. unfold sys_reachable. etransitivity; [apply demo_reserved_reachable|]. by apply step_do_transition. Qed.

(** ** Witnesses *)

Lemma outstanding_charges_exact_witness :
  sys_reachable demo_sent ∧
  ∃ rs totals, scan demo_sent.(st) = Ok (rs, []) ∧ outstanding_charges demo_sent.(st) = Ok totals
    ∧ ∀ k h, charged k totals h = sumZ (λ r, phase_charge k h (v_phase (view r))) rs.
Proof. split; [apply demo_sent_reachable | apply outstanding_charges_exact, demo_sent_reachable]. Defined.

Lemma reachable_scan_witness :
  sys_reachable demo_sent ∧
  ∃ rs, scan demo_sent.(st) = Ok (rs, []) ∧ NoDup (map broker_job_id rs)
        ∧ ∀ r, r ∈ rs ↔ get demo_sent.(st) r.(broker_job_id) = Ok r.
Proof. split; [apply demo_sent_reachable | apply reachable_scan, demo_sent_reachable]. Defined.

Definition demo_reserve_result : BrokerRecord :=
  match (run_transition calm demo_held.(st) demo_id 1 (FFin 6) demo_reserve).1 with
  | Ok r => r | Err _ => no_record
  end.

Lemma transition_refines_witness :
  ∃ r t', get demo_held.(st) demo_id = Ok r ∧ r.(revision) = 1 ∧ transition_args demo_reserve = Ok t'
    ∧ job_step t' (view r) (view demo_reserve_result) ∧ demo_reserve_result.(revision) = 1 + 1
    ∧ get demo_reserved.(st) demo_id = Ok (normalise demo_reserve_result)
    ∧ ∀ id', id' ≠ demo_id → get demo_reserved.(st) id' = get demo_held.(st) id'.
Proof.
  apply (transition_refines demo_held calm demo_id 1 (FFin 6) demo_reserve demo_reserve_result
           demo_reserved.(st)).
  - apply demo_held_reachable.
  - vm_compute. reflexivity.
  - vm_compute. reflexivity.
Defined.

Lemma transition_progress_witness :
  ∃ r1, change_of demo_reserve (demo_record demo_held) (FFin 6) = Ok r1 ∧
    let r' := with_revision r1 ((demo_record demo_held).(revision) + 1) (FFin 6) in
    run_transition calm demo_held.(st) demo_id (demo_record demo_held).(revision) (FFin 6) demo_reserve =
    if RECORD_MAX_BYTES <? str_len (canonical_json (record_to_json r'))
    then (Err StoreError, demo_held.(st)) else (Ok r', written demo_held.(st) r').
Proof.
  apply (transition_progress demo_held demo_id (FFin 6) demo_reserve demo_reserve
           (demo_record demo_held)
           (Job (VReserved {| tg_host := "alpha"; tg_root := "/srv/vq"; tg_key := demo_id;
                              tg_charge := MkCharge 4 2000 1 |}) false 1)).
  - apply demo_held_reachable.
  - vm_compute. reflexivity.
  - vm_compute. reflexivity.
  - reflexivity.
  - vm_compute. apply js_reserve; [reflexivity|reflexivity|]. apply Nat.leb_le. vm_compute. reflexivity.
  - discriminate.
Defined.

Lemma no_lost_update_witness :
  ∃ e, run_transition calm demo_sent.(st) demo_id 1 (FFin 9) (TCancel "late") = (Err e, demo_sent.(st)).
Proof.
  apply (no_lost_update demo_held demo_sent calm calm demo_id 1 1 (FFin 6) (FFin 9) demo_reserve
           (TCancel "late") demo_reserve_result demo_reserved.(st)).
  - apply demo_held_reachable.
  - vm_compute. reflexivity.
  - vm_compute. reflexivity.
  - exact (step_do_transition demo_reserved demo_id 2 (FFin 7) TBegin eq_refl).
  - lia.
Defined.

Lemma history_permanent_witness :
  ∃ r', get demo_sent.(st) demo_id = Ok r' ∧ evolves (demo_record demo_reserved) r'
    ∧ (r' = demo_record demo_reserved ∨ (demo_record demo_reserved).(revision) < r'.(revision)).
Proof.
  apply (history_permanent demo_reserved demo_sent).
  - apply demo_reserved_reachable.
  - exact (step_do_transition demo_reserved demo_id 2 (FFin 7) TBegin eq_refl).
  - vm_compute. reflexivity.
Defined.

Definition demo_attempt : BrokerAttempt :=
  match current_attempt (demo_record demo_sent) with
  | Some a => a
  | None => reserved_attempt demo_decision demo_snapshot "/" no_record fzero
  end.

Lemma single_attempt_in_doubt_witness :
  0%nat = pred (length (demo_record demo_sent).(attempts))
  ∧ demo_attempt.(phase) ∈ [TRANSFERRING; PLACED]
  ∧ (demo_record demo_sent).(rstate) = demo_attempt.(phase) ∧ is_some demo_attempt.(request_fingerprint).
Proof.
  apply (single_attempt_in_doubt demo_sent demo_id (demo_record demo_sent) 0 demo_attempt).
  - apply demo_sent_reachable.
  - vm_compute. reflexivity.
  - vm_compute. reflexivity.
  - vm_compute. reflexivity.
Defined.

Definition demo_request (y : system) : option BrokerTransferRequest :=
  match transfer_request y.(st) (demo_record y) with Ok q => Some q | Err _ => None end.

Definition no_request : BrokerTransferRequest := MkTransfer "" "" "" "" None "" demo_intent None None.

Lemma transfer_request_stable_witness :
  opt_or (demo_request demo_noted) no_request = opt_or (demo_request demo_sent) no_request.
Proof.
  apply (transfer_request_stable demo_sent demo_noted demo_id (demo_record demo_sent)
           (demo_record demo_noted)).
  - apply demo_sent_reachable.
  - exact (step_do_transition demo_sent demo_id 3 (FFin 8) (TDiagnostic "timeout") eq_refl).
  - vm_compute. reflexivity.
  - vm_compute. reflexivity.
  - vm_compute. reflexivity.
  - vm_compute. reflexivity.
  - vm_compute. reflexivity.
Defined.

Lemma accept_replay_witness :
  accept calm demo_sent.(st) (Some "archive") demo_intent (FFin 20) (Keyed "job-1") =
  (Ok (demo_record demo_sent), demo_sent.(st)).
Proof.
  rewrite (accept_replay demo_sent.(st) "job-1" demo_id (demo_record demo_sent) "archive" demo_intent
             (FFin 20)); vm_compute; reflexivity.
Defined.

Lemma record_codec_stable_witness :
  parse_record (record_to_json (demo_record demo_sent)) = Ok (demo_record demo_sent).
Proof.
  apply (record_codec_stable (record_to_json (demo_record demo_sent))). vm_compute. reflexivity.
Defined.

(** ** A race in [accept]

    Three submissions under one key: the second finds the first one's staged
    file, fails, and removes it; the third stages other bytes under the same
    name; the first then publishes those bytes under its own digest.  The
    record is accepted and its payload never verifies. *)

Definition race_stage (s : store) (bytes : string) : res broker_error pending * store :=
  accept_stage calm s (Some bytes) demo_intent (FFin 1) (Keyed "job-1").

Definition race_store : store :=
  (race_stage (race_stage (race_stage initial.(st) "first").2 "first").2 "third").2.

Definition race_pending : res broker_error pending := (race_stage initial.(st) "first").1.

Definition race_commit (p : res broker_error pending) : res broker_error BrokerRecord * store :=
  match p with Ok p => accept_commit calm race_store p | Err e => (Err e, race_store) end.

(** The staging step of [accept] is not safe against a concurrent [accept]
    under the same key: after the three stagings above the first submission
    commits, its record is accepted, and its payload fails verification. *)
Theorem accept_race_corrupts :
  (race_stage (race_stage initial.(st) "first").2 "first").1 = Err OSError
  ∧ is_ok (race_commit race_pending).1 = true
  ∧ match (race_commit race_pending).1 with
    | Ok r => verify_payload (race_commit race_pending).2 r = Err RecordCorrupt
    | Err _ => False
    end.
Proof. vm_compute. split_and!; reflexivity. Qed.

(** ** A record the scan does not survive

    A record file whose [state] is a JSON list: reading it raises [TypeError],
    which [scan] does not catch, so no record can be listed. *)

Definition set_field (k : string) (v : json) (j : json) : json :=
  match j with JObj kvs => JObj (assoc_set k v kvs) | _ => j end.

Definition tampered_store : store :=
  set_records demo_held.(st)
    (<[record_name demo_id :=
       RJson (set_field "state" (JList []) (record_to_json (demo_record demo_held)))]>
      demo_held.(st).(records)).

(** A scan does not isolate every bad record: one whose state is not
    hashable makes both [get] and the whole [scan] raise [TypeError]. *)
Theorem scan_aborts_on_unhashable_state :
  get tampered_store demo_id = Err PyTypeError ∧ scan tampered_store = Err PyTypeError.
Proof. vm_compute. split; reflexivity. Qed.
