(* ===== verification/BrokerPlacer.v ===== *)
(** * Broker placement and recovery: [src/vq/broker_placement.py]

    The placer runs over a store other processes share.  A computation takes
    a world (the store, the requests sent so far, a counter of store accesses)
    and everything outside the placer is an oracle indexed by that counter:
    what the other processes did to the store since the last access, the
    clock, the file system, the targets' answers. *)

From S2P Require Import Prelude Spec Overview Json BrokerRecord BrokerStore BrokerLifecycle.

(** ** Oracles *)

(** [state_root_of(host)]: it may raise, and may answer with no root. *)
Inductive probe : Type :=
| ProbeRaised (diagnostic : string)
| ProbeRoot (root : option string).

Record Oracles : Type := MkOracles {
  interfere : nat → store → store;
  env_at : nat → env;
  pass_busy : bool;
  clock : nat → pyfloat;
  submit : nat → BrokerTransferRequest → res string string;
  state_root_of : nat → string → probe;
  refuse_target : nat → string → option string;
  job_refusal : option (nat → BrokerRecord → string → option string);
  rerank : option (BrokerRecord → BrokerPlacementDecision → list BrokerCapacitySnapshot →
                   pyfloat → pyfloat → BrokerPlacementDecision);
}.

(** A request handed to [submit], the record it was built from, and the
    record the last cancellation check read. *)
Record sent : Type := MkSent {
  snt_request : BrokerTransferRequest;
  snt_record : BrokerRecord;
  snt_checked : BrokerRecord;
}.

Record world : Type := MkWorld {
  w_store : store;
  w_tick : nat;
  w_trace : list sent;
}.

(** ** A computation over the world *)

Definition M : Type → Type := eff world broker_error.

Definition is_conflict (e : broker_error) : bool := bool_decide (e = RecordConflict).

(** ** Outcomes *)

Inductive outcome_kind : Type :=
| OUTCOME_HELD | OUTCOME_PLACED | OUTCOME_UNCERTAIN | OUTCOME_RELEASED | OUTCOME_CANCEL_PENDING.

#[global] Instance outcome_kind_eq_dec : EqDecision outcome_kind.
Proof. solve_decision. Defined.

Record PlacementOutcome : Type := MkOutcome {
  o_broker_job_id : string;
  o_outcome : outcome_kind;
  o_host : option string;
  o_target_job_id : option string;
  o_detail : option string;
  o_blockers : list (string * string);
}.

Record RecoveryReport : Type := MkRecovery {
  rr_outcomes : list PlacementOutcome;
  rr_refused : list string;
}.

Record PassReport : Type := MkReport {
  pr_recovered : list PlacementOutcome;
  pr_settled : list string;
  pr_replayed : list PlacementOutcome;
  pr_placements : list PlacementOutcome;
  pr_head : option string;
  pr_waiting : list string;
  pr_stopped : bool;
  pr_refused : list string;
  pr_skipped : list string;
}.

(** ** Debiting outstanding charges *)

Definition with_headroom (s : BrokerCapacitySnapshot) (cpus mem jobs : option Z)
    : BrokerCapacitySnapshot :=
  {| host := s.(host); observed_at := s.(observed_at); free_cpus := cpus; free_mem_mb := mem;
     free_jobs := jobs; reachable := s.(reachable); daemon_healthy := s.(daemon_healthy);
     state_root_agreement := s.(state_root_agreement); admission_open := s.(admission_open);
     queue_ready := s.(queue_ready); is_scheduler_host := s.(is_scheduler_host);
     scheduler_admission := s.(scheduler_admission); max_request_cpus := s.(max_request_cpus);
     authority := s.(authority); runtime_pins := s.(runtime_pins); pools := s.(pools);
     max_wall_time_seconds := s.(max_wall_time_seconds); pending_cpus := s.(pending_cpus);
     idle_seconds := s.(idle_seconds) |}.

Definition minus (free : option Z) (n : Z) : option Z := (λ f, f - n) <$> free.

Definition debit_snapshot (charges : list (string * BrokerCharge)) (s : BrokerCapacitySnapshot)
    : BrokerCapacitySnapshot :=
  if s.(is_scheduler_host) then
    let slots := sumZ (λ hc, hc.2.(c_job_slots)) charges in
    with_headroom s s.(free_cpus) s.(free_mem_mb) (minus s.(free_jobs) slots)
  else
    match assoc s.(host) charges with
    | None => s
    | Some c => with_headroom s (minus s.(free_cpus) c.(c_cpus)) (minus s.(free_mem_mb) c.(c_mem_mb))
                  (minus s.(free_jobs) c.(c_job_slots))
    end.

Definition debit_snapshots (snapshots : list BrokerCapacitySnapshot)
    (charges : list (string * BrokerCharge)) : list BrokerCapacitySnapshot :=
  map (debit_snapshot charges) snapshots.

Section placer.
Context {H : Hashing} (O : Oracles).

(** A store access: first whatever the other processes did meanwhile. *)
Definition call {A} (f : env → store → res broker_error A * store) : M A := λ w,
  let s := O.(interfere) w.(w_tick) w.(w_store) in
  let '(out, s') := f (O.(env_at) w.(w_tick)) s in
  (out, {| w_store := s'; w_tick := S w.(w_tick); w_trace := w.(w_trace) |}).

Definition read {A} (f : store → res broker_error A) : M A := call (λ _ s, (f s, s)).

Definition now : M pyfloat := λ w, (Ok (O.(clock) w.(w_tick)), w).

(** [self._submit(request)] *)
Definition send (q : BrokerTransferRequest) (r checked : BrokerRecord) : M (res string string) := λ w,
  (Ok (O.(submit) w.(w_tick) q),
   {| w_store := w.(w_store); w_tick := w.(w_tick);
      w_trace := w.(w_trace) ++ [MkSent q r checked] |}).

Definition probe_root (h : string) : M probe := λ w, (Ok (O.(state_root_of) w.(w_tick) h), w).

Definition uncertain (r : BrokerRecord) (h message : string) : PlacementOutcome :=
  MkOutcome r.(broker_job_id) OUTCOME_UNCERTAIN (Some h) None (Some message) [].

(** [_cancel_pending] *)
Definition cancel_pending (r : BrokerRecord) : option PlacementOutcome :=
  match r.(cancellation), current_attempt r with
  | Some _, Some a =>
    Some (MkOutcome r.(broker_job_id) OUTCOME_CANCEL_PENDING (Some a.(target_host)) None
            (Some ("cancelled while its transfer was uncertain; not replayed. Check "
                   +:+ a.(target_host) +:+ " for job key " +:+ a.(idempotency_key)
                   +:+ " and kill it there if it exists")) [])
  | _, _ => None
  end.

(** [_retry_on_conflict] *)
Definition retry_on_conflict (r : BrokerRecord) (apply : BrokerRecord → M BrokerRecord)
    : M BrokerRecord :=
  catch (apply r) is_conflict (λ e,
    do? current := read (λ s, get s r.(broker_job_id)) in
    match current_attempt current, current_attempt r with
    | Some a, Some b =>
      if negb (bool_decide (current.(rstate) = TRANSFERRING))
         || negb (bool_decide (a.(request_fingerprint) = b.(request_fingerprint)))
      then throw e else apply current
    | _, _ => throw e
    end).

(** [_diagnose] *)
Definition diagnose (r : BrokerRecord) (message : string) : M unit :=
  do? _ := retry_on_conflict r (λ current,
    do? t := now in
    call (λ ev s, record_transfer_diagnostic ev s current.(broker_job_id) current.(revision) message t)) in
  ret tt.

(** [_transfer] *)
Definition transfer (r : BrokerRecord) (observed_root : option string) : M PlacementOutcome :=
  match cancel_pending r with
  | Some pending => ret pending
  | None =>
    do? q := read (λ s, transfer_request s r) in
    let h := q.(t_target_host) in
    do? p := (match observed_root with
              | Some root => ret (ProbeRoot (Some root))
              | None => probe_root h
              end) in
    match p with
    | ProbeRaised diag =>
      let message := "target " +:+ h +:+ " state root unavailable (" +:+ diag +:+ "); replay held" in
      do? _ := diagnose r message in ret (uncertain r h message)
    | ProbeRoot None =>
      let message := "target " +:+ h +:+ " gave no capacity evidence this pass; replay held until it answers" in
      do? _ := diagnose r message in ret (uncertain r h message)
    | ProbeRoot (Some root) =>
      if negb (String.eqb root q.(t_target_state_root)) then
        let message := "target " +:+ h +:+ " now resolves state root " +:+ root
          +:+ ", not the recorded " +:+ q.(t_target_state_root)
          +:+ "; replay held for operator reconciliation" in
        do? _ := diagnose r message in ret (uncertain r h message)
      else
        do? current := read (λ s, get s r.(broker_job_id)) in
        match cancel_pending current with
        | Some pending => ret pending
        | None =>
          do? answer := send q r current in
          match answer with
          | Err diag =>
            let message := "transfer outcome unknown: " +:+ diag in
            do? _ := diagnose r message in ret (uncertain r h message)
          | Ok tid =>
            match validate_job_id tid with
            | Err _ =>
              let message := "transfer outcome unknown: ValueError" in
              do? _ := diagnose r message in ret (uncertain r h message)
            | Ok tid =>
              do? placed := retry_on_conflict r (λ current,
                do? t := now in
                call (λ ev s, record_placed ev s current.(broker_job_id) current.(revision)
                                (opt_or q.(t_request_fingerprint) "") tid t)) in
              ret (MkOutcome placed.(broker_job_id) OUTCOME_PLACED (Some h) (Some tid) None [])
            end
          end
        end
    end
  end.

(** ** Placing one job *)

(** The walk of [_place_locked] over the ranking: the first host that is an
    allowed target with a known state root, and why the others were skipped. *)
Fixpoint walk_ranking (tick : nat) (r : BrokerRecord) (ranking : list rank)
    : list (string * string) * option (string * string) :=
  match ranking with
  | [] => ([], None)
  | rk :: rest =>
    let h := rank_host rk in
    let skip reason := let '(skipped, chosen) := walk_ranking tick r rest in
                       ((h, reason) :: skipped, chosen) in
    match O.(refuse_target) tick h with
    | Some refusal => skip ("target-refused: " +:+ refusal)
    | None =>
      match (match O.(job_refusal) with Some f => f tick r h | None => None end) with
      | Some refusal => skip ("job-refused: " +:+ refusal)
      | None =>
        match O.(state_root_of) tick h with
        | ProbeRaised diag => skip ("state-root-unknown: " +:+ diag)
        | ProbeRoot (Some root) =>
          if startswith root "/" then ([], Some (h, root)) else skip "state-root-unknown"
        | ProbeRoot None => skip "state-root-unknown"
        end
      end
    end
  end.

Definition held_outcome (job_id detail : string) (bs : list (string * string)) : PlacementOutcome :=
  MkOutcome job_id OUTCOME_HELD None None (Some detail) bs.

Definition skipped_detail (skipped : list (string * string)) : string :=
  "no eligible host is an allowed target with a known state root: "
  +:+ String.concat "; " (map (λ hr, hr.1 +:+ ": " +:+ hr.2) skipped).

(** [overview.place_broker_job] raises plain [ValueError]s *)
Definition decide_host (debited : list BrokerCapacitySnapshot) (i : BrokerIntent)
    (t max_age : pyfloat) : M BrokerPlacementDecision :=
  match place_broker_job debited (placement_request i) t max_age with
  | Ok d => ret d
  | Err _ => throw PyValueError
  end.

(** [next(s for s in debited if s.host == h)] *)
Definition snapshot_of (debited : list BrokerCapacitySnapshot) (h : string)
    : M BrokerCapacitySnapshot :=
  match List.find (λ s, String.eqb s.(host) h) debited with
  | Some s => ret s
  | None => throw PyStopIteration
  end.

(** [_place_locked] *)
Definition place_locked (job_id : string) (snapshots : list BrokerCapacitySnapshot)
    (max_age : pyfloat) : M PlacementOutcome :=
  do? r := read (λ s, get s job_id) in
  if negb (bool_decide (r.(rstate) = HELD)) then throw RecordConflict else
  do? t := now in
  do? charges := read outstanding_charges in
  let debited := debit_snapshots snapshots charges in
  do? d0 := decide_host debited r.(intent) t max_age in
  let d := match d0.(dec_host), O.(rerank) with
           | Some _, Some f => f r d0 debited t max_age
           | _, _ => d0
           end in
  match d.(dec_host) with
  | None =>
    do? _ := call (λ ev s, record_held_blockers ev s job_id r.(revision) d.(dec_blockers) t) in
    ret (held_outcome job_id "no eligible host can run it now" d.(dec_blockers))
  | Some _ =>
    do? walked := (λ w, (Ok (walk_ranking w.(w_tick) r d.(dec_ranking)), w)) in
    let '(skipped, chosen) := walked in
    let bs := sort_by pair_leb (d.(dec_blockers) ++ skipped) in
    match chosen with
    | None =>
      do? _ := call (λ ev s, record_held_blockers ev s job_id r.(revision) bs t) in
      ret (held_outcome job_id (skipped_detail skipped) bs)
    | Some (h, root) =>
      let d' := {| dec_host := Some h; dec_blockers := bs; dec_ranking := d.(dec_ranking) |} in
      do? _ := read (λ s, verify_payload s r) in
      do? sn := snapshot_of debited h in
      do? r1 := call (λ ev s, reserve ev s job_id r.(revision) d' sn root t) in
      do? t' := now in
      do? r2 := call (λ ev s, begin_transfer ev s job_id r1.(revision) t') in
      transfer r2 (Some root)
    end
  end.

(** [with self.store.pass_lock(): body] *)
Definition with_pass_lock {A} (body : M A) : M A := λ w,
  if w.(w_store).(closed) then (Err StoreError, w)
  else if O.(pass_busy) then (Err StoreBusy, w)
  else body w.

Definition place (job_id : string) (snapshots : list BrokerCapacitySnapshot) (max_age : pyfloat)
    : M PlacementOutcome :=
  with_pass_lock (place_locked job_id snapshots max_age).

(** ** Recovery *)

Definition RECOVERY_REASON : string := "unstarted reservation released during recovery".

(** [_recover_one] *)
Definition recover_one (r : BrokerRecord) : M (option PlacementOutcome) :=
  do? r := (if bool_decide (r.(rstate) = RESERVED) then
              do? t := now in
              call (λ ev s, release_reservation ev s r.(broker_job_id) r.(revision) RECOVERY_REASON t)
            else ret r) in
  match r.(rstate) with
  | RETURNED =>
    do? t := now in
    do? r' := call (λ ev s, resume_holding ev s r.(broker_job_id) r.(revision) t) in
    ret (Some (MkOutcome r'.(broker_job_id) OUTCOME_RELEASED None None
                 (Some (state_text r'.(rstate))) []))
  | TRANSFERRING => do? o := transfer r None in ret (Some o)
  | _ => ret None
  end.

(** [_recover_retrying] *)
Definition recover_retrying (r : BrokerRecord) : M (option PlacementOutcome) :=
  catch (recover_one r) is_conflict (λ _,
    do? current := read (λ s, get s r.(broker_job_id)) in recover_one current).

(** [try: out.append(m) except BrokerStoreError: refused[id] = ...] for each
    record the loop handles *)
Fixpoint for_records {A} (body : BrokerRecord → option (M (option A))) (rs : list BrokerRecord)
    : M (list A * list string) :=
  match rs with
  | [] => ret ([], [])
  | r :: rs' =>
    match body r with
    | None => for_records body rs'
    | Some m =>
      do? res := catch (do? o := m in ret (Ok o)) is_store_error (λ _, ret (Err tt)) in
      do? rest := for_records body rs' in
      ret (match res with
           | Ok (Some o) => (o :: rest.1, rest.2)
           | Ok None => rest
           | Err _ => (rest.1, r.(broker_job_id) :: rest.2)
           end)
    end
  end.

(** [_recover_locked] *)
Definition recover_locked : M RecoveryReport :=
  do? scanned := read scan in
  do? done := for_records (λ r, Some (recover_retrying r)) scanned.1 in
  ret (MkRecovery done.1 (scanned.2 ++ done.2)).

Definition recover : M RecoveryReport := with_pass_lock recover_locked.

(** ** One pass *)

(** [_check_pass_inputs] *)
Definition check_pass_inputs (snapshots : list BrokerCapacitySnapshot)
    (max_age retry_interval : pyfloat) : M unit :=
  if negb (isfinite retry_interval) || fltb retry_interval fzero then throw PyValueError else
  do? t := now in
  match broker_observation_policy t max_age with
  | Err _ => throw PyValueError
  | Ok _ => if bool_decide (NoDup (map host snapshots)) then ret tt else throw PyValueError
  end.

(** The snapshots whose listing counts: fresh and not from the future. *)
Definition observed_hosts (snapshots : list BrokerCapacitySnapshot) (t max_age : pyfloat)
    : list (string * pyfloat) :=
  dict_of (map (λ s, (s.(host), s.(observed_at)))
    (List.filter (λ s, isfinite s.(observed_at) && fleb fzero (fsub t s.(observed_at))
                       && fleb (fsub t s.(observed_at)) max_age) snapshots)).

Definition lists_job (target_jobs : list (string * list string)) (a : BrokerAttempt) : bool :=
  match a.(target_job_id) with
  | Some tid => mem_str tid (opt_or (assoc a.(target_host) target_jobs) [])
  | None => false
  end.

(** The guard of the settling loop, negated. *)
Definition settleable (observed : list (string * pyfloat))
    (target_jobs : option (list (string * list string))) (r : BrokerRecord) : option BrokerAttempt :=
  match current_attempt r, target_jobs with
  | Some a, Some jobs =>
    match a.(accepted_at) with
    | Some acc =>
      if bool_decide (r.(rstate) = PLACED) && negb (is_some a.(charge_released_at))
         && lists_job jobs a && negb (fleb (opt_or (assoc a.(target_host) observed) FNegInf) acc)
      then Some a else None
    | None => None
    end
  | _, _ => None
  end.

Definition settle_now (r : BrokerRecord) : M BrokerRecord :=
  do? t := now in call (λ ev s, settle_charge ev s r.(broker_job_id) r.(revision) t).

(** One iteration of the settling loop: [true] when the charge was settled. *)
Definition settle_one (r : BrokerRecord) (a : BrokerAttempt) : M bool :=
  catch (do? _ := settle_now r in ret true) is_conflict (λ _,
    do? current := read (λ s, get s r.(broker_job_id)) in
    match current_attempt current with
    | Some latest =>
      if bool_decide (current.(rstate) = PLACED) && negb (is_some latest.(charge_released_at))
         && bool_decide (latest.(target_job_id) = a.(target_job_id))
      then do? _ := settle_now current in ret true
      else ret false
    | None => ret false
    end).

Fixpoint settle_all (observed : list (string * pyfloat))
    (target_jobs : option (list (string * list string))) (rs : list BrokerRecord) : M (list string) :=
  match rs with
  | [] => ret []
  | r :: rs' =>
    match settleable observed target_jobs r with
    | None => settle_all observed target_jobs rs'
    | Some a =>
      do? settled := settle_one r a in
      do? rest := settle_all observed target_jobs rs' in
      ret (if settled then r.(broker_job_id) :: rest else rest)
    end
  end.

Fixpoint reread (rs : list BrokerRecord) : M (list BrokerRecord) :=
  match rs with
  | [] => ret []
  | r :: rs' =>
    do? r' := read (λ s, get s r.(broker_job_id)) in
    do? rest := reread rs' in
    ret (r' :: rest)
  end.

Definition replay_due (t retry_interval : pyfloat) (r : BrokerRecord) : bool :=
  bool_decide (r.(rstate) = TRANSFERRING) && fleb retry_interval (fsub t r.(updated_at)).

(** Oldest first: by acceptance time, then id. *)
Definition fifo_leb : BrokerRecord → BrokerRecord → bool :=
  on_key (lex_leb fleb String.leb) (λ r, (r.(created_at), r.(broker_job_id))).

Definition fifo_queue (rs : list BrokerRecord) : list BrokerRecord :=
  sort_by fifo_leb (List.filter (λ r, bool_decide (r.(rstate) = HELD)) rs).

(** What the loop over the queue leaves: placements, refused, skipped, and
    the head it stopped at with the jobs behind it. *)
Record queue_result : Type := MkQueueResult {
  q_placements : list PlacementOutcome;
  q_refused : list string;
  q_skipped : list string;
  q_head : option (string * list string * bool);
}.

(** The loop of [run_once_locked] over the queue, for a way to place a job. *)
Fixpoint place_queue (place_job : string → M PlacementOutcome) (queue : list BrokerRecord)
    : M queue_result :=
  match queue with
  | [] => ret (MkQueueResult [] [] [] None)
  | r :: later =>
    let id := r.(broker_job_id) in
    let waiting := map broker_job_id later in
    do? res := catch (do? o := place_job id in ret (Ok o)) is_store_error (λ _,
      do? state := catch (do? current := read (λ s, get s id) in ret (Some current.(rstate)))
                     is_store_error (λ _, ret None) in
      ret (Err state)) in
    match res with
    | Ok o =>
      if bool_decide (o.(o_outcome) = OUTCOME_HELD)
      then ret (MkQueueResult [o] [] [] (Some (id, waiting, false)))
      else do? rest := place_queue place_job later in
           ret (MkQueueResult (o :: rest.(q_placements)) rest.(q_refused) rest.(q_skipped)
                  rest.(q_head))
    | Err (Some CANCELLED) =>
      do? rest := place_queue place_job later in
      ret (MkQueueResult rest.(q_placements) rest.(q_refused) (id :: rest.(q_skipped)) rest.(q_head))
    | Err (Some HELD) => ret (MkQueueResult [] [] [] (Some (id, waiting, true)))
    | Err _ =>
      do? rest := place_queue place_job later in
      ret (MkQueueResult rest.(q_placements) (id :: rest.(q_refused)) rest.(q_skipped) rest.(q_head))
    end
  end.

Definition stopped_report : PassReport := MkReport [] [] [] [] None [] true [] [].

(** [run_once_locked] *)
Definition run_once_locked (snapshots : list BrokerCapacitySnapshot) (max_age : pyfloat)
    (target_jobs : option (list (string * list string))) (retry_interval : pyfloat)
    : M PassReport :=
  do? _ := check_pass_inputs snapshots max_age retry_interval in
  do? scanned := read scan in
  if negb (bool_decide (scanned.2 = [])) then ret stopped_report else
  do? recovered := for_records (λ r,
    if bool_decide (r.(rstate) ∈ [RESERVED; RETURNED]) then Some (recover_retrying r) else None)
    scanned.1 in
  do? records := reread scanned.1 in
  do? t := now in
  do? settled := settle_all (observed_hosts snapshots t max_age) target_jobs records in
  do? t' := now in
  do? replayed := for_records (λ r,
    if replay_due t' retry_interval r
    then Some (do? current := read (λ s, get s r.(broker_job_id)) in
               do? o := transfer current None in ret (Some o))
    else None) records in
  do? q := place_queue (λ id, place_locked id snapshots max_age) (fifo_queue records) in
  ret (MkReport recovered.1 settled replayed.1 q.(q_placements) (fst ∘ fst <$> q.(q_head))
         (match q.(q_head) with Some h => h.1.2 | None => [] end)
         (match q.(q_head) with Some h => h.2 | None => false end)
         (recovered.2 ++ replayed.2 ++ q.(q_refused)) q.(q_skipped)).

Definition run_once (snapshots : list BrokerCapacitySnapshot) (max_age : pyfloat)
    (target_jobs : option (list (string * list string))) (retry_interval : pyfloat)
    : M PassReport :=
  do? _ := check_pass_inputs snapshots max_age retry_interval in
  with_pass_lock (run_once_locked snapshots max_age target_jobs retry_interval).
End placer.
