(* ===== verification/BrokerPlacerSafety.v ===== *)
(** * What the broker placer guarantees

    A small Hoare logic over the placer's world, and with it the safety of
    every request the placer ever sends, whatever the other processes do
    between its store accesses; then strict FIFO and the debiting of
    outstanding charges. *)

From S2P Require Import Prelude Spec Overview Json BrokerRecord BrokerStore BrokerLifecycle BrokerSpec BrokerGuarantees BrokerPlacer.

Section logic.
Context {H : Hashing} {Hok : HashingOk H} (O : Oracles).

(** The other processes only perform store operations. *)
Definition friendly : Prop :=
  ∀ n s, store_wf s → store_wf (O.(interfere) n s) ∧ store_advances s (O.(interfere) n s).

(** [q] is the request of the transfer in progress in [r]. *)
Definition request_from (r : BrokerRecord) (q : BrokerTransferRequest) : Prop :=
  ∃ a, current_attempt r = Some a ∧ r.(rstate) = TRANSFERRING ∧ record_wf r = true
    ∧ q.(t_broker_job_id) = r.(broker_job_id) ∧ q.(t_target_host) = a.(target_host)
    ∧ q.(t_target_state_root) = a.(target_state_root)
    ∧ q.(t_idempotency_key) = a.(idempotency_key)
    ∧ q.(t_request_fingerprint) = a.(request_fingerprint)
    ∧ a.(request_fingerprint) = Some (transfer_fingerprint r a)
    ∧ q.(t_payload_path) = payload_name r.(broker_job_id) ∧ q.(t_intent) = r.(intent)
    ∧ expected_sha_for r.(intent) a.(snapshot) = Ok q.(t_expected_sha)
    ∧ q.(t_authority) = assoc "authority" a.(snapshot).

(** A send is sound when its request was the record's, the record had not
    been cancelled at the last check, and the store still remembers it. *)
Definition sent_ok (s : store) (e : sent) : Prop :=
  request_from e.(snt_record) e.(snt_request)
  ∧ advances e.(snt_record) e.(snt_checked) ∧ e.(snt_checked).(cancellation) = None
  ∧ ∃ r, get s e.(snt_record).(broker_job_id) = Ok r ∧ advances e.(snt_checked) r.

(** Sends of one job were built from successive states of its record. *)
Definition sent_order (e1 e2 : sent) : Prop :=
  e1.(snt_record).(broker_job_id) = e2.(snt_record).(broker_job_id) →
  advances e1.(snt_record) e2.(snt_record).

Record world_inv (w : world) : Prop := {
  wi_store : store_wf w.(w_store);
  wi_sent e : e ∈ w.(w_trace) → sent_ok w.(w_store) e;
  wi_order : StronglySorted sent_order w.(w_trace);
}.

Definition triple {A} (Pre : world → Prop) (m : M A) (Post : A → world → Prop) : Prop :=
  ∀ w out w', world_inv w → Pre w → m w = (out, w') →
    world_inv w' ∧ store_advances w.(w_store) w'.(w_store) ∧ w.(w_trace) `prefix_of` w'.(w_trace)
    ∧ match out with Ok a => Post a w' | Err _ => True end.

Definition sound {A} (m : M A) : Prop := triple (λ _, True) m (λ _ _, True).

Lemma sent_ok_advances s s' e : store_advances s s' → sent_ok s e → sent_ok s' e.
Proof.
  intros Hs (Hq & Ha & Hc & r & Hr & Har). split_and!; try done.
  destruct (Hs _ _ Hr) as (r' & Hr' & ?). exists r'. split; [done|]. by transitivity r.
Qed.

Lemma placer_ret {A} (a : A) Pre (Post : A → world → Prop) :
  (∀ w, Pre w → Post a w) → triple Pre (ret a) Post.
Proof. intros Hp w out w' Hw Hpre [= <- <-]. by split_and!; auto. Qed.

Lemma placer_throw {A} e Pre (Post : A → world → Prop) : triple Pre (throw e) Post.
Proof. intros w out w' Hw Hpre [= <- <-]. by split_and!. Qed.

Lemma placer_bind {A B} (m : M A) (k : A → M B) Pre Mid Post :
  triple Pre m Mid → (∀ a, triple (Mid a) (k a) Post) → triple Pre (bind m k) Post.
Proof.
  intros Hm Hk w out w' Hw Hpre. unfold bind. destruct (m w) as [[a|e] w1] eqn:E.
  - destruct (Hm _ _ _ Hw Hpre E) as (Hw1 & Ha1 & Hp1 & Hmid). intros Hk'.
    destruct (Hk a _ _ _ Hw1 Hmid Hk') as (Hw2 & Ha2 & Hp2 & Hpost).
    split_and!; try done; by etransitivity.
  - intros [= <- <-]. destruct (Hm _ _ _ Hw Hpre E) as (? & ? & ? & _). by split_and!.
Qed.

Lemma triple_consequence {A} (m : M A) (Pre Pre' : world → Prop) (Post Post' : A → world → Prop) :
  (∀ w, Pre' w → Pre w) → (∀ a w, Post a w → Post' a w) → triple Pre m Post → triple Pre' m Post'.
Proof.
  intros H1 H2 Hm w out w' Hw Hpre E. destruct (Hm _ _ _ Hw (H1 _ Hpre) E) as (? & ? & ? & Hp).
  split_and!; try done. destruct out; [by apply H2|done].
Qed.

Lemma sound_triple {A} (m : M A) Pre : sound m → triple Pre m (λ _ _, True).
Proof. intros Hm. by eapply triple_consequence; [..|exact Hm]. Qed.

Lemma sound_ret {A} (a : A) : sound (ret a).
Proof. by apply placer_ret. Qed.

Lemma sound_throw {A} e : sound (A := A) (throw e).
Proof. apply placer_throw. Qed.

Lemma sound_bind {A B} (m : M A) (k : A → M B) : sound m → (∀ a, sound (k a)) → sound (bind m k).
Proof. intros Hm Hk. eapply placer_bind; [exact Hm|]. intros a. by apply Hk. Qed.

Lemma sound_catch {A} (m : M A) p h : sound m → (∀ e, sound (h e)) → sound (catch m p h).
Proof.
  intros Hm Hh w out w' Hw _. unfold catch. destruct (m w) as [[a|e] w1] eqn:E.
  - intros [= <- <-]. by apply (Hm _ _ _ Hw I E).
  - destruct (Hm _ _ _ Hw I E) as (Hw1 & Ha1 & Hp1 & _). destruct (p e).
    + intros Hk. destruct (Hh e _ _ _ Hw1 I Hk) as (? & ? & ? & ?).
      split_and!; try done; by etransitivity.
    + intros [= <- <-]. by split_and!.
Qed.

Lemma sound_now : sound (now O).
Proof. intros w out w' Hw _ [= <- <-]. by split_and!. Qed.

Lemma sound_probe h : sound (probe_root O h).
Proof. intros w out w' Hw _ [= <- <-]. by split_and!. Qed.

Context (Hfriend : friendly).

Lemma world_inv_store w s n :
  world_inv w → store_wf s → store_advances w.(w_store) s →
  world_inv {| w_store := s; w_tick := n; w_trace := w.(w_trace) |}.
Proof.
  intros [Hs He Ho] Hs' Ha. split; simpl; [done| |done].
  intros e Hin. eapply sent_ok_advances; [done|]. by apply He.
Qed.

Lemma triple_call {A} (f : env → store → res broker_error A * store) (Post : A → world → Prop) :
  (∀ ev s out s', store_wf s → f ev s = (out, s') →
     store_wf s' ∧ store_advances s s'
     ∧ match out with Ok a => ∀ w, w.(w_store) = s' → Post a w | Err _ => True end) →
  triple (λ _, True) (call O f) Post.
Proof using Hfriend.
  intros Hf w out w' Hw _. unfold call. destruct (f _ _) as [o s'] eqn:E. intros [= <- <-].
  destruct (Hfriend (w_tick w) _ (wi_store _ Hw)) as [Hs1 Ha1].
  destruct (Hf _ _ _ _ Hs1 E) as (Hs2 & Ha2 & Hp).
  assert (store_advances (w_store w) s') by (by etransitivity).
  split_and!; [by apply world_inv_store|done|done|]. destruct o; [by apply Hp|done].
Qed.

Lemma triple_read {A} (f : store → res broker_error A) :
  triple (λ _, True) (read O f) (λ a w, f w.(w_store) = Ok a).
Proof using Hfriend.
  apply triple_call. intros ev s out s' Hs [= <- <-]. split_and!; [done|done|].
  destruct (f s) eqn:E; [|done]. by intros w ->.
Qed.

Lemma sound_read {A} (f : store → res broker_error A) : sound (read O f).
Proof using Hfriend. eapply triple_consequence; [..|apply triple_read]; done. Qed.

Lemma sound_transition (f : env → store → res broker_error BrokerRecord * store) id rev t tr :
  contract tr = true → (∀ ev s, f ev s = run_transition ev s id rev t tr) → sound (call O f).
Proof using Hok Hfriend.
  intros Hc Hf. apply triple_call. intros ev s out s' Hs E. rewrite Hf in E.
  destruct (run_transition_sound _ _ _ _ _ _ _ _ Hs Hc E). split_and!; try done. by destruct out.
Qed.

(** [sound_steps] walks the placer's code, one construct at a time. *)
Ltac sound_steps :=
  repeat match goal with
  | |- sound (ret _) => apply sound_ret
  | |- sound (throw _) => apply sound_throw
  | |- sound (now _) => apply sound_now
  | |- sound (probe_root _ _) => apply sound_probe
  | |- sound (read _ _) => apply sound_read
  | |- sound (bind _ _) => apply sound_bind; [|intros ?]
  | |- sound (catch _ _ _) => apply sound_catch; [|intros ?]
  | |- sound (match ?x with _ => _ end) => destruct x
  end.

Lemma sound_retry r f : (∀ r, sound (f r)) → sound (retry_on_conflict O r f).
Proof using Hfriend. intros Hf. unfold retry_on_conflict. sound_steps; auto. Qed.

Lemma sound_diagnose r m : sound (diagnose O r m).
Proof using Hok Hfriend.
  unfold diagnose. sound_steps. apply sound_retry. intros r'. sound_steps.
  by eapply (sound_transition _ _ _ _ (TDiagnostic m)).
Qed.

(** The request a store hands out is the one of the record it holds. *)
Lemma transfer_request_from s r q :
  transfer_request s r = Ok q → get s r.(broker_job_id) = Ok r ∧ request_from r q.
Proof.
  intros (a & Ha & Hg & ? & ? & ? & ? & ? & ? & ? & _ & ? & ? & ? & ?)%transfer_request_fields.
  split; [done|]. exists a. split_and!; try done. by apply get_ok in Hg as [? _].
Qed.

Lemma cancel_pending_none r :
  consistent r → r.(rstate) ∈ [RESERVED; TRANSFERRING; PLACED; RETURNED] →
  cancel_pending r = None → r.(cancellation) = None.
Proof.
  intros Hc Hs. destruct (live_attempt r Hc Hs) as (a & Ha & _). unfold cancel_pending. rewrite Ha.
  by destruct (cancellation r).
Qed.

(** A record with an attempt keeps one. *)
Lemma cancel_pending_evolved r r' :
  evolves r r' → is_some (current_attempt r) → cancel_pending r' = None → r'.(cancellation) = None.
Proof.
  intros Hev Ha Hp. unfold cancel_pending in Hp. destruct (cancellation r'); [|done].
  destruct (current_attempt r') eqn:E; [done|]. exfalso.
  unfold current_attempt in *. apply last_None in E.
  destruct (ev_history _ _ Hev) as (l1 & l2 & El & HF). rewrite E in El.
  destruct l1; [|done]. apply Forall2_nil_inv_r in HF. by rewrite HF in Ha.
Qed.

Lemma sorted_snoc {A} (R : A → A → Prop) l x :
  StronglySorted R l → (∀ y, y ∈ l → R y x) → StronglySorted R (l ++ [x]).
Proof.
  induction 1 as [|y l Hl IH Hy]; intros Hx; simpl; [repeat constructor|].
  constructor; [apply IH; set_solver|]. apply Forall_app. split; [done|].
  constructor; [apply Hx; set_solver|done].
Qed.

Lemma triple_send q r cur :
  triple (λ w, request_from r q ∧ advances r cur ∧ cur.(cancellation) = None
               ∧ get w.(w_store) r.(broker_job_id) = Ok cur
               ∧ ∀ e, e ∈ w.(w_trace) → sent_order e (MkSent q r cur))
    (send O q r cur) (λ _ _, True).
Proof.
  intros w out w' [Hs He Ho] (Hq & Ha & Hc & Hg & Hord) [= <- <-]. split_and!; try done.
  - split; simpl; [done| |by apply sorted_snoc].
    intros e [Hin|Hin]%elem_of_app; [by apply He|].
    apply list_elem_of_singleton in Hin as ->. split_and!; [done|done|done|by exists cur].
  - by apply prefix_app_r.
Qed.

(** What building the request establishes, and later steps keep. *)
Definition ready (r : BrokerRecord) (q : BrokerTransferRequest) (w : world) : Prop :=
  request_from r q ∧ (∃ cur, get w.(w_store) r.(broker_job_id) = Ok cur ∧ advances r cur)
  ∧ ∀ e, e ∈ w.(w_trace) → sent_order e (MkSent q r r).

Lemma ready_read r q w w' :
  ready r q w → store_advances w.(w_store) w'.(w_store) → w'.(w_trace) = w.(w_trace) → ready r q w'.
Proof.
  intros (Hq & (cur & Hg & Ha) & Hord) Hs Ht. split_and!; [done| |by rewrite Ht].
  destruct (Hs _ _ Hg) as (cur' & ? & ?). exists cur'. split; [done|by transitivity cur].
Qed.

Lemma triple_request r :
  triple (λ _, True) (read O (λ s, transfer_request s r)) (ready r).
Proof using Hfriend.
  intros w out w' Hw _ Hr. destruct (triple_read _ _ _ _ Hw I Hr) as (Hw' & Ha & Hp & Hq).
  split_and!; try done. destruct out as [q|]; [|done].
  apply transfer_request_from in Hq as [Hg Hq]. split_and!; [done|by eexists|].
  intros e He Hid. simpl in *. destruct (wi_sent _ Hw' e He) as (_ & H1 & _ & r1 & Hr1 & H2).
  rewrite Hid, Hg in Hr1. simplify_eq. by transitivity (snt_checked e).
Qed.

Lemma triple_frame r q {A} (m : M A) :
  (∀ w, (m w).2 = w) → triple (ready r q) m (λ _, ready r q).
Proof.
  intros Hm w out w' Hw Hr E. pose proof (Hm w) as Hw'. rewrite E in Hw'. simpl in Hw'. subst.
  split_and!; try done. by destruct out.
Qed.

Lemma triple_reread r q :
  triple (ready r q) (read O (λ s, get s r.(broker_job_id)))
    (λ cur w, ready r q w ∧ get w.(w_store) r.(broker_job_id) = Ok cur).
Proof using Hfriend.
  intros w out w' Hw Hready Hr.
  destruct (triple_read _ _ _ _ Hw I Hr) as (Hw' & Ha & Hp & Hq).
  split_and!; try done. destruct out as [cur|]; [|done]. split; [|done].
  eapply ready_read; [done|done|]. unfold read, call in Hr. by injection Hr as _ <-.
Qed.

(** *** A reported placement is on record *)

(** The store records [tid] as the target's acceptance of job [id]. *)
Definition placed_as (id : string) (tid : option string) (w : world) : Prop :=
  ∃ r a, get w.(w_store) id = Ok r ∧ r.(rstate) = PLACED ∧ current_attempt r = Some a
         ∧ a.(target_job_id) = tid.

Definition truthful (o : PlacementOutcome) (w : world) : Prop :=
  o.(o_outcome) = OUTCOME_PLACED → placed_as o.(o_broker_job_id) o.(o_target_job_id) w.

Lemma placer_catch {A} (m : M A) p h Post :
  triple (λ _, True) m Post → (∀ e, triple (λ _, True) (h e) Post) →
  triple (λ _, True) (catch m p h) Post.
Proof.
  intros Hm Hh w out w' Hw _. unfold catch. destruct (m w) as [[a|e] w1] eqn:E.
  - intros [= <- <-]. by apply (Hm _ _ _ Hw I E).
  - destruct (Hm _ _ _ Hw I E) as (Hw1 & Ha1 & Hp1 & _). destruct (p e).
    + intros Hk. destruct (Hh e _ _ _ Hw1 I Hk) as (? & ? & ? & ?).
      split_and!; try done; by etransitivity.
    + intros [= <- <-]. by split_and!.
Qed.

Lemma placed_view r tg fp tid b :
  consistent r → VPlaced tg fp tid b = phase_at r.(rstate) (current_attempt r) →
  r.(rstate) = PLACED ∧ ∃ a, current_attempt r = Some a ∧ a.(target_job_id) = Some tid.
Proof.
  intros Hc Hph%eq_sym. pose proof (state_of_view r Hc) as Hst. rewrite Hph in Hst. simpl in Hst.
  split; [done|]. rewrite Hst in Hph. destruct (live_attempt r Hc) as (a & Ha & Hpa & Hin);
    [rewrite Hst; set_solver|]. exists a. split; [done|]. rewrite Ha in Hph. simpl in Hph.
  injection Hph as _ _ Ht _.
  pose proof (cons_attempt _ Hc a Hin) as Hcon. unfold attempt_contradiction in Hcon.
  rewrite Hpa, Hst in Hcon. destruct (target_job_id a) as [x|]; [simpl in Ht; congruence|].
  cbn in Hcon. by rewrite !orb_true_r in Hcon.
Qed.

Lemma triple_record_placed id rev fp tid t :
  triple (λ _, True) (call O (λ ev s, record_placed ev s id rev fp tid t))
    (λ r w, placed_as r.(broker_job_id) (Some tid) w).
Proof using Hok Hfriend.
  apply triple_call. intros ev s out s' Hs E.
  change (run_transition ev s id rev t (TPlaced fp tid) = (out, s')) in E.
  assert (Hct : contract (TPlaced fp tid) = true) by done.
  destruct (run_transition_sound _ _ _ _ _ _ _ _ Hs Hct E) as [Hs' Ha].
  split_and!; [done|done|]. destruct out as [r|]; [|done]. intros w Hw.
  destruct (run_transition_ok _ _ _ _ _ _ _ _ Hs Hct E)
    as (r0 & t' & _ & _ & Hargs & Hstep & _ & Hg & _).
  destruct (get_ok _ _ _ Hg) as (Hwf & Hid & _). simpl in Hid.
  simpl in Hargs. unfold target_id_arg in Hargs.
  destruct (validate_job_id tid) as [v|] eqn:Hv; [|done]. simplify_eq.
  rewrite (validate_job_id_id _ _ Hv) in Hstep. inversion Hstep as [| | | | |? ? tg| | | | | |].
  destruct (placed_view (normalise r) tg fp tid false) as (? & a & ? & ?);
    [by apply record_wf_consistent|done|]. by exists (normalise r), a.
Qed.

Lemma triple_retry r f Post :
  (∀ r', triple (λ _, True) (f r') Post) → triple (λ _, True) (retry_on_conflict O r f) Post.
Proof using Hfriend.
  intros Hf. unfold retry_on_conflict. apply placer_catch; [done|]. intros e.
  eapply placer_bind; [apply sound_read|]. intros cur.
  repeat case_match; first [apply placer_throw|apply Hf].
Qed.

Lemma transfer_spec r root : triple (λ _, True) (transfer O r root) truthful.
Proof using Hok Hfriend.
  assert (Hu : ∀ h m Pre, triple Pre (do? _ := diagnose O r m in ret (uncertain r h m)) truthful).
  { intros h m Pre. eapply placer_bind; [apply sound_triple, sound_diagnose|].
    intros u. by apply placer_ret. }
  assert (Hp : ∀ r o Pre, cancel_pending r = Some o → triple Pre (ret o) truthful).
  { intros r' o Pre Ho. apply placer_ret. intros w _ Hk. unfold cancel_pending in Ho. by crush. }
  unfold transfer. destruct (cancel_pending r) eqn:Ec; [by eapply Hp|].
  eapply placer_bind; [apply triple_request|]. intros q.
  eapply (placer_bind _ _ _ (λ _, ready r q)).
  { destruct root; by apply triple_frame. }
  intros [diag|[observed|]]; [apply Hu| |apply Hu]. case_match; [apply Hu|].
  eapply placer_bind; [apply triple_reread|]. intros cur.
  destruct (cancel_pending cur) eqn:Hc; [by eapply Hp|].
  eapply placer_bind.
  - eapply triple_consequence; [|done|apply (triple_send q r cur)].
    intros w ((Hq & (cur' & Hg' & Ha) & Hord) & Hg). rewrite Hg in Hg'. simplify_eq.
    split_and!; try done. eapply cancel_pending_evolved; [apply Ha| |done].
    destruct Hq as (a & -> & _). done.
  - intros [tid|diag]; [|apply Hu]. destruct (validate_job_id tid) as [tid'|]; [|apply Hu].
    apply (placer_bind _ _ _ (λ r' w, placed_as r'.(broker_job_id) (Some tid') w)).
    + apply triple_retry. intros r'. eapply placer_bind; [apply sound_now|]. intros t.
      apply triple_record_placed.
    + intros placed. apply placer_ret. by intros w Hw _.
Qed.

Lemma sound_transfer r root : sound (transfer O r root).
Proof using Hok Hfriend.
  apply (triple_consequence _ (λ _, True) _ truthful); [done|done|]. apply transfer_spec.
Qed.

Lemma debit_host charges s : (debit_snapshot charges s).(host) = s.(host).
Proof. unfold debit_snapshot. by repeat case_match. Qed.

Lemma strip_nonempty s : String.eqb (strip s) "" = false → nonempty s = true.
Proof. by destruct s. Qed.

(** A host the placer reserves has a name. *)
Lemma reserved_host_named debited i t age d s h :
  place_broker_job debited i t age = Ok d →
  List.find (λ s, String.eqb s.(host) h) debited = Some s → nonempty s.(host) = true.
Proof.
  intros (_ & Hn & _ & _)%place_broker_job_spec [Hin _]%find_some.
  apply strip_nonempty. apply list_elem_of_In in Hin.
  rewrite Forall_forall in Hn. specialize (Hn _ Hin). unfold named in Hn. by apply negb_true_iff.
Qed.

Lemma sound_pure {A} (f : world → A) : sound (λ w, (Ok (f w), w)).
Proof. intros w out w' Hw _ [= <- <-]. by split_and!. Qed.

Lemma triple_decide {A} debited i t age (k : _ → M A) Post :
  (∀ d, place_broker_job debited (placement_request i) t age = Ok d → triple (λ _, True) (k d) Post) →
  triple (λ _, True) (bind (decide_host debited i t age) k) Post.
Proof.
  intros Hk. unfold decide_host. destruct (place_broker_job _ _ _ _) as [d|].
  - exact (Hk d eq_refl).
  - exact (placer_throw PyValueError _ _).
Qed.

Lemma triple_snapshot_of {A} debited h (k : _ → M A) Post :
  (∀ s, List.find (λ s, String.eqb s.(host) h) debited = Some s → triple (λ _, True) (k s) Post) →
  triple (λ _, True) (bind (snapshot_of debited h) k) Post.
Proof.
  intros Hk. unfold snapshot_of. destruct (List.find _ _) as [s|].
  - exact (Hk s eq_refl).
  - exact (placer_throw PyStopIteration _ _).
Qed.

Lemma sound_blockers id rev bs t :
  sound (call O (λ ev s, record_held_blockers ev s id rev bs t)).
Proof using Hok Hfriend. by apply (sound_transition _ id rev t (TBlockers bs)). Qed.

Lemma place_locked_spec id snapshots age :
  triple (λ _, True) (place_locked O id snapshots age) truthful.
Proof using Hok Hfriend.
  assert (Hheld : ∀ rev bs t detail, triple (λ _, True)
    (do? _ := call O (λ ev s, record_held_blockers ev s id rev bs t) in ret (held_outcome id detail bs))
    truthful).
  { intros. eapply placer_bind; [apply sound_blockers|]. intros r. by apply placer_ret. }
  unfold place_locked.
  eapply placer_bind; [apply sound_read|intros r]. case_match; [apply placer_throw|].
  eapply placer_bind; [apply sound_now|intros t]. eapply placer_bind; [apply sound_read|intros charges].
  apply triple_decide. intros d0 Hd0. set (d := match dec_host d0 with Some _ => _ | None => _ end).
  destruct (dec_host d); [|apply Hheld].
  eapply placer_bind; [apply sound_pure|intros [skipped [[h root]|]]]; [|apply Hheld].
  eapply placer_bind; [apply sound_read|intros path]. apply triple_snapshot_of. intros sn Hsn.
  eapply placer_bind.
  { eapply (sound_transition _ _ _ _ (TReserve _ _ _)); [|done]. by eapply reserved_host_named. }
  intros r1. eapply placer_bind; [apply sound_now|intros t'].
  eapply placer_bind; [by eapply (sound_transition _ _ _ _ TBegin)|]. intros r2. apply transfer_spec.
Qed.

Lemma sound_place_locked id snapshots age : sound (place_locked O id snapshots age).
Proof using Hok Hfriend.
  apply (triple_consequence _ (λ _, True) _ truthful); [done|done|]. apply place_locked_spec.
Qed.

Lemma sound_recover_one r : sound (recover_one O r).
Proof using Hok Hfriend.
  unfold recover_one. sound_steps; try apply sound_transfer.
  - by eapply (sound_transition _ _ _ _ (TRelease _)).
  - by eapply (sound_transition _ _ _ _ TResume).
Qed.

Lemma sound_recover_retrying r : sound (recover_retrying O r).
Proof using Hok Hfriend. unfold recover_retrying. sound_steps; apply sound_recover_one. Qed.

Lemma sound_for_records {A} (body : BrokerRecord → option (M (option A))) rs :
  (∀ r m, body r = Some m → sound m) → sound (for_records body rs).
Proof.
  intros Hb. induction rs as [|r rs IH]; simpl; [apply sound_ret|].
  destruct (body r) eqn:E; [|done]. sound_steps; eauto.
Qed.

Lemma sound_settle_now r : sound (settle_now O r).
Proof using Hok Hfriend.
  unfold settle_now. sound_steps. by eapply (sound_transition _ _ _ _ TSettle).
Qed.

Lemma sound_settle_all obs jobs rs : sound (settle_all O obs jobs rs).
Proof using Hok Hfriend.
  induction rs as [|r rs IH]; simpl; [apply sound_ret|]. unfold settle_one.
  sound_steps; try done; apply sound_settle_now.
Qed.

Lemma sound_reread rs : sound (reread O rs).
Proof using Hfriend. induction rs; simpl; sound_steps; done. Qed.

Lemma sound_place_queue f queue : (∀ id, sound (f id)) → sound (place_queue O f queue).
Proof using Hfriend. intros Hf. induction queue; simpl; sound_steps; auto. Qed.

Lemma sound_check_inputs l a b : sound (check_pass_inputs O l a b).
Proof. unfold check_pass_inputs. sound_steps. Qed.

Lemma sound_run_once_locked snapshots age jobs retry :
  sound (run_once_locked O snapshots age jobs retry).
Proof using Hok Hfriend.
  unfold run_once_locked. sound_steps; auto using sound_check_inputs, sound_reread, sound_settle_all.
  - apply sound_for_records. intros r m. case_bool_decide; [|done]. intros [= <-].
    apply sound_recover_retrying.
  - apply sound_for_records. intros r m. destruct (replay_due _ _ r); [|done]. intros [= <-].
    sound_steps. apply sound_transfer.
  - apply sound_place_queue. intros id. apply sound_place_locked.
Qed.

Lemma triple_pass_lock {A} (m : M A) Post :
  triple (λ _, True) m Post → triple (λ _, True) (with_pass_lock O m) Post.
Proof.
  intros Hm w out w' Hw Hp. unfold with_pass_lock.
  destruct (closed _); [|destruct (pass_busy O); [|by apply Hm]];
    intros [= <- <-]; by split_and!.
Qed.

Lemma sound_pass_lock {A} (m : M A) : sound m → sound (with_pass_lock O m).
Proof. apply triple_pass_lock. Qed.

(** ** The placer's entry points *)

Inductive placer_call : Type :=
| CallPlace (job_id : string) (snapshots : list BrokerCapacitySnapshot) (max_age : pyfloat)
| CallRecover
| CallRunOnce (snapshots : list BrokerCapacitySnapshot) (max_age : pyfloat)
    (target_jobs : option (list (string * list string))) (retry_interval : pyfloat).

Definition perform (c : placer_call) (w : world) : world :=
  match c with
  | CallPlace id sn age => (place O id sn age w).2
  | CallRecover => (recover O w).2
  | CallRunOnce sn age jobs retry => (run_once O sn age jobs retry w).2
  end.

Lemma sound_perform c w :
  world_inv w → world_inv (perform c w) ∧ store_advances w.(w_store) (perform c w).(w_store)
    ∧ w.(w_trace) `prefix_of` (perform c w).(w_trace).
Proof using Hok Hfriend.
  assert (Hm : ∀ A (m : M A), sound m → world_inv w → world_inv (m w).2
    ∧ store_advances w.(w_store) (m w).2.(w_store) ∧ w.(w_trace) `prefix_of` (m w).2.(w_trace)).
  { intros A m Hm Hw. destruct (m w) as [out w'] eqn:E. by destruct (Hm _ _ _ Hw I E) as (?&?&?&_). }
  destruct c; simpl; apply Hm.
  - apply sound_pass_lock, sound_place_locked.
  - apply sound_pass_lock. unfold recover_locked. sound_steps. apply sound_for_records.
    intros r m [= <-]. apply sound_recover_retrying.
  - unfold run_once. sound_steps; [apply sound_check_inputs|].
    apply sound_pass_lock, sound_run_once_locked.
Qed.

Definition performs (cs : list placer_call) (w : world) : world := foldl (λ w c, perform c w) w cs.

Lemma sound_performs cs w :
  world_inv w → world_inv (performs cs w)
    ∧ store_advances w.(w_store) (performs cs w).(w_store).
Proof using Hok Hfriend.
  revert w. induction cs as [|c cs IH]; intros w Hw; simpl; [by split|].
  destruct (sound_perform c w Hw) as (Hw1 & Ha1 & _). destruct (IH _ Hw1). split; [done|].
  by etransitivity.
Qed.
End logic.

(** ** What a computation returns *)

(** Partial correctness of a computation's result. *)
Definition returns {A} (m : M A) (P : A → Prop) : Prop := ∀ w a w', m w = (Ok a, w') → P a.

Lemma returns_ret {A} (a : A) (P : A → Prop) : P a → returns (ret a) P.
Proof. by intros Ha w b w' [= <- <-]. Qed.

Lemma returns_throw {A} e (P : A → Prop) : returns (throw e) P.
Proof. by intros w b w'. Qed.

Lemma returns_bind {A B} (m : M A) (k : A → M B) Q P :
  returns m Q → (∀ a, Q a → returns (k a) P) → returns (bind m k) P.
Proof.
  intros Hm Hk w b w'. unfold bind. destruct (m w) as [[a|e] w1] eqn:E; [|done].
  apply Hk. by eapply Hm.
Qed.

Lemma returns_any {A} (m : M A) : returns m (λ _, True).
Proof. by intros w a w' _. Qed.

Lemma returns_catch {A} (m : M A) p h P :
  returns m P → (∀ e, returns (h e) P) → returns (catch m p h) P.
Proof.
  intros Hm Hh w a w'. unfold catch. destruct (m w) as [[b|e] w1] eqn:E.
  - intros [= <- <-]. by eapply Hm.
  - destruct (p e); [apply Hh|done].
Qed.

Section results.
Context {H : Hashing} {Hok : HashingOk H} (O : Oracles).

Lemma returns_call {A} (f : env → store → res broker_error A * store) (P : A → Prop) :
  (∀ ev s a s', f ev s = (Ok a, s') → P a) → returns (call O f) P.
Proof.
  intros Hf w a w'. unfold call. destruct (f _ _) as [o s'] eqn:E. intros [= -> <-].
  by eapply Hf.
Qed.

Lemma returns_read {A} (f : store → res broker_error A) (P : A → Prop) :
  (∀ s a, f s = Ok a → P a) → returns (read O f) P.
Proof. intros Hf. apply returns_call. intros ev s a s' [= Ha <-]. by eapply Hf. Qed.

Lemma run_transition_id ev s id rev t tr r s' :
  run_transition ev s id rev t tr = (Ok r, s') → r.(broker_job_id) = id.
Proof.
  rewrite run_transition_update. unfold checked. destruct (transition_args tr) as [tr'|]; [|done].
  intros [[_ [? ?]]|(cur & r1 & Hg & _ & _ & Hf & _ & _ & [[= ->]|?])]%update_cases; try done.
  destruct (get_ok _ _ _ Hg) as (Hw & <- & _). exact (ev_id _ _ (change_evolves _ _ _ _ Hw Hf)).
Qed.

Lemma returns_transition f id rev t tr :
  (∀ ev s, f ev s = run_transition ev s id rev t tr) →
  returns (call O f) (λ r, r.(broker_job_id) = id).
Proof.
  intros Hf. apply returns_call. intros ev s r s' E. rewrite Hf in E. by eapply run_transition_id.
Qed.

Lemma returns_retry r f P :
  (∀ r', r'.(broker_job_id) = r.(broker_job_id) → returns (f r') P) →
  returns (retry_on_conflict O r f) P.
Proof.
  intros Hf. unfold retry_on_conflict. apply returns_catch; [by apply Hf|]. intros e.
  apply (returns_bind _ _ (λ r', r'.(broker_job_id) = r.(broker_job_id))).
  - apply returns_read. intros s r' Hg. by apply get_ok in Hg as (_ & -> & _).
  - intros r' Hr'. repeat case_match; first [apply returns_throw|by apply Hf].
Qed.

Lemma cancel_pending_id r o : cancel_pending r = Some o → o.(o_broker_job_id) = r.(broker_job_id).
Proof. unfold cancel_pending. repeat case_match; by intros [= <-]. Qed.

(** [_transfer] reports on the job it was given. *)
Lemma transfer_id r root :
  returns (transfer O r root) (λ o, o.(o_broker_job_id) = r.(broker_job_id)).
Proof.
  unfold transfer. destruct (cancel_pending r) eqn:Hp; [by apply returns_ret, cancel_pending_id|].
  assert (Hu : ∀ h m, returns (do? _ := diagnose O r m in ret (uncertain r h m))
                        (λ o, o.(o_broker_job_id) = r.(broker_job_id))).
  { intros h m. eapply returns_bind; [apply returns_any|]. intros. by apply returns_ret. }
  eapply returns_bind; [apply returns_any|]. intros q _.
  eapply returns_bind; [apply returns_any|]. intros [diag|[observed|]] _; [apply Hu| |apply Hu].
  case_match; [apply Hu|].
  eapply (returns_bind _ _ (λ c, c.(broker_job_id) = r.(broker_job_id))).
  { apply returns_read. intros s c Hg. by apply get_ok in Hg as (_ & -> & _). }
  intros cur Hcur. destruct (cancel_pending cur) eqn:Hc.
  { apply returns_ret. by rewrite (cancel_pending_id _ _ Hc). }
  eapply returns_bind; [apply returns_any|]. intros [tid|diag] _; [|apply Hu].
  destruct (validate_job_id tid) as [tid'|]; [|apply Hu].
  eapply (returns_bind _ _ (λ p, p.(broker_job_id) = r.(broker_job_id))).
  - apply returns_retry. intros r' <-. eapply returns_bind; [apply returns_any|]. intros t _.
    by eapply (returns_transition _ _ _ _ (TPlaced _ _)).
  - intros p Hpid. by apply returns_ret.
Qed.

Lemma place_locked_id id snapshots age :
  returns (place_locked O id snapshots age) (λ o, o.(o_broker_job_id) = id).
Proof.
  unfold place_locked. eapply returns_bind; [apply returns_any|]. intros r _.
  case_match; [apply returns_throw|].
  do 3 (eapply returns_bind; [apply returns_any|]; intros ? _).
  case_match.
  - eapply returns_bind; [apply returns_any|]. intros [skipped [[h root]|]] _.
    + do 2 (eapply returns_bind; [apply returns_any|]; intros ? _).
      eapply returns_bind; [apply returns_any|]. intros r1 _.
      eapply returns_bind; [apply returns_any|]. intros t _.
      eapply (returns_bind _ _ (λ r2, r2.(broker_job_id) = id)).
      * by eapply (returns_transition _ _ _ _ TBegin).
      * intros r2 <-. apply transfer_id.
    + eapply returns_bind; [apply returns_any|]. intros. by apply returns_ret.
  - eapply returns_bind; [apply returns_any|]. intros. by apply returns_ret.
Qed.

End results.

(** ** Every request the placer sends *)

Lemma attempts_wf_key n id l a :
  attempts_wf n id l = true → a ∈ l → a.(idempotency_key) = id.
Proof.
  revert n. induction l as [|b l IH]; intros n; simpl; [set_solver|].
  intros [Hb Hl]%andb_true_iff [->|Ha]%elem_of_cons; [|by eapply IH].
  unfold attempt_wf in Hb. rewrite !andb_true_iff in Hb.
  apply String.eqb_eq. tauto.
Qed.

Lemma current_in r a : current_attempt r = Some a → a ∈ r.(attempts).
Proof. unfold current_attempt. intros Hl. rewrite (last_split _ _ Hl). set_solver. Qed.

(** An attempt of an earlier state of a record is found in a later one. *)
Lemma history_lookup l l' i a :
  history_le l l' → l !! i = Some a → ∃ b, l' !! i = Some b ∧ attempt_evolves a b.
Proof.
  intros (l1 & l2 & -> & HF) Hi. destruct (Forall2_lookup_l _ _ _ _ _ HF Hi) as (b & Hb & Hab).
  exists b. split; [|done]. rewrite lookup_app_l; [done|]. by eapply lookup_lt_Some.
Qed.

Lemma sorted_lookup {A} (R : A → A → Prop) (l : list A) i j x y :
  StronglySorted R l → (i < j)%nat → l !! i = Some x → l !! j = Some y → R x y.
Proof.
  intros Hs Hij Hi Hj. rewrite <-(take_drop (S i) l) in Hs.
  apply (StronglySorted_app_1_elem_of R (take (S i) l) (drop (S i) l)); [done|..].
  - apply (list_elem_of_lookup_2 _ i). rewrite lookup_take_lt by lia. done.
  - apply (list_elem_of_lookup_2 _ (j - S i)). rewrite lookup_drop. by replace (S i + (j - S i))%nat with j by lia.
Qed.

Lemma history_length l l' : history_le l l' → (length l <= length l')%nat.
Proof. intros (l1 & l2 & -> & HF%Forall2_length). rewrite length_app. lia. Qed.

Lemma lookup_removelast {A} (l : list A) i x :
  l !! i = Some x → (S i < length l)%nat → x ∈ removelast l.
Proof.
  intros Hi Hlt. destruct (last l) as [y|] eqn:E.
  - pose proof (last_split _ _ E) as Hsp. rewrite Hsp in Hi, Hlt. rewrite length_app in Hlt. simpl in Hlt.
    rewrite lookup_app_l in Hi by lia. by eapply list_elem_of_lookup_2.
  - apply last_None in E. by rewrite E in Hi.
Qed.

(** An attempt whose transfer began and that is no longer the current one
    was fenced. *)
Lemma superseded_fenced r r' a :
  record_wf r = true → r.(rstate) = TRANSFERRING → current_attempt r = Some a →
  record_wf r' = true → evolves r r' → length r'.(attempts) ≠ length r.(attempts) →
  ∃ b, r'.(attempts) !! pred (length r.(attempts)) = Some b
    ∧ b.(request_fingerprint) = a.(request_fingerprint) ∧ b.(phase) = RETURNED
    ∧ startswith (opt_or b.(return_reason) "") FENCED_RETURN_PREFIX = true.
Proof.
  intros Hw Hst Ha Hw' Hev Hlen. pose proof (record_wf_consistent _ Hw) as Hc.
  pose proof (record_wf_consistent _ Hw') as Hc'.
  destruct (live_attempt r Hc) as (a' & Ha' & Hph & Hin); [set_solver|]. simplify_eq.
  pose proof Ha as Hl. unfold current_attempt in Hl. rewrite last_lookup in Hl.
  destruct (history_lookup _ _ _ _ (ev_history _ _ Hev) Hl) as (b & Hb & Hab).
  destruct (ae_begun _ _ Hab) as (_ & Hfp & Hstarted); [congruence|].
  exists b. split_and!; [done|done|..].
  all: pose proof (history_length _ _ (ev_history _ _ Hev)) as Hle; pose proof (lookup_lt_Some _ _ _ Hl).
  all: destruct (cons_earlier _ Hc' b) as [Hret _]; [eapply lookup_removelast; [done|lia]|]; try done.
  pose proof (cons_attempt _ Hc a Hin) as Hca. pose proof (cons_attempt _ Hc' b (list_elem_of_lookup_2 _ _ _ Hb)) as Hcb.
  unfold attempt_contradiction in Hca, Hcb. rewrite Hph, Hst in Hca. rewrite Hret, Hfp, Hstarted in Hcb.
  destruct (transfer_started_at a); [|by destruct (request_fingerprint a)].
  clear Hca. destruct (startswith _ _); [done|]. by cbn in Hcb.
Qed.

Definition start (s : store) : world := {| w_store := s; w_tick := 0; w_trace := [] |}.

Lemma start_inv {H : Hashing} s : store_wf s → world_inv (start s).
Proof. intros Hs. split; [done|set_solver|constructor]. Qed.

Section sends.
Context {H : Hashing} {Hok : HashingOk H} (O : Oracles) (Hfriend : friendly O).

Lemma performs_inv cs s : store_wf s → world_inv (performs O cs (start s)).
Proof using Hok Hfriend. intros Hs. by apply (sound_performs O Hfriend), start_inv. Qed.

(** A placement the placer reports is on record: when [place] answers
    that the job was placed, the store holds its record as placed with the
    job id the target returned. *)
Theorem place_reports_recorded w id snapshots age o w' :
  world_inv w → place O id snapshots age w = (Ok o, w') → o.(o_outcome) = OUTCOME_PLACED →
  o.(o_broker_job_id) = id ∧ placed_as id o.(o_target_job_id) w'.
Proof using Hok Hfriend.
  intros Hw Hp Hk. assert (Hid : o.(o_broker_job_id) = id).
  { unfold place, with_pass_lock in Hp. repeat case_match; try done.
    exact (place_locked_id O id snapshots age _ _ _ Hp). }
  split; [done|]. rewrite <-Hid.
  destruct (triple_pass_lock O _ _ (place_locked_spec O Hfriend id snapshots age) _ _ _ Hw I Hp)
    as (_ & _ & _ & Ht). by apply Ht.
Qed.

(** C2: every request the placer ever sends, over any sequence of passes,
    placements and recoveries and any concurrent store operations, was built
    from a record in transfer, names that record's pinned target and state
    root, and carries the broker job id as its idempotency key; the record
    was not cancelled when it was last checked before sending, and the store
    still records the attempt with the same target and fingerprint. *)
Theorem placer_sends_pinned cs s e :
  store_wf s → e ∈ (performs O cs (start s)).(w_trace) →
  let q := e.(snt_request) in
  request_from e.(snt_record) q
  ∧ q.(t_idempotency_key) = q.(t_broker_job_id)
  ∧ e.(snt_checked).(cancellation) = None
  ∧ ∃ r i a, get (performs O cs (start s)).(w_store) q.(t_broker_job_id) = Ok r
      ∧ r.(attempts) !! i = Some a ∧ a.(target_host) = q.(t_target_host)
      ∧ a.(target_state_root) = q.(t_target_state_root)
      ∧ a.(request_fingerprint) = q.(t_request_fingerprint).
Proof using Hok Hfriend.
  intros Hs He q. pose proof (performs_inv cs s Hs) as Hinv.
  destruct (wi_sent _ Hinv e He) as (Hq & Ha1 & Hc & r & Hr & Ha2).
  pose proof Hq as Hq'. destruct Hq' as (a & Ha & Hst & Hw & Hid & Hh & Hroot & Hkey & Hfp & _).
  assert (advances (snt_record e) r) as [Hev _] by (by transitivity (snt_checked e)).
  assert (Hph : phase a = TRANSFERRING).
  { destruct (live_attempt (snt_record e) (record_wf_consistent _ Hw)) as (a' & Ha' & ? & _);
      [set_solver|]. congruence. }
  split_and!; [done| |done|].
  - unfold q. rewrite Hkey, Hid. apply record_wf_printable in Hw as [Hw _].
    eapply attempts_wf_key; [by apply record_core_wf_attempts|by apply current_in].
  - pose proof Ha as Hl. unfold current_attempt in Hl. rewrite last_lookup in Hl.
    destruct (history_lookup _ _ _ _ (ev_history _ _ Hev) Hl) as (b & Hb & Hab).
    exists r. eexists _, b. unfold q. rewrite Hid. split_and!; [done|exact Hb|..].
    + destruct (ae_pins _ _ Hab) as (_ & ? & _). congruence.
    + destruct (ae_pins _ _ Hab) as (_ & _ & ? & _). congruence.
    + destruct (ae_begun _ _ Hab) as (_ & ? & _); congruence.
Qed.

(** The same attempt yields the same request. *)
Lemma request_from_unique r r' q q' :
  request_from r q → request_from r' q' → advances r r' →
  length r'.(attempts) = length r.(attempts) → q' = q.
Proof.
  intros (a & Ha & Hs & Hw & ? & ? & ? & ? & ? & ? & ? & ? & ? & ?)
    (b & Hb & _ & _ & ? & ? & ? & ? & ? & ? & ? & ? & ? & ?) [Hev _] Hlen.
  pose proof (current_evolves _ _ _ _ (ev_history _ _ Hev) Hlen Ha Hb) as Hab.
  assert (phase a = TRANSFERRING) as Hph.
  { apply record_wf_consistent in Hw. destruct (live_attempt r Hw) as (a' & ? & ? & _); [set_solver|].
    congruence. }
  destruct Hev as [Hid _ Hint _ _ _ _ _ _]. destruct (ae_pins _ _ Hab) as (_&?&?&_&_&_&?&_&_&?).
  destruct (ae_begun _ _ Hab) as (_ & ? & _); [congruence|].
  destruct q, q'. simpl in *. f_equal; congruence.
Qed.

(** C1: at most one target at a time: two requests sent for the same job are
    the same request, byte for byte, unless the earlier one's attempt has
    since been fenced on its target and returned. *)
Theorem placer_sends_one_target cs s i j e1 e2 :
  store_wf s → (i < j)%nat →
  (performs O cs (start s)).(w_trace) !! i = Some e1 →
  (performs O cs (start s)).(w_trace) !! j = Some e2 →
  e1.(snt_request).(t_broker_job_id) = e2.(snt_request).(t_broker_job_id) →
  e2.(snt_request) = e1.(snt_request)
  ∨ ∃ r k a, get (performs O cs (start s)).(w_store) e1.(snt_request).(t_broker_job_id) = Ok r
      ∧ r.(attempts) !! k = Some a
      ∧ a.(request_fingerprint) = e1.(snt_request).(t_request_fingerprint)
      ∧ a.(phase) = RETURNED
      ∧ startswith (opt_or a.(return_reason) "") FENCED_RETURN_PREFIX = true.
Proof using Hok Hfriend.
  intros Hs Hij H1 H2 Hid. pose proof (performs_inv cs s Hs) as Hinv.
  destruct (wi_sent _ Hinv e1 (list_elem_of_lookup_2 _ _ _ H1)) as (Hq1 & Hc1 & _ & r & Hr & Hr1).
  destruct (wi_sent _ Hinv e2 (list_elem_of_lookup_2 _ _ _ H2)) as (Hq2 & Hc2 & _ & r2 & Hr2 & Hr2').
  assert (Hids : broker_job_id (snt_record e1) = broker_job_id (snt_record e2)).
  { destruct Hq1 as (? & _ & _ & _ & <- & _), Hq2 as (? & _ & _ & _ & <- & _). done. }
  assert (advances (snt_record e1) (snt_record e2)) as Hadv.
  { pose proof (wi_order _ Hinv) as Ho. by apply (sorted_lookup _ _ _ _ _ _ Ho Hij H1 H2). }
  destruct (decide (length (attempts (snt_record e2)) = length (attempts (snt_record e1)))) as [Hl|Hl];
    [left; by eapply request_from_unique|right].
  destruct Hq1 as (a & Ha & Hst & Hw & Hid1 & _ & _ & _ & Hfp & _).
  destruct Hq2 as (_ & _ & _ & Hw2 & _).
  destruct (superseded_fenced _ _ _ Hw Hst Ha Hw2 (proj1 Hadv) Hl) as (b & Hb & Hbfp & Hret & Hpre).
  assert (advances (snt_record e2) r2) as [Hev _] by (by transitivity (snt_checked e2)).
  destruct (history_lookup _ _ _ _ (ev_history _ _ Hev) Hb) as (b' & Hb' & Hbb).
  pose proof (ae_returned _ _ Hbb Hret) as ->. eexists r2, _, b.
  rewrite Hid1, Hids. split_and!; [done|exact Hb'|congruence|done|done].
Qed.
End sends.

(** ** Capacity *)

Lemma minus_some o n z : minus o n = Some z → ∃ f, o = Some f ∧ z = f - n.
Proof. destruct o as [f|]; [|done]. intros [= <-]. by exists f. Qed.

Lemma debited_headroom charges s c m j :
  s.(is_scheduler_host) = false →
  (debit_snapshot charges s).(free_cpus) = Some c →
  (debit_snapshot charges s).(free_mem_mb) = Some m →
  (debit_snapshot charges s).(free_jobs) = Some j →
  s.(free_cpus) = Some (c + charged Cpus charges s.(host))
  ∧ s.(free_mem_mb) = Some (m + charged Memory charges s.(host))
  ∧ s.(free_jobs) = Some (j + charged Slots charges s.(host)).
Proof.
  intros Hs. unfold debit_snapshot, charged. rewrite Hs.
  destruct (assoc (host s) charges) as [ch|]; simpl.
  - intros (f1 & -> & ->)%minus_some (f2 & -> & ->)%minus_some (f3 & -> & ->)%minus_some.
    split_and!; f_equal; lia.
  - intros -> -> ->. rewrite !Z.add_0_r. done.
Qed.

(** Capacity promised to another held job is not promised twice: a daemon
    host that can be chosen after the outstanding charges are debited had,
    before debiting, room for those charges and for this job together, in
    CPUs, in memory and in job slots. *)
Theorem debit_never_overpromises snapshots charges req t age d rk :
  place_broker_job (debit_snapshots snapshots charges) req t age = Ok d → rk ∈ d.(dec_ranking) →
  ∃ s, s ∈ snapshots ∧ s.(host) = rank_host rk ∧
    (s.(is_scheduler_host) = false →
     ∃ c m j, s.(free_cpus) = Some c ∧ s.(free_mem_mb) = Some m ∧ s.(free_jobs) = Some j
       ∧ charged Cpus charges s.(host) + req.(req_cpus) <= c
       ∧ charged Memory charges s.(host) + req.(req_mem_mb) <= m
       ∧ charged Slots charges s.(host) + 1 <= j).
Proof.
  intros (_ & _ & _ & ->)%place_broker_job_spec Hrk. simpl in Hrk.
  apply elem_of_sort_by, elem_of_ranked in Hrk as (ds & Hds & Hb & ->).
  apply list_elem_of_fmap in Hds as (s & -> & Hs). exists s.
  rewrite snapshot_rank_host, debit_host. split_and!; [done|done|]. intros Hsched.
  assert (is_scheduler_host (debit_snapshot charges s) = false) as Hd.
  { unfold debit_snapshot. rewrite Hsched. by case_match. }
  destruct (daemon_eligible _ _ _ _ Hb Hd) as (c & m & j & Hc & Hm & Hj & ? & ? & ?).
  destruct (debited_headroom _ _ _ _ _ Hsched Hc Hm Hj) as (-> & -> & ->).
  eexists _, _, _. split_and!; try done; lia.
Qed.

(** ** Strict FIFO *)

Section fifo.
Context {H : Hashing} {Hok : HashingOk H} (O : Oracles).

Definition moved (q : queue_result) : list PlacementOutcome :=
  List.filter (λ o, negb (bool_decide (o.(o_outcome) = OUTCOME_HELD))) q.(q_placements).

(** The jobs the loop stopped in front of. *)
Definition left_waiting (q : queue_result) : list string :=
  match q.(q_head) with Some (h, waiting, _) => h :: waiting | None => [] end.

Lemma place_queue_prefix f queue :
  (∀ id, returns (f id) (λ o, o.(o_broker_job_id) = id)) →
  returns (place_queue O f queue) (λ q, ∃ tried,
    map broker_job_id queue = tried ++ left_waiting q
    ∧ tried ≡ₚ map o_broker_job_id (moved q) ++ q.(q_refused) ++ q.(q_skipped)).
Proof.
  intros Hf. induction queue as [|r queue IH]; simpl.
  { apply returns_ret. by exists []. }
  set (P (res : res (option broker_state) PlacementOutcome) := match res with Ok o => o.(o_broker_job_id) = r.(broker_job_id) | Err _ => True end).
  apply (returns_bind _ _ P).
  { apply returns_catch.
    - eapply returns_bind; [apply Hf|]. intros o Ho. by apply returns_ret.
    - intros e. eapply returns_bind; [apply returns_any|]. intros st _. by apply returns_ret. }
  assert (Hstop : ∀ b, returns (ret (MkQueueResult [] [] [] (Some (broker_job_id r, map broker_job_id queue, b))))
    (λ q, ∃ tried, broker_job_id r :: map broker_job_id queue = tried ++ left_waiting q
      ∧ tried ≡ₚ map o_broker_job_id (moved q) ++ q_refused q ++ q_skipped q)).
  { intros b. apply returns_ret. by exists []. }
  intros [o|state] Hres.
  - case_bool_decide as Hk.
    + apply returns_ret. exists []. unfold moved. simpl. by rewrite bool_decide_eq_true_2.
    + eapply returns_bind; [apply IH|]. intros q (tried & Heq & Hp). apply returns_ret.
      exists (broker_job_id r :: tried). unfold moved, left_waiting. simpl.
      rewrite bool_decide_eq_false_2 by done. simpl. simpl in Hres. rewrite Hres.
      split; [by rewrite Heq|by rewrite Hp].
  - assert (Hgo : ∀ k, (k = true ∨ k = false) → returns (do? rest := place_queue O f queue in
      ret (MkQueueResult (q_placements rest)
             (if k then broker_job_id r :: q_refused rest else q_refused rest)
             (if k then q_skipped rest else broker_job_id r :: q_skipped rest) (q_head rest)))
      (λ q, ∃ tried, broker_job_id r :: map broker_job_id queue = tried ++ left_waiting q
        ∧ tried ≡ₚ map o_broker_job_id (moved q) ++ q_refused q ++ q_skipped q)).
    { intros k _. eapply returns_bind; [apply IH|]. intros q (tried & Heq & Hp). apply returns_ret.
      exists (broker_job_id r :: tried). unfold moved, left_waiting in *. simpl.
      split; [by rewrite Heq|]. rewrite Hp. destruct k; simpl; [by rewrite Permutation_middle|].
      rewrite !app_assoc. by rewrite Permutation_middle. }
    destruct state as [[]|]; try exact (Hgo true (or_introl eq_refl)).
    + apply Hstop.
    + exact (Hgo false (or_intror eq_refl)).
Qed.

(** The order of the queue on readable records. *)
Definition older (r r' : BrokerRecord) : Prop :=
  fltb r.(created_at) r'.(created_at) = true
  ∨ r.(created_at) = r'.(created_at) ∧ String.leb r.(broker_job_id) r'.(broker_job_id) = true.

Definition fifo_key (r : BrokerRecord) : Z * string :=
  (match r.(created_at) with FFin t => t | _ => 0 end, r.(broker_job_id)).

Lemma fifo_leb_key r r' :
  time_wf r.(created_at) = true → time_wf r'.(created_at) = true →
  fifo_leb r r' = on_key (lex_leb Z.leb String.leb) fifo_key r r'.
Proof.
  unfold fifo_leb, on_key, fifo_key, lex_leb, time_wf. simpl.
  by destruct (created_at r), (created_at r').
Qed.

Lemma fifo_key_older r r' :
  time_wf r.(created_at) = true → time_wf r'.(created_at) = true →
  on_key (lex_leb Z.leb String.leb) fifo_key r r' = true → older r r'.
Proof.
  unfold on_key, fifo_key, lex_leb, older, time_wf. simpl.
  destruct (created_at r) as [x| | |], (created_at r') as [y| | |]; simpl; try done.
  intros _ _ Hk. apply andb_true_iff in Hk as [Hxy Hk]. propify.
  destruct (Z.leb_spec y x); simpl in Hk; [right|left; by apply Z.ltb_lt]. split; [f_equal; lia|done].
Qed.
End fifo.

Lemma insert_by_ext {A} (f g : A → A → bool) x l :
  (∀ y, y ∈ l → f x y = g x y) → insert_by f x l = insert_by g x l.
Proof.
  induction l as [|y l IH]; simpl; intros Hfg; [done|]. rewrite (Hfg y) by set_solver.
  rewrite IH by set_solver. done.
Qed.

Lemma sort_by_ext {A} (f g : A → A → bool) l :
  (∀ x y, x ∈ l → y ∈ l → f x y = g x y) → sort_by f l = sort_by g l.
Proof.
  induction l as [|x l IH]; simpl; intros Hfg; [done|]. rewrite IH by set_solver.
  apply insert_by_ext. intros y Hy%elem_of_sort_by. apply Hfg; set_solver.
Qed.

(** Placement is strictly first-in first-out: the pass takes the held
    jobs oldest first (acceptance time, then id), and stops at the first one
    it cannot place; every job it got past was moved on, had left the queue,
    or was cancelled, and every job behind the stop is left waiting. *)
Theorem place_queue_strict_fifo {H : Hashing} {Hok : HashingOk H} O snapshots age rs w q w' :
  Forall (λ r, time_wf r.(created_at) = true) rs →
  place_queue O (λ id, place_locked O id snapshots age) (fifo_queue rs) w = (Ok q, w') →
  StronglySorted older (fifo_queue rs) ∧
  ∃ tried, map broker_job_id (fifo_queue rs) = tried ++ left_waiting q
    ∧ tried ≡ₚ map o_broker_job_id (moved q) ++ q.(q_refused) ++ q.(q_skipped).
Proof.
  intros Hrs Hq. split; [|exact (place_queue_prefix O _ _ (λ id, place_locked_id O id _ _) _ _ _ Hq)].
  unfold fifo_queue. set (l := List.filter _ rs).
  assert (Hl : ∀ r, r ∈ l → time_wf (created_at r) = true).
  { intros r Hr. rewrite Forall_forall in Hrs. apply Hrs. apply list_elem_of_In in Hr.
    apply filter_In in Hr as [? _]. by apply list_elem_of_In. }
  rewrite (sort_by_ext _ (on_key (lex_leb Z.leb String.leb) fifo_key))
    by (intros; apply fifo_leb_key; auto).
  set (g := on_key _ _). pose proof (sort_by_sorted g l) as Hs.
  assert (Hin : ∀ r, r ∈ sort_by g l → time_wf (created_at r) = true)
    by (intros r ?%elem_of_sort_by; auto).
  induction Hs as [|r rest _ IH Hr]; constructor; [apply IH; set_solver|].
  apply Forall_forall. intros r' Hr'. rewrite Forall_forall in Hr.
  apply fifo_key_older; [apply Hin; set_solver..|by apply Hr].
Qed.
