(* ===== verification/BrokerPlacerWitnesses.v ===== *)
(** * A placer on the small store

    Concrete runs of the broker placer that show the hypotheses of its
    theorems can hold: one target that answers, one that never does, and
    another process that cancels a job meanwhile. *)

From S2P Require Import Prelude Spec Overview Json BrokerRecord BrokerStore BrokerLifecycle BrokerSpec BrokerGuarantees BrokerWitnesses BrokerPlacer BrokerPlacerSafety.

(** [answer] is what every submit meets; a second process cancels job
    [victim] before the access numbered [at_tick]. *)
Definition toy_oracles (answer : res string string) (at_tick : nat) (victim : string) : Oracles :=
  {| interfere n s :=
       if Nat.eqb n at_tick
       then (run_transition calm s victim 3 (FFin 3) (TCancel "user")).2 else s;
     env_at _ := calm; pass_busy := false; clock n := FFin (10 + Z.of_nat n);
     submit _ _ := answer; state_root_of _ _ := ProbeRoot (Some "/srv/vq");
     refuse_target _ h := if String.eqb h "gamma" then Some "not configured" else None;
     job_refusal := None; rerank := None |}.

Lemma toy_friendly answer at_tick victim : friendly (toy_oracles answer at_tick victim).
Proof.
  intros n s Hs. cbn [interfere toy_oracles]. destruct (Nat.eqb n at_tick); [|done].
  destruct (run_transition _ _ _ _ _ _) as [out s'] eqn:E.
  by apply (run_transition_sound calm s victim 3 (FFin 3) (TCancel "user") out s' Hs).
Qed.

Definition answering : Oracles := toy_oracles (Ok "job-77") 0 "b-000000000000".
Definition silent : Oracles := toy_oracles (Err "timeout") 0 "b-000000000000".

Definition demo_snapshots : list BrokerCapacitySnapshot :=
  [demo_snapshot; sample_host "beta" 2 true].

Definition demo_start : world := start demo_held.(st).

Definition demo_place : res broker_error PlacementOutcome * world :=
  place answering demo_id demo_snapshots (FFin 1000) demo_start.

Definition no_outcome : PlacementOutcome := MkOutcome "" OUTCOME_HELD None None None [].
Definition outcome_of (r : res broker_error PlacementOutcome) : PlacementOutcome :=
  match r with Ok o => o | Err _ => no_outcome end.

Lemma demo_held_wf : store_wf demo_held.(st).
Proof. apply reachable_wf, demo_held_reachable. Qed.

Lemma place_reports_recorded_witness :
  (outcome_of demo_place.1).(o_broker_job_id) = demo_id ∧ placed_as demo_id (Some "job-77") demo_place.2.
Proof.
  apply (place_reports_recorded answering (toy_friendly _ _ _) demo_start demo_id demo_snapshots
           (FFin 1000) (outcome_of demo_place.1) demo_place.2).
  - apply start_inv, demo_held_wf.
  - vm_compute. reflexivity.
  - vm_compute. reflexivity.
Defined.

(** Two sends: the placement, and its replay during recovery. *)
Definition demo_calls : list placer_call :=
  [CallPlace demo_id demo_snapshots (FFin 1000); CallRecover].

Definition no_sent : sent := MkSent no_request no_record no_record.
Definition demo_sends : list sent := (performs silent demo_calls demo_start).(w_trace).

Example demo_sends_twice : length demo_sends = 2%nat.
Proof. vm_compute. reflexivity. Qed.

Lemma placer_sends_pinned_witness :
  let e := opt_or (demo_sends !! 0%nat) no_sent in
  let q := e.(snt_request) in
  request_from e.(snt_record) q
  ∧ q.(t_idempotency_key) = q.(t_broker_job_id)
  ∧ e.(snt_checked).(cancellation) = None
  ∧ ∃ r i a, get (performs silent demo_calls demo_start).(w_store) q.(t_broker_job_id) = Ok r
      ∧ r.(attempts) !! i = Some a ∧ a.(target_host) = q.(t_target_host)
      ∧ a.(target_state_root) = q.(t_target_state_root)
      ∧ a.(request_fingerprint) = q.(t_request_fingerprint).
Proof.
  apply (placer_sends_pinned silent (toy_friendly _ _ _) demo_calls demo_held.(st)).
  - apply demo_held_wf.
  - apply (list_elem_of_lookup_2 _ 0). vm_compute. reflexivity.
Defined.

Lemma placer_sends_one_target_witness :
  let e1 := opt_or (demo_sends !! 0%nat) no_sent in
  let e2 := opt_or (demo_sends !! 1%nat) no_sent in
  e2.(snt_request) = e1.(snt_request)
  ∨ ∃ r k a, get (performs silent demo_calls demo_start).(w_store) e1.(snt_request).(t_broker_job_id) = Ok r
      ∧ r.(attempts) !! k = Some a
      ∧ a.(request_fingerprint) = e1.(snt_request).(t_request_fingerprint)
      ∧ a.(phase) = RETURNED
      ∧ startswith (opt_or a.(return_reason) "") FENCED_RETURN_PREFIX = true.
Proof.
  apply (placer_sends_one_target silent (toy_friendly _ _ _) demo_calls demo_held.(st) 0 1).
  - apply demo_held_wf.
  - lia.
  - vm_compute. reflexivity.
  - vm_compute. reflexivity.
  - vm_compute. reflexivity.
Defined.

Definition demo_charges : list (string * BrokerCharge) := [("alpha", MkCharge 2 1000 1)].

Definition demo_choice : BrokerPlacementDecision :=
  match place_broker_job (debit_snapshots demo_snapshots demo_charges) sample_request (FFin 10)
          (FFin 1000) with
  | Ok d => d | Err _ => demo_decision
  end.

Lemma debit_never_overpromises_witness :
  ∃ s, s ∈ demo_snapshots ∧ s.(host) = "alpha" ∧
    (s.(is_scheduler_host) = false →
     ∃ c m j, s.(free_cpus) = Some c ∧ s.(free_mem_mb) = Some m ∧ s.(free_jobs) = Some j
       ∧ charged Cpus demo_charges s.(host) + 4 <= c
       ∧ charged Memory demo_charges s.(host) + 2000 <= m
       ∧ charged Slots demo_charges s.(host) + 1 <= j).
Proof.
  apply (debit_never_overpromises demo_snapshots demo_charges sample_request (FFin 10) (FFin 1000)
           demo_choice (opt_or (head demo_choice.(dec_ranking)) (0, (0, (0, (0, (0, (0, "")))))))).
  - vm_compute. reflexivity.
  - apply (list_elem_of_lookup_2 _ 0). vm_compute. reflexivity.
Defined.

(** Two held jobs; the second waits behind the first when nothing fits. *)
Definition demo_two : system := do_accept demo_held "other" demo_intent (FFin 2) (Keyed "job-2").
Definition demo_records : list BrokerRecord :=
  match scan demo_two.(st) with Ok (rs, _) => rs | Err _ => [] end.
Definition demo_pass (O : Oracles) : res broker_error queue_result * world :=
  place_queue O (λ id, place_locked O id [sample_host "beta" 2 true] (FFin 1000))
    (fifo_queue demo_records) (start demo_two.(st)).
Definition demo_queue : queue_result :=
  match (demo_pass answering).1 with Ok q => q | Err _ => MkQueueResult [] [] [] None end.

Lemma place_queue_strict_fifo_witness :
  StronglySorted older (fifo_queue demo_records) ∧
  ∃ tried, map broker_job_id (fifo_queue demo_records) = tried ++ left_waiting demo_queue
    ∧ tried ≡ₚ map o_broker_job_id (moved demo_queue) ++ demo_queue.(q_refused)
              ++ demo_queue.(q_skipped).
Proof.
  apply (place_queue_strict_fifo answering [sample_host "beta" 2 true] (FFin 1000) demo_records
           (start demo_two.(st)) demo_queue (demo_pass answering).2).
  - vm_compute. repeat constructor.
  - vm_compute. reflexivity.
Defined.

Example demo_queue_waits : length (left_waiting demo_queue) = 2%nat.
Proof. vm_compute. reflexivity. Qed.

(** A cancellation that lands between the state-root probe and the send wins. *)
Example cancelled_before_send :
  let out := performs (toy_oracles (Ok "job-77") 5 demo_id)
               [CallPlace demo_id demo_snapshots (FFin 1000)] demo_start in
  out.(w_trace) = [] ∧ match get out.(w_store) demo_id with
                       | Ok r => r.(rstate) = TRANSFERRING ∧ is_some r.(cancellation)
                       | Err _ => False
                       end.
Proof. vm_compute. repeat split. Qed.
