(* ===== verification/PlacementPolicy.v ===== *)
(** * The completion-time policy: [src/vq/placement_policy.py]

    A fleet of targets and a request; why a target cannot run the request, the
    parts of the predicted completion and the order of the targets; and the
    broker's re-ranking with it, [src/vq/broker_completion.py].

    A float is the rational it stands for; the rounded operations of binary64
    are parameters ([fadd], [fdiv], [fsum]), comparisons are exact.  Times are whole
    microseconds, as [datetime] has them.  A reason is a constructor with the
    values its text shows, the text a parameter; the three decimals of the
    printed figures and the JSON of the files are left out. *)

From Stdlib Require Import QArith.
From S2P Require Import Prelude Spec Json Overview BrokerRecord.

#[global] Open Scope Z_scope.

(** ** The records *)

Inductive target_kind : Type := KindDaemon | KindScheduler.
#[global] Instance target_kind_eq_dec : EqDecision target_kind.
Proof. solve_decision. Defined.

Inductive wait_source : Type := WaitHistory | WaitDeclared | WaitSchedulerEstimate.

Record WaitModel : Type := MkWaitModel { wm_low : Q; wm_high : Q; wm_source : wait_source }.

(** [NodeShape] and [FreeCapacity] have the same fields. *)
Record Shape : Type := MkShape {
  sh_cpus : option Z;
  sh_mem_mb : option Z;
  sh_scratch_mb : option Z;
  sh_gpus : option Z;
}.

Record Target : Type := MkTarget {
  tg_name : string;
  tg_kind : target_kind;
  tg_observed_at : Z;
  tg_reachable : bool;
  tg_maintenance : bool;
  tg_os : option string;
  tg_arch : option string;
  tg_isa_levels : list string;
  tg_programs : gmap string (list string);
  tg_accounts : option (list string);
  tg_queue : option string;
  tg_data_access : option (list string);
  tg_licenses : option (list string);
  tg_node : Shape;
  tg_max_nodes : Z;
  tg_max_walltime_seconds : option Z;
  tg_walltime_unlimited : bool;
  tg_free : option Shape;
  tg_queue_wait_seconds : option WaitModel;
  tg_speed_factor : Q;
  tg_staging_mb_per_second : option Q;
  tg_transfer_mb_per_second : option Q;
}.

Record Request : Type := MkPlacementRequest {
  pr_program : string;
  pr_runtime_digest : option string;
  pr_os : option string;
  pr_arch : option string;
  pr_isa_level : option string;
  pr_account : option string;
  pr_queue : option string;
  pr_required_data_access : list string;
  pr_required_licenses : list string;
  pr_cpus : Z;
  pr_nodes : Z;
  pr_mpi_ranks : option Z;
  pr_threads_per_rank : option Z;
  pr_mem_mb_per_node : option Z;
  pr_scratch_mb_per_node : option Z;
  pr_gpus_per_node : option Z;
  pr_wall_time_seconds : option Z;
  pr_runtime_seconds : option (Q * Q);
  pr_input_mb : Q;
  pr_output_mb : Q;
}.

(** *** Validation *)

Definition Qltb (x y : Q) : bool := negb (Qle_bool y x).

Definition label_start_ok (p : ascii → bool) (hi : Z) (s : string) : bool :=
  match s with
  | String c rest => is_alnum c && (str_len rest <=? hi) && all_chars p rest
  | EmptyString => false
  end.
Definition is_label_char (c : ascii) : bool := is_alnum c || mem_str (String c "") ["."; "_"; "+"; "-"].
Definition is_label : string → bool := label_start_ok is_label_char 63.
Definition is_name : string → bool := label_start_ok (λ c, is_label_char c || Ascii.eqb c "/") 127.
Definition is_digest : string → bool := fullmatch_class is_lower_hex 64 64.

Definition opt_all {A} (p : A → bool) (o : option A) : bool := match o with Some x => p x | None => true end.
Definition at_least (n : Z) (z : Z) : bool := n <=? z.
Definition at_most_items {A} (n : Z) (l : list A) : bool := Z.of_nat (length l) <=? n.

Definition interval_ok (low high : Q) : bool := Qle_bool 0 low && Qle_bool low high.
Definition node_ok (s : Shape) : bool :=
  opt_all (at_least 1) s.(sh_cpus) && opt_all (at_least 1) s.(sh_mem_mb)
  && opt_all (at_least 0) s.(sh_scratch_mb) && opt_all (at_least 0) s.(sh_gpus).
Definition free_ok (s : Shape) : bool :=
  opt_all (at_least 0) s.(sh_cpus) && opt_all (at_least 0) s.(sh_mem_mb)
  && opt_all (at_least 0) s.(sh_scratch_mb) && opt_all (at_least 0) s.(sh_gpus).

Definition programs_ok (ps : gmap string (list string)) : bool :=
  at_most_items 256 (map_to_list ps) && forallb (λ p, is_label p.1 && forallb is_digest p.2) (map_to_list ps).

(** [Target], with its fields and [_consistent]. *)
Definition target_ok (t : Target) : bool :=
  is_name t.(tg_name) && opt_all is_label t.(tg_os) && opt_all is_label t.(tg_arch)
  && at_most_items 32 t.(tg_isa_levels) && forallb is_label t.(tg_isa_levels) && programs_ok t.(tg_programs)
  && opt_all (forallb is_label) t.(tg_accounts) && opt_all is_label t.(tg_queue)
  && opt_all (λ l, at_most_items 256 l && forallb is_label l) t.(tg_data_access)
  && opt_all (λ l, at_most_items 256 l && forallb is_label l) t.(tg_licenses)
  && node_ok t.(tg_node) && at_least 1 t.(tg_max_nodes) && opt_all (at_least 1) t.(tg_max_walltime_seconds)
  && opt_all free_ok t.(tg_free) && opt_all (λ w, interval_ok w.(wm_low) w.(wm_high)) t.(tg_queue_wait_seconds)
  && Qltb 0 t.(tg_speed_factor) && opt_all (Qltb 0) t.(tg_staging_mb_per_second)
  && opt_all (Qltb 0) t.(tg_transfer_mb_per_second)
  && negb (t.(tg_walltime_unlimited) && is_some t.(tg_max_walltime_seconds))
  && match t.(tg_kind) with
     | KindDaemon => (t.(tg_max_nodes) =? 1) && negb (is_some t.(tg_queue))
     | KindScheduler => negb (is_some t.(tg_free))
     end.

(** [Fleet] *)
Definition fleet_ok (targets : list Target) : bool :=
  match targets with [] => false | _ => true end && at_most_items 1024 targets && forallb target_ok targets
  && bool_decide (NoDup (map tg_name targets)).

(** [Request], with its fields and [_shape]. *)
Definition placement_request_ok (r : Request) : bool :=
  is_label r.(pr_program) && opt_all is_digest r.(pr_runtime_digest) && opt_all is_label r.(pr_os)
  && opt_all is_label r.(pr_arch) && opt_all is_label r.(pr_isa_level) && opt_all is_label r.(pr_account)
  && opt_all is_label r.(pr_queue)
  && at_most_items 256 r.(pr_required_data_access) && forallb is_label r.(pr_required_data_access)
  && at_most_items 256 r.(pr_required_licenses) && forallb is_label r.(pr_required_licenses)
  && at_least 1 r.(pr_cpus) && at_least 1 r.(pr_nodes) && opt_all (at_least 1) r.(pr_mpi_ranks)
  && opt_all (at_least 1) r.(pr_threads_per_rank) && opt_all (at_least 1) r.(pr_mem_mb_per_node)
  && opt_all (at_least 1) r.(pr_scratch_mb_per_node) && opt_all (at_least 1) r.(pr_gpus_per_node)
  && opt_all (at_least 1) r.(pr_wall_time_seconds) && opt_all (λ i, interval_ok i.1 i.2) r.(pr_runtime_seconds)
  && Qle_bool 0 r.(pr_input_mb) && Qle_bool 0 r.(pr_output_mb)
  && (r.(pr_nodes) <=? r.(pr_cpus)) && Bool.eqb (is_some r.(pr_mpi_ranks)) (is_some r.(pr_threads_per_rank))
  && match r.(pr_mpi_ranks), r.(pr_threads_per_rank) with
     | Some ranks, Some threads => (r.(pr_cpus) =? ranks * threads) && (r.(pr_nodes) <=? ranks)
     | _, _ => true
     end.

(** [Request.cpus_per_node] *)
Definition cpus_per_node (r : Request) : Z :=
  match r.(pr_mpi_ranks), r.(pr_threads_per_rank) with
  | Some ranks, Some threads => ((ranks + r.(pr_nodes) - 1) / r.(pr_nodes)) * threads
  | _, _ => (r.(pr_cpus) + r.(pr_nodes) - 1) / r.(pr_nodes)
  end.

(** ** Why a target cannot run a request *)

Inductive rejection : Type :=
| UnreachableTarget | InMaintenance | ObservationOld (age limit : Q) | ObservationSkewed (age : Q)
| ProgramMissing (program : string) | RuntimeMissing (digest : string) (has : list string)
| OsMismatch (os : option string) | ArchMismatch (arch : option string) | IsaMissing (level : string)
| AccountsUnknown (account : string) | AccountRefused (account : string)
| QueueNeedsScheduler (queue : string) | QueueMismatch (queue : option string)
| DataAccessUnknown (labels : list string) | DataAccessMissing (label : string)
| LicensesUnknown (labels : list string) | LicenseMissing (label : string)
| NodesExceeded | CpusUnknown | CpusExceeded | MemoryUnknown | MemoryExceeded | ScratchUnknown | ScratchExceeded
| GpusUnknown | GpusExceeded | WalltimeUnknown | WalltimeExceeded
| ExecutionExceedsRequest (high : Q) | ExecutionExceedsLimit (high : Q).

Definition FUTURE_SKEW_SECONDS : Q := 60.

Definition because (b : bool) (r : rejection) : list rejection := if b then [r] else [].

(** A label of the request that the target must have. *)
Definition same_label (wanted has : option string) (r : rejection) : list rejection :=
  match wanted with None => [] | Some w => because (negb (bool_decide (has = Some w))) r end.

(** A figure of the request against the node's. *)
Definition figure_within (wanted has : option Z) (unknown exceeded : rejection) : list rejection :=
  match wanted, has with
  | None, _ => []
  | Some _, None => [unknown]
  | Some w, Some h => because (h <? w) exceeded
  end.

(** [sorted(set(required))] and [sorted(required - set(available))] *)
Definition label_set (l : list string) : list string := sort_by String.leb (remove_dups l).
Definition labels (required : list string) (available : option (list string)) (unknown : list string → rejection)
    (missing : string → rejection) : list rejection :=
  match required, available with
  | [], _ => []
  | _, None => [unknown (label_set required)]
  | _, Some have => map missing (label_set (List.filter (λ l, negb (mem_str l have)) required))
  end.

(** The other tests of [_rejections], in its order. *)
Definition age_reasons (age max_age_seconds : Q) : list rejection :=
  if Qltb max_age_seconds age then [ObservationOld age max_age_seconds]
  else because (Qltb age (Qopp FUTURE_SKEW_SECONDS)) (ObservationSkewed age).
Definition program_reasons (t : Target) (r : Request) : list rejection :=
  match t.(tg_programs) !! r.(pr_program) with
  | None | Some [] => [ProgramMissing r.(pr_program)]
  | Some runtimes =>
    match r.(pr_runtime_digest) with
    | None => []
    | Some d => because (negb (mem_str d runtimes)) (RuntimeMissing d runtimes)
    end
  end.
Definition isa_reasons (t : Target) (r : Request) : list rejection :=
  match r.(pr_isa_level) with
  | None => []
  | Some level => because (negb (mem_str level t.(tg_isa_levels))) (IsaMissing level)
  end.
Definition account_reasons (t : Target) (r : Request) : list rejection :=
  match r.(pr_account), t.(tg_accounts) with
  | None, _ => []
  | Some a, None => [AccountsUnknown a]
  | Some a, Some permitted => because (negb (mem_str a permitted)) (AccountRefused a)
  end.
Definition queue_reasons (t : Target) (r : Request) : list rejection :=
  match r.(pr_queue), t.(tg_kind) with
  | None, _ => []
  | Some q, KindDaemon => [QueueNeedsScheduler q]
  | Some q, KindScheduler => because (negb (bool_decide (t.(tg_queue) = Some q))) (QueueMismatch t.(tg_queue))
  end.
Definition walltime_reasons (t : Target) (r : Request) : list rejection :=
  match r.(pr_wall_time_seconds), t.(tg_max_walltime_seconds) with
  | None, _ => []
  | Some _, None => because (negb t.(tg_walltime_unlimited)) WalltimeUnknown
  | Some w, Some limit => because (limit <? w) WalltimeExceeded
  end.
Definition over_limit (high : Q) (limit : option Z) (r : Q → rejection) : list rejection :=
  match limit with Some l => because (Qltb (inject_Z l) high) (r high) | None => [] end.

Section policy.
(** Addition, division and [sum] of floats. *)
Context (fadd fdiv : Q → Q → Q) (fsum : list Q → Q).

Definition execution_reasons (t : Target) (r : Request) : list rejection :=
  match r.(pr_runtime_seconds) with
  | None => []
  | Some (_, high) =>
    let execution_high := fdiv high t.(tg_speed_factor) in
    over_limit execution_high r.(pr_wall_time_seconds) ExecutionExceedsRequest
    ++ over_limit execution_high t.(tg_max_walltime_seconds) ExecutionExceedsLimit
  end.

(** [_rejections] *)
Definition rejections (t : Target) (r : Request) (age max_age_seconds : Q) : list rejection :=
  because (negb t.(tg_reachable)) UnreachableTarget
  ++ because t.(tg_maintenance) InMaintenance
  ++ age_reasons age max_age_seconds
  ++ program_reasons t r
  ++ same_label r.(pr_os) t.(tg_os) (OsMismatch t.(tg_os))
  ++ same_label r.(pr_arch) t.(tg_arch) (ArchMismatch t.(tg_arch))
  ++ isa_reasons t r
  ++ account_reasons t r
  ++ queue_reasons t r
  ++ labels r.(pr_required_data_access) t.(tg_data_access) DataAccessUnknown DataAccessMissing
  ++ labels r.(pr_required_licenses) t.(tg_licenses) LicensesUnknown LicenseMissing
  ++ because (t.(tg_max_nodes) <? r.(pr_nodes)) NodesExceeded
  ++ figure_within (Some (cpus_per_node r)) t.(tg_node).(sh_cpus) CpusUnknown CpusExceeded
  ++ figure_within r.(pr_mem_mb_per_node) t.(tg_node).(sh_mem_mb) MemoryUnknown MemoryExceeded
  ++ figure_within r.(pr_scratch_mb_per_node) t.(tg_node).(sh_scratch_mb) ScratchUnknown ScratchExceeded
  ++ figure_within r.(pr_gpus_per_node) t.(tg_node).(sh_gpus) GpusUnknown GpusExceeded
  ++ walltime_reasons t r
  ++ execution_reasons t r.

(** ** The predicted completion *)

(** A [_Part]: its interval and where it is from, or why it is unknown. *)
Inductive part_source : Type :=
| NothingToMove | Moved (mb rate : Q) | FitsNow | WaitModelled (source : wait_source) | Estimated (speed : Q).
Inductive part : Type :=
| Known (low high : Q) (source : part_source)
| NoRate | NoRoomNoModel | NoWaitModel | NoEstimate.

Definition span (p : part) : option (Q * Q) := match p with Known low high _ => Some (low, high) | _ => None end.

(** [_moving] *)
Definition moving (mb : Q) (rate : option Q) : part :=
  if Qeq_bool mb 0 then Known 0 0 NothingToMove
  else match rate with
       | None => NoRate
       | Some rate => let seconds := fdiv mb rate in Known seconds seconds (Moved mb rate)
       end.

(** [_queue_wait] *)
Definition figure_fits (wanted free : option Z) : bool :=
  match wanted, free with
  | None, _ => true
  | Some _, None => false
  | Some w, Some f => w <=? f
  end.
Definition fits_free (free : Shape) (r : Request) : bool :=
  figure_fits (Some r.(pr_cpus)) free.(sh_cpus) && figure_fits r.(pr_mem_mb_per_node) free.(sh_mem_mb)
  && figure_fits r.(pr_scratch_mb_per_node) free.(sh_scratch_mb) && figure_fits r.(pr_gpus_per_node) free.(sh_gpus).
Definition queue_wait (t : Target) (r : Request) : part :=
  let fits_now := match t.(tg_kind), t.(tg_free) with
                  | KindDaemon, Some free => fits_free free r
                  | _, _ => false
                  end in
  if fits_now then Known 0 0 FitsNow
  else
    match t.(tg_queue_wait_seconds), t.(tg_kind) with
    | Some wait, _ => Known wait.(wm_low) wait.(wm_high) (WaitModelled wait.(wm_source))
    | None, KindDaemon => NoRoomNoModel
    | None, KindScheduler => NoWaitModel
    end.

(** [_execution] *)
Definition execution (t : Target) (r : Request) : part :=
  match r.(pr_runtime_seconds) with
  | None => NoEstimate
  | Some (low, high) =>
    Known (fdiv low t.(tg_speed_factor)) (fdiv high t.(tg_speed_factor)) (Estimated t.(tg_speed_factor))
  end.

Definition COMPONENTS : list string := ["staging"; "queue_wait"; "execution"; "transfer"].

Record Candidate : Type := MkCandidate {
  cd_target : string;
  cd_kind : target_kind;
  cd_runtime_digest : string;
  cd_data_age_seconds : Q;
  cd_components : list (string * part);
  cd_low : Q;
  cd_high : Q;
  cd_unknown : list string;
}.

(** [(now - observed_at).total_seconds()] *)
Definition age_of (now observed_at : Z) : Q := fdiv (inject_Z (now - observed_at)) (inject_Z (10 ^ 6)).

Definition candidate (r : Request) (now : Z) (t : Target) : Candidate :=
  let parts := zip COMPONENTS
    [moving r.(pr_input_mb) t.(tg_staging_mb_per_second); queue_wait t r; execution t r;
     moving r.(pr_output_mb) t.(tg_transfer_mb_per_second)] in
  let known := omap (λ p, span p.2) parts in
  MkCandidate t.(tg_name) t.(tg_kind)
    (opt_or r.(pr_runtime_digest) (opt_or (head (opt_or (t.(tg_programs) !! r.(pr_program)) [])) ""))
    (age_of now t.(tg_observed_at)) parts (fsum (map fst known)) (fsum (map snd known))
    (omap (λ p, match span p.2 with Some _ => None | None => Some p.1 end) parts).

(** The sort key; the name comes last. *)
Definition candidate_key (ct : Candidate * Target) : Z * (Q * (Q * (Q * string))) :=
  let c := ct.1 in
  (Z.of_nat (length c.(cd_unknown)),
   (fdiv (fadd c.(cd_low) c.(cd_high)) 2, (c.(cd_high), (Qopp ct.2.(tg_speed_factor), c.(cd_target))))).
Definition candidate_leb : Candidate * Target → Candidate * Target → bool :=
  on_key (lex_leb Z.leb (lex_leb Qle_bool (lex_leb Qle_bool (lex_leb Qle_bool String.leb)))) candidate_key.

Record Explanation : Type := MkExplanation {
  ex_candidates : list Candidate;
  ex_rejected : list (string * list rejection);
}.

Inductive policy_error : Type := PolicyValueError | PolicyKeyError | PolicyTimeError.

(** [explain] *)
Definition explain (targets : list Target) (r : Request) (now : Z) (max_age_seconds : pyfloat) : res policy_error Explanation :=
  match max_age_seconds with
  | FFin ticks =>
    raise? PolicyValueError when (ticks <=? 0) in
    let max_age := Qmake ticks (Z.to_pos TICKS_PER_SECOND) in
    let sorted := sort_by (on_key String.leb tg_name) targets in
    let reasons t := rejections t r (age_of now t.(tg_observed_at)) max_age in
    let eligible := omap (λ t, match reasons t with [] => Some (candidate r now t, t) | _ => None end) sorted in
    Ok (MkExplanation (map fst (sort_by candidate_leb eligible))
          (omap (λ t, match reasons t with [] => None | rs => Some (t.(tg_name), rs) end) sorted))
  | _ => Err PolicyValueError
  end.
End policy.

(** ** The broker's re-ranking: [broker_completion.py] *)

Definition COMMAND_PROGRAM : string := "vq-command".
Definition _COMMAND_RUNTIME : string := "0000000000000000000000000000000000000000000000000000000000000000".
Definition _PREFIX : string := "completion-time: ".

(** [datetime.fromtimestamp] in microseconds, half to even; [None] raises. *)
Definition round_half_even (a b : Z) : Z :=
  let q := a / b in
  let r := 2 * (a mod b) in
  if r <? b then q else if b <? r then q + 1 else if Z.even q then q else q + 1.
Definition fromtimestamp (t : pyfloat) : option Z :=
  match t with FFin ticks => Some (round_half_even (ticks * 10 ^ 6) TICKS_PER_SECOND) | _ => None end.

Definition num_q (n : pynum) : option Q :=
  match n with
  | NInt z => Some (inject_Z z)
  | NFloat (FFin ticks) => Some (Qmake ticks (Z.to_pos TICKS_PER_SECOND))
  | NFloat _ => None
  end.

Section completion.
Context (fadd fdiv : Q → Q → Q) (fsum : list Q → Q).
(** The text of a reason and of a [ValueError]. *)
Context (reason_text : rejection → string) (value_error_text : string).

(** The record of a host with this pass's evidence laid over it. *)
Definition overlay (program : option string) (t : Target) (observed : Z) (s : BrokerCapacitySnapshot) : Target :=
  MkTarget t.(tg_name) t.(tg_kind) observed true t.(tg_maintenance) t.(tg_os) t.(tg_arch) t.(tg_isa_levels)
    (if is_some program then t.(tg_programs) else <[COMMAND_PROGRAM := [_COMMAND_RUNTIME]]> t.(tg_programs))
    t.(tg_accounts) t.(tg_queue) t.(tg_data_access) t.(tg_licenses) t.(tg_node) t.(tg_max_nodes)
    t.(tg_max_walltime_seconds) t.(tg_walltime_unlimited)
    (Some (MkShape s.(free_cpus) s.(free_mem_mb) (t.(tg_free) ≫= sh_scratch_mb) (t.(tg_free) ≫= sh_gpus)))
    t.(tg_queue_wait_seconds) t.(tg_speed_factor) t.(tg_staging_mb_per_second) t.(tg_transfer_mb_per_second).

Definition completion_request (i : BrokerIntent) : option Request :=
  let request runtime :=
    MkPlacementRequest (match i.(i_program) with Some EmptyString | None => COMMAND_PROGRAM | Some p => p end)
      None None None None None None [] [] i.(i_cpus) 1 None None (Some i.(i_mem_mb)) None None
      i.(i_wall_time_seconds) runtime 0 0 in
  match i.(i_runtime_seconds) with
  | None => Some (request None)
  | Some (low, high) => low ← num_q low; high ← num_q high; Some (request (Some (low, high)))
  end.

(** [_held] *)
Definition held (d : BrokerPlacementDecision) (blockers : list (string * string)) : BrokerPlacementDecision :=
  {| dec_host := None; dec_blockers := sort_by pair_leb blockers; dec_ranking := [] |}.

(** One admitted host: a blocker, or its record for the planner. *)
Definition overlay_host (base : list Target) (program : option string) (snapshots : list BrokerCapacitySnapshot)
    (acc : list (string * string) * list Target) (h : string) : res policy_error (list (string * string) * list Target) :=
  match List.find (λ t, String.eqb t.(tg_name) h) base with
  | Some (MkTarget _ KindDaemon _ _ _ _ _ _ _ _ _ _ _ _ _ _ _ _ _ _ _ _ as t) =>
    match List.find (λ s, String.eqb s.(host) h) (rev snapshots) with
    | None => Err PolicyKeyError
    | Some s =>
      match fromtimestamp s.(observed_at) with
      | None => Err PolicyTimeError
      | Some observed => Ok (acc.1, acc.2 ++ [overlay program t observed s])
      end
    end
  | _ => Ok (acc.1 ++ [(h, _PREFIX +:+ "not a daemon target of the placement fleet")], acc.2)
  end.

(** The planner's answer for the overlaid targets. *)
Definition plan_targets (targets : list Target) (i : BrokerIntent) (now max_age_seconds : pyfloat) : res policy_error Explanation :=
  raise? PolicyValueError when (negb (fleet_ok targets)) in
  match completion_request i with
  | None => Err PolicyValueError
  | Some r =>
    raise? PolicyValueError when (negb (placement_request_ok r)) in
    match fromtimestamp now with
    | None => Err PolicyTimeError
    | Some t => explain fadd fdiv fsum targets r t max_age_seconds
    end
  end.

(** [rank_admitted] *)
Definition rank_admitted (base : list Target) (i : BrokerIntent) (d : BrokerPlacementDecision)
    (snapshots : list BrokerCapacitySnapshot) (now max_age_seconds : pyfloat) : res policy_error BrokerPlacementDecision :=
  let? acc := foldM_res (overlay_host base i.(i_program) snapshots) (d.(dec_blockers), []) (map rank_host d.(dec_ranking)) in
  let '(blockers, targets) := acc in
  match plan_targets targets i now max_age_seconds with
  | Err PolicyValueError => Ok (held d (blockers ++ map (λ t, (t.(tg_name), _PREFIX +:+ value_error_text)) targets))
  | Err e => Err e
  | Ok ex =>
    let order := map cd_target ex.(ex_candidates) in
    Ok {| dec_host := head order;
          dec_blockers := sort_by pair_leb (blockers
            ++ map (λ r, (r.1, _PREFIX +:+ String.concat "; " (map reason_text r.2))) ex.(ex_rejected));
          dec_ranking := omap (λ h, List.find (λ rk, String.eqb (rank_host rk) h) d.(dec_ranking)) order |}
  end.

(** [completion_time_reranker]: [base] is the fleet, or [None] when the file
    cannot be used. *)
Definition completion_time_reranker (base : option (list Target)) (r : BrokerRecord) (d : BrokerPlacementDecision)
    (snapshots : list BrokerCapacitySnapshot) (now max_age_seconds : pyfloat) : res policy_error BrokerPlacementDecision :=
  match base with
  | None =>
    Ok (held d (d.(dec_blockers) ++ map (λ rk, (rank_host rk, _PREFIX +:+ "placement fleet unusable: " +:+ value_error_text))
                                      d.(dec_ranking)))
  | Some base => rank_admitted base r.(intent) d snapshots now max_age_seconds
  end.
End completion.
