(* ===== verification/PlacementGuarantees.v ===== *)
(** * What the completion-time policy guarantees

    A target is rejected exactly when it does not meet the request's hard
    requirements; every target of the fleet is ranked or rejected, in an order
    that does not depend on the fleet's; and the broker's re-ranking adds no
    host, loses none and keeps every reason. *)

From Stdlib Require Import QArith.
From S2P Require Import Prelude Spec Json Overview BrokerRecord PlacementPolicy.

#[global] Open Scope Z_scope.

(** ** Hard requirements *)

(** What a request asks of a target, one clause each. *)
Record meets (fdiv : Q → Q → Q) (t : Target) (r : Request) (age max_age : Q) : Prop := {
  me_up : t.(tg_reachable) = true ∧ t.(tg_maintenance) = false;
  me_fresh : (age <= max_age)%Q ∧ (- FUTURE_SKEW_SECONDS <= age)%Q;
  me_program : ∃ d ds, t.(tg_programs) !! r.(pr_program) = Some (d :: ds)
    ∧ ∀ x, r.(pr_runtime_digest) = Some x → x ∈ d :: ds;
  me_os o : r.(pr_os) = Some o → t.(tg_os) = Some o;
  me_arch a : r.(pr_arch) = Some a → t.(tg_arch) = Some a;
  me_isa l : r.(pr_isa_level) = Some l → l ∈ t.(tg_isa_levels);
  me_account a : r.(pr_account) = Some a → ∃ l, t.(tg_accounts) = Some l ∧ a ∈ l;
  me_queue q : r.(pr_queue) = Some q → t.(tg_kind) = KindScheduler ∧ t.(tg_queue) = Some q;
  me_data l : l ∈ r.(pr_required_data_access) → ∃ have, t.(tg_data_access) = Some have ∧ l ∈ have;
  me_licenses l : l ∈ r.(pr_required_licenses) → ∃ have, t.(tg_licenses) = Some have ∧ l ∈ have;
  me_nodes : r.(pr_nodes) <= t.(tg_max_nodes);
  me_cpus : ∃ c, t.(tg_node).(sh_cpus) = Some c ∧ cpus_per_node r <= c;
  me_mem m : r.(pr_mem_mb_per_node) = Some m → ∃ h, t.(tg_node).(sh_mem_mb) = Some h ∧ m <= h;
  me_scratch m : r.(pr_scratch_mb_per_node) = Some m → ∃ h, t.(tg_node).(sh_scratch_mb) = Some h ∧ m <= h;
  me_gpus m : r.(pr_gpus_per_node) = Some m → ∃ h, t.(tg_node).(sh_gpus) = Some h ∧ m <= h;
  me_walltime w : r.(pr_wall_time_seconds) = Some w →
    match t.(tg_max_walltime_seconds) with Some limit => w <= limit | None => t.(tg_walltime_unlimited) = true end;
  me_execution low high : r.(pr_runtime_seconds) = Some (low, high) →
    (∀ w, r.(pr_wall_time_seconds) = Some w → (fdiv high t.(tg_speed_factor) <= inject_Z w)%Q)
    ∧ (∀ limit, t.(tg_max_walltime_seconds) = Some limit → (fdiv high t.(tg_speed_factor) <= inject_Z limit)%Q);
}.

Lemma Qltb_false x y : Qltb x y = false ↔ (y <= x)%Q.
Proof. unfold Qltb. rewrite negb_false_iff. apply Qle_bool_iff. Qed.

Lemma app_nil_iff {A} (l1 l2 : list A) : l1 ++ l2 = [] ↔ l1 = [] ∧ l2 = [].
Proof. split; [apply app_eq_nil|by intros [-> ->]]. Qed.

Lemma because_nil b r : because b r = [] ↔ b = false.
Proof. by destruct b. Qed.

Lemma same_label_nil wanted has r : same_label wanted has r = [] ↔ ∀ w, wanted = Some w → has = Some w.
Proof.
  unfold same_label. destruct wanted as [w|]; [|naive_solver]. rewrite because_nil, negb_false_iff, bool_decide_eq_true. naive_solver.
Qed.

Lemma within_nil wanted has u x : figure_within wanted has u x = [] ↔ ∀ w, wanted = Some w → ∃ h, has = Some h ∧ w <= h.
Proof.
  unfold figure_within. destruct wanted as [w|], has as [h|]; try naive_solver. rewrite because_nil, Z.ltb_ge. naive_solver.
Qed.

Lemma label_set_nil l : label_set l = [] ↔ l = [].
Proof.
  unfold label_set. split; [|by intros ->]. intros Hl. destruct l as [|x l]; [done|].
  assert (x ∈ sort_by String.leb (remove_dups (x :: l))) as Hx by (apply elem_of_sort_by, elem_of_remove_dups; by left).
  rewrite Hl in Hx. by apply elem_of_nil in Hx.
Qed.

Lemma filter_nil {A} (p : A → bool) l : List.filter p l = [] ↔ ∀ x, x ∈ l → p x = false.
Proof.
  induction l as [|y l IH]; simpl; [split; [intros _ x Hx; by apply elem_of_nil in Hx|done]|].
  destruct (p y) eqn:Ey.
  - split; [done|]. intros Hx. specialize (Hx y (list_elem_of_here _ _)). congruence.
  - rewrite IH. set_solver.
Qed.

Lemma labels_nil required available u m :
  labels required available u m = [] ↔ ∀ l, l ∈ required → ∃ have, available = Some have ∧ l ∈ have.
Proof.
  destruct required as [|x required]; [split; [intros _ l Hl; by apply elem_of_nil in Hl|done]|].
  destruct available as [have|]; simpl.
  - assert (map m (label_set (List.filter (λ l, negb (mem_str l have)) (x :: required))) = []
      ↔ List.filter (λ l, negb (mem_str l have)) (x :: required) = []) as Hm.
    { rewrite <- label_set_nil. by destruct (label_set _). }
    transitivity (List.filter (λ l, negb (mem_str l have)) (x :: required) = []); [exact Hm|]. rewrite filter_nil.
    split; intros H l Hl; specialize (H l Hl).
    + rewrite negb_false_iff, mem_str_decide, bool_decide_eq_true in H. by exists have.
    + destruct H as (? & [= <-] & Hin). rewrite mem_str_decide. by rewrite bool_decide_true.
  - split; [done|]. intros H. by destruct (H x (list_elem_of_here _ _)) as (? & ? & _).
Qed.

Lemma age_nil age max_age : age_reasons age max_age = [] ↔ (age <= max_age)%Q ∧ (- FUTURE_SKEW_SECONDS <= age)%Q.
Proof.
  unfold age_reasons. rewrite <- !Qltb_false. destruct (Qltb max_age age); [naive_solver|]. rewrite because_nil. naive_solver.
Qed.

Lemma missing_nil x l r : because (negb (mem_str x l)) r = [] ↔ x ∈ l.
Proof. by rewrite because_nil, negb_false_iff, mem_str_decide, bool_decide_eq_true. Qed.

Lemma program_nil t r :
  program_reasons t r = [] ↔
  ∃ d ds, t.(tg_programs) !! r.(pr_program) = Some (d :: ds) ∧ ∀ x, r.(pr_runtime_digest) = Some x → x ∈ d :: ds.
Proof.
  unfold program_reasons. destruct (tg_programs t !! pr_program r) as [[|d ds]|]; [naive_solver| |naive_solver].
  destruct (pr_runtime_digest r) as [x|]; [|naive_solver]. rewrite missing_nil. naive_solver.
Qed.

Lemma isa_nil t r : isa_reasons t r = [] ↔ ∀ l, r.(pr_isa_level) = Some l → l ∈ t.(tg_isa_levels).
Proof. unfold isa_reasons. destruct (pr_isa_level r) as [l|]; [|naive_solver]. rewrite missing_nil. naive_solver. Qed.

Lemma account_nil t r : account_reasons t r = [] ↔ ∀ a, r.(pr_account) = Some a → ∃ l, t.(tg_accounts) = Some l ∧ a ∈ l.
Proof.
  unfold account_reasons. destruct (pr_account r) as [a|], (tg_accounts t) as [l|]; try naive_solver. rewrite missing_nil. naive_solver.
Qed.

Lemma queue_nil t r :
  queue_reasons t r = [] ↔ ∀ q, r.(pr_queue) = Some q → t.(tg_kind) = KindScheduler ∧ t.(tg_queue) = Some q.
Proof.
  unfold queue_reasons. destruct (pr_queue r) as [q|], (tg_kind t); try naive_solver.
  rewrite because_nil, negb_false_iff, bool_decide_eq_true. naive_solver.
Qed.

Lemma walltime_nil t r :
  walltime_reasons t r = [] ↔ ∀ w, r.(pr_wall_time_seconds) = Some w →
    match t.(tg_max_walltime_seconds) with Some limit => w <= limit | None => t.(tg_walltime_unlimited) = true end.
Proof.
  unfold walltime_reasons. destruct (pr_wall_time_seconds r) as [w|], (tg_max_walltime_seconds t) as [l|]; try naive_solver;
    rewrite because_nil, ?negb_false_iff, ?Z.ltb_ge; naive_solver.
Qed.

Lemma over_limit_nil high limit r : over_limit high limit r = [] ↔ ∀ l, limit = Some l → (high <= inject_Z l)%Q.
Proof. unfold over_limit. destruct limit as [l|]; [|naive_solver]. rewrite because_nil, Qltb_false. naive_solver. Qed.

Lemma execution_nil fdiv t r :
  execution_reasons fdiv t r = [] ↔ ∀ low high, r.(pr_runtime_seconds) = Some (low, high) →
    (∀ w, r.(pr_wall_time_seconds) = Some w → (fdiv high t.(tg_speed_factor) <= inject_Z w)%Q)
    ∧ (∀ limit, t.(tg_max_walltime_seconds) = Some limit → (fdiv high t.(tg_speed_factor) <= inject_Z limit)%Q).
Proof.
  unfold execution_reasons. destruct (pr_runtime_seconds r) as [[low high]|]; [|naive_solver].
  rewrite app_nil_iff, !over_limit_nil. split; [by intros ? ? ? [= <- <-]|intros H; by apply (H low high)].
Qed.

(** C31: a target is rejected for a reason, and only then.  The planner's list
    of reasons is empty exactly when the target meets every hard requirement of
    the request: it is up, freshly observed, has the program and the very
    runtime asked for, the labels, accounts, licenses and data, and its nodes,
    memory, scratch, GPUs and time limits are known to be enough. *)
Theorem rejections_exact fdiv t r age max_age : rejections fdiv t r age max_age = [] ↔ meets fdiv t r age max_age.
Proof.
  unfold rejections. rewrite !app_nil_iff, !because_nil, !same_label_nil, !within_nil, !labels_nil, negb_false_iff, Z.ltb_ge,
    age_nil, program_nil, isa_nil, account_nil, queue_nil, walltime_nil, execution_nil.
  split.
  - intros (H1 & H2 & H3 & H4 & H5 & H6 & H7 & H8 & H9 & H10 & H11 & H12 & H13 & H14 & H15 & H16 & H17 & H18).
    split; try done. by apply H13.
  - intros []. split_and!; try tauto; try done. by intros w [= <-].
Qed.

(** ** The order *)

#[export] Instance Qle_bool_total : TotalLeb Qle_bool.
Proof.
  split; intros *; rewrite ?Qle_bool_iff.
  - destruct (Qlt_le_dec x y); [left; by apply Qlt_le_weak|by right].
  - apply Qle_trans.
Qed.

(** Sorting with an order that is antisymmetric on the elements depends only on them. *)
Lemma sort_by_perm_eq_on {A} (leb : A → A → bool) `{!TotalLeb leb} (l1 l2 : list A) :
  (∀ a b, a ∈ l1 → b ∈ l1 → leb a b = true → leb b a = true → a = b) → l1 ≡ₚ l2 → sort_by leb l1 = sort_by leb l2.
Proof.
  intros Hanti Hp. eapply (StronglySorted_unique_strong (λ a b, leb a b = true)); [|apply sort_by_sorted, _..|by rewrite !sort_by_perm].
  intros a b Ha%elem_of_sort_by Hb%elem_of_sort_by. apply Hanti; [done|]. by rewrite Hp.
Qed.

Lemma by_name_antisym (l : list Target) a b :
  NoDup (map tg_name l) → a ∈ l → b ∈ l → a.(tg_name) = b.(tg_name) → a = b.
Proof.
  induction l as [|x l IH]; simpl; [intros _ Ha; by apply elem_of_nil in Ha|]. intros [Hx Hn]%NoDup_cons.
  assert (∀ y, y ∈ l → tg_name x ≠ tg_name y) as Hne by (intros y Hy Heq; apply Hx; rewrite Heq; by apply list_elem_of_fmap_2).
  intros [->|Ha]%elem_of_cons [->|Hb]%elem_of_cons Heq; [done|by destruct (Hne b)|by destruct (Hne a)|auto].
Qed.

Section explain.
Context (fadd fdiv : Q → Q → Q) (fsum : list Q → Q).

Lemma leb_antisym_eq x y : String.leb x y = true → String.leb y x = true → x = y.
Proof.
  rewrite !string_leb_cases. intros [->|H1] [H2|H2]; [done..|]. pose proof (string_compare_lt_trans _ _ _ H1 H2) as H.
  by rewrite string_compare_refl in H.
Qed.

(** The order of the fleet's file means nothing.  Two fleets with the same
    targets, each named once, are explained alike: the same ranking with the
    same figures and the same rejections with the same reasons. *)
Theorem explain_order_irrelevant targets targets' r now max_age :
  targets ≡ₚ targets' → fleet_ok targets = true →
  explain fadd fdiv fsum targets r now max_age = explain fadd fdiv fsum targets' r now max_age.
Proof.
  intros Hp Hf. apply andb_true_iff in Hf as [_ Hn%bool_decide_eq_true]. unfold explain.
  destruct max_age as [ticks| | |]; [|done..]. destruct (ticks <=? 0); [done|].
  rewrite (sort_by_perm_eq_on (on_key String.leb tg_name) targets targets'); [done| |done].
  intros a b Ha Hb H1 H2. apply (by_name_antisym targets); [done..|]. by apply leb_antisym_eq.
Qed.

Lemma omap_split {A B C} (f : A → option B) (g : A → option C) (key : A → string) (kf : B → string) (kg : C → string) l :
  (∀ x, x ∈ l → match f x, g x with
                | Some y, None => kf y = key x | None, Some z => kg z = key x | _, _ => False end) →
  map kf (omap f l) ++ map kg (omap g l) ≡ₚ map key l.
Proof.
  induction l as [|x l IH]; intros H; simpl; [done|]. pose proof (H x (list_elem_of_here _ _)) as Hx.
  assert (map kf (omap f l) ++ map kg (omap g l) ≡ₚ map key l) as Hl by (apply IH; intros y Hy; apply H; by right).
  destruct (f x) as [y|], (g x) as [z|]; simpl; try done; rewrite Hx, <- Hl; [done|]. by rewrite Permutation_middle.
Qed.

(** Every target is ranked or rejected. *)
Lemma explain_partition targets r now max_age ex :
  explain fadd fdiv fsum targets r now max_age = Ok ex →
  map cd_target ex.(ex_candidates) ++ map fst ex.(ex_rejected) ≡ₚ map tg_name targets.
Proof.
  unfold explain. destruct max_age as [ticks| | |]; [|done..]. destruct (ticks <=? 0); [done|]. intros [= <-]. simpl.
  rewrite map_map. set (el := omap _ _). set (sorted := sort_by (on_key String.leb tg_name) targets) in *.
  assert (map (λ x : Candidate * Target, cd_target x.1) (sort_by (candidate_leb fadd fdiv) el) ≡ₚ map (λ x, cd_target x.1) el) as ->
    by by rewrite sort_by_perm.
  transitivity (map tg_name sorted); [|by unfold sorted; rewrite sort_by_perm]. unfold el. apply omap_split. intros t _.
  by destruct (rejections _ _ _ _ _).
Qed.

Definition limit_of (max_age : pyfloat) : Q :=
  match max_age with FFin ticks => Qmake ticks (Z.to_pos TICKS_PER_SECOND) | _ => 0%Q end.

(** C28: the planner selects the best of the targets that can run the job.  The
    target it puts first meets every hard requirement, and no other target
    that meets them comes before it: with fewer unknown parts of the completion,
    or as many and an earlier midpoint, a lower upper bound, a faster machine or
    a smaller name; if it selects none, no target meets the requirements; and
    each target is ranked or rejected, once. *)
Theorem explain_selects_best targets r now max_age ex :
  explain fadd fdiv fsum targets r now max_age = Ok ex →
  let able t := meets fdiv t r (age_of fdiv now t.(tg_observed_at)) (limit_of max_age) in
  map cd_target ex.(ex_candidates) ++ map fst ex.(ex_rejected) ≡ₚ map tg_name targets
  ∧ match ex.(ex_candidates) with
    | [] => ∀ t, t ∈ targets → ¬ able t
    | c :: _ => ∃ t, t ∈ targets ∧ able t ∧ c = candidate fdiv fsum r now t
        ∧ ∀ t', t' ∈ targets → able t' →
            candidate_leb fadd fdiv (c, t) (candidate fdiv fsum r now t', t') = true
    end.
Proof.
  intros He able. split; [by eapply explain_partition|]. unfold explain in He. destruct max_age as [ticks| | |]; [|done..].
  destruct (ticks <=? 0); [done|]. injection He as <-. simpl in *.
  set (el := omap _ _). assert (∀ c t, (c, t) ∈ el ↔ t ∈ targets ∧ able t ∧ c = candidate fdiv fsum r now t) as Hel.
  { intros c t. unfold el. rewrite list_elem_of_omap. unfold able. split.
    - intros (t' & Ht'%elem_of_sort_by & Hm). destruct (rejections _ _ _ _ _) eqn:Er; [|done]. injection Hm as <- <-.
      by rewrite <- rejections_exact.
    - intros (Ht & Ha%rejections_exact & ->). exists t. rewrite elem_of_sort_by. split; [done|]. by rewrite Ha. }
  clearbody el. assert (TotalLeb (candidate_leb fadd fdiv)) as Htot by (unfold candidate_leb; apply _).
  destruct (sort_by (candidate_leb fadd fdiv) el) as [|[c t] rest] eqn:Es; simpl.
  - intros t Ht Ha. assert ((candidate fdiv fsum r now t, t) ∈ el) as Hin by by apply Hel.
    rewrite <- (elem_of_sort_by (candidate_leb fadd fdiv)), Es in Hin. by apply elem_of_nil in Hin.
  - apply sort_by_head in Es as [Hin Hleast]; [|done]. apply Hel in Hin as (Ht & Ha & Hc). exists t. split_and!; try done.
    intros t' Ht' Ha'. apply Hleast. by apply Hel.
Qed.
End explain.

(** ** The broker's re-ranking *)

Section completion.
Context (fadd fdiv : Q → Q → Q) (fsum : list Q → Q) (reason_text : rejection → string) (value_error_text : string).

Lemma overlay_hosts base program snapshots hs bs ts :
  (∀ h, h ∈ hs → ∃ s, s ∈ snapshots ∧ s.(host) = h) →
  (∀ s, s ∈ snapshots → s.(host) ∈ hs → isfinite s.(observed_at) = true) →
  ∃ bs' ts', foldM_res (overlay_host base program snapshots) (bs, ts) hs = Ok (bs ++ bs', ts ++ ts')
    ∧ map fst bs' ++ map tg_name ts' ≡ₚ hs.
Proof.
  revert bs ts. induction hs as [|h hs IH]; intros bs ts Hs Hf; simpl.
  { exists [], []. by rewrite !app_nil_r. }
  assert (∀ bs1 ts1, ∃ bs' ts', foldM_res (overlay_host base program snapshots) (bs1, ts1) hs = Ok (bs1 ++ bs', ts1 ++ ts')
    ∧ map fst bs' ++ map tg_name ts' ≡ₚ hs) as IH'.
  { intros bs1 ts1. apply IH; [intros h' Hh'; apply Hs; by right|intros s Hin Hh'; apply Hf; [done|by right]]. }
  assert (∀ reason, ∃ bs' ts', foldM_res (overlay_host base program snapshots) (bs ++ [(h, reason)], ts) hs = Ok (bs ++ bs', ts ++ ts')
    ∧ map fst bs' ++ map tg_name ts' ≡ₚ h :: hs) as Hblock.
  { intros reason. destruct (IH' (bs ++ [(h, reason)]) ts) as (bs' & ts' & -> & Hp). exists ((h, reason) :: bs'), ts'.
    rewrite <- app_assoc. split; [done|]. simpl. by rewrite Hp. }
  unfold overlay_host at 1. destruct (List.find (λ t, String.eqb t.(tg_name) h) base) as [t|] eqn:Et; [|apply Hblock].
  destruct (tg_kind t) eqn:Ek; [|destruct t; simpl in Ek; subst; apply Hblock].
  apply List.find_some in Et as [_ Et%String.eqb_eq].
  destruct (List.find (λ s, String.eqb s.(host) h) (rev snapshots)) as [s|] eqn:Esn.
  - apply List.find_some in Esn as [Hin Hh%String.eqb_eq]. apply in_rev in Hin.
    assert (isfinite s.(observed_at) = true) as Hfin by (apply Hf; [by apply list_elem_of_In|rewrite Hh; by left]).
    destruct (observed_at s) as [ticks| | |] eqn:Eo; [|done..].
    destruct (IH' bs (ts ++ [overlay program t (round_half_even (ticks * 10 ^ 6) TICKS_PER_SECOND) s])) as (bs' & ts' & Hfold & Hp).
    exists bs', (overlay program t (round_half_even (ticks * 10 ^ 6) TICKS_PER_SECOND) s :: ts').
    destruct t; simpl in *; subst. rewrite Hfold, <- app_assoc. split; [done|].
    rewrite <- Permutation_middle. by rewrite Hp.
  - destruct (Hs h (list_elem_of_here _ _)) as (s & Hin & Hh). apply List.find_none with (x := s) in Esn.
    + simpl in Esn. apply String.eqb_neq in Esn. done.
    + apply in_rev. rewrite rev_involutive. by apply list_elem_of_In.
Qed.

Lemma find_ranks (rks : list rank) (order : list string) :
  (∀ h, h ∈ order → h ∈ map rank_host rks) →
  map rank_host (omap (λ h, List.find (λ rk, String.eqb (rank_host rk) h) rks) order) = order
  ∧ ∀ rk, rk ∈ omap (λ h, List.find (λ rk, String.eqb (rank_host rk) h) rks) order → rk ∈ rks.
Proof.
  induction order as [|h order IH]; intros Hin; simpl; [split; [done|intros rk Hrk; by apply elem_of_nil in Hrk]|].
  destruct IH as [IH1 IH2]; [intros h' Hh'; apply Hin; by right|].
  destruct (List.find _ rks) as [rk|] eqn:Ef.
  - apply List.find_some in Ef as [Hrk Hh%String.eqb_eq]. simpl. split; [f_equal; [done|exact IH1]|].
    intros rk' [->|Hrk']%elem_of_cons; [by apply list_elem_of_In|auto].
  - destruct (list_elem_of_fmap_1 rank_host rks h) as (rk & -> & Hrk); [apply Hin; by left|].
    apply List.find_none with (x := rk) in Ef; [|by apply list_elem_of_In]. by rewrite String.eqb_refl in Ef.
Qed.

Lemma admitted_snapshots l req now age d :
  place_broker_job l req now age = Ok d →
  (∀ h, h ∈ map rank_host d.(dec_ranking) → ∃ s, s ∈ l ∧ s.(host) = h)
  ∧ (∀ s, s ∈ l → s.(host) ∈ map rank_host d.(dec_ranking) → isfinite s.(observed_at) = true)
  ∧ isfinite now = true.
Proof.
  intros (Hp & _ & Hn & ->)%place_broker_job_spec. simpl.
  assert (∀ h, h ∈ map rank_host (sort_by rank_leb (omap (ranked_of req now age) l)) →
    ∃ s, s ∈ l ∧ s.(host) = h ∧ snapshot_blocker s req now age = None) as Hr.
  { intros h (rk & -> & Hrk)%list_elem_of_fmap_1. apply elem_of_sort_by, elem_of_ranked in Hrk as (s & Hs & Hb & ->).
    exists s. by rewrite snapshot_rank_host. }
  split_and!.
  - intros h (s & ? & ? & _)%Hr. by exists s.
  - intros s Hs (s' & Hs' & Hh & Hb)%Hr. assert (s' = s) as ->.
    { clear -Hn Hs Hs' Hh. induction l as [|x l IH]; [by apply elem_of_nil in Hs|]. simpl in Hn. apply NoDup_cons in Hn as [Hx Hn].
      assert (∀ y, y ∈ l → host y ≠ host x) as Hne by (intros y Hy Heq; apply Hx; rewrite <- Heq; by apply list_elem_of_fmap_2).
      apply elem_of_cons in Hs as [->|Hs], Hs' as [->|Hs']; [done|by destruct (Hne s')|by destruct (Hne s)|auto]. }
    unfold snapshot_blocker in Hb. repeat case_match; simplify_eq; propify; done.
  - unfold policy_ok, broker_observation_policy in Hp. by destruct (isfinite now).
Qed.

(** C27: re-ranking by completion time keeps the broker's admission.  For a
    decision of [place_broker_job] the policy always answers; it ranks only
    hosts the decision admitted, names the first of them, keeps every blocker
    and gives a reason for every host it does not rank, so that each host is
    accounted for once. *)
Theorem completion_time_sound base record l req now age d :
  place_broker_job l req now age = Ok d →
  ∃ d', completion_time_reranker fadd fdiv fsum reason_text value_error_text base record d l now age = Ok d'
    ∧ (∀ rk, rk ∈ d'.(dec_ranking) → rk ∈ d.(dec_ranking))
    ∧ d'.(dec_host) = rank_host <$> head d'.(dec_ranking)
    ∧ d.(dec_blockers) ⊆ d'.(dec_blockers)
    ∧ map fst d'.(dec_blockers) ++ map rank_host d'.(dec_ranking) ≡ₚ map host l.
Proof.
  intros Hd. destruct (place_broker_job_partition l req now age d Hd) as [Hpart _].
  destruct (admitted_snapshots l req now age d Hd) as (Hs & Hf & Hnow).
  assert (∀ extra, map fst extra ≡ₚ map rank_host d.(dec_ranking) → ∃ d', Ok (held d (d.(dec_blockers) ++ extra)) = Ok (E := policy_error) d'
    ∧ (∀ rk, rk ∈ d'.(dec_ranking) → rk ∈ d.(dec_ranking)) ∧ d'.(dec_host) = rank_host <$> head d'.(dec_ranking)
    ∧ d.(dec_blockers) ⊆ d'.(dec_blockers)
    ∧ map fst d'.(dec_blockers) ++ map rank_host d'.(dec_ranking) ≡ₚ map host l) as Hheld.
  { intros extra He. eexists. split; [done|]. simpl. split_and!; [intros rk Hrk; by apply elem_of_nil in Hrk|done| |].
    - intros b Hb. apply elem_of_sort_by, elem_of_app. by left.
    - rewrite app_nil_r, sort_by_perm, map_app, He. done. }
  unfold completion_time_reranker. destruct base as [base|]; [|apply Hheld; by rewrite map_map].
  unfold rank_admitted. destruct (overlay_hosts base (i_program (intent record)) l _ (dec_blockers d) [] Hs Hf) as (bs' & ts' & -> & Hp).
  simpl. destruct (plan_targets _ _ _ _ _ _ _) as [ex|e] eqn:Ep.
  - assert (map cd_target (ex_candidates ex) ++ map fst (ex_rejected ex) ≡ₚ map tg_name ts') as Hex.
    { unfold plan_targets in Ep. destruct (negb _); [done|]. destruct (completion_request _); [|done]. destruct (negb _); [done|].
      destruct (fromtimestamp now); [|done]. by eapply explain_partition. }
    destruct (find_ranks (dec_ranking d) (map cd_target (ex_candidates ex))) as [Ho Hsub].
    { intros h Hh. rewrite <- Hp, <- Hex. set_solver. }
    eexists. split; [done|]. simpl. split_and!; [done| | |].
    + rewrite <- Ho at 1. by destruct (omap _ _).
    + intros b Hb. apply elem_of_sort_by. set_solver.
    + rewrite Ho, sort_by_perm, !map_app, map_map. simpl. rewrite <- !app_assoc. rewrite (Permutation_app_comm (map fst (ex_rejected ex))).
      rewrite Hex, Hp. done.
  - destruct e.
    + rewrite <- app_assoc. apply Hheld. by rewrite map_app, map_map.
    + unfold plan_targets, explain in Ep. by repeat case_match.
    + unfold plan_targets, explain in Ep. destruct now; [|done..]. by repeat case_match.
Qed.
End completion.
