(* ===== verification/PlacementWitnesses.v ===== *)
(** * A small fleet

    Two daemon hosts and a scheduler lane, exact arithmetic, and a broker
    decision over the first two: the inputs at which the theorems about the
    completion-time policy are applied. *)

From Stdlib Require Import QArith.
From S2P Require Import Prelude Spec Json Overview BrokerRecord BrokerStore BrokerWitnesses PlacementPolicy PlacementGuarantees.

#[global] Open Scope Z_scope.

Definition digest_a : string := "aaaaaaaaaaaaaaaaaaaaaaaaaaaaaaaaaaaaaaaaaaaaaaaaaaaaaaaaaaaaaaaa".

Definition a_target (name : string) (kind : target_kind) (speed : Q) (wait : option WaitModel) : Target :=
  MkTarget name kind 0 true false None None [] {[ "vibeqc" := [digest_a] ]} None None None None
    (MkShape (Some 16) (Some 64000) None None) 1 None true None wait speed None None.

(** Three targets: [slow], [fast] and a lane with a long wait. *)
Definition small_fleet : list Target :=
  [a_target "slow" KindDaemon 1 (Some (MkWaitModel 0 10 WaitDeclared)); a_target "fast" KindDaemon 2 (Some (MkWaitModel 0 10 WaitDeclared));
   a_target "lane" KindScheduler 4 (Some (MkWaitModel 3600 7200 WaitHistory))].

Definition a_request (cpus : Z) : Request :=
  MkPlacementRequest "vibeqc" None None None None None None [] [] cpus 1 None None (Some 1000) None None (Some 7200) (Some (600%Q, 1200%Q)) 0 0.

Definition explained (cpus : Z) : res policy_error Explanation :=
  explain Qplus Qdiv (foldl Qplus 0%Q) small_fleet (a_request cpus) 0 (float_of_int 300).

Lemma explained_order :
  (λ ex, (map cd_target ex.(ex_candidates), map fst ex.(ex_rejected))) <$> (match explained 8 with Ok ex => Some ex | Err _ => None end)
  = Some (["fast"; "slow"; "lane"], []).
Proof. vm_compute. reflexivity. Qed.

Definition first_explained : Explanation :=
  match explained 8 with Ok ex => ex | Err _ => MkExplanation [] [] end.

Lemma explain_selects_best_witness :
  map cd_target first_explained.(ex_candidates) ++ map fst first_explained.(ex_rejected) ≡ₚ ["slow"; "fast"; "lane"]
  ∧ ∃ t, t ∈ small_fleet
    ∧ meets Qdiv t (a_request 8) (age_of Qdiv 0 t.(tg_observed_at)) (limit_of (float_of_int 300)) ∧ t.(tg_name) = "fast".
Proof.
  destruct (explain_selects_best Qplus Qdiv (foldl Qplus 0%Q) small_fleet (a_request 8) 0 (float_of_int 300) first_explained)
    as [Hp Hc]; [vm_compute; reflexivity|]. split; [exact Hp|].
  change (ex_candidates first_explained) with
    (map (candidate Qdiv (foldl Qplus 0%Q) (a_request 8) 0)
      [a_target "fast" KindDaemon 2 (Some (MkWaitModel 0 10 WaitDeclared)); a_target "slow" KindDaemon 1 (Some (MkWaitModel 0 10 WaitDeclared));
       a_target "lane" KindScheduler 4 (Some (MkWaitModel 3600 7200 WaitHistory))]) in Hc.
  destruct Hc as (t & Ht & Ha & Heq & _). exists t. split; [exact Ht|]. split; [exact Ha|].
  exact (eq_sym (f_equal cd_target Heq)).
Defined.

(** The broker admits [alpha] and [beta]; the fleet knows [alpha] only. *)
Definition known_fleet : list Target := [a_target "alpha" KindDaemon 1 None].

Definition reranked : res policy_error BrokerPlacementDecision :=
  completion_time_reranker Qplus Qdiv (foldl Qplus 0%Q) (λ _, "reason") "invalid" (Some known_fleet) no_record sample_decision
    sample_hosts (FFin 10) (FFin 100).

Lemma completion_time_sound_witness :
  (λ d, (d.(dec_host), map fst d.(dec_blockers))) <$> (match reranked with Ok d => Some d | Err _ => None end)
    = Some (Some "alpha", ["beta"; "gamma"])
  ∧ ∃ d', reranked = Ok d' ∧ (∀ rk, rk ∈ d'.(dec_ranking) → rk ∈ sample_decision.(dec_ranking))
    ∧ d'.(dec_host) = rank_host <$> head d'.(dec_ranking)
    ∧ sample_decision.(dec_blockers) ⊆ d'.(dec_blockers)
    ∧ map fst d'.(dec_blockers) ++ map rank_host d'.(dec_ranking) ≡ₚ map host sample_hosts.
Proof.
  split; [vm_compute; reflexivity|].
  apply (completion_time_sound Qplus Qdiv (foldl Qplus 0%Q) (λ _, "reason") "invalid" (Some known_fleet) no_record sample_hosts
    sample_request (FFin 10) (FFin 100) sample_decision). vm_compute. reflexivity.
Defined.
