(* ===== verification/Admission.v ===== *)
(** * Admission: who may start, and in which order

    The pure parts of the daemon's dispatch pass: the dependency gate of
    [src/vq/admission.py], the scheduler budgets of
    [src/vq/scheduler_admission.py], the drain state of [src/vq/drain.py], the
    capacity check of [src/vq/capacity.py] and, from [src/vq/daemon.py], the
    retry backoff, the [not_before] gate and the fair order between resource
    pools. *)

From S2P Require Import Prelude Spec.

(** ** Dependencies *)

(** [iter_unmet_dependencies], materialised. *)
Definition iter_unmet_dependencies (spec : JobSpec) (specs_by_id : gmap string JobSpec)
    : list (string * option JobState) :=
  let observed d := state <$> specs_by_id !! d in
  omap (λ d, match specs_by_id !! d with
             | Some p => if bool_decide (p.(state) = COMPLETED) then None else Some (d, observed d)
             | None => Some (d, observed d)
             end) spec.(depends_on)
  ++ omap (λ d, match specs_by_id !! d with
                | Some p => if is_terminal p then None else Some (d, observed d)
                | None => Some (d, observed d)
                end) spec.(depends_on_any).

(** ** Retry backoff *)

Definition RETRY_BACKOFF_BASE_SECONDS : Z := 10.
Definition RETRY_BACKOFF_MAX_SECONDS : Z := 600.

Definition retry_backoff_seconds (retry_count : Z) : Z :=
  let delay := RETRY_BACKOFF_BASE_SECONDS * 2 ^ (retry_count - 1) in
  Z.min delay RETRY_BACKOFF_MAX_SECONDS.

Definition not_before_ready (not_before : option timestamp) (now : Z) : bool :=
  match not_before with
  | None => true
  | Some (Aware t) => t <=? now
  | Some (Naive _) | Some Blank | Some Unparseable => true
  end.

(** ** Configured capacity *)

Record DaemonCapacity : Type := MkCapacity {
  cap_max_cpus : Z;
  cap_max_mem_mb : option Z;
  cap_default_job_mem_mb : option Z;
}.

Record ConfiguredCapacityOverage : Type := MkOverage {
  ov_resource : string;
  ov_requested : Z;
  ov_limit : Z;
  ov_uses_default : bool;
}.

Definition configured_capacity_overages (cpus : Z) (mem_mb : option Z) (snapshot : DaemonCapacity)
    : list ConfiguredCapacityOverage :=
  let cpu_overages :=
    if snapshot.(cap_max_cpus) <? cpus then [MkOverage "cpus" cpus snapshot.(cap_max_cpus) false]
    else [] in
  let effective_mem_mb :=
    match mem_mb with Some m => Some m | None => snapshot.(cap_default_job_mem_mb) end in
  match effective_mem_mb, snapshot.(cap_max_mem_mb) with
  | Some m, Some limit =>
    if limit <? m
    then cpu_overages ++ [MkOverage "memory" m limit (bool_decide (mem_mb = None))]
    else cpu_overages
  | _, _ => cpu_overages
  end.

(** ** Drain *)

Inductive UpdateMode : Type := UpdateAccept | UpdateDeny.

#[global] Instance UpdateMode_eq_dec : EqDecision UpdateMode.
Proof. solve_decision. Defined.

Record DrainState : Type := MkDrain {
  enabled : bool;
  drain_max_jobs : option Z;
  drain_max_cpus : option Z;
  drain_set_at : string;
  drain_reason : option string;
  drain_owner_pid : option Z;
  drain_owner_pid_start_time : Z;
  scheduler_hosts : list string;
  full_dispatch : bool;
  reject_submits : bool;
  update_mode : option UpdateMode;
  duration_seconds : option Z;
}.

#[global] Instance DrainState_eq_dec : EqDecision DrainState.
Proof. solve_decision. Defined.

Definition is_full_drain (d : DrainState) : bool :=
  d.(enabled)
  && (d.(full_dispatch)
      || (bool_decide (d.(drain_max_jobs) = None) && bool_decide (d.(drain_max_cpus) = None)
          && bool_decide (d.(scheduler_hosts) = []))).

Definition is_scheduler_target_drain (d : DrainState) : bool :=
  d.(enabled) && negb (bool_decide (d.(scheduler_hosts) = [])).

Definition drains_scheduler_target (d : DrainState) (target : option string) : bool :=
  match target with
  | None => false
  | Some t => negb (String.eqb t "") && bool_decide (t ∈ d.(scheduler_hosts))
  end.

Definition effective_max_jobs (d : DrainState) (daemon_max_jobs : option Z) : option Z :=
  match d.(drain_max_jobs), daemon_max_jobs with
  | None, _ => daemon_max_jobs
  | Some m, None => Some m
  | Some m, Some n => Some (Z.min m n)
  end.

Definition effective_max_cpus (d : DrainState) (daemon_max_cpus : Z) : Z :=
  match d.(drain_max_cpus) with
  | None => daemon_max_cpus
  | Some m => Z.min m daemon_max_cpus
  end.

(** ** Scheduler budgets

    The hosts of the config; the interval is a number of ticks. *)

Record HostEntry : Type := MkHost {
  fleet_canonical_host : option string;
  scheduler_max_jobs : option Z;
  scheduler_submit_interval : Z;
}.

Definition Hosts : Type := list (string * HostEntry).

(** [host.fleet_canonical_host or name] *)
Definition canonical_of (name : string) (h : HostEntry) : string :=
  match h.(fleet_canonical_host) with
  | None | Some EmptyString => name
  | Some c => c
  end.

(** One pass's snapshot.  The dictionary of last attempts outlives the pass:
    it belongs to the daemon, and the operations take it as an argument. *)
Record SchedulerTargetAdmission : Type := MkAdmission {
  canonical_map : gmap string string;
  caps : gmap string Z;
  intervals : gmap string Z;
  active : gmap (option string) Z;
}.

Definition canonical_in (m : gmap string string) (target : string) : string :=
  default target (m !! target).

Definition canonical (a : SchedulerTargetAdmission) (target : string) : string :=
  canonical_in a.(canonical_map) target.

Definition counter_add {K} `{Countable K} (k : K) (n : Z) (m : gmap K Z) : gmap K Z :=
  <[k := default 0 (m !! k) + n]> m.

Definition add_host_caps (cm : gmap string string) (m : gmap string Z) (nh : string * HostEntry)
    : gmap string Z :=
  match nh.2.(scheduler_max_jobs) with
  | None => m
  | Some c => let target := canonical_in cm nh.1 in
              <[target := Z.min (default c (m !! target)) c]> m
  end.

Definition add_host_interval (cm : gmap string string) (m : gmap string Z) (nh : string * HostEntry)
    : gmap string Z :=
  let target := canonical_in cm nh.1 in
  <[target := Z.max (default 0 (m !! target)) nh.2.(scheduler_submit_interval)]> m.

Definition add_reservation (cm : gmap string string) (m : gmap (option string) Z)
    (r : option string * Z) : gmap (option string) Z :=
  counter_add (canonical_in cm <$> r.1) r.2 m.

Definition new_admission (hosts : Hosts) (reservations : list (option string * Z))
    : SchedulerTargetAdmission :=
  let cm := list_to_map (map (λ nh, (nh.1, canonical_of nh.1 nh.2)) hosts) in
  {| canonical_map := cm;
     caps := fold_left (add_host_caps cm) hosts ∅;
     intervals := fold_left (add_host_interval cm) hosts ∅;
     active := fold_left (add_reservation cm) reservations ∅ |}.

Definition count_active (a : SchedulerTargetAdmission) (k : option string) : Z :=
  default 0 (a.(active) !! k).

Definition can_attempt (a : SchedulerTargetAdmission) (last_attempts : gmap string Z)
    (target : string) (now : Z) : bool :=
  let c := canonical a target in
  let full := match a.(caps) !! c with
              | None => false
              | Some cap => cap <=? count_active a (Some c) + count_active a None
              end in
  if full then false
  else match last_attempts !! c with
       | None => true
       | Some previous => default 0 (a.(intervals) !! c) <=? now - previous
       end.

Definition total_reserved (a : SchedulerTargetAdmission) : Z :=
  sumZ snd (map_to_list a.(active)).

Definition UNLIMITED_JOBS : Z := Z.shiftl 1 30.

Definition admission_free_jobs (a : SchedulerTargetAdmission) (target : string) : Z :=
  let c := canonical a target in
  match a.(caps) !! c with
  | None => UNLIMITED_JOBS
  | Some cap => cap - count_active a (Some c) - count_active a None
  end.

Definition attempted (a : SchedulerTargetAdmission) (last_attempts : gmap string Z)
    (target : string) (now : Z) : gmap string Z :=
  <[canonical a target := now]> last_attempts.

Definition reserve_target (a : SchedulerTargetAdmission) (target : option string)
    : SchedulerTargetAdmission :=
  {| canonical_map := a.(canonical_map); caps := a.(caps); intervals := a.(intervals);
     active := counter_add (canonical a <$> target) 1 a.(active) |}.

(** ** The order of a pass *)

(** [key=lambda s: (-s.priority, s.submitted_at)] *)
Definition dispatch_key (s : JobSpec) : Z * string := (- s.(priority), s.(submitted_at)).

Definition dispatch_leb : JobSpec → JobSpec → bool :=
  on_key (lex_leb Z.leb String.leb) dispatch_key.

Definition local_specs (pending : list JobSpec) : list JobSpec :=
  List.filter (λ s, bool_decide (s.(scheduler_target) = None)) pending.

(** The pool a spec draws from. *)
Definition pool (a : SchedulerTargetAdmission) (s : JobSpec) : option string :=
  canonical a <$> s.(scheduler_target).

(** [groups[target]] *)
Definition group (a : SchedulerTargetAdmission) (pending : list JobSpec) (target : string)
    : list JobSpec :=
  List.filter (λ s, bool_decide (pool a s = Some target)) pending.

(** [sorted(groups)] *)
Definition group_names (a : SchedulerTargetAdmission) (pending : list JobSpec) : list string :=
  sorted_set (omap (pool a) pending).

Fixpoint index_of (x : string) (l : list string) : option nat :=
  match l with
  | [] => None
  | y :: l' => if String.eqb x y then Some 0%nat else S <$> index_of x l'
  end.

(** Resume after the pool attempted last. *)
Definition rotate_after (previous : option string) (targets : list string) : list string :=
  match previous with
  | None => targets
  | Some p => match index_of p targets with
              | None => targets
              | Some i => drop (S i) targets ++ take (S i) targets
              end
  end.

(** One turn of the [while] loop takes [groups[t][offsets[t]]] of every pool
    in turn and keeps the pools that have more; a pool's offset is kept as
    the suffix of its group still to come. *)
Definition turn (queues : list (list JobSpec)) : list JobSpec := omap head queues.
Definition remaining (queues : list (list JobSpec)) : list (list JobSpec) :=
  List.filter (λ q, negb (bool_decide (q = []))) (map (@tail JobSpec) queues).

Fixpoint turns (fuel : nat) (queues : list (list JobSpec)) : list JobSpec :=
  match fuel, queues with
  | O, _ | _, [] => []
  | S fuel, _ => turn queues ++ turns fuel (remaining queues)
  end.

(** The scheduler part of [_fair_resource_dispatch_order]; no pool has more
    turns than there are pending specs. *)
Definition fair_scheduler_order (a : SchedulerTargetAdmission) (previous : option string)
    (pending : list JobSpec) : list JobSpec :=
  turns (length pending) (map (group a pending) (rotate_after previous (group_names a pending))).

Definition fair_resource_dispatch_order (a : SchedulerTargetAdmission) (previous : option string)
    (pending : list JobSpec) : list JobSpec :=
  local_specs pending ++ fair_scheduler_order a previous pending.

(** ** The dependency gate *)

Lemma unmet_nil s m :
  iter_unmet_dependencies s m = []
  ↔ (∀ d, d ∈ s.(depends_on) → ∃ p, m !! d = Some p ∧ p.(state) = COMPLETED)
    ∧ (∀ d, d ∈ s.(depends_on_any) → ∃ p, m !! d = Some p ∧ is_terminal p = true).
Proof.
  unfold iter_unmet_dependencies. rewrite app_nil.
  assert (∀ (f : string → option (string * option JobState)) l,
            omap f l = [] ↔ ∀ d, d ∈ l → f d = None) as Homap.
  { intros f l. induction l as [|d l IH]; csimpl; [by split; [set_solver|]|].
    split.
    - destruct (f d) eqn:E; [done|]. intros Hl d' [->|Hd]%elem_of_cons; [done|]. by apply IH.
    - intros Hd. rewrite (Hd d) by set_solver. apply IH. set_solver. }
  rewrite !Homap. apply ZifyClasses.and_morph; (split; intros Hd d Hin; specialize (Hd d Hin)).
  - destruct (m !! d) as [p|]; [|done]. case_bool_decide; [eauto|done].
  - destruct Hd as (p & -> & Hp). by rewrite bool_decide_eq_true_2.
  - destruct (m !! d) as [p|]; [|done]. destruct (is_terminal p) eqn:E; [eauto|done].
  - by destruct Hd as (p & -> & ->).
Qed.

(** ** Retry backoff *)

(** For every retry [n], counted from 1, the wait is [10 * 2^(n-1)]
    seconds up to the sixth retry and 600 seconds from the seventh on; it is
    never below 10 s nor above 600 s, and never shrinks from one retry to
    the next. *)
Theorem retry_backoff_exact n :
  1 <= n →
  retry_backoff_seconds n = (if n <=? 6 then 10 * 2 ^ (n - 1) else 600)
  ∧ 10 <= retry_backoff_seconds n <= 600
  ∧ retry_backoff_seconds n <= retry_backoff_seconds (n + 1).
Proof.
  intros Hn. unfold retry_backoff_seconds, RETRY_BACKOFF_BASE_SECONDS, RETRY_BACKOFF_MAX_SECONDS.
  assert (1 <= 2 ^ (n - 1)) by (assert (0 < 2 ^ (n - 1)) by (apply Z.pow_pos_nonneg; lia); lia).
  assert (2 ^ (n + 1 - 1) = 2 * 2 ^ (n - 1)) as ->.
  { replace (n + 1 - 1) with (Z.succ (n - 1)) by lia. apply Z.pow_succ_r. lia. }
  split_and!; [|lia..]. destruct (Z.leb_spec n 6).
  - assert (2 ^ (n - 1) <= 2 ^ 5) by (apply Z.pow_le_mono_r; lia). lia.
  - assert (2 ^ 6 <= 2 ^ (n - 1)) by (apply Z.pow_le_mono_r; lia). lia.
Qed.

(** Retry 7 waits 600 seconds, not 640. *)
Lemma retry_backoff_exact_witness :
  1 <= 7 ∧ retry_backoff_seconds 7 = 600 ∧ retry_backoff_seconds 7 <= retry_backoff_seconds 8.
Proof.
  split; [lia|]. destruct (retry_backoff_exact 7) as (E & _ & Hm); [lia|].
  split; [exact E|exact Hm].
Defined.

(** ** The fair order *)

(** [x] stands before [y] in [l]. *)
Definition before {A} (x y : A) (l : list A) : Prop :=
  ∃ l1 l2 l3, l = l1 ++ x :: l2 ++ y :: l3.

Lemma before_app {A} (x y : A) l1 l2 : x ∈ l1 → y ∈ l2 → before x y (l1 ++ l2).
Proof.
  intros (a & b & ->)%list_elem_of_split (c & d & ->)%list_elem_of_split.
  exists a, (b ++ c), d. by rewrite <- !(assoc_L (++)).
Qed.

Lemma before_app_l {A} (x y : A) l1 l2 : before x y l1 → before x y (l1 ++ l2).
Proof.
  intros (a & b & c & ->). exists a, b, (c ++ l2). rewrite <- !(assoc_L (++)). simpl.
  by rewrite <- !(assoc_L (++)).
Qed.

Lemma before_app_r {A} (x y : A) l1 l2 : before x y l2 → before x y (l1 ++ l2).
Proof. intros (a & b & c & ->). exists (l1 ++ a), b, c. by rewrite <- !(assoc_L (++)). Qed.

Section turns_facts.
Implicit Types (q : list JobSpec) (qs : list (list JobSpec)).

Lemma remaining_concat qs : concat (remaining qs) = concat (map (@tail JobSpec) qs).
Proof.
  unfold remaining. induction (map _ qs) as [|q l IH]; simpl; [done|].
  case_bool_decide as E; simpl; [by rewrite E|by rewrite IH].
Qed.

Lemma turn_remaining qs : turn qs ++ concat (remaining qs) ≡ₚ concat qs.
Proof.
  rewrite remaining_concat. unfold turn. induction qs as [|[|x q] qs IH]; csimpl; [done|done|].
  rewrite <- IH. f_equiv. rewrite !(assoc_L (++)). f_equiv. apply Permutation_app_comm.
Qed.

Lemma turns_perm n qs : (∀ q, q ∈ qs → (length q <= n)%nat) → turns n qs ≡ₚ concat qs.
Proof.
  revert qs. induction n as [|n IH]; intros qs Hl; simpl.
  - induction qs as [|q qs IHq]; simpl; [done|]. destruct q as [|x q].
    + simpl. apply IHq. set_solver.
    + assert (length (x :: q) <= 0)%nat by (apply Hl; set_solver). simpl in *. lia.
  - destruct qs as [|q0 qs0] eqn:E; [done|]. rewrite <- E in *. clear E q0 qs0.
    rewrite IH; [apply turn_remaining|]. unfold remaining. intros q.
    rewrite list_elem_of_In, filter_In, <- list_elem_of_In.
    intros [(q' & -> & Hq')%list_elem_of_fmap _]. pose proof (Hl _ Hq').
    destruct q'; simpl in *; lia.
Qed.

Lemma turns_S n qs : turns (S n) qs = turn qs ++ turns n (remaining qs).
Proof. destruct qs; [by destruct n|done]. Qed.

Lemma elem_of_turns n qs x : x ∈ turns n qs → x ∈ concat qs.
Proof.
  revert qs. induction n as [|n IH]; intros qs; simpl; [set_solver|].
  destruct qs as [|q0 qs0] eqn:E; [done|]. rewrite <- E. clear E q0 qs0.
  intros Hx. rewrite <- turn_remaining. rewrite elem_of_app in *. destruct Hx; auto.
Qed.

Lemma remaining_app qs1 qs2 : remaining (qs1 ++ qs2) = remaining qs1 ++ remaining qs2.
Proof. unfold remaining. by rewrite map_app, List.filter_app. Qed.

Lemma turn_app qs1 qs2 : turn (qs1 ++ qs2) = turn qs1 ++ turn qs2.
Proof. unfold turn. apply omap_app. Qed.

Lemma filter_none {A} (p : A → bool) l : (∀ x, x ∈ l → p x = false) → List.filter p l = [].
Proof.
  induction l as [|x l IH]; simpl; intros Hp; [done|]. rewrite Hp by set_solver. apply IH. set_solver.
Qed.

Lemma filter_all {A} (p : A → bool) l : (∀ x, x ∈ l → p x = true) → List.filter p l = l.
Proof.
  induction l as [|x l IH]; simpl; intros Hp; [done|]. rewrite Hp by set_solver. f_equal.
  apply IH. set_solver.
Qed.

(** A pool's specs keep their order. *)
Lemma turns_filter (p : JobSpec → bool) n qs1 q qs2 :
  (∀ x, x ∈ concat (qs1 ++ qs2) → p x = false) → (∀ x, x ∈ q → p x = true) →
  (length q <= n)%nat → List.filter p (turns n (qs1 ++ q :: qs2)) = q.
Proof.
  revert qs1 q qs2. induction n as [|n IH]; intros qs1 q qs2 Hf Ht Hl.
  - destruct q; simpl in *; [done|lia].
  - destruct q as [|x q].
    + apply filter_none. intros y Hy%elem_of_turns. apply Hf.
      rewrite concat_app in *. simpl in *. done.
    + rewrite turns_S.
      assert (∀ qs, (∀ y, y ∈ concat qs → p y = false) →
                (∀ y, y ∈ turn qs → p y = false) ∧ (∀ y, y ∈ concat (remaining qs) → p y = false)) as Hsub.
      { intros qs Hq. split; intros y Hy; apply Hq; rewrite <- turn_remaining; set_solver. }
      destruct (Hsub qs1) as [Ht1 Hr1]; [intros y Hy; apply Hf; rewrite concat_app; set_solver|].
      destruct (Hsub qs2) as [Ht2 Hr2]; [intros y Hy; apply Hf; rewrite concat_app; set_solver|].
      rewrite turn_app, !List.filter_app, (filter_none p (turn qs1)) by done.
      change (turn ((x :: q) :: qs2)) with (x :: turn qs2). simpl.
      rewrite Ht by set_solver. rewrite (filter_none p (turn qs2)) by done. simpl. f_equal.
      rewrite remaining_app.
      assert (remaining ((x :: q) :: qs2)
              = (if bool_decide (q = []) then [] else [q]) ++ remaining qs2) as ->.
      { unfold remaining. simpl. by case_bool_decide. }
      case_bool_decide as E.
      * subst. simpl. apply filter_none. intros y Hy%elem_of_turns.
        rewrite concat_app, elem_of_app in Hy. destruct Hy; auto.
      * simpl. apply IH; [|set_solver|simpl in *; lia].
        intros y. rewrite concat_app, elem_of_app. intros []; auto.
Qed.

(** The [i]-th spec of one pool goes before the [j]-th of any pool, [i < j]. *)
Lemma turns_before n qs q1 q2 i j x y :
  q1 ∈ qs → q2 ∈ qs → q1 !! i = Some x → q2 !! j = Some y → (i < j)%nat → (length q2 <= n)%nat →
  (∀ q, q ∈ qs → (length q <= n)%nat) → before x y (turns n qs).
Proof.
  revert qs q1 q2 i j. induction n as [|n IH]; intros qs q1 q2 i j Hq1 Hq2 Hx Hy Hij Hl Hall.
  { apply lookup_lt_Some in Hy. lia. }
  rewrite turns_S.
  assert (∀ q k z, q ∈ qs → q !! S k = Some z → tail q ∈ remaining qs ∧ tail q !! k = Some z) as Htail.
  { intros q k z Hq Hz. destruct q as [|h q]; simpl in Hz; [done|]. split; [|done].
    unfold remaining. rewrite list_elem_of_In, filter_In, <- list_elem_of_In. split.
    - apply list_elem_of_fmap. by exists (h :: q).
    - simpl. apply negb_true_iff, bool_decide_eq_false_2. by intros ->. }
  assert (∀ q, q ∈ remaining qs → (length q <= n)%nat) as Hrem.
  { intros q. unfold remaining. rewrite list_elem_of_In, filter_In, <- list_elem_of_In.
    intros [(q' & -> & Hq')%list_elem_of_fmap _]. pose proof (Hall _ Hq').
    destruct q'; simpl in *; lia. }
  destruct j as [|j]; [lia|]. destruct (Htail _ _ _ Hq2 Hy) as [Hq2' Hy'].
  destruct i as [|i].
  - apply before_app.
    + unfold turn. apply list_elem_of_omap. exists q1. split; [done|]. by destruct q1.
    + rewrite turns_perm by done. apply list_elem_of_In, in_concat. exists (tail q2).
      rewrite <- !list_elem_of_In. split; [done|]. by apply list_elem_of_lookup_2 in Hy'.
  - destruct (Htail _ _ _ Hq1 Hx) as [Hq1' Hx']. apply before_app_r.
    eapply IH; [exact Hq1'|exact Hq2'|done|done|lia|by apply Hrem|done].
Qed.
End turns_facts.

Section fair.
Context (a : SchedulerTargetAdmission) (pending : list JobSpec).

Lemma elem_of_filterb {A} (p : A → bool) l x : x ∈ List.filter p l ↔ x ∈ l ∧ p x = true.
Proof. by rewrite !list_elem_of_In, filter_In. Qed.

Lemma elem_of_group t s : s ∈ group a pending t ↔ s ∈ pending ∧ pool a s = Some t.
Proof. unfold group. by rewrite elem_of_filterb, bool_decide_eq_true. Qed.

Lemma elem_of_group_names t : t ∈ group_names a pending ↔ ∃ s, s ∈ pending ∧ pool a s = Some t.
Proof. unfold group_names. rewrite elem_of_sorted_set. apply list_elem_of_omap. Qed.

Lemma rotate_after_perm previous ts : rotate_after previous ts ≡ₚ ts.
Proof.
  unfold rotate_after. repeat case_match; try done.
  rewrite Permutation_app_comm. by rewrite take_drop.
Qed.

Lemma index_of_Some x l i : index_of x l = Some i → l !! i = Some x.
Proof.
  revert i. induction l as [|y l IH]; simpl; intros i; [done|].
  destruct (String.eqb_spec x y) as [->|]; [by intros [= <-]|].
  destruct (index_of x l); simpl; [|done]. intros [= <-]. by apply IH.
Qed.

Lemma index_of_elem x l : x ∈ l → is_Some (index_of x l).
Proof.
  induction l as [|y l IH]; simpl; intros Hx; [set_solver|].
  destruct (String.eqb_spec x y); [done|]. destruct IH as [i ->]; [set_solver|done].
Qed.

(** The pool attempted last comes last. *)
Lemma rotate_after_last p ts : p ∈ ts → ∃ l, rotate_after (Some p) ts = l ++ [p].
Proof.
  intros [i Hi]%index_of_elem. unfold rotate_after. rewrite Hi.
  exists (drop (S i) ts ++ take i ts). rewrite (take_S_r _ _ p) by by apply index_of_Some.
  by rewrite (assoc_L (++)).
Qed.

Variable previous : option string.
Let names : list string := rotate_after previous (group_names a pending).

Lemma names_NoDup : NoDup names.
Proof. unfold names. rewrite rotate_after_perm. apply sorted_set_NoDup. Qed.

Lemma elem_of_names t : t ∈ names ↔ ∃ s, s ∈ pending ∧ pool a s = Some t.
Proof. unfold names. by rewrite rotate_after_perm, elem_of_group_names. Qed.

Lemma groups_bounded q : q ∈ map (group a pending) names → (length q <= length pending)%nat.
Proof. intros (t & -> & _)%list_elem_of_fmap. apply List.filter_length_le. Qed.

Lemma scheduler_order_filter t :
  List.filter (λ s, bool_decide (pool a s = Some t)) (fair_scheduler_order a previous pending)
  = group a pending t.
Proof.
  unfold fair_scheduler_order. fold names. destruct (decide (t ∈ names)) as [Ht|Ht].
  - pose proof names_NoDup as Hnd.
    apply list_elem_of_split in Ht as (n1 & n2 & En). rewrite En in *.
    rewrite map_app. simpl. apply turns_filter; [|intros x Hx; apply bool_decide_eq_true_2;
      by apply elem_of_group in Hx as [_ ?]|apply List.filter_length_le].
    intros x. rewrite <- map_app, list_elem_of_In, in_concat. intros (q & Hq & Hx).
    apply list_elem_of_In in Hq, Hx. apply list_elem_of_fmap in Hq as (t' & -> & Ht').
    apply elem_of_group in Hx as [_ Hx]. apply bool_decide_eq_false_2. rewrite Hx.
    intros [= ->]. apply NoDup_app in Hnd as (_ & Hd & [Hn _]%NoDup_cons).
    apply elem_of_app in Ht' as [Ht'|Ht']; [|done]. specialize (Hd _ Ht'). set_solver.
  - assert (group a pending t = []) as ->.
    { unfold group. apply filter_none. intros s Hs. apply bool_decide_eq_false_2.
      intros Hp. apply Ht, elem_of_names. eauto. }
    apply filter_none. intros s Hs%elem_of_turns. apply bool_decide_eq_false_2. intros Hp. apply Ht.
    apply list_elem_of_In, in_concat in Hs as (q & Hq & Hs). apply list_elem_of_In in Hq, Hs.
    apply list_elem_of_fmap in Hq as (t' & -> & Ht'). apply elem_of_group in Hs as [_ Hs].
    congruence.
Qed.

Lemma group_cons s l t :
  group a (s :: l) t = (if bool_decide (pool a s = Some t) then [s] else []) ++ group a l t.
Proof. unfold group. simpl. by case_bool_decide. Qed.

Lemma concat_groups_skip s l ts :
  (∀ t, t ∈ ts → pool a s ≠ Some t) →
  concat (map (group a (s :: l)) ts) = concat (map (group a l) ts).
Proof.
  induction ts as [|t ts IH]; intros Hn; [done|]. cbn [map concat].
  rewrite group_cons, bool_decide_eq_false_2 by (apply Hn; set_solver).
  rewrite IH by set_solver. done.
Qed.

Lemma concat_groups_perm l ts :
  NoDup ts → (∀ s, s ∈ l → ∀ t, pool a s = Some t → t ∈ ts) →
  concat (map (group a l) ts)
  ≡ₚ List.filter (λ s, negb (bool_decide (s.(scheduler_target) = None))) l.
Proof.
  intros Hnd. induction l as [|s l IH]; intros Hin.
  - clear. by induction ts.
  - specialize (IH ltac:(intros; eapply Hin; set_solver)). cbn [List.filter].
    destruct (s.(scheduler_target)) as [t|] eqn:E.
    + assert (pool a s = Some (canonical a t)) as Hp by (unfold pool; by rewrite E).
      assert (canonical a t ∈ ts) as (l1 & l2 & ->)%list_elem_of_split by (apply (Hin s); [set_solver|done]).
      apply NoDup_app in Hnd as (_ & Hd & [Hn _]%NoDup_cons).
      rewrite map_app, concat_app in *. cbn [map concat] in *.
      rewrite !concat_groups_skip, group_cons by (rewrite Hp; intros t' Ht' [= <-]; set_solver).
      rewrite bool_decide_eq_true_2 by done. simpl. rewrite <- IH, <- Permutation_middle. done.
    + rewrite concat_groups_skip; [done|]. intros t _. unfold pool. by rewrite E.
Qed.

Lemma filter_negb_perm {A} (p : A → bool) (l : list A) :
  List.filter p l ++ List.filter (λ x, negb (p x)) l ≡ₚ l.
Proof.
  induction l as [|x l IH]; simpl; [done|]. destruct (p x); simpl; [by rewrite IH|].
  rewrite <- Permutation_middle. by rewrite IH.
Qed.

Lemma scheduler_order_perm :
  fair_scheduler_order a previous pending
  ≡ₚ List.filter (λ s, negb (bool_decide (s.(scheduler_target) = None))) pending.
Proof.
  unfold fair_scheduler_order. fold names. rewrite turns_perm by apply groups_bounded.
  apply concat_groups_perm; [apply names_NoDup|]. intros s Hs t Ht. apply elem_of_names. eauto.
Qed.

(** The order of a dispatch pass is a permutation of the pending specs
    that keeps the pending (priority, then submission) order inside every
    resource pool, puts local work first, and takes fair turns between the
    scheduler pools: the [i]-th spec of any pool goes before the [j]-th of
    any pool when [i < j], and the first spec of every other pool goes before
    that of the pool attempted last. *)
Theorem fair_order_fair :
  let order := fair_resource_dispatch_order a previous pending in
  order ≡ₚ pending
  ∧ (∀ p, List.filter (λ s, bool_decide (pool a s = p)) order
          = List.filter (λ s, bool_decide (pool a s = p)) pending)
  ∧ (∀ x y, x ∈ pending → y ∈ pending → x.(scheduler_target) = None →
       y.(scheduler_target) ≠ None → before x y order)
  ∧ (∀ t1 t2 i j x y, group a pending t1 !! i = Some x → group a pending t2 !! j = Some y →
       (i < j)%nat → before x y order)
  ∧ (∀ p t x y, previous = Some p → t ≠ p → head (group a pending t) = Some x →
       head (group a pending p) = Some y → before x y order).
Proof.
  unfold fair_resource_dispatch_order. split_and!.
  - rewrite scheduler_order_perm. apply filter_negb_perm.
  - intros [t|].
    + rewrite List.filter_app, scheduler_order_filter, filter_none; [done|].
      unfold local_specs. intros s [_ Hs]%elem_of_filterb. unfold pool.
      apply bool_decide_eq_true_1 in Hs. by rewrite Hs.
    + rewrite List.filter_app, (filter_none _ (fair_scheduler_order _ _ _)), app_nil_r.
      * match goal with |- List.filter ?f _ = _ =>
          assert (∀ s, f s = bool_decide (scheduler_target s = None)) as He end.
        { intros s. apply bool_decide_ext. unfold pool. by destruct (scheduler_target s). }
        rewrite !(List.filter_ext _ _ He). fold (local_specs pending). apply filter_all.
        by intros s [_ ?]%elem_of_filterb.
      * intros s. rewrite scheduler_order_perm, elem_of_filterb. unfold pool.
        destruct (scheduler_target s); naive_solver.
  - intros x y Hx Hy Ex Ey. apply before_app.
    + unfold local_specs. rewrite elem_of_filterb. by rewrite bool_decide_eq_true_2.
    + rewrite scheduler_order_perm, elem_of_filterb. by rewrite bool_decide_eq_false_2.
  - intros t1 t2 i j x y Hx Hy Hij. apply before_app_r. unfold fair_scheduler_order. fold names.
    assert (∀ t k z, group a pending t !! k = Some z → t ∈ names) as Hin.
    { intros t k z Hz%list_elem_of_lookup_2. apply elem_of_names. exists z. by apply elem_of_group. }
    eapply (turns_before _ _ (group a pending t1) (group a pending t2)); try done.
    + apply list_elem_of_fmap. eauto.
    + apply list_elem_of_fmap. eauto.
    + apply List.filter_length_le.
    + apply groups_bounded.
  - intros p t x y -> Htp Hx Hy. apply before_app_r. unfold fair_scheduler_order.
    assert (∀ t z, head (group a pending t) = Some z → t ∈ group_names a pending) as Hin.
    { intros t' z Hz. apply elem_of_group_names. exists z. apply elem_of_group.
      destruct (group a pending t'); simplify_eq/=. set_solver. }
    destruct (rotate_after_last p (group_names a pending)) as [l El]; [by eapply Hin|].
    assert (t ∈ l) as Ht.
    { assert (t ∈ l ++ [p]) as [?|?]%elem_of_app; [|done|set_solver].
      rewrite <- El, rotate_after_perm. by eapply Hin. }
    destruct (length pending) as [|n] eqn:En.
    { destruct pending; [|done]. unfold group in Hx. done. }
    rewrite El, map_app, turns_S. apply before_app_l. rewrite turn_app. apply before_app.
    + unfold turn. apply list_elem_of_omap. exists (group a pending t). split; [|done].
      apply list_elem_of_fmap. eauto.
    + unfold turn. csimpl. rewrite Hy. set_solver.
Qed.
End fair.

(** ** The scheduler budgets *)

Section budgets.
Context (cm : gmap string string).

Lemma caps_fold hosts m t x :
  (∃ cap, fold_left (add_host_caps cm) hosts m !! t = Some cap ∧ cap <= x)
  ↔ (∃ cap, m !! t = Some cap ∧ cap <= x)
    ∨ ∃ n h c, (n, h) ∈ hosts ∧ canonical_in cm n = t ∧ h.(scheduler_max_jobs) = Some c ∧ c <= x.
Proof.
  revert m. induction hosts as [|[n h] hosts IH]; intros m; cbn [fold_left].
  { split; [by left|]. intros [?|(?&?&?&?%elem_of_nil&_)]; done. }
  rewrite IH. unfold add_host_caps; simpl. destruct (scheduler_max_jobs h) as [c|] eqn:Ec.
  - destruct (decide (canonical_in cm n = t)) as [<-|Hne].
    + rewrite lookup_insert_eq. split.
      * intros [(cap & [= <-] & Hx)|(n' & h' & c' & Hin & ?)]; [|right; exists n', h', c'; set_solver].
        destruct (m !! _) as [c0|] eqn:E0; simpl in *;
          [|right; exists n, h, c; split_and!; [set_solver|done|done|lia]].
        destruct (Z.min_spec c0 c) as [[? E]|[? E]]; rewrite E in Hx; [left; eauto|].
        right. exists n, h, c. set_solver.
      * intros [(cap & E & Hx)|(n' & h' & c' & [[= -> ->]|Hin]%elem_of_cons & Hn & Hc & Hx)].
        -- left. rewrite E. eexists. split; [done|]. simpl. lia.
        -- left. eexists. split; [done|]. simplify_eq. lia.
        -- right. eauto 10.
    + rewrite lookup_insert_ne by done. apply or_iff_compat_l.
      split; intros (n' & h' & c' & Hin & ?); exists n', h', c'; [set_solver|].
      apply elem_of_cons in Hin as [[= -> ->]|?]; naive_solver.
  - apply or_iff_compat_l. split; intros (n' & h' & c' & Hin & ?); exists n', h', c'; [set_solver|].
    apply elem_of_cons in Hin as [[= -> ->]|?]; naive_solver.
Qed.

Lemma intervals_fold hosts m t x :
  default 0 (fold_left (add_host_interval cm) hosts m !! t) <= x
  ↔ default 0 (m !! t) <= x
    ∧ ∀ n h, (n, h) ∈ hosts → canonical_in cm n = t → h.(scheduler_submit_interval) <= x.
Proof.
  revert m. induction hosts as [|[n h] hosts IH]; intros m; cbn [fold_left]; [set_solver|].
  rewrite IH. unfold add_host_interval; simpl.
  destruct (decide (canonical_in cm n = t)) as [<-|Hne].
  - rewrite lookup_insert_eq. simpl. rewrite Z.max_lub_iff. split.
    + intros [[? ?] Hall]. split; [done|]. intros n' h' [[= -> ->]|?]%elem_of_cons; eauto.
    + intros [? Hall]. split; [split; [done|]|]; intros; eapply Hall; set_solver.
  - rewrite lookup_insert_ne by done. split; intros [? Hall]; (split; [done|]).
    + intros n' h' [[= -> ->]|?]%elem_of_cons; [done|eauto].
    + intros. eapply Hall; set_solver.
Qed.

Lemma counter_add_lookup {K} `{Countable K} (k k' : K) n m :
  default 0 (counter_add k n m !! k') = default 0 (m !! k') + (if decide (k = k') then n else 0).
Proof.
  unfold counter_add. destruct (decide (k = k')) as [->|].
  - by rewrite lookup_insert_eq.
  - rewrite lookup_insert_ne by done. lia.
Qed.

(** What a list of reservations holds on one key. *)
Definition reserved_on (reservations : list (option string * Z)) (k : option string) : Z :=
  sumZ (λ r, if decide (canonical_in cm <$> r.1 = k) then r.2 else 0) reservations.

Lemma active_fold reservations m k :
  default 0 (fold_left (add_reservation cm) reservations m !! k)
  = default 0 (m !! k) + reserved_on reservations k.
Proof.
  revert m. unfold reserved_on. induction reservations as [|r rs IH]; intros m; simpl; [lia|].
  rewrite IH. unfold add_reservation. rewrite counter_add_lookup. lia.
Qed.
End budgets.

(** [can_attempt] allows a submission to a target exactly when, counted
    over all aliases of its canonical host, the allocations this driver holds
    there plus those whose target is unknown are below every alias's
    [scheduler_max_jobs], and at least every alias's submit interval has
    passed since the last attempt on any of them; and [free_jobs] is positive
    exactly when the first half holds. *)
Theorem scheduler_gate_exact hosts reservations last_attempts target now :
  let a := new_admission hosts reservations in
  let held := reserved_on a.(canonical_map) reservations in
  let room := ∀ n h c, (n, h) ∈ hosts → canonical a n = canonical a target →
    h.(scheduler_max_jobs) = Some c → held (Some (canonical a target)) + held None < c in
  (can_attempt a last_attempts target now = true
   ↔ room ∧ ∀ previous, last_attempts !! canonical a target = Some previous →
       0 <= now - previous
       ∧ ∀ n h, (n, h) ∈ hosts → canonical a n = canonical a target →
           h.(scheduler_submit_interval) <= now - previous)
  ∧ (0 < admission_free_jobs a target ↔ room).
Proof.
  intros a held room. unfold can_attempt, admission_free_jobs.
  assert (∀ k, count_active a k = held k) as Hact.
  { intros k. unfold count_active, a, new_admission, held. cbn [active canonical_map].
    rewrite active_fold, lookup_empty. simpl. lia. }
  rewrite !Hact. set (t := canonical a target) in *.
  assert (room ↔ ∀ cap, a.(caps) !! t = Some cap → held (Some t) + held None < cap) as Hroom.
  { pose proof (caps_fold a.(canonical_map) hosts ∅ t (held (Some t) + held None)) as Hf.
    change (fold_left _ hosts ∅) with a.(caps) in Hf. unfold room. split.
    - intros Hr cap Hcap. apply Z.lt_nge. intros Hle.
      destruct Hf as [[(? & ? & _)|(n & h & c & Hin & Hn & Hc & ?)] _]; [eauto| |].
      { rewrite lookup_empty in *. done. }
      specialize (Hr _ _ _ Hin Hn Hc). lia.
    - intros Hr n h c Hin Hn Hc. apply Z.lt_nge. intros Hle.
      destruct Hf as [_ [cap [Hcap ?]]]; [right; exists n, h, c; done|].
      specialize (Hr _ Hcap). lia. }
  assert (match last_attempts !! t with
          | Some previous => default 0 (intervals a !! t) <=? now - previous
          | None => true
          end = true
          ↔ ∀ previous, last_attempts !! t = Some previous →
              0 <= now - previous
              ∧ ∀ n h, (n, h) ∈ hosts → canonical a n = t →
                  h.(scheduler_submit_interval) <= now - previous) as Hpace.
  { destruct (last_attempts !! t) as [p|]; [|by split].
    pose proof (intervals_fold a.(canonical_map) hosts ∅ t (now - p)) as Hi.
    change (fold_left _ hosts ∅) with a.(intervals) in Hi. rewrite lookup_empty in Hi.
    rewrite Z.leb_le, Hi. simpl. split; [by intros ? ? [= <-]|]. intros Hp. by apply Hp. }
  rewrite Hroom. destruct (caps a !! t) as [cap|] eqn:Ecap; split.
  - rewrite <- Hpace. destruct (Z.leb_spec cap (held (Some t) + held None)).
    + split; [done|]. intros [Hr _]. specialize (Hr _ eq_refl). lia.
    + split; [|tauto]. intros Hp. split; [|done]. by intros ? [= <-].
  - split; [intros ? ? [= <-]; lia|]. intros Hr. specialize (Hr _ eq_refl). lia.
  - rewrite <- Hpace. split; [done|tauto].
  - split; [by intros _ ? [=]|]. by intros _.
Qed.
