(* ===== verification/Drain.v ===== *)
(** * Drains and scheduler leases: [src/vq/drain.py]

    The two files that hold dispatch back: the legacy drain document, one
    whole state with a lazy expiry, and the sidecar store of independently
    owned scheduler leases; the daemon's own operations on them
    ([via_rpc=False]) and the effective policy the dispatch pass reads. *)

From S2P Require Import Prelude Json Spec Admission.

(** ** Data *)

Record SchedulerDrainLease : Type := MkLease {
  lease_id : string;
  lease_host : string;
  lease_owner : string;
  lease_set_at : string;
  lease_reason : option string;
  lease_owner_pid : option Z;
  lease_owner_pid_start_time : Z;
}.

#[global] Instance SchedulerDrainLease_eq_dec : EqDecision SchedulerDrainLease.
Proof. solve_decision. Defined.

Definition set_scheduler_hosts (v : list string) (d : DrainState) : DrainState :=
  {| enabled := d.(enabled); drain_max_jobs := d.(drain_max_jobs); drain_max_cpus := d.(drain_max_cpus);
     drain_set_at := d.(drain_set_at); drain_reason := d.(drain_reason);
     drain_owner_pid := d.(drain_owner_pid); drain_owner_pid_start_time := d.(drain_owner_pid_start_time);
     scheduler_hosts := v; full_dispatch := d.(full_dispatch); reject_submits := d.(reject_submits);
     update_mode := d.(update_mode); duration_seconds := d.(duration_seconds) |}.
Definition set_full_dispatch (v : bool) (d : DrainState) : DrainState :=
  {| enabled := d.(enabled); drain_max_jobs := d.(drain_max_jobs); drain_max_cpus := d.(drain_max_cpus);
     drain_set_at := d.(drain_set_at); drain_reason := d.(drain_reason);
     drain_owner_pid := d.(drain_owner_pid); drain_owner_pid_start_time := d.(drain_owner_pid_start_time);
     scheduler_hosts := d.(scheduler_hosts); full_dispatch := v; reject_submits := d.(reject_submits);
     update_mode := d.(update_mode); duration_seconds := d.(duration_seconds) |}.
Definition set_duration (v : option Z) (d : DrainState) : DrainState :=
  {| enabled := d.(enabled); drain_max_jobs := d.(drain_max_jobs); drain_max_cpus := d.(drain_max_cpus);
     drain_set_at := d.(drain_set_at); drain_reason := d.(drain_reason);
     drain_owner_pid := d.(drain_owner_pid); drain_owner_pid_start_time := d.(drain_owner_pid_start_time);
     scheduler_hosts := d.(scheduler_hosts); full_dispatch := d.(full_dispatch);
     reject_submits := d.(reject_submits); update_mode := d.(update_mode); duration_seconds := v |}.
Definition set_drain_reason (v : option string) (d : DrainState) : DrainState :=
  {| enabled := d.(enabled); drain_max_jobs := d.(drain_max_jobs); drain_max_cpus := d.(drain_max_cpus);
     drain_set_at := d.(drain_set_at); drain_reason := v;
     drain_owner_pid := d.(drain_owner_pid); drain_owner_pid_start_time := d.(drain_owner_pid_start_time);
     scheduler_hosts := d.(scheduler_hosts); full_dispatch := d.(full_dispatch);
     reject_submits := d.(reject_submits); update_mode := d.(update_mode);
     duration_seconds := d.(duration_seconds) |}.
Definition set_enabled (d : DrainState) : DrainState :=
  {| enabled := true; drain_max_jobs := d.(drain_max_jobs); drain_max_cpus := d.(drain_max_cpus);
     drain_set_at := d.(drain_set_at); drain_reason := d.(drain_reason);
     drain_owner_pid := d.(drain_owner_pid); drain_owner_pid_start_time := d.(drain_owner_pid_start_time);
     scheduler_hosts := d.(scheduler_hosts); full_dispatch := d.(full_dispatch);
     reject_submits := d.(reject_submits); update_mode := d.(update_mode);
     duration_seconds := d.(duration_seconds) |}.

(** [full_dispatch = False; update_mode = None; reject_submits = False;
    duration_seconds = None] *)
Definition lift_full_hold (d : DrainState) : DrainState :=
  {| enabled := d.(enabled); drain_max_jobs := d.(drain_max_jobs); drain_max_cpus := d.(drain_max_cpus);
     drain_set_at := d.(drain_set_at); drain_reason := d.(drain_reason);
     drain_owner_pid := d.(drain_owner_pid); drain_owner_pid_start_time := d.(drain_owner_pid_start_time);
     scheduler_hosts := d.(scheduler_hosts); full_dispatch := false; reject_submits := false;
     update_mode := None; duration_seconds := None |}.

(** [DrainState()] with a reason, lanes and a time. *)
Definition new_drain (reason : option string) (hosts : list string) (set_at : string) : DrainState :=
  MkDrain true None None set_at reason None 0 hosts false false None None.

(** The legacy document: absent, unparsable, or a state whose
    [duration_seconds] is whatever JSON value was written. *)
Inductive legacy_doc : Type :=
| NoLegacy
| CorruptLegacy
| Legacy (duration : json) (rest : DrainState).

(** The lease store; a store of a wrong shape or version is unreadable. *)
Inductive lease_doc : Type :=
| NoLeases
| CorruptLeases
| Leases (l : list SchedulerDrainLease).

Record drain_files : Type := MkDrainFiles {
  legacy_file : legacy_doc;
  lease_file : lease_doc;
}.

Definition set_legacy (v : legacy_doc) (f : drain_files) : drain_files :=
  MkDrainFiles v f.(lease_file).
Definition set_leases (v : lease_doc) (f : drain_files) : drain_files :=
  MkDrainFiles f.(legacy_file) v.

Inductive drain_error : Type :=
| LeaseError
| OwnedReleaseError
| DrainValueError
| DrainOSError.

#[global] Instance drain_error_eq_dec : EqDecision drain_error.
Proof. solve_decision. Defined.

(** ** The environment *)

Record DrainEnv : Type := MkDrainEnv {
  (** what other processes did before an access *)
  dn_interfere : nat → drain_files → drain_files;
  dn_write_fails : nat → bool;
  dn_fromisoformat : string → timestamp;
  dn_utcnow_iso : nat → string;
  (** [datetime.now] in UTC and in local time *)
  dn_now : nat → Z;
  dn_local_now : nat → Z;
  dn_token_hex : nat → string;
  dn_pid_start_time : nat → Z → option Z;
  (** the message of a failed read of the store *)
  dn_lease_detail : drain_files → string;
  (** the bytes of the store's JSON *)
  dn_encoded_size : list SchedulerDrainLease → Z;
}.

Record drain_world : Type := MkDrainWorld {
  dn_files : drain_files;
  dn_tick : nat;
}.

Definition DrainM : Type → Type := eff drain_world drain_error.

Definition DRAIN_SNAPSHOT_FILE_LIMIT : Z := 1024 * 1024.

Section drain.
Context (E : DrainEnv).

(** A transaction under the file's lock. *)
Definition locked {A} (f : nat → drain_files → res drain_error A * drain_files) : DrainM A := λ w,
  let '(r, files) := f w.(dn_tick) (E.(dn_interfere) w.(dn_tick) w.(dn_files)) in
  (r, MkDrainWorld files (S w.(dn_tick))).

Definition clock {A} (f : nat → A) : DrainM A := λ w,
  (Ok (f w.(dn_tick)), MkDrainWorld w.(dn_files) (S w.(dn_tick))).

(** ** The legacy document *)

(** [_validate_drain_state_for_read] *)
Definition validate_for_read (duration : json) (rest : DrainState) : DrainState :=
  match duration with
  | JInt d => set_duration (if d <=? 0 then None else Some d) rest
  | _ => set_duration None rest
  end.

(** [state.model_dump_json()] *)
Definition dump_duration (d : option Z) : json :=
  match d with None => JNull | Some z => JInt z end.

Definition dump_drain (s : DrainState) : legacy_doc := Legacy (dump_duration s.(duration_seconds)) s.

(** The body of [write_drain_state] and of [clear_drain], under the lock. *)
Definition write_locked (s : DrainState) (n : nat) (f : drain_files)
    : res drain_error unit * drain_files :=
  if E.(dn_write_fails) n then (Err DrainOSError, f) else (Ok tt, set_legacy (dump_drain s) f).

Definition clear_locked (n : nat) (f : drain_files) : res drain_error bool * drain_files :=
  match f.(legacy_file) with
  | NoLegacy => (Ok false, f)
  | _ => if E.(dn_write_fails) n then (Err DrainOSError, f) else (Ok true, set_legacy NoLegacy f)
  end.

(** [(now - set_dt).total_seconds() >= duration_seconds]; a time that does not
    parse never expires. *)
Definition expired (n : nat) (s : DrainState) : bool :=
  match s.(duration_seconds) with
  | None => false
  | Some d =>
    match E.(dn_fromisoformat) s.(drain_set_at) with
    | Aware t => d * TICKS_PER_SECOND <=? E.(dn_now) n - t
    | Naive t => d * TICKS_PER_SECOND <=? E.(dn_local_now) n - t
    | Blank | Unparseable => false
    end
  end.

(** The body of [read_drain_state], under the lock. *)
Definition read_locked (n : nat) (f : drain_files)
    : res drain_error (option DrainState) * drain_files :=
  match f.(legacy_file) with
  | NoLegacy | CorruptLegacy => (Ok None, f)
  | Legacy duration rest =>
    let s := validate_for_read duration rest in
    if expired n s then
      if bool_decide (s.(scheduler_hosts) = []) then
        match clear_locked n f with
        | (Ok _, f') => (Ok None, f')
        | (Err e, f') => (Err e, f')
        end
      else
        match write_locked (lift_full_hold s) n f with
        | (Ok _, f') => (Ok (Some (lift_full_hold s)), f')
        | (Err e, f') => (Err e, f')
        end
    else (Ok (Some s), f)
  end.

Definition read_drain_state : DrainM (option DrainState) := locked read_locked.
Definition write_drain_state (s : DrainState) : DrainM unit := locked (write_locked s).
Definition clear_drain : DrainM bool := locked clear_locked.

(** [clear_drain] or [write_drain_state], inside a transaction. *)
Definition store_or_clear (clear : bool) (s : DrainState) (n : nat) (f : drain_files)
    : res drain_error bool * drain_files :=
  if clear then
    match clear_locked n f with (Ok _, f') => (Ok true, f') | (Err e, f') => (Err e, f') end
  else match write_locked s n f with (Ok _, f') => (Ok true, f') | (Err e, f') => (Err e, f') end.

(** Nothing but lanes and a full hold is left to say. *)
Definition no_caps (s : DrainState) : bool :=
  bool_decide (s.(drain_max_jobs) = None) && bool_decide (s.(drain_max_cpus) = None).

(** [release_legacy_scheduler_host] *)
Definition legacy_release_empty (s : DrainState) : bool :=
  bool_decide (s.(scheduler_hosts) = []) && negb s.(full_dispatch) && no_caps s
  && negb s.(reject_submits) && bool_decide (s.(update_mode) = None).

Definition release_legacy_locked (host : string) (expected : option (string * option string))
    (n : nat) (f : drain_files) : res drain_error bool * drain_files :=
  match read_locked n f with
  | (Err e, f) => (Err e, f)
  | (Ok None, f) => (Ok false, f)
  | (Ok (Some s), f) =>
    if negb (bool_decide (host ∈ s.(scheduler_hosts))) then (Ok false, f)
    else if match expected with
            | None => false
            | Some (set_at, reason) =>
              negb (String.eqb s.(drain_set_at) set_at) || negb (bool_decide (s.(drain_reason) = reason))
            end then (Err LeaseError, f)
    else
      let s := set_scheduler_hosts (List.filter (λ h, negb (String.eqb h host)) s.(scheduler_hosts)) s in
      store_or_clear (legacy_release_empty s) s n f
  end.

Definition release_legacy_scheduler_host (host : string) (expected : option (string * option string))
    : DrainM bool := locked (release_legacy_locked host expected).

(** [release_owned_full_drain] *)
Definition full_release_empty (s : DrainState) : bool :=
  bool_decide (s.(scheduler_hosts) = []) && no_caps s.

Definition release_owned_locked (expected_reason expected_set_at : string) (n : nat) (f : drain_files)
    : res drain_error bool * drain_files :=
  match read_locked n f with
  | (Err e, f) => (Err e, f)
  | (Ok None, f) => (Ok false, f)
  | (Ok (Some s), f) =>
    if negb (is_full_drain s) then (Ok false, f)
    else if negb (bool_decide (s.(drain_reason) = Some expected_reason))
            || negb (String.eqb s.(drain_set_at) expected_set_at) then (Err OwnedReleaseError, f)
    else store_or_clear (full_release_empty s) (lift_full_hold s) n f
  end.

Definition release_owned_full_drain (expected_reason expected_set_at : string) : DrainM bool :=
  if String.eqb (strip expected_reason) "" || String.eqb (strip expected_set_at) ""
  then throw DrainValueError
  else locked (release_owned_locked expected_reason expected_set_at).

(** [release_full_drain]: a read and a write, two transactions. *)
Definition release_full_drain : DrainM bool :=
  do? state := read_drain_state in
  match state with
  | None => ret false
  | Some s =>
    if negb (is_full_drain s) then ret false
    else if full_release_empty s then do? _ := clear_drain in ret true
    else do? _ := write_drain_state (lift_full_hold s) in ret true
  end.

(** The operator's part of [add_scheduler_host] ([owner_pid] is None): also
    two transactions. *)
Definition with_lane (host : string) (reason : option string) (s : DrainState) : DrainState :=
  let s' := if is_full_drain s then set_full_dispatch true s else s in
  let s' := set_scheduler_hosts (s'.(scheduler_hosts) ++ [host]) s' in
  match reason, s'.(drain_reason) with
  | Some _, (None | Some EmptyString) => set_drain_reason reason s'
  | _, _ => s'
  end.

Definition add_operator_lane (host : string) (reason : option string) : DrainM bool :=
  do? state := read_drain_state in
  match state with
  | None =>
    do? set_at := clock E.(dn_utcnow_iso) in
    do? _ := write_drain_state (new_drain reason [host] set_at) in ret true
  | Some s =>
    if bool_decide (host ∈ s.(scheduler_hosts)) then ret false
    else do? _ := write_drain_state (with_lane host reason s) in ret true
  end.

(** ** The lease store *)

(** [_read_scheduler_drain_lease_store] *)
Definition read_lease_store (f : drain_files) : res drain_error (list SchedulerDrainLease) :=
  match f.(lease_file) with
  | NoLeases => Ok []
  | CorruptLeases => Err LeaseError
  | Leases l =>
    raise? LeaseError when (negb (bool_decide (NoDup (map lease_id l)))) in
    raise? LeaseError when (negb (bool_decide (NoDup (map (λ x, (x.(lease_host), x.(lease_owner))) l)))) in
    Ok l
  end.

(** [_write_scheduler_drain_lease_store] *)
Definition write_lease_store (l : list SchedulerDrainLease) (n : nat) (f : drain_files)
    : res drain_error unit * drain_files :=
  if DRAIN_SNAPSHOT_FILE_LIMIT <? E.(dn_encoded_size) l then (Err LeaseError, f)
  else if E.(dn_write_fails) n then (Err DrainOSError, f)
  else (Ok tt, set_leases (Leases l) f).

(** The arguments of [apply_scheduler_drain_lease_mutation]. *)
Record lease_mutation : Type := MkMutation {
  mu_acquire : option SchedulerDrainLease;
  mu_release_id : option string;
  mu_release_host : option string;
  mu_release_owner : option string;
  mu_release_all : bool;
}.

Definition blank_arg (o : option string) : bool :=
  match o with None => false | Some v => String.eqb (strip v) "" end.

Definition is_none {A} (o : option A) : bool := match o with None => true | Some _ => false end.

Definition mutation_actions (m : lease_mutation) : list bool :=
  let a := is_none m.(mu_acquire) in
  let i := is_none m.(mu_release_id) in
  let h := is_none m.(mu_release_host) in
  let o := is_none m.(mu_release_owner) in
  let all := m.(mu_release_all) in
  [negb a && i && h && o && negb all; a && negb i && h && o && negb all; a && i && negb h && negb all;
   a && i && h && o && all].

(** The acquisition loop: the first lease that is the claim, by id or by
    host and owner; an id of another claim raises. *)
Fixpoint find_claim (acquire : SchedulerDrainLease) (l : list SchedulerDrainLease)
    : res drain_error (option SchedulerDrainLease) :=
  match l with
  | [] => Ok None
  | x :: l =>
    let same_pair := String.eqb x.(lease_host) acquire.(lease_host)
                     && String.eqb x.(lease_owner) acquire.(lease_owner) in
    if String.eqb x.(lease_id) acquire.(lease_id) then
      if same_pair then Ok (Some x) else Err LeaseError
    else if same_pair then Ok (Some x)
    else find_claim acquire l
  end.

Definition lease_key (x : SchedulerDrainLease) : string * (string * string) :=
  (x.(lease_host), (x.(lease_owner), x.(lease_id))).

Definition lease_leb : SchedulerDrainLease → SchedulerDrainLease → bool :=
  on_key (lex_leb String.leb (lex_leb String.leb String.leb)) lease_key.

Definition released_by (m : lease_mutation) (x : SchedulerDrainLease) : bool :=
  match m.(mu_release_id), m.(mu_release_host) with
  | Some i, _ => String.eqb x.(lease_id) i
  | None, Some h => String.eqb x.(lease_host) h
                    && match m.(mu_release_owner) with None => true | Some o => String.eqb x.(lease_owner) o end
  | None, None => true
  end.

(** The leases after the mutation, and the claim an acquisition found or made. *)
Definition mutate (m : lease_mutation) (l : list SchedulerDrainLease)
    : res drain_error (list SchedulerDrainLease * option SchedulerDrainLease) :=
  match m.(mu_acquire) with
  | Some a =>
    let? found := find_claim a l in
    match found with
    | Some x => Ok (l, Some x)
    | None => Ok (l ++ [a], Some a)
    end
  | None => Ok (List.filter (λ x, negb (released_by m x)) l, None)
  end.

Definition mutate_locked (m : lease_mutation) (n : nat) (f : drain_files)
    : res drain_error (list SchedulerDrainLease * option SchedulerDrainLease * bool) * drain_files :=
  match (let? l := read_lease_store f in let? r := mutate m l in Ok (l, r)) with
  | Err e => (Err e, f)
  | Ok (l, (l', acquired)) =>
    if bool_decide (length l' = length l) then (Ok (l', acquired, false), f)
    else
      let l' := sort_by lease_leb l' in
      match write_lease_store l' n f with
      | (Ok _, f') => (Ok (l', acquired, true), f')
      | (Err e, f') => (Err e, f')
      end
  end.

Definition apply_scheduler_drain_lease_mutation (m : lease_mutation)
    : DrainM (list SchedulerDrainLease * option SchedulerDrainLease * bool) :=
  if blank_arg m.(mu_release_id) || blank_arg m.(mu_release_host) || blank_arg m.(mu_release_owner)
  then throw LeaseError
  else if negb (bool_decide (length (List.filter (λ b, b) (mutation_actions m)) = 1%nat))
  then throw LeaseError
  else locked (mutate_locked m).

Definition release_mutation (id host owner : option string) (all : bool) : lease_mutation :=
  MkMutation None id host owner all.

(** [release_scheduler_drain_lease], [release_scheduler_drain_leases],
    [clear_scheduler_drain_leases] *)
Definition release_scheduler_drain_lease (id : string) : DrainM bool :=
  do? r := apply_scheduler_drain_lease_mutation (release_mutation (Some id) None None false) in ret r.2.
Definition release_scheduler_drain_leases (host : string) (owner : option string) : DrainM bool :=
  do? r := apply_scheduler_drain_lease_mutation (release_mutation None (Some host) owner false) in ret r.2.
Definition clear_scheduler_drain_leases : DrainM bool :=
  do? r := apply_scheduler_drain_lease_mutation (release_mutation None None None true) in ret r.2.

(** The field constraints of [SchedulerDrainLease]. *)
Definition lease_id_char (c : ascii) : bool := name_char c || Ascii.eqb c ":".

Definition lease_valid (x : SchedulerDrainLease) : bool :=
  fullmatch_class lease_id_char 1 160 x.(lease_id)
  && (1 <=? str_len x.(lease_host)) && (str_len x.(lease_host) <=? 255)
  && (1 <=? str_len x.(lease_owner)) && (str_len x.(lease_owner) <=? 512)
  && match x.(lease_owner_pid) with None => true | Some p => (0 <? p) && (p <=? 2147483647) end.

(** [acquire_scheduler_drain_lease] *)
Definition acquire_scheduler_drain_lease (scheduler_host owner : string) (reason : option string)
    (owner_pid : option Z) (id : option string) : DrainM (SchedulerDrainLease * bool) :=
  let host := strip scheduler_host in
  if String.eqb host "" then throw LeaseError
  else
    do? token := clock E.(dn_token_hex) in
    do? set_at := clock E.(dn_utcnow_iso) in
    do? start := clock E.(dn_pid_start_time) in
    let lease := {| lease_id := match id with Some EmptyString | None => token | Some i => i end;
                    lease_host := host; lease_owner := owner; lease_set_at := set_at;
                    lease_reason := reason; lease_owner_pid := owner_pid;
                    lease_owner_pid_start_time :=
                      match owner_pid with None => 0 | Some p => default 0 (start p) end |} in
    if negb (lease_valid lease) then throw LeaseError
    else
      do? r := apply_scheduler_drain_lease_mutation (MkMutation (Some lease) None None None false) in
      match r with
      | (_, Some acquired, changed) => ret (acquired, changed)
      | (_, None, _) => throw LeaseError
      end.

(** [add_scheduler_host]: a process takes a lease, an operator a lane. *)
Definition add_scheduler_host (host : string) (reason : option string) (owner_pid : option Z) : DrainM bool :=
  match owner_pid with
  | Some p =>
    do? start := clock E.(dn_pid_start_time) in
    let owner := "process:" +:+ pretty p +:+ ":" +:+ pretty (default 0 (start p)) +:+ ":" +:+ host in
    do? r := acquire_scheduler_drain_lease host owner reason (Some p) None in ret r.2
  | None => add_operator_lane host reason
  end.

(** [release_scheduler_host]: the leases, then the legacy lane. *)
Definition release_scheduler_host (host : string) : DrainM bool :=
  do? lease := release_scheduler_drain_leases host None in
  do? legacy := release_legacy_scheduler_host host None in
  ret (lease || legacy).

(** ** The effective policy *)

(** [list(dict.fromkeys(l))]: the first of each. *)
Fixpoint first_of_each (seen l : list string) : list string :=
  match l with
  | [] => []
  | x :: l => if bool_decide (x ∈ seen) then first_of_each seen l else x :: first_of_each (x :: seen) l
  end.

Fixpoint min_string (x : string) (l : list string) : string :=
  match l with
  | [] => x
  | y :: l => min_string (if String.ltb y x then y else x) l
  end.

(** [_compose_effective_drain_state] *)
Definition compose_effective (legacy : option DrainState) (leases : list SchedulerDrainLease)
    : option DrainState :=
  let legacy := match legacy with Some s => if s.(enabled) then Some s else None | None => None end in
  match leases with
  | [] => legacy
  | x :: rest =>
    let hosts := map lease_host leases in
    match legacy with
    | None =>
      let set_at := min_string x.(lease_set_at) (map lease_set_at rest) in
      Some (match rest with
            | [] => MkDrain true None None set_at x.(lease_reason) x.(lease_owner_pid)
                      x.(lease_owner_pid_start_time) (first_of_each [] hosts) false false None None
            | _ => new_drain None (first_of_each [] hosts) set_at
            end)
    | Some s =>
      let e := set_scheduler_hosts (first_of_each [] (s.(scheduler_hosts) ++ hosts)) (set_enabled s) in
      Some (if is_full_drain s then set_full_dispatch true e else e)
    end
  end.

(** The synthetic full hold over an unreadable store. *)
Definition unreadable_hold (raw legacy : option DrainState) (detail now : string) : DrainState :=
  let s := match legacy with
           | Some s => s
           | None => new_drain None [] (match raw with Some r => r.(drain_set_at) | None => now end)
           end in
  let error_reason := "scheduler drain leases unreadable: " +:+ detail in
  let reason := match legacy with
                | Some s => match s.(drain_reason) with
                            | Some (String _ _ as r) => r +:+ "; " +:+ error_reason
                            | _ => error_reason
                            end
                | None => error_reason
                end in
  set_drain_reason (Some reason) (set_duration None (set_full_dispatch true (set_enabled s))).

(** [read_effective_drain_state]: the legacy document, then the leases. *)
Definition read_effective_drain_state : DrainM (option DrainState) :=
  do? raw := read_drain_state in
  let legacy := match raw with Some s => if s.(enabled) then Some s else None | None => None end in
  do? leases := locked (λ _ f, (Ok (read_lease_store f, E.(dn_lease_detail) f), f)) in
  match leases with
  | (Err _, detail) =>
    do? now := clock E.(dn_utcnow_iso) in ret (Some (unreadable_hold raw legacy detail now))
  | (Ok l, _) => ret (compose_effective legacy l)
  end.

(** [_project_read_only_legacy_expiry] *)
Definition project_expiry (state : option DrainState) (observed : timestamp) : option DrainState :=
  match state with
  | None => None
  | Some s =>
    if negb s.(enabled) then None
    else match s.(duration_seconds) with
         | None => Some s
         | Some d =>
           match E.(dn_fromisoformat) s.(drain_set_at), observed with
           | Aware t, Aware now =>
             if d * TICKS_PER_SECOND <=? now - t then
               if bool_decide (s.(scheduler_hosts) = []) then None else Some (lift_full_hold s)
             else Some s
           | _, _ => Some s
           end
         end
  end.

(** ** Orphaned lanes *)

(** [_pid_alive], given what the signal probe answers in range. *)
Definition pid_alive (probe : Z → bool) (pid : Z) : bool :=
  if (pid <=? 0) || (2147483647 <? pid) then true else probe pid.

Inductive orphan : Type := OwnerGone | OwnerRecycled.

(** [orphaned_lane_reason] and [scheduler_lease_orphaned_reason] *)
Definition orphaned_lane_reason (probe : Z → bool) (start_time : Z → option Z) (state : option DrainState)
    : option orphan :=
  match state with
  | None => None
  | Some s =>
    if negb s.(enabled) || bool_decide (s.(scheduler_hosts) = []) then None
    else match s.(drain_owner_pid) with
         | None => None
         | Some pid =>
           if negb (pid_alive probe pid) then Some OwnerGone
           else if s.(drain_owner_pid_start_time) =? 0 then None
           else match start_time pid with
                | None => None
                | Some live => if live =? s.(drain_owner_pid_start_time) then None else Some OwnerRecycled
                end
         end
  end.

Definition scheduler_lease_orphaned_reason (probe : Z → bool) (start_time : Z → option Z)
    (x : SchedulerDrainLease) : option orphan :=
  orphaned_lane_reason probe start_time
    (Some (MkDrain true None None x.(lease_set_at) x.(lease_reason) x.(lease_owner_pid)
             x.(lease_owner_pid_start_time) [x.(lease_host)] false false None None)).
End drain.
