(* ===== verification/DrainGuarantees.v ===== *)
(** * What the drain files guarantee

    The lease store refines a finite map from claims to leases; the effective
    policy holds exactly what the enabled legacy document and the leases hold;
    releases take back exactly their own hold, but for one corner. *)

From S2P Require Import Prelude Json Spec Admission Drain.

(** ** Leases *)

Definition claim_of (x : SchedulerDrainLease) : string * string := (x.(lease_host), x.(lease_owner)).

(** The abstract store: one lease per host and owner. *)
Definition lease_map (l : list SchedulerDrainLease) : gmap (string * string) SchedulerDrainLease :=
  list_to_map (map (λ x, (claim_of x, x)) l).

(** The abstract operations: the first claim wins; a release removes what it names. *)
Definition abs_mutate (m : lease_mutation) (M : gmap (string * string) SchedulerDrainLease)
    : gmap (string * string) SchedulerDrainLease :=
  match m.(mu_acquire) with
  | Some a => match M !! claim_of a with Some _ => M | None => <[claim_of a := a]> M end
  | None => filter (λ kx, released_by m kx.2 = false) M
  end.

Record leases_ok (l : list SchedulerDrainLease) : Prop := {
  lo_ids : NoDup (map lease_id l);
  lo_claims : NoDup (map claim_of l);
  lo_sorted : StronglySorted (λ a b, lease_leb a b = true) l;
}.

Definition store_ok (f : drain_files) : Prop :=
  match f.(lease_file) with Leases l => leases_ok l | NoLeases | CorruptLeases => True end.

Lemma lease_map_lookup l k x :
  NoDup (map claim_of l) → lease_map l !! k = Some x ↔ x ∈ l ∧ claim_of x = k.
Proof.
  intros Hl. unfold lease_map. rewrite <- elem_of_list_to_map.
  - rewrite list_elem_of_fmap. split; [by intros (y & [= -> ->] & Hy)|]. intros [Hx <-]. by exists x.
  - by rewrite <- list_fmap_compose.
Qed.

Lemma lease_map_perm l l' : NoDup (map claim_of l) → l ≡ₚ l' → lease_map l = lease_map l'.
Proof.
  intros Hl Hp. apply map_eq. intros k. apply option_eq. intros x.
  rewrite !lease_map_lookup; [|by rewrite <- Hp|done]. by rewrite Hp.
Qed.

Lemma read_lease_store_ok f l :
  store_ok f → read_lease_store f = Ok l → leases_ok l ∧ (f.(lease_file) = Leases l ∨ (f.(lease_file) = NoLeases ∧ l = [])).
Proof.
  unfold store_ok, read_lease_store. intros Hs Hr. destruct (lease_file f) as [| |l0].
  - injection Hr as <-. split; [split; constructor|by right].
  - done.
  - repeat case_bool_decide; simpl in Hr; simplify_eq. by auto.
Qed.

Lemma find_claim_none a l :
  find_claim a l = Ok None → (∀ x, x ∈ l → x.(lease_id) ≠ a.(lease_id) ∧ claim_of x ≠ claim_of a).
Proof.
  induction l as [|y l IH]; simpl; [by intros _ x ?%not_elem_of_nil|].
  destruct (String.eqb_spec (lease_id y) (lease_id a)) as [|Hid]; [by destruct (_ && _)|].
  destruct (_ && _) eqn:Hp; [done|]. intros Hf x [->|Hx]%elem_of_cons; [|by apply IH]. split; [done|].
  intros [= Hh Ho]. by rewrite Hh, Ho, !String.eqb_refl in Hp.
Qed.

Lemma find_claim_some a l x :
  find_claim a l = Ok (Some x) → x ∈ l ∧ claim_of x = claim_of a.
Proof.
  induction l as [|y l IH]; simpl; [done|].
  destruct (_ && _) eqn:Hp.
  - apply andb_true_iff in Hp as [Hh%String.eqb_eq Ho%String.eqb_eq].
    intros Hf. assert (y = x) as <- by (destruct (String.eqb (lease_id y) (lease_id a)); congruence).
    split; [set_solver|]. unfold claim_of. congruence.
  - destruct (String.eqb (lease_id y) (lease_id a)); [done|]. intros [? ?]%IH. split; [set_solver|done].
Qed.

Lemma lease_map_insert a l :
  NoDup (map claim_of l) → (∀ x, x ∈ l → claim_of x ≠ claim_of a) →
  lease_map (l ++ [a]) = <[claim_of a := a]> (lease_map l).
Proof.
  intros Hl Ha. rewrite (lease_map_perm _ (a :: l)); [done| |by rewrite Permutation_app_comm].
  rewrite map_app. simpl. apply NoDup_app. split_and!; [done| |apply NoDup_singleton].
  intros k (x & -> & Hx)%list_elem_of_fmap Hk%list_elem_of_singleton. by apply (Ha x).
Qed.

Lemma NoDup_map_filter {A B} (g : A → B) (p : A → bool) l :
  NoDup (map g l) → NoDup (map g (List.filter p l)).
Proof.
  induction l as [|x l IH]; simpl; [done|]. intros [Hx Hl]%NoDup_cons. destruct (p x); simpl; [|auto].
  apply NoDup_cons. split; [|auto]. intros (y & Ey & [Hy _]%elem_of_filterb)%list_elem_of_fmap.
  apply Hx. rewrite Ey. by apply (list_elem_of_fmap_2 g).
Qed.

Lemma lease_map_filter (p : SchedulerDrainLease → bool) l :
  NoDup (map claim_of l) →
  lease_map (List.filter p l) = filter (λ kx, p kx.2 = true) (lease_map l).
Proof.
  intros Hl. apply map_eq. intros k. apply option_eq. intros x. rewrite map_lookup_filter_Some. simpl.
  rewrite !lease_map_lookup; [rewrite elem_of_filterb; tauto|done|].
  by apply NoDup_map_filter.
Qed.

Section guarantees.
Context (E : DrainEnv).

Lemma mutate_perm m l l' acquired :
  leases_ok l → mutate m l = Ok (l', acquired) →
  NoDup (map lease_id l') ∧ NoDup (map claim_of l') ∧ lease_map l' = abs_mutate m (lease_map l)
  ∧ acquired = (match m.(mu_acquire) with Some a => lease_map l' !! claim_of a | None => None end)
  ∧ (length l' = length l → l' = l).
Proof.
  intros [Hids Hcl Hso] Hm. unfold mutate in Hm. unfold abs_mutate. destruct (mu_acquire m) as [a|].
  - destruct (find_claim a l) as [[x|]|] eqn:Hf; simpl in Hm; simplify_eq.
    + apply find_claim_some in Hf as [Hx Hc].
      assert (lease_map l' !! claim_of a = Some x) as Hl by (by apply lease_map_lookup).
      by rewrite Hl.
    + pose proof (find_claim_none _ _ Hf) as Hn.
      assert (lease_map l !! claim_of a = None) as Hl.
      { apply eq_None_not_Some. intros [x [Hx Hc]%lease_map_lookup]; [|done]. by apply (Hn x). }
      rewrite Hl, lease_map_insert, lookup_insert_eq; [|done|by intros x Hx; apply Hn].
      rewrite !map_app, length_app. simpl. split_and!; [| |done|done|intros; lia].
      * apply NoDup_app. split_and!; [done| |apply NoDup_singleton].
        intros i (x & -> & Hx)%list_elem_of_fmap Hi%list_elem_of_singleton. by destruct (Hn x).
      * apply NoDup_app. split_and!; [done| |apply NoDup_singleton].
        intros i (x & -> & Hx)%list_elem_of_fmap Hi%list_elem_of_singleton. by destruct (Hn x).
  - injection Hm as <- <-. split_and!; [by apply NoDup_map_filter..| |done|].
    + rewrite lease_map_filter by done. apply map_filter_ext. intros k x _. simpl. by rewrite negb_true_iff.
    + intros Hlen. clear -Hlen. induction l as [|x l IH]; [done|]. simpl in *.
      destruct (negb _); simpl in *; [f_equal; apply IH; lia|].
      pose proof (List.filter_length_le (λ x, negb (released_by m x)) l). lia.
Qed.

End guarantees.

(** ** The effective policy *)

Lemma elem_of_first_of_each seen l x : x ∈ first_of_each seen l ↔ x ∈ l ∧ x ∉ seen.
Proof.
  revert seen. induction l as [|y l IH]; intros seen; simpl; [set_solver|].
  case_bool_decide; [rewrite IH; set_solver|]. rewrite elem_of_cons, IH.
  destruct (decide (x = y)); set_solver.
Qed.

Lemma first_of_each_nil l : first_of_each [] l = [] → l = [].
Proof.
  destruct l as [|x l]; [done|]. intros H.
  assert (x ∈ first_of_each [] (x :: l)) as Hx by (apply elem_of_first_of_each; set_solver).
  rewrite H in Hx. by apply not_elem_of_nil in Hx.
Qed.

Definition enabled_legacy (legacy : option DrainState) : option DrainState :=
  match legacy with Some s => if s.(enabled) then Some s else None | None => None end.

(** What a policy means to the dispatch pass. *)
Definition holds_lane (p : option DrainState) (t : string) : bool :=
  match p with Some s => drains_scheduler_target s (Some t) | None => false end.
Definition holds_all (p : option DrainState) : bool :=
  match p with Some s => is_full_drain s | None => false end.
Definition cap_jobs (p : option DrainState) (m : option Z) : option Z :=
  match p with Some s => effective_max_jobs s m | None => m end.
Definition cap_cpus (p : option DrainState) (m : Z) : Z :=
  match p with Some s => effective_max_cpus s m | None => m end.

Lemma effective_policy legacy leases :
  let p := compose_effective legacy leases in
  let q := enabled_legacy legacy in
  (p = None ↔ q = None ∧ leases = [])
  ∧ (∀ t, t ≠ "" → holds_lane p t = true ↔ holds_lane q t = true ∨ ∃ x, x ∈ leases ∧ x.(lease_host) = t)
  ∧ holds_all p = holds_all q
  ∧ (∀ m, cap_jobs p m = cap_jobs q m) ∧ (∀ m, cap_cpus p m = cap_cpus q m).
Proof.
  cbn zeta. unfold compose_effective. fold (enabled_legacy legacy).
  destruct leases as [|x rest].
  { split_and!; try done; [tauto|]. intros t _. split; [by left|]. intros [?|(x & ?%not_elem_of_nil & _)]; done. }
  set (hosts := map lease_host (x :: rest)).
  assert (∀ t, t ∈ hosts ↔ ∃ y, y ∈ x :: rest ∧ y.(lease_host) = t) as Hhosts.
  { intros t. unfold hosts. rewrite list_elem_of_fmap. naive_solver. }
  assert (hosts ≠ []) as Hh0 by done. clearbody hosts.
  assert (∀ t l, t ≠ "" → drains_scheduler_target l (Some t) = bool_decide (t ∈ l.(scheduler_hosts))) as Hlane.
  { intros t l Ht. simpl. by destruct (String.eqb_spec t ""). }
  destruct (enabled_legacy legacy) as [s|] eqn:Hq.
  - assert (enabled s = true) as Hen.
    { unfold enabled_legacy in Hq. destruct legacy as [s0|]; [|done]. destruct (enabled s0) eqn:?; naive_solver. }
    assert (first_of_each [] (scheduler_hosts s ++ hosts) ≠ []) as Hne.
    { intros H%first_of_each_nil. by apply app_eq_nil in H as [_ ?]. }
    split_and!.
    + split; [by destruct (is_full_drain s)|]. by intros [? _].
    + intros t Ht. unfold holds_lane. rewrite (Hlane t s), Hlane, !bool_decide_eq_true, <- Hhosts by done.
      destruct (is_full_drain s); simpl; rewrite elem_of_first_of_each, elem_of_app; set_solver.
    + unfold holds_all. destruct (is_full_drain s) eqn:Hf; unfold is_full_drain; simpl; [done|].
      unfold is_full_drain in Hf. rewrite Hen in Hf. simpl in Hf. apply orb_false_iff in Hf as [-> _].
      by rewrite (bool_decide_eq_false_2 (_ = [])), andb_false_r by done.
    + intros m. by destruct (is_full_drain s).
    + intros m. by destruct (is_full_drain s).
  - assert (first_of_each [] hosts ≠ []) as Hne by (by intros H%first_of_each_nil).
    set (e := match rest with [] => _ | _ => _ end).
    assert (scheduler_hosts e = first_of_each [] hosts ∧ full_dispatch e = false
            ∧ drain_max_jobs e = None ∧ drain_max_cpus e = None) as (Hh & Hfd & Hmj & Hmc)
      by (unfold e; by destruct rest).
    split_and!.
    + by split; [|intros [_ ?]].
    + intros t Ht. unfold holds_lane. rewrite Hlane, bool_decide_eq_true, <- Hhosts, Hh, elem_of_first_of_each by done.
      set_solver.
    + simpl. unfold is_full_drain. rewrite Hfd, Hh. simpl.
      by rewrite (bool_decide_eq_false_2 (_ = [])), !andb_false_r by done.
    + intros m. simpl. unfold effective_max_jobs. by rewrite Hmj.
    + intros m. simpl. unfold effective_max_cpus. by rewrite Hmc.
Qed.

(** The effective drain is exactly the union of what the enabled legacy
    document and the leases hold: a lane is held if and only if one of them
    names it; everything is held if and only if the legacy document, read
    alone, held everything, so adding a lane to an implicit full drain does
    not resume dispatch; the caps are the legacy document's; and a disabled
    document contributes nothing. *)
Theorem effective_policy_exact legacy leases :
  let p := compose_effective legacy leases in
  let q := enabled_legacy legacy in
  (p = None ↔ q = None ∧ leases = [])
  ∧ (∀ t, t ≠ "" → holds_lane p t = true ↔ holds_lane q t = true ∨ ∃ x, x ∈ leases ∧ x.(lease_host) = t)
  ∧ holds_all p = holds_all q
  ∧ (∀ m, cap_jobs p m = cap_jobs q m) ∧ (∀ m, cap_cpus p m = cap_cpus q m).
Proof. exact (effective_policy legacy leases). Qed.

(** ** The legacy document *)

Section legacy.
Context (E : DrainEnv).

(** The state in the document, and what is left of it at time [n]. *)
Definition doc (f : drain_files) : option DrainState :=
  match f.(legacy_file) with Legacy d r => Some (validate_for_read d r) | _ => None end.

Definition current (n : nat) (f : drain_files) : option DrainState :=
  match doc f with
  | None => None
  | Some s => if expired E n s
              then if bool_decide (s.(scheduler_hosts) = []) then None else Some (lift_full_hold s)
              else Some s
  end.

Definition positive_duration (s : DrainState) : Prop :=
  match s.(duration_seconds) with None => True | Some d => 0 < d end.

Lemma validate_positive d r : positive_duration (validate_for_read d r).
Proof. unfold positive_duration. destruct d; simpl; try done. by destruct (Z.leb_spec z 0). Qed.

(** A state written is the state read. *)
Lemma dump_read s f : positive_duration s → doc (set_legacy (dump_drain s) f) = Some s.
Proof.
  unfold doc, dump_drain, positive_duration. simpl. destruct s as [? ? ? ? ? ? ? ? ? ? ? [d|]]; simpl; [|done].
  intros Hd. by destruct (Z.leb_spec d 0); [lia|].
Qed.

Lemma current_positive n f s : current n f = Some s → positive_duration s.
Proof.
  unfold current, doc. destruct (legacy_file f) as [| |d r]; [done..|]. pose proof (validate_positive d r).
  repeat case_match; naive_solver.
Qed.

Lemma read_locked_spec n f r f' :
  read_locked E n f = (r, f') →
  f'.(lease_file) = f.(lease_file)
  ∧ ((r = Ok (current n f) ∧ doc f' = current n f) ∨ (r = Err DrainOSError ∧ f' = f)).
Proof.
  unfold read_locked, current, doc, clear_locked, write_locked.
  destruct (legacy_file f) as [| |d s0] eqn:Hf.
  - intros [= <- <-]. rewrite Hf. auto.
  - intros [= <- <-]. rewrite Hf. auto.
  - set (s := validate_for_read d s0). destruct (expired E n s); [|intros [= <- <-]; rewrite Hf; auto].
    case_bool_decide; destruct (dn_write_fails E n); intros [= <- <-]; auto.
Qed.

Lemma store_or_clear_spec clear s n f r f' :
  positive_duration s → doc f ≠ None → store_or_clear E clear s n f = (r, f') →
  f'.(lease_file) = f.(lease_file)
  ∧ ((r = Ok true ∧ doc f' = if clear then None else Some s) ∨ (r = Err DrainOSError ∧ f' = f)).
Proof.
  unfold store_or_clear, clear_locked, write_locked. intros Hp Hd. destruct clear.
  - unfold doc in Hd. destruct (legacy_file f); [done..|]. destruct (dn_write_fails E n); intros [= <- <-]; auto.
  - destruct (dn_write_fails E n); intros [= <- <-]; auto. split; [done|]. left. split; [done|]. by apply dump_read.
Qed.

(** The read-only status projects the lazy expiry as the daemon applies
    it: for a document whose time carries a zone, the policy of the copy is
    the enabled part of what a read at that moment returns.  For a time
    without a zone the two part: the daemon's read expires the hold, the
    projection never does. *)
Theorem expiry_projection_agrees n f s :
  doc f = Some s → E.(dn_write_fails) n = false →
  match E.(dn_fromisoformat) s.(drain_set_at) with
  | Naive _ => enabled s = true → project_expiry E (Some s) (Aware (E.(dn_now) n)) = Some s
  | _ => ∃ r, (read_locked E n f).1 = Ok r
              ∧ project_expiry E (Some s) (Aware (E.(dn_now) n)) = enabled_legacy r
  end.
Proof.
  intros Hd Hw. destruct (read_locked E n f) as [r f'] eqn:Hr.
  apply read_locked_spec in Hr as Hspec. destruct Hspec as (_ & [[-> _]|[-> ->]]).
  2: { exfalso. unfold read_locked in Hr. unfold doc in Hd. destruct (legacy_file f) as [| |d s0] eqn:Hf; [done..|].
       unfold clear_locked, write_locked in Hr. rewrite Hf, Hw in Hr. repeat case_match; congruence. }
  unfold current. rewrite Hd. unfold expired, project_expiry, enabled_legacy. simpl.
  destruct (dn_fromisoformat E (drain_set_at s)) as [t|t| |] eqn:Ht; simpl.
  2: { intros ->. simpl. by destruct (duration_seconds s). }
  all: eexists; (split; [done|]); destruct (duration_seconds s) as [d|]; simpl;
    try destruct (_ <=? _); simpl; try case_bool_decide; simpl; by destruct (enabled s).
Qed.

(** *** Releases *)

(** [release_owned_full_drain] lifts exactly its own hold.  It answers
    True only for a full hold with the recorded reason and time; then
    everything is no longer held, while every lane and cap is as before.  A
    full hold of another identity makes it raise and stays; when it answers
    False there was no full hold, and the policy is as a read leaves it; the
    leases are never touched. *)
Theorem owned_release_exact reason set_at n f r f' :
  release_owned_locked E reason set_at n f = (r, f') →
  f'.(lease_file) = f.(lease_file)
  ∧ match r with
    | Ok true =>
      ∃ s, current n f = Some s ∧ is_full_drain s = true ∧ s.(drain_reason) = Some reason
        ∧ s.(drain_set_at) = set_at ∧ holds_all (doc f') = false
        ∧ (∀ t, holds_lane (doc f') t = holds_lane (Some s) t)
        ∧ (∀ m, cap_jobs (doc f') m = cap_jobs (Some s) m) ∧ (∀ m, cap_cpus (doc f') m = cap_cpus (Some s) m)
    | Ok false => holds_all (current n f) = false ∧ doc f' = current n f
    | Err OwnedReleaseError =>
      ∃ s, current n f = Some s ∧ is_full_drain s = true ∧ doc f' = Some s
        ∧ (s.(drain_reason) ≠ Some reason ∨ s.(drain_set_at) ≠ set_at)
    | Err e => e = DrainOSError ∧ (doc f' = doc f ∨ doc f' = current n f)
    end.
Proof.
  unfold release_owned_locked. destruct (read_locked E n f) as [r1 f1] eqn:Hr.
  apply read_locked_spec in Hr as (Hl & [[-> Hd]|[-> ->]]); [|intros [= <- <-]; by auto].
  destruct (current n f) as [s|] eqn:Hc; [|intros [= <- <-]; by auto].
  destruct (is_full_drain s) eqn:Hf; simpl; [|intros [= <- <-]; by auto].
  case_bool_decide as Hre; simpl; [|intros [= <- <-]; split; [done|]; exists s; by auto].
  destruct (String.eqb_spec (drain_set_at s) set_at) as [Hat|Hat]; simpl;
    [|intros [= <- <-]; split; [done|]; exists s; by auto].
  intros Hs. apply store_or_clear_spec in Hs as (Hl' & Hs'); [|done|by rewrite Hd].
  split; [congruence|]. destruct Hs' as [[-> Hd']|[-> ->]]; [|by auto].
  exists s. split_and!; [done..| | | |]; rewrite Hd'; unfold full_release_empty, no_caps;
    destruct s as [en mj mc sa re op os hs fd rs um du]; simpl in *.
  - unfold is_full_drain. simpl. destruct en; [|by repeat case_match]. simpl.
    repeat case_bool_decide; simpl; try done; simplify_eq; unfold is_full_drain; simpl;
      repeat case_bool_decide; done.
  - intros t. destruct (bool_decide (hs = [])) eqn:Hn; simpl; [|done]. apply bool_decide_eq_true in Hn as ->.
    destruct (bool_decide (mj = None) && _); simpl; [|done].
    by rewrite andb_false_r.
  - intros m. by repeat case_bool_decide; simplify_eq/=.
  - intros m. by repeat case_bool_decide; simplify_eq/=.
Qed.

(** What releasing the last lane of [s] makes of the rest: a hold of everything. *)
Definition release_widens (host : string) (s : DrainState) : bool :=
  enabled s && negb s.(full_dispatch) && no_caps s
  && forallb (λ h, String.eqb h host) s.(scheduler_hosts)
  && (s.(reject_submits) || negb (bool_decide (s.(update_mode) = None))).

Lemma filter_lanes_nil host l :
  bool_decide (List.filter (λ h, negb (String.eqb h host)) l = []) = forallb (λ h, String.eqb h host) l.
Proof.
  induction l as [|h l IH]; [done|]. simpl. destruct (String.eqb h host); simpl; [exact IH|done].
Qed.

Definition without_lane (host : string) (s : DrainState) : DrainState :=
  set_scheduler_hosts (List.filter (λ h, negb (String.eqb h host)) s.(scheduler_hosts)) s.

Definition after_lane_release (host : string) (s : DrainState) : option DrainState :=
  if legacy_release_empty (without_lane host s) then None else Some (without_lane host s).

Lemma lane_of_release host s t :
  holds_lane (after_lane_release host s) t = holds_lane (Some s) t && negb (String.eqb t host).
Proof.
  unfold after_lane_release. set (l := List.filter (λ h, negb (String.eqb h host)) s.(scheduler_hosts)).
  assert (bool_decide (t ∈ l) = bool_decide (t ∈ s.(scheduler_hosts)) && negb (String.eqb t host)) as Hm.
  { apply eq_true_iff_eq. rewrite andb_true_iff, !bool_decide_eq_true. unfold l. by rewrite elem_of_filterb. }
  destruct (legacy_release_empty _) eqn:He.
  - unfold legacy_release_empty in He. simpl in He. fold l in He. rewrite !andb_true_iff in He.
    destruct He as [[[[He%bool_decide_eq_true _] _] _] _]. rewrite He in Hm.
    rewrite bool_decide_eq_false_2 in Hm by apply not_elem_of_nil. simpl.
    by rewrite <- andb_assoc, <- Hm, andb_false_r.
  - simpl. fold l. by rewrite Hm, andb_assoc.
Qed.

Lemma caps_of_release host s :
  legacy_release_empty (without_lane host s) = true →
  (∀ m, m = cap_jobs (Some s) m) ∧ (∀ m, m = cap_cpus (Some s) m).
Proof.
  unfold legacy_release_empty, no_caps. simpl. rewrite !andb_true_iff.
  intros [[[_ [Hj%bool_decide_eq_true Hc%bool_decide_eq_true]] _] _].
  unfold effective_max_jobs, effective_max_cpus. by rewrite Hj, Hc.
Qed.

Lemma all_of_release host s :
  host ∈ s.(scheduler_hosts) →
  holds_all (after_lane_release host s) = holds_all (Some s) || release_widens host s.
Proof.
  intros Hh. unfold after_lane_release, legacy_release_empty, holds_all, is_full_drain, release_widens, no_caps.
  destruct s as [en mj mc sa re op os hs fd rs um du]. simpl in *. rewrite filter_lanes_nil.
  rewrite (bool_decide_eq_false_2 (hs = [])) by (intros ->; by apply not_elem_of_nil in Hh).
  destruct (forallb _ hs) eqn:Hfa, fd, en, rs; simpl; rewrite ?andb_false_r, ?orb_false_r; simpl; try done.
  all: unfold is_full_drain; simpl; rewrite ?filter_lanes_nil, ?Hfa; repeat case_bool_decide; simpl; try done.
  all: rewrite filter_lanes_nil, Hfa; repeat case_bool_decide; by simplify_eq.
Qed.

(** Releasing a legacy lane frees that lane and no other, keeps the caps,
    and leaves the leases alone; a document that changed since it was
    inspected is refused and kept.  Everything is held afterwards exactly
    when it was held before, except in one corner: the last lane of a
    document that has no caps and no full hold but rejects submissions or
    carries an update label; there the release, which should free the lane,
    turns the document into a hold of everything. *)
Theorem lane_release_exact host expected n f r f' :
  release_legacy_locked E host expected n f = (r, f') →
  f'.(lease_file) = f.(lease_file)
  ∧ match r with
    | Ok true =>
      ∃ s, current n f = Some s ∧ host ∈ s.(scheduler_hosts)
        ∧ (∀ set_at why, expected = Some (set_at, why) → s.(drain_set_at) = set_at ∧ s.(drain_reason) = why)
        ∧ (∀ t, holds_lane (doc f') t = holds_lane (Some s) t && negb (String.eqb t host))
        ∧ holds_all (doc f') = holds_all (Some s) || release_widens host s
        ∧ (∀ m, cap_jobs (doc f') m = cap_jobs (Some s) m) ∧ (∀ m, cap_cpus (doc f') m = cap_cpus (Some s) m)
    | Ok false => doc f' = current n f ∧ (∀ s, current n f = Some s → host ∉ s.(scheduler_hosts))
    | Err LeaseError => doc f' = current n f ∧ expected ≠ None
    | Err e => e = DrainOSError ∧ (doc f' = doc f ∨ doc f' = current n f)
    end.
Proof.
  unfold release_legacy_locked. destruct (read_locked E n f) as [r1 f1] eqn:Hr.
  apply read_locked_spec in Hr as (Hl & [[-> Hd]|[-> ->]]); [|intros [= <- <-]; by auto].
  destruct (current n f) as [s|] eqn:Hc; [|intros [= <- <-]; by auto].
  case_bool_decide as Hh; simpl; [|intros [= <- <-]; split; [done|]; split; [done|]; by intros ? [= <-]].
  destruct (match expected with None => false | Some _ => _ end) eqn:Hx.
  { intros [= <- <-]. split; [done|]. split; [done|]. by destruct expected. }
  fold (without_lane host s). intros Hs.
  apply store_or_clear_spec in Hs as (Hl' & Hs'); [|exact (current_positive n f s Hc)|by rewrite Hd].
  split; [congruence|]. destruct Hs' as [[-> Hd']|[-> ->]]; [|by auto].
  fold (after_lane_release host s) in Hd'. exists s. split_and!; [done|done| | | | |].
  - intros set_at why ->. apply orb_false_iff in Hx as [H1%negb_false_iff%String.eqb_eq H2%negb_false_iff].
    by apply bool_decide_eq_true in H2.
  - intros t. rewrite Hd'. apply lane_of_release.
  - rewrite Hd'. by apply all_of_release.
  - intros m. rewrite Hd'. unfold after_lane_release. destruct (legacy_release_empty _) eqn:He; [|done].
    by apply caps_of_release in He as [? ?].
  - intros m. rewrite Hd'. unfold after_lane_release. destruct (legacy_release_empty _) eqn:He; [|done].
    by apply caps_of_release in He as [? ?].
Qed.
End legacy.
