(* ===== verification/DaemonCore.v ===== *)
(** * The daemon's world: [src/vq/daemon.py]

    What the dispatch pass, the launcher and the reaper share: the queue
    directory other processes write, the daemon's in-memory tracking of local
    and scheduler jobs, and the computations over both.  The daemon is in
    single-user mode ([self._multi_user] is false): one queue directory, no
    per-user quotas or submit bindings. *)

From S2P Require Import Prelude Spec Admission.

(** ** State *)

(** What [_RunningJob], [_OrphanJob] and [_TerminalSurvivor] hold of the
    host: CPUs, the declared memory, GPU devices; and, for the first, the
    kill escalation's clock and whether its handle is a managed container. *)
Record Holder : Type := MkHolder {
  h_cpus : Z;
  h_mem_mb : option Z;
  h_gpu_devices : list string;
  h_term_deadline : option Z;
  h_term_sigkilled : bool;
  h_container : bool;
}.

(** A [_TerminalSurvivor]: the group, the label, the deadline. *)
Record TerminalSurvivor : Type := MkSurvivor {
  ts_pgid : Z;
  ts_cpus : Z;
  ts_mem_mb : option Z;
  ts_state : JobState;
  ts_deadline : Z;
  ts_gpu_devices : list string;
}.

(** A [_SchedulerJob]: its handle (the scheduler's id, the remote workspace,
    the size of a native array), its target, and what the polls noted. *)
Record SchedulerJob : Type := MkSchedulerJob {
  sj_scheduler_target : string;
  sj_job_id : string;
  sj_remote_workspace : string;
  sj_array_size : option Z;
  sj_term_qdeled : bool;
  sj_allocation_finished : bool;
  sj_last_status_write : Z;
  sj_finished_without_marker_since : option Z;
  sj_fetch_failure_misses : Z;
}.

Definition new_scheduler_job (target job_id workspace : string) : SchedulerJob :=
  MkSchedulerJob target job_id workspace None false false 0 None 0.

Record DaemonConfig : Type := MkConfig {
  max_jobs : option Z;
  max_cpus : Z;
  max_mem_mb : option Z;
  default_job_mem_mb : option Z;
  max_scheduler_jobs : option Z;
  d_gpu_devices : list string;
  cgroup_enabled : bool;
}.

Record Daemon : Type := MkDaemon {
  running : gmap string Holder;
  orphans : gmap string Holder;
  terminal_survivors : gmap string TerminalSurvivor;
  scheduler_running : gmap string SchedulerJob;
  admission_spec_facts : option (Z * bool * bool);
  refresh_draining_for : option string;
  scheduler_submit_last_attempt : gmap string Z;
  scheduler_dispatch_last_target : option string;
  admission_retry_at : gmap string Z;
  scheduler_refresh_wakeup : bool;
  scheduler_reattach_retry_last : gmap string Z;
}.

Definition set_running (v : gmap string Holder) (d : Daemon) : Daemon :=
  MkDaemon v d.(orphans) d.(terminal_survivors) d.(scheduler_running) d.(admission_spec_facts)
    d.(refresh_draining_for) d.(scheduler_submit_last_attempt) d.(scheduler_dispatch_last_target)
    d.(admission_retry_at) d.(scheduler_refresh_wakeup)
    d.(scheduler_reattach_retry_last).
Definition set_terminal_survivors (v : gmap string TerminalSurvivor) (d : Daemon) : Daemon :=
  MkDaemon d.(running) d.(orphans) v d.(scheduler_running) d.(admission_spec_facts)
    d.(refresh_draining_for) d.(scheduler_submit_last_attempt) d.(scheduler_dispatch_last_target)
    d.(admission_retry_at) d.(scheduler_refresh_wakeup)
    d.(scheduler_reattach_retry_last).
Definition set_scheduler_running (v : gmap string SchedulerJob) (d : Daemon) : Daemon :=
  MkDaemon d.(running) d.(orphans) d.(terminal_survivors) v d.(admission_spec_facts)
    d.(refresh_draining_for) d.(scheduler_submit_last_attempt) d.(scheduler_dispatch_last_target)
    d.(admission_retry_at) d.(scheduler_refresh_wakeup)
    d.(scheduler_reattach_retry_last).
Definition set_admission_spec_facts (v : option (Z * bool * bool)) (d : Daemon) : Daemon :=
  MkDaemon d.(running) d.(orphans) d.(terminal_survivors) d.(scheduler_running) v
    d.(refresh_draining_for) d.(scheduler_submit_last_attempt) d.(scheduler_dispatch_last_target)
    d.(admission_retry_at) d.(scheduler_refresh_wakeup)
    d.(scheduler_reattach_retry_last).
Definition set_refresh_draining_for (v : option string) (d : Daemon) : Daemon :=
  MkDaemon d.(running) d.(orphans) d.(terminal_survivors) d.(scheduler_running)
    d.(admission_spec_facts) v d.(scheduler_submit_last_attempt)
    d.(scheduler_dispatch_last_target) d.(admission_retry_at) d.(scheduler_refresh_wakeup)
    d.(scheduler_reattach_retry_last).
Definition set_scheduler_attempt (last : gmap string Z) (target : option string) (d : Daemon)
    : Daemon :=
  MkDaemon d.(running) d.(orphans) d.(terminal_survivors) d.(scheduler_running)
    d.(admission_spec_facts) d.(refresh_draining_for) last target d.(admission_retry_at)
    d.(scheduler_refresh_wakeup)
    d.(scheduler_reattach_retry_last).
Definition set_admission_retry_at (v : gmap string Z) (d : Daemon) : Daemon :=
  MkDaemon d.(running) d.(orphans) d.(terminal_survivors) d.(scheduler_running)
    d.(admission_spec_facts) d.(refresh_draining_for) d.(scheduler_submit_last_attempt)
    d.(scheduler_dispatch_last_target) v d.(scheduler_refresh_wakeup)
    d.(scheduler_reattach_retry_last).
Definition set_scheduler_refresh_wakeup (v : bool) (d : Daemon) : Daemon :=
  MkDaemon d.(running) d.(orphans) d.(terminal_survivors) d.(scheduler_running)
    d.(admission_spec_facts) d.(refresh_draining_for) d.(scheduler_submit_last_attempt)
    d.(scheduler_dispatch_last_target) d.(admission_retry_at) v
    d.(scheduler_reattach_retry_last).
Definition set_scheduler_reattach_retry_last (v : gmap string Z) (d : Daemon) : Daemon :=
  MkDaemon d.(running) d.(orphans) d.(terminal_survivors) d.(scheduler_running)
    d.(admission_spec_facts) d.(refresh_draining_for) d.(scheduler_submit_last_attempt)
    d.(scheduler_dispatch_last_target) d.(admission_retry_at) d.(scheduler_refresh_wakeup) v.

(** The queue directory: file stem to spec; [None] is a file [JobSpec.read]
    rejects. *)
Abbreviation queue_dir := (gmap string (option JobSpec)).

(** What a pass did, in order: a call of [_start_job] with the spec of the
    scan, the spec it was given, the devices, and the time and pool of a
    scheduler attempt; and the calls that returned True. *)
Record attempt : Type := MkAttempt {
  at_spec : JobSpec;
  at_fresh : JobSpec;
  at_gpus : list string;
  at_time : option Z;
  at_pool : option string;
}.

Inductive event : Type :=
| Attempted (a : attempt)
| Started (fresh : JobSpec).

(** The world; [dw_seen] keeps every state of the queue an access met. *)
Record dworld : Type := MkDWorld {
  dw_daemon : Daemon;
  dw_queue : queue_dir;
  dw_tick : nat;
  dw_trace : list event;
  dw_seen : list queue_dir;
}.

(** ** Computations *)

Inductive daemon_error : Type :=
| DOSError | DValueError | DConfigError.

#[global] Instance daemon_error_eq_dec : EqDecision daemon_error.
Proof. solve_decision. Defined.

Definition DM : Type → Type := eff dworld daemon_error.

Definition is_oserror (e : daemon_error) : bool := bool_decide (e = DOSError).
Definition is_os_or_value_error (e : daemon_error) : bool :=
  bool_decide (e = DOSError) || bool_decide (e = DValueError).

(** The queue is shared: before each access of the daemon the other
    processes ([vq submit], [vq kill], ...) may have changed it; a write may
    fail. *)
Record QueueEnv : Type := MkQueueEnv {
  q_interfere : nat → queue_dir → queue_dir;
  q_write_fails : nat → bool;
}.

Definition get_daemon : DM Daemon := λ w, (Ok w.(dw_daemon), w).
Definition update_daemon (f : Daemon → Daemon) : DM unit := λ w,
  (Ok tt, MkDWorld (f w.(dw_daemon)) w.(dw_queue) w.(dw_tick) w.(dw_trace) w.(dw_seen)).

(** An answer of the outside world. *)
Definition ask {A} (f : nat → A) : DM A := λ w,
  (Ok (f w.(dw_tick)),
   MkDWorld w.(dw_daemon) w.(dw_queue) (S w.(dw_tick)) w.(dw_trace) w.(dw_seen)).

Definition record_event (e : event) : DM unit := λ w,
  (Ok tt, MkDWorld w.(dw_daemon) w.(dw_queue) w.(dw_tick) (w.(dw_trace) ++ [e]) w.(dw_seen)).

(** [JobSpec.read] *)
Definition read_spec (q : queue_dir) (name : string) : res daemon_error JobSpec :=
  match q !! name with
  | None => Err DOSError
  | Some None => Err DValueError
  | Some (Some s) => Ok s
  end.

(** Loops over a list. *)
Fixpoint foldM {A B} (f : B → A → DM B) (b : B) (l : list A) : DM B :=
  match l with
  | [] => ret b
  | x :: l => do? b' := f b x in foldM f b' l
  end.

Section queue.
Context (Q : QueueEnv).

(** An access: what the others did, then [f] on the queue as it is. *)
Definition access {A} (f : queue_dir → res daemon_error A * queue_dir) : DM A := λ w,
  let q := Q.(q_interfere) w.(dw_tick) w.(dw_queue) in
  let '(out, q') := f q in
  (out, MkDWorld w.(dw_daemon) q' (S w.(dw_tick)) w.(dw_trace) (w.(dw_seen) ++ [q])).

(** [with paths.spec_lock(path):] read the row, then perhaps write it.  Every
    writer of a row takes its lock, so nothing comes between. *)
Definition with_row {A} (name : string)
    (body : res daemon_error JobSpec → A * option JobSpec) : DM A := λ w,
  access (λ q,
    match body (read_spec q name) with
    | (a, None) => (Ok a, q)
    | (a, Some s) =>
      if Q.(q_write_fails) w.(dw_tick) then (Err DOSError, q) else (Ok a, <[name := Some s]> q)
    end) w.

(** [_read_active_spec] *)
Definition read_active_spec (name : string) : DM JobSpec := access (λ q, (read_spec q name, q)).

(** [sorted(self.queue_dir.glob("*.json"))], the stems in file name order *)
Definition spec_names (q : queue_dir) : list string :=
  sort_by (on_key String.leb (λ n, n +:+ ".json")) (map fst (map_to_list q)).

Definition list_queue : DM (list string) := access (λ q, (Ok (spec_names q), q)).

(** [spec.write(path)] of a fresh file *)
Definition write_new (name : string) (s : JobSpec) : DM unit :=
  with_row name (λ _, (tt, Some s)).
End queue.
