(* ===== verification/Dispatch.v ===== *)
(** * The dispatch pass: [_dispatch_pending] of [src/vq/daemon.py]

    One pass reads the holds, counts what runs, scans the queue, fails the
    dependents of failed jobs, handles [--refresh] builds, and then offers
    every pending spec, in fair order, to the capacity gates and the
    launcher.  The launcher is an interface, [Launcher], implemented in
    [Launch.v]. *)

From S2P Require Import Prelude Spec Admission DaemonCore.

(** ** What the pass asks of the outside *)

Record DispatchEnv : Type := MkDispatchEnv {
  e_queue : QueueEnv;
  (** [utcnow_iso()] and [datetime.now(UTC)] *)
  e_utcnow : nat → Z;
  e_monotonic : nat → Z;
  e_submit_clock : nat → Z;
  (** [_poll_admin_update_marker]: no live marker, one without a scope, or
      the targets it holds *)
  e_admin_marker : nat → option (option (list string));
  e_config_unusable : nat → bool;
  e_drain : nat → option DrainState;
  e_host_pressure : nat → bool;
  (** [load_config().hosts]; [None] is a ConfigError *)
  e_hosts : nat → option Hosts;
  (** [_create_build_job]: the new id, and the workspace ([None]: mkdir
      failed), the submission time, the interpreter, the wall time *)
  e_new_jobid : nat → string;
  e_workspace : nat → string → option string;
  e_submitted_at : nat → string;
  e_executable : string;
  e_build_wall_time : Z;
}.

(** The operations of the rest of the daemon a pass calls. *)
Class Launcher : Type := {
  start_job : JobSpec → list string → DM bool;
  reconcile_running : DM unit;
  reconcile_scheduler : DM unit;
}.

Definition LOCAL_DISPATCH_SCOPE : string := "@local".
Definition BUILD_JOB_PRIORITY : Z := 1000000.
Definition SCHEDULER_DISPATCH_RECONCILE_QUANTUM : Z := 5 * TICKS_PER_SECOND.
Definition SCHEDULER_UNTRACKABLE_RESERVATION : Z := 900 * TICKS_PER_SECOND.

(** ** Pure gates *)

Section gates.
Context (C : DaemonConfig).

Definition eff_mem_mb (mem_mb : option Z) : option Z :=
  match mem_mb with Some m => Some m | None => C.(default_job_mem_mb) end.

(** [self._eff_mem_mb(m) or 0] *)
Definition mem_charge (mem_mb : option Z) : Z := default 0 (eff_mem_mb mem_mb).

(** What a local job holds of the host. *)
Record Charge : Type := MkCharge {
  ch_cpus : Z;
  ch_mem_mb : option Z;
  ch_gpus : list string;
}.

Definition holder_charge (h : Holder) : Charge :=
  MkCharge h.(h_cpus) h.(h_mem_mb) h.(h_gpu_devices).
Definition survivor_charge (t : TerminalSurvivor) : Charge :=
  MkCharge t.(ts_cpus) t.(ts_mem_mb) t.(ts_gpu_devices).

(** The local children, the reattached orphans and the killed jobs whose
    processes survive. *)
Definition holders (d : Daemon) : list Charge :=
  (holder_charge <$> (map_to_list d.(running)).*2)
  ++ (holder_charge <$> (map_to_list d.(orphans)).*2)
  ++ (survivor_charge <$> (map_to_list d.(terminal_survivors)).*2).

Definition local_active (d : Daemon) : Z :=
  Z.of_nat (size d.(running)) + Z.of_nat (size d.(orphans)) + Z.of_nat (size d.(terminal_survivors)).
Definition used_cpus (d : Daemon) : Z := sumZ ch_cpus (holders d).
Definition used_mem (d : Daemon) : Z := sumZ (λ h, mem_charge h.(ch_mem_mb)) (holders d).
Definition busy_gpu_devices (d : Daemon) : list string := holders d ≫= ch_gpus.

Definition scheduler_active (d : Daemon) : Z :=
  Z.of_nat (length (List.filter (λ jr, negb jr.2.(sj_allocation_finished))
                      (map_to_list d.(scheduler_running)))).

(** *** The scan *)

Definition TRANSACTION_STATES : list string :=
  ["submitting"; "submit_outcome_unknown"; "submit_outcome_unknown_after_terminal";
   "submit_evidence_conflict"; "submit_evidence_conflict_after_terminal";
   "submit_reconciliation_quarantined"; "submit_reconciliation_quarantined_after_terminal";
   "submit_cancel_pending_after_terminal"; "scheduler_reconciliation_quarantined";
   "reattach_failed"].

Definition scheduler_state_in (s : JobSpec) (l : list string) : bool :=
  match s.(scheduler_state) with None => false | Some t => bool_decide (t ∈ l) end.

Definition scheduler_transaction_may_exist (s : JobSpec) : bool :=
  (negb (bool_decide (s.(scheduler_target) = None))
   && bool_decide (s.(state) ∈ [RUNNING; SUSPENDED; SUBMITTING; SUBMIT_OUTCOME_UNKNOWN]))
  || scheduler_state_in s TRANSACTION_STATES.

Definition spec_is_off_admission_path (s : JobSpec) : bool :=
  is_terminal s && negb (scheduler_transaction_may_exist s).

(** A row the scan leaves out: settled, under its own name. *)
Definition settled_row (name : string) (s : JobSpec) : bool :=
  String.eqb name s.(id) && spec_is_off_admission_path s.

(** *** Reservations without a live handle *)

Definition AFTER_TERMINAL_RESERVES : list string :=
  ["submitting"; "submit_outcome_unknown"; "submit_outcome_unknown_after_terminal";
   "submit_evidence_conflict_after_terminal"; "submit_reconciliation_quarantined_after_terminal";
   "submit_cancel_pending_after_terminal"].

(** [_untracked_spec_still_reserves] *)
Definition untracked_spec_still_reserves (s : JobSpec) (now : Z) : bool :=
  match s.(scheduler_job_id) with
  | Some _ => true
  | None =>
    match timestamp_or s.(last_heartbeat_at) s.(started_at) with
    | Some (Aware t) | Some (Naive t) => now - t <? SCHEDULER_UNTRACKABLE_RESERVATION
    | None | Some Blank | Some Unparseable => true
    end
  end.

Definition reattach_reserves (s : JobSpec) : bool :=
  scheduler_state_in s ["reattach_failed"] && bool_decide (s.(state) ∈ [RUNNING; SUSPENDED]).
Definition quarantine_reserves (s : JobSpec) : bool :=
  scheduler_state_in s ["scheduler_reconciliation_quarantined"]
  && bool_decide (s.(state) ∈ [RUNNING; SUSPENDED]).
Definition ambiguous_reserves (s : JobSpec) : bool :=
  bool_decide (s.(state) ∈ [SUBMITTING; SUBMIT_OUTCOME_UNKNOWN]).
Definition terminal_reserves (s : JobSpec) : bool :=
  is_terminal s && scheduler_state_in s AFTER_TERMINAL_RESERVES.

Definition untracked (d : Daemon) (s : JobSpec) : bool :=
  bool_decide (d.(scheduler_running) !! s.(id) = None).

(** *** The dependency cascade *)

Fixpoint failed_predecessor (ids : list string) (by_id : gmap string JobSpec)
    : option (string * JobState) :=
  match ids with
  | [] => None
  | p :: ids =>
    match by_id !! p with
    | None => failed_predecessor ids by_id
    | Some pred =>
      if is_terminal pred && negb (bool_decide (pred.(state) = COMPLETED))
      then Some (p, pred.(state)) else failed_predecessor ids by_id
    end
  end.

Definition cascade_reason (p : string) (st : JobState) : string :=
  "predecessor " +:+ p +:+ " failed (state=" +:+ JobState_value st +:+ ")".

Definition mark_failed (now : Z) (reason : string) (s : JobSpec) : JobSpec :=
  set_failure_reason (Some reason) (set_finished_at (Some (Aware now)) (set_state FAILED s)).

(** *** Holds *)

Definition opt_in (o : option string) (l : list string) : bool :=
  match o with None => false | Some x => bool_decide (x ∈ l) end.

Definition blocked_by_running_build (envs ids : list string) (s : JobSpec) : bool :=
  if bool_decide (envs = []) then false
  else if bool_decide (s.(scheduler_target) = None) then true
  else if existsb (λ d, bool_decide (d ∈ ids)) s.(depends_on) then true
  else if negb (bool_decide (s.(build_env) = None)) then true
  else if opt_in s.(refresh_before) envs then true
  else opt_in s.(program) envs.

Definition held_by_admin_update (held : list string) (s : JobSpec) : bool :=
  if bool_decide (held = []) then false
  else match s.(scheduler_target) with
       | Some t => bool_decide (t ∈ held)
       | None => bool_decide (LOCAL_DISPATCH_SCOPE ∈ held)
       end.

Definition is_running_build (s : JobSpec) : bool :=
  negb (bool_decide (s.(build_env) = None)) && bool_decide (s.(state) = RUNNING).

(** *** Capacity *)

(** The request of a build job this daemon's configured caps can never fit. *)
Definition impossible_build (s : JobSpec) : option string :=
  if bool_decide (s.(build_env) = None) then None
  else if C.(max_cpus) <? s.(cpus) then
    Some ("requests " +:+ pretty s.(cpus) +:+ " cpus but this daemon caps at --max-cpus "
          +:+ pretty C.(max_cpus))
  else match C.(max_mem_mb), eff_mem_mb s.(mem_mb) with
       | Some limit, Some m =>
         if limit <? m then
           Some ("requests " +:+ pretty m +:+ " MB but this daemon caps at --max-mem-mb "
                 +:+ pretty limit)
         else None
       | _, _ => None
       end.

Record pass : Type := MkPass {
  p_effective_max_jobs : option Z;
  p_effective_max_cpus : Z;
  p_drain : option DrainState;
  p_admin_held : list string;
  p_build_envs : list string;
  p_build_ids : list string;
  p_specs_by_id : gmap string JobSpec;
  p_now : Z;
  p_deadline : Z;
}.

Record tally : Type := MkTally {
  t_local_active : Z;
  t_used_cpus : Z;
  t_used_mem : Z;
  t_scheduler_active : Z;
  t_admission : SchedulerTargetAdmission;
  t_busy_gpus : list string;
  t_untracked : list string;
}.

Inductive gate : Type :=
| Skip
| Impossible (why : string)
| Admit (gpus : list string).

(** The devices of a GPU request, the first free ones in configured order;
    [free[:n]] for a negative [n] drops from the end. *)
Definition take_py {A} (n : Z) (l : list A) : list A :=
  if 0 <=? n then take (Z.to_nat n) l else take (length l - Z.to_nat (- n)) l.

Definition assign_gpus (busy : list string) (request : option Z) : option (list string) :=
  match request with
  | None => Some []
  | Some n =>
    let free := List.filter (λ d, negb (bool_decide (d ∈ busy))) C.(d_gpu_devices) in
    if Z.of_nat (length free) <? n then None else Some (take_py n free)
  end.

Definition mem_fits (t : tally) (s : JobSpec) : bool :=
  match C.(max_mem_mb), eff_mem_mb s.(mem_mb) with
  | Some limit, Some m => t.(t_used_mem) + m <=? limit
  | _, _ => true
  end.

Definition jobs_fit (p : pass) (t : tally) : bool :=
  match p.(p_effective_max_jobs) with
  | None => true
  | Some m => t.(t_local_active) <? m
  end.

Definition local_gate (p : pass) (t : tally) (s : JobSpec) : gate :=
  match impossible_build s with
  | Some why => Impossible why
  | None =>
    if negb (jobs_fit p t) then Skip
    else if p.(p_effective_max_cpus) <? t.(t_used_cpus) + s.(cpus) then Skip
    else if negb (mem_fits t s) then Skip
    else match assign_gpus t.(t_busy_gpus) s.(gpus) with
         | None => Skip
         | Some gs => Admit gs
         end
  end.

Definition scheduler_gate (p : pass) (t : tally) (s : JobSpec) : gate :=
  if match p.(p_drain) with
     | Some d => drains_scheduler_target d s.(scheduler_target)
     | None => false
     end then Skip
  else match C.(max_scheduler_jobs) with
       | Some m => if m <=? t.(t_scheduler_active) then Skip else Admit []
       | None => Admit []
       end.

(** The gates of one spec of the order, up to the re-read. *)
Definition admission_gate (p : pass) (t : tally) (s : JobSpec) : gate :=
  if blocked_by_running_build p.(p_build_envs) p.(p_build_ids) s then Skip
  else if held_by_admin_update p.(p_admin_held) s then Skip
  else if negb (bool_decide (s.(refresh_before) = None)) then Skip
  else if bool_decide (s.(scheduler_target) = None) then local_gate p t s
  else scheduler_gate p t s.

(** [_find_build_job] *)
Definition find_build_job (env : string) (all_specs : list JobSpec) : option string :=
  id <$> List.find (λ s, bool_decide (s.(build_env) = Some env) && negb (is_terminal s)) all_specs.

(** Eligible this tick: the state, the backoff and the dependency gates. *)
Definition eligible (now : Z) (by_id : gmap string JobSpec) (s : JobSpec) : bool :=
  bool_decide (s.(state) = PENDING) && not_before_ready s.(not_before) now
  && bool_decide (iter_unmet_dependencies s by_id = []).

Definition pending_of (now : Z) (by_id : gmap string JobSpec) (all_specs : list JobSpec)
    : list JobSpec :=
  sort_by dispatch_leb (List.filter (eligible now by_id) all_specs).
End gates.

(** ** The pass *)

Section dispatch.
Context (C : DaemonConfig) (E : DispatchEnv) {L : Launcher}.
Let Q : QueueEnv := E.(e_queue).

(** [_iter_specs]: the live specs, and the names of the settled rows.  A row
    whose cached identity proves it settled is the same bytes as when it was
    read, so reading it again decides the same. *)
Definition scan_row (acc : list JobSpec * list string) (name : string)
    : DM (list JobSpec * list string) :=
  catch (do? s := read_active_spec Q name in
         ret (if settled_row name s then (acc.1, acc.2 ++ [name]) else (acc.1 ++ [s], acc.2)))
    (λ _, true) (λ _, ret acc).

Definition iter_specs : DM (list JobSpec * list string) :=
  do? names := list_queue Q in foldM scan_row ([], []) names.

(** The untracked scheduler reservations of the scan. *)
Definition reattach_held (d : Daemon) (acc : list JobSpec) (s : JobSpec) : DM (list JobSpec) :=
  if untracked d s && reattach_reserves s then
    do? now := ask E.(e_utcnow) in
    ret (if untracked_spec_still_reserves s now then acc ++ [s] else acc)
  else ret acc.

Definition untracked_reservations (d : Daemon) (all_specs : list JobSpec) : DM (list JobSpec) :=
  do? held := foldM (reattach_held d) [] all_specs in
  let pick p := List.filter (λ s, untracked d s && p s) all_specs in
  ret (held ++ pick quarantine_reserves ++ pick ambiguous_reserves ++ pick terminal_reserves).

Definition scheduler_reservations (d : Daemon) (held : list JobSpec) : list (option string * Z) :=
  map (λ jr, (Some jr.2.(sj_scheduler_target), Z.max 1 (default 1 jr.2.(sj_array_size))))
    (List.filter (λ jr, negb jr.2.(sj_allocation_finished)) (map_to_list d.(scheduler_running)))
  ++ map (λ s, (s.(scheduler_target), 1)) held.

Definition index_specs (all_specs : list JobSpec) : gmap string JobSpec :=
  fold_left (λ m s, <[s.(id) := s]> m) all_specs ∅.

(** [_resolve_settled_dependencies] *)
Definition wanted_dependencies (all_specs : list JobSpec) (by_id : gmap string JobSpec)
    : list string :=
  sorted_set (List.filter (λ d, bool_decide (by_id !! d = None))
                (all_specs ≫= λ s, s.(depends_on) ++ s.(depends_on_any))).

Definition resolve_one (settled : list string) (by_id : gmap string JobSpec) (d : string)
    : DM (gmap string JobSpec) :=
  if bool_decide (d ∈ settled) then
    catch (do? s := read_active_spec Q d in
           ret (if String.eqb s.(id) d then <[d := s]> by_id else by_id))
      (λ _, true) (λ _, ret by_id)
  else ret by_id.

Definition resolve_settled_dependencies (settled : list string) (all_specs : list JobSpec)
    (by_id : gmap string JobSpec) : DM (gmap string JobSpec) :=
  foldM (resolve_one settled) by_id (wanted_dependencies all_specs by_id).

(** [_maybe_cascade_dependency_failure]; [spec.state = FAILED] changes the
    scanned object itself. *)
Definition maybe_cascade_dependency_failure (spec : JobSpec) (by_id : gmap string JobSpec)
    : DM (JobSpec * gmap string JobSpec) :=
  if negb (bool_decide (spec.(state) = PENDING)) then ret (spec, by_id)
  else match failed_predecessor spec.(depends_on) by_id with
       | None => ret (spec, by_id)
       | Some (p, st) =>
         do? now := ask E.(e_utcnow) in
         do? out := catch
           (with_row Q spec.(id) (λ row,
              match row with
              | Err _ => (None, None)
              | Ok fresh =>
                if negb (bool_decide (fresh.(state) = PENDING)) then (None, None)
                else let failed := mark_failed now (cascade_reason p st) fresh in
                     (Some failed, Some failed)
              end)) is_oserror (λ _, ret None) in
         match out with
         | None => ret (spec, by_id)
         | Some fresh => ret (set_state FAILED spec, <[spec.(id) := fresh]> by_id)
         end
       end.

Definition cascade_one (acc : list JobSpec * gmap string JobSpec) (s : JobSpec)
    : DM (list JobSpec * gmap string JobSpec) :=
  do? out := maybe_cascade_dependency_failure s acc.2 in
  ret (acc.1 ++ [out.1], out.2).

(** [_fail_impossible_spec] *)
Definition fail_impossible_spec (spec : JobSpec) (why : string) : DM unit :=
  do? now := ask E.(e_utcnow) in
  catch (with_row Q spec.(id) (λ row,
    match row with
    | Err _ => (tt, None)
    | Ok fresh =>
      if negb (bool_decide (fresh.(state) = PENDING)) then (tt, None)
      else (tt, Some (mark_failed now
              ("impossible resource request: " +:+ why
               +:+ ". Resubmit with a request within the daemon's caps.") fresh))
    end)) is_oserror (λ _, ret tt).

(** [_fail_refresh_job]; the reason ends in the text of the exception, which
    is left out. *)
Definition fail_refresh_job (jobid reason : string) : DM bool :=
  do? now := ask E.(e_utcnow) in
  catch (with_row Q jobid (λ row,
    match row with
    | Err _ => (true, None)
    | Ok fresh =>
      if negb (bool_decide (fresh.(state) = PENDING)) then (true, None)
      else (true, Some (set_refresh_before None (mark_failed now reason fresh)))
    end)) is_oserror (λ _, ret true).

Definition build_spec (build_id env workspace submitted : string) (like_spec : JobSpec) : JobSpec :=
  {| id := build_id; command := [E.(e_executable); "-m"; "vq"; "build-env"; env];
     cwd := workspace; cpus := C.(max_cpus); gpus := None; gpu_devices := None;
     mem_mb := C.(max_mem_mb); wall_time_seconds := Some E.(e_build_wall_time);
     priority := BUILD_JOB_PRIORITY; refresh_before := None; build_env := Some env;
     job_name := Some ("build-" +:+ env); retry_max := 0; retry_count := 0; not_before := None;
     depends_on := []; depends_on_any := []; failure_reason := None;
     failure_tail := None; state := PENDING;
     submitted_at := submitted; idempotency_key_hash := None; submission_intent_digest := None;
     submission_owner_hash := None; submitter := like_spec.(submitter); pid := None; pgid := None;
     pid_start_time := None; scheduler_target := None; scheduler_job_id := None;
     scheduler_state := None; scheduler_remote_workspace := None; scheduler_submitted_at := None;
     scheduler_started_at := None; started_at := None; finished_at := None;
     last_heartbeat_at := None; pause_intent_at := None; exit_code := None; workdir := None; program := None;
     program_runtime_pin := None; qvf_artifact_name := None; paused_at := None;
     paused_monotonic_at := None; paused_seconds_total := 0; paused_by := None;
     pause_intent_monotonic_at := None; pause_intent_pgid := None; pause_intent_by := None |}.

(** [_create_build_job] *)
Definition create_build_job (env : string) (like_spec : JobSpec) : DM string :=
  do? build_id := ask E.(e_new_jobid) in
  do? workspace := ask (λ n, E.(e_workspace) n build_id) in
  match workspace with
  | None => throw DOSError
  | Some ws =>
    do? submitted := ask E.(e_submitted_at) in
    if negb (is_ok (check_job_name (Some ("build-" +:+ env)))) then throw DValueError else
    do? _ := write_new Q build_id (build_spec build_id env ws submitted like_spec) in
    ret build_id
  end.

(** [_maybe_refresh_before_run], from the build job to attach to *)
Definition attach_to_build (next_spec : JobSpec) (build_id : string) : DM bool :=
  with_row Q next_spec.(id) (λ row,
    match row with
    | Err _ => (false, None)
    | Ok fresh =>
      if negb (bool_decide (fresh.(state) = PENDING)) then (false, None)
      else
        let fresh := if bool_decide (build_id ∈ fresh.(depends_on)) then fresh
                     else set_depends_on (fresh.(depends_on) ++ [build_id]) fresh in
        (true, Some (set_refresh_before None fresh))
    end).

Definition maybe_refresh_before_run (next_spec : JobSpec) (all_specs : list JobSpec) : DM bool :=
  match next_spec.(refresh_before) with
  | None => ret false
  | Some env =>
    match find_build_job env all_specs with
    | Some build_id => attach_to_build next_spec build_id
    | None =>
      do? d := get_daemon in
      if 0 <? local_active d then
        do? _ := update_daemon (set_refresh_draining_for (Some next_spec.(id))) in ret true
      else
        do? _ := update_daemon (set_refresh_draining_for None) in
        do? created := catch (do? b := create_build_job env next_spec in ret (Some b))
                         (λ _, true) (λ _, ret None) in
        match created with
        | None => fail_refresh_job next_spec.(id) ("could not create build job for env " +:+ env)
        | Some build_id => attach_to_build next_spec build_id
        end
    end
  end.

(** *** One spec of the order *)

Inductive signal : Type := Next | Stop.

Definition charge_local (t : tally) (s : JobSpec) (gs : list string) : tally :=
  {| t_local_active := t.(t_local_active) + 1; t_used_cpus := t.(t_used_cpus) + s.(cpus);
     t_used_mem := t.(t_used_mem) + mem_charge C s.(mem_mb);
     t_scheduler_active := t.(t_scheduler_active); t_admission := t.(t_admission);
     t_busy_gpus := t.(t_busy_gpus) ++ gs; t_untracked := t.(t_untracked) |}.

Definition charge_scheduler (t : tally) (target : option string) (untracked_ids : list string)
    : tally :=
  {| t_local_active := t.(t_local_active); t_used_cpus := t.(t_used_cpus);
     t_used_mem := t.(t_used_mem); t_scheduler_active := t.(t_scheduler_active) + 1;
     t_admission := reserve_target t.(t_admission) target; t_busy_gpus := t.(t_busy_gpus);
     t_untracked := untracked_ids |}.

(** An attempt that returned False may still have submitted: the row says so. *)
Definition reserve_ambiguous (t : tally) (fresh : JobSpec) : DM tally :=
  do? reserved := catch (do? s := read_active_spec Q fresh.(id) in ret (Some s))
                    is_os_or_value_error (λ _, ret None) in
  match reserved with
  | Some r =>
    if ambiguous_reserves r && negb (bool_decide (r.(id) ∈ t.(t_untracked)))
    then ret (charge_scheduler t r.(scheduler_target) (t.(t_untracked) ++ [r.(id)]))
    else ret t
  | None => ret t
  end.

Definition is_remote (s : JobSpec) : bool := negb (bool_decide (s.(scheduler_target) = None)).

(** The end of an iteration: a started build ends the pass, and so does a
    scheduler attempt once the pass's quantum is spent. *)
Definition end_visit (p : pass) (t : tally) (fresh : JobSpec) (started : bool) : DM (tally * signal) :=
  if started && negb (bool_decide (fresh.(build_env) = None)) then ret (t, Stop)
  else if is_remote fresh then
    do? now := ask E.(e_monotonic) in
    if p.(p_deadline) <=? now then
      do? _ := reconcile_scheduler in
      do? _ := update_daemon (set_scheduler_refresh_wakeup true) in
      ret (t, Stop)
    else ret (t, Next)
  else ret (t, Next).

(** From the call of [_start_job] to the end of the iteration. *)
Definition launch (p : pass) (t : tally) (fresh : JobSpec) (gs : list string)
    : DM (tally * signal) :=
  do? started := start_job fresh gs in
  do? _ := (if started then record_event (Started fresh) else ret tt) in
  do? d := get_daemon in
  let recovered := is_remote fresh && negb started
                   && negb (bool_decide (d.(scheduler_running) !! fresh.(id) = None)) in
  do? t := (if is_remote fresh && negb started && negb recovered
            then reserve_ambiguous t fresh else ret t) in
  do? d := get_daemon in
  do? _ := (if is_remote fresh && negb (bool_decide (d.(running) = ∅))
            then reconcile_running else ret tt) in
  let t := if started || recovered then
             if is_remote fresh then charge_scheduler t fresh.(scheduler_target) t.(t_untracked)
             else charge_local t fresh gs
           else t in
  end_visit p t fresh started.

(** The re-read, the pacing of scheduler attempts, the launch. *)
Definition offer (p : pass) (t : tally) (spec : JobSpec) (gs : list string) : DM (tally * signal) :=
  do? reread := catch (do? s := read_active_spec Q spec.(id) in ret (Some s))
                  is_os_or_value_error (λ _, ret None) in
  match reread with
  | None => ret (t, Next)
  | Some fresh =>
    if negb (bool_decide (fresh.(state) = PENDING)) then ret (t, Next)
    else match fresh.(scheduler_target) with
         | None =>
           do? _ := record_event (Attempted (MkAttempt spec fresh gs None None)) in launch p t fresh gs
         | Some target =>
           do? attempted_at := ask E.(e_submit_clock) in
           do? d := get_daemon in
           let last := d.(scheduler_submit_last_attempt) in
           if negb (can_attempt t.(t_admission) last target attempted_at) then ret (t, Next)
           else
             let c := canonical t.(t_admission) target in
             do? _ := update_daemon
               (set_scheduler_attempt (attempted t.(t_admission) last target attempted_at) (Some c)) in
             do? _ := record_event (Attempted (MkAttempt spec fresh gs (Some attempted_at) (Some c))) in
             launch p t fresh gs
         end
  end.

Definition visit (p : pass) (t : tally) (spec : JobSpec) : DM (tally * signal) :=
  match admission_gate C p t spec with
  | Skip => ret (t, Next)
  | Impossible why => do? _ := fail_impossible_spec spec why in ret (t, Next)
  | Admit gs => offer p t spec gs
  end.

Fixpoint visit_all (p : pass) (t : tally) (order : list JobSpec) : DM (tally * signal) :=
  match order with
  | [] => ret (t, Next)
  | spec :: order =>
    do? out := visit p t spec in
    match out with
    | (t, Next) => visit_all p t order
    | (t, Stop) => ret (t, Stop)
    end
  end.

(** The loop over [_fair_resource_dispatch_order]: the generator reads the
    last target after the local specs have been visited. *)
Definition dispatch_loop (p : pass) (t : tally) (pending : list JobSpec) : DM (tally * signal) :=
  do? out := visit_all p t (local_specs pending) in
  match out with
  | (t', Stop) => ret (t', Stop)
  | (t', Next) =>
    do? d := get_daemon in
    visit_all p t' (fair_scheduler_order t.(t_admission) d.(scheduler_dispatch_last_target) pending)
  end.

(** *** The pass *)

Definition spec_facts (all_specs : list JobSpec) : Z * bool * bool :=
  (Z.of_nat (length (List.filter (λ s, bool_decide (s.(state) = PENDING)
                                       && bool_decide (s.(scheduler_target) = None)) all_specs)),
   existsb (λ s, bool_decide (s.(state) = PENDING)
                 && match s.(refresh_before) with None | Some EmptyString => false | _ => true end)
     all_specs,
   existsb is_running_build all_specs).

Definition caps_of_drain (drain : option DrainState) : option Z * Z :=
  match drain with
  | Some d => (effective_max_jobs d C.(max_jobs), effective_max_cpus d C.(max_cpus))
  | None => (C.(max_jobs), C.(max_cpus))
  end.

Definition initial_tally (d : Daemon) (held : list JobSpec) (hosts : Hosts) : tally :=
  {| t_local_active := local_active d; t_used_cpus := used_cpus d; t_used_mem := used_mem C d;
     t_scheduler_active := scheduler_active d + Z.of_nat (length held);
     t_admission := new_admission hosts (scheduler_reservations d held);
     t_busy_gpus := busy_gpu_devices d; t_untracked := map id held |}.

(** Everything before the loop; [None] when this tick dispatches nothing. *)
Definition plan (admin_held : list string) (drain : option DrainState)
    : DM (option (pass * tally * list JobSpec)) :=
  do? now := ask E.(e_utcnow) in
  do? scanned := iter_specs in
  let '(all_specs, settled) := scanned in
  do? _ := update_daemon (set_admission_spec_facts (Some (spec_facts all_specs))) in
  do? d := get_daemon in
  do? held := untracked_reservations d all_specs in
  do? config := ask E.(e_hosts) in
  match config with
  | None => throw DConfigError
  | Some hosts =>
    let t := initial_tally d held hosts in
    do? by_id := resolve_settled_dependencies settled all_specs (index_specs all_specs) in
    do? cascaded := foldM cascade_one ([], by_id) all_specs in
    let '(all_specs, by_id) := cascaded in
    let pending := pending_of now by_id all_specs in
    do? hold := (match pending with
                 | [] => ret false
                 | next :: _ => maybe_refresh_before_run next all_specs
                 end) in
    if hold then ret None
    else
      do? started := ask E.(e_monotonic) in
      let builds := List.filter is_running_build all_specs in
      ret (Some ({| p_effective_max_jobs := (caps_of_drain drain).1;
                    p_effective_max_cpus := (caps_of_drain drain).2;
                    p_drain := drain; p_admin_held := admin_held;
                    p_build_envs := omap build_env builds; p_build_ids := map id builds;
                    p_specs_by_id := by_id; p_now := now;
                    p_deadline := started + SCHEDULER_DISPATCH_RECONCILE_QUANTUM |}, t, pending))
  end.

Definition dispatch_held (admin_held : list string) : DM unit :=
  do? unusable := ask E.(e_config_unusable) in
  if unusable then ret tt
  else
    do? drain := ask E.(e_drain) in
    if match drain with Some d => is_full_drain d | None => false end then ret tt
    else
      do? pressure := ask E.(e_host_pressure) in
      if pressure then ret tt
      else
        do? planned := plan admin_held drain in
        match planned with
        | None => ret tt
        | Some (p, t, pending) => do? _ := dispatch_loop p t pending in ret tt
        end.

(** [_dispatch_pending] *)
Definition dispatch_pending : DM unit :=
  do? _ := update_daemon (set_admission_spec_facts None) in
  do? marker := ask E.(e_admin_marker) in
  match marker with
  | Some None => ret tt
  | Some (Some scope) => dispatch_held scope
  | None => dispatch_held []
  end.
End dispatch.
