(* ===== verification/DaemonLogic.v ===== *)
(** * Reasoning about the daemon

    Weakest preconditions for the computations of [DaemonCore.v], the jobs'
    immutable requests, and the frame relation of the parts of a pass that
    leave the tracked jobs alone. *)

From S2P Require Import Prelude Spec Admission DaemonCore Dispatch.

(** ** Weakest preconditions *)

Definition wp {A} (m : DM A) (Post : res daemon_error A → dworld → Prop) (w : dworld) : Prop :=
  Post (m w).1 (m w).2.

Section wp.
Context {A B : Type}.
Implicit Types (Post : res daemon_error A → dworld → Prop) (w : dworld).

Lemma wp_ret (a : A) Post w : Post (Ok a) w → wp (ret a) Post w.
Proof. done. Qed.

Lemma wp_throw e Post w : Post (Err e) w → wp (throw e) Post w.
Proof. done. Qed.

Lemma wp_mono (m : DM A) Post Post' w :
  (∀ r w', Post r w' → Post' r w') → wp m Post w → wp m Post' w.
Proof. unfold wp. auto. Qed.

Lemma wp_bind (m : DM B) (k : B → DM A) Post w :
  wp m (λ r w', match r with Ok b => wp (k b) Post w' | Err e => Post (Err e) w' end) w →
  wp (bind m k) Post w.
Proof. unfold wp, bind. by destruct (m w) as [[b|e] w']. Qed.

Lemma wp_catch (m : DM A) (p : daemon_error → bool) (h : daemon_error → DM A) Post w :
  wp m (λ r w', match r with
                | Ok a => Post (Ok a) w'
                | Err e => if p e then wp (h e) Post w' else Post (Err e) w'
                end) w →
  wp (catch m p h) Post w.
Proof. unfold wp, catch. destruct (m w) as [[a|e] w']; simpl; [done|]. by destruct (p e). Qed.

Lemma wp_and (m : DM A) Post Post' w :
  wp m Post w → wp m Post' w → wp m (λ r w', Post r w' ∧ Post' r w') w.
Proof. done. Qed.
End wp.

Lemma wp_foldM {A B} (f : B → A → DM B) (I : B → dworld → Prop) (Fin : dworld → Prop) l b w :
  (∀ b x w, x ∈ l → I b w →
     wp (f b x) (λ r w', match r with Ok b' => I b' w' | Err _ => Fin w' end) w) →
  I b w → wp (foldM f b l) (λ r w', match r with Ok b' => I b' w' | Err _ => Fin w' end) w.
Proof.
  revert b w. induction l as [|x l IH]; intros b w Hf Hi; simpl; [by apply wp_ret|].
  apply wp_bind. eapply wp_mono, Hf; [|set_solver|done]. intros [b'|e] w' Hb; [|done].
  apply IH; [|done]. intros; apply Hf; [set_solver|done].
Qed.

Lemma wp_elim {A} (m : DM A) Post w r w' : wp m Post w → m w = (r, w') → Post r w'.
Proof. unfold wp. intros Hm Er. by rewrite Er in Hm. Qed.

Lemma wp_intro {A} (m : DM A) (Post : res daemon_error A → dworld → Prop) w :
  (∀ r w', m w = (r, w') → Post r w') → wp m Post w.
Proof. intros Hm. apply Hm. by destruct (m w). Qed.

Create HintDb vq_wp.
#[export] Hint Resolve wp_ret wp_throw : vq_wp.

(** ** Requests

    What a job was submitted with: no command of the program changes it. *)

Record request : Type := MkRequest {
  rq_cpus : Z;
  rq_gpus : option Z;
  rq_mem_mb : option Z;
  rq_target : option string;
}.

Definition request_of (s : JobSpec) : request :=
  MkRequest s.(cpus) s.(gpus) s.(mem_mb) s.(scheduler_target).

(** Every row of the queue is stored under its own id and asks for what the
    job of that id was submitted with. *)
Definition honest (R : string → request) (q : queue_dir) : Prop :=
  ∀ name s, q !! name = Some (Some s) → s.(id) = name ∧ request_of s = R name.

Lemma honest_insert R q name s :
  honest R q → s.(id) = name → request_of s = R name → honest R (<[name := Some s]> q).
Proof.
  intros Hq Hn Hr name' s'. destruct (decide (name = name')) as [->|].
  - rewrite lookup_insert_eq. by intros [= <-].
  - rewrite lookup_insert_ne by done. apply Hq.
Qed.

(** A rewrite of a row that keeps its identity and request. *)
Definition keeps_request (body : res daemon_error JobSpec → option JobSpec) : Prop :=
  ∀ row s, body row = Some s →
    ∃ old, row = Ok old ∧ s.(id) = old.(id) ∧ request_of s = request_of old.

(** ** Frames *)

Record same_tracking (d d' : Daemon) : Prop := {
  st_running : d'.(running) = d.(running);
  st_orphans : d'.(orphans) = d.(orphans);
  st_survivors : d'.(terminal_survivors) = d.(terminal_survivors);
  st_scheduler : d'.(scheduler_running) = d.(scheduler_running);
  st_last_attempt : d'.(scheduler_submit_last_attempt) = d.(scheduler_submit_last_attempt);
  st_last_target : d'.(scheduler_dispatch_last_target) = d.(scheduler_dispatch_last_target);
}.

#[export] Instance same_tracking_preorder : PreOrder same_tracking.
Proof.
  split.
  - by intros d.
  - intros d1 d2 d3 [] []. split; congruence.
Qed.

#[export] Instance same_tracking_sym : Symmetric same_tracking.
Proof. intros d1 d2 []. split; congruence. Qed.

Section frame.
Context (R : string → request).

Record frame (w w' : dworld) : Prop := {
  fr_tracking : same_tracking w.(dw_daemon) w'.(dw_daemon);
  fr_trace : w'.(dw_trace) = w.(dw_trace);
  fr_seen : w.(dw_seen) `prefix_of` w'.(dw_seen);
  fr_honest : honest R w.(dw_queue) → honest R w'.(dw_queue);
}.

#[export] Instance frame_preorder : PreOrder frame.
Proof.
  split.
  - intros w. by split.
  - intros w1 w2 w3 [] []. split; [by etransitivity|congruence|by etransitivity|auto].
Qed.

Definition framed {A} (m : DM A) : Prop := ∀ w, wp m (λ _ w', frame w w') w.

Lemma framed_ret {A} (a : A) : framed (ret a).
Proof. intros w. unfold wp. simpl. reflexivity. Qed.

Lemma framed_throw {A} e : framed (throw (A := A) e).
Proof. intros w. unfold wp. simpl. reflexivity. Qed.

Lemma framed_bind {A B} (m : DM A) (k : A → DM B) : framed m → (∀ a, framed (k a)) → framed (bind m k).
Proof.
  intros Hm Hk w. apply wp_bind. eapply wp_mono, Hm. intros [a|e] w' Hw; simpl; [|done].
  eapply wp_mono, Hk. intros r w'' Hw'. by etransitivity.
Qed.

Lemma framed_catch {A} (m : DM A) (p : daemon_error → bool) (h : daemon_error → DM A) : framed m → (∀ e, framed (h e)) → framed (catch m p h).
Proof.
  intros Hm Hh w. apply wp_catch. eapply wp_mono, Hm. intros [a|e] w' Hw; simpl; [done|].
  destruct (p e); [|done]. eapply wp_mono, Hh. intros r w'' Hw'. by etransitivity.
Qed.

Lemma framed_ask {A} (f : nat → A) : framed (ask f).
Proof. intros w. unfold wp. simpl. by split. Qed.

Lemma framed_get : framed get_daemon.
Proof. intros w. unfold wp. simpl. reflexivity. Qed.

Lemma framed_update f : (∀ d, same_tracking d (f d)) → framed (update_daemon f).
Proof. intros Hf w. unfold wp. simpl. split; simpl; try done. Qed.

Lemma framed_foldM {A B} (f : B → A → DM B) b l : (∀ b x, framed (f b x)) → framed (foldM f b l).
Proof.
  intros Hf. revert b. induction l as [|x l IH]; intros b; simpl; [apply framed_ret|].
  apply framed_bind; [apply Hf|auto].
Qed.

Context (Q : QueueEnv) (HQ : ∀ n q, honest R q → honest R (Q.(q_interfere) n q)).

Lemma framed_access {A} (f : queue_dir → res daemon_error A * queue_dir) :
  (∀ q, honest R q → honest R (f q).2) → framed (access Q f).
Proof.
  intros Hf w. unfold wp, access. destruct (f _) as [r q'] eqn:E. simpl.
  split; simpl; [done|done|by eexists|]. intros Hw.
  specialize (Hf _ (HQ w.(dw_tick) _ Hw)). by rewrite E in Hf.
Qed.

Lemma framed_read name : framed (read_active_spec Q name).
Proof. by apply framed_access. Qed.

Lemma framed_list : framed (list_queue Q).
Proof. by apply framed_access. Qed.

Lemma framed_row {A} name (body : res daemon_error JobSpec → A * option JobSpec) :
  keeps_request (λ row, (body row).2) → framed (with_row Q name body).
Proof.
  intros Hb w. unfold with_row. apply framed_access. intros q Hq.
  destruct (body (read_spec q name)) as [a [s|]] eqn:E; simpl; [|done].
  destruct (q_write_fails _ _); simpl; [done|].
  destruct (Hb (read_spec q name) s) as (old & Hold & Hi & Hr); [by rewrite E|].
  unfold read_spec in Hold. destruct (q !! name) as [[s0|]|] eqn:Eq; [|done..]. injection Hold as ->.
  destruct (Hq _ _ Eq) as [Hq1 Hq2]. apply honest_insert; [done| |]; congruence.
Qed.

(** A row under its lock: what the body returned and wrote, it computed from
    an honest queue. *)
Lemma wp_with_row {A} name (body : res daemon_error JobSpec → A * option JobSpec) w :
  honest R w.(dw_queue) →
  (∀ row s, (∀ old, row = Ok old → old.(id) = name ∧ request_of old = R name) →
     (body row).2 = Some s → s.(id) = name ∧ request_of s = R name) →
  wp (with_row Q name body)
    (λ r w', frame w w' ∧ honest R w'.(dw_queue)
       ∧ ∀ a, r = Ok a → ∃ row, (∀ old, row = Ok old → old.(id) = name ∧ request_of old = R name)
                                ∧ a = (body row).1) w.
Proof.
  intros Hq Hb. set (q := q_interfere Q (dw_tick w) (dw_queue w)).
  assert (honest R q) as Hq' by by apply HQ.
  assert (∀ old, read_spec q name = Ok old → old.(id) = name ∧ request_of old = R name) as Hrow.
  { intros old Hold. unfold read_spec in Hold. destruct (q !! name) as [[s0|]|] eqn:Eq; [|done..].
    injection Hold as <-. by apply Hq'. }
  unfold wp, with_row, access. fold q. specialize (Hb (read_spec q name)).
  destruct (body (read_spec q name)) as [a [s|]] eqn:Eb; simpl.
  - destruct (Hb s) as [Hi Hr]; [done|done|].
    destruct (q_write_fails _ _); simpl.
    + split_and!; [by split; simpl; try done; eexists|done|done].
    + assert (honest R (<[name := Some s]> q)) as Hins by by apply honest_insert.
      split_and!; [by split; simpl; try done; eexists|done|].
      intros ? [= <-]. exists (read_spec q name). by rewrite Eb.
  - split_and!; [by split; simpl; try done; eexists|done|].
    intros ? [= <-]. exists (read_spec q name). by rewrite Eb.
Qed.

Lemma framed_write name s :
  s.(id) = name → request_of s = R name → framed (write_new Q name s).
Proof.
  intros Hi Hr w. unfold write_new, with_row. apply framed_access. intros q Hq. simpl.
  destruct (q_write_fails _ _); simpl; [done|]. by apply honest_insert.
Qed.
End frame.

#[export] Hint Resolve framed_ret framed_throw framed_bind framed_catch framed_ask framed_get
  framed_foldM framed_read framed_list : vq_wp.

(** Splits a computation at its binds and branches. *)
Ltac framed_steps :=
  repeat first
    [ apply framed_ret | apply framed_throw | apply framed_ask | apply framed_get
    | apply framed_foldM; intros ? ? | apply framed_catch; [|intros ?]
    | apply framed_bind; [|intros ?] | apply framed_read; [done] | apply framed_list; [done]
    | case_match ].
