(* ===== verification/DispatchSafety.v ===== *)
(** * What a dispatch pass guarantees

    The launcher's promises to the pass, and against them: a pass never
    admits local work past the effective job, CPU and memory caps and never
    gives a GPU device to two jobs; every launch passed every gate on what the
    pass had read; scheduler submissions are paced and capped; builds are
    exclusive; and a pass leaves out only jobs that do not fit. *)

From S2P Require Import Prelude Spec Admission DaemonCore Dispatch DaemonLogic.

(** ** What the launcher promises *)

(** Local resources are only given back, by a call that returns ([ok]); one
    that raises may leave a job tracked both as running and as a survivor. *)
Record released_if (R : string → request) (ok : bool) (w w' : dworld) : Prop := {
  rl_holders : ok = true → holders w'.(dw_daemon) ⊆+ holders w.(dw_daemon);
  rl_last : w'.(dw_daemon).(scheduler_submit_last_attempt)
            = w.(dw_daemon).(scheduler_submit_last_attempt);
  rl_trace : w'.(dw_trace) = w.(dw_trace);
  rl_seen : w.(dw_seen) `prefix_of` w'.(dw_seen);
  rl_honest : honest R w.(dw_queue) → honest R w'.(dw_queue);
}.

Abbreviation released R := (released_if R true).

(** A start takes at most the request it was given and the given devices; a
    start that returns False, and any start on a scheduler, takes nothing. *)
Record start_effect (R : string → request) (fresh : JobSpec) (gs : list string)
    (r : res daemon_error bool) (w w' : dworld) : Prop := {
  se_holders :
    holders w'.(dw_daemon) ⊆+ holders w.(dw_daemon)
    ∨ (fresh.(scheduler_target) = None ∧ r ≠ Ok false ∧ ∃ gs', gs' ⊆+ gs
       ∧ holders w'.(dw_daemon) ⊆+ MkCharge fresh.(cpus) fresh.(mem_mb) gs' :: holders w.(dw_daemon));
  se_last : w'.(dw_daemon).(scheduler_submit_last_attempt)
            = w.(dw_daemon).(scheduler_submit_last_attempt);
  se_trace : w'.(dw_trace) = w.(dw_trace);
  se_seen : w.(dw_seen) `prefix_of` w'.(dw_seen);
  se_honest : honest R w'.(dw_queue);
}.

Class LauncherOk (R : string → request) (L : Launcher) : Prop := {
  start_job_ok fresh gs w :
    honest R w.(dw_queue) → request_of fresh = R fresh.(id) →
    wp (start_job fresh gs) (λ r w', start_effect R fresh gs r w w') w;
  reconcile_running_ok w :
    honest R w.(dw_queue) → wp reconcile_running (λ r w', released_if R (is_ok r) w w') w;
  reconcile_scheduler_ok w :
    honest R w.(dw_queue) → wp reconcile_scheduler (λ r w', released_if R (is_ok r) w w') w;
}.

#[export] Instance released_preorder R : PreOrder (released R).
Proof.
  split.
  - intros w. by split.
  - intros w1 w2 w3 [H1] [H2].
    split; [intros; etransitivity; [by apply H2|by apply H1]|congruence|congruence|by etransitivity|auto].
Qed.

Lemma released_then R ok w1 w2 w3 : released R w1 w2 → released_if R ok w2 w3 → released_if R ok w1 w3.
Proof.
  intros [H1] [H2].
  split; [intros; etransitivity; [by apply H2|by apply H1]|congruence|congruence|by etransitivity|auto].
Qed.

Lemma released_weaken R ok w w' : released R w w' → released_if R ok w w'.
Proof. intros []. split; auto. Qed.

Lemma frame_holders R w w' : frame R w w' → holders w'.(dw_daemon) = holders w.(dw_daemon).
Proof. intros [[] _ _ _]. unfold holders. congruence. Qed.

Lemma frame_released R w w' : frame R w w' → released R w w'.
Proof.
  intros Hf. pose proof (frame_holders _ _ _ Hf) as Hh. destruct Hf as [[] ? ? ?].
  split; try done. by rewrite Hh.
Qed.

(** ** Accounting *)

Lemma local_active_length d : local_active d = Z.of_nat (length (holders d)).
Proof.
  unfold local_active, holders. rewrite !length_app, !length_fmap, !length_map_to_list. lia.
Qed.

Lemma sumZ_submseteq {A} (f : A → Z) l l' :
  l' ⊆+ l → (∀ x, x ∈ l → 0 <= f x) → sumZ f l' <= sumZ f l.
Proof.
  intros [k Hk]%submseteq_Permutation Hf.
  assert (sumZ f l = sumZ f (l' ++ k)) as -> by by apply sumZ_perm.
  rewrite sumZ_app. assert (0 <= sumZ f k); [|lia].
  apply sumZ_nonneg. intros x Hx. apply Hf. rewrite Hk. set_solver.
Qed.

Lemma bind_submseteq {A B} (f : A → list B) l l' : l' ⊆+ l → l' ≫= f ⊆+ l ≫= f.
Proof.
  intros [k Hk]%submseteq_Permutation.
  assert ((l ≫= f) ≡ₚ ((l' ++ k) ≫= f)) as -> by (by apply bind_Permutation).
  rewrite bind_app. apply submseteq_inserts_r. reflexivity.
Qed.

Lemma submseteq_NoDup {A} (l l' : list A) : l' ⊆+ l → NoDup l → NoDup l'.
Proof.
  intros [k Hk]%submseteq_Permutation Hl. rewrite Hk in Hl. by apply NoDup_app in Hl as (? & _).
Qed.

Lemma NoDup_filterb {A} (p : A → bool) l : NoDup l → NoDup (List.filter p l).
Proof. intros Hl. apply NoDup_ListNoDup, List.NoDup_filter. by apply NoDup_ListNoDup. Qed.

Section safety.
Context (C : DaemonConfig) (E : DispatchEnv) (R : string → request).

(** The other processes never change a job's id or request; a build job's
    request is the daemon's; requests and the daemon's device list are
    validated ([ge=1], [gpu_device_list]). *)
Record env_ok : Prop := {
  eo_interfere n q : honest R q → honest R (E.(e_queue).(q_interfere) n q);
  eo_build n : R (E.(e_new_jobid) n) = MkRequest C.(max_cpus) None C.(max_mem_mb) None;
  eo_cpus name : 0 <= (R name).(rq_cpus);
  eo_mem name : 0 <= mem_charge C (R name).(rq_mem_mb);
  eo_gpus : NoDup C.(d_gpu_devices);
}.
Context (HE : env_ok).

Abbreviation framed := (framed R).
Abbreviation frame := (frame R).

Lemma keeps_mark_failed {A} now reason (yes no : A) (f : JobSpec → JobSpec) :
  (∀ s, (f s).(id) = s.(id) ∧ request_of (f s) = request_of s) →
  keeps_request (λ row,
    (match row with
     | Err _ => (no, None)
     | Ok fresh => if negb (bool_decide (fresh.(state) = PENDING)) then (no, None)
                   else (yes, Some (f (mark_failed now reason fresh)))
     end).2).
Proof.
  intros Hf [s|e] s'; simpl; [|done]. case_bool_decide; simpl; [|done]. intros [= <-].
  exists s. split; [done|]. destruct (Hf (mark_failed now reason s)) as [-> ->]. done.
Qed.

Lemma framed_cascade s by_id : framed (maybe_cascade_dependency_failure E s by_id).
Proof.
  unfold maybe_cascade_dependency_failure. destruct (negb _); [apply framed_ret|].
  destruct (failed_predecessor _ _) as [[p st]|]; [|apply framed_ret].
  apply framed_bind; [apply framed_ask|intros now].
  apply framed_bind; [|intros []; apply framed_ret].
  apply framed_catch; [|intros; apply framed_ret]. apply framed_row; [apply HE|].
  intros [fresh|e] s'; simpl; [|done]. case_bool_decide; simpl; [|done]. intros [= <-]. by exists fresh.
Qed.

Lemma framed_impossible s why : framed (fail_impossible_spec E s why).
Proof.
  apply framed_bind; [apply framed_ask|intros now].
  apply framed_catch; [|intros; apply framed_ret]. apply framed_row; [apply HE|].
  by apply (keeps_mark_failed _ _ tt tt (λ s, s)).
Qed.

Lemma framed_fail_refresh jobid reason : framed (fail_refresh_job E jobid reason).
Proof.
  apply framed_bind; [apply framed_ask|intros now].
  apply framed_catch; [|intros; apply framed_ret]. apply framed_row; [apply HE|].
  by apply (keeps_mark_failed _ _ true true (set_refresh_before None)).
Qed.

Lemma framed_attach s build_id : framed (attach_to_build E s build_id).
Proof.
  apply framed_row; [apply HE|]. intros [fresh|e] s'; simpl; [|done].
  case_bool_decide; simpl; [|done]. intros [= <-]. exists fresh. by case_bool_decide.
Qed.

Lemma framed_create env like : framed (create_build_job C E env like).
Proof.
  intros w. unfold create_build_job. apply wp_bind. unfold wp at 1. cbn [ask fst snd].
  set (b := e_new_jobid E (dw_tick w)).
  eapply wp_mono; [|apply (framed_bind R (ask (λ n, e_workspace E n b)))].
  - intros r w' Hw. simpl in Hw. etransitivity; [|exact Hw]. by split.
  - apply framed_ask.
  - intros [ws|]; [|apply framed_throw]. apply framed_bind; [apply framed_ask|intros submitted].
    destruct (negb _); [apply framed_throw|].
    apply framed_bind; [|intros; apply framed_ret]. apply framed_write; [apply HE|done|].
    unfold b. by rewrite (eo_build HE).
Qed.

Lemma framed_refresh s all_specs : framed (maybe_refresh_before_run C E s all_specs).
Proof.
  unfold maybe_refresh_before_run. destruct (refresh_before s) as [env|]; [|apply framed_ret].
  destruct (find_build_job _ _); [apply framed_attach|].
  apply framed_bind; [apply framed_get|intros d]. case_match.
  - apply framed_bind; [by apply framed_update|intros; apply framed_ret].
  - apply framed_bind; [by apply framed_update|intros _].
    apply framed_bind.
    + apply framed_catch; [|intros; apply framed_ret].
      apply framed_bind; [apply framed_create|intros; apply framed_ret].
    + intros []; [apply framed_attach|apply framed_fail_refresh].
Qed.

Lemma framed_iter_specs : framed (iter_specs E).
Proof.
  apply framed_bind; [apply framed_list; apply HE|intros names]. apply framed_foldM. intros acc name.
  apply framed_catch; [|intros; apply framed_ret].
  apply framed_bind; [apply framed_read; apply HE|intros; apply framed_ret].
Qed.

Lemma framed_reservations d all_specs : framed (untracked_reservations E d all_specs).
Proof.
  apply framed_bind; [|intros; apply framed_ret]. apply framed_foldM. intros acc s.
  unfold reattach_held. case_match; [|apply framed_ret].
  apply framed_bind; [apply framed_ask|intros; apply framed_ret].
Qed.

Lemma framed_resolve settled all_specs by_id :
  framed (resolve_settled_dependencies E settled all_specs by_id).
Proof.
  apply framed_foldM. intros m d. unfold resolve_one. case_bool_decide; [|apply framed_ret].
  apply framed_catch; [|intros; apply framed_ret].
  apply framed_bind; [apply framed_read; apply HE|intros; apply framed_ret].
Qed.

Lemma framed_plan held drain : framed (plan C E held drain).
Proof.
  unfold plan. apply framed_bind; [apply framed_ask|intros now].
  apply framed_bind; [apply framed_iter_specs|intros [all_specs settled]].
  apply framed_bind; [by apply framed_update|intros _].
  apply framed_bind; [apply framed_get|intros d].
  apply framed_bind; [apply framed_reservations|intros rs].
  apply framed_bind; [apply framed_ask|intros [hosts|]; [|apply framed_throw]].
  apply framed_bind; [apply framed_resolve|intros by_id].
  apply framed_bind.
  { apply framed_foldM. intros acc s. apply framed_bind; [apply framed_cascade|intros; apply framed_ret]. }
  intros [specs by_id']. apply framed_bind.
  { case_match; [apply framed_ret|apply framed_refresh]. }
  intros []; [apply framed_ret|]. apply framed_bind; [apply framed_ask|intros; apply framed_ret].
Qed.

(** *** Capacity *)

Definition below (before : Z) (cap : option Z) (x : Z) : Prop :=
  match cap with None => True | Some c => x <= Z.max before c end.

(** What runs after a pass: no more than before it, or within the caps on
    jobs and CPUs and the memory budget; no GPU device held twice. *)
Record within (caps : option Z * Z) (d0 d : Daemon) : Prop := {
  wn_jobs : below (local_active d0) caps.1 (local_active d);
  wn_cpus : used_cpus d <= Z.max (used_cpus d0) caps.2;
  wn_mem : below (used_mem C d0) C.(max_mem_mb) (used_mem C d);
  wn_nodup : NoDup (busy_gpu_devices d);
  wn_gpus g : g ∈ busy_gpu_devices d → g ∈ busy_gpu_devices d0 ∨ g ∈ C.(d_gpu_devices);
}.

Definition pass_caps (p : pass) : option Z * Z :=
  (p.(p_effective_max_jobs), p.(p_effective_max_cpus)).

(** The tally bounds what runs and is itself within the caps. *)
Record loop_inv (p : pass) (d0 : Daemon) (t : tally) (w : dworld) : Prop := {
  li_honest : honest R w.(dw_queue);
  li_pos ch : ch ∈ holders w.(dw_daemon) → 0 <= ch.(ch_cpus) ∧ 0 <= mem_charge C ch.(ch_mem_mb);
  li_jobs : local_active w.(dw_daemon) <= t.(t_local_active);
  li_cpus : used_cpus w.(dw_daemon) <= t.(t_used_cpus);
  li_mem : used_mem C w.(dw_daemon) <= t.(t_used_mem);
  li_busy g : g ∈ busy_gpu_devices w.(dw_daemon) → g ∈ t.(t_busy_gpus);
  li_nodup : NoDup (busy_gpu_devices w.(dw_daemon));
  li_cap_jobs : below (local_active d0) p.(p_effective_max_jobs) t.(t_local_active);
  li_cap_cpus : t.(t_used_cpus) <= Z.max (used_cpus d0) p.(p_effective_max_cpus);
  li_cap_mem : below (used_mem C d0) C.(max_mem_mb) t.(t_used_mem);
  li_cap_gpus g : g ∈ t.(t_busy_gpus) → g ∈ busy_gpu_devices d0 ∨ g ∈ C.(d_gpu_devices);
}.

Lemma below_le b c x y : x <= y → below b c y → below b c x.
Proof. unfold below. destruct c; [lia|done]. Qed.

Lemma loop_within p d0 t w : loop_inv p d0 t w → within (pass_caps p) d0 w.(dw_daemon).
Proof. intros []. unfold pass_caps. split; simpl; eauto using below_le; lia. Qed.

Lemma loop_shrink p d0 t w w' :
  loop_inv p d0 t w → honest R w'.(dw_queue) →
  holders w'.(dw_daemon) ⊆+ holders w.(dw_daemon) → loop_inv p d0 t w'.
Proof.
  intros Hi Hq Hh. destruct Hi as [? Hpos Hj Hc Hm Hb Hn ? ? ? ?].
  pose proof (bind_submseteq ch_gpus _ _ Hh) as Hg. split; try done.
  - intros ch Hch. apply Hpos. by eapply elem_of_submseteq.
  - rewrite local_active_length in *. apply submseteq_length in Hh. lia.
  - etransitivity; [|exact Hc]. apply sumZ_submseteq; [done|]. intros ch Hch. by apply Hpos.
  - etransitivity; [|exact Hm]. apply (sumZ_submseteq (λ h, mem_charge C h.(ch_mem_mb))); [done|].
    intros ch Hch. by apply Hpos.
  - intros g Hin. apply Hb. by eapply elem_of_submseteq.
  - by eapply submseteq_NoDup.
Qed.

Lemma loop_released p d0 t w w' : loop_inv p d0 t w → released R w w' → loop_inv p d0 t w'.
Proof. intros Hi Hr. eapply loop_shrink; [done|apply Hr, Hi|by apply Hr]. Qed.

(** The request and the devices fit beside the tally. *)
Record fits (p : pass) (t : tally) (s : JobSpec) (gs : list string) : Prop := {
  ft_jobs : jobs_fit p t = true;
  ft_cpus : t.(t_used_cpus) + s.(cpus) <= p.(p_effective_max_cpus);
  ft_mem : mem_fits C t s = true;
  ft_nodup : NoDup gs;
  ft_gpus g : g ∈ gs → (g ∉ t.(t_busy_gpus)) ∧ g ∈ C.(d_gpu_devices);
}.

Lemma charge_caps p d0 t w s gs :
  loop_inv p d0 t w → fits p t s gs →
  below (local_active d0) p.(p_effective_max_jobs) (t.(t_local_active) + 1)
  ∧ t.(t_used_cpus) + s.(cpus) <= Z.max (used_cpus d0) p.(p_effective_max_cpus)
  ∧ below (used_mem C d0) C.(max_mem_mb) (t.(t_used_mem) + mem_charge C s.(mem_mb))
  ∧ ∀ g, g ∈ t.(t_busy_gpus) ++ gs → g ∈ busy_gpu_devices d0 ∨ g ∈ C.(d_gpu_devices).
Proof.
  intros [] [Hj Hc Hm _ Hg]. unfold jobs_fit, mem_fits, mem_charge in *. split_and!.
  - unfold below. destruct (p_effective_max_jobs p); [|done]. apply Z.ltb_lt in Hj. lia.
  - lia.
  - unfold below in *. destruct (max_mem_mb C); [|done].
    destruct (eff_mem_mb C (mem_mb s)); simpl; [apply Z.leb_le in Hm; lia|lia].
  - intros g [?|?]%elem_of_app; [auto|]. right. by apply Hg.
Qed.

(** A local start charges its tally. *)
Lemma loop_charge p d0 t w w' s gs gs' :
  loop_inv p d0 t w → fits p t s gs → request_of s = R s.(id) → gs' ⊆+ gs →
  honest R w'.(dw_queue) →
  holders w'.(dw_daemon) ⊆+ MkCharge s.(cpus) s.(mem_mb) gs' :: holders w.(dw_daemon) →
  loop_inv p d0 (charge_local C t s gs) w'.
Proof.
  intros Hi Hf Hr Hgs Hq Hh. destruct (charge_caps _ _ _ _ _ _ Hi Hf) as (? & ? & ? & ?).
  destruct Hi as [? Hpos Hj Hc Hm Hb Hn _ _ _ _]. destruct Hf as [_ _ _ Hnd Hg].
  set (c := MkCharge _ _ _) in Hh. pose proof (bind_submseteq ch_gpus _ _ Hh) as Hgpu.
  assert (∀ ch, ch ∈ c :: holders w.(dw_daemon) →
            0 <= ch.(ch_cpus) ∧ 0 <= mem_charge C ch.(ch_mem_mb)) as Hpos'.
  { intros ch [->|?]%elem_of_cons; [|by apply Hpos]. unfold c. simpl.
    pose proof (eo_cpus HE s.(id)). pose proof (eo_mem HE s.(id)). rewrite <- Hr in *. done. }
  assert (NoDup gs') by (by eapply submseteq_NoDup).
  split; simpl; try done.
  - intros ch Hch. apply Hpos'. by eapply elem_of_submseteq.
  - rewrite local_active_length in *. apply submseteq_length in Hh. simpl in Hh. lia.
  - assert (used_cpus (dw_daemon w') <= sumZ ch_cpus (c :: holders (dw_daemon w))) as Hle.
    { apply sumZ_submseteq; [done|]. intros ch Hch. by apply Hpos'. }
    simpl in Hle. unfold used_cpus in *. lia.
  - assert (used_mem C (dw_daemon w')
            <= sumZ (λ h, mem_charge C h.(ch_mem_mb)) (c :: holders (dw_daemon w))) as Hle.
    { apply sumZ_submseteq; [done|]. intros ch Hch. by apply Hpos'. }
    simpl in Hle. unfold used_mem in *. lia.
  - intros g Hin. apply (elem_of_submseteq _ _ _ Hin) in Hgpu. csimpl in Hgpu.
    rewrite elem_of_app in *. destruct Hgpu; [right; by apply (elem_of_submseteq gs')|left; by apply Hb].
  - eapply submseteq_NoDup; [exact Hgpu|]. csimpl. apply NoDup_app. split_and!; [done| |done].
    intros g Hg1 Hg2. destruct (Hg g) as [Hnb _]; [by apply (elem_of_submseteq gs')|].
    by apply Hnb, Hb.
Qed.

Lemma NoDup_take_py {A} n (l : list A) : NoDup l → NoDup (take_py n l).
Proof. intros Hl. unfold take_py. case_match; (eapply sublist_NoDup; [done|apply sublist_take]). Qed.

Lemma elem_of_take_py {A} n (l : list A) x : x ∈ take_py n l → x ∈ l.
Proof. unfold take_py. case_match; intros (? & ? & _)%elem_of_take; by eapply list_elem_of_lookup_2. Qed.

Lemma admit_fits p t s gs :
  admission_gate C p t s = Admit gs → s.(scheduler_target) = None → fits p t s gs.
Proof.
  unfold admission_gate. intros Ha Hl. rewrite (bool_decide_eq_true_2 _ Hl) in Ha.
  destruct (blocked_by_running_build _ _ _); [done|]. destruct (held_by_admin_update _ _); [done|].
  destruct (negb _); [done|]. unfold local_gate in Ha.
  destruct (impossible_build _ _); [done|]. destruct (jobs_fit p t) eqn:Hj; simpl in Ha; [|done].
  destruct (Z.ltb_spec (p_effective_max_cpus p) (t_used_cpus t + cpus s)); [done|].
  destruct (mem_fits C t s) eqn:Hm; simpl in Ha; [|done].
  destruct (assign_gpus _ _ _) as [gs'|] eqn:Hg; [|done]. injection Ha as ->.
  unfold assign_gpus in Hg. destruct (gpus s) as [n|].
  - destruct (_ <? n); [done|]. injection Hg as <-. split; try done.
    + apply NoDup_take_py, NoDup_filterb, HE.
    + intros g [Hin Hb]%elem_of_take_py%elem_of_filterb. split; [|done].
      by apply negb_true_iff, bool_decide_eq_false in Hb.
  - injection Hg as <-. split; try done; [constructor|]. set_solver.
Qed.

(** ** What one visit does *)

Context {L : Launcher} {HL : LauncherOk R L}.

(** The tally and signal after a launch that answered [b]. *)
Definition settled_tally (t : tally) (fresh : JobSpec) (gs : list string) (b : bool) (t' : tally)
    : Prop :=
  if b then t' = (if is_remote fresh then charge_scheduler t fresh.(scheduler_target) t.(t_untracked)
                  else charge_local C t fresh gs)
  else t' = t ∨ is_remote fresh = true ∧ ∃ ids, t' = charge_scheduler t fresh.(scheduler_target) ids.

Definition signalled (fresh : JobSpec) (b : bool) (sig : signal) : Prop :=
  (b = true → fresh.(build_env) ≠ None → sig = Stop)
  ∧ (sig = Stop → is_remote fresh = true ∨ b = true ∧ fresh.(build_env) ≠ None).

Definition with_events (es : list event) (w : dworld) : dworld :=
  MkDWorld w.(dw_daemon) w.(dw_queue) w.(dw_tick) (w.(dw_trace) ++ es) w.(dw_seen).

(** The effect of [launch], by what [_start_job] answered. *)
Definition launched (t : tally) (fresh : JobSpec) (gs : list string) (w : dworld)
    (r : res daemon_error (tally * signal)) (w' : dworld) : Prop :=
  ∃ r0 w1, start_effect R fresh gs r0 w w1 ∧
    match r0 with
    | Err e => r = Err e ∧ w' = w1
    | Ok b =>
      released_if R (is_ok r) (with_events (if b then [Started fresh] else []) w1) w'
      ∧ match r with
        | Err _ => True
        | Ok (t', sig) => settled_tally t fresh gs b t' ∧ signalled fresh b sig
        end
    end.

Lemma reserve_ambiguous_spec t fresh w :
  honest R w.(dw_queue) → request_of fresh = R fresh.(id) →
  wp (reserve_ambiguous E t fresh) (λ r w', released R w w' ∧
    match r with
    | Err _ => True
    | Ok t' => t' = t ∨ ∃ ids, t' = charge_scheduler t fresh.(scheduler_target) ids
    end) w.
Proof.
  intros Hq Hr. unfold reserve_ambiguous. apply wp_bind, wp_catch, wp_bind.
  unfold wp at 1, read_active_spec, access. simpl.
  set (q := q_interfere _ _ _). set (w1 := MkDWorld _ q _ _ _).
  assert (honest R q) as Hq' by (by apply (eo_interfere HE)).
  assert (released R w w1) as Hrel by (split; simpl; try done; by eexists).
  destruct (read_spec q (id fresh)) as [s|e] eqn:Es; cbn [ret wp fst snd].
  - unfold read_spec in Es. destruct (q !! id fresh) as [[s0|]|] eqn:Eq; simplify_eq.
    destruct (Hq' _ _ Eq) as [_ Hs]. rewrite <- Hr in Hs.
    assert (scheduler_target s = scheduler_target fresh) as -> by (by injection Hs).
    destruct (_ && _); apply wp_ret; split; eauto.
  - assert (is_os_or_value_error e = true) as ->.
    { unfold read_spec in Es. repeat case_match; by simplify_eq. }
    apply wp_ret. cbn. split; [done|by left].
Qed.

Lemma end_visit_spec p t fresh b w :
  honest R w.(dw_queue) →
  wp (end_visit E p t fresh b) (λ r w', released_if R (is_ok r) w w' ∧
    match r with Err _ => True | Ok (t', sig) => t' = t ∧ signalled fresh b sig end) w.
Proof.
  intros Hq. unfold end_visit, signalled. destruct (b && _) eqn:Hb.
  - apply andb_true_iff in Hb as [-> Hb]. apply negb_true_iff, bool_decide_eq_false in Hb.
    apply wp_ret. split; [done|]. naive_solver.
  - assert (b = true → build_env fresh ≠ None → False) as Hnb.
    { intros -> Hne. simpl in Hb. by rewrite bool_decide_eq_false_2 in Hb. }
    destruct (is_remote fresh) eqn:Hrem; [|apply wp_ret; split; [done|]; naive_solver].
    apply wp_bind. unfold wp at 1. cbn [ask fst snd].
    set (w1 := MkDWorld _ _ _ _ _). assert (released R w w1) as Hrel by (by split).
    destruct (_ <=? _); [|apply wp_ret; split; [done|]; naive_solver].
    apply wp_bind. eapply wp_mono, reconcile_scheduler_ok; [|done]. intros [[]|e] w2 Hrel2;
      [|split; [by eapply released_then|done]].
    apply wp_bind. unfold wp at 1. cbn [update_daemon fst snd]. apply wp_ret.
    split; [|naive_solver]. etransitivity; [exact Hrel|]. etransitivity; [exact Hrel2|]. by split.
Qed.

(** The step between: a start that answered False may have reserved. *)
Lemma ambiguous_spec t fresh (b recovered : bool) w :
  honest R w.(dw_queue) → request_of fresh = R fresh.(id) →
  wp (if is_remote fresh && negb b && negb recovered then reserve_ambiguous E t fresh else ret t)
    (λ r w', released R w w' ∧
      match r with
      | Err _ => True
      | Ok t' => t' = t ∨ b = false ∧ recovered = false ∧ is_remote fresh = true
                          ∧ ∃ ids, t' = charge_scheduler t fresh.(scheduler_target) ids
      end) w.
Proof.
  intros Hq Hr. destruct (is_remote fresh) eqn:Hrem, b, recovered; simpl;
    try (apply wp_ret; split; [done|by left]).
  eapply wp_mono, reserve_ambiguous_spec; [|done..].
  intros [t'|] w' [Hrel Ht]; (split; [done|]); [|done]. destruct Ht; auto 6.
Qed.

Lemma launch_spec p t fresh gs w :
  honest R w.(dw_queue) → request_of fresh = R fresh.(id) →
  wp (launch C E p t fresh gs) (launched t fresh gs w) w.
Proof.
  intros Hq Hr. unfold launch. apply wp_bind. eapply wp_mono, start_job_ok; [|done..].
  intros [b|e] w1 Hs; [|by exists (Err e), w1].
  set (w2 := with_events (if b then [Started fresh] else []) w1).
  apply wp_bind.
  assert (wp (if b then record_event (Started fresh) else ret tt) (λ r w', r = Ok tt ∧ w' = w2) w1)
    as Hev.
  { destruct b; [done|]. split; [done|]. unfold w2, with_events. rewrite app_nil_r. by destruct w1. }
  eapply wp_mono, Hev. intros ? ? [-> ->]. apply wp_bind. unfold wp at 1. cbn [get_daemon fst snd].
  set (recovered := is_remote fresh && negb b
                    && negb (bool_decide (scheduler_running (dw_daemon w2) !! id fresh = None))).
  assert (∀ r w', released_if R (is_ok r) w2 w' → (∀ x, r = Ok x → settled_tally t fresh gs b x.1 ∧ signalled fresh b x.2) →
            launched t fresh gs w r w') as Hpost.
  { intros r w' Hrel Hm. exists (Ok b), w1. split_and!; [done|done|]. destruct r as [[t' sig]|]; [|done].
    by apply (Hm (t', sig)). }
  apply wp_bind. eapply wp_mono, ambiguous_spec; [|apply Hs|done]. intros [t1|e] w3 [Hrel Ht];
    [|apply Hpost; [by apply released_weaken|done]].
  assert (honest R w3.(dw_queue)) as Hq3 by apply Hrel, Hs.
  apply wp_bind. unfold wp at 1. cbn [get_daemon fst snd]. apply wp_bind.
  assert (wp (if is_remote fresh && negb (bool_decide (running (dw_daemon w3) = ∅))
              then reconcile_running else ret tt) (λ r w', released_if R (is_ok r) w3 w') w3) as Hrec.
  { destruct (is_remote fresh && negb (bool_decide (running _ = _)));
      [by apply reconcile_running_ok|apply wp_ret; done]. }
  eapply wp_mono, Hrec. intros [[]|e] w4 Hrel4;
    [|apply Hpost; [by eapply released_then|done]].
  eapply wp_mono, end_visit_spec; [|by apply Hrel4]. intros r w5 [Hrel5 Hout]. apply Hpost.
  { eapply released_then; [exact Hrel|]. by eapply released_then. }
  intros [t' sig] ->. destruct Hout as [-> Hsig]. split; [|done]. simpl. unfold settled_tally.
  destruct b; simpl; [by destruct Ht as [->|(? & _)]|].
  destruct recovered eqn:Er; [|destruct Ht as [->|(_ & _ & ? & ?)]; [by left|by right]].
  destruct Ht as [->|(_ & ? & _)]; [|done].
  assert (is_remote fresh = true) as -> by (unfold recovered in Er; by destruct (is_remote fresh)).
  right. eauto.
Qed.

(** The bookkeeping before the launcher is called. *)
Definition announced (t : tally) (spec fresh : JobSpec) (gs : list string) (w1 w2 : dworld) : Prop :=
  match fresh.(scheduler_target) with
  | None => w2 = with_events [Attempted (MkAttempt spec fresh gs None None)] w1
  | Some target =>
    ∃ now, let last := w1.(dw_daemon).(scheduler_submit_last_attempt) in
      let c := canonical t.(t_admission) target in
      can_attempt t.(t_admission) last target now = true
      ∧ w2 = with_events [Attempted (MkAttempt spec fresh gs (Some now) (Some c))]
               (MkDWorld (set_scheduler_attempt (attempted t.(t_admission) last target now) (Some c)
                            w1.(dw_daemon))
                  w1.(dw_queue) w1.(dw_tick) w1.(dw_trace) w1.(dw_seen))
  end.

(** A state of the queue the pass met in which the job was not pending. *)
Definition withdrawn (w : dworld) (spec : JobSpec) : Prop :=
  ∃ q, q ∈ w.(dw_seen) ∧ ∀ s, read_spec q spec.(id) = Ok s → s.(state) ≠ PENDING.

Inductive visited (p : pass) (t : tally) (spec : JobSpec) (w : dworld)
    : res daemon_error (tally * signal) → dworld → Prop :=
| visited_quiet r w' :
    frame w w' → (r = Ok (t, Next) ∨ ∃ e, r = Err e) →
    (∀ gs, admission_gate C p t spec = Admit gs → withdrawn w' spec ∨ is_remote spec = true) →
    visited p t spec w r w'
| visited_launched gs fresh q w1 w2 r w' :
    admission_gate C p t spec = Admit gs → frame w w1 → q ∈ w1.(dw_seen) → read_spec q spec.(id) = Ok fresh →
    fresh.(state) = PENDING → fresh.(id) = spec.(id) → request_of fresh = request_of spec →
    announced t spec fresh gs w1 w2 → launched t fresh gs w2 r w' →
    visited p t spec w r w'.

Lemma announced_queue t spec fresh gs w1 w2 :
  announced t spec fresh gs w1 w2 →
  w2.(dw_queue) = w1.(dw_queue) ∧ w2.(dw_seen) = w1.(dw_seen)
  ∧ holders w2.(dw_daemon) = holders w1.(dw_daemon).
Proof. unfold announced. case_match; [intros (now & _ & ->)|intros ->]; done. Qed.

Lemma offer_spec p t spec gs w :
  honest R w.(dw_queue) → request_of spec = R spec.(id) → admission_gate C p t spec = Admit gs →
  wp (offer C E p t spec gs) (visited p t spec w) w.
Proof.
  intros Hq Hr Ha. unfold offer. apply wp_bind, wp_catch, wp_bind.
  unfold wp at 1, read_active_spec, access. simpl.
  set (q := q_interfere _ _ _). set (w1 := MkDWorld _ q _ _ _).
  assert (honest R q) as Hq' by (by apply (eo_interfere HE)).
  assert (frame w w1) as Hf by (split; simpl; try done; by eexists).
  assert (q ∈ w1.(dw_seen)) as Hseen by (simpl; set_solver).
  destruct (read_spec q (id spec)) as [fresh|e] eqn:Es; cbn [ret wp fst snd].
  - assert (fresh.(id) = spec.(id) ∧ request_of fresh = R spec.(id)) as [Hid Hfr].
    { unfold read_spec in Es. destruct (q !! id spec) as [[s0|]|] eqn:Eq; simplify_eq. by apply Hq'. }
    case_bool_decide as Hp; simpl; [|apply wp_ret, visited_quiet; [done|by left|]; intros; left;
      exists q; split; [done|]; intros s Hs; congruence].
    assert (request_of fresh = R fresh.(id)) by congruence.
    destruct (scheduler_target fresh) as [target|] eqn:Et.
    + assert (is_remote spec = true) as Hrem.
      { unfold is_remote. rewrite <- Hr in Hfr. injection Hfr as _ _ _ Hfr. by rewrite <- Hfr, Et. }
      apply wp_bind. unfold wp at 1. cbn [ask fst snd]. apply wp_bind. unfold wp at 1. cbn [get_daemon fst snd].
      set (w2 := MkDWorld _ _ _ _ _). assert (frame w w2) by (etransitivity; [exact Hf|by split]).
      case_match eqn:Hc; [apply wp_ret, visited_quiet; [done|by left|auto]|].
      apply negb_false_iff in Hc. apply wp_bind. unfold wp at 1. cbn [update_daemon fst snd].
      apply wp_bind. unfold wp at 1. cbn [record_event fst snd].
      eapply wp_mono, launch_spec; [|done..]. intros r w' Hl.
      eapply (visited_launched _ _ _ _ gs fresh q w2); [done..|congruence| |exact Hl].
      unfold announced. rewrite Et. by eexists.
    + apply wp_bind. unfold wp at 1. cbn [record_event fst snd].
      eapply wp_mono, launch_spec; [|done..]. intros r w' Hl.
      eapply (visited_launched _ _ _ _ gs fresh q w1); [done..|congruence| |exact Hl].
      unfold announced. by rewrite Et.
  - assert (is_os_or_value_error e = true) as ->.
    { unfold read_spec in Es. repeat case_match; by simplify_eq. }
    apply wp_ret. cbn. apply wp_ret, visited_quiet; [done|by left|]. intros _ _. left.
    exists q. split; [done|]. intros s Hs. congruence.
Qed.

Lemma visit_spec p t spec w :
  honest R w.(dw_queue) → request_of spec = R spec.(id) →
  wp (visit C E p t spec) (visited p t spec w) w.
Proof.
  intros Hq Hr. unfold visit. destruct (admission_gate C p t spec) as [|why|gs] eqn:Ha.
  - apply wp_ret, visited_quiet; [done|by left|]. congruence.
  - apply wp_bind. eapply wp_mono, framed_impossible. intros [[]|e] w' Hf.
    + apply wp_ret, visited_quiet; [done|by left|congruence].
    + apply visited_quiet; [done|eauto|congruence].
  - by apply offer_spec.
Qed.

(** The loop rule: an invariant of the tally and the world that every visit
    of a spec of the order keeps, and what holds once a visit ends the loop. *)
Lemma visit_all_rule (Inv : tally → dworld → Prop)
    (Fin : res daemon_error (tally * signal) → dworld → Prop) p order t w :
  (∀ s, s ∈ order → request_of s = R s.(id)) →
  (∀ t w, Inv t w → honest R w.(dw_queue)) →
  (∀ s t w r w', s ∈ order → Inv t w → visited p t s w r w' →
     match r with Ok (t', Next) => Inv t' w' | _ => Fin r w' end) →
  Inv t w →
  wp (visit_all C E p t order) (λ r w', match r with Ok (t', Next) => Inv t' w' | _ => Fin r w' end) w.
Proof.
  intros Hreq Hq Hstep. revert t w. induction order as [|s order IH]; intros t w Hi; simpl.
  { by apply wp_ret. }
  apply wp_bind. eapply wp_mono; [|apply visit_spec; [by eapply Hq|apply Hreq; set_solver]].
  intros r w' Hv. apply (Hstep s t w r w') in Hv; [|set_solver|done].
  destruct r as [[t' []]|e]; [|done..]. apply IH; [set_solver|set_solver|done].
Qed.

Lemma loop_tally p d0 t t' w :
  t'.(t_local_active) = t.(t_local_active) → t'.(t_used_cpus) = t.(t_used_cpus) →
  t'.(t_used_mem) = t.(t_used_mem) → t'.(t_busy_gpus) = t.(t_busy_gpus) →
  loop_inv p d0 t w → loop_inv p d0 t' w.
Proof. intros E1 E2 E3 E4 []. split; rewrite ?E1, ?E2, ?E3, ?E4; done. Qed.

Lemma fits_request p t s s' gs : request_of s' = request_of s → fits p t s gs → fits p t s' gs.
Proof.
  intros [= Ec _ Em _] [? ? Hm ? ?]. split; try done; [by rewrite Ec|].
  unfold mem_fits in *. by rewrite Em.
Qed.

(** Starting a job keeps the accounting. *)
Lemma launched_caps p d0 t fresh gs w r w' :
  loop_inv p d0 t w → request_of fresh = R fresh.(id) →
  (fresh.(scheduler_target) = None → fits p t fresh gs) → launched t fresh gs w r w' →
  ∀ t' sig, r = Ok (t', sig) → loop_inv p d0 t' w'.
Proof.
  intros Hi Hr Hfit (r0 & w1 & Hs & Hout). destruct Hs as [Hh _ _ _ Hq].
  assert (∃ t1, loop_inv p d0 t1 w1
            ∧ (r0 = Ok false → t1 = t)
            ∧ (r0 = Ok true → ∀ t', settled_tally t fresh gs true t' → loop_inv p d0 t' w1)) as (t1 & Hi1 & Hf & Ht).
  { destruct Hh as [Hh|(Hl & Hne & gs' & Hgs & Hh)].
    - exists t. assert (loop_inv p d0 t w1) by (by eapply loop_shrink). split_and!; [done..|].
      intros -> t' Ht'. unfold settled_tally in Ht'.
      destruct (is_remote fresh) eqn:Hrem; subst t'; [by eapply loop_tally; [..|done]|].
      apply negb_false_iff, bool_decide_eq_true in Hrem.
      eapply (loop_charge _ _ _ w1); [done|by apply Hfit|done|apply submseteq_nil_l|done|].
      by apply submseteq_cons.
    - exists (charge_local C t fresh gs). split_and!; [eapply loop_charge; eauto|congruence|].
      intros -> t' Ht'. unfold settled_tally, is_remote in Ht'. rewrite Hl in Ht'. simpl in Ht'.
      subst. eapply loop_charge; eauto. }
  intros t' sig ->. destruct r0 as [b|e]; [|by destruct Hout].
  destruct Hout as [Hrel [Hset _]].
  assert (∀ t', loop_inv p d0 t' w1 → loop_inv p d0 t' w') as Hto.
  { intros t0 Ht0. eapply loop_released, Hrel. eapply loop_shrink; [exact Ht0|done|done]. }
  apply Hto.
  destruct b; [by apply Ht|]. rewrite Hf in Hi1 by done.
  destruct Hset as [->|(_ & ids & ->)]; [done|by eapply loop_tally; [..|done]].
Qed.

Lemma visited_caps p d0 t s w r w' :
  loop_inv p d0 t w → request_of s = R s.(id) → visited p t s w r w' →
  ∀ t' sig, r = Ok (t', sig) → loop_inv p d0 t' w'.
Proof.
  intros Hi Hr [r' w'' Hf Hres _|gs fresh q w1 w2 r' w'' Ha Hf _ _ _ Hid Hreq Hann Hl].
  - assert (loop_inv p d0 t w'') by (by eapply loop_released, frame_released).
    destruct Hres as [->|[e ->]]; [by intros ? ? [= <- <-]|done].
  - destruct (announced_queue _ _ _ _ _ _ Hann) as (Eq & _ & Eh).
    assert (loop_inv p d0 t w1) as Hi1 by (by eapply loop_released, frame_released).
    eapply (launched_caps p d0 t fresh gs w2); [|congruence| |done].
    + eapply loop_shrink; [exact Hi1|rewrite Eq; apply Hi1|by rewrite Eh].
    + intros Ht. eapply fits_request; [exact Hreq|]. apply admit_fits; [done|].
      injection Hreq as _ _ _ Et. congruence.
Qed.

(** ** What the plan has read *)

(** A spec as some state of the queue the pass met had it. *)
Definition read_in (w : dworld) (s : JobSpec) : Prop :=
  ∃ q, q ∈ w.(dw_seen) ∧ q !! s.(id) = Some (Some s) ∧ request_of s = R s.(id).

Lemma read_in_frame w w' s : frame w w' → read_in w s → read_in w' s.
Proof.
  intros [_ _ [k Hk] _] (q & Hq & ?). exists q. split; [|done]. rewrite Hk. set_solver.
Qed.

Lemma wp_read name w :
  honest R w.(dw_queue) →
  wp (read_active_spec E.(e_queue) name)
    (λ r w', frame w w' ∧ honest R w'.(dw_queue)
             ∧ ∀ s, r = Ok s → s.(id) = name ∧ read_in w' s) w.
Proof.
  intros Hq. unfold wp, read_active_spec, access. simpl. set (q := q_interfere _ _ _).
  assert (honest R q) as Hq' by (by apply (eo_interfere HE)).
  split_and!; [by split; simpl; try done; eexists|done|].
  intros s Hs. unfold read_spec in Hs. destruct (q !! name) as [[s0|]|] eqn:Eq; simplify_eq.
  destruct (Hq' _ _ Eq) as [Hid Hr]. split; [done|]. exists q. rewrite Hid. simpl. set_solver.
Qed.

Lemma iter_specs_spec w :
  honest R w.(dw_queue) →
  wp (iter_specs E) (λ r w', frame w w' ∧ honest R w'.(dw_queue)
    ∧ ∀ specs settled, r = Ok (specs, settled) → ∀ s, s ∈ specs → read_in w' s) w.
Proof.
  intros Hq. apply wp_bind. eapply wp_mono; [|apply (framed_list R); apply HE].
  intros [names|e] w1 Hf; [|split_and!; [done|by apply Hf|done]].
  assert (honest R w1.(dw_queue)) as Hq1 by (by apply Hf).
  eapply wp_mono; [|apply (wp_foldM _ (λ acc w', frame w w' ∧ honest R w'.(dw_queue)
    ∧ ∀ s, s ∈ acc.1 → read_in w' s) (λ w', frame w w' ∧ honest R w'.(dw_queue)))].
  - intros [[specs settled]|e] w2 H2; [|naive_solver]. destruct H2 as (? & ? & Hs).
    split_and!; [done..|]. intros ? ? [= <- <-]. apply Hs.
  - intros [specs settled] name w2 _ (Hf2 & Hq2 & Hs). apply wp_catch, wp_bind.
    eapply wp_mono, wp_read; [|done]. intros r w3 (Hf3 & Hq3 & Hr3).
    assert (frame w w3) by (by etransitivity).
    assert (∀ s, s ∈ specs → read_in w3 s) by (intros; apply (read_in_frame w2); auto).
    destruct r as [s|e]; [|by apply wp_ret]. apply wp_ret. split; [done|]. split; [done|].
    destruct (settled_row name s); simpl; [done|].
    intros s' [?| ->%list_elem_of_singleton]%elem_of_app; [auto|by apply Hr3].
  - split_and!; [done..|]. set_solver.
Qed.

(** What the dependency index holds: rows the pass read, or dependents it
    has just failed. *)
Definition index_ok (w : dworld) (by_id : gmap string JobSpec) : Prop :=
  ∀ k s, by_id !! k = Some s → s.(id) = k ∧ (read_in w s ∨ s.(state) = FAILED).

Lemma index_specs_ok w specs : (∀ s, s ∈ specs → read_in w s) → index_ok w (index_specs specs).
Proof.
  intros Hs. unfold index_specs.
  assert (∀ m, index_ok w m → index_ok w (fold_left (λ m s, <[s.(id) := s]> m) specs m)) as Hfold.
  { induction specs as [|s specs IH]; intros m Hm; simpl; [done|]. apply IH; [set_solver|].
    intros k s'. destruct (decide (id s = k)) as [<-|].
    - rewrite lookup_insert_eq. intros [= <-]. split; [done|]. left. apply Hs. set_solver.
    - rewrite lookup_insert_ne by done. apply Hm. }
  apply Hfold. intros k s Hk. by rewrite lookup_empty in Hk.
Qed.

Lemma index_frame w w' m : frame w w' → index_ok w m → index_ok w' m.
Proof. intros Hf Hm k s Hk. destruct (Hm _ _ Hk) as [? []]; eauto using read_in_frame. Qed.

Lemma index_insert w m k s :
  index_ok w m → s.(id) = k → read_in w s ∨ s.(state) = FAILED → index_ok w (<[k := s]> m).
Proof.
  intros Hm Hk Hs k' s'. destruct (decide (k = k')) as [->|].
  - rewrite lookup_insert_eq. by intros [= <-].
  - rewrite lookup_insert_ne by done. apply Hm.
Qed.

Lemma resolve_spec settled specs by_id w :
  honest R w.(dw_queue) → index_ok w by_id →
  wp (resolve_settled_dependencies E settled specs by_id)
    (λ r w', frame w w' ∧ honest R w'.(dw_queue) ∧ ∀ m, r = Ok m → index_ok w' m) w.
Proof.
  intros Hq Hm. eapply wp_mono; [|apply (wp_foldM _ (λ m w', frame w w' ∧ honest R w'.(dw_queue) ∧ index_ok w' m)
    (λ w', frame w w' ∧ honest R w'.(dw_queue)))].
  - intros [m|e] w' H'; naive_solver.
  - intros m d w1 _ (Hf1 & Hq1 & Hm1). unfold resolve_one. case_bool_decide; [|by apply wp_ret].
    apply wp_catch, wp_bind. eapply wp_mono, wp_read; [|done]. intros r w2 (Hf2 & Hq2 & Hr2).
    assert (frame w w2) by (by etransitivity). assert (index_ok w2 m) by (by apply (index_frame w1)).
    destruct r as [s|e]; apply wp_ret; split_and!; try done.
    destruct (Hr2 s) as [Hid Hread]; [done|]. destruct (String.eqb_spec (id s) d); [|done].
    apply index_insert; auto.
  - done.
Qed.

Lemma wp_row {A} name (body : res daemon_error JobSpec → A * option JobSpec) w :
  honest R w.(dw_queue) → keeps_request (λ row, (body row).2) →
  wp (with_row E.(e_queue) name body)
    (λ r w', frame w w' ∧ honest R w'.(dw_queue)
             ∧ ∀ a, r = Ok a → ∃ q, honest R q ∧ a = (body (read_spec q name)).1) w.
Proof.
  intros Hq Hk. pose proof (framed_row R _ (eo_interfere HE) name body Hk w) as Hf.
  apply wp_intro. intros r w' Hr. apply (wp_elim _ _ _ _ _ Hf) in Hr as Hfr.
  split_and!; [done|by apply Hfr|]. intros a ->.
  exists (q_interfere (e_queue E) (dw_tick w) (dw_queue w)). split; [by apply (eo_interfere HE)|].
  unfold with_row, access in Hr. destruct (body _) as [a' [s|]]; simpl in *; [|congruence].
  destruct (q_write_fails _ _); congruence.
Qed.

Lemma cascade_spec s by_id w :
  honest R w.(dw_queue) → index_ok w by_id →
  wp (maybe_cascade_dependency_failure E s by_id)
    (λ r w', frame w w' ∧ honest R w'.(dw_queue)
       ∧ ∀ s' m, r = Ok (s', m) → (s' = s ∨ s'.(state) = FAILED) ∧ index_ok w' m) w.
Proof.
  intros Hq Hm. unfold maybe_cascade_dependency_failure.
  assert (∀ w' : dworld, frame w w' → honest R w'.(dw_queue) → ∀ s' m,
            Ok (E := daemon_error) (s, by_id) = Ok (s', m) → (s' = s ∨ s'.(state) = FAILED) ∧ index_ok w' m) as Hsame.
  { intros w' Hf _ ? ? [= <- <-]. split; [by left|by apply (index_frame w)]. }
  destruct (negb _); [by apply wp_ret; split_and!; [..|apply Hsame]|].
  destruct (failed_predecessor _ _) as [[p st]|]; [|by apply wp_ret; split_and!; [..|apply Hsame]].
  apply wp_bind. unfold wp at 1. cbn [ask fst snd]. set (w1 := MkDWorld _ _ _ _ _).
  assert (frame w w1) as Hf1 by (by split).
  apply wp_bind, wp_catch. eapply wp_mono, wp_row; [|done|].
  - intros r w2 (Hf2 & Hq2 & Hr2). assert (frame w w2) by (by etransitivity).
    destruct r as [[fresh|]|e]; cbn.
    + apply wp_ret. split_and!; [done..|]. intros ? ? [= <- <-]. split; [by right|].
      destruct (Hr2 (Some fresh)) as (q & Hhq & Eq); [done|].
      destruct (read_spec q (id s)) as [row|] eqn:Er; [|done]. simpl in Eq.
      destruct (negb _); [done|]. injection Eq as ->.
      apply index_insert; [by apply (index_frame w)| |by right].
      unfold read_spec in Er. destruct (q !! id s) as [[s0|]|] eqn:E0; simplify_eq.
      destruct (Hhq _ _ E0) as [Hid _]. exact Hid.
    + apply wp_ret. split_and!; [done..|by apply Hsame].
    + destruct (is_oserror e); cbn; [apply wp_ret; split_and!; [done..|by apply Hsame]|done].
  - intros [fresh|e] s'; simpl; [|done]. case_bool_decide; simpl; [|done]. intros [= <-]. by exists fresh.
Qed.

Lemma cascade_all_spec specs by_id w :
  honest R w.(dw_queue) → index_ok w by_id → (∀ s, s ∈ specs → read_in w s) →
  wp (foldM (cascade_one E) ([], by_id) specs)
    (λ r w', frame w w' ∧ honest R w'.(dw_queue)
       ∧ ∀ specs' m, r = Ok (specs', m) →
           index_ok w' m ∧ ∀ s, s ∈ specs' → read_in w' s ∨ s.(state) = FAILED) w.
Proof.
  intros Hq Hm Hs. eapply wp_mono; [|apply (wp_foldM _ (λ acc w', frame w w' ∧ honest R w'.(dw_queue)
      ∧ index_ok w' acc.2 ∧ ∀ s, s ∈ acc.1 → read_in w' s ∨ s.(state) = FAILED)
    (λ w', frame w w' ∧ honest R w'.(dw_queue)))].
  - intros [[specs' m]|e] w' H'; [|naive_solver]. destruct H' as (? & ? & ? & ?).
    split_and!; [done..|]. by intros ? ? [= <- <-].
  - intros [acc m] s w1 Hin (Hf1 & Hq1 & Hm1 & Ha1). apply wp_bind. simpl in *.
    eapply wp_mono, cascade_spec; [|done..]. intros r w2 (Hf2 & Hq2 & Hr2).
    assert (frame w w2) by (by etransitivity). destruct r as [[s' m']|e]; [|done].
    destruct (Hr2 s' m') as [Hs' Hm']; [done|]. apply wp_ret. split_and!; [done..|]. simpl.
    intros x [Hx| ->%list_elem_of_singleton]%elem_of_app.
    + destruct (Ha1 _ Hx); [left; by apply (read_in_frame w1)|by right].
    + destruct Hs' as [->|?]; [left; apply (read_in_frame w); auto|by right].
  - split_and!; [done..|]. set_solver.
Qed.

(** The plan a pass starts from. *)
Record planned (held : list string) (drain : option DrainState) (w : dworld)
    (p : pass) (t : tally) (pending : list JobSpec) : Prop := {
  pl_caps : pass_caps p = caps_of_drain C drain;
  pl_drain : p.(p_drain) = drain;
  pl_held : p.(p_admin_held) = held;
  pl_index : index_ok w p.(p_specs_by_id);
  pl_tally : ∃ d rs hosts n, same_tracking w.(dw_daemon) d ∧ t = initial_tally C d rs hosts
    ∧ E.(e_hosts) n = Some hosts;
  pl_read s : s ∈ pending → read_in w s;
  pl_eligible s : s ∈ pending → eligible p.(p_now) p.(p_specs_by_id) s = true;
  pl_now : ∃ n, p.(p_now) = E.(e_utcnow) n;
  pl_sorted : StronglySorted (λ a b, dispatch_leb a b = true) pending;
}.

Lemma plan_spec held drain w :
  honest R w.(dw_queue) →
  wp (plan C E held drain)
    (λ r w', frame w w' ∧ honest R w'.(dw_queue)
       ∧ ∀ p t pending, r = Ok (Some (p, t, pending)) → planned held drain w' p t pending) w.
Proof.
  intros Hq. unfold plan. apply wp_bind. unfold wp at 1. cbn [ask fst snd].
  set (w1 := MkDWorld _ _ _ _ _). set (now := e_utcnow E _). assert (frame w w1) as Hf1 by (by split).
  apply wp_bind. eapply wp_mono, iter_specs_spec; [|done]. intros [[specs settled]|e] w2 (Hf2 & Hq2 & Hr2);
    [|split_and!; [by etransitivity|done..]].
  specialize (Hr2 _ _ eq_refl). apply wp_bind. unfold wp at 1. cbn [update_daemon fst snd].
  set (w3 := MkDWorld _ _ _ _ _). assert (frame w w3) as Hf3 by (etransitivity; [by etransitivity|by split]).
  apply wp_bind. unfold wp at 1. cbn [get_daemon fst snd]. set (d := dw_daemon w3).
  apply wp_bind. eapply wp_mono, framed_reservations. intros [rs|e] w4 Hf4;
    [|split_and!; [by etransitivity|by apply Hf4|done]].
  apply wp_bind. unfold wp at 1. cbn [ask fst snd]. set (w5 := MkDWorld _ _ _ _ _).
  assert (frame w3 w5) as Hf5 by (etransitivity; [exact Hf4|by split]).
  assert (frame w w5) as Hf5' by (by etransitivity).
  destruct (e_hosts E _) as [hosts|] eqn:Ehosts; [|apply wp_throw; split_and!; [done|by apply Hf4|done]].
  assert (∀ s, s ∈ specs → read_in w5 s) as Hr5.
  { intros s Hs. apply (read_in_frame w3); [done|]. by apply Hr2. }
  apply wp_bind. eapply wp_mono, resolve_spec; [|by apply Hf4|by apply index_specs_ok].
  intros [m|e] w6 (Hf6 & Hq6 & Hm6); [|split_and!; [by etransitivity|done..]]. specialize (Hm6 _ eq_refl).
  apply wp_bind. eapply wp_mono, cascade_all_spec; [|done|done|intros; apply (read_in_frame w5); auto].
  intros [[specs' m']|e] w7 (Hf7 & Hq7 & Hr7); [|split_and!; [by repeat (etransitivity; [eassumption|])|done..]].
  destruct (Hr7 _ _ eq_refl) as [Hm7 Hs7]. assert (frame w5 w7) as Hf57 by (by etransitivity).
  set (pending := pending_of now m' specs').
  apply wp_bind. assert (framed (match pending with [] => ret false | next :: _ => maybe_refresh_before_run C E next specs' end)) as Hfr.
  { destruct pending; [apply framed_ret|apply framed_refresh]. }
  eapply wp_mono, Hfr. intros [hold|e] w8 Hf8; (assert (frame w5 w8) as Hf58 by (by etransitivity));
    (assert (frame w w8) by (by etransitivity)); [|split_and!; [done|by apply Hf8|done]].
  destruct hold; [apply wp_ret; split_and!; [done|by apply Hf8|done]|].
  apply wp_bind. unfold wp at 1. cbn [ask fst snd]. set (w9 := MkDWorld _ _ _ _ _).
  assert (frame w8 w9) as Hf9 by (by split). apply wp_ret.
  split_and!; [by etransitivity|by apply Hf8|]. intros p t pend [= <- <- <-]. split; simpl; try done.
  - unfold pass_caps. simpl. by destruct (caps_of_drain C drain).
  - apply (index_frame w8); [done|]. by apply (index_frame w7).
  - eexists d, rs, hosts, _. split; [|done]. destruct Hf5 as [Ht5 _ _ _], Hf58 as [Ht58 _ _ _].
    symmetry. etransitivity; [exact Ht5|exact Ht58].
  - intros s Hs. unfold pending, pending_of in Hs. apply elem_of_sort_by, elem_of_filterb in Hs as [Hs He].
    destruct (Hs7 _ Hs) as [Hr|Hst]; [apply (read_in_frame w8); [done|]; by apply (read_in_frame w7)|].
    unfold eligible in He. rewrite Hst in He. done.
  - intros s Hs. by apply elem_of_sort_by, elem_of_filterb in Hs as [_ He].
  - by eexists.
  - apply sort_by_sorted. unfold dispatch_leb. apply _.
Qed.

(** ** The loop *)

(** The rule of the whole loop: local specs first, then the scheduler pools. *)
Lemma dispatch_loop_rule (Inv : tally → dworld → Prop)
    (Fin : res daemon_error (tally * signal) → dworld → Prop) p t pending w :
  (∀ s, s ∈ pending → request_of s = R s.(id)) →
  (∀ t w, Inv t w → honest R w.(dw_queue)) →
  (∀ s t w r w', s ∈ pending → Inv t w → visited p t s w r w' →
     match r with Ok (t', Next) => Inv t' w' | _ => Fin r w' end) →
  Inv t w →
  wp (dispatch_loop C E p t pending)
    (λ r w', match r with Ok (t', Next) => Inv t' w' | _ => Fin r w' end) w.
Proof.
  intros Hreq Hq Hstep Hi. unfold dispatch_loop. apply wp_bind.
  eapply wp_mono; [|apply (visit_all_rule Inv Fin)]; [| | |intros s t' w' r w'' Hs; apply Hstep|done].
  - intros [[t' []]|e] w' Hw; [|by apply wp_ret|done]. apply wp_bind. unfold wp at 1. cbn [get_daemon fst snd].
    apply visit_all_rule; [| |intros s t1 w1 r w2 Hs; apply Hstep|done].
    + intros s Hs. apply Hreq. rewrite scheduler_order_perm in Hs. by apply elem_of_filterb in Hs as [? _].
    + done.
    + rewrite scheduler_order_perm in Hs. by apply elem_of_filterb in Hs as [? _].
  - intros s [Hs _]%elem_of_filterb. by apply Hreq.
  - done.
  - by apply elem_of_filterb in Hs as [? _].
Qed.

(** From a property of the loop of every plan to the whole pass; [Plan] is
    whatever else is known of the plans made from the queue as it was. *)
Lemma dispatch_pending_rule (Plan : pass → Prop) (Fin : bool → dworld → Prop) w :
  honest R w.(dw_queue) →
  (∀ held drain w', frame w w' → w'.(dw_queue) = w.(dw_queue) →
     wp (plan C E held drain) (λ r _, ∀ p t pending, r = Ok (Some (p, t, pending)) → Plan p) w') →
  (∀ ok w', frame w w' → Fin ok w') →
  (∀ n m l, let held := match E.(e_admin_marker) n with Some (Some sc) => sc | _ => [] end in
     let drain := E.(e_drain) m in
     E.(e_admin_marker) n ≠ Some None →
     match drain with Some d => is_full_drain d | None => false end = false →
     E.(e_host_pressure) l = false →
     ∀ p t pending w', frame w w' → honest R w'.(dw_queue) → planned held drain w' p t pending →
       Plan p → wp (dispatch_loop C E p t pending) (λ r w'', Fin (is_ok r) w'') w') →
  wp (dispatch_pending C E) (λ r w', Fin (is_ok r) w') w.
Proof.
  intros Hq Hplan Hquiet Hloop.
  assert (∀ n w1 held, frame w w1 → w1.(dw_queue) = w.(dw_queue) → E.(e_admin_marker) n ≠ Some None →
            held = match E.(e_admin_marker) n with Some (Some sc) => sc | _ => [] end →
            wp (dispatch_held C E held) (λ r w', Fin (is_ok r) w') w1) as Hheld.
  { intros n w1 held Hf1 Eq1 Hn Eh. unfold dispatch_held. apply wp_bind. unfold wp at 1. cbn [ask fst snd].
    set (w2 := MkDWorld _ _ _ _ _). assert (frame w w2) as Hf2 by (etransitivity; [exact Hf1|by split]).
    destruct (e_config_unusable _ _); [by apply wp_ret, Hquiet|].
    apply wp_bind. unfold wp at 1. cbn [ask fst snd]. set (w3 := MkDWorld _ _ _ _ _).
    assert (frame w w3) as Hf3 by (etransitivity; [exact Hf2|by split]). set (m := dw_tick w2).
    destruct (match e_drain E m with Some d => is_full_drain d | None => false end) eqn:Hfull;
      [by apply wp_ret, Hquiet|].
    apply wp_bind. unfold wp at 1. cbn [ask fst snd]. set (w4 := MkDWorld _ _ _ _ _).
    assert (frame w w4) as Hf4 by (etransitivity; [exact Hf3|by split]).
    destruct (e_host_pressure _ _) eqn:Hp; [by apply wp_ret, Hquiet|].
    apply wp_bind. eapply wp_mono, wp_and; [|apply plan_spec; by apply Hf4|by apply Hplan].
    intros r w5 [(Hf5 & Hq5 & Hr5) Hpl]. assert (frame w w5) as Hf5' by (by etransitivity).
    destruct r as [[[[p t] pending]|]|e]; [|by apply wp_ret, Hquiet|by apply Hquiet].
    apply wp_bind. eapply wp_mono, (Hloop n m (dw_tick w3)); [|done|done|done|done|done| |by eapply Hpl].
    - intros [x|e] w6 H6; [by apply wp_ret|done].
    - rewrite <- Eh. by apply Hr5. }
  unfold dispatch_pending. apply wp_bind. unfold wp at 1. cbn [update_daemon fst snd].
  apply wp_bind. unfold wp at 1, ask. cbn [fst snd].
  match goal with |- context [e_admin_marker E ?x] => destruct (e_admin_marker E x) as [[scope|]|] eqn:Em end;
    [eapply Hheld; [by split|done|by rewrite Em|by rewrite Em] |apply wp_ret, Hquiet; by split
    |eapply Hheld; [by split|done|by rewrite Em|by rewrite Em]].
Qed.

Lemma any_plan w' held drain :
  wp (plan C E held drain) (λ r _, ∀ p t pending, r = Ok (Some (p, t, pending)) → True) w'.
Proof. by apply wp_intro. Qed.
End safety.
