(* ===== verification/DispatchGuarantees.v ===== *)
(** * The guarantees of the dispatch pass

    The theorems about [_dispatch_pending] proved from [DispatchSafety.v],
    against the launcher's interface; [DaemonWitnesses.v] applies them to the
    launcher of [Launch.v]. *)

From S2P Require Import Prelude Spec Admission DaemonCore Dispatch DaemonLogic DispatchSafety.

Section guarantees.
Context (C : DaemonConfig) (E : DispatchEnv) (R : string → request) (HE : env_ok C E R).
Context {L : Launcher} {HL : LauncherOk R L}.

(** What the daemon knows of its local jobs is sane: non-negative charges,
    no device held twice. *)
Definition tracked_ok (d : Daemon) : Prop :=
  (∀ ch, ch ∈ holders d → 0 <= ch.(ch_cpus) ∧ 0 <= mem_charge C ch.(ch_mem_mb))
  ∧ NoDup (busy_gpu_devices d).

Lemma planned_loop_inv held drain w p t pending d0 :
  honest R w.(dw_queue) → planned C E R held drain w p t pending →
  holders w.(dw_daemon) = holders d0 → tracked_ok d0 → loop_inv C R p d0 t w.
Proof.
  intros Hq Hp Hh [Hpos Hnd]. destruct (pl_tally _ _ _ _ _ _ _ _ _ Hp) as (d & rs & hosts & _ & Hd & -> & _).
  assert (holders d = holders w.(dw_daemon)) as Ed.
  { destruct Hd. unfold holders. congruence. }
  assert (local_active d = local_active w.(dw_daemon) ∧ local_active d = local_active d0) as [El El0].
  { rewrite !local_active_length. by rewrite Ed, Hh. }
  unfold initial_tally. split; simpl; rewrite ?El; unfold used_cpus, used_mem, busy_gpu_devices in *;
    rewrite ?Ed, ?Hh; try done; try lia.
  - unfold below. case_match; [|done]. lia.
  - unfold below. case_match; [|done]. lia.
  - intros g Hg. by left.
Qed.


(** *** The history of a pass *)

Definition last_attempts (w : dworld) : gmap string Z :=
  w.(dw_daemon).(scheduler_submit_last_attempt).

Definition started_events (fresh : JobSpec) (b : bool) : list event :=
  if b then [Started fresh] else [].

(** A visit that called the launcher: [b] says whether it returned True. *)
Record tried (p : pass) (t : tally) (s : JobSpec) (w : dworld)
    (r : res daemon_error (tally * signal)) (w' : dworld) (a : attempt) (b : bool) : Prop := {
  tr_trace : w'.(dw_trace) = w.(dw_trace) ++ Attempted a :: started_events a.(at_fresh) b;
  tr_spec : a.(at_spec) = s;
  tr_admit : admission_gate C p t s = Admit a.(at_gpus);
  tr_pending : a.(at_fresh).(state) = PENDING;
  tr_same : a.(at_fresh).(id) = s.(id) ∧ request_of a.(at_fresh) = request_of s;
  tr_read : read_in R w' a.(at_fresh);
  tr_pace : match a.(at_fresh).(scheduler_target) with
            | None => a.(at_time) = None ∧ a.(at_pool) = None ∧ last_attempts w' = last_attempts w
            | Some target =>
              ∃ now, a.(at_time) = Some now ∧ a.(at_pool) = Some (canonical t.(t_admission) target)
                ∧ can_attempt t.(t_admission) (last_attempts w) target now = true
                ∧ last_attempts w' = attempted t.(t_admission) (last_attempts w) target now
            end;
  tr_out : match r with
           | Ok (t', sig) => settled_tally C t a.(at_fresh) a.(at_gpus) b t' ∧ signalled a.(at_fresh) b sig
           | Err _ => True
           end;
}.

(** A visit that did not. *)
Record passed (p : pass) (t : tally) (s : JobSpec) (w : dworld)
    (r : res daemon_error (tally * signal)) (w' : dworld) : Prop := {
  ps_trace : w'.(dw_trace) = w.(dw_trace);
  ps_last : last_attempts w' = last_attempts w;
  ps_out : r = Ok (t, Next) ∨ ∃ e, r = Err e;
  ps_why gs : admission_gate C p t s = Admit gs → withdrawn w' s ∨ is_remote s = true;
}.

Lemma read_in_seen w w' s :
  w.(dw_seen) `prefix_of` w'.(dw_seen) → read_in R w s → read_in R w' s.
Proof. intros [k Hk] (q & Hq & ?). exists q. split; [|done]. rewrite Hk. set_solver. Qed.

Lemma visited_history p t s w r w' :
  honest R w.(dw_queue) → request_of s = R s.(id) → visited C R p t s w r w' →
  honest R w'.(dw_queue) ∧ w.(dw_seen) `prefix_of` w'.(dw_seen)
  ∧ (passed p t s w r w' ∨ ∃ a b, tried p t s w r w' a b).
Proof.
  intros Hq Hr [r' w'' Hf Hres Hwhy|gs fresh q w1 w2 r' w'' Ha Hf Hseen Hread Hpend Hid Hreq Hann Hl].
  - split_and!; [by apply Hf|apply Hf|]. left. destruct Hf as [[] ? ? ?]. by split.
  - destruct (announced_queue _ _ _ _ _ _ Hann) as (Eq & Es & _).
    destruct Hl as (r0 & w3 & [_ Hlast Htr Hsn Hhon] & Hout).
    assert (read_in R w1 fresh) as Hri.
    { exists q. split; [done|]. unfold read_spec in Hread. destruct (q !! id s) as [[s0|]|] eqn:E0; [|done..].
      injection Hread as ->. rewrite Hid. split; congruence. }
    assert (∃ b, honest R w''.(dw_queue) ∧ w3.(dw_seen) `prefix_of` w''.(dw_seen)
              ∧ last_attempts w'' = last_attempts w3
              ∧ w''.(dw_trace) = w3.(dw_trace) ++ started_events fresh b
              ∧ match r' with
                | Ok (t', sig) => settled_tally C t fresh gs b t' ∧ signalled fresh b sig
                | Err _ => True
                end) as (b & Hh & Hp & Hla & Ht & Ho).
    { destruct r0 as [b|e]; [|destruct Hout as [-> ->]; exists false; by rewrite app_nil_r].
      destruct Hout as [[_ H2 H3 H4 H5] Ho]. exists b. split_and!; try done. by apply H5. }
    assert (w1.(dw_seen) `prefix_of` w''.(dw_seen)) by (rewrite <- Es; by etransitivity).
    split_and!; [done|etransitivity; [apply Hf|done]|]. right.
    assert (last_attempts w1 = last_attempts w) as El1 by (by destruct Hf as [[] ? ? ?]).
    assert (dw_trace w1 = dw_trace w) as Et1 by apply Hf.
    unfold announced in Hann. destruct (scheduler_target fresh) as [target|] eqn:Etgt.
    + destruct Hann as (now & Hcan & ->). eexists (MkAttempt _ _ _ _ _), b. split; simpl; try done.
      * rewrite Ht, Htr. simpl. by rewrite Et1, <- (assoc_L (++)).
      * by apply (read_in_seen w1).
      * rewrite Etgt. exists now. split_and!; [done|done|by rewrite <- El1|].
        rewrite Hla. unfold last_attempts at 1. rewrite Hlast. by rewrite <- El1.
    + subst w2. eexists (MkAttempt _ _ _ _ _), b. split; simpl; try done.
      * rewrite Ht, Htr. simpl. by rewrite Et1, <- (assoc_L (++)).
      * by apply (read_in_seen w1).
      * rewrite Etgt. split_and!; [done|done|]. rewrite Hla. unfold last_attempts at 1. by rewrite Hlast.
Qed.

(** The history of the loop, from what each visit adds: [Inv] while it runs,
    [Fin] once a visit ends it. *)
Lemma loop_history (Inv : tally → list event → dworld → Prop) (Fin : list event → dworld → Prop)
    held drain w0 p t pending :
  honest R w0.(dw_queue) → planned C E R held drain w0 p t pending → Inv t [] w0 →
  (∀ s t w es r w', s ∈ pending → w0.(dw_seen) `prefix_of` w.(dw_seen) → Inv t es w →
     w.(dw_seen) `prefix_of` w'.(dw_seen) → passed p t s w r w' →
     match r with Ok (t', Next) => Inv t' es w' | _ => Fin es w' end) →
  (∀ s t w es r w' a b, s ∈ pending → w0.(dw_seen) `prefix_of` w.(dw_seen) → Inv t es w →
     w.(dw_seen) `prefix_of` w'.(dw_seen) → tried p t s w r w' a b →
     let es' := es ++ Attempted a :: started_events a.(at_fresh) b in
     match r with Ok (t', Next) => Inv t' es' w' | _ => Fin es' w' end) →
  wp (dispatch_loop C E p t pending)
    (λ _ w', ∃ es, w'.(dw_trace) = w0.(dw_trace) ++ es ∧ ((∃ t', Inv t' es w') ∨ Fin es w')) w0.
Proof.
  intros Hq Hp Hi Hpass Htry.
  assert (∀ s, s ∈ pending → request_of s = R s.(id)) as Hreq.
  { intros s Hs. by destruct (pl_read _ _ _ _ _ _ _ _ _ Hp s Hs) as (? & _ & _ & ?). }
  set (I := λ (t : tally) w', honest R w'.(dw_queue) ∧ w0.(dw_seen) `prefix_of` w'.(dw_seen)
    ∧ ∃ es, w'.(dw_trace) = w0.(dw_trace) ++ es ∧ Inv t es w').
  set (F := λ w', ∃ es, w'.(dw_trace) = w0.(dw_trace) ++ es ∧ Fin es w').
  eapply wp_mono; [|apply (dispatch_loop_rule C E R HE I (λ _, F))].
  - intros [[t' []]|e] w' Hw; [destruct Hw as (_ & _ & es & ? & ?)|destruct Hw as (es & ? & ?)..]; eauto.
  - done.
  - by intros ? ? [].
  - intros s t1 w r w' Hs (Hqw & Hsw & es & Htr & Hes) Hv.
    apply visited_history in Hv as (Hq' & Hs' & [Hv|(a & b & Hv)]); [| |done|by apply Hreq].
    + pose proof (Hpass _ _ _ _ _ _ Hs Hsw Hes Hs' Hv) as Hn. assert (dw_trace w' = dw_trace w0 ++ es).
      { rewrite <- Htr. apply Hv. }
      destruct r as [[t' []]|e]; [|by exists es..]. split_and!; [done|by etransitivity|eauto].
    + pose proof (Htry _ _ _ _ _ _ _ _ Hs Hsw Hes Hs' Hv) as Hn.
      set (es' := es ++ Attempted a :: started_events a.(at_fresh) b) in *.
      assert (dw_trace w' = dw_trace w0 ++ es').
      { rewrite (tr_trace _ _ _ _ _ _ _ _ Hv), Htr. unfold es'. by rewrite <- (assoc_L (++)). }
      destruct r as [[t' []]|e]; [|by exists es'..]. split_and!; [done|by etransitivity|eauto].
  - split_and!; [done|done|]. exists []. by rewrite app_nil_r.
Qed.

(** *** Gates *)

(** What a launch may rely on, from what the pass had read by the end. *)
Record gated (held : list string) (drain : option DrainState) (w : dworld) (a : attempt) : Prop := {
  ga_pending : a.(at_fresh).(state) = PENDING ∧ a.(at_spec).(state) = PENDING;
  ga_same : a.(at_fresh).(id) = a.(at_spec).(id) ∧ request_of a.(at_fresh) = request_of a.(at_spec);
  ga_read : read_in R w a.(at_spec) ∧ read_in R w a.(at_fresh);
  ga_backoff : ∃ n, not_before_ready a.(at_spec).(not_before) (E.(e_utcnow) n) = true;
  ga_deps d : d ∈ a.(at_spec).(depends_on) →
    ∃ s, s.(id) = d ∧ s.(state) = COMPLETED ∧ read_in R w s;
  ga_deps_any d : d ∈ a.(at_spec).(depends_on_any) →
    ∃ s, s.(id) = d ∧ is_terminal s = true ∧ (read_in R w s ∨ s.(state) = FAILED);
  ga_refresh : a.(at_spec).(refresh_before) = None;
  ga_admin : held_by_admin_update held a.(at_spec) = false;
  ga_drain : match drain with
             | Some d => is_full_drain d = false ∧ drains_scheduler_target d a.(at_spec).(scheduler_target) = false
             | None => True
             end;
}.

Lemma gated_later held drain w w' a :
  (∀ s, read_in R w s → read_in R w' s) → gated held drain w a → gated held drain w' a.
Proof.
  intros Hr []. split; try done; [naive_solver| |].
  - intros d Hd. destruct (ga_deps0 d Hd) as (s & ? & ? & ?). eauto.
  - intros d Hd. destruct (ga_deps_any0 d Hd) as (s & ? & ? & [?|?]); eauto 6.
Qed.

Lemma admit_gates p t s gs :
  admission_gate C p t s = Admit gs →
  s.(refresh_before) = None ∧ held_by_admin_update p.(p_admin_held) s = false
  ∧ blocked_by_running_build p.(p_build_envs) p.(p_build_ids) s = false
  ∧ match p.(p_drain) with
    | Some d => drains_scheduler_target d s.(scheduler_target) = false
    | None => True
    end.
Proof.
  unfold admission_gate. destruct (blocked_by_running_build _ _ _); [done|].
  destruct (held_by_admin_update _ _); [done|]. case_bool_decide; simpl; [|done].
  case_bool_decide as Hl; intros Ha; split_and!; try done.
  - rewrite Hl. by destruct (p_drain p).
  - unfold scheduler_gate in Ha. destruct (p_drain p) as [d|]; [|done].
    by destruct (drains_scheduler_target _ _).
Qed.

Definition scope_of (marker : option (option (list string))) : list string :=
  match marker with Some (Some sc) => sc | _ => [] end.

Lemma planned_gated held drain w0 p t0 pending s t w r w' a b :
  planned C E R held drain w0 p t0 pending → w0.(dw_seen) `prefix_of` w'.(dw_seen) →
  match drain with Some d => is_full_drain d = false | None => True end →
  s ∈ pending → tried p t s w r w' a b → gated held drain w' a.
Proof.
  intros Hp Hseen Hfull Hs Ht. pose proof (read_in_seen w0 w') as Hlater.
  destruct (pl_now _ _ _ _ _ _ _ _ _ Hp) as [n Hn].
  pose proof (pl_eligible _ _ _ _ _ _ _ _ _ Hp s Hs) as He. pose proof (pl_read _ _ _ _ _ _ _ _ _ Hp s Hs) as Hr.
  destruct Hp as [_ Hdr Hhe Hix _ _ _ _ _]. unfold eligible in He.
  apply andb_true_iff in He as [[Hst Hnb]%andb_true_iff Hun].
  apply bool_decide_eq_true in Hst, Hun. apply unmet_nil in Hun as [Hd1 Hd2].
  destruct Ht as [_ <- Ha Hpend [Hid Hreq] Hrf _ _].
  destruct (admit_gates _ _ _ _ Ha) as (Hrefresh & Hadm & _ & Hdrain). rewrite Hhe, Hdr in *.
  split; try done.
  - split; [auto|done].
  - exists n. by rewrite <- Hn.
  - intros d Hd. destruct (Hd1 d Hd) as (pr & Hpr & Hc). destruct (Hix _ _ Hpr) as [Hi [?|Hf]]; [eauto|congruence].
  - intros d Hd. destruct (Hd2 d Hd) as (pr & Hpr & Hc). destruct (Hix _ _ Hpr) as [Hi [?|Hf]]; eauto 6.
  - destruct drain; done.
Qed.

Lemma attempts_gated marker drain w r w' :
  (∀ n, E.(e_admin_marker) n = marker) → (∀ n, E.(e_drain) n = drain) → honest R w.(dw_queue) →
  dispatch_pending C E w = (r, w') →
  ∃ es, w'.(dw_trace) = w.(dw_trace) ++ es
    ∧ (marker = Some None ∨ (∃ d, drain = Some d ∧ is_full_drain d = true)
       ∨ (∀ n, E.(e_host_pressure) n = true) → es = [])
    ∧ ∀ a, Attempted a ∈ es → gated (scope_of marker) drain w' a.
Proof.
  intros Hm Hd Hq Hrun. set (hold := _ ∨ _ ∨ _).
  set (Fin := λ w' : dworld, ∃ es, w'.(dw_trace) = w.(dw_trace) ++ es ∧ (hold → es = [])
    ∧ ∀ a, Attempted a ∈ es → gated (scope_of marker) drain w' a).
  refine (wp_elim _ (λ _ w', Fin w') w r w' _ Hrun).
  apply (dispatch_pending_rule C E R HE (λ _, True) (λ _, Fin)); [done|intros; apply any_plan| |].
  { intros _ w1 Hf. exists []. rewrite app_nil_r. split_and!; [apply Hf|done|set_solver]. }
  intros n m l held dr Hmark Hfull Hpress p t pending w1 Hf Hq1 Hp _.
  unfold held, dr in *. rewrite Hm, Hd in *. clear held dr.
  assert (¬ hold) as Hnh.
  { intros [->|[(d & -> & Hfd)|Hpr]]; [done| |]; [congruence|]. specialize (Hpr l). congruence. }
  eapply wp_mono; [|apply (loop_history (λ _ es w', ∀ a, Attempted a ∈ es → gated (scope_of marker) drain w' a)
    (λ es w', ∀ a, Attempted a ∈ es → gated (scope_of marker) drain w' a) _ _ _ _ _ _ Hq1 Hp)].
  - intros r1 w2 (es & Htr & Hes). exists es. split_and!; [|by intros ?|by destruct Hes as [[_ ?]|?]].
    rewrite Htr. f_equal. apply Hf.
  - set_solver.
  - intros s t1 w2 es r1 w3 Hs _ Hes Hseen Hv. assert (∀ a, Attempted a ∈ es → gated (scope_of marker) drain w3 a).
    { intros a Ha. eapply gated_later, Hes, Ha. intros; by apply (read_in_seen w2). }
    by destruct r1 as [[? []]|].
  - intros s t1 w2 es r1 w3 a b Hs Hw0 Hes Hseen Hv.
    assert (∀ a', Attempted a' ∈ es ++ Attempted a :: started_events a.(at_fresh) b →
              gated (scope_of marker) drain w3 a'); [|by destruct r1 as [[? []]|]].
    intros a' [Ha|[[= ->]|Hst]%elem_of_cons]%elem_of_app.
    + eapply gated_later, Hes, Ha. intros; by apply (read_in_seen w2).
    + eapply planned_gated; [exact Hp|by etransitivity| |exact Hs|exact Hv]. by destruct drain.
    + unfold started_events in Hst. destruct b; set_solver.
Qed.


(** *** Scheduler submissions *)

(** The starts of one pool among a list of events. *)
Definition pool_starts (A : SchedulerTargetAdmission) (c : string) (es : list event) : Z :=
  Z.of_nat (length (List.filter
    (λ e, match e with Started f => bool_decide (pool A f = Some c) | Attempted _ => false end) es)).

Definition same_budget (A a : SchedulerTargetAdmission) : Prop :=
  a.(canonical_map) = A.(canonical_map) ∧ a.(caps) = A.(caps) ∧ a.(intervals) = A.(intervals).

Definition interval_of (A : SchedulerTargetAdmission) (c : string) : Z := default 0 (A.(intervals) !! c).

(** Two attempts of one pool, in this order. *)
Definition spaced (A : SchedulerTargetAdmission) (x y : attempt) : Prop :=
  ∀ c tx ty, x.(at_pool) = Some c → y.(at_pool) = Some c → x.(at_time) = Some tx →
    y.(at_time) = Some ty → interval_of A c <= ty - tx.

Definition attempts (es : list event) : list attempt :=
  omap (λ e, match e with Attempted a => Some a | Started _ => None end) es.

Record paced (A : SchedulerTargetAdmission) (last0 : gmap string Z) (base : string → Z)
    (t : tally) (es : list event) (last : gmap string Z) : Prop := {
  pc_budget : same_budget A t.(t_admission);
  pc_last0 c prev : last0 !! c = Some prev → ∃ l, last !! c = Some l ∧ prev <= l;
  pc_last x c tx : x ∈ attempts es → x.(at_pool) = Some c → x.(at_time) = Some tx →
    ∃ l, last !! c = Some l ∧ tx <= l;
  pc_first x c tx prev : x ∈ attempts es → x.(at_pool) = Some c → x.(at_time) = Some tx →
    last0 !! c = Some prev → interval_of A c <= tx - prev;
  pc_spaced : StronglySorted (spaced A) (attempts es);
  pc_count c : base c + pool_starts A c es <= count_active t.(t_admission) (Some c);
  pc_none : 0 <= count_active t.(t_admission) None;
  pc_cap c cap : A.(caps) !! c = Some cap → 0 < pool_starts A c es → base c + pool_starts A c es <= cap;
}.

(** What stays true once the tally no longer matters. *)
Definition paced_end A last0 base es last : Prop := ∃ t, paced A last0 base t es last.

Lemma attempts_app es1 es2 : attempts (es1 ++ es2) = attempts es1 ++ attempts es2.
Proof. apply omap_app. Qed.

Lemma pool_starts_app A c es1 es2 : pool_starts A c (es1 ++ es2) = pool_starts A c es1 + pool_starts A c es2.
Proof. unfold pool_starts. rewrite List.filter_app, length_app. lia. Qed.

Lemma pool_starts_nonneg A c es : 0 <= pool_starts A c es.
Proof. unfold pool_starts. lia. Qed.

Lemma same_budget_pool A a s : same_budget A a → pool A s = pool a s.
Proof. intros (Hc & _). unfold pool, canonical. by rewrite Hc. Qed.

Lemma same_budget_reserve A a k : same_budget A a → same_budget A (reserve_target a k).
Proof. intros (? & ? & ?). by split_and!. Qed.

Lemma count_reserve a s k :
  count_active (reserve_target a s.(scheduler_target)) k
  = count_active a k + (if decide (pool a s = k) then 1 else 0).
Proof. unfold count_active, reserve_target. cbn [active]. by rewrite counter_add_lookup. Qed.

(** An attempt allowed by the gate is late enough and below its cap. *)
Lemma can_attempt_bounds A a last target now c :
  same_budget A a → c = canonical a target → can_attempt a last target now = true →
  (∀ cap, A.(caps) !! c = Some cap → count_active a (Some c) + count_active a None < cap)
  ∧ (∀ l, last !! c = Some l → interval_of A c <= now - l).
Proof.
  intros (_ & Hc & Hi) -> Hcan. unfold can_attempt in Hcan. unfold interval_of. rewrite Hc, Hi in *.
  split.
  - intros cap Hcap. rewrite Hcap in Hcan. destruct (Z.leb_spec cap
      (count_active a (Some (canonical a target)) + count_active a None)); [done|lia].
  - intros l Hl. rewrite Hl in Hcan. case_match; [done|]. by apply Z.leb_le.
Qed.

Lemma settled_counts A t fresh gs b t' :
  same_budget A t.(t_admission) → settled_tally C t fresh gs b t' →
  same_budget A t'.(t_admission)
  ∧ (∀ c, count_active t.(t_admission) (Some c) + pool_starts A c (started_events fresh b)
          <= count_active t'.(t_admission) (Some c))
  ∧ count_active t.(t_admission) None <= count_active t'.(t_admission) None.
Proof.
  intros Hb Hs. pose proof (same_budget_pool _ _ fresh Hb) as Hpool.
  assert (∀ ids, let t1 := charge_scheduler t fresh.(scheduler_target) ids in
    same_budget A t1.(t_admission)
    ∧ (∀ c x, pool_starts A c (started_events fresh x) <= if decide (pool (t_admission t) fresh = Some c) then 1 else 0)
    ∧ (∀ k, count_active t1.(t_admission) k = count_active t.(t_admission) k
             + (if decide (pool (t_admission t) fresh = k) then 1 else 0))) as Hch.
  { intros ids. simpl. split_and!; [by apply same_budget_reserve| |intros; apply count_reserve].
    intros c x. destruct x; [|unfold pool_starts; simpl; case_decide; lia].
    unfold pool_starts, started_events; simpl. rewrite Hpool. case_bool_decide; case_decide; done. }
  assert (∀ ids, let t1 := charge_scheduler t fresh.(scheduler_target) ids in
    same_budget A t1.(t_admission)
    ∧ (∀ c x, count_active t.(t_admission) (Some c) + pool_starts A c (started_events fresh x)
            <= count_active t1.(t_admission) (Some c))
    ∧ count_active t.(t_admission) None <= count_active t1.(t_admission) None) as Hch'.
  { intros ids t1. destruct (Hch ids) as (? & Hx & Hk). fold t1 in Hk. split_and!; [done| |].
    - intros c x. rewrite Hk. specialize (Hx c x). lia.
    - rewrite Hk. case_decide; lia. }
  unfold settled_tally in Hs. destruct b.
  - destruct (is_remote fresh) eqn:Hr; subst t'.
    { destruct (Hch' (t_untracked t)) as (? & Hc & ?). split_and!; [done|intros c; apply (Hc c true)|done]. }
    split_and!; [done| |done]. intros c. unfold pool_starts, started_events. simpl.
    rewrite bool_decide_eq_false_2; [simpl; lia|]. unfold pool.
    apply negb_false_iff, bool_decide_eq_true in Hr. by rewrite Hr.
  - destruct Hs as [->|(_ & ids & ->)].
    + split_and!; [done| |done]. intros c. unfold pool_starts. simpl. lia.
    + destruct (Hch' ids) as (? & Hc & ?). split_and!; [done|intros c; apply (Hc c false)|done].
Qed.

Lemma paced_try A last0 base p t s w es r w' a b t' :
  (∀ c, 0 <= interval_of A c) → paced A last0 base t es (last_attempts w) →
  tried p t s w r w' a b → settled_tally C t a.(at_fresh) a.(at_gpus) b t' →
  paced A last0 base t' (es ++ Attempted a :: started_events a.(at_fresh) b) (last_attempts w').
Proof.
  intros Hnn [Hb H0 Hl Hfst Hsp Hcnt Hnone Hcap] Ht Hset. pose proof (tr_pace _ _ _ _ _ _ _ _ Ht) as Hpace.
  destruct (settled_counts _ _ _ _ _ _ Hb Hset) as (Hb' & Hcnt' & Hnone').
  assert (attempts (es ++ Attempted a :: started_events (at_fresh a) b) = attempts es ++ [a]) as Ea.
  { rewrite attempts_app. unfold attempts at 2. csimpl. f_equal. by destruct b. }
  assert (∀ c, pool_starts A c (es ++ Attempted a :: started_events (at_fresh a) b)
               = pool_starts A c es + pool_starts A c (started_events (at_fresh a) b)) as Eps.
  { intros c. by rewrite pool_starts_app. }
  assert ((at_pool a = None ∧ last_attempts w' = last_attempts w ∧ ∀ c, pool_starts A c (started_events (at_fresh a) b) = 0)
    ∨ ∃ c now, at_pool a = Some c ∧ at_time a = Some now ∧ last_attempts w' = <[c := now]> (last_attempts w)
       ∧ (∀ cap, caps A !! c = Some cap → count_active (t_admission t) (Some c) + count_active (t_admission t) None < cap)
       ∧ (∀ l, last_attempts w !! c = Some l → interval_of A c <= now - l)
       ∧ ∀ c', pool_starts A c' (started_events (at_fresh a) b) <= if decide (c' = c) then 1 else 0) as Hcase.
  { pose proof (same_budget_pool _ _ (at_fresh a) Hb) as Hpool. unfold pool at 2 in Hpool.
    destruct (scheduler_target (at_fresh a)) as [target|] eqn:Et; simpl in Hpool.
    - right. destruct Hpace as (now & Htm & Hpl & Hcan & Hla).
      destruct (can_attempt_bounds A _ _ _ _ _ Hb eq_refl Hcan) as [? ?].
      exists (canonical (t_admission t) target), now. split_and!; try done.
      intros c'. unfold pool_starts, started_events. destruct b; simpl; [|case_decide; lia].
      rewrite Hpool. case_bool_decide; case_decide; simpl; congruence || lia.
    - left. destruct Hpace as (_ & ? & ?). split_and!; try done. intros c.
      unfold pool_starts, started_events. destruct b; simpl; [|done]. by rewrite Hpool. }
  destruct Hcase as [(Hpl & Hla & Hz)|(c & now & Hpl & Htm & Hla & Hcp & Hint & Hst)]; rewrite Hla.
  - split; rewrite ?Ea; try done; try lia.
    + intros x c tx [?| ->%list_elem_of_singleton]%elem_of_app; [by apply Hl|congruence].
    + intros x c tx prev [?| ->%list_elem_of_singleton]%elem_of_app; [by apply Hfst|congruence].
    + apply StronglySorted_app. split_and!; [|done|by repeat constructor].
      intros x y _ ->%list_elem_of_singleton c tx ty _ Hc. congruence.
    + intros c. rewrite Eps, Hz. specialize (Hcnt c). specialize (Hcnt' c). rewrite Hz in Hcnt'. lia.
    + intros c cap. rewrite Eps, Hz, Z.add_0_r. apply Hcap.
  - assert (∀ x, (∃ l, last_attempts w !! c = Some l ∧ x <= l) → x <= now ∧ interval_of A c <= now - x) as Hnow.
    { intros x (l & Hl' & ?). specialize (Hint _ Hl'). specialize (Hnn c). lia. }
    assert (∀ c' x, (∃ l, last_attempts w !! c' = Some l ∧ x <= l) →
              ∃ l, <[c := now]> (last_attempts w) !! c' = Some l ∧ x <= l) as Hins.
    { intros c' x Hx. destruct (decide (c = c')) as [<-|].
      - rewrite lookup_insert_eq. exists now. split; [done|]. by apply Hnow.
      - by rewrite lookup_insert_ne. }
    split; rewrite ?Ea; try done; try lia.
    + intros c' prev Hp. by apply Hins, H0.
    + intros x c' tx [?| ->%list_elem_of_singleton]%elem_of_app Hc Htx.
      * apply Hins. by eapply Hl.
      * simplify_eq. rewrite lookup_insert_eq. eauto with lia.
    + intros x c' tx prev [?| ->%list_elem_of_singleton]%elem_of_app Hc Htx Hp; [by eapply Hfst|].
      simplify_eq. apply Hnow, H0, Hp.
    + apply StronglySorted_app. split_and!; [|done|by repeat constructor].
      intros x y Hx ->%list_elem_of_singleton c' tx ty Hxc Hyc Hxt Hyt. simplify_eq.
      apply Hnow. by eapply Hl.
    + intros c'. rewrite Eps. specialize (Hcnt c'). specialize (Hcnt' c'). lia.
    + intros c' cap Hcc. rewrite Eps. intros Hpos. specialize (Hst c'). specialize (Hcnt c').
      destruct (decide (c' = c)) as [->|]; [|apply (Hcap c') in Hcc; lia].
      specialize (Hcp _ Hcc). lia.
Qed.

(** What the tracked scheduler jobs of a daemon hold on one pool. *)
Definition tracked_on (A : SchedulerTargetAdmission) (d : Daemon) (c : string) : Z :=
  reserved_on A.(canonical_map) (scheduler_reservations d []) (Some c).

Lemma interval_of_alias hosts c x :
  interval_of (new_admission hosts []) c <= x
  ↔ 0 <= x ∧ ∀ n h, (n, h) ∈ hosts → canonical (new_admission hosts []) n = c →
      h.(scheduler_submit_interval) <= x.
Proof.
  unfold interval_of.
  pose proof (intervals_fold (new_admission hosts []).(canonical_map) hosts ∅ c x) as Hi.
  rewrite lookup_empty in Hi. exact Hi.
Qed.

Lemma cap_of_alias hosts c n h cap :
  (n, h) ∈ hosts → canonical (new_admission hosts []) n = c → h.(scheduler_max_jobs) = Some cap →
  ∃ cap', (new_admission hosts []).(caps) !! c = Some cap' ∧ cap' <= cap.
Proof.
  intros Hin Hc Hm. apply (caps_fold (new_admission hosts []).(canonical_map) hosts ∅ c cap).
  right. exists n, h, cap. done.
Qed.

Lemma reserved_nonneg cm rs k : (∀ x, x ∈ rs → 0 <= x.2) → 0 <= reserved_on cm rs k.
Proof. intros Hr. apply sumZ_nonneg. intros x Hx. case_decide; [by apply Hr|lia]. Qed.

Lemma paced_initial hosts d0 d rs last :
  same_tracking d0 d →
  paced (new_admission hosts []) last (tracked_on (new_admission hosts []) d0)
    (initial_tally C d rs hosts) [] last.
Proof.
  intros Hd. set (A := new_admission hosts []).
  assert (∀ k, count_active (t_admission (initial_tally C d rs hosts)) k
            = reserved_on A.(canonical_map) (scheduler_reservations d rs) k) as Hc.
  { intros k. unfold count_active, initial_tally, new_admission. cbn [t_admission active].
    rewrite active_fold, lookup_empty. done. }
  assert (scheduler_reservations d0 [] = scheduler_reservations d []) as Ed.
  { unfold scheduler_reservations. by rewrite (st_scheduler _ _ Hd). }
  assert (∀ k, 0 <= reserved_on A.(canonical_map) (map (λ s, (s.(scheduler_target), 1)) rs) k) as Hrs.
  { intros k. apply reserved_nonneg. by intros x (s & -> & _)%list_elem_of_fmap. }
  assert (∀ k, reserved_on A.(canonical_map) (scheduler_reservations d rs) k
            = reserved_on A.(canonical_map) (scheduler_reservations d []) k
              + reserved_on A.(canonical_map) (map (λ s, (s.(scheduler_target), 1)) rs) k) as Hsplit.
  { intros k. unfold scheduler_reservations, reserved_on. rewrite !sumZ_app. simpl. lia. }
  split.
  - done.
  - intros c prev Hp. exists prev. split; [done|lia].
  - by intros x c tx Hx%elem_of_nil.
  - by intros x c tx prev Hx%elem_of_nil.
  - constructor.
  - intros c. rewrite Hc, Hsplit. unfold tracked_on. rewrite Ed. specialize (Hrs (Some c)).
    change (pool_starts A c []) with 0. lia.
  - rewrite Hc. apply reserved_nonneg. intros x [Hx|Hx]%elem_of_app.
    + apply list_elem_of_fmap in Hx as (jr & -> & _). simpl. lia.
    + by apply list_elem_of_fmap in Hx as (jr & -> & _).
  - intros c cap _ Hp. unfold pool_starts in Hp. simpl in Hp. lia.
Qed.

(** On every scheduler, counted over all aliases of one host and across
    passes, two submission attempts are at least every alias's
    [scheduler_submit_interval] apart, whether they succeeded or not; and when
    a pass starts a job there, what this driver already tracked on it plus
    everything it started in the pass is within every alias's
    [scheduler_max_jobs]. *)
Theorem scheduler_submissions_paced hosts w r w' :
  (∀ n, E.(e_hosts) n = Some hosts) → honest R w.(dw_queue) → dispatch_pending C E w = (r, w') →
  let A := new_admission hosts [] in
  ∃ es, w'.(dw_trace) = w.(dw_trace) ++ es
    ∧ ∀ n h, (n, h) ∈ hosts →
      (∀ x tx prev, Attempted x ∈ es → x.(at_pool) = Some (canonical A n) → x.(at_time) = Some tx →
         last_attempts w !! canonical A n = Some prev → h.(scheduler_submit_interval) <= tx - prev)
      ∧ (∀ x y es1 es2 es3 tx ty, es = es1 ++ Attempted x :: es2 ++ Attempted y :: es3 →
           x.(at_pool) = Some (canonical A n) → y.(at_pool) = Some (canonical A n) →
           x.(at_time) = Some tx → y.(at_time) = Some ty → h.(scheduler_submit_interval) <= ty - tx)
      ∧ (∀ cap, h.(scheduler_max_jobs) = Some cap → 0 < pool_starts A (canonical A n) es →
           tracked_on A w.(dw_daemon) (canonical A n) + pool_starts A (canonical A n) es <= cap).
Proof.
  intros Hh Hq Hrun A. set (base := tracked_on A w.(dw_daemon)).
  set (Fin := λ w' : dworld, ∃ es last, w'.(dw_trace) = w.(dw_trace) ++ es
                ∧ paced_end A (last_attempts w) base es last).
  assert (∀ c, 0 <= interval_of A c) as Hnn by (intros c; by apply (interval_of_alias hosts c (interval_of A c))).
  assert (Fin w') as (es & last & Htr & t & Hp).
  { refine (wp_elim _ (λ _ w', Fin w') w r w' _ Hrun).
  apply (dispatch_pending_rule C E R HE (λ _, True) (λ _, Fin)); [done|intros; apply any_plan| |].
    { intros _ w1 Hf. exists [], (last_attempts w). rewrite app_nil_r. split; [apply Hf|].
      exists (initial_tally C w.(dw_daemon) [] hosts). by apply paced_initial. }
    intros n m l held dr _ _ _ p t pending w1 Hf Hq1 Hp _.
    assert (last_attempts w1 = last_attempts w) as El by apply Hf.
    eapply wp_mono; [|apply (loop_history (λ t es w', paced A (last_attempts w) base t es (last_attempts w'))
      (λ es w', paced_end A (last_attempts w) base es (last_attempts w')) _ _ _ _ _ _ Hq1 Hp)].
    - intros r1 w2 (es & Htr & Hes). exists es, (last_attempts w2). split; [rewrite Htr; f_equal; apply Hf|].
      destruct Hes as [[t' ?]|?]; [by exists t'|done].
    - destruct (pl_tally _ _ _ _ _ _ _ _ _ Hp) as (d & rs & hosts' & k & Hd & -> & Hk).
      rewrite Hh in Hk. injection Hk as <-. rewrite El. apply paced_initial.
      etransitivity; [apply Hf|done].
    - intros s t1 w2 es r1 w3 _ _ Hes _ [_ Hla [->|[e ->]] _]; rewrite Hla; [done|by exists t1].
    - intros s t1 w2 es r1 w3 a b _ _ Hes _ Hv. simpl.
      assert (∃ t', settled_tally C t1 a.(at_fresh) a.(at_gpus) b t') as [t0 Ht0].
      { unfold settled_tally. destruct b; [eauto|]. exists t1. by left. }
      pose proof (tr_out _ _ _ _ _ _ _ _ Hv) as Hout. destruct r1 as [[t' []]|e].
      + eapply paced_try; [done|done|done|by apply Hout].
      + eexists. eapply paced_try; [done|done|done|by apply Hout].
      + exists t0. by eapply paced_try. }
  exists es. split; [done|]. intros n h Hin. destruct Hp as [_ _ _ Hfst Hsp _ _ Hcap]. split_and!.
  - intros x tx prev Hx Hxp Hxt Hl.
    assert (interval_of A (canonical A n) <= tx - prev) as [_ Hi]%interval_of_alias; [|by apply (Hi n h)].
    eapply (Hfst x); try done. apply list_elem_of_omap. by exists (Attempted x).
  - intros x y es1 es2 es3 tx ty -> Hxp Hyp Hxt Hyt.
    assert (interval_of A (canonical A n) <= ty - tx) as [_ Hi]%interval_of_alias; [|by apply (Hi n h)].
    rewrite attempts_app in Hsp. apply StronglySorted_app in Hsp as (_ & _ & Hsp).
    unfold attempts in Hsp. csimpl in Hsp. apply StronglySorted_cons in Hsp as [Hall _].
    rewrite Forall_forall in Hall. apply (Hall y); try done. rewrite omap_app. csimpl. set_solver.
  - intros cap Hc Hpos. destruct (cap_of_alias hosts _ n h cap Hin eq_refl Hc) as (cap' & Hcc & ?).
    etransitivity; [exact (Hcap _ _ Hcc Hpos)|done].
Qed.

(** *** Builds *)

Section running_build.
Context (b : string) (build : JobSpec).
Context (Hstay : ∀ n q, q !! b = Some (Some build) → E.(e_queue).(q_interfere) n q !! b = Some (Some build)).
Context (Hbuild : is_running_build build = true).

Lemma build_not_settled name : settled_row name build = false.
Proof.
  unfold is_running_build in Hbuild. apply andb_true_iff in Hbuild as [_ Hst%bool_decide_eq_true].
  unfold settled_row, spec_is_off_admission_path, is_terminal, state_is_terminal. rewrite Hst.
  simpl. by rewrite andb_false_r.
Qed.

Lemma scan_finds_build names acc w :
  w.(dw_queue) !! b = Some (Some build) → b ∈ names ∨ build ∈ acc.1 →
  wp (foldM (scan_row E) acc names) (λ r _, ∀ x, r = Ok x → build ∈ x.1) w.
Proof.
  revert acc w. induction names as [|name names IH]; intros acc w Hw Hin; simpl.
  { apply wp_ret. intros x [= <-]. destruct Hin; [set_solver|done]. }
  apply wp_bind. apply wp_catch, wp_bind. unfold wp at 1, read_active_spec, access. simpl.
  set (q := q_interfere _ _ _). assert (q !! b = Some (Some build)) as Hq by by apply Hstay.
  destruct (decide (name = b)) as [->|Hne].
  - unfold read_spec. rewrite Hq. cbn. rewrite build_not_settled. apply IH; [done|].
    right. simpl. set_solver.
  - assert (b ∈ names ∨ build ∈ acc.1) by set_solver.
    destruct (read_spec q name) as [s|e]; cbn; apply IH; try done.
    destruct (settled_row name s); simpl; set_solver.
Qed.

Lemma iter_specs_finds_build w :
  w.(dw_queue) !! b = Some (Some build) →
  wp (iter_specs E) (λ r _, ∀ x, r = Ok x → build ∈ x.1) w.
Proof.
  intros Hw. apply wp_bind. unfold wp at 1, list_queue, access. simpl.
  set (q := q_interfere _ _ _). assert (q !! b = Some (Some build)) as Hq by by apply Hstay.
  apply scan_finds_build; [done|]. left. unfold spec_names. apply elem_of_sort_by.
  apply list_elem_of_fmap. exists (b, Some build). split; [done|]. by apply elem_of_map_to_list.
Qed.

Lemma cascade_keeps_build specs acc w :
  build ∈ specs ∨ build ∈ acc.1 →
  wp (foldM (cascade_one E) acc specs) (λ r _, ∀ x, r = Ok x → build ∈ x.1) w.
Proof.
  revert acc w. induction specs as [|s specs IH]; intros acc w Hin; simpl.
  { apply wp_ret. intros x [= <-]. destruct Hin; [set_solver|done]. }
  apply wp_bind, wp_bind. destruct (decide (s = build)) as [->|Hne].
  - unfold maybe_cascade_dependency_failure. pose proof Hbuild as Hb. unfold is_running_build in Hb.
    apply andb_true_iff in Hb as [_ Hst%bool_decide_eq_true].
    rewrite bool_decide_eq_false_2 by congruence. simpl. apply wp_ret, wp_ret, IH. right. simpl. set_solver.
  - apply wp_intro. intros [[s' m]|e] w' _; [|done]. apply wp_ret, IH. simpl. set_solver.
Qed.

Lemma plan_sees_build held drain w :
  w.(dw_queue) !! b = Some (Some build) →
  wp (plan C E held drain) (λ r _, ∀ p t pending, r = Ok (Some (p, t, pending)) → p.(p_build_envs) ≠ []) w.
Proof.
  intros Hw. unfold plan. apply wp_bind. unfold wp at 1. cbn [ask fst snd].
  apply wp_bind. eapply wp_mono, iter_specs_finds_build; [|done].
  intros [[specs settled]|e] w1 Hin; [|done]. specialize (Hin _ eq_refl). simpl in Hin.
  apply wp_bind. unfold wp at 1. cbn [update_daemon fst snd]. apply wp_bind. unfold wp at 1. cbn [get_daemon fst snd].
  apply wp_bind, wp_intro. intros [rs|e] w2 _; [|done]. apply wp_bind. unfold wp at 1. cbn [ask fst snd].
  destruct (e_hosts E _); [|done]. apply wp_bind, wp_intro. intros [m|e] w3 _; [|done].
  apply wp_bind. eapply wp_mono, cascade_keeps_build; [|by left].
  intros [[specs' m']|e] w4 Hin'; [|done]. specialize (Hin' _ eq_refl). simpl in Hin'.
  apply wp_bind, wp_intro. intros [hold|e] w5 _; [|done]. destruct hold; [by apply wp_ret|].
  apply wp_bind. unfold wp at 1. cbn [ask fst snd]. apply wp_ret. intros p t pending [= <- <- <-]. simpl.
  assert (∃ env, env ∈ omap build_env (List.filter is_running_build specs')) as [env Henv]; [|intros E0; rewrite E0 in Henv; set_solver].
  pose proof Hbuild as Hb. unfold is_running_build in Hb. apply andb_true_iff in Hb as [Hne _].
  destruct (build_env build) as [env|] eqn:Eb; [|done]. exists env. apply list_elem_of_omap.
  exists build. split; [|done]. by apply elem_of_filterb.
Qed.
End running_build.

(** Only the last event may be a started build. *)
Definition build_last (es : list event) : Prop :=
  ∀ es1 f es2, es = es1 ++ Started f :: es2 → f.(build_env) ≠ None → es2 = [].

Lemma build_last_snoc es e :
  (∀ f, Started f ∈ es → f.(build_env) = None) → build_last (es ++ [e]).
Proof.
  intros Hes es1 f es2 E0 Hf. destruct es2 as [|x es2 _] using rev_ind; [done|].
  rewrite app_comm_cons, (assoc_L (++)) in E0. apply app_inj_tail in E0 as [-> _].
  destruct Hf. apply Hes. set_solver.
Qed.

Lemma pass_build_last w r w' :
  honest R w.(dw_queue) → dispatch_pending C E w = (r, w') →
  ∃ es, w'.(dw_trace) = w.(dw_trace) ++ es ∧ build_last es.
Proof.
  intros Hq Hrun. set (Fin := λ w' : dworld, ∃ es, w'.(dw_trace) = w.(dw_trace) ++ es ∧ build_last es).
  assert (build_last []) as Hnil by (by intros [] ? ? ?).
  refine (wp_elim _ (λ _ w', Fin w') w r w' _ Hrun).
  apply (dispatch_pending_rule C E R HE (λ _, True) (λ _, Fin)); [done|intros; apply any_plan| |].
  { intros _ w1 Hf. exists []. rewrite app_nil_r. split; [apply Hf|done]. }
  intros n m l held dr _ _ _ p t pending w1 Hf Hq1 Hp _.
  set (none := λ es : list event, ∀ f, Started f ∈ es → f.(build_env) = None).
  assert (∀ es, none es → build_last es) as Hnone.
  { intros es Hes es1 f es2 -> Hb. destruct Hb. apply Hes. set_solver. }
  eapply wp_mono; [|apply (loop_history (λ _ es _, none es) (λ es _, build_last es) _ _ _ _ _ _ Hq1 Hp)].
  - intros r1 w2 (es & Htr & Hes). exists es. split; [rewrite Htr; f_equal; apply Hf|].
    destruct Hes as [[_ ?]|?]; auto.
  - intros f Hf'. set_solver.
  - intros s t1 w2 es r1 w3 _ _ Hes _ [_ _ [->|[e ->]] _]; auto.
  - intros s t1 w2 es r1 w3 a b _ _ Hes _ Hv. simpl. pose proof (tr_out _ _ _ _ _ _ _ _ Hv) as Hout.
    assert (none (es ++ [Attempted a])) as Hn1 by (intros f [?|?]%elem_of_app; [auto|set_solver]).
    assert (build_last (es ++ Attempted a :: started_events (at_fresh a) b)) as Hlast.
    { unfold started_events. destruct b; [|by apply Hnone]. rewrite cons_middle, (assoc_L (++)).
      by apply build_last_snoc. }
    destruct r1 as [[t' []]|e]; [|done..]. destruct Hout as [_ [Hsig _]]. intros f Hin.
    rewrite cons_middle, (assoc_L (++)) in Hin. apply elem_of_app in Hin as [Hin|Hin]; [by apply Hn1|].
    unfold started_events in Hin. destruct b; [|set_solver]. apply list_elem_of_singleton in Hin as [= ->].
    destruct (build_env (at_fresh a)) eqn:Eb; [|done]. by discriminate Hsig.
Qed.

Lemma pass_build_blocks b build w r w' :
  honest R w.(dw_queue) → dispatch_pending C E w = (r, w') → w.(dw_queue) !! b = Some (Some build) →
  is_running_build build = true →
  (∀ n q, q !! b = Some (Some build) → E.(e_queue).(q_interfere) n q !! b = Some (Some build)) →
  ∃ es, w'.(dw_trace) = w.(dw_trace) ++ es
    ∧ ∀ a, Attempted a ∈ es → a.(at_fresh).(scheduler_target) ≠ None.
Proof.
  intros Hq Hrun Hb Hbuild Hstay. set (ok := λ es : list event, ∀ a, Attempted a ∈ es → a.(at_fresh).(scheduler_target) ≠ None).
  set (Fin := λ w' : dworld, ∃ es, w'.(dw_trace) = w.(dw_trace) ++ es ∧ ok es).
  assert (ok []) as Hnil by (intros a Ha; set_solver).
  refine (wp_elim _ (λ _ w', Fin w') w r w' _ Hrun).
  apply (dispatch_pending_rule C E R HE (λ p, p.(p_build_envs) ≠ []) (λ _, Fin)); [done| | |].
  { intros held drain w1 _ Eq. apply (plan_sees_build b build); [done|done|by rewrite Eq]. }
  { intros _ w1 Hf. exists []. rewrite app_nil_r. split; [apply Hf|done]. }
  intros n m l held dr _ _ _ p t pending w1 Hf Hq1 Hp Henv.
  eapply wp_mono; [|apply (loop_history (λ _ es _, ok es) (λ es _, ok es) _ _ _ _ _ _ Hq1 Hp)].
  - intros r1 w2 (es & Htr & Hes). exists es. split; [rewrite Htr; f_equal; apply Hf|].
    by destruct Hes as [[_ ?]|?].
  - done.
  - intros s t1 w2 es r1 w3 _ _ Hes _ [_ _ [->|[e ->]] _]; auto.
  - intros s t1 w2 es r1 w3 a b' _ _ Hes _ Hv. simpl.
    assert (ok (es ++ Attempted a :: started_events (at_fresh a) b')); [|by destruct r1 as [[? []]|]].
    intros a' [Ha|[[= ->]|Ha]%elem_of_cons]%elem_of_app; [by apply Hes| |].
    + destruct Hv as [_ _ Ha _ [_ Hreq] _ _ _]. injection Hreq as _ _ _ ->. intros Hl.
      destruct (admit_gates _ _ _ _ Ha) as (_ & _ & Hbl & _). unfold blocked_by_running_build in Hbl.
      rewrite bool_decide_eq_false_2, bool_decide_eq_true_2 in Hbl by done. done.
    + unfold started_events in Ha. destruct b'; set_solver.
Qed.

(** A build job runs alone: once a pass has started one, it launches
    nothing more; and while a build job's row says RUNNING, a pass launches no
    local job at all. *)
Theorem build_runs_alone w r w' :
  honest R w.(dw_queue) → dispatch_pending C E w = (r, w') →
  ∃ es, w'.(dw_trace) = w.(dw_trace) ++ es ∧ build_last es
    ∧ (∀ b build, w.(dw_queue) !! b = Some (Some build) → is_running_build build = true →
         (∀ n q, q !! b = Some (Some build) → E.(e_queue).(q_interfere) n q !! b = Some (Some build)) →
         ∀ a, Attempted a ∈ es → a.(at_fresh).(scheduler_target) ≠ None).
Proof.
  intros Hq Hrun. destruct (pass_build_last w r w' Hq Hrun) as (es & Htr & Hlast).
  exists es. split_and!; [done..|]. intros b build Hb Hbuild Hstay.
  destruct (pass_build_blocks b build w r w') as (es' & Htr' & Hes); [done..|].
  rewrite Htr in Htr'. by apply app_inv_head in Htr' as <-.
Qed.

(** *** Work conservation *)

Record tally_le (t t' : tally) : Prop := {
  tl_jobs : t.(t_local_active) <= t'.(t_local_active);
  tl_cpus : t.(t_used_cpus) <= t'.(t_used_cpus);
  tl_mem : t.(t_used_mem) <= t'.(t_used_mem);
  tl_gpus g : g ∈ t.(t_busy_gpus) → g ∈ t'.(t_busy_gpus);
}.

#[local] Instance tally_le_preorder : PreOrder tally_le.
Proof. split; [by split; try lia|]. intros t1 t2 t3 [] []. split; try lia; auto. Qed.

Lemma filter_length_mono {A} (p q : A → bool) l :
  (∀ x, p x = true → q x = true) → (length (List.filter p l) <= length (List.filter q l))%nat.
Proof.
  intros Hpq. induction l as [|x l IH]; simpl; [done|]. destruct (p x) eqn:Hp.
  - rewrite (Hpq _ Hp). simpl. lia.
  - destruct (q x); simpl; lia.
Qed.

(** What a later, fuller tally admits, an earlier one admitted. *)
Lemma admit_mono p t t' s gs :
  tally_le t t' → s.(scheduler_target) = None → admission_gate C p t' s = Admit gs → ∃ gs', admission_gate C p t s = Admit gs'.
Proof.
  intros [Hj Hc Hm Hg] Hl. unfold admission_gate. rewrite (bool_decide_eq_true_2 _ Hl).
  destruct (blocked_by_running_build _ _ _); [done|]. destruct (held_by_admin_update _ _); [done|].
  destruct (negb _); [done|]. unfold local_gate. destruct (impossible_build C s); [done|].
  destruct (jobs_fit p t') eqn:Ej; simpl; [|done].
  assert (jobs_fit p t = true) as ->.
  { unfold jobs_fit in *. destruct (p_effective_max_jobs p); [|done]. apply Z.ltb_lt in Ej. apply Z.ltb_lt. lia. }
  destruct (Z.ltb_spec (p_effective_max_cpus p) (t_used_cpus t' + cpus s)); [done|].
  destruct (Z.ltb_spec (p_effective_max_cpus p) (t_used_cpus t + cpus s)); [lia|].
  destruct (mem_fits C t' s) eqn:Em; simpl; [|done].
  assert (mem_fits C t s = true) as ->.
  { unfold mem_fits in *. repeat case_match; try done. apply Z.leb_le in Em. apply Z.leb_le. lia. }
  simpl. destruct (assign_gpus C (t_busy_gpus t') (gpus s)) as [g'|] eqn:Eg; [|done]. intros _.
  destruct (assign_gpus C (t_busy_gpus t) (gpus s)) as [g|] eqn:Eg'; [by exists g|].
  unfold assign_gpus in *. destruct (gpus s) as [k|]; [|done].
  match type of Eg with context [length ?l] => set (f' := l) in * end.
  match type of Eg' with context [length ?l] => set (f := l) in * end.
  assert (length f' <= length f)%nat.
  { apply filter_length_mono. intros x. rewrite !negb_true_iff, !bool_decide_eq_false. auto. }
  destruct (Z.ltb_spec (Z.of_nat (length f')) k); [done|].
  destruct (Z.ltb_spec (Z.of_nat (length f)) k); [lia|done].
Qed.

Lemma settled_tally_le t fresh gs b t' :
  request_of fresh = R fresh.(id) → settled_tally C t fresh gs b t' → tally_le t t'.
Proof.
  intros Hr Hs. pose proof (eo_cpus _ _ _ HE fresh.(id)) as Hc. pose proof (eo_mem _ _ _ HE fresh.(id)) as Hm.
  rewrite <- Hr in Hc, Hm. simpl in Hc, Hm. unfold settled_tally in Hs.
  repeat (case_match || destruct Hs as [->|(_ & ids & ->)]); subst; try done;
    (split; simpl; try lia; set_solver).
Qed.

(** [s] was offered in the events, or had been withdrawn. *)
Definition served (es : list event) (w : dworld) (s : JobSpec) : Prop :=
  (∃ a, Attempted a ∈ es ∧ a.(at_spec) = s) ∨ withdrawn w s.

Lemma served_later es es' w w' s :
  w.(dw_seen) `prefix_of` w'.(dw_seen) → served es w s → served (es ++ es') w' s.
Proof.
  intros [k Hk] [(a & ? & ?)|(q & ? & ?)]; [left; exists a; set_solver|].
  right. exists q. split; [|done]. rewrite Hk. set_solver.
Qed.

Lemma visit_all_conserving p order t w :
  honest R w.(dw_queue) → (∀ s, s ∈ order → request_of s = R s.(id)) →
  wp (visit_all C E p t order) (λ r w', ∀ t', r = Ok (t', Next) →
    tally_le t t' ∧ honest R w'.(dw_queue) ∧ w.(dw_seen) `prefix_of` w'.(dw_seen)
    ∧ ∃ es, w'.(dw_trace) = w.(dw_trace) ++ es
      ∧ ∀ s gs, s ∈ order → s.(scheduler_target) = None → admission_gate C p t' s = Admit gs → served es w' s) w.
Proof.
  revert t w. induction order as [|s order IH]; intros t w Hq Hr; simpl.
  { apply wp_ret. intros t' [= <-]. split_and!; [done..|]. exists []. rewrite app_nil_r. set_solver. }
  apply wp_bind. eapply wp_mono; [|apply (visit_spec C E R HE); [done|apply Hr; set_solver]].
  intros r1 w1 Hv. apply visited_history in Hv as (Hq1 & Hs1 & Hv); [|done|apply Hr; set_solver].
  destruct r1 as [[t1 []]|e]; [|by apply wp_ret|done].
  eapply wp_mono; [|apply IH; [done|set_solver]]. intros r2 w2 H2 t' ->.
  destruct (H2 _ eq_refl) as (Hle & Hq2 & Hs2 & es & Htr & Hes).
  assert (∃ es0, tally_le t t1 ∧ dw_trace w1 = dw_trace w ++ es0 ∧
            ∀ gs, s.(scheduler_target) = None → admission_gate C p t s = Admit gs → served es0 w1 s) as (es0 & Hle0 & Htr0 & Hs0).
  { destruct Hv as [Hv|(a & b & Hv)].
    - exists []. rewrite app_nil_r. destruct Hv as [Ht _ [[= <-]|[? ?]] Hwhy]; [|done].
      split_and!; [done|done|]. intros gs Hl Ha. destruct (Hwhy _ Ha) as [?|Hrem]; [by right|].
      unfold is_remote in Hrem. by rewrite Hl in Hrem.
    - exists (Attempted a :: started_events a.(at_fresh) b). split_and!.
      + destruct Hv as [_ _ _ _ [Hid Hreq] _ _ [Ho _]]. eapply settled_tally_le, Ho.
        rewrite Hreq, Hid. apply Hr. set_solver.
      + apply Hv.
      + intros _ _ _. left. exists a. split; [set_solver|apply Hv]. }
  split_and!; [by etransitivity|done|by etransitivity|]. exists (es0 ++ es).
  split; [rewrite Htr, Htr0; by rewrite <- (assoc_L (++))|].
  intros s' gs [->|Hin]%elem_of_cons Hl Ha.
  - destruct (admit_mono p t t' s gs) as [gs' Ha']; [by etransitivity|done|done|].
    by apply (served_later _ _ w1), (Hs0 gs').
  - destruct (Hes s' gs Hin Hl Ha) as [(a & ? & ?)|?]; [left; exists a; set_solver|by right].
Qed.

(** C38: a pass that runs to its end is work conserving: every pending local
    job that would still be admitted beside everything the pass has charged
    was offered to the launcher in this pass, or was no longer pending when
    the pass read it again. *)
Theorem dispatch_work_conserving held drain p t pending w t' w' :
  honest R w.(dw_queue) → planned C E R held drain w p t pending →
  dispatch_loop C E p t pending w = (Ok (t', Next), w') →
  ∃ es, w'.(dw_trace) = w.(dw_trace) ++ es
    ∧ ∀ s gs, s ∈ pending → s.(scheduler_target) = None → admission_gate C p t' s = Admit gs → served es w' s.
Proof.
  intros Hq Hp Hrun.
  assert (∀ s, s ∈ pending → request_of s = R s.(id)) as Hreq.
  { intros s Hs. by destruct (pl_read _ _ _ _ _ _ _ _ _ Hp s Hs) as (? & _ & _ & ?). }
  refine (wp_elim _ (λ r w', ∀ t', r = Ok (t', Next) → ∃ es, w'.(dw_trace) = w.(dw_trace) ++ es
    ∧ ∀ s gs, s ∈ pending → s.(scheduler_target) = None → admission_gate C p t' s = Admit gs → served es w' s)
    w _ w' _ Hrun t' eq_refl).
  unfold dispatch_loop. apply wp_bind. eapply wp_mono; [|apply visit_all_conserving; [done|]].
  - intros [[t1 []]|e] w1 H1; [|by apply wp_ret|done].
    destruct (H1 _ eq_refl) as (_ & Hq1 & _ & es1 & Htr1 & Hes1). apply wp_bind. unfold wp at 1. cbn [get_daemon fst snd].
    eapply wp_mono; [|apply visit_all_conserving; [done|]].
    + intros r2 w2 H2 t2 ->. destruct (H2 _ eq_refl) as (Hle & _ & Hs2 & es2 & Htr2 & _).
      exists (es1 ++ es2). split; [rewrite Htr2, Htr1; by rewrite <- (assoc_L (++))|].
      intros s gs Hs Hl Ha. destruct (admit_mono p t1 t2 s gs) as [gs' Ha']; [done..|].
      apply (served_later _ _ w1); [done|]. apply (Hes1 s gs'); [|done|done].
      apply elem_of_filterb. by rewrite bool_decide_eq_true_2.
    + intros s Hs. rewrite scheduler_order_perm in Hs. apply Hreq. by apply elem_of_filterb in Hs as [? _].
  - intros s [Hs _]%elem_of_filterb. by apply Hreq.
Qed.
End guarantees.
