(* ===== verification/DrainDispatch.v ===== *)
(** * Drains and the dispatch pass together

    The policy [read_effective_drain_state] answers, given to the dispatch
    pass: what a lease, a lane, a full hold or an unreadable store keeps from
    being launched. *)

From S2P Require Import Prelude Json Spec Admission Drain DrainGuarantees DaemonCore Dispatch DaemonLogic DispatchSafety DispatchGuarantees.

(** ** What a read of the policy returns *)

(** The legacy document a read at [w] finds, its expiry applied and its
    enabled part kept. *)
Definition legacy_at (D : DrainEnv) (w : drain_world) : option DrainState :=
  enabled_legacy (current D w.(dn_tick) (D.(dn_interfere) w.(dn_tick) w.(dn_files))).

Lemma unreadable_holds_all raw legacy detail now :
  is_full_drain (unreadable_hold raw legacy detail now) = true.
Proof. by destruct legacy. Qed.

(** A read answers with the composed policy of the two files it saw, or with a
    full hold when the lease store was unreadable. *)
Lemma read_effective_spec D w p w' :
  read_effective_drain_state D w = (Ok p, w') →
  match read_lease_store w'.(dn_files) with
  | Ok l => p = compose_effective (legacy_at D w) l
  | Err _ => ∃ s, p = Some s ∧ is_full_drain s = true
  end.
Proof.
  unfold read_effective_drain_state, read_drain_state, locked, clock, bind, ret, legacy_at.
  set (f0 := dn_interfere D _ _). destruct (read_locked D (dn_tick w) f0) as [r f1] eqn:Hr.
  apply read_locked_spec in Hr as (_ & [[-> _]|[-> _]]); [|done]. simpl.
  set (f2 := dn_interfere D _ _). destruct (read_lease_store f2) as [l|e] eqn:Hl; simpl.
  - intros [= <- <-]. simpl. rewrite Hl. by destruct (current D (dn_tick w) f0) as [[[] ?]|].
  - intros [= <- <-]. simpl. rewrite Hl. eexists. split; [done|]. apply unreadable_holds_all.
Qed.

Lemma enabled_legacy_idem p : enabled_legacy (enabled_legacy p) = enabled_legacy p.
Proof. destruct p as [s|]; simpl; [|done]. destruct (enabled s) eqn:He; simpl; by rewrite ?He. Qed.

Section composition.
Context (C : DaemonConfig) (E : DispatchEnv) (D : DrainEnv) (R : string → request) (HE : env_ok C E R).
Context {L : Launcher} {HL : LauncherOk R L}.

(** C24: drains hold dispatch end to end.  If the pass reads its policy with
    [read_effective_drain_state], then no launch of the pass targets a
    scheduler that a lease of the store or a lane of the legacy document
    names; an unreadable lease store and an unexpired full hold let nothing
    be launched at all. *)
Theorem drained_not_dispatched marker dw drain dw' w r w' :
  read_effective_drain_state D dw = (Ok drain, dw') → (∀ n, E.(e_drain) n = drain) →
  (∀ n, E.(e_admin_marker) n = marker) → honest R w.(dw_queue) → dispatch_pending C E w = (r, w') →
  ∃ es, w'.(dw_trace) = w.(dw_trace) ++ es
    ∧ match read_lease_store dw'.(dn_files) with
      | Err _ => es = []
      | Ok l =>
        (holds_all (legacy_at D dw) = true → es = [])
        ∧ ∀ a t, Attempted a ∈ es → a.(at_spec).(scheduler_target) = Some t → t ≠ "" →
          holds_lane (legacy_at D dw) t = false ∧ ∀ x, x ∈ l → x.(lease_host) ≠ t
      end.
Proof.
  intros Hread Hdr Hm Hq Hrun. apply read_effective_spec in Hread.
  destruct (attempts_gated C E R HE marker drain w r w' Hm Hdr Hq Hrun) as (es & Htr & Hnone & Hga).
  exists es. split; [done|]. destruct (read_lease_store (dn_files dw')) as [l|e].
  - pose proof (effective_policy (legacy_at D dw) l) as (_ & Hlane & Hall & _). cbn zeta in Hlane, Hall.
    rewrite <- Hread in *. unfold legacy_at in Hlane, Hall. rewrite enabled_legacy_idem in Hlane, Hall.
    fold (legacy_at D dw) in Hlane, Hall. split.
    + intros Hh. rewrite Hh in Hall. apply Hnone. right. left. destruct drain as [d|]; [|done]. by exists d.
    + intros a t Ha Ht Hne. specialize (Hlane t Hne). pose proof (ga_drain _ _ _ _ _ _ (Hga a Ha)) as Hd.
      assert (holds_lane drain t = false) as Hf.
      { destruct drain as [d|]; [|done]. destruct Hd as [_ Hd]. by rewrite Ht in Hd. }
      rewrite Hf in Hlane. split; [destruct (holds_lane _ t); naive_solver|]. intros x Hx <-. naive_solver.
  - destruct Hread as (s & -> & Hs). apply Hnone. eauto.
Qed.
End composition.
