(* ===== verification/Launch.v ===== *)
(** * Starting a job: [_start_job] of [src/vq/daemon.py]

    The launcher of a single-user daemon: the runtime resolution, the durable
    RUNNING claim around the spawn of a local job, managed containers, and the
    two-phase submission of a scheduler job, with every early return and every
    exception that leaves the function. *)

From S2P Require Import Prelude Spec Admission DaemonCore Dispatch.

(** ** What the launcher asks of the outside *)

(** [_ProgramRuntimeResolution] *)
Record Resolution : Type := MkResolution {
  res_failure : option string;
  res_deferred : option string;
  res_git_sha : option string;
  res_runtime_root : option string;
  res_runtime_source : option string;
  res_runtime_python : option string;
}.

(** The answers of [dispatcher.submit] *)
Inductive submit_answer : Type :=
| Accepted (job_id : string)
| OutcomeUnknown (reason : string)
| Rejected (reason : string).

Record LaunchEnv : Type := MkLaunchEnv {
  l_queue : QueueEnv;
  l_utcnow : nat → Z;
  l_monotonic : nat → Z;
  l_admin_marker : nat → option (option (list string));
  (** [_program_runtime_pin_dispatch_resolution], [_runtime_bundle_dispatch_failure] *)
  l_resolution : nat → JobSpec → Resolution;
  l_bundle_failure : nat → JobSpec → option string;
  (** [managed_container]: [requested], [prepare] succeeds, [present], and
      the restored handle's result is settled *)
  l_container_requested : list string → bool;
  l_container_prepared : nat → string → bool;
  l_container_present : nat → string → bool;
  l_container_settled : nat → string → bool;
  (** creating the workspace, the logs or the workdir raises OSError *)
  l_setup_fails : nat → bool;
  (** the job's scope exists and cannot be stopped *)
  l_scope_leaked : nat → string → bool;
  l_workdir : string → string;
  (** [dispatcher.launch]: the pid, or a DispatchError *)
  l_spawn : nat → JobSpec → option Z;
  l_getpgid : nat → Z → option Z;
  l_pid_start_time : nat → Z → option Z;
  (** the scheduler dispatcher of a target: it can be built, clears the
      evidence of an earlier attempt, limits the wall time, stages, submits *)
  l_dispatcher : nat → string → bool;
  l_prepare_retry : nat → JobSpec → bool;
  l_wall_time_error : nat → JobSpec → option string;
  l_remote_workspace : string → string;
  l_submit : nat → JobSpec → submit_answer;
}.

(** The recovery of uncertain submissions, another part of the daemon:
    [_reconcile_unconfirmed_scheduler_submit] and
    [_cancel_recovered_terminal_scheduler_submit]. *)
Class SubmitRecovery : Type := {
  reconcile_unconfirmed : JobSpec → DM unit;
  cancel_recovered : JobSpec → string → DM bool;
}.

Definition RUNTIME_RETRY : Z := 30 * TICKS_PER_SECOND.

(** [_admin_update_holds_spec] *)
Definition admin_update_holds_spec (marker : option (option (list string))) (s : JobSpec) : bool :=
  match marker with
  | None => false
  | Some None => true
  | Some (Some scope) =>
    match s.(scheduler_target) with
    | Some t => bool_decide (t ∈ scope)
    | None => bool_decide (LOCAL_DISPATCH_SCOPE ∈ scope)
    end
  end.

Section launch.
Context (C : DaemonConfig) (E : LaunchEnv) {P : SubmitRecovery}.
Let Q : QueueEnv := E.(l_queue).

(** [_fail_dispatch]; an unreadable row is replaced by the given spec. *)
Definition fail_dispatch (spec : JobSpec) (reason : string) : DM bool :=
  do? now := ask E.(l_utcnow) in
  with_row Q spec.(id) (λ row,
    let fresh := match row with Ok s => s | Err _ => spec end in
    if is_terminal fresh then (false, None)
    else (false, Some (set_exit_code (Some (-1)) (mark_failed now reason fresh)))).

(** ** The runtime resolution *)

Definition pin_stale (s : JobSpec) : bool :=
  negb (bool_decide (s.(program_runtime_pin) = without_resolution <$> s.(program_runtime_pin))).

Definition resolved_pin (r : Resolution) (p : ProgramRuntimePin) : ProgramRuntimePin :=
  {| expected_git_sha := p.(expected_git_sha); enforce_git_sha := p.(enforce_git_sha);
     resolved_git_sha := r.(res_git_sha); resolved_runtime_root := r.(res_runtime_root);
     resolved_runtime_source := r.(res_runtime_source);
     resolved_runtime_python := r.(res_runtime_python) |}.

Definition unresolved_pin : ProgramRuntimePin := MkPin None false None None None None.

(** The row still describes the spec that was resolved. *)
Definition same_program (fresh spec : JobSpec) : bool :=
  bool_decide (fresh.(state) = PENDING) && bool_decide (fresh.(program) = spec.(program))
  && bool_decide (fresh.(scheduler_target) = spec.(scheduler_target))
  && bool_decide (fresh.(command) = spec.(command))
  && bool_decide (fresh.(qvf_artifact_name) = spec.(qvf_artifact_name))
  && bool_decide (without_resolution <$> fresh.(program_runtime_pin)
                  = without_resolution <$> spec.(program_runtime_pin)).

(** The row with the resolution; [None] when there is nothing to attach it to. *)
Definition attach_resolution (r : Resolution) (fresh : JobSpec) : option JobSpec :=
  match fresh.(program_runtime_pin), r.(res_runtime_root), r.(res_runtime_python) with
  | None, None, None => None
  | pin, _, _ =>
    let fresh := set_program_runtime_pin (Some (resolved_pin r (default unresolved_pin pin))) fresh in
    Some (match fresh.(qvf_artifact_name), r.(res_runtime_python) with
          | Some _, Some python => set_command (python :: drop 1 fresh.(command)) fresh
          | _, _ => fresh
          end)
  end.

(** [_persist_program_runtime_resolution]: the spec to go on with, or [None]
    for False. *)
Definition persist_program_runtime_resolution (spec : JobSpec) (r : Resolution)
    : DM (option JobSpec) :=
  match r.(res_git_sha) with
  | None =>
    if negb (pin_stale spec) then ret (Some spec)
    else with_row Q spec.(id) (λ row,
      match row with
      | Err _ => (None, None)
      | Ok fresh =>
        if negb (same_program fresh spec) then (None, None)
        else let fresh := set_program_runtime_pin (without_resolution <$> fresh.(program_runtime_pin)) fresh in
             (Some (set_program_runtime_pin fresh.(program_runtime_pin) spec), Some fresh)
      end)
  | Some _ =>
    with_row Q spec.(id) (λ row,
      match row with
      | Err _ => (None, None)
      | Ok fresh =>
        if negb (same_program fresh spec) then (None, None)
        else match attach_resolution r fresh with
             | None => (None, None)
             | Some fresh =>
               (Some (set_command fresh.(command)
                        (set_program_runtime_pin fresh.(program_runtime_pin) spec)), Some fresh)
             end
      end)
  end.

(** ** Managed containers *)

(** [_restore_managed_container] *)
Definition restore_managed_container (spec : JobSpec) : DM unit :=
  do? settled := ask (λ n, E.(l_container_settled) n spec.(id)) in
  if settled && is_terminal spec then ret tt
  else
    do? fails := ask E.(l_setup_fails) in
    if fails then throw DOSError
    else update_daemon (λ d, set_running
           (<[spec.(id) := MkHolder spec.(cpus) spec.(mem_mb) [] None false true]> d.(running)) d).

Inductive container_claim : Type :=
| NotPending
| ClaimFailed
| Claimed (fresh : JobSpec).

(** [_start_managed_container]; the reason of a failure is the text of its
    exception, which is left out. *)
Definition claim_container (spec : JobSpec) : DM container_claim :=
  do? prepared := ask (λ n, E.(l_container_prepared) n spec.(id)) in
  do? now := ask E.(l_utcnow) in
  catch (with_row Q spec.(id) (λ row,
    match row with
    | Err _ => (ClaimFailed, None)
    | Ok fresh =>
      if negb (bool_decide (fresh.(state) = PENDING)) then (NotPending, None)
      else if negb prepared then (ClaimFailed, None)
      else let fresh := set_pgid None (set_pid None (set_started_at (Some (Aware now))
                          (set_state RUNNING fresh))) in
           (Claimed fresh, Some fresh)
    end)) is_oserror (λ _, ret ClaimFailed).

Definition start_managed_container (spec : JobSpec) : DM bool :=
  do? claim := claim_container spec in
  let recover : DM bool :=
    do? present := ask (λ n, E.(l_container_present) n spec.(id)) in
    if present then do? _ := restore_managed_container spec in ret true
    else fail_dispatch spec "managed container" in
  match claim with
  | NotPending => ret false
  | ClaimFailed => recover
  | Claimed fresh =>
    catch (do? _ := restore_managed_container fresh in ret true) is_os_or_value_error (λ _, recover)
  end.

(** ** Local jobs *)

(** The RUNNING claim, written under the row's lock before the spawn. *)
Definition claimed_spec (now : Z) (workdir : string) (gs : list string) (latest : JobSpec) : JobSpec :=
  set_started_at (Some (Aware now)) (set_pid_start_time None (set_pgid None (set_pid None
    (set_state RUNNING (set_workdir (Some workdir)
      (set_gpu_devices (match gs with [] => None | _ => Some gs end) latest)))))).

Definition claim_local (job_id : string) (spec : JobSpec) (gs : list string) : DM (option JobSpec) :=
  do? marker := ask E.(l_admin_marker) in
  do? now := ask E.(l_utcnow) in
  with_row Q job_id (λ row,
    match row with
    | Err _ => (None, None)
    | Ok latest =>
      if negb (bool_decide (latest.(state) = PENDING)) then (None, None)
      else if admin_update_holds_spec marker latest then (None, None)
      else if negb (bool_decide (latest.(program_runtime_pin) = spec.(program_runtime_pin)))
      then (None, None)
      else if negb (bool_decide (latest.(gpus) = spec.(gpus)))
              || negb (default 0 latest.(gpus) =? Z.of_nat (length gs)) then (None, None)
      else let claimed := claimed_spec now (E.(l_workdir) spec.(id)) gs latest in
           (Some claimed, Some claimed)
    end).

Inductive post_spawn : Type :=
| RowUnreadable (e : daemon_error)
| KilledMeanwhile
| Recorded.

(** The row after the spawn: a terminal label written meanwhile is kept and
    the process is reaped; otherwise the process ids are filled in.  A row
    that cannot be read raises. *)
Definition record_pid (job_id : string) (claimed : JobSpec) (pid : Z) : DM post_spawn :=
  do? pgid := ask (λ n, E.(l_getpgid) n pid) in
  do? start_time := ask (λ n, E.(l_pid_start_time) n pid) in
  do? now := ask E.(l_utcnow) in
  with_row Q job_id (λ row,
    match row with
    | Err e => (RowUnreadable e, None)
    | Ok latest =>
      if is_terminal latest then
        (KilledMeanwhile,
         if String.eqb latest.(id) job_id then None else Some (set_id job_id latest))
      else (Recorded,
            Some (set_started_at (Some (Aware now)) (set_pid_start_time start_time
                    (set_pgid pgid (set_pid (Some pid) claimed)))))
    end).

Definition start_local (job_id : string) (spec : JobSpec) (gs : list string) : DM bool :=
  do? fails := ask E.(l_setup_fails) in
  if fails then throw DOSError
  else
    do? leaked := (if C.(cgroup_enabled) then ask (λ n, E.(l_scope_leaked) n spec.(id)) else ret false) in
    if leaked then
      fail_dispatch spec ("cgroup scope vq-job-" +:+ spec.(id) +:+ ".scope is leaked and cannot be stopped")
    else
      do? fails := ask E.(l_setup_fails) in
      if fails then throw DOSError
      else
        do? claim := claim_local job_id spec gs in
        match claim with
        | None => ret false
        | Some claimed =>
          do? spawned := ask (λ n, E.(l_spawn) n claimed) in
          match spawned with
          | None => fail_dispatch claimed "failed to start"
          | Some pid =>
            do? after := record_pid job_id claimed pid in
            match after with
            | RowUnreadable e => throw e
            | KilledMeanwhile => ret false
            | Recorded =>
              do? _ := update_daemon (λ d, set_running
                (<[job_id := MkHolder claimed.(cpus) claimed.(mem_mb)
                     (default [] claimed.(gpu_devices)) None false false]> d.(running)) d) in
              ret true
            end
          end
        end.

(** ** Scheduler jobs *)

(** Phase one: PENDING to SUBMITTING, before anything reaches the scheduler. *)
Inductive submit_claim : Type :=
| NotClaimed
| WallTimeExceeded
| Submitting (s : JobSpec).

Definition submitting_spec (now : Z) (latest : JobSpec) : JobSpec :=
  let s := set_scheduler_state (Some "submitting") (set_scheduler_job_id None
             (set_started_at (Some (Aware now)) (set_state SUBMITTING latest))) in
  match s.(scheduler_remote_workspace) with
  | None | Some EmptyString => set_scheduler_remote_workspace (Some (E.(l_remote_workspace) s.(id))) s
  | Some _ => s
  end.

Definition claim_submit (spec : JobSpec) (target : string) : DM submit_claim :=
  do? now := ask E.(l_utcnow) in
  do? wall := ask E.(l_wall_time_error) in
  with_row Q spec.(id) (λ row,
    match row with
    | Err _ => (NotClaimed, None)
    | Ok latest =>
      if negb (bool_decide (latest.(state) = PENDING)) then (NotClaimed, None)
      else if negb (bool_decide (latest.(scheduler_target) = Some target)) then (NotClaimed, None)
      else if negb (bool_decide (latest.(program_runtime_pin) = spec.(program_runtime_pin)))
      then (NotClaimed, None)
      else match wall latest with
           | Some reason =>
             (WallTimeExceeded, Some (set_exit_code None (mark_failed now reason latest)))
           | None => let s := submitting_spec now latest in (Submitting s, Some s)
           end
    end).

(** A retry first clears the evidence of the attempt before it. *)
Definition retry_ready (spec : JobSpec) (target : string) : DM bool :=
  if spec.(retry_count) <=? 0 then ret true
  else
    do? latest := catch (do? s := read_active_spec Q spec.(id) in ret (Some s))
                    is_os_or_value_error (λ _, ret None) in
    match latest with
    | None => ret false
    | Some s =>
      if negb (String.eqb s.(id) spec.(id)) || negb (bool_decide (s.(state) = PENDING))
         || negb (bool_decide (s.(scheduler_target) = Some target)) || (s.(retry_count) <=? 0)
      then ret false
      else ask (λ n, E.(l_prepare_retry) n s)
    end.

(** [_mark_scheduler_submit_outcome_unknown]; [durable] is the label of a row
    that has not ended, ["submit_outcome_unknown"] or ["submit_evidence_conflict"]. *)
Definition mark_submit_unknown (durable : string) (spec : JobSpec) (reason : string) : DM unit :=
  do? now := ask E.(l_utcnow) in
  with_row Q spec.(id) (λ row,
    match row with
    | Err _ => (tt, None)
    | Ok fresh =>
      if bool_decide (fresh.(scheduler_target) = None) then (tt, None)
      else
        let label := if is_terminal fresh then
                       if String.eqb durable "submit_evidence_conflict"
                       then "submit_evidence_conflict_after_terminal"
                       else "submit_outcome_unknown_after_terminal"
                     else durable in
        let fresh := if is_terminal fresh then fresh else set_state SUBMIT_OUTCOME_UNKNOWN fresh in
        (tt, Some (set_failure_reason (Some reason) (set_last_heartbeat_at (Some (Aware now))
                     (set_scheduler_state (Some label) fresh))))
    end).

Definition mark_outcome_unknown : JobSpec → string → DM unit := mark_submit_unknown "submit_outcome_unknown".

(** [_fail_scheduler_dispatch_transaction] *)
Definition fail_scheduler_dispatch (admitted : JobSpec) (target reason : string) : DM bool :=
  do? now := ask E.(l_utcnow) in
  with_row Q admitted.(id) (λ row,
    match row with
    | Ok fresh => if is_terminal fresh then (false, None) else
        (false, Some (set_scheduler_job_id None (set_scheduler_state (Some "submit_rejected")
           (set_scheduler_target (Some target) (set_exit_code None (mark_failed now reason admitted))))))
    | Err _ =>
        (false, Some (set_scheduler_job_id None (set_scheduler_state (Some "submit_rejected")
           (set_scheduler_target (Some target) (set_exit_code None (mark_failed now reason admitted))))))
    end).

(** Phase two: the accepted id on the submitted snapshot, with the other
    writers' observations and a terminal verdict they reached. *)
Definition commit_spec (now : Z) (submitted latest : JobSpec) (job_id : string) : JobSpec :=
  let c := set_last_heartbeat_at latest.(last_heartbeat_at)
             (set_scheduler_state latest.(scheduler_state) submitted) in
  let c := if is_terminal latest then
             let c := set_exit_code latest.(exit_code) (set_failure_tail latest.(failure_tail)
                        (set_failure_reason latest.(failure_reason) (set_finished_at latest.(finished_at)
                          (set_state latest.(state) c)))) in
             set_paused_by latest.(paused_by) (set_paused_seconds_total latest.(paused_seconds_total)
               (set_paused_monotonic_at latest.(paused_monotonic_at) (set_paused_at latest.(paused_at) c)))
           else c in
  let c := set_scheduler_job_id (Some job_id) c in
  if is_terminal c then c
  else let c := set_state RUNNING (set_scheduler_submitted_at (Some (Aware now)) c) in
       if bool_decide (c.(scheduler_state) = Some "submitting") then set_scheduler_state None c else c.

Definition commit_submit (submitted : JobSpec) (job_id : string) : DM (option JobSpec) :=
  do? now := ask E.(l_utcnow) in
  catch (with_row Q submitted.(id) (λ row,
    let latest := match row with
                  | Ok latest => latest
                  | Err _ => set_failure_reason
                      (Some "scheduler accepted while the queue record was unreadable; restored from captured submit intent")
                      submitted
                  end in
    let committed := commit_spec now submitted latest job_id in
    (Some committed, Some committed))) is_oserror (λ _, ret None).

(** [_start_scheduler_job] *)
Definition start_scheduler_job (spec : JobSpec) (target : string) : DM bool :=
  do? built := ask (λ n, E.(l_dispatcher) n target) in
  if negb built then fail_dispatch spec ("scheduler host " +:+ target)
  else
    do? ready := retry_ready spec target in
    if negb ready then ret false
    else
      do? claim := claim_submit spec target in
      match claim with
      | NotClaimed | WallTimeExceeded => ret false
      | Submitting s =>
        do? answer := ask (λ n, E.(l_submit) n s) in
        match answer with
        | OutcomeUnknown reason =>
          do? _ := mark_outcome_unknown s reason in
          do? parked := catch (do? p := read_active_spec Q s.(id) in ret (Some p))
                          is_os_or_value_error (λ _, ret None) in
          match parked with
          | None => ret false
          | Some p => do? _ := reconcile_unconfirmed p in ret false
          end
        | Rejected reason => fail_scheduler_dispatch s target reason
        | Accepted job_id =>
          do? _ := update_daemon (λ d, set_scheduler_running
            (<[s.(id) := new_scheduler_job target job_id (opt_or s.(scheduler_remote_workspace) "")]>
               d.(scheduler_running)) d) in
          do? committed := commit_submit s job_id in
          match committed with
          | None => ret true
          | Some c => if is_terminal c then cancel_recovered c job_id else ret true
          end
        end
      end.

(** ** [_start_job] *)

Definition start_resolved (job_id : string) (spec : JobSpec) (gs : list string) : DM bool :=
  match spec.(scheduler_target) with
  | Some target => start_scheduler_job spec target
  | None => if E.(l_container_requested) spec.(command) then start_managed_container spec
            else start_local job_id spec gs
  end.

Definition vq_start_job (given : JobSpec) (gs : list string) : DM bool :=
  do? fresh := with_row Q given.(id) (λ row,
    (match row with
     | Ok fresh => if bool_decide (fresh.(state) = PENDING) then Some fresh else None
     | Err _ => None
     end, None)) in
  match fresh with
  | None => ret false
  | Some spec =>
    do? now := ask E.(l_monotonic) in
    do? d := get_daemon in
    if now <? default 0 (d.(admission_retry_at) !! given.(id)) then ret false
    else
      do? r := ask (λ n, E.(l_resolution) n spec) in
      match r.(res_deferred) with
      | Some _ =>
        do? now := ask E.(l_monotonic) in
        do? _ := update_daemon (λ d, set_admission_retry_at
          (<[given.(id) := now + RUNTIME_RETRY]> d.(admission_retry_at)) d) in
        ret false
      | None =>
        do? _ := update_daemon (λ d, set_admission_retry_at
          (delete given.(id) d.(admission_retry_at)) d) in
        match r.(res_failure) with
        | Some reason => fail_dispatch spec reason
        | None =>
          do? bundle := ask (λ n, E.(l_bundle_failure) n spec) in
          match bundle with
          | Some reason => fail_dispatch spec reason
          | None =>
            do? persisted := persist_program_runtime_resolution spec r in
            match persisted with
            | None => ret false
            | Some spec => start_resolved given.(id) spec gs
            end
          end
        end
      end
  end.
End launch.
