(* ===== verification/Reap.v ===== *)
(** * The end of a local job: [src/vq/daemon.py]

    Reaping finished children, retries, the survivors of a kill and the
    SIGTERM-to-SIGKILL escalation, for a single-user daemon. *)

From S2P Require Import Prelude Spec Admission DaemonCore Dispatch.

Record ReapEnv : Type := MkReapEnv {
  r_queue : QueueEnv;
  r_utcnow : nat → Z;
  r_monotonic : nat → Z;
  (** [dispatcher.poll] of a job's child: its return code once it has exited *)
  r_poll : nat → string → option Z;
  (** the process group still answers; the daemon's own group *)
  r_pgroup_alive : nat → Z → bool;
  r_own_pgrp : Z;
  (** a managed container: [None] when verifying or polling raises, else its
      return code; and its settled result, with a requested terminal state *)
  r_container_poll : nat → string → option (option Z);
  r_container_result : nat → string → option (bool * option (JobState * string));
  (** [ensure_idempotency_claim_for_spec] succeeds *)
  r_claim_repaired : nat → JobSpec → bool;
  r_stderr_tail : nat → JobSpec → option string;
}.

(** [_maybe_spawn_rerun], another part of the daemon. *)
Class Rerun : Type := { spawn_rerun : JobSpec → DM unit }.

Definition KILL_ESCALATION_GRACE : Z := 10 * TICKS_PER_SECOND.

(** ** Retries *)

(** [_maybe_retry]'s new row: another attempt of the same job. *)
Definition retried_spec (jobid : string) (now : Z) (spec : JobSpec) : JobSpec :=
  let n := spec.(retry_count) + 1 in
  let s := set_not_before (Some (Aware (now + retry_backoff_seconds n * TICKS_PER_SECOND)))
             (set_retry_count n spec) in
  let s := set_exit_code None (set_started_at None (set_pgid None (set_pid None (set_state PENDING s)))) in
  let s := set_scheduler_started_at None (set_scheduler_submitted_at None (set_scheduler_job_id None s)) in
  let s := set_program_runtime_pin (without_resolution <$> s.(program_runtime_pin)) s in
  set_id jobid (set_submission_owner_hash None (set_submission_intent_digest None
    (set_idempotency_key_hash None s))).

(** [_maybe_retry]: the row to write, or [None] when the attempt is final. *)
Definition maybe_retry (jobid : string) (now : Z) (claim_repaired : bool) (spec : JobSpec)
    : option JobSpec :=
  if spec.(retry_max) <=? 0 then None
  else if spec.(retry_max) <=? spec.(retry_count) then None
  else if negb claim_repaired then None
  else Some (retried_spec jobid now spec).

(** ** Groups *)

(** [_reap_stranded_group]: whether it signals the group. *)
Definition reap_stranded_group (own : Z) (alive : Z → bool) (spec : JobSpec) (rc : Z) : bool :=
  let paused := bool_decide (spec.(state) = SUSPENDED) || negb (bool_decide (spec.(pause_intent_at) = None)) in
  if negb paused && ((0 <=? rc) || is_terminal spec) then false
  else match spec.(pgid) with
       | None => false
       | Some g => negb (g =? own) && alive g
       end.

(** [_track_terminal_survivor] *)
Definition terminal_survivor (own : Z) (alive : Z → bool) (now : Z) (spec : JobSpec) (rj : Holder)
    : option TerminalSurvivor :=
  if rj.(h_term_sigkilled) then None
  else match spec.(pgid) with
       | None => None
       | Some g =>
         if (g =? own) || negb (alive g) then None
         else Some {| ts_pgid := g; ts_cpus := rj.(h_cpus); ts_mem_mb := rj.(h_mem_mb);
                      ts_state := spec.(state);
                      ts_deadline := default (now + KILL_ESCALATION_GRACE) rj.(h_term_deadline);
                      ts_gpu_devices := rj.(h_gpu_devices) |}
       end.

Section reap.
Context (E : ReapEnv) {X : Rerun}.
Let Q : QueueEnv := E.(r_queue).

(** ** [_record_finish] *)

(** What the end of a child does to its row: the row unreadable, a container
    not settled, or the new row with the survivor to track. *)
Inductive finish : Type :=
| FinishUnreadable (e : daemon_error)
| NotSettled
| Preserved (s : JobSpec) (survivor : option TerminalSurvivor)
| Retried
| Finished (s : JobSpec).

Record finish_inputs : Type := MkFinishInputs {
  fi_now : Z;
  fi_monotonic : Z;
  fi_alive : Z → bool;
  fi_container : option (bool * option (JobState * string));
  fi_repaired : JobSpec → bool;
  fi_tail : JobSpec → option string;
}.

(** A container's requested terminal state, when the row has none. *)
Definition container_verdict (now : Z) (req : option (JobState * string)) (spec : JobSpec) : JobSpec :=
  match req with
  | Some (st, reason) =>
    if is_terminal spec then spec
    else set_finished_at (Some (Aware now)) (set_failure_reason (Some reason) (set_state st spec))
  | None => spec
  end.

(** The exit code and the tail a preserved terminal row may still lack. *)
Definition annotate (i : finish_inputs) (rc : Z) (spec : JobSpec) : JobSpec :=
  let s := match spec.(exit_code) with None => set_exit_code (Some rc) spec | Some _ => spec end in
  match s.(failure_tail) with
  | Some _ => s
  | None => if bool_decide (s.(state) = COMPLETED) then s else set_failure_tail (i.(fi_tail) s) s
  end.

Definition finish_row (i : finish_inputs) (jobid : string) (rj : Holder) (rc : Z) (spec : JobSpec)
    : finish * option JobSpec :=
  let stranded := reap_stranded_group E.(r_own_pgrp) i.(fi_alive) spec rc in
  if is_terminal spec then
    let s := annotate i rc spec in
    let survivor := if stranded then None
                    else terminal_survivor E.(r_own_pgrp) i.(fi_alive) i.(fi_monotonic) s rj in
    (Preserved s survivor, if bool_decide (s = spec) then None else Some s)
  else match (if rc =? 0 then None else maybe_retry jobid i.(fi_now) (i.(fi_repaired) spec) spec) with
       | Some s => (Retried, Some s)
       | None =>
         let s := set_exit_code (Some rc) (set_state (if rc =? 0 then COMPLETED else FAILED) spec) in
         let s := if bool_decide (s.(state) = FAILED) then
                    match i.(fi_tail) s with Some t => set_failure_tail (Some t) s | None => s end
                  else s in
         let s := set_finished_at (Some (Aware i.(fi_now))) s in
         (Finished s, Some s)
       end.

(** The locked part.  A container's verdict is written first; the row keeps
    the last of the writes made under one lock. *)
Definition finish_locked (i : finish_inputs) (jobid : string) (rj : Holder) (rc : Z)
    (row : res daemon_error JobSpec) : finish * option JobSpec :=
  match row with
  | Err e => (FinishUnreadable e, None)
  | Ok spec =>
    if rj.(h_container) then
      match i.(fi_container) with
      | None | Some (false, _) => (NotSettled, None)
      | Some (true, req) =>
        let spec' := container_verdict i.(fi_now) req spec in
        match finish_row i jobid rj rc spec' with
        | (f, None) => (f, if bool_decide (spec' = spec) then None else Some spec')
        | (f, Some s) => (f, Some s)
        end
      end
    else finish_row i jobid rj rc spec
  end.

(** [_record_finish]: false when the job is not finished after all. *)
Definition record_finish (jobid : string) (rj : Holder) (rc : Z) : DM bool :=
  do? now := ask E.(r_utcnow) in
  do? mono := ask E.(r_monotonic) in
  do? alive := ask E.(r_pgroup_alive) in
  do? container := ask (λ n, E.(r_container_result) n jobid) in
  do? repaired := ask E.(r_claim_repaired) in
  do? tail := ask E.(r_stderr_tail) in
  let i := MkFinishInputs now mono alive container repaired tail in
  do? out := with_row Q jobid (finish_locked i jobid rj rc) in
  match out with
  | FinishUnreadable e => throw e
  | NotSettled => ret false
  | Preserved _ None | Retried => ret true
  | Preserved _ (Some t) =>
    do? _ := update_daemon (λ d, set_terminal_survivors (<[jobid := t]> d.(terminal_survivors)) d) in
    ret true
  | Finished s => do? _ := spawn_rerun s in ret true
  end.

(** ** Escalation *)

Definition set_term (deadline : option Z) (sigkilled : bool) (h : Holder) : Holder :=
  MkHolder h.(h_cpus) h.(h_mem_mb) h.(h_gpu_devices) deadline sigkilled h.(h_container).

Definition update_holder (jobid : string) (h : Holder) : DM unit :=
  update_daemon (λ d, set_running (<[jobid := h]> d.(running)) d).

(** [_escalate_if_killed] *)
Definition escalate_if_killed (jobid : string) (rj : Holder) : DM unit :=
  if rj.(h_term_sigkilled) then ret tt
  else
    do? row := catch (do? s := read_active_spec Q jobid in ret (Some s))
                 is_os_or_value_error (λ _, ret None) in
    match row with
    | None => ret tt
    | Some spec =>
      if negb (is_terminal spec) then update_holder jobid (set_term None false rj)
      else match spec.(pgid) with
           | None => ret tt
           | Some _ =>
             do? now := ask E.(r_monotonic) in
             match rj.(h_term_deadline) with
             | None => update_holder jobid (set_term (Some (now + KILL_ESCALATION_GRACE)) false rj)
             | Some deadline =>
               if now <? deadline then ret tt else update_holder jobid (set_term (Some deadline) true rj)
             end
           end
    end.

(** ** The two reconcile passes *)

(** [None]: a container whose outcome is unknown. *)
Definition poll_child (jobid : string) (rj : Holder) : DM (option (option Z)) :=
  if rj.(h_container) then
    catch (do? _ := read_active_spec Q jobid in ask (λ n, E.(r_container_poll) n jobid))
      is_os_or_value_error (λ _, ret None)
  else
    do? rc := ask (λ n, E.(r_poll) n jobid) in ret (Some rc).

Definition reconcile_one (finished : list string) (jr : string * Holder) : DM (list string) :=
  let '(jobid, rj) := jr in
  do? rc := poll_child jobid rj in
  match rc with
  | None => ret finished
  | Some None =>
    if rj.(h_container) then ret finished
    else do? _ := escalate_if_killed jobid rj in ret finished
  | Some (Some rc) =>
    do? done := record_finish jobid rj rc in
    ret (if done then finished ++ [jobid] else finished)
  end.

(** [_reconcile_running] *)
Definition vq_reconcile_running : DM unit :=
  do? d := get_daemon in
  do? finished := foldM reconcile_one [] (map_to_list d.(running)) in
  update_daemon (λ d, set_running (foldr delete d.(running) finished) d).

(** [_reconcile_terminal_survivors] *)
Definition reconcile_survivor (_ : unit) (js : string * TerminalSurvivor) : DM unit :=
  let '(jobid, t) := js in
  let drop_it := update_daemon (λ d, set_terminal_survivors (delete jobid d.(terminal_survivors)) d) in
  do? alive := ask (λ n, E.(r_pgroup_alive) n t.(ts_pgid)) in
  if negb alive then drop_it
  else
    do? now := ask E.(r_monotonic) in
    if now <? t.(ts_deadline) then ret tt else drop_it.

Definition reconcile_terminal_survivors : DM unit :=
  do? d := get_daemon in foldM reconcile_survivor tt (map_to_list d.(terminal_survivors)).
End reap.
