(* ===== verification/LaunchSafety.v ===== *)
(** * The launcher and the reaper keep their promises

    [vq_start_job] and [vq_reconcile_running] satisfy the interface the
    dispatch pass was proved against ([LauncherOk]), given what the parts of
    the daemon they call promise in turn. *)

From S2P Require Import Prelude Spec Admission DaemonCore Dispatch DaemonLogic DispatchSafety Launch Reap.

(** ** Charges of a table of jobs *)

Lemma map_to_list_insert_submseteq {A B} (f : A → B) (m : gmap string A) i x :
  f <$> (map_to_list (<[i := x]> m)).*2 ⊆+ f x :: (f <$> (map_to_list m).*2).
Proof.
  rewrite <- insert_delete_eq, map_to_list_insert by apply lookup_delete_eq. csimpl.
  apply submseteq_skip. destruct (m !! i) as [y|] eqn:Hi.
  - rewrite <- (map_to_list_delete m i y) by done. csimpl. by apply submseteq_cons.
  - by rewrite delete_id.
Qed.

Lemma map_to_list_foldr_delete {A} (m : gmap string A) js :
  NoDup js → (map_to_list (foldr delete m js)).*2 ++ omap (m !!.) js ≡ₚ (map_to_list m).*2.
Proof.
  induction 1 as [|j js Hj Hjs IH]; csimpl; [by rewrite app_nil_r|].
  assert (foldr delete m js !! j = m !! j) as Hl.
  { clear IH. induction js as [|k js IH]; [done|]. simpl. rewrite lookup_delete_ne by set_solver.
    apply IH; [set_solver|by apply NoDup_cons in Hjs as [_ ?]]. }
  destruct (m !! j) as [x|] eqn:Hm; simpl in *; (etransitivity; [|exact IH]).
  - rewrite <- (map_to_list_delete (foldr delete m js) j x) by done. csimpl.
    by rewrite <- Permutation_middle.
  - by rewrite delete_id.
Qed.

(** ** Terminal verdicts *)

(** The label, the end and a recorded exit code of a terminal row stay. *)
Definition verdict_kept (s s' : JobSpec) : Prop :=
  s'.(state) = s.(state) ∧ s'.(finished_at) = s.(finished_at)
  ∧ (s.(exit_code) = None ∨ s'.(exit_code) = s.(exit_code)).

#[export] Instance verdict_kept_preorder : PreOrder verdict_kept.
Proof.
  split; [by intros s; split_and!; auto|].
  intros s1 s2 s3 (H1 & H2 & H3) (H4 & H5 & H6). split_and!; [congruence..|].
  destruct H3 as [?|H3]; [by left|]. rewrite H3 in H6. destruct H6; [by left|right; congruence].
Qed.

Lemma is_terminal_state s s' : s'.(state) = s.(state) → is_terminal s' = is_terminal s.
Proof. unfold is_terminal. by intros ->. Qed.

(** [K] are the ids whose rows are watched. *)
Section kept.
Context (K : string → Prop).

Definition kept (q q' : queue_dir) : Prop :=
  ∀ j s, K j → q !! j = Some (Some s) → is_terminal s = true →
    ∃ s', q' !! j = Some (Some s') ∧ verdict_kept s s'.

#[export] Instance kept_preorder : PreOrder kept.
Proof.
  split; [by intros q j s ???; exists s|]. intros q1 q2 q3 H1 H2 j s Hk Hj Ht.
  destruct (H1 j s) as (s' & Hj' & Hv); [done..|].
  destruct (H2 j s') as (s'' & ? & ?); [done|done|rewrite (is_terminal_state s s'); [done|apply Hv]|].
  exists s''. split; [done|by etransitivity].
Qed.

(** Whatever state of the queue a computation met, its verdicts stand at the end. *)
Definition kept_since (w w' : dworld) : Prop :=
  ∃ met, w'.(dw_seen) = w.(dw_seen) ++ met
    ∧ ∀ q, q ∈ w.(dw_queue) :: met → kept q w'.(dw_queue).

#[export] Instance kept_since_preorder : PreOrder kept_since.
Proof.
  split.
  - intros w. exists []. split; [by rewrite app_nil_r|].
    intros q ->%list_elem_of_singleton. reflexivity.
  - intros w1 w2 w3 (m1 & E1 & H1) (m2 & E2 & H2). exists (m1 ++ m2).
    split; [by rewrite E2, E1, app_assoc|]. intros q Hq.
    assert (q ∈ dw_queue w1 :: m1 ∨ q ∈ dw_queue w2 :: m2) as [?|?] by set_solver; [|by apply H2].
    transitivity (dw_queue w2); [by apply H1|]. apply H2. set_solver.
Qed.

Lemma kept_same w w' :
  w'.(dw_queue) = w.(dw_queue) → w'.(dw_seen) = w.(dw_seen) → kept_since w w'.
Proof.
  intros Eq Es. exists []. rewrite Es, app_nil_r. split; [done|].
  intros q ->%list_elem_of_singleton. rewrite Eq. reflexivity.
Qed.
End kept.

(** ** Computations that leave the resources alone *)

Section calculus.
Context (R : string → request) (K : string → Prop) (Q : QueueEnv).

(** The other processes never change a job's id or request, and none of them
    takes back the verdict of a watched job. *)
Record queue_ok : Prop := {
  qo_honest n q : honest R q → honest R (Q.(q_interfere) n q);
  qo_kept n q : kept K q (Q.(q_interfere) n q);
}.
Context (HQ : queue_ok).

Definition good (name : string) (s : JobSpec) : Prop := s.(id) = name ∧ request_of s = R name.

Record quiet (w w' : dworld) : Prop := {
  qu_frame : frame R w w';
  qu_kept : kept_since K w w';
}.

#[export] Instance quiet_preorder : PreOrder quiet.
Proof. split; [by intros w; split|]. intros w1 w2 w3 [] []. split; by etransitivity. Qed.

Record calm (w w' : dworld) : Prop := {
  ca_released : released R w w';
  ca_kept : kept_since K w w';
}.

#[export] Instance calm_preorder : PreOrder calm.
Proof. split; [by intros w; split|]. intros w1 w2 w3 [] []. split; by etransitivity. Qed.

Lemma quiet_calm w w' : quiet w w' → calm w w'.
Proof. intros []. split; [by apply frame_released|done]. Qed.

(** From an honest queue, [m] relates the worlds and returns a [Post] value. *)
Definition does (Rel : dworld → dworld → Prop) {A} (m : DM A) (Post : A → Prop) : Prop :=
  ∀ w, honest R w.(dw_queue) →
    wp m (λ r w', Rel w w' ∧ honest R w'.(dw_queue) ∧ ∀ a, r = Ok a → Post a) w.

Lemma does_weaken (Rel Rel' : dworld → dworld → Prop) {A} (m : DM A) (Post Post' : A → Prop) :
  (∀ w w', Rel w w' → Rel' w w') → (∀ a, Post a → Post' a) → does Rel m Post → does Rel' m Post'.
Proof. intros Hrel Hpost Hm w Hw. eapply wp_mono, Hm; [|done]. intros r w' (? & ? & ?). auto. Qed.

Section rules.
Context (Rel : dworld → dworld → Prop) `{!PreOrder Rel} (Hquiet : ∀ w w', quiet w w' → Rel w w').

Lemma does_ret {A} (a : A) (Post : A → Prop) : Post a → does Rel (ret a) Post.
Proof. intros Ha w Hw. apply wp_ret. split_and!; [done..|]. by intros ? [= <-]. Qed.

Lemma does_throw {A} e (Post : A → Prop) : does Rel (throw e) Post.
Proof. intros w Hw. by apply wp_throw. Qed.

Lemma does_bind {A B} (m : DM A) (k : A → DM B) Mid Post :
  does Rel m Mid → (∀ a, Mid a → does Rel (k a) Post) → does Rel (bind m k) Post.
Proof.
  intros Hm Hk w Hw. apply wp_bind. eapply wp_mono, Hm; [|done]. intros [a|e] w' (Hr & Hq & Ha); [|done].
  eapply wp_mono, Hk; [|by apply Ha|done]. intros r w'' (? & ? & ?). split_and!; [by etransitivity|done..].
Qed.

Lemma does_catch {A} (m : DM A) (p : daemon_error → bool) (h : daemon_error → DM A) Post :
  does Rel m Post → (∀ e, does Rel (h e) Post) → does Rel (catch m p h) Post.
Proof.
  intros Hm Hh w Hw. apply wp_catch. eapply wp_mono, Hm; [|done]. intros [a|e] w' (Hr & Hq & Ha); [done|].
  destruct (p e); [|done]. eapply wp_mono, Hh; [|done]. intros r w'' (? & ? & ?).
  split_and!; [by etransitivity|done..].
Qed.

Lemma does_ask {A} (f : nat → A) : does Rel (ask f) (λ a, ∃ n, a = f n).
Proof.
  intros w Hw. unfold wp. simpl. split_and!; [|done|intros ? [= <-]; by eexists].
  apply Hquiet. split; [by split|by apply kept_same].
Qed.

Lemma does_get : does Rel get_daemon (λ _, True).
Proof. intros w Hw. by unfold wp. Qed.

Lemma does_update f (Post : unit → Prop) :
  (∀ w, Rel w (MkDWorld (f w.(dw_daemon)) w.(dw_queue) w.(dw_tick) w.(dw_trace) w.(dw_seen))) →
  Post tt → does Rel (update_daemon f) Post.
Proof. intros Hf Hp w Hw. unfold wp. simpl. split_and!; [by apply Hf|done|by intros [] _]. Qed.

(** What a row may become. *)
Definition row_ok (name : string) (row : res daemon_error JobSpec) (s : JobSpec) : Prop :=
  good name s ∧ ∀ old, row = Ok old → is_terminal old = true → verdict_kept old s.

Lemma kept_write q name s :
  (∀ old, read_spec q name = Ok old → is_terminal old = true → verdict_kept old s) →
  kept K q (<[name := Some s]> q).
Proof.
  intros Hs j old _ Hj Ht. destruct (decide (name = j)) as [->|].
  - exists s. rewrite lookup_insert_eq. split; [done|]. apply Hs; [|done].
    unfold read_spec. by rewrite Hj.
  - exists old. by rewrite lookup_insert_ne.
Qed.

Lemma does_row {A} name (body : res daemon_error JobSpec → A * option JobSpec) (Post : A → Prop) :
  (∀ row, (∀ old, row = Ok old → good name old) →
     Post (body row).1 ∧ ∀ s, (body row).2 = Some s → row_ok name row s) →
  does Rel (with_row Q name body) Post.
Proof.
  intros Hb w Hw. set (q := q_interfere Q (dw_tick w) (dw_queue w)).
  assert (∀ (r : res daemon_error A) q', honest R q' → kept K q q' → (∀ a, r = Ok a → Post a) →
    let w' := MkDWorld (dw_daemon w) q' (S (dw_tick w)) (dw_trace w) (dw_seen w ++ [q]) in
    Rel w w' ∧ honest R (dw_queue w') ∧ ∀ a, r = Ok a → Post a) as Hdone.
  { intros r q' Hq' Hk Hr w'. split_and!; [|done..]. apply Hquiet. split.
    - split; simpl; [done|done|by eexists|done].
    - exists [q]. split; [done|]. simpl. intros q0 Hq0. etransitivity; [|exact Hk].
      assert (q0 = dw_queue w ∨ q0 = q) as [->| ->] by set_solver; [|done].
      by apply qo_kept. }
  assert (honest R q) as Hq by by apply qo_honest.
  destruct (Hb (read_spec q name)) as [Hp Hs].
  { intros old Hold. unfold read_spec in Hold. destruct (q !! name) as [[s0|]|] eqn:Eq; [|done..].
    injection Hold as <-. by apply Hq. }
  unfold wp, with_row, access. fold q. destruct (body (read_spec q name)) as [a [s|]]; simpl in *.
  - destruct (Hs s) as [Hg Hv]; [done|]. destruct (q_write_fails _ _); simpl; apply Hdone; try done.
    + apply honest_insert; [done|apply Hg..].
    + by apply kept_write.
    + by intros ? [= <-].
  - apply Hdone; try done. by intros ? [= <-].
Qed.

Lemma does_read name : does Rel (read_active_spec Q name) (good name).
Proof.
  intros w Hw. set (q := q_interfere Q (dw_tick w) (dw_queue w)).
  assert (honest R q) as Hq by by apply qo_honest. unfold wp, read_active_spec, access. fold q. simpl.
  split_and!; [|done|].
  - apply Hquiet. split; [split; simpl; try done; by eexists|]. exists [q]. split; [done|]. simpl.
    intros q0 Hq0. assert (q0 = dw_queue w ∨ q0 = q) as [->| ->] by set_solver; [|done]. by apply qo_kept.
  - intros s Hs. unfold read_spec in Hs. destruct (q !! name) as [[s0|]|] eqn:Eq; simplify_eq. by apply Hq.
Qed.

Lemma does_try {A} (m : DM A) p (Post : A → Prop) :
  does Rel m Post →
  does Rel (catch (do? s := m in ret (Some s)) p (λ _, ret None)) (λ o, ∀ s, o = Some s → Post s).
Proof.
  intros Hm. apply does_catch; [|intros e; by apply does_ret]. eapply does_bind; [exact Hm|].
  intros a Ha. apply does_ret. by intros ? [= <-].
Qed.
End rules.
End calculus.

(** ** Starting *)

(** What the recovery of uncertain submissions promises the launcher. *)
Class SubmitRecoveryOk (R : string → request) (K : string → Prop) (P : SubmitRecovery) : Prop := {
  reconcile_unconfirmed_ok s :
    good R s.(id) s → does R (calm R K) (reconcile_unconfirmed s) (λ _, True);
  cancel_recovered_ok s job_id :
    good R s.(id) s → does R (calm R K) (cancel_recovered s job_id) (λ _, True);
}.

Section start.
Context (R : string → request) (K : string → Prop) (C : DaemonConfig) (E : LaunchEnv).
Context {P : SubmitRecovery} {HP : SubmitRecoveryOk R K P} (HE : queue_ok R K E.(l_queue)).

Abbreviation calms m Post := (does R (calm R K) m Post).
Abbreviation good := (good R).

Lemma calms_row {A} name (body : res daemon_error JobSpec → A * option JobSpec) (Post : A → Prop) :
  (∀ row, (∀ old, row = Ok old → good name old) →
     Post (body row).1 ∧ ∀ s, (body row).2 = Some s → row_ok R name row s) →
  calms (with_row E.(l_queue) name body) Post.
Proof. intros Hb. eapply does_row; [exact HE|exact _|apply quiet_calm|done]. Qed.

Lemma calms_ask {A} (f : nat → A) : calms (ask f) (λ a, ∃ n, a = f n).
Proof. eapply does_ask, quiet_calm. Qed.

Lemma calms_asking {A B} (f : nat → A) (k : A → DM B) Post :
  (∀ a, calms (k a) Post) → calms (bind (ask f) k) Post.
Proof. intros Hk. eapply does_bind; [exact _|apply calms_ask|auto]. Qed.

Lemma calms_ret {A} (a : A) (Post : A → Prop) : Post a → calms (ret a) Post.
Proof. intros Ha. by apply (does_ret R (calm R K)). Qed.

Lemma calms_throw {A} e (Post : A → Prop) : calms (throw e) Post.
Proof. apply (does_throw R (calm R K)). Qed.

Lemma calms_read name : calms (read_active_spec E.(l_queue) name) (good name).
Proof. eapply does_read; [exact HE|exact _|apply quiet_calm]. Qed.

Lemma calms_update f :
  (∀ d, holders (f d) = holders d ∧ scheduler_submit_last_attempt (f d) = scheduler_submit_last_attempt d) →
  calms (update_daemon f) (λ _, True).
Proof.
  intros Hf. apply does_update; [|done]. intros w. destruct (Hf (dw_daemon w)) as [Hh Hl].
  split; [|by apply kept_same]. split; simpl; try done. intros _. by rewrite Hh.
Qed.

(** Rows that are rewritten only before their end. *)
Lemma row_ok_running name row s old :
  good name s → row = Ok old → is_terminal old = false → row_ok R name row s.
Proof. intros Hg -> Ht. split; [done|]. intros ? [= <-]. by rewrite Ht. Qed.

Lemma row_ok_unreadable name e s : good name s → row_ok R name (Err e) s.
Proof. by split. Qed.

Lemma pending_not_terminal s : s.(state) = PENDING → is_terminal s = false.
Proof. unfold is_terminal. by intros ->. Qed.

Lemma calms_fail_dispatch spec reason : good spec.(id) spec → calms (fail_dispatch E spec reason) (λ _, True).
Proof.
  intros Hg. apply calms_asking; intros now. apply calms_row.
  intros row Hrow. split; [done|]. intros s. destruct row as [old|e]; simpl.
  - destruct (is_terminal old) eqn:Ht; [done|]. intros [= <-]. eapply row_ok_running; [|done|done].
    by destruct (Hrow old).
  - destruct (is_terminal spec); [done|]. intros [= <-]. by apply row_ok_unreadable.
Qed.

Lemma calms_persist spec r :
  good spec.(id) spec →
  calms (persist_program_runtime_resolution E spec r)
    (λ o, ∀ s, o = Some s → good spec.(id) s).
Proof.
  intros Hg. unfold persist_program_runtime_resolution. destruct (res_git_sha r).
  - apply calms_row. intros [old|e] Hrow; simpl; [|done].
    destruct (same_program old spec) eqn:Hs; simpl; [|done].
    destruct (attach_resolution r old) as [s'|] eqn:Ha; simpl; [|done].
    split; [by intros ? [= <-]|]. intros ? [= <-]. eapply row_ok_running; [|done|].
    + destruct (Hrow old) as [? ?]; [done|]. unfold attach_resolution in Ha. repeat case_match; by simplify_eq.
    + apply pending_not_terminal. unfold same_program in Hs. rewrite !andb_true_iff in Hs.
      by destruct Hs as (((((?%bool_decide_eq_true & _) & _) & _) & _) & _).
  - destruct (negb _); [apply calms_ret; by intros ? [= <-]|].
    apply calms_row. intros [old|e] Hrow; simpl; [|done].
    destruct (same_program old spec) eqn:Hs; simpl; [|done].
    split; [by intros ? [= <-]|]. intros ? [= <-]. eapply row_ok_running; [by destruct (Hrow old)|done|].
    apply pending_not_terminal. unfold same_program in Hs. rewrite !andb_true_iff in Hs.
    by destruct Hs as (((((?%bool_decide_eq_true & _) & _) & _) & _) & _).
Qed.

(** *** Claims *)

Lemma calms_claim_container spec :
  calms (claim_container E spec) (λ c, ∀ s, c = Claimed s → good spec.(id) s).
Proof.
  apply calms_asking; intros prepared.
  apply calms_asking; intros now.
  apply does_catch; [exact _| |intros; by apply calms_ret]. apply calms_row.
  intros [old|e] Hrow; simpl; [|done]. case_bool_decide as Hp; simpl; [|done].
  destruct prepared; simpl; [|done]. destruct (Hrow old) as [? ?]; [done|].
  split; [by intros ? [= <-]|]. intros ? [= <-].
  eapply row_ok_running; [done|done|by apply pending_not_terminal].
Qed.

Lemma calms_claim_local job_id spec gs :
  calms (claim_local E job_id spec gs)
    (λ o, ∀ s, o = Some s → good job_id s ∧ default [] s.(gpu_devices) = gs).
Proof.
  apply calms_asking; intros marker.
  apply calms_asking; intros now. apply calms_row.
  intros [old|e] Hrow; simpl; [|done]. case_bool_decide as Hp; simpl; [|done].
  destruct (admin_update_holds_spec _ _); [done|]. destruct (negb _); [done|]. destruct (_ || _); [done|].
  destruct (Hrow old) as [? ?]; [done|]. split.
  - intros ? [= <-]. split; [done|]. simpl. by destruct gs.
  - intros ? [= <-]. eapply row_ok_running; [done|done|by apply pending_not_terminal].
Qed.

Lemma calms_record_pid job_id claimed pid :
  good job_id claimed → calms (record_pid E job_id claimed pid) (λ _, True).
Proof.
  intros Hg. apply calms_asking; intros pgid.
  apply calms_asking; intros start.
  apply calms_asking; intros now. apply calms_row.
  intros [old|e] Hrow; simpl; [|done]. destruct (Hrow old) as [Hi ?]; [done|]. split; [done|].
  destruct (is_terminal old) eqn:Ht; simpl; intros s.
  - rewrite Hi, String.eqb_refl. done.
  - intros [= <-]. by eapply row_ok_running.
Qed.

Lemma calms_claim_submit spec target :
  calms (claim_submit E spec target)
    (λ c, ∀ s, c = Submitting s → good spec.(id) s ∧ s.(scheduler_target) = Some target).
Proof.
  apply calms_asking; intros now.
  apply calms_asking; intros wall. apply calms_row.
  intros [old|e] Hrow; simpl; [|done]. case_bool_decide as Hp; simpl; [|done].
  case_bool_decide as Ht; simpl; [|done]. destruct (negb _); [done|]. destruct (Hrow old) as [Hi Hr]; [done|].
  destruct (wall old); simpl.
  - split; [done|]. intros ? [= <-]. eapply row_ok_running; [done|done|by apply pending_not_terminal].
  - assert (good (id spec) (submitting_spec E now old)
            ∧ scheduler_target (submitting_spec E now old) = Some target) as [Hg Htgt].
    { unfold submitting_spec. simpl. repeat case_match; split; done. }
    split; [by intros ? [= <-]|]. intros ? [= <-].
    eapply row_ok_running; [done|done|by apply pending_not_terminal].
Qed.

(** *** The scheduler transaction *)

Lemma calms_retry_ready spec target : calms (retry_ready E spec target) (λ _, True).
Proof.
  unfold retry_ready. destruct (_ <=? 0); [by apply calms_ret|].
  eapply does_bind; [exact _|apply does_try; [exact _|apply calms_read]|]. intros [s|] _; [|by apply calms_ret].
  destruct (_ || _); [by apply calms_ret|]. eapply does_weaken, calms_ask; done.
Qed.

Lemma calms_mark_unknown durable spec reason : calms (mark_submit_unknown E durable spec reason) (λ _, True).
Proof.
  apply calms_asking; intros now. apply calms_row.
  intros [old|e] Hrow; simpl; [|done]. split; [done|]. case_bool_decide; [done|].
  destruct (Hrow old) as [? ?]; [done|]. intros s. simpl. destruct (is_terminal old) eqn:Ht; intros [= <-].
  - split; [done|]. intros ? [= <-] _. by split_and!; [| |right].
  - by eapply row_ok_running.
Qed.

Lemma calms_fail_scheduler admitted target reason :
  good admitted.(id) admitted → admitted.(scheduler_target) = Some target →
  calms (fail_scheduler_dispatch E admitted target reason) (λ _, True).
Proof.
  intros [Hi Hr] Ht. apply calms_asking; intros now. apply calms_row.
  intros row Hrow. split; [done|].
  assert (good (id admitted) (set_scheduler_job_id None (set_scheduler_state (Some "submit_rejected")
     (set_scheduler_target (Some target) (set_exit_code None (mark_failed now reason admitted)))))) as Hg.
  { split; [done|]. rewrite <- Hr. unfold request_of. simpl. by rewrite Ht. }
  destruct row as [old|e]; simpl; [destruct (is_terminal old) eqn:Ho; [done|]|]; intros s [= <-].
  - by eapply row_ok_running.
  - by apply row_ok_unreadable.
Qed.

Lemma commit_spec_good now s latest job_id name :
  good name s → good name (commit_spec now s latest job_id).
Proof. intros [? ?]. unfold commit_spec. cbn zeta. repeat case_match; split; done. Qed.

Lemma commit_spec_kept now s latest job_id :
  is_terminal latest = true → verdict_kept latest (commit_spec now s latest job_id).
Proof.
  intros Ht. unfold commit_spec. cbn zeta. rewrite Ht.
  rewrite (is_terminal_state latest) by done. rewrite Ht. by split_and!; [| |right].
Qed.

Lemma calms_commit submitted job_id :
  good submitted.(id) submitted →
  calms (commit_submit E submitted job_id) (λ o, ∀ s, o = Some s → good s.(id) s).
Proof.
  intros Hg. apply calms_asking; intros now.
  apply does_catch; [exact _| |intros; by apply calms_ret]. apply calms_row.
  intros row Hrow. simpl. set (latest := match row with Ok latest => latest | Err _ => _ end).
  pose proof (commit_spec_good now submitted latest job_id _ Hg) as Hc. split.
  - intros ? [= <-]. destruct Hc as [Hi Hr]. split; [done|]. by rewrite Hi.
  - intros ? [= <-]. split; [done|]. intros old -> Ht. by apply commit_spec_kept.
Qed.

Lemma calms_start_scheduler spec target :
  good spec.(id) spec → calms (start_scheduler_job E spec target) (λ _, True).
Proof.
  intros Hg. unfold start_scheduler_job. apply calms_asking; intros built.
  destruct (negb built); [by apply calms_fail_dispatch|].
  eapply does_bind; [exact _|apply calms_retry_ready|]. intros ready _.
  destruct (negb ready); [by apply calms_ret|].
  eapply does_bind; [exact _|apply calms_claim_submit|]. intros [| |s] Hs; [by apply calms_ret..|].
  destruct (Hs s) as [[Hi Hr] Ht]; [done|]. assert (good s.(id) s) as Hg' by (split; congruence).
  apply calms_asking; intros [job_id|reason|reason].
  - eapply does_bind; [exact _|by apply calms_update|]. intros [] _.
    eapply does_bind; [exact _|by apply calms_commit|]. intros [c|] Hc; [|by apply calms_ret].
    destruct (is_terminal c); [apply HP; by apply Hc|by apply calms_ret].
  - eapply does_bind; [exact _|apply calms_mark_unknown|]. intros [] _.
    eapply does_bind; [exact _|apply does_try; [exact _|apply calms_read]|]. intros [p|] Hp; [|by apply calms_ret].
    eapply does_bind; [exact _|apply HP|by intros; apply calms_ret].
    destruct (Hp p) as [Hpi Hpr]; [done|]. split; congruence.
  - by apply calms_fail_scheduler.
Qed.

(** *** Computations that may take the request *)

(** A start takes at most the request it was given, and keeps the verdicts. *)
Definition starts (fresh : JobSpec) (gs : list string) (m : DM bool) : Prop :=
  ∀ w, honest R w.(dw_queue) →
    wp m (λ r w', start_effect R fresh gs r w w' ∧ kept_since K w w') w.

Lemma start_after fresh gs r w1 w2 w3 :
  calm R K w1 w2 → start_effect R fresh gs r w2 w3 ∧ kept_since K w2 w3 →
  start_effect R fresh gs r w1 w3 ∧ kept_since K w1 w3.
Proof.
  intros [[Hh Hl Ht Hs _] Hk] [[Hsh Hsl Hst Hss Hsq] Hk']. split; [|by etransitivity].
  split; [|congruence|congruence|by etransitivity|done]. specialize (Hh eq_refl).
  destruct Hsh as [?|(? & ? & gs' & ? & ?)]; [left; by etransitivity|right]. split_and!; [done..|].
  exists gs'. split; [done|]. etransitivity; [done|]. by apply submseteq_skip.
Qed.

Lemma starts_calm fresh gs (m : DM bool) : calms m (λ _, True) → starts fresh gs m.
Proof.
  intros Hm w Hw. eapply wp_mono, Hm; [|done]. intros r w' ([Hr Hk] & Hq & _).
  destruct Hr. split; [|done]. split; auto.
Qed.

Lemma starts_bind {A} fresh gs (m : DM A) (k : A → DM bool) Post :
  calms m Post → (∀ a, Post a → starts fresh gs (k a)) → starts fresh gs (bind m k).
Proof.
  intros Hm Hk w Hw. apply wp_bind. eapply wp_mono, Hm; [|done]. intros [a|e] w' (Hr & Hq & Ha).
  - eapply wp_mono, Hk; [|by apply Ha|done]. intros r w''. by apply start_after.
  - eapply start_after; [exact Hr|]. split; [|by apply kept_same]. split; try done. by left.
Qed.

Lemma starts_asking {A} fresh gs (f : nat → A) (k : A → DM bool) :
  (∀ a, starts fresh gs (k a)) → starts fresh gs (bind (ask f) k).
Proof. intros Hk. eapply starts_bind; [apply calms_ask|auto]. Qed.

(** Tracking the job takes its charge. *)
Lemma track_effect fresh gs w (s : JobSpec) (h : Holder) :
  fresh.(scheduler_target) = None → request_of s = request_of fresh → honest R w.(dw_queue) →
  h.(h_cpus) = s.(cpus) → h.(h_mem_mb) = s.(mem_mb) → h.(h_gpu_devices) ⊆+ gs →
  let w' := MkDWorld (set_running (<[s.(id) := h]> w.(dw_daemon).(running)) w.(dw_daemon))
              w.(dw_queue) w.(dw_tick) w.(dw_trace) w.(dw_seen) in
  start_effect R fresh gs (Ok true) w w' ∧ kept_since K w w'.
Proof.
  intros Ht Hr Hq Hc Hm Hg w'. split; [|by apply kept_same]. split; try done. right.
  split_and!; [done..|]. exists (h_gpu_devices h). split; [done|]. injection Hr as Ec _ Em _.
  assert (MkCharge (cpus fresh) (mem_mb fresh) (h_gpu_devices h) = holder_charge h) as ->
    by (unfold holder_charge; congruence).
  unfold holders. simpl. rewrite !app_comm_cons. apply submseteq_app; [|done].
  apply map_to_list_insert_submseteq.
Qed.

Lemma start_local_ok fresh job_id spec gs :
  fresh.(scheduler_target) = None → request_of fresh = R job_id → good job_id spec → spec.(id) = job_id →
  starts fresh gs (start_local C E job_id spec gs).
Proof.
  intros Ht Hf Hg Hid. unfold start_local. apply starts_asking; intros [].
  { apply starts_calm, calms_throw. }
  eapply (starts_bind _ _ _ _ (λ _, True)).
  { destruct (cgroup_enabled C); [eapply does_weaken, calms_ask; done|by apply calms_ret]. }
  intros [] _; [apply starts_calm, calms_fail_dispatch; by rewrite Hid|].
  apply starts_asking; intros []; [apply starts_calm, calms_throw|].
  eapply starts_bind; [apply calms_claim_local|]. intros [claimed|] Hcl; [|by apply starts_calm, calms_ret].
  destruct (Hcl claimed) as [[Hci Hcr] Hgs]; [done|]. apply starts_asking; intros [pid|].
  - eapply starts_bind; [by apply calms_record_pid|]. intros [e| |] _.
    + apply starts_calm, calms_throw.
    + by apply starts_calm, calms_ret.
    + intros w Hw. apply wp_bind. unfold wp at 1. cbn [update_daemon fst snd]. apply wp_ret.
      rewrite <- Hci. apply track_effect; try done; [congruence|]. simpl. by rewrite Hgs.
  - apply starts_calm, calms_fail_dispatch. by rewrite Hci.
Qed.

(** A restored container is tracked, or nothing happened. *)
Lemma restore_ok fresh gs spec w :
  fresh.(scheduler_target) = None → request_of spec = request_of fresh → honest R w.(dw_queue) →
  wp (restore_managed_container E spec)
    (λ r w', match r with
             | Ok _ => start_effect R fresh gs (Ok true) w w' ∧ kept_since K w w'
             | Err _ => calm R K w w' ∧ honest R w'.(dw_queue)
             end) w.
Proof.
  intros Ht Hr Hw. unfold restore_managed_container. apply wp_bind. unfold wp at 1. cbn [ask fst snd].
  set (w1 := MkDWorld _ _ _ _ _). assert (calm R K w w1) as H1 by (split; [by split|by apply kept_same]).
  destruct (_ && _).
  { apply wp_ret. eapply start_after; [exact H1|]. split; [|by apply kept_same]. split; try done. by left. }
  apply wp_bind. unfold wp at 1. cbn [ask fst snd]. set (w2 := MkDWorld _ _ _ _ _).
  assert (calm R K w w2) as H2 by (etransitivity; [exact H1|split; [by split|by apply kept_same]]).
  destruct (l_setup_fails E _); [by apply wp_throw|]. unfold wp. cbn [update_daemon fst snd].
  eapply start_after; [exact H2|]. apply track_effect; try done. simpl. apply submseteq_nil_l.
Qed.

Lemma start_container_ok fresh spec gs :
  fresh.(scheduler_target) = None → request_of spec = request_of fresh → good spec.(id) spec →
  starts fresh gs (start_managed_container E spec).
Proof.
  intros Ht Hr Hg. unfold start_managed_container.
  eapply starts_bind; [apply calms_claim_container|]. intros claim Hcl. cbn zeta.
  assert (starts fresh gs (do? present := ask (λ n, l_container_present E n (id spec)) in
    if present then do? _ := restore_managed_container E spec in ret true
    else fail_dispatch E spec "managed container")) as Hrec.
  { apply starts_asking; intros []; [|by apply starts_calm, calms_fail_dispatch].
    intros w Hw. apply wp_bind. eapply wp_mono, restore_ok; [|done..]. intros [[]|e] w' Hr'; [by apply wp_ret|].
    destruct Hr' as [Hc Hq]. eapply start_after; [exact Hc|]. split; [|by apply kept_same]. split; try done. by left. }
  destruct claim as [| |c]; [by apply starts_calm, calms_ret|done|].
  destruct (Hcl c) as [Hci Hcr]; [done|]. intros w Hw. apply wp_catch, wp_bind.
  eapply wp_mono, (restore_ok fresh gs); [|done| |done].
  - intros [[]|e] w' Hr'; [by apply wp_ret|]. destruct Hr' as [Hc Hq]. destruct (is_os_or_value_error e).
    + eapply wp_mono, Hrec; [|done]. intros r w''. by apply start_after.
    + eapply start_after; [exact Hc|]. split; [|by apply kept_same]. split; try done. by left.
  - destruct Hg as [_ Hg]. congruence.
Qed.

Lemma vq_start_ok given gs :
  request_of given = R given.(id) → starts given gs (vq_start_job C E given gs).
Proof.
  intros Hgiven. unfold vq_start_job.
  eapply (starts_bind _ _ _ _ (λ o, ∀ s, o = Some s → good given.(id) s)).
  { apply calms_row. intros [old|e] Hrow; simpl; [|done]. split; [|done].
    intros s. case_bool_decide; intros [= <-]. by apply Hrow. }
  intros [spec|] Hs; [|by apply starts_calm, calms_ret]. destruct (Hs spec) as [Hi Hr]; [done|].
  assert (good spec.(id) spec) as Hg by (split; congruence). apply starts_asking; intros now.
  eapply starts_bind; [apply (does_get R (calm R K))|]. intros d _. destruct (_ <? _); [by apply starts_calm, calms_ret|].
  apply starts_asking; intros r. destruct (res_deferred r).
  { apply starts_asking; intros now'. apply starts_calm.
    eapply does_bind; [exact _|by apply calms_update|by intros; apply calms_ret]. }
  eapply starts_bind; [by apply calms_update|]. intros [] _.
  destruct (res_failure r); [by apply starts_calm, calms_fail_dispatch|].
  apply starts_asking; intros [reason|]; [by apply starts_calm, calms_fail_dispatch|].
  eapply starts_bind; [by apply calms_persist|]. intros [spec'|] Hs'; [|by apply starts_calm, calms_ret].
  destruct (Hs' spec') as [Hi' Hr']; [done|]. unfold start_resolved.
  assert (request_of spec' = request_of given) as Hsame by congruence.
  destruct (scheduler_target spec') as [target|] eqn:Et.
  { apply starts_calm, calms_start_scheduler. split; congruence. }
  assert (scheduler_target given = None) as Htg by (injection Hsame; congruence).
  destruct (l_container_requested E _).
  - apply start_container_ok; [done|done|]. split; congruence.
  - apply start_local_ok; [done|done|split; congruence|congruence].
Qed.
End start.

(** ** Reaping *)

(** What [_maybe_spawn_rerun] promises: it tracks nothing. *)
Class RerunOk (R : string → request) (K : string → Prop) (X : Rerun) : Prop := {
  spawn_rerun_ok s : good R s.(id) s → does R (quiet R K) (spawn_rerun s) (λ _, True);
}.

Section reap.
Context (R : string → request) (K : string → Prop) (E : ReapEnv).
Context {X : Rerun} {HX : RerunOk R K X} (HE : queue_ok R K E.(r_queue)).

Abbreviation good := (good R).
Abbreviation quiets m Post := (does R (quiet R K) m Post).

Lemma quiets_asking {A B} (f : nat → A) (k : A → DM B) Post :
  (∀ a, quiets (k a) Post) → quiets (bind (ask f) k) Post.
Proof.
  intros Hk. eapply does_bind; [exact _| |intros a _; apply Hk]. by eapply (does_ask R K (quiet R K)).
Qed.

Lemma annotate_good i rc s name : good name s → good name (annotate i rc s) ∧ verdict_kept s (annotate i rc s).
Proof.
  intros [? ?]. unfold annotate, verdict_kept. destruct (exit_code s) eqn:Ex; cbn zeta.
  - destruct (failure_tail s); [by split_and!; auto|]. case_bool_decide; split_and!; auto; by split.
  - simpl. destruct (failure_tail s); [|case_bool_decide]; split_and!; auto; by split.
Qed.

(** What the end of a child may write, and the survivor it leaves behind. *)
Lemma finish_row_ok i name rj rc s f o :
  good name s → finish_row E i name rj rc s = (f, o) →
  (∀ s', o = Some s' → row_ok R name (Ok s) s')
  ∧ (∀ s', f = Finished s' → good name s')
  ∧ (∀ s' t, f = Preserved s' (Some t) → survivor_charge t = holder_charge rj).
Proof.
  intros Hg. unfold finish_row. destruct (is_terminal s) eqn:Ht.
  - intros [= <- <-]. destruct (annotate_good i rc s name Hg) as [Hg' Hk]. split_and!.
    + intros s'. case_bool_decide; [done|]. intros [= <-]. split; [done|]. by intros ? [= <-].
    + done.
    + intros s' t [= _ Hsv]. destruct (reap_stranded_group _ _ _ _); [done|].
      unfold terminal_survivor in Hsv. repeat case_match; by simplify_eq.
  - destruct (if rc =? 0 then None else _) as [s1|] eqn:Er; intros [= <- <-].
    + split_and!; try done. intros s' [= <-]. eapply row_ok_running; [|done|done].
      destruct (rc =? 0); [done|]. unfold maybe_retry in Er. repeat case_match; simplify_eq. by destruct Hg.
    + set (s1 := set_finished_at _ _). assert (good name s1) as Hs1.
      { unfold s1. case_bool_decide; [destruct (fi_tail i _)|]; by destruct Hg. }
      split_and!; [|by intros ? [= <-]|done]. intros s' [= <-]. by eapply row_ok_running.
Qed.

Lemma container_verdict_ok now req s name :
  good name s → good name (container_verdict now req s)
  ∧ (is_terminal s = true → container_verdict now req s = s).
Proof.
  intros [? ?]. unfold container_verdict. destruct req as [[st reason]|]; [|done].
  destruct (is_terminal s); [done|]. by split.
Qed.

Lemma finish_locked_ok i name rj rc row f o :
  (∀ old, row = Ok old → good name old) → finish_locked E i name rj rc row = (f, o) →
  (∀ s', o = Some s' → row_ok R name row s')
  ∧ (∀ s', f = Finished s' → good name s')
  ∧ (∀ s' t, f = Preserved s' (Some t) → survivor_charge t = holder_charge rj).
Proof.
  intros Hrow. unfold finish_locked. destruct row as [s|e]; [|by intros [= <- <-]].
  specialize (Hrow s eq_refl). destruct (h_container rj); [|by apply finish_row_ok].
  destruct (fi_container i) as [[[] req]|]; [|by intros [= <- <-]..].
  destruct (container_verdict_ok (fi_now i) req s name Hrow) as [Hg Hsame].
  destruct (finish_row E i name rj rc (container_verdict (fi_now i) req s)) as [f' o'] eqn:Ef.
  apply finish_row_ok in Ef as (H1 & H2 & H3); [|done].
  destruct o' as [s1|]; intros [= <- <-]; (split_and!; [|done..]); intros s' Hs'.
  - injection Hs' as <-. destruct (H1 s1) as [? Hv]; [done|]. split; [done|]. intros ? [= <-] Ht.
    apply Hv; [by rewrite Hsame|done].
  - case_bool_decide as Heq; [done|]. injection Hs' as <-. split; [done|]. intros ? [= <-] Ht.
    by rewrite Hsame in Heq.
Qed.

Definition with_survivor (jobid : string) (t : TerminalSurvivor) (w : dworld) : dworld :=
  MkDWorld (set_terminal_survivors (<[jobid := t]> w.(dw_daemon).(terminal_survivors)) w.(dw_daemon))
    w.(dw_queue) w.(dw_tick) w.(dw_trace) w.(dw_seen).

Lemma record_finish_ok jobid rj rc w :
  honest R w.(dw_queue) →
  wp (record_finish E jobid rj rc) (λ r w', ∃ w1, quiet R K w w1 ∧ honest R w1.(dw_queue) ∧
    (w' = w1 ∨ r = Ok true ∧ ∃ t, survivor_charge t = holder_charge rj ∧ w' = with_survivor jobid t w1)) w.
Proof.
  intros Hw. set (Post := λ f, (∀ s', f = Finished s' → good jobid s')
    ∧ ∀ s' t, f = Preserved s' (Some t) → survivor_charge t = holder_charge rj).
  assert (quiets (do? now := ask E.(r_utcnow) in
    do? mono := ask E.(r_monotonic) in
    do? alive := ask E.(r_pgroup_alive) in
    do? container := ask (λ n, E.(r_container_result) n jobid) in
    do? repaired := ask E.(r_claim_repaired) in
    do? tail := ask E.(r_stderr_tail) in
    with_row E.(r_queue) jobid (finish_locked E (MkFinishInputs now mono alive container repaired tail) jobid rj rc)) Post)
    as Hlock.
  { do 6 (apply quiets_asking; intros ?). eapply does_row; [exact HE|exact _|done|]. intros row Hrow.
    destruct (finish_locked _ _ _ _ _ _) as [f o] eqn:Ef. apply finish_locked_ok in Ef as (? & ? & ?); done. }
  assert (∀ f, Post f → ∀ w, honest R w.(dw_queue) →
    wp (match f with
        | FinishUnreadable e => throw e
        | NotSettled => ret false
        | Preserved _ None | Retried => ret true
        | Preserved _ (Some t) =>
          do? _ := update_daemon (λ d, set_terminal_survivors (<[jobid := t]> d.(terminal_survivors)) d) in ret true
        | Finished s => do? _ := spawn_rerun s in ret true
        end) (λ r w', ∃ w1, quiet R K w w1 ∧ honest R w1.(dw_queue) ∧
      (w' = w1 ∨ r = Ok true ∧ ∃ t, survivor_charge t = holder_charge rj ∧ w' = with_survivor jobid t w1)) w)
    as Hrest.
  { intros f [Hf1 Hf2] w1 Hw1. destruct f as [e| |s [t|]| |s]; try (exists w1; split_and!; [done|done|by left]).
    - exists w1. split_and!; [done..|]. right. split; [done|]. exists t. split; [by eapply Hf2|done].
    - apply wp_bind. destruct (Hf1 s) as [Hsi Hsr]; [done|].
      eapply wp_mono, spawn_rerun_ok; [|split; congruence|done].
      intros [[]|e] w2 (Hq2 & Hh2 & _); [apply wp_ret|]; exists w2; auto. }
  specialize (Hlock w Hw). unfold record_finish. revert Hlock. unfold wp, bind. cbn [ask fst snd].
  destruct (with_row _ _ _ _) as [[f|e] w1] eqn:Ew; cbn [fst snd]; intros (Hq1 & Hh1 & Hf).
  - destruct (Hrest f (Hf f eq_refl) w1 Hh1) as (w2 & Hq2 & Hh2 & Hw2). exists w2.
    split_and!; [by etransitivity|done|exact Hw2].
  - exists w1. auto.
Qed.

(** *** The pass over the children *)

Definition charges (d : Daemon) : gmap string Charge := holder_charge <$> d.(running).

(** Between two children: the running charges are as they were; what is held
    by survivors was held by survivors, or by the children finished so far. *)
Record reaping (w0 : dworld) (finished : list string) (w : dworld) : Prop := {
  rp_running : charges w.(dw_daemon) = charges w0.(dw_daemon);
  rp_orphans : w.(dw_daemon).(orphans) = w0.(dw_daemon).(orphans);
  rp_survivors : survivor_charge <$> (map_to_list w.(dw_daemon).(terminal_survivors)).*2
    ⊆+ omap (charges w0.(dw_daemon) !!.) finished
       ++ (survivor_charge <$> (map_to_list w0.(dw_daemon).(terminal_survivors)).*2);
  rp_last : w.(dw_daemon).(scheduler_submit_last_attempt)
            = w0.(dw_daemon).(scheduler_submit_last_attempt);
  rp_trace : w.(dw_trace) = w0.(dw_trace);
  rp_kept : kept_since K w0 w;
  rp_honest : honest R w.(dw_queue);
}.

(** What is left when a child's end raises. *)
Definition interrupted (w0 w : dworld) : Prop :=
  released_if R false w0 w ∧ kept_since K w0 w ∧ charges w.(dw_daemon) = charges w0.(dw_daemon).

Lemma kept_since_seen w w' : kept_since K w w' → w.(dw_seen) `prefix_of` w'.(dw_seen).
Proof. intros (met & -> & _). by eexists. Qed.

Lemma reaping_interrupted w0 f w : reaping w0 f w → interrupted w0 w.
Proof. intros []. split_and!; [|done..]. split; try done. by apply kept_since_seen. Qed.

Lemma reaping_quiet w0 f w w' : reaping w0 f w → quiet R K w w' → reaping w0 f w'.
Proof.
  intros [] [[[Hr Ho Hs _ Hl _] ? ? ?] ?]. split; unfold charges; rewrite ?Hr, ?Ho, ?Hs, ?Hl; try done.
  - congruence.
  - by etransitivity.
  - auto.
Qed.

(** The mutable fields of a tracked child are not its charge. *)
Lemma reaping_holder w0 f w jobid h h' :
  reaping w0 f w → charges w0.(dw_daemon) !! jobid = Some (holder_charge h) →
  holder_charge h' = holder_charge h →
  reaping w0 f (MkDWorld (set_running (<[jobid := h']> w.(dw_daemon).(running)) w.(dw_daemon))
                  w.(dw_queue) w.(dw_tick) w.(dw_trace) w.(dw_seen)).
Proof.
  intros [] Hj Hh. split; try done.
  unfold charges. simpl. rewrite fmap_insert, Hh. rewrite insert_id; [done|]. by rewrite <- rp_running0 in Hj.
Qed.

Lemma reaping_survivor w0 f w jobid h t :
  reaping w0 f w → charges w0.(dw_daemon) !! jobid = Some (holder_charge h) →
  survivor_charge t = holder_charge h → reaping w0 (f ++ [jobid]) (with_survivor jobid t w).
Proof.
  intros [] Hj Ht. split; try done; simpl.
  etransitivity; [apply map_to_list_insert_submseteq|]. rewrite Ht, omap_app. csimpl. rewrite Hj.
    rewrite <- app_assoc. simpl. rewrite <- Permutation_middle. by apply submseteq_skip.
Qed.

Lemma reaping_finished w0 f w jobid : reaping w0 f w → reaping w0 (f ++ [jobid]) w.
Proof.
  intros []. split; try done. etransitivity; [done|]. rewrite omap_app, <- app_assoc.
  apply submseteq_app; [done|]. by apply submseteq_inserts_l.
Qed.

Definition reaped (w0 : dworld) (r : res daemon_error (list string)) (w : dworld) : Prop :=
  match r with Ok f => reaping w0 f w | Err _ => interrupted w0 w end.

Lemma escalate_ok w0 f jobid h w :
  reaping w0 f w → charges w0.(dw_daemon) !! jobid = Some (holder_charge h) →
  wp (escalate_if_killed E jobid h)
    (λ r w', match r with Ok _ => reaping w0 f w' | Err _ => interrupted w0 w' end) w.
Proof.
  intros Hi Hj. unfold escalate_if_killed. destruct (h_term_sigkilled h); [by apply wp_ret|].
  assert (∀ w1, quiet R K w w1 → reaping w0 f w1) as Hq by (intros; by eapply reaping_quiet).
  assert (quiets (catch (do? s := read_active_spec E.(r_queue) jobid in ret (Some s))
            is_os_or_value_error (λ _, ret None)) (λ _, True)) as Hread.
  { eapply does_weaken; [done| |apply (does_try R (quiet R K)); by eapply (does_read R K _ HE (quiet R K))]. done. }
  apply wp_bind. eapply wp_mono, Hread; [|by apply Hi]. intros [[spec|]|e] w1 (Hq1 & _ & _);
    [|by apply wp_ret, Hq|by eapply reaping_interrupted, Hq].
  assert (∀ h' w2, quiet R K w w2 → holder_charge h' = holder_charge h →
            wp (update_holder jobid h') (λ r w', match r with Ok _ => reaping w0 f w' | Err _ => interrupted w0 w' end) w2)
    as Hset.
  { intros h' w2 Hq2 Hh'. unfold wp. simpl. eapply reaping_holder; [by apply Hq|done|done]. }
  destruct (negb _); [by apply Hset|]. destruct (pgid spec); [|by apply wp_ret, Hq].
  apply wp_bind. unfold wp at 1. cbn [ask fst snd]. set (w2 := MkDWorld _ _ _ _ _).
  assert (quiet R K w w2) as Hq2 by (etransitivity; [exact Hq1|]; split; [by split|by apply kept_same]).
  destruct (h_term_deadline h); [|by apply Hset]. destruct (_ <? _); [by apply wp_ret, Hq|by apply Hset].
Qed.

Lemma poll_child_ok jobid h : quiets (poll_child E jobid h) (λ _, True).
Proof.
  unfold poll_child. destruct (h_container h).
  - apply does_catch; [exact _| |intros; by apply (does_ret R (quiet R K))].
    eapply does_bind; [exact _|by eapply (does_read R K _ HE (quiet R K))|]. intros s _.
    eapply does_weaken, (does_ask R K (quiet R K)); done.
  - apply quiets_asking; intros rc. by apply (does_ret R (quiet R K)).
Qed.

Lemma reconcile_one_ok w0 f jobid h w :
  reaping w0 f w → charges w0.(dw_daemon) !! jobid = Some (holder_charge h) →
  wp (reconcile_one E f (jobid, h))
    (λ r w', reaped w0 r w' ∧ ∀ f', r = Ok f' → f' = f ∨ f' = f ++ [jobid]) w.
Proof.
  intros Hi Hj. unfold reconcile_one. apply wp_bind. eapply wp_mono, poll_child_ok; [|apply Hi].
  intros r w1 (Hq1 & Hh1 & _). assert (reaping w0 f w1) as Hi1 by by eapply reaping_quiet.
  assert (∀ w2, reaping w0 f w2 → wp (ret f) (λ r w', reaped w0 r w' ∧ ∀ f', r = Ok f' → f' = f ∨ f' = f ++ [jobid]) w2)
    as Hsame by (intros w2 Hi2; apply wp_ret; split; [done|]; intros ? [= <-]; by left).
  destruct r as [[[rc|]|]|e]; [| |by apply Hsame|split; [by eapply reaping_interrupted|done]].
  - apply wp_bind. eapply wp_mono, record_finish_ok; [|done]. intros r w2 (w2' & Hq2 & Hh2 & Hw2).
    assert (reaping w0 f w2') as Hi2 by by eapply reaping_quiet.
    destruct Hw2 as [->|(-> & t & Ht & ->)].
    + destruct r as [[]|e]; [|by apply Hsame|split; [by eapply reaping_interrupted|done]].
      apply wp_ret. split; [by apply reaping_finished|]. intros ? [= <-]. by right.
    + apply wp_ret. split; [by eapply reaping_survivor|]. intros ? [= <-]. by right.
  - destruct (h_container h); [by apply Hsame|]. apply wp_bind. eapply wp_mono, escalate_ok; [|done..].
    intros [[]|e] w2 Hi2; [by apply Hsame|done].
Qed.

Lemma finished_nodup (f f' : list string) j (l : list string) :
  NoDup (f ++ j :: l) → f' = f ∨ f' = f ++ [j] → NoDup (f' ++ l).
Proof.
  intros Hnd [->| ->].
  - eapply submseteq_NoDup; [|exact Hnd]. apply submseteq_app; [done|]. by apply submseteq_cons.
  - by rewrite <- app_assoc.
Qed.

Lemma reconcile_all_ok w0 l f w :
  NoDup (f ++ l.*1) → (∀ j h, (j, h) ∈ l → charges w0.(dw_daemon) !! j = Some (holder_charge h)) →
  reaping w0 f w →
  wp (foldM (reconcile_one E) f l) (λ r w', reaped w0 r w' ∧ ∀ f', r = Ok f' → NoDup f') w.
Proof.
  revert f w. induction l as [|[j h] l IH]; intros f w Hnd Hl Hi; simpl.
  { apply wp_ret. split; [done|]. intros ? [= <-]. by rewrite app_nil_r in Hnd. }
  apply wp_bind. eapply wp_mono, reconcile_one_ok; [|done|apply Hl; set_solver].
  intros [f'|e] w' [Hi' Hf']; [|done]. apply IH; [|set_solver|done].
  eapply finished_nodup; [exact Hnd|by apply Hf'].
Qed.

(** Nothing is taken: what a finished child held, at most its survivor holds. *)
Lemma reaping_released w0 f w :
  NoDup f → reaping w0 f w →
  let w' := MkDWorld (set_running (foldr delete w.(dw_daemon).(running) f) w.(dw_daemon))
              w.(dw_queue) w.(dw_tick) w.(dw_trace) w.(dw_seen) in
  released_if R true w0 w' ∧ kept_since K w0 w'.
Proof.
  intros Hf [Hr Ho Hs Hl Ht Hk Hh] w'. split; [|etransitivity; [exact Hk|by apply kept_same]].
  split; simpl; try done; [intros _|by apply kept_since_seen].
  assert (∀ m : gmap string Holder, holder_charge <$> (map_to_list m).*2
            = (map_to_list (holder_charge <$> m)).*2) as Hmap.
  { intros m. rewrite map_to_list_fmap, <- !list_fmap_compose. by apply list_fmap_ext. }
  assert (holder_charge <$> foldr delete (running (dw_daemon w)) f
          = foldr delete (charges (dw_daemon w0)) f) as Hfold.
  { rewrite <- Hr. unfold charges. clear. induction f as [|j f IH]; [done|]. simpl. by rewrite fmap_delete, IH. }
  unfold holders. simpl. rewrite !Hmap, Hfold, Ho. fold (charges (dw_daemon w0)).
  rewrite <- (map_to_list_foldr_delete (charges (dw_daemon w0)) f) by done.
  rewrite <- app_assoc. apply submseteq_app; [done|]. etransitivity; [apply submseteq_app; [done|exact Hs]|].
  by rewrite !app_assoc, (Permutation_app_comm _ (omap _ _)).
Qed.

Lemma vq_reconcile_ok w :
  honest R w.(dw_queue) →
  wp (vq_reconcile_running E) (λ r w', released_if R (is_ok r) w w' ∧ kept_since K w w') w.
Proof.
  intros Hw. unfold vq_reconcile_running. apply wp_bind. unfold wp at 1. cbn [get_daemon fst snd].
  apply wp_bind. eapply wp_mono, (reconcile_all_ok w); [| | |].
  - intros [f|e] w' [Hi Hf]; [|by destruct Hi as (? & ? & _)]. unfold wp. cbn [update_daemon fst snd].
    apply reaping_released; [by apply Hf|done].
  - simpl. apply NoDup_fst_map_to_list.
  - intros j h Hj%elem_of_map_to_list. unfold charges. by rewrite lookup_fmap, Hj.
  - split; try done.
Qed.
End reap.

(** ** The interface, discharged *)

Section launcher.
Context (R : string → request) (C : DaemonConfig) (E : LaunchEnv) (F : ReapEnv).
Context (P : SubmitRecovery) (X : Rerun) (reconcile_sched : DM unit).

(** The daemon's launcher; the reconciliation of scheduler jobs is another part. *)
Definition vq_launcher : Launcher := {|
  start_job := vq_start_job C E;
  reconcile_running := vq_reconcile_running F;
  reconcile_scheduler := reconcile_sched;
|}.

Lemma vq_launcher_ok :
  queue_ok R (λ _, False) E.(l_queue) → queue_ok R (λ _, False) F.(r_queue) →
  SubmitRecoveryOk R (λ _, False) P → RerunOk R (λ _, False) X →
  (∀ w, honest R w.(dw_queue) → wp reconcile_sched (λ r w', released_if R (is_ok r) w w') w) →
  LauncherOk R vq_launcher.
Proof.
  intros HE HF HP HX Hs. split; simpl; [| |done].
  - intros fresh gs w Hw Hr. eapply wp_mono; [|by apply (vq_start_ok R (λ _, False) C E HE)]. by intros ? ? [].
  - intros w Hw. eapply wp_mono; [|by apply (vq_reconcile_ok R (λ _, False) F HF)]. by intros ? ? [].
Qed.
End launcher.
