(* ===== verification/LaunchGuarantees.v ===== *)
(** * What the launcher and the reaper guarantee

    A verdict another process writes is never overwritten; a start that
    answers True left the job durable and tracked; an ended child frees its
    resources only when its processes are gone; retries are bounded; and what
    an unreadable row does to the reaper. *)

From S2P Require Import Prelude Spec Admission DaemonCore Dispatch DaemonLogic DispatchSafety Launch Reap LaunchSafety.

(** ** Verdicts *)

(** Whatever the daemon does to start a job (resolution, claim, spawn,
    submission, failure, with every write failing or not), the label, the end
    time and the recorded exit code of a terminal row are never changed: a
    [vq kill] that lands at any moment of the start, between any two of its
    accesses to the queue, stands when the start is over, provided the other
    processes and the submission recovery do not take verdicts back. *)
Theorem start_keeps_verdicts R K C E (P : SubmitRecovery) given gs w r w' :
  queue_ok R K E.(l_queue) → SubmitRecoveryOk R K P →
  honest R w.(dw_queue) → request_of given = R given.(id) →
  vq_start_job C E given gs w = (r, w') → kept_since K w w'.
Proof.
  intros HE HP Hw Hr Hrun. by destruct (wp_elim _ _ _ _ _ (vq_start_ok R K C E HE given gs Hr w Hw) Hrun).
Qed.

(** C19: the same for the reaper: recording the end of children, retrying
    them, tracking their survivors and escalating kills changes no verdict,
    also when it raises half way. *)
Theorem reap_keeps_verdicts R K E (X : Rerun) w r w' :
  queue_ok R K E.(r_queue) → RerunOk R K X → honest R w.(dw_queue) →
  vq_reconcile_running E w = (r, w') → kept_since K w w'.
Proof.
  intros HE HX Hw Hrun. by destruct (wp_elim _ _ _ _ _ (vq_reconcile_ok R K E HE w Hw) Hrun).
Qed.

(** ** A successful local start *)

Lemma bind_ok {A B} (m : DM A) (k : A → DM B) w b w' :
  bind m k w = (Ok b, w') → ∃ a w1, m w = (Ok a, w1) ∧ k a w1 = (Ok b, w').
Proof. unfold bind. destruct (m w) as [[a|e] w1]; [by eauto|done]. Qed.

Lemma with_row_ok {A} Q name (body : res daemon_error JobSpec → A * option JobSpec) w a w' :
  with_row Q name body w = (Ok a, w') →
  ∃ q, w'.(dw_seen) = w.(dw_seen) ++ [q] ∧ w'.(dw_daemon) = w.(dw_daemon)
    ∧ a = (body (read_spec q name)).1
    ∧ w'.(dw_queue) = match (body (read_spec q name)).2 with
                      | Some s => <[name := Some s]> q | None => q end.
Proof.
  unfold with_row, access. set (q := q_interfere _ _ _). exists q.
  destruct (body (read_spec q name)) as [a' [s|]]; [destruct (q_write_fails _ _)|]; by simplify_eq/=.
Qed.

Ltac run_steps H :=
  repeat match type of H with
  | bind (ask _) _ _ = (Ok _, _) =>
      let a := fresh "a" in let w := fresh "w" in let E := fresh "E" in
      apply bind_ok in H as (a & w & E & H); unfold ask in E; injection E as <- <-
  end.

(** The job as it is after a local start answered True. *)
Definition started_local (job_id : string) (gs : list string) (w w' : dworld) : Prop :=
  ∃ q old s child h,
    q ∈ w'.(dw_seen) ∧ read_spec q job_id = Ok old ∧ old.(state) = PENDING
    ∧ w'.(dw_queue) !! job_id = Some (Some s) ∧ s.(state) = RUNNING ∧ s.(pid) = Some child
    ∧ s.(retry_count) = old.(retry_count) ∧ request_of s = request_of old
    ∧ default 0 s.(gpus) = Z.of_nat (length gs)
    ∧ w'.(dw_daemon).(running) = <[job_id := h]> w.(dw_daemon).(running)
    ∧ holder_charge h = MkCharge s.(cpus) s.(mem_mb) gs ∧ h.(h_term_sigkilled) = false.

Lemma claim_local_ok E job_id spec gs w claimed w' :
  claim_local E job_id spec gs w = (Ok (Some claimed), w') →
  ∃ q old now wd, q ∈ w'.(dw_seen) ∧ w'.(dw_daemon) = w.(dw_daemon)
    ∧ read_spec q job_id = Ok old ∧ old.(state) = PENDING
    ∧ default 0 old.(gpus) = Z.of_nat (length gs) ∧ claimed = claimed_spec now wd gs old.
Proof.
  unfold claim_local. intros Hc. run_steps Hc.
  apply with_row_ok in Hc as (q & Hseen & Hd & Hb & _). simpl in Hd.
  destruct (read_spec q job_id) as [old|e] eqn:Hq; [|done]. simpl in Hb.
  case_bool_decide as Hp; simpl in Hb; [|done]. destruct (admin_update_holds_spec _ _); [done|].
  destruct (negb _); [done|]. destruct (negb (bool_decide (gpus old = _))); simpl in Hb; [done|].
  destruct (default 0 (gpus old) =? _) eqn:Hg; simpl in Hb; [|done]. injection Hb as ->.
  apply Z.eqb_eq in Hg. exists q, old. eexists _, _. rewrite Hseen. split_and!; [set_solver|done..].
Qed.

Lemma record_pid_ok E job_id claimed pid w w' :
  record_pid E job_id claimed pid w = (Ok Recorded, w') →
  ∃ q start pg now, w'.(dw_seen) = w.(dw_seen) ++ [q] ∧ w'.(dw_daemon) = w.(dw_daemon)
    ∧ w'.(dw_queue) !! job_id = Some (Some (set_started_at (Some (Aware now))
        (set_pid_start_time start (set_pgid pg (set_pid (Some pid) claimed))))).
Proof.
  unfold record_pid. intros Hr. run_steps Hr.
  apply with_row_ok in Hr as (q & Hseen & Hd & Hb & Hq). simpl in *.
  destruct (read_spec q job_id) as [old|e]; [|done]. simpl in *. destruct (is_terminal old); [done|].
  eexists q, _, _, _. split_and!; [done..|]. rewrite Hq. by apply lookup_insert_eq.
Qed.

Lemma start_local_true C E job_id spec gs w w' :
  start_local C E job_id spec gs w = (Ok true, w') → started_local job_id gs w w'.
Proof.
  unfold start_local. intros H. run_steps H. destruct (l_setup_fails E _); [done|].
  apply bind_ok in H as (leaked & w1 & Hl & H). assert (dw_daemon w1 = dw_daemon w) as Hd1.
  { destruct (cgroup_enabled C); by injection Hl as _ <-. }
  destruct leaked; [|run_steps H].
  { unfold fail_dispatch in H. run_steps H. apply with_row_ok in H as (q & _ & _ & Hb & _).
    by destruct (is_terminal _) in Hb. }
  destruct (l_setup_fails E _); [done|]. apply bind_ok in H as (claim & w2 & Hc & H).
  destruct claim as [claimed|]; [|done].
  apply claim_local_ok in Hc as (q & old & now & wd & Hq & Hd2 & Hold & Hp & Hg & ->). run_steps H.
  destruct (l_spawn E _ _) as [pid|].
  - apply bind_ok in H as (post & w3 & Hr & H). destruct post; [done|done|].
    apply record_pid_ok in Hr as (q' & start & pg & now' & Hseen & Hd3 & Hrow). simpl in Hseen, Hd3.
    injection H as <-. eexists q, old, _, pid, _. simpl. rewrite Hd3, Hd2, Hseen. simpl. rewrite Hd1.
    split_and!; try done; [set_solver|]. unfold holder_charge. simpl. by destruct gs.
  - unfold fail_dispatch in H. run_steps H. apply with_row_ok in H as (q' & _ & _ & Hb & _).
    by destruct (is_terminal _) in Hb.
Qed.

Lemma persist_same_daemon E spec r w o w' :
  persist_program_runtime_resolution E spec r w = (Ok o, w') → w'.(dw_daemon) = w.(dw_daemon).
Proof.
  unfold persist_program_runtime_resolution. destruct (res_git_sha r).
  - by intros (q & _ & ? & _)%with_row_ok.
  - destruct (negb _); [by intros [= _ <-]|]. by intros (q & _ & ? & _)%with_row_ok.
Qed.

Lemma fail_dispatch_false E spec reason w w' : fail_dispatch E spec reason w ≠ (Ok true, w').
Proof.
  unfold fail_dispatch. intros H. run_steps H. apply with_row_ok in H as (q & _ & _ & Hb & _).
  by destruct (is_terminal _) in Hb.
Qed.

Section started.
Context (R : string → request) (C : DaemonConfig) (E : LaunchEnv) {P : SubmitRecovery}.
Context (HE : queue_ok R (λ _, False) E.(l_queue)).

(** A start of a local job that answers True left the job durable and
    tracked: the row was PENDING when it was claimed, is now RUNNING with the
    child's pid, the same request and exactly as many devices as it asked
    for, and the daemon tracks precisely this job, charged with what the row
    asks for. *)
Theorem start_true_durable given gs w w' :
  honest R w.(dw_queue) → request_of given = R given.(id) → given.(scheduler_target) = None →
  (∀ c, E.(l_container_requested) c = false) →
  vq_start_job C E given gs w = (Ok true, w') → started_local given.(id) gs w w'.
Proof.
  intros Hw Hg Ht Hc H. unfold vq_start_job in H. apply bind_ok in H as (fresh & w1 & H1 & H).
  assert (∃ q, fresh = match read_spec q given.(id) with
            | Ok s => if bool_decide (state s = PENDING) then Some s else None | Err _ => None end
          ∧ honest R q ∧ w1.(dw_queue) = q ∧ w1.(dw_daemon) = w.(dw_daemon)) as (q & -> & Hq & Hq1 & Hd1).
  { unfold with_row, access in H1. injection H1 as <- <-. eexists. split_and!; [done|by apply HE|done..]. }
  destruct (read_spec q (id given)) as [spec|e] eqn:Hread; [|done].
  assert (good R given.(id) spec) as [Hsi Hsr].
  { unfold read_spec in Hread. destruct (q !! id given) as [[s|]|] eqn:Eq; simplify_eq. by apply Hq. }
  destruct (bool_decide (state spec = PENDING)); [|done]. run_steps H.
  apply bind_ok in H as (d & w2 & [= <- <-] & H). destruct (_ <? _); [done|]. run_steps H.
  destruct (res_deferred _).
  { run_steps H. by apply bind_ok in H as ([] & w2 & _ & H). }
  apply bind_ok in H as ([] & w2 & [= <-] & H). destruct (res_failure _); [by apply fail_dispatch_false in H|].
  run_steps H. destruct (l_bundle_failure E _ _); [by apply fail_dispatch_false in H|].
  apply bind_ok in H as (persisted & w3 & Hp & H). destruct persisted as [spec'|]; [|done].
  assert (good R spec.(id) spec') as [Hi' Hr'].
  { eapply wp_elim in Hp; [|apply (calms_persist R (λ _, False)); [exact HE|split; congruence|simpl; by rewrite Hq1]].
    destruct Hp as (_ & _ & Hp). exact (Hp _ eq_refl _ eq_refl). }
  apply persist_same_daemon in Hp as Hd3. unfold start_resolved in H.
  assert (scheduler_target spec' = None) as Hts.
  { assert (request_of spec' = request_of given) as Hs by congruence. by injection Hs; congruence. }
  rewrite Hts, Hc in H. apply start_local_true in H as (q' & old & s & child & h & H). 
  exists q', old, s, child, h. by rewrite Hd3 in H; simpl in H; rewrite Hd1 in H.
Qed.

End started.

(** ** Retries *)

(** What an attempt may do to its row before it ends: anything but the retry budget. *)
Definition same_budget (s s' : JobSpec) : Prop :=
  s'.(retry_count) = s.(retry_count) ∧ s'.(retry_max) = s.(retry_max).

(** One more attempt: the row changes, then its end is turned into a retry. *)
Definition another_attempt (s s' : JobSpec) : Prop :=
  ∃ ended jobid now repaired, same_budget s ended ∧ maybe_retry jobid now repaired ended = Some s'.

(** A row as if never tried: only the counter and the wait tell. *)
Definition fresh_attempt (s : JobSpec) : Prop :=
  s.(state) = PENDING ∧ s.(pid) = None ∧ s.(pgid) = None ∧ s.(started_at) = None
  ∧ s.(exit_code) = None ∧ s.(scheduler_job_id) = None ∧ s.(scheduler_submitted_at) = None
  ∧ s.(program_runtime_pin) = without_resolution <$> s.(program_runtime_pin).

Lemma without_resolution_idem p : without_resolution (without_resolution p) = without_resolution p.
Proof. by destruct p. Qed.

Lemma another_attempt_fresh s s' :
  another_attempt s s' →
  fresh_attempt s' ∧ s'.(retry_count) = s.(retry_count) + 1 ∧ s'.(retry_max) = s.(retry_max)
  ∧ s.(retry_count) < s.(retry_max).
Proof.
  intros (ended & jobid & now & repaired & [Hc Hm] & Hr). unfold maybe_retry in Hr.
  destruct (Z.leb_spec (retry_max ended) 0); [done|].
  destruct (Z.leb_spec (retry_max ended) (retry_count ended)); [done|].
  destruct repaired; [|done]. injection Hr as <-. unfold fresh_attempt. simpl.
  split_and!; try done; [|lia..].
  destruct (program_runtime_pin ended); [|done]. simpl. by rewrite without_resolution_idem.
Qed.

(** Retries end.  From a row with its counter at [c], a chain of retries
    is at most [retry_max - c] long, whatever each attempt did to the row in
    between; the counter counts them, and every retried row is clean of the
    attempt before it: pending, without process ids, start time, exit code,
    scheduler job or resolved runtime. *)
Theorem retries_bounded n s s' :
  nsteps another_attempt n s s' →
  (n = 0%nat ∧ s' = s)
  ∨ (fresh_attempt s' ∧ s'.(retry_count) = s.(retry_count) + Z.of_nat n
     ∧ s.(retry_count) + Z.of_nat n <= s.(retry_max)).
Proof.
  assert (nsteps another_attempt n s s' →
    s'.(retry_max) = s.(retry_max) ∧ ((n = 0%nat ∧ s' = s)
    ∨ (fresh_attempt s' ∧ s'.(retry_count) = s.(retry_count) + Z.of_nat n
       ∧ s.(retry_count) + Z.of_nat n <= s.(retry_max)))) as Hgo; [|by intros [_ ?]%Hgo].
  intros H. induction H as [s|n s1 s2 s3 Hstep Hrest IH]; [by auto|].
  apply another_attempt_fresh in Hstep as (Hf & Hc & Hm & Hlt).
  destruct IH as [Hm' [[-> ->]|(Hf' & Hc' & Hle)]]; (split; [congruence|right]).
  - split_and!; [done|lia..].
  - split_and!; [done|rewrite Hc', Hc; lia|rewrite Hc in Hle; rewrite Hm in Hle; lia].
Qed.

(** ** Survivors *)

(** A child whose row already carries a terminal label leaves its
    reservation behind exactly when its process group may still hold the
    host: the row names a group, not the daemon's own, that still answers,
    that was not sent SIGKILL, and that is not being reaped as stranded.  The
    survivor is charged what the child was, under the row's label, until the
    kill escalation's deadline. *)
Theorem survivor_exact E i jobid rj rc s t :
  is_terminal s = true →
  (∃ s' o, finish_row E i jobid rj rc s = (Preserved s' (Some t), o))
  ↔ ∃ g, s.(pgid) = Some g ∧ g ≠ E.(r_own_pgrp) ∧ i.(fi_alive) g = true
      ∧ rj.(h_term_sigkilled) = false ∧ s.(state) ≠ SUSPENDED ∧ s.(pause_intent_at) = None
      ∧ survivor_charge t = holder_charge rj ∧ t.(ts_pgid) = g ∧ t.(ts_state) = s.(state)
      ∧ t.(ts_deadline) = default (i.(fi_monotonic) + KILL_ESCALATION_GRACE) rj.(h_term_deadline).
Proof.
  intros Ht. unfold finish_row. rewrite Ht.
  assert (pgid (annotate i rc s) = pgid s ∧ state (annotate i rc s) = state s) as [Hpg Hst].
  { unfold annotate. cbn zeta. destruct (exit_code s); simpl; (destruct (failure_tail s); [|case_bool_decide]); done. }
  unfold reap_stranded_group, terminal_survivor. rewrite Hpg, Hst, Ht, orb_true_r.
  destruct t as [tp tc tm ts td tg], rj as [rc' rm rg rd rs rcont].
  unfold survivor_charge, holder_charge. simpl. split.
  - intros (s' & o & [= _ Hsv _]).
    destruct (pgid s) as [g|] eqn:Eg; [|by destruct (_ && _), rs].
    case_bool_decide as Hsus; simpl in Hsv.
    { destruct (Z.eqb_spec g (r_own_pgrp E)), rs, (fi_alive i g); by simplify_eq/=. }
    case_bool_decide as Hpi; simpl in Hsv.
    + destruct rs; [done|]. destruct (Z.eqb_spec g (r_own_pgrp E)); [done|].
      destruct (fi_alive i g) eqn:Ha; [|done]. injection Hsv as <- <- <- <- <- <-. by exists g.
    + destruct (Z.eqb_spec g (r_own_pgrp E)), rs, (fi_alive i g); by simplify_eq/=.
  - intros (g & -> & Hown & Ha & -> & Hsus & -> & [= -> -> ->] & -> & -> & ->).
    rewrite (bool_decide_eq_false_2 (state s = SUSPENDED)) by done.
    rewrite bool_decide_eq_true_2 by done. simpl. rewrite (proj2 (Z.eqb_neq _ _) Hown), Ha. by eauto.
Qed.

(** Between two survivors: those of [todo] are as they were, those done with
    are kept or released for cause. *)
Definition release_cause (E : ReapEnv) (t : TerminalSurvivor) : Prop :=
  (∃ n, E.(r_pgroup_alive) n t.(ts_pgid) = false) ∨ ∃ n, t.(ts_deadline) <= E.(r_monotonic) n.

Record releasing (E : ReapEnv) (w0 w : dworld) : Prop := {
  re_sub j t : w.(dw_daemon).(terminal_survivors) !! j = Some t →
    w0.(dw_daemon).(terminal_survivors) !! j = Some t;
  re_kept j t : w0.(dw_daemon).(terminal_survivors) !! j = Some t →
    w.(dw_daemon).(terminal_survivors) !! j = Some t ∨ release_cause E t;
  re_daemon : w.(dw_daemon) = set_terminal_survivors w.(dw_daemon).(terminal_survivors) w0.(dw_daemon);
  re_queue : w.(dw_queue) = w0.(dw_queue);
}.

Lemma releasing_drop E w0 w jobid t tick :
  releasing E w0 w → w0.(dw_daemon).(terminal_survivors) !! jobid = Some t → release_cause E t →
  releasing E w0 (MkDWorld (set_terminal_survivors (delete jobid w.(dw_daemon).(terminal_survivors)) w.(dw_daemon))
                    w.(dw_queue) tick w.(dw_trace) w.(dw_seen)).
Proof.
  intros [] Hj Hc. split; simpl; [| |by rewrite re_daemon0|done].
  - intros j t' [_ ?]%lookup_delete_Some. auto.
  - intros j t' Hj'. destruct (decide (jobid = j)) as [->|]; [right; by simplify_eq|].
    rewrite lookup_delete_ne by done. auto.
Qed.

Lemma releasing_tick E w0 w tick :
  releasing E w0 w → releasing E w0 (MkDWorld w.(dw_daemon) w.(dw_queue) tick w.(dw_trace) w.(dw_seen)).
Proof. by intros []. Qed.

Lemma reconcile_survivor_ok E w0 w jobid t :
  releasing E w0 w → w0.(dw_daemon).(terminal_survivors) !! jobid = Some t →
  wp (reconcile_survivor E tt (jobid, t)) (λ r w', r = Ok tt ∧ releasing E w0 w') w.
Proof.
  intros Hr Hj. unfold reconcile_survivor. apply wp_bind. unfold wp at 1. cbn [ask fst snd].
  destruct (r_pgroup_alive E _ _) eqn:Ha; simpl.
  - apply wp_bind. unfold wp at 1. cbn [ask fst snd dw_tick].
    destruct (Z.ltb_spec (r_monotonic E (S (dw_tick w))) (ts_deadline t)).
    + apply wp_ret. split; [done|]. exact (releasing_tick E w0 w _ Hr).
    + split; [done|]. apply (releasing_drop E w0 w jobid t); [done|done|]. right. eauto.
  - split; [done|]. apply (releasing_drop E w0 w jobid t); [done|done|]. left. eauto.
Qed.

(** A survivor's reservation is given back only for cause.  The pass over
    the survivors returns, adds none and changes nothing else the daemon
    tracks or the queue; and whatever it drops, its process group had stopped
    answering or its escalation deadline was past. *)
Theorem survivors_released_for_cause E w :
  ∃ w', reconcile_terminal_survivors E w = (Ok tt, w') ∧ releasing E w w'.
Proof.
  assert (wp (reconcile_terminal_survivors E) (λ r w', r = Ok tt ∧ releasing E w w') w) as H.
  { unfold reconcile_terminal_survivors. apply wp_bind. unfold wp at 1. cbn [get_daemon fst snd].
    assert (∀ l w1, (∀ j t, (j, t) ∈ l → w.(dw_daemon).(terminal_survivors) !! j = Some t) → releasing E w w1 →
      wp (foldM (reconcile_survivor E) tt l) (λ r w', r = Ok tt ∧ releasing E w w') w1) as Hall.
    { induction l as [|[j t] l IH]; intros w1 Hl Hi; simpl; [by apply wp_ret|]. apply wp_bind.
      eapply wp_mono, reconcile_survivor_ok; [|done|apply Hl; set_solver]. intros ? w2 [-> Hi2].
      apply IH; [set_solver|done]. }
    apply Hall; [by intros j t ?%elem_of_map_to_list|]. split; auto. by destruct (dw_daemon w). }
  unfold wp in H. destruct (reconcile_terminal_survivors E w) as [r w']. destruct H as [? ?]. simpl in *.
  subst. eauto.
Qed.

(** ** An unreadable row *)

Section unreadable.
Context (R : string → request) (E : ReapEnv) {X : Rerun} {HX : RerunOk R (λ _, False) X}.
Context (HE : queue_ok R (λ _, False) E.(r_queue)).

Lemma record_finish_unreadable jobid rj rc w :
  (∀ n q, ∃ e, read_spec (E.(r_queue).(q_interfere) n q) jobid = Err e) →
  wp (record_finish E jobid rj rc) (λ r w', is_ok r = false) w.
Proof.
  intros Hu. unfold record_finish. do 6 (apply wp_bind; unfold wp at 1; cbn [ask fst snd]). apply wp_bind.
  unfold wp at 1, with_row, access. cbn [dw_tick dw_queue].
  match goal with |- context [q_interfere _ ?n ?q] => destruct (Hu n q) as [e He]; set (q' := q_interfere _ n q) in * end.
  rewrite He. by simpl.
Qed.

(** The pass meets the child sooner or later. *)
Lemma reconcile_all_unreadable w jobid rj rc l f w1 :
  rj.(h_container) = false → (∀ n, E.(r_poll) n jobid = Some rc) →
  (∀ n q, ∃ e, read_spec (E.(r_queue).(q_interfere) n q) jobid = Err e) →
  NoDup (f ++ l.*1) → (jobid, rj) ∈ l →
  (∀ j h, (j, h) ∈ l → charges w.(dw_daemon) !! j = Some (holder_charge h)) →
  reaping R (λ _, False) w f w1 →
  wp (foldM (reconcile_one E) f l)
    (λ r w', is_ok r = false ∧ charges w'.(dw_daemon) = charges w.(dw_daemon)) w1.
Proof.
  intros Hc Hp Hu. revert f w1. induction l as [|[j h] l IH]; intros f w1 Hnd Hin Hl Hi;
    [by apply not_elem_of_nil in Hin|]. simpl. apply wp_bind.
  pose proof (reconcile_one_ok R (λ _, False) E HE w f j h w1 Hi (Hl j h ltac:(set_solver))) as Hone.
  destruct (decide (j = jobid)) as [->|Hne].
  - assert (h = rj) as ->.
    { apply elem_of_cons in Hin as [[= ->]|Hin]; [done|]. exfalso.
      apply NoDup_app in Hnd as (_ & _ & [Hn _]%NoDup_cons). apply Hn.
      apply (list_elem_of_fmap_2 fst) in Hin. exact Hin. }
    assert (wp (reconcile_one E f (jobid, rj)) (λ r w', is_ok r = false) w1) as Herr.
    { unfold reconcile_one. apply wp_bind. unfold poll_child. rewrite Hc. unfold wp at 1, bind.
      cbn [ask ret fst snd]. rewrite Hp. apply wp_bind.
      eapply wp_mono, record_finish_unreadable; [|done]. by intros [] ?. }
    eapply wp_mono, wp_and; [|exact Hone|exact Herr]. intros [f'|e] w2 [[Hr _] He]; [done|].
    by destruct Hr as (_ & _ & ?).
  - eapply wp_mono, Hone. intros [f'|e] w2 [Hr Hf']; [|by destruct Hr as (_ & _ & ?)].
    apply IH; [|set_solver|set_solver|done]. eapply finished_nodup; [exact Hnd|by apply Hf'].
Qed.

(** One finished child whose row cannot be read stops the reaper: while
    the row stays unreadable, every pass of [_reconcile_running] raises, and
    not one finished child is taken off the books, so the rest of the tick
    (the other reconcilers and the whole dispatch pass) never runs. *)
Theorem unreadable_row_stops_reaper jobid rj rc w :
  honest R w.(dw_queue) → w.(dw_daemon).(running) !! jobid = Some rj → rj.(h_container) = false →
  (∀ n, E.(r_poll) n jobid = Some rc) →
  (∀ n q, ∃ e, read_spec (E.(r_queue).(q_interfere) n q) jobid = Err e) →
  ∃ e w', vq_reconcile_running E w = (Err e, w') ∧ charges w'.(dw_daemon) = charges w.(dw_daemon).
Proof.
  intros Hw Hj Hc Hp Hu.
  assert (wp (vq_reconcile_running E)
    (λ r w', is_ok r = false ∧ charges w'.(dw_daemon) = charges w.(dw_daemon)) w) as H.
  { unfold vq_reconcile_running. apply wp_bind. unfold wp at 1. cbn [get_daemon fst snd]. apply wp_bind.
    eapply wp_mono, (reconcile_all_unreadable w jobid rj rc _ [] w); try done.
    - intros [f|e] w' [? ?]; done.
    - simpl. apply NoDup_fst_map_to_list.
    - by apply elem_of_map_to_list.
    - intros j h Hjh%elem_of_map_to_list. unfold charges. by rewrite lookup_fmap, Hjh. }
  unfold wp in H. destruct (vq_reconcile_running E w) as [[[]|e] w']; destruct H as [? ?]; [done|]. eauto.
Qed.
End unreadable.

(** ** Settled rows *)

Lemma filter_filter_sub {A} (p k : A → bool) l :
  (∀ x, p x = true → k x = true) → List.filter p (List.filter k l) = List.filter p l.
Proof.
  intros Hpk. induction l as [|x l IH]; [done|]. simpl. destruct (k x) eqn:Hk; simpl; [by rewrite IH|].
  destruct (p x) eqn:Hp; [by rewrite Hpk in Hk|done].
Qed.

Lemma find_filter_sub {A} (p k : A → bool) l :
  (∀ x, p x = true → k x = true) → List.find p (List.filter k l) = List.find p l.
Proof.
  intros Hpk. induction l as [|x l IH]; [done|]. simpl. destruct (k x) eqn:Hk; simpl; [by rewrite IH|].
  destruct (p x) eqn:Hp; [by rewrite Hpk in Hk|done].
Qed.

Lemma existsb_filter_sub {A} (p k : A → bool) l :
  (∀ x, p x = true → k x = true) → existsb p (List.filter k l) = existsb p l.
Proof.
  intros Hpk. induction l as [|x l IH]; [done|]. simpl. destruct (k x) eqn:Hk; simpl; [by rewrite IH|].
  destruct (p x) eqn:Hp; [by rewrite Hpk in Hk|done].
Qed.

Definition live (s : JobSpec) : bool := negb (spec_is_off_admission_path s).

Lemma not_terminal_live s : is_terminal s = false → live s = true.
Proof. unfold live, spec_is_off_admission_path. by intros ->. Qed.

Lemma state_live (l : list JobState) s :
  bool_decide (s.(state) ∈ l) = true →
  forallb (λ st, negb (bool_decide (st ∈ TERMINAL_STATES))) l = true → live s = true.
Proof.
  intros Hs%bool_decide_eq_true Hl. apply not_terminal_live. rewrite forallb_forall in Hl.
  specialize (Hl _ (proj1 (list_elem_of_In _ _) Hs)). unfold is_terminal. by apply negb_true_iff.
Qed.

Lemma reserves_live s :
  reattach_reserves s = true ∨ quarantine_reserves s = true ∨ ambiguous_reserves s = true
  ∨ terminal_reserves s = true → live s = true.
Proof.
  unfold reattach_reserves, quarantine_reserves, ambiguous_reserves, terminal_reserves.
  intros [[_ H]%andb_true_iff|[[_ H]%andb_true_iff|[H|[_ H]%andb_true_iff]]]; [by eapply state_live..|].
  unfold live, spec_is_off_admission_path, scheduler_transaction_may_exist.
  assert (scheduler_state_in s TRANSACTION_STATES = true) as ->; [|by rewrite orb_true_r, andb_false_r].
  unfold scheduler_state_in in *. destruct (scheduler_state s) as [t|]; [|done].
  apply bool_decide_eq_true in H. apply bool_decide_eq_true.
  unfold AFTER_TERMINAL_RESERVES in H. unfold TRANSACTION_STATES. set_solver.
Qed.

Lemma pending_live s : bool_decide (s.(state) = PENDING) = true → live s = true.
Proof. intros H%bool_decide_eq_true. apply not_terminal_live. unfold is_terminal. by rewrite H. Qed.

Lemma reattach_held_filter E d acc l w :
  foldM (reattach_held E d) acc (List.filter live l) w = foldM (reattach_held E d) acc l w.
Proof.
  revert acc w. induction l as [|s l IH]; intros acc w; [done|]. simpl. destruct (live s) eqn:Hs; simpl.
  - unfold bind. destruct (reattach_held E d acc s w) as [[acc'|e] w']; [apply IH|done].
  - assert (reattach_held E d acc s = ret acc) as ->; [|apply IH]. unfold reattach_held.
    destruct (reattach_reserves s) eqn:Hr; [by rewrite reserves_live in Hs by auto|by rewrite andb_false_r].
Qed.

(** Leaving the settled rows out of the scan changes nothing a pass
    decides: the reservations of untracked jobs, the published facts, the
    build job of an environment and the pending order computed from the live
    rows are those of a scan of every row. *)
Theorem settled_scan_equivalent E d now by_id env l w :
  let rows := List.filter live l in
  untracked_reservations E d rows w = untracked_reservations E d l w
  ∧ spec_facts rows = spec_facts l
  ∧ find_build_job env rows = find_build_job env l
  ∧ pending_of now by_id rows = pending_of now by_id l.
Proof.
  intros rows. unfold rows. split_and!.
  - unfold untracked_reservations, bind. rewrite reattach_held_filter.
    destruct (foldM _ _ _ _) as [[held|e] w']; [|done]. unfold ret.
    rewrite !filter_filter_sub; [done|..]; intros s [_ Hs]%andb_true_iff; apply reserves_live; auto.
  - unfold spec_facts. rewrite filter_filter_sub, !existsb_filter_sub; [done| | |].
    + intros s [_ Hs%bool_decide_eq_true]%andb_true_iff. apply not_terminal_live.
      unfold is_terminal. by rewrite Hs.
    + intros s [Hs _]%andb_true_iff. by apply pending_live.
    + intros s [Hs _]%andb_true_iff. by apply pending_live.
  - unfold find_build_job. rewrite find_filter_sub; [done|].
    intros s [_ Hs%negb_true_iff]%andb_true_iff. by apply not_terminal_live.
  - unfold pending_of. rewrite filter_filter_sub; [done|]. unfold eligible.
    intros s [[Hs _]%andb_true_iff _]%andb_true_iff. by apply pending_live.
Qed.
