(* ===== verification/Recovery.v ===== *)
(** * Recovering uncertain submissions: [src/vq/daemon.py]

    A submission whose answer was lost leaves a row SUBMITTING or
    SUBMIT_OUTCOME_UNKNOWN.  The daemon resolves it only from durable proof:
    the receipt the submit script left, the id the job recorded when it
    started, evidence an operator imported, or a start fence.  This file is
    that recovery, the cancellation of a job that was accepted after its row
    had ended, the reattachment of scheduler jobs, and the pass that retries
    them; the daemon is in single-user mode. *)

From S2P Require Import Prelude Spec Json BrokerRecord StartFence Dialect Admission DaemonCore Dispatch Launch.

(** ** What recovery asks of the outside *)

(** [SchedulerSubmitReceipt] *)
Record Receipt : Type := MkReceipt {
  rc_status : string;
  rc_scheduler_job_id : option string;
  rc_scheduler_returncode : Z;
}.

Record RecoveryEnv : Type := MkRecoveryEnv {
  v_launch : LaunchEnv;
  (** [scheduler_recovery.read_record] and [accepted_id]: [None] raises *)
  v_imported : nat → JobSpec → option (option string);
  (** [dispatcher.submit_receipt], [dispatcher.recorded_job_id] of a job in a
      workspace; neither raises *)
  v_receipt : nat → string → string → option Receipt;
  v_recorded : nat → string → string → option string;
  (** the recorded fence of the attempt: [None] raises *)
  v_fence : nat → JobSpec → option (option (list (string * json)));
  (** [dispatcher.runner.run]: the return code and output, [None] raises *)
  v_fence_run : nat → FencePlan → option (Z * string);
  (** [record_result] keeps the outcome *)
  v_fence_retained : nat → bool;
  (** [dispatcher.cancel] succeeds; [dispatcher.poll]: [None] raises *)
  v_cancel : nat → SchedulerJob → bool;
  v_poll : nat → SchedulerJob → option (option SchedulerPhase);
  (** [_scheduler_root_is_confirmed] *)
  v_root_confirmed : nat → string → bool;
}.

Definition CONFLICT_STATES : list string :=
  ["submit_evidence_conflict"; "submit_evidence_conflict_after_terminal"].
Definition AMBIGUOUS_AFTER_TERMINAL : list string :=
  ["submitting"; "submit_outcome_unknown"; "submit_outcome_unknown_after_terminal";
   "submit_reconciliation_quarantined_after_terminal"; "submit_cancel_pending_after_terminal"].
Definition UNADMITTED_STATES : list string :=
  ["submitting"; "submit_outcome_unknown"; "submit_outcome_unknown_after_terminal";
   "submit_reconciliation_quarantined_after_terminal"].
Definition SCHEDULER_COLLECTION_PHASES : list string :=
  ["finishing"; "marker_probe_failed"; "fetch_failed"; "artifacts_unavailable"].
Definition SCHEDULER_REATTACH_RETRY : Z := 60 * TICKS_PER_SECOND.
Definition SCHEDULER_REATTACH_QUANTUM : Z := 5 * TICKS_PER_SECOND.

Section recovery.
Context (V : RecoveryEnv).
Let E : LaunchEnv := V.(v_launch).
Let Q : QueueEnv := E.(l_queue).

Definition heartbeat (now : Z) : JobSpec → JobSpec := set_last_heartbeat_at (Some (Aware now)).

(** [spec.scheduler_remote_workspace or dispatcher.remote_workspace(spec.id)] *)
Definition bound_remote_workspace (s : JobSpec) : string :=
  match s.(scheduler_remote_workspace) with
  | None | Some EmptyString => E.(l_remote_workspace) s.(id)
  | Some ws => ws
  end.

(** [scheduler_handle_for_spec] in a fresh [_SchedulerJob] *)
Definition scheduler_job_for (s : JobSpec) (target job_id : string) : SchedulerJob :=
  new_scheduler_job target job_id (bound_remote_workspace s).

Definition track (name : string) (sj : SchedulerJob) : DM unit :=
  update_daemon (λ d, set_scheduler_running (<[name := sj]> d.(scheduler_running)) d).
Definition untrack (name : string) : DM unit :=
  update_daemon (λ d, set_scheduler_running (delete name d.(scheduler_running)) d).

(** [except (OSError, ValueError)] around a read *)
Definition try_read (name : string) : DM (option JobSpec) :=
  catch (do? s := read_active_spec Q name in ret (Some s)) is_os_or_value_error (λ _, ret None).

(** ** Quarantine *)

(** [_quarantine_unconfirmed_scheduler_spec], without an expected target *)
Definition quarantined (reason : string) (s : JobSpec) : JobSpec :=
  set_failure_reason (Some reason)
    (if is_terminal s then set_scheduler_state (Some "submit_reconciliation_quarantined_after_terminal") s
     else if bool_decide (s.(state) ∈ [RUNNING; SUSPENDED])
     then set_scheduler_state (Some "scheduler_reconciliation_quarantined") s
     else set_exit_code None (set_finished_at None (set_scheduler_job_id None
            (set_scheduler_state (Some "submit_reconciliation_quarantined")
               (set_state SUBMIT_OUTCOME_UNKNOWN s))))).

Definition quarantine (name reason : string) : DM unit :=
  with_row Q name (λ row,
    match row with Err _ => (tt, None) | Ok fresh => (tt, Some (quarantined reason fresh)) end).

(** ** Attempts proven not to have run *)

(** [_terminalize_unadmitted_scheduler_submit] *)
Definition terminalize_unadmitted (spec : JobSpec) (reason live_state after_terminal_state : string)
    : DM unit :=
  do? now := ask E.(l_utcnow) in
  with_row Q spec.(id) (λ row,
    match row with
    | Err _ => (tt, None)
    | Ok fresh =>
      if is_terminal fresh then
        (tt, Some (if scheduler_state_in fresh UNADMITTED_STATES
                   then heartbeat now (set_scheduler_state (Some after_terminal_state) fresh)
                   else fresh))
      else
        (tt, Some (set_finished_at (Some (Aware now)) (set_exit_code None
                     (set_failure_reason (Some reason) (set_scheduler_state (Some live_state)
                        (set_state FAILED fresh))))))
    end).

Definition CONFLICT : string := "submit_evidence_conflict".

(** [_apply_scheduler_start_fence]: whether it settled the attempt. *)
Definition apply_start_fence (spec : JobSpec) : DM bool :=
  do? fence := ask (λ n, V.(v_fence) n spec) in
  match fence with
  | None =>
    do? _ := mark_submit_unknown E CONFLICT spec "operator start fence cannot be applied" in ret true
  | Some None => ret false
  | Some (Some intent) =>
    match fence_of intent with
    | None => ret false
    | Some p =>
      do? answer := ask (λ n, V.(v_fence_run) n p) in
      match answer with
      | None => ret false
      | Some (returncode, stdout) =>
        let outcome := interpret p stdout in
        match outcome with
        | Unsafe => ret false
        | _ =>
          if negb (match outcome with Fenced => true | _ => false end) && negb (returncode =? 0)
          then ret false
          else
            do? retained := ask V.(v_fence_retained) in
            if negb retained then ret false
            else match outcome with
                 | Conflict =>
                   do? _ := mark_submit_unknown E CONFLICT spec
                              "start-fence claim holds foreign evidence; preserved" in ret true
                 | Fenced =>
                   do? _ := terminalize_unadmitted spec FENCED_REASON FENCED_STATE
                              FENCED_AFTER_TERMINAL_STATE in ret true
                 | _ => ret false
                 end
        end
      end
    end
  end.

(** ** A job accepted after its row had ended *)

(** [_cancel_recovered_terminal_scheduler_submit]: own the acceptance, cancel
    it, and let go of it only when the scheduler no longer shows it. *)
Definition own_for_cancel (name job_id : string) : DM (option JobSpec) :=
  do? now := ask E.(l_utcnow) in
  with_row Q name (λ row,
    match row with
    | Err _ => (None, None)
    | Ok fresh =>
      if negb (is_terminal fresh) then (None, None)
      else let fresh := heartbeat now (set_scheduler_state (Some "submit_cancel_pending_after_terminal")
                          (set_scheduler_job_id (Some job_id) fresh)) in
           (Some fresh, Some fresh)
    end).

(** The row after the cancellation was seen: [false] when it cannot be read. *)
Definition record_cancelled (name job_id : string) : DM bool :=
  do? now := ask E.(l_utcnow) in
  with_row Q name (λ row,
    match row with
    | Err _ => (false, None)
    | Ok final =>
      if is_terminal final && bool_decide (final.(scheduler_job_id) = Some job_id)
      then (true, Some (heartbeat now (set_scheduler_state (Some "submit_cancelled_after_terminal") final)))
      else (true, None)
    end).

Definition set_term_qdeled (sj : SchedulerJob) : SchedulerJob :=
  MkSchedulerJob sj.(sj_scheduler_target) sj.(sj_job_id) sj.(sj_remote_workspace) sj.(sj_array_size)
    true sj.(sj_allocation_finished) sj.(sj_last_status_write) sj.(sj_finished_without_marker_since)
    sj.(sj_fetch_failure_misses).

Definition cancel_recovered_terminal (spec : JobSpec) (job_id target : string) : DM bool :=
  do? owned := own_for_cancel spec.(id) job_id in
  match owned with
  | None => ret false
  | Some fresh =>
    let sj := scheduler_job_for fresh target job_id in
    do? _ := track spec.(id) sj in
    do? cancelled := ask (λ n, V.(v_cancel) n sj) in
    if negb cancelled then ret false
    else
      do? _ := track spec.(id) (set_term_qdeled sj) in
      do? phase := ask (λ n, V.(v_poll) n sj) in
      match phase with
      | Some (Some PhaseFinished) =>
        do? closed := record_cancelled spec.(id) job_id in
        if negb closed then ret false
        else do? _ := untrack spec.(id) in ret false
      | _ => ret false
      end
  end.

(** ** Naming a job *)

(** [_persist_recovered_scheduler_job_id] *)
Definition persist_recovered_job_id (name job_id : string) : DM bool :=
  with_row Q name (λ row,
    match row with
    | Err _ => (false, None)
    | Ok fresh =>
      if is_terminal fresh || bool_decide (fresh.(scheduler_target) = None) then (false, None)
      else match fresh.(scheduler_job_id) with
           | Some known => (String.eqb known job_id, None)
           | None => (true, Some (set_scheduler_job_id (Some job_id) fresh))
           end
    end).

(** The evidence of one reconciliation: what was imported, the receipt and
    the job's own marker. *)
Record Evidence : Type := MkEvidence {
  ev_imported : option string;
  ev_receipt : option Receipt;
  ev_recorded : option string;
}.

Definition receipt_job_id (r : option Receipt) : option string :=
  match r with
  | Some r => if String.eqb r.(rc_status) "accepted" then r.(rc_scheduler_job_id) else None
  | None => None
  end.

(** [acceptance_ids] as a list; the set has more than one element when two of
    them differ. *)
Definition acceptance_ids (ev : Evidence) : list string :=
  omap (λ o, o) [ev.(ev_imported); receipt_job_id ev.(ev_receipt); ev.(ev_recorded)].

Definition ids_conflict (ids : list string) : bool :=
  match ids with [] => false | x :: rest => existsb (λ y, negb (String.eqb x y)) rest end.

(** [bound or imported or recorded or receipt]: an empty id is no id. *)
Definition or_id (a b : option string) : option string :=
  match a with Some EmptyString | None => b | _ => a end.
Definition chosen_id (ev : Evidence) : option string :=
  or_id ev.(ev_imported) (or_id ev.(ev_recorded) (receipt_job_id ev.(ev_receipt))).

Definition receipt_rejects (ev : Evidence) : bool :=
  match ev.(ev_receipt) with Some r => String.eqb r.(rc_status) "rejected" | None => false end.

Definition rejection_reason (ev : Evidence) : string :=
  "scheduler submit was durably rejected (exit "
  +:+ pretty (match ev.(ev_receipt) with Some r => r.(rc_scheduler_returncode) | None => 0 end) +:+ ")".

(** The row of a confirmed submission: the transition to RUNNING, unless the
    row ended or was given another id meanwhile. *)
Inductive confirmation : Type :=
| Confirmed (fresh : JobSpec)
| EndedMeanwhile (fresh : JobSpec)
| IdChanged
| ConfirmUnreadable (e : daemon_error).

Definition confirm_running (name job_id : string) : DM confirmation :=
  do? now := ask E.(l_utcnow) in
  with_row Q name (λ row,
    match row with
    | Err e => (ConfirmUnreadable e, None)
    | Ok fresh =>
      if is_terminal fresh then (EndedMeanwhile fresh, None)
      else if negb (bool_decide (fresh.(scheduler_job_id) = Some job_id)) then
        (IdChanged, Some (heartbeat now (set_scheduler_job_id None
                            (set_scheduler_state (Some CONFLICT) (set_state SUBMIT_OUTCOME_UNKNOWN fresh)))))
      else
        let fresh := heartbeat now (set_scheduler_job_id (Some job_id) (set_scheduler_state None
                       (set_state RUNNING fresh))) in
        (Confirmed fresh, Some fresh)
    end).

(** ** [_reconcile_unconfirmed_scheduler_submit] *)

(** Once the evidence names one id. *)
Definition adopt_accepted (spec : JobSpec) (target job_id : string) : DM bool :=
  if is_terminal spec then cancel_recovered_terminal spec job_id target
  else
    do? named := persist_recovered_job_id spec.(id) job_id in
    if negb named then
      do? raced := try_read spec.(id) in
      match raced with
      | None => ret false
      | Some raced => if is_terminal raced then cancel_recovered_terminal raced job_id target else ret false
      end
    else
      do? c := confirm_running spec.(id) job_id in
      match c with
      | ConfirmUnreadable e => throw e
      | IdChanged => ret false
      | EndedMeanwhile fresh => cancel_recovered_terminal fresh job_id target
      | Confirmed fresh =>
        do? _ := track spec.(id) (scheduler_job_for fresh target job_id) in ret true
      end.

(** What the evidence decides. *)
Definition resolve_evidence (spec : JobSpec) (target : string) (ev : Evidence) : DM bool :=
  if ids_conflict (acceptance_ids ev) then
    do? _ := mark_submit_unknown E CONFLICT spec
               "conflicting daemon binding, scheduler receipt, and job-start marker ids" in
    ret false
  else match chosen_id ev with
       | Some job_id => adopt_accepted spec target job_id
       | None =>
         if receipt_rejects ev then
           do? _ := terminalize_unadmitted spec (rejection_reason ev)
                      "submit_rejected" "submit_rejected_after_terminal" in
           ret false
         else
           do? settled := apply_start_fence spec in
           if settled : bool then ret false
           else
             do? _ := mark_submit_unknown E "submit_outcome_unknown" spec
                        "scheduler acceptance has no valid receipt or job-start marker" in
             ret false
       end.

Definition reconcile_unconfirmed_submit (spec : JobSpec) : DM bool :=
  if scheduler_state_in spec CONFLICT_STATES then ret false
  else match spec.(scheduler_target) with
       | None => ret false
       | Some target =>
         if is_terminal spec && negb (scheduler_state_in spec AMBIGUOUS_AFTER_TERMINAL) then ret false
         else
           do? built := ask (λ n, E.(l_dispatcher) n target) in
           match is_terminal spec && scheduler_state_in spec ["submit_cancel_pending_after_terminal"],
                 spec.(scheduler_job_id) with
           | true, Some job_id =>
             if negb built then ret false else cancel_recovered_terminal spec job_id target
           | _, _ =>
             if negb built then
               do? _ := mark_submit_unknown E "submit_outcome_unknown" spec
                          "scheduler submit receipt is currently unobservable" in
               ret false
             else
               do? imported := ask (λ n, V.(v_imported) n spec) in
               match imported with
               | None =>
                 do? _ := mark_submit_unknown E CONFLICT spec "operator evidence cannot be applied" in
                 ret false
               | Some imported =>
                 let ws := bound_remote_workspace spec in
                 do? receipt := ask (λ n, V.(v_receipt) n spec.(id) ws) in
                 do? recorded := ask (λ n, V.(v_recorded) n spec.(id) ws) in
                 resolve_evidence spec target (MkEvidence imported receipt recorded)
               end
           end
       end.

(** The recovery the launcher uses ([SubmitRecovery] of [Launch]). *)
Definition vq_recovery : SubmitRecovery := {|
  reconcile_unconfirmed := λ s, do? _ := reconcile_unconfirmed_submit s in ret tt;
  cancel_recovered := λ s job_id,
    match s.(scheduler_target) with
    | Some target => cancel_recovered_terminal s job_id target
    | None => ret false
    end;
|}.

(** ** Reattachment *)

(** [_bind_scheduler_workspace]: the workspace to read from, and the spec with
    it when it was recorded; [record_workspace] is the part for a row that has
    none yet. *)
Definition record_workspace (spec : JobSpec) : DM (string * JobSpec) :=
  let workspace := E.(l_remote_workspace) spec.(id) in
  do? confirmed := (match spec.(scheduler_target) with
                    | Some target => ask (λ n, V.(v_root_confirmed) n target)
                    | None => ret true
                    end) in
  if negb confirmed then ret (workspace, spec)
  else
    do? known := catch (with_row Q spec.(id) (λ row,
      match row with
      | Err _ => (None, None)
      | Ok fresh =>
        match fresh.(scheduler_remote_workspace) with
        | Some (String _ _ as recorded) => (Some recorded, None)
        | _ => if negb (String.eqb fresh.(id) spec.(id)) then (Some workspace, None)
               else (None, Some (set_scheduler_remote_workspace (Some workspace) fresh))
        end
      end)) is_os_or_value_error (λ _, ret None) in
    match known with
    | Some known => ret (known, spec)
    | None => ret (workspace, set_scheduler_remote_workspace (Some workspace) spec)
    end.

Definition bind_scheduler_workspace (spec : JobSpec) : DM (string * JobSpec) :=
  match spec.(scheduler_remote_workspace) with
  | Some (String _ _ as recorded) => ret (recorded, spec)
  | _ => record_workspace spec
  end.

(** [_reattach_scheduler_job] *)
Definition reattach_scheduler_job (spec : JobSpec) : DM bool :=
  match spec.(scheduler_target) with
  | None => ret false
  | Some target =>
    do? built := ask (λ n, E.(l_dispatcher) n target) in
    if negb built then ret false
    else
      do? bound := bind_scheduler_workspace spec in
      let (ws, spec) := bound : string * JobSpec in
      let attach (job_id : string) : DM bool :=
        do? _ := track spec.(id)
          (MkSchedulerJob target job_id (bound_remote_workspace spec) None false
             (scheduler_state_in spec SCHEDULER_COLLECTION_PHASES) 0 None 0) in
        ret true in
      match spec.(scheduler_job_id) with
      | Some job_id => attach job_id
      | None =>
        do? receipt := ask (λ n, V.(v_receipt) n spec.(id) ws) in
        do? recorded := ask (λ n, V.(v_recorded) n spec.(id) ws) in
        let ev := MkEvidence None receipt recorded in
        if ids_conflict (acceptance_ids ev) then
          do? _ := mark_submit_unknown E CONFLICT spec
                     "conflicting scheduler receipt and job-start marker ids" in
          ret false
        else match chosen_id ev with
             | None => ret false
             | Some job_id =>
               do? named := persist_recovered_job_id spec.(id) job_id in
               if negb named then ret false else attach job_id
             end
      end
  end.

(** [_defer_scheduler_reattach], [_mark_scheduler_reattached]: a row that has
    not ended gets the label. *)
Definition relabel (name : string) (label : option string) : DM unit :=
  do? now := ask E.(l_utcnow) in
  with_row Q name (λ row,
    match row with
    | Err _ => (tt, None)
    | Ok fresh =>
      if is_terminal fresh || bool_decide (fresh.(scheduler_target) = None) then (tt, None)
      else (tt, Some (heartbeat now (set_scheduler_state label fresh)))
    end).

Definition defer_scheduler_reattach (name : string) : DM unit := relabel name (Some "reattach_failed").
Definition mark_scheduler_reattached (name : string) : DM unit := relabel name None.

(** ** The retry pass and the startup walk *)

(** [unconfirmed_submit]: the row of an uncertain submission. *)
Definition unconfirmed_submit (s : JobSpec) : bool :=
  negb (scheduler_state_in s CONFLICT_STATES)
  && (bool_decide (s.(state) ∈ [SUBMITTING; SUBMIT_OUTCOME_UNKNOWN])
      || scheduler_state_in s AMBIGUOUS_AFTER_TERMINAL).

(** The startup walk at the row of a scheduler job: an uncertain submission is
    reconciled, a running one reattached or put off. *)
Definition startup_scheduler_row (spec : JobSpec) : DM unit :=
  if unconfirmed_submit spec then
    match spec.(scheduler_target) with
    | None => quarantine spec.(id) "unconfirmed scheduler submit has no bound target"
    | Some _ => do? _ := reconcile_unconfirmed_submit spec in ret tt
    end
  else if bool_decide (spec.(state) ∈ [RUNNING; SUSPENDED]) && is_some spec.(scheduler_target) then
    do? attached := reattach_scheduler_job spec in
    if attached : bool then ret tt
    else
      do? after := try_read spec.(id) in
      match after with
      | Some after =>
        if bool_decide (after.(state) = SUBMIT_OUTCOME_UNKNOWN)
           || scheduler_state_in after ["scheduler_reconciliation_quarantined"]
        then ret tt else defer_scheduler_reattach spec.(id)
      | None => defer_scheduler_reattach spec.(id)
      end
  else ret tt.

Definition retry_unconfirmed (d : Daemon) (s : JobSpec) : bool :=
  untracked d s && is_some s.(scheduler_target) && unconfirmed_submit s.

(** The rows of the pass: uncertain submissions, and jobs whose reattachment
    failed. *)
Definition retry_candidate (d : Daemon) (s : JobSpec) : bool :=
  retry_unconfirmed d s
  || (untracked d s && is_some s.(scheduler_target) && scheduler_state_in s ["reattach_failed"]
      && bool_decide (s.(state) ∈ [RUNNING; SUSPENDED])).

Definition last_retry (d : Daemon) (s : JobSpec) : Z := default 0 (d.(scheduler_reattach_retry_last) !! s.(id)).

(** One attempt; its time is noted however it ends. *)
Definition retry_one (s : JobSpec) : DM unit := λ w,
  let attempt : DM unit :=
    if retry_unconfirmed w.(dw_daemon) s then do? _ := reconcile_unconfirmed_submit s in ret tt
    else do? attached := reattach_scheduler_job s in
         if attached : bool then mark_scheduler_reattached s.(id) else ret tt in
  let (r, w) := attempt w in
  (do? now := ask E.(l_monotonic) in
   do? _ := update_daemon (λ d, set_scheduler_reattach_retry_last
              (<[s.(id) := now]> d.(scheduler_reattach_retry_last)) d) in
   lift r) w.

(** The loop of [_retry_deferred_scheduler_reattach]; it returns the rows it
    tried, in order. *)
Fixpoint retry_loop (deadline : Z) (specs : list JobSpec) : DM (list string) :=
  match specs with
  | [] => ret []
  | s :: specs =>
    do? d := get_daemon in
    if negb (retry_candidate d s) then retry_loop deadline specs
    else
      do? now := ask E.(l_monotonic) in
      if now - last_retry d s <? SCHEDULER_REATTACH_RETRY then retry_loop deadline specs
      else
        do? _ := retry_one s in
        do? now := ask E.(l_monotonic) in
        if deadline <=? now then
          do? _ := update_daemon (set_scheduler_refresh_wakeup true) in ret [s.(id)]
        else do? rest := retry_loop deadline specs in ret (s.(id) :: rest)
  end.

Definition retry_order (d : Daemon) : list JobSpec → list JobSpec := sort_by (on_key Z.leb (last_retry d)).

(** [_retry_deferred_scheduler_reattach] on the rows of a scan. *)
Definition retry_deferred_reattach (specs : list JobSpec) : DM (list string) :=
  do? d := get_daemon in
  do? now := ask E.(l_monotonic) in
  retry_loop (now + SCHEDULER_REATTACH_QUANTUM) (retry_order d specs).
End recovery.
