(* ===== verification/RecoveryLogic.v ===== *)
(** * What a recovery may do

    The machine of a submission ([submission_step]): the steps recovery may
    take on a row, given which id the evidence accepts and whether it proves
    that nothing was admitted; and the relation between the worlds before and
    after a recovery, which is at most such steps on the one row, between the
    changes of the other processes. *)

From S2P Require Import Prelude Spec Json BrokerRecord StartFence Dialect Admission DaemonCore Dispatch DaemonLogic DispatchSafety Launch LaunchSafety Recovery.

(** ** The machine of a submission *)

(** A row: its state and the scheduler's id. *)
Definition submission (s : JobSpec) : JobState * option string := (s.(state), s.(scheduler_job_id)).

Section machine.
Context (accepted : string → Prop) (unadmitted : Prop).

(** A submission that has not ended is parked, named, confirmed or, when
    nothing was admitted, failed; one that has ended only takes the id of the
    job to cancel. *)
Inductive submission_step : JobState * option string → JobState * option string → Prop :=
| ss_note st j : submission_step (st, j) (st, j)
| ss_park st j : st ∉ TERMINAL_STATES → submission_step (st, j) (SUBMIT_OUTCOME_UNKNOWN, j)
| ss_forget st j : st ∉ TERMINAL_STATES → submission_step (st, j) (SUBMIT_OUTCOME_UNKNOWN, None)
| ss_name st id : st ∉ TERMINAL_STATES → accepted id → submission_step (st, None) (st, Some id)
| ss_confirm st id : st ∉ TERMINAL_STATES → accepted id → submission_step (st, Some id) (RUNNING, Some id)
| ss_refuse st j : st ∉ TERMINAL_STATES → unadmitted → submission_step (st, j) (FAILED, j)
| ss_own st j id : st ∈ TERMINAL_STATES → accepted id → submission_step (st, j) (st, Some id).

(** A write of recovery: a step of the row's submission, which keeps its
    identity, its request and a verdict. *)
Record recovery_write (s s' : JobSpec) : Prop := {
  rw_step : submission_step (submission s) (submission s');
  rw_id : s'.(id) = s.(id);
  rw_request : request_of s' = request_of s;
  rw_verdict : is_terminal s = true → verdict_kept s s';
}.

(** One change of the queue while a row is recovered: another process's, or a
    write of the row. *)
Inductive queue_step (Q : QueueEnv) (name : string) (q : queue_dir) : queue_dir → Prop :=
| qs_other n : queue_step Q name q (Q.(q_interfere) n q)
| qs_write s s' : q !! name = Some (Some s) → recovery_write s s' → queue_step Q name q (<[name := Some s']> q).
End machine.

Lemma terminal_state s : is_terminal s = true → s.(state) ∈ TERMINAL_STATES.
Proof. apply is_terminal_spec. Qed.

Lemma live_state s : is_terminal s = false → s.(state) ∉ TERMINAL_STATES.
Proof. intros Ht Hs%is_terminal_spec. unfold is_terminal in Ht. congruence. Qed.

#[export] Hint Resolve terminal_state live_state : vq_wp.

(** ** Triples *)

(** From an honest world in [Pre], [m] relates the worlds and leaves a value
    and a world in [Post]. *)
Section triples.
Context (R : string → request) (Rel : dworld → dworld → Prop) `{!PreOrder Rel}.

Definition triple {A} (Pre : dworld → Prop) (m : DM A) (Post : A → dworld → Prop) : Prop :=
  ∀ w, honest R w.(dw_queue) → Pre w →
    wp m (λ r w', Rel w w' ∧ honest R w'.(dw_queue) ∧ ∀ a, r = Ok a → Post a w') w.

Abbreviation any := (λ _ : dworld, True).

Lemma triple_ret {A} (a : A) (Pre : dworld → Prop) (Post : A → dworld → Prop) :
  (∀ w, Pre w → Post a w) → triple Pre (ret a) Post.
Proof. intros Hp w Hh Hw. apply wp_ret. split_and!; [done..|]. intros ? [= <-]. auto. Qed.

Lemma triple_throw {A} e Pre (Post : A → dworld → Prop) : triple Pre (throw e) Post.
Proof. intros w Hh Hw. by apply wp_throw. Qed.

Lemma triple_bind {A B} (m : DM A) (k : A → DM B) Pre Mid Post :
  triple Pre m Mid → (∀ a, triple (Mid a) (k a) Post) → triple Pre (bind m k) Post.
Proof.
  intros Hm Hk w Hh Hw. apply wp_bind. eapply wp_mono, Hm; [|done..]. intros [a|e] w' (Hr & Hh' & Ha); [|done].
  eapply wp_mono, Hk; [|done|by apply Ha]. intros r w'' (Hr' & ? & Hp). split_and!; [by etransitivity|done..].
Qed.

Lemma triple_weaken {A} (m : DM A) (Pre Pre' : dworld → Prop) (Post Post' : A → dworld → Prop) :
  triple Pre m Post → (∀ w, Pre' w → Pre w) → (∀ a w, Post a w → Post' a w) → triple Pre' m Post'.
Proof. intros Hm Hpre Hpost w Hh Hw. eapply wp_mono, Hm; [|by auto..]. intros r w' (? & ? & ?). auto. Qed.

(** Going on whatever the world is. *)
Lemma triple_then {A B} (m : DM A) (k : A → DM B) Pre Mid Post :
  triple Pre m Mid → (∀ a, triple any (k a) Post) → triple Pre (bind m k) Post.
Proof. intros Hm Hk. eapply triple_bind; [done|]. intros a. by eapply triple_weaken. Qed.

(** What is known of the world, as a fact. *)
Lemma triple_given {A} (m : DM A) Pre Post : (∀ w, Pre w → triple any m Post) → triple Pre m Post.
Proof. intros Hm w Hh Hw. by apply (Hm w). Qed.

Lemma triple_catch {A} Pre (m : DM A) p (h : daemon_error → DM A) Post :
  triple Pre m Post → (∀ e, triple any (h e) Post) → triple Pre (catch m p h) Post.
Proof.
  intros Hm Hh w Hq Hw. apply wp_catch. eapply wp_mono, Hm; [|done..]. intros [a|e] w' (Hr & Hq' & Ha); [done|].
  destruct (p e); [|done]. eapply wp_mono, Hh; [|done..]. intros r w'' (Hr' & ? & Hp).
  split_and!; [by etransitivity|done..].
Qed.

(** What the relation preserves stays known. *)
Lemma triple_stable {A} (I : dworld → Prop) Pre (m : DM A) Post :
  (∀ w w', Rel w w' → I w → I w') → triple Pre m Post → triple (λ w, I w ∧ Pre w) m (λ a w, I w ∧ Post a w).
Proof.
  intros HI Hm w Hh [Hi Hp]. eapply wp_mono, Hm; [|done..]. intros r w' (Hr & Hh' & Ha). split_and!; [done..|].
  intros a Ea. split; [by eapply HI|by apply Ha].
Qed.
End triples.

(** ** Worlds *)

Section worlds.
Context (R : string → request) (K : string → Prop).
Context (E : LaunchEnv) (name target : string) (accepted : string → Prop) (unadmitted : Prop).

Record recovers (w w' : dworld) : Prop := {
  rv_queue : rtc (queue_step accepted unadmitted E.(l_queue) name) w.(dw_queue) w'.(dw_queue);
  rv_others j : j ≠ name → w'.(dw_daemon).(scheduler_running) !! j = w.(dw_daemon).(scheduler_running) !! j;
  rv_tracked sj : w'.(dw_daemon).(scheduler_running) !! name = Some sj →
    w.(dw_daemon).(scheduler_running) !! name = Some sj
    ∨ (accepted sj.(sj_job_id) ∧ sj.(sj_scheduler_target) = target);
  rv_retry : w'.(dw_daemon).(scheduler_reattach_retry_last) = w.(dw_daemon).(scheduler_reattach_retry_last);
  rv_tick : (w.(dw_tick) <= w'.(dw_tick))%nat;
  rv_calm : calm R K w w';
}.

#[export] Instance recovers_preorder : PreOrder recovers.
Proof.
  split; [intros w; split; first [apply rtc_refl|lia|reflexivity|by auto]|].
  intros w1 w2 w3 [q1 o1 t1 r1 k1 c1] [q2 o2 t2 r2 k2 c2]. split.
  - by etransitivity.
  - intros j Hj. by rewrite o2, o1.
  - intros sj [Hs|Hs]%t2; auto.
  - congruence.
  - lia.
  - by etransitivity.
Qed.

(** From an honest world in [Pre], [m] recovers and leaves a value and a world
    in [Post]. *)
Definition leads {A} : (dworld → Prop) → DM A → (A → dworld → Prop) → Prop := triple R recovers.

Abbreviation any := (λ _ : dworld, True).

Lemma leads_ret {A} (a : A) (Pre : dworld → Prop) (Post : A → dworld → Prop) :
  (∀ w, Pre w → Post a w) → leads Pre (ret a) Post.
Proof. apply triple_ret, _. Qed.

Lemma leads_throw {A} e Pre (Post : A → dworld → Prop) : leads Pre (throw e) Post.
Proof. apply triple_throw, _. Qed.

Lemma leads_bind {A B} (m : DM A) (k : A → DM B) Pre Mid Post :
  leads Pre m Mid → (∀ a, leads (Mid a) (k a) Post) → leads Pre (bind m k) Post.
Proof. apply triple_bind, _. Qed.

Lemma leads_weaken {A} (m : DM A) (Pre Pre' : dworld → Prop) (Post Post' : A → dworld → Prop) :
  leads Pre m Post → (∀ w, Pre' w → Pre w) → (∀ a w, Post a w → Post' a w) → leads Pre' m Post'.
Proof. apply triple_weaken. Qed.

Lemma leads_then {A B} (m : DM A) (k : A → DM B) Pre Mid Post :
  leads Pre m Mid → (∀ a, leads any (k a) Post) → leads Pre (bind m k) Post.
Proof. apply triple_then, _. Qed.

Lemma leads_given {A} (m : DM A) Pre Post : (∀ w, Pre w → leads any m Post) → leads Pre m Post.
Proof. apply triple_given. Qed.

Lemma leads_catch {A} Pre (m : DM A) p (h : daemon_error → DM A) Post :
  leads Pre m Post → (∀ e, leads any (h e) Post) → leads Pre (catch m p h) Post.
Proof. apply triple_catch, _. Qed.

Lemma recovers_tick w : recovers w (MkDWorld w.(dw_daemon) w.(dw_queue) (S w.(dw_tick)) w.(dw_trace) w.(dw_seen)).
Proof.
  split; simpl; first [apply rtc_refl|lia|by auto|idtac]. apply quiet_calm. split; [by split|by apply kept_same].
Qed.

Lemma leads_asking {A B} (f : nat → A) (k : A → DM B) Pre Post :
  (∀ n, leads any (k (f n)) Post) → leads Pre (bind (ask f) k) Post.
Proof.
  intros Hk w Hh _. apply wp_bind. unfold wp at 1. simpl. eapply wp_mono; [|by apply Hk].
  intros r w' (? & ? & ?). split_and!; [|done..]. etransitivity; [apply recovers_tick|done].
Qed.

Context (HQ : queue_ok R K E.(l_queue)).

(** A row under its lock. *)
Lemma leads_row {A} Pre (body : res daemon_error JobSpec → A * option JobSpec) (Post : A → dworld → Prop) :
  (∀ row w', (∀ s, row = Ok s → good R name s) → Post (body row).1 w') →
  (∀ s s', (body (Ok s)).2 = Some s' → recovery_write accepted unadmitted s s') →
  (∀ e, (body (Err e)).2 = None) →
  leads Pre (with_row E.(l_queue) name body) Post.
Proof.
  intros Hp Hw He w Hh _.
  assert (wp (with_row E.(l_queue) name body) (λ r w', calm R K w w') w) as Hcalm.
  { eapply wp_mono; [|eapply (does_row R K E.(l_queue) HQ (calm R K) (quiet_calm R K) name body (λ _, True));
      [|exact Hh]]; [by intros r w' [? _]|].
    intros row Hrow. split; [done|]. intros s' Hs'. destruct row as [s|e]; [|by rewrite He in Hs'].
    destruct (Hw s s' Hs') as [_ Hi Hr Hv]. destruct (Hrow s) as [? ?]; [done|].
    split; [split; congruence|]. intros old [= <-]. auto. }
  unfold wp, with_row, access in *. set (q := q_interfere _ _ _) in *.
  assert (honest R q) as Hq by by apply (qo_honest R K _ HQ).
  assert (∀ s, read_spec q name = Ok s → good R name s) as Hgood.
  { intros s Hs. unfold read_spec in Hs. destruct (q !! name) as [[s0|]|] eqn:Eq; [|done..]. injection Hs as <-. by apply Hq. }
  assert (∀ q' (r : res daemon_error A), rtc (queue_step accepted unadmitted E.(l_queue) name) q q' → honest R q' →
    (∀ a : A, r = Ok a → a = (body (read_spec q name)).1) →
    let w' := MkDWorld (dw_daemon w) q' (S (dw_tick w)) (dw_trace w) (dw_seen w ++ [q]) in
    calm R K w w' → recovers w w' ∧ honest R (dw_queue w') ∧ ∀ a, r = Ok a → Post a w') as Hdone.
  { intros q' r Hs Hq' Hr w' Hc. split_and!; [|done|].
    - split; simpl; first [lia|by auto|idtac]. eapply rtc_l; [apply (qs_other _ _ _ _ _ (dw_tick w))|done].
    - intros a ->%Hr. by apply Hp. }
  destruct (body (read_spec q name)) as [a [s'|]] eqn:Eb.
  - destruct (q_write_fails _ _); [by apply Hdone; [apply rtc_refl|..]|].
    destruct (read_spec q name) as [s|e] eqn:Er; [|specialize (He e); by rewrite Eb in He].
    destruct (Hgood s) as [Hi Hr]; [done|].
    assert (recovery_write accepted unadmitted s s') as Hs' by (apply Hw; by rewrite Eb).
    apply Hdone; [| |by intros ? [= <-]|done].
    + apply rtc_once. eapply qs_write; [|done]. unfold read_spec in Er.
      destruct (q !! name) as [[s0|]|] eqn:Eq; [|done..]. by injection Er as ->.
    + destruct Hs'. apply honest_insert; [done|congruence..].
  - apply Hdone; [apply rtc_refl|done| |done]. by intros ? [= <-].
Qed.

Lemma leads_read Pre : leads Pre (read_active_spec E.(l_queue) name) (λ s _, good R name s).
Proof.
  intros w Hh _.
  destruct (does_read R K E.(l_queue) HQ (calm R K) (quiet_calm R K) name w Hh) as (Hc & _ & _). revert Hc.
  unfold wp, read_active_spec, access. simpl. set (q := q_interfere _ _ _). intros Hc.
  assert (honest R q) as Hq by by apply (qo_honest R K _ HQ). split_and!; [|done|].
  - split; simpl; first [lia|by auto|idtac]. apply rtc_once, qs_other.
  - intros s Hs. unfold read_spec in Hs. repeat case_match; simplify_eq. by apply Hq.
Qed.

End worlds.
