(* ===== verification/RecoveryGuarantees.v ===== *)
(** * What the recovery of submissions guarantees

    A recovery only takes steps its evidence justifies, whatever the other
    processes do; it takes no verdict back, which discharges what the launcher
    was promised; undisturbed, it computes exactly what the evidence decides;
    and the pass that retries recoveries starves no row. *)

From S2P Require Import Prelude Spec Json BrokerRecord StartFence Dialect StartFenceGuarantees Admission DaemonCore Dispatch DaemonLogic DispatchSafety Launch LaunchSafety Recovery RecoveryLogic.

(** ** Each operation is at most steps of the submission *)

Section steps.
Context (V : RecoveryEnv) (name target : string) (accepted : string → Prop) (unadmitted : Prop).
Let E : LaunchEnv := V.(v_launch).
Context (R : string → request) (K : string → Prop) (HQ : queue_ok R K E.(l_queue)).
Abbreviation leads := (leads R K E name target accepted unadmitted).
Abbreviation any := (λ _ : dworld, True).
Abbreviation done_ := (λ _ _, True).
Abbreviation writes := (recovery_write accepted unadmitted).

Lemma writes_note s s' :
  submission s' = submission s → s'.(id) = s.(id) → request_of s' = request_of s →
  (is_terminal s = true → verdict_kept s s') → writes s s'.
Proof. intros Hs ? ? ?. split; [rewrite Hs; unfold submission; constructor|done..]. Qed.

(** A write to a row that has not ended. *)
Lemma writes_live s s' :
  is_terminal s = false → (s.(state) ∉ TERMINAL_STATES → submission_step accepted unadmitted (submission s) (submission s')) →
  s'.(id) = s.(id) → request_of s' = request_of s → writes s s'.
Proof. intros Ht Hs ? ?. split; [by apply Hs, live_state|done|done|]. by rewrite Ht. Qed.

Lemma verdict_same s s' :
  s'.(state) = s.(state) → s'.(finished_at) = s.(finished_at) → s'.(exit_code) = s.(exit_code) → verdict_kept s s'.
Proof. intros ? ? ?. split_and!; [done..|by right]. Qed.

Lemma leads_mark durable spec reason :
  spec.(id) = name → leads any (mark_submit_unknown E durable spec reason) done_.
Proof.
  intros Hid. unfold mark_submit_unknown. rewrite Hid. apply leads_asking; intros now. apply leads_row; [exact HQ|done| |done].
  intros s s'. simpl. case_bool_decide; [done|]. destruct (is_terminal s) eqn:Ht; intros [= <-].
  - apply writes_note; [done..|]. intros _. by apply verdict_same.
  - apply writes_live; [done| |done|done]. intros Hs. by apply ss_park.
Qed.

Lemma leads_terminalize spec reason live after :
  spec.(id) = name → unadmitted → leads any (terminalize_unadmitted V spec reason live after) done_.
Proof.
  intros Hid Hu. unfold terminalize_unadmitted. rewrite Hid. apply leads_asking; intros now.
  apply leads_row; [exact HQ|done| |done]. intros s s'. simpl. destruct (is_terminal s) eqn:Ht; intros [= <-].
  - destruct (scheduler_state_in _ _); (apply writes_note; [done..|]; intros _; by apply verdict_same).
  - apply writes_live; [done| |done|done]. intros Hs. by apply ss_refuse.
Qed.

(** Tracking a scheduler job charges nothing locally. *)
Lemma calm_tracking w (m : gmap string SchedulerJob) :
  calm R K w (MkDWorld (set_scheduler_running m w.(dw_daemon)) w.(dw_queue) w.(dw_tick) w.(dw_trace) w.(dw_seen)).
Proof. split; [by split|by apply kept_same]. Qed.

Lemma leads_track sj :
  accepted sj.(sj_job_id) → sj.(sj_scheduler_target) = target →
  leads any (track name sj) (λ _ w, w.(dw_daemon).(scheduler_running) !! name = Some sj).
Proof.
  intros Ha Ht w Hh _. unfold wp. simpl. split_and!; [|done|intros ? _; apply lookup_insert_eq].
  split; simpl; first [apply rtc_refl|lia|done|idtac].
  - intros j Hj. by rewrite lookup_insert_ne.
  - intros sj'. rewrite lookup_insert_eq. intros [= <-]. by right.
  - apply calm_tracking.
Qed.

Lemma leads_untrack : leads any (untrack name) done_.
Proof.
  intros w Hh _. unfold wp. simpl. split_and!; [|done..]. split; simpl; first [apply rtc_refl|lia|done|idtac].
  - intros j Hj. by rewrite lookup_delete_ne.
  - intros sj'. by rewrite lookup_delete_eq.
  - apply calm_tracking.
Qed.

Lemma leads_own job_id : accepted job_id → leads any (own_for_cancel V name job_id) done_.
Proof.
  intros Ha. apply leads_asking; intros now. apply leads_row; [exact HQ|done| |done].
  intros s s'. simpl. destruct (is_terminal s) eqn:Ht; [|done]. intros [= <-].
  split; [apply ss_own; [by apply terminal_state|done]|done|done|]. intros _. by apply verdict_same.
Qed.

Lemma leads_cancelled job_id : leads any (record_cancelled V name job_id) done_.
Proof.
  apply leads_asking; intros now. apply leads_row; [exact HQ|done| |done].
  intros s s'. simpl. destruct (_ && _); [|done]. intros [= <-]. apply writes_note; [done..|].
  intros _. by apply verdict_same.
Qed.

Lemma leads_cancel spec job_id :
  spec.(id) = name → accepted job_id →
  leads any (cancel_recovered_terminal V spec job_id target) (λ b _, b = false).
Proof.
  intros Hid Ha. unfold cancel_recovered_terminal. rewrite Hid.
  eapply leads_then; [by apply leads_own|]. intros [fresh|]; [|by apply leads_ret].
  eapply leads_then; [by apply leads_track|]. intros _. apply leads_asking; intros n.
  destruct (negb _); [by apply leads_ret|].
  eapply leads_then; [by apply leads_track|]. intros _. apply leads_asking; intros m.
  repeat case_match; try by apply leads_ret.
  eapply leads_then; [apply leads_cancelled|]. intros closed. destruct (negb closed); [by apply leads_ret|].
  eapply leads_then; [apply leads_untrack|]. intros _. by apply leads_ret.
Qed.

Lemma leads_persist job_id : accepted job_id → leads any (persist_recovered_job_id V name job_id) done_.
Proof.
  intros Ha. apply leads_row; [exact HQ|done| |done]. intros s s'. simpl.
  destruct (is_terminal s) eqn:Ht; [done|]. simpl. case_bool_decide; [done|].
  destruct (scheduler_job_id s) eqn:Ej; [done|]. intros [= <-].
  apply writes_live; [done| |done|done]. intros Hs. unfold submission. rewrite Ej. by apply ss_name.
Qed.

Lemma leads_confirm job_id :
  accepted job_id →
  leads any (confirm_running V name job_id) (λ c _, ∀ s, c = EndedMeanwhile s ∨ c = Confirmed s → good R name s).
Proof.
  intros Ha. apply leads_asking; intros now. apply leads_row; [exact HQ| | |done].
  - intros [s|e] w' Hrow; simpl; [|by intros s [?|?]].
    destruct (Hrow s) as [Hi Hr]; [done|]. repeat case_match; intros s' [[= <-]|[= <-]]; done.
  - intros s s'. simpl. destruct (is_terminal s) eqn:Ht; [done|]. case_bool_decide as Ej; simpl; intros [= <-].
    + apply writes_live; [done| |done|done]. intros Hs. unfold submission. rewrite Ej. by apply ss_confirm.
    + apply writes_live; [done| |done|done]. intros Hs. by apply ss_forget.
Qed.

(** A recovery that answers True left the job tracked under an accepted id. *)
Definition recovered (b : bool) (w : dworld) : Prop :=
  b = true → ∃ sj, w.(dw_daemon).(scheduler_running) !! name = Some sj
    ∧ accepted sj.(sj_job_id) ∧ sj.(sj_scheduler_target) = target.

Lemma leads_cancel_recovered spec job_id :
  spec.(id) = name → accepted job_id → leads any (cancel_recovered_terminal V spec job_id target) recovered.
Proof. intros ? ?. eapply leads_weaken; [by apply leads_cancel|done|]. by intros b w ->. Qed.

Lemma leads_try_read : leads any (try_read V name) (λ o _, ∀ s, o = Some s → good R name s).
Proof.
  apply leads_catch; [|intros e; by apply leads_ret]. eapply leads_bind; [apply leads_read, HQ|].
  intros s. apply leads_ret. by intros w Hg ? [= <-].
Qed.

Lemma leads_track_recovered sj Pre :
  accepted sj.(sj_job_id) → sj.(sj_scheduler_target) = target →
  leads Pre (do? _ := track name sj in ret true) recovered.
Proof.
  intros Ha Ht. eapply leads_bind; [eapply leads_weaken; [by apply leads_track|done|done]|].
  intros []. apply leads_ret. intros w Hw _. by exists sj.
Qed.

Lemma leads_adopt spec job_id :
  spec.(id) = name → accepted job_id → leads any (adopt_accepted V spec target job_id) recovered.
Proof.
  intros Hid Ha. unfold adopt_accepted. destruct (is_terminal spec); [by apply leads_cancel_recovered|]. rewrite Hid.
  eapply leads_then; [by apply leads_persist|]. intros named. destruct (negb named).
  - eapply leads_bind; [apply leads_try_read|]. intros [raced|]; [|by apply leads_ret].
    apply leads_given. intros w Hg. destruct (Hg raced) as [Hi _]; [done|].
    destruct (is_terminal raced); [by apply leads_cancel_recovered|by apply leads_ret].
  - eapply leads_bind; [by apply leads_confirm|]. intros c. apply leads_given. intros _ Hg.
    destruct c as [fresh|fresh| |e].
    + by apply leads_track_recovered.
    + apply leads_cancel_recovered; [|done]. destruct (Hg fresh); [by left|done].
    + by apply leads_ret.
    + apply leads_throw.
Qed.

(** ** The fence *)

(** A fence of the attempt was read as placed. *)
Definition fence_placed (spec : JobSpec) : Prop :=
  ∃ n intent p m returncode stdout, V.(v_fence) n spec = Some (Some intent) ∧ fence_of intent = Some p
    ∧ V.(v_fence_run) m p = Some (returncode, stdout) ∧ interpret p stdout = Fenced.

Lemma leads_fence spec :
  spec.(id) = name → (fence_placed spec → unadmitted) → leads any (apply_start_fence V spec) done_.
Proof.
  intros Hid Hf. apply leads_asking; intros n. destruct (v_fence V n spec) as [[intent|]|] eqn:En;
    [|by apply leads_ret|eapply leads_then; [by apply leads_mark|intros; by apply leads_ret]].
  destruct (fence_of intent) as [p|] eqn:Ep; [|by apply leads_ret]. apply leads_asking; intros m.
  destruct (v_fence_run V m p) as [[returncode stdout]|] eqn:Em; [|by apply leads_ret].
  assert (∀ o, interpret p stdout = o → leads any
    (do? retained := ask V.(v_fence_retained) in
     if negb retained then ret false
     else match o with
          | Conflict => do? _ := mark_submit_unknown E CONFLICT spec "start-fence claim holds foreign evidence; preserved" in ret true
          | Fenced => do? _ := terminalize_unadmitted V spec FENCED_REASON FENCED_STATE FENCED_AFTER_TERMINAL_STATE in ret true
          | _ => ret false
          end) done_) as Hrest.
  { intros o Ho. apply leads_asking; intros k. destruct (negb _); [by apply leads_ret|].
    destruct o; [|by apply leads_ret| |by apply leads_ret].
    - eapply leads_then; [apply leads_terminalize; [done|]|intros; by apply leads_ret].
      apply Hf. by exists n, intent, p, m, returncode, stdout.
    - eapply leads_then; [by apply leads_mark|intros; by apply leads_ret]. }
  destruct (interpret p stdout) eqn:Eo; [..|by apply leads_ret];
    cbn [negb andb]; [|destruct (negb (returncode =? 0)); [by apply leads_ret|]..]; by apply (Hrest _ eq_refl).
Qed.
End steps.

(** ** Evidence *)

(** What one reconciliation read. *)
Definition evidence_of (V : RecoveryEnv) (spec : JobSpec) (ev : Evidence) : Prop :=
  ∃ n1 n2 n3, V.(v_imported) n1 spec = Some ev.(ev_imported)
    ∧ V.(v_receipt) n2 spec.(id) (bound_remote_workspace V spec) = ev.(ev_receipt)
    ∧ V.(v_recorded) n3 spec.(id) (bound_remote_workspace V spec) = ev.(ev_recorded).

Definition no_evidence : Evidence := MkEvidence None None None.

(** Every source that names a job of the scheduler names this one; or the row,
    already ended, is waiting for its cancellation. *)
Definition accepts (spec : JobSpec) (ev : Evidence) (job_id : string) : Prop :=
  (chosen_id ev = Some job_id ∧ ∀ x, x ∈ acceptance_ids ev → x = job_id)
  ∨ (is_terminal spec = true ∧ scheduler_state_in spec ["submit_cancel_pending_after_terminal"] = true
     ∧ spec.(scheduler_job_id) = Some job_id).

(** No source names a job, and the receipt is a rejection or a fence was placed. *)
Definition proves_unadmitted (V : RecoveryEnv) (spec : JobSpec) (ev : Evidence) : Prop :=
  (∀ x, x ∈ acceptance_ids ev → x = "") ∧ (receipt_rejects ev = true ∨ fence_placed V spec).

Lemma ids_agree ids x y : ids_conflict ids = false → x ∈ ids → y ∈ ids → x = y.
Proof.
  destruct ids as [|z ids]; [set_solver|]. simpl. intros Hc.
  assert (∀ u, u ∈ ids → z = u) as Hz.
  { intros u Hu. apply list_elem_of_In in Hu. destruct (String.eqb_spec z u) as [|Hn]; [done|].
    assert (existsb (λ y, negb (String.eqb z y)) ids = true) as Ht; [|congruence].
    apply existsb_exists. exists u. split; [done|]. by destruct (String.eqb_spec z u). }
  intros [->|Hx]%elem_of_cons [->|Hy]%elem_of_cons; [done|by apply Hz|by symmetry; apply Hz|].
  transitivity z; [by symmetry; apply Hz|by apply Hz].
Qed.

Lemma chosen_accepted ev job_id : chosen_id ev = Some job_id → job_id ∈ acceptance_ids ev.
Proof.
  unfold chosen_id, acceptance_ids, or_id.
  destruct (ev_imported ev) as [[|a b]|], (ev_recorded ev) as [[|c d]|], (receipt_job_id (ev_receipt ev)) as [e|];
    simpl; intros; simplify_eq; set_solver.
Qed.

Lemma not_chosen ev : chosen_id ev = None → ∀ x, x ∈ acceptance_ids ev → x = "".
Proof.
  unfold chosen_id, acceptance_ids, or_id.
  destruct (ev_imported ev) as [[|a b]|], (ev_recorded ev) as [[|c d]|], (receipt_job_id (ev_receipt ev)) as [e|];
    simpl; intros; simplify_eq; set_solver.
Qed.

(** ** Justified recoveries *)

Section justified.
Context (V : RecoveryEnv) (R : string → request) (K : string → Prop) (HQ : queue_ok R K V.(v_launch).(l_queue)).

Definition target_of (s : JobSpec) : string := default "" s.(scheduler_target).

Abbreviation leads spec ev := (leads R K V.(v_launch) spec.(id) (target_of spec) (accepts spec ev)
                                 (proves_unadmitted V spec ev)).

Lemma leads_resolve spec ev :
  leads spec ev (λ _, True) (resolve_evidence V spec (target_of spec) ev)
    (recovered spec.(id) (target_of spec) (accepts spec ev)).
Proof.
  unfold resolve_evidence. destruct (ids_conflict _) eqn:Ec.
  { eapply leads_then; [by apply leads_mark|]. intros; by apply leads_ret. }
  destruct (chosen_id ev) as [job_id|] eqn:Ej.
  - apply leads_adopt; [exact HQ|done|]. left. split; [done|]. intros x Hx.
    eapply ids_agree; [done..|]. by apply chosen_accepted.
  - pose proof (not_chosen ev Ej) as Hno. destruct (receipt_rejects ev) eqn:Er.
    + eapply leads_then; [apply leads_terminalize; [exact HQ|done|]|intros; by apply leads_ret].
      split; [done|by left].
    + eapply leads_then; [apply leads_fence; [exact HQ|done|]|].
      { intros Hf. split; [done|by right]. }
      intros []; [by apply leads_ret|]. eapply leads_then; [by apply leads_mark|intros; by apply leads_ret].
Qed.

(** Whatever [m] does to [spec]'s row, evidence justifies it. *)
Definition justified (spec : JobSpec) (m : DM bool) : Prop :=
  ∀ w r w', honest R w.(dw_queue) → m w = (r, w') →
    ∃ ev, (ev = no_evidence ∨ evidence_of V spec ev)
      ∧ recovers R K V.(v_launch) spec.(id) (target_of spec) (accepts spec ev) (proves_unadmitted V spec ev) w w'
      ∧ (r = Ok true → recovered spec.(id) (target_of spec) (accepts spec ev) true w').

Lemma justified_leads spec ev m :
  (ev = no_evidence ∨ evidence_of V spec ev) →
  leads spec ev (λ _, True) m (recovered spec.(id) (target_of spec) (accepts spec ev)) → justified spec m.
Proof.
  intros Hev Hm w r w' Hh Hrun. destruct (wp_elim _ _ _ _ _ (Hm w Hh I) Hrun) as (Hr & _ & Hp).
  exists ev. split_and!; [done..|auto].
Qed.

Lemma justified_asking {A} spec (f : nat → A) k :
  (∀ n, justified spec (k (f n))) → justified spec (bind (ask f) k).
Proof.
  intros Hk w r w' Hh Hrun. unfold bind, ask in Hrun. apply Hk in Hrun; [|done]. destruct Hrun as (ev & Hev & Hr & Hp).
  exists ev. split_and!; [done| |done]. etransitivity; [apply recovers_tick|done].
Qed.

Lemma justified_false spec : justified spec (ret false).
Proof. eapply justified_leads; [by left|]. by apply leads_ret. Qed.

Lemma justified_mark spec durable reason :
  justified spec (do? _ := mark_submit_unknown V.(v_launch) durable spec reason in ret false).
Proof. eapply justified_leads; [by left|]. eapply leads_then; [by apply leads_mark|]. intros; by apply leads_ret. Qed.

Lemma reconcile_justified spec : justified spec (reconcile_unconfirmed_submit V spec).
Proof.
  unfold reconcile_unconfirmed_submit.
  destruct (scheduler_state_in spec CONFLICT_STATES); [apply justified_false|].
  destruct (scheduler_target spec) as [target|] eqn:Et; [|apply justified_false].
  assert (target_of spec = target) as Htgt by (unfold target_of; by rewrite Et).
  destruct (is_terminal spec && negb _); [apply justified_false|]. apply justified_asking; intros n.
  assert (justified spec
    (if negb (l_dispatcher (v_launch V) n target)
     then do? _ := mark_submit_unknown (v_launch V) "submit_outcome_unknown" spec
                     "scheduler submit receipt is currently unobservable" in ret false
     else do? imported := ask (λ n, v_imported V n spec) in
          match imported with
          | Some imported =>
            do? receipt := ask (λ n, v_receipt V n (id spec) (bound_remote_workspace V spec)) in
            do? recorded := ask (λ n, v_recorded V n (id spec) (bound_remote_workspace V spec)) in
            resolve_evidence V spec target (MkEvidence imported receipt recorded)
          | None => do? _ := mark_submit_unknown (v_launch V) CONFLICT spec "operator evidence cannot be applied" in
                    ret false
          end)) as Hread.
  { destruct (negb _); [apply justified_mark|]. apply justified_asking; intros n1.
    destruct (v_imported V n1 spec) as [imported|] eqn:Ei; [|apply justified_mark].
    apply justified_asking; intros n2. apply justified_asking; intros n3.
    eapply justified_leads; [|rewrite <- Htgt; apply leads_resolve]. right. by exists n1, n2, n3. }
  destruct (is_terminal spec && scheduler_state_in spec ["submit_cancel_pending_after_terminal"]) eqn:Ec; [|done].
  apply andb_true_iff in Ec as [Hterm Hst].
  destruct (scheduler_job_id spec) as [job_id|] eqn:Ej; [|done]. destruct (negb _); [apply justified_false|].
  eapply justified_leads; [by left|]. rewrite <- Htgt. apply leads_cancel_recovered; [exact HQ|done|]. by right.
Qed.

(** C13: whatever the other processes do meanwhile and whichever write fails,
    the recovery of an uncertain submission is justified by the evidence it
    read.  Its writes are, on the one row, steps of the submission's machine:
    the row is parked, or given and confirmed under an id that every source of
    evidence agrees on, or failed only when no source names a job and a
    receipt rejects it or a fence was placed; a row that has ended keeps its
    verdict; no step makes it PENDING, so that it would be submitted again.
    The daemon tracks at most that id, and does when the recovery says so. *)
Theorem recovery_justified spec w r w' :
  honest R w.(dw_queue) → reconcile_unconfirmed_submit V spec w = (r, w') →
  ∃ ev, (ev = no_evidence ∨ evidence_of V spec ev)
    ∧ recovers R K V.(v_launch) spec.(id) (target_of spec) (accepts spec ev) (proves_unadmitted V spec ev) w w'
    ∧ (r = Ok true → recovered spec.(id) (target_of spec) (accepts spec ev) true w').
Proof. apply reconcile_justified. Qed.
End justified.

(** ** The launcher's interface, discharged *)

Lemma calm_does {A} R K (m : DM A) :
  (∀ w r w', honest R w.(dw_queue) → m w = (r, w') → calm R K w w') → does R (calm R K) m (λ _, True).
Proof.
  intros Hm w Hw. apply wp_intro. intros r w' Hr. specialize (Hm w r w' Hw Hr). split_and!; [done| |done].
  destruct Hm as [[] _]; auto.
Qed.

Lemma vq_recovery_ok R K V : queue_ok R K V.(v_launch).(l_queue) → SubmitRecoveryOk R K (vq_recovery V).
Proof.
  intros HQ. split; simpl.
  - intros s _. eapply does_bind; [exact _| |intros; by apply (does_ret R (calm R K))].
    apply calm_does. intros w r w' Hw Hr. destruct (reconcile_justified V R K HQ s w r w' Hw Hr) as (? & _ & [] & _). done.
  - intros s job_id _. destruct (scheduler_target s) as [target|]; [|by apply (does_ret R (calm R K))].
    apply calm_does. intros w r w' Hw Hr.
    destruct (wp_elim _ _ _ _ _ (leads_cancel V (id s) target (λ _, True) True R K HQ s job_id eq_refl I w Hw I) Hr)
      as ([] & _). done.
Qed.


(** ** Reattachment *)

Section reattach.
Context (V : RecoveryEnv) (name target : string) (R : string → request) (K : string → Prop).
Context (HQ : queue_ok R K V.(v_launch).(l_queue)).
Abbreviation leads := (leads R K V.(v_launch) name target (λ _, True) False).
Abbreviation any := (λ _ : dworld, True).

Lemma leads_record_workspace spec :
  spec.(id) = name → leads any (record_workspace V spec) (λ o _, o.2.(id) = name).
Proof.
  intros Hid. unfold record_workspace. rewrite Hid. eapply (leads_then _ _ _ _ _ _ _ _ _ _ (λ _ _, True)).
  { destruct (scheduler_target spec); [|by apply leads_ret].
    intros w Hh _. unfold wp. simpl. split_and!; [apply recovers_tick|done|done]. }
  intros confirmed. destruct (negb confirmed); [by apply leads_ret|].
  eapply (leads_then _ _ _ _ _ _ _ _ _ _ (λ _ _, True)).
  - apply leads_catch; [|intros e; by apply leads_ret]. apply leads_row; [exact HQ|done| |done].
    intros s s'. simpl. repeat case_match; intros; simplify_eq/=;
      (apply writes_note; [done..|]; intros _; by apply verdict_same).
  - intros [known|]; by apply leads_ret.
Qed.

Lemma leads_bind_workspace spec :
  spec.(id) = name → leads any (bind_scheduler_workspace V spec) (λ o _, o.2.(id) = name).
Proof.
  intros Hid. unfold bind_scheduler_workspace.
  destruct (scheduler_remote_workspace spec) as [[|]|]; [|by apply leads_ret|]; by apply leads_record_workspace.
Qed.

Lemma leads_reattach spec :
  spec.(id) = name → target_of spec = target → leads any (reattach_scheduler_job V spec) (λ _ _, True).
Proof.
  intros Hid Ht. unfold reattach_scheduler_job. unfold target_of in Ht.
  destruct (scheduler_target spec) as [t|]; [|by apply leads_ret]. simpl in Ht. subst t.
  apply leads_asking; intros n. destruct (negb _); [by apply leads_ret|].
  eapply leads_bind; [by apply leads_bind_workspace|]. intros [ws spec']. apply leads_given. simpl. intros _ Hid'.
  assert (∀ job_id, leads any
    (do? _ := track (id spec')
       (MkSchedulerJob target job_id (bound_remote_workspace V spec') None false
          (scheduler_state_in spec' SCHEDULER_COLLECTION_PHASES) 0 None 0) in ret true) (λ _ _, True)) as Ha.
  { intros job_id. rewrite Hid'. eapply leads_then; [by apply leads_track|]. intros; by apply leads_ret. }
  destruct (scheduler_job_id spec') as [job_id|]; [apply Ha|].
  apply leads_asking; intros n2. apply leads_asking; intros n3. destruct (ids_conflict _).
  { eapply leads_then; [by apply leads_mark|]. intros; by apply leads_ret. }
  destruct (chosen_id _) as [job_id|]; [|by apply leads_ret].
  eapply leads_then; [rewrite Hid'; by apply leads_persist|]. intros named.
  destruct (negb named); [by apply leads_ret|apply Ha].
Qed.

Lemma leads_relabel label : leads any (relabel V name label) (λ _ _, True).
Proof.
  apply leads_asking; intros now. apply leads_row; [exact HQ|done| |done]. intros s s'. simpl.
  destruct (is_terminal s) eqn:Ht; [done|]. simpl. case_bool_decide; [done|]. intros [= <-].
  apply writes_note; [done..|]. by rewrite Ht.
Qed.
End reattach.

(** ** What the evidence decides *)

(** The row after an undisturbed recovery of [s] at [now]. *)
Definition recovered_row (now : Z) (ev : Evidence) (s : JobSpec) : JobSpec :=
  let parked (label reason : string) :=
    set_failure_reason (Some reason) (heartbeat now (set_scheduler_state (Some label)
      (set_state SUBMIT_OUTCOME_UNKNOWN s))) in
  if ids_conflict (acceptance_ids ev)
  then parked CONFLICT "conflicting daemon binding, scheduler receipt, and job-start marker ids"
  else match chosen_id ev with
       | Some job_id =>
         heartbeat now (set_scheduler_job_id (Some job_id) (set_scheduler_state None (set_state RUNNING s)))
       | None =>
         if receipt_rejects ev
         then set_finished_at (Some (Aware now)) (set_exit_code None
                (set_failure_reason (Some (rejection_reason ev))
                   (set_scheduler_state (Some "submit_rejected") (set_state FAILED s))))
         else parked "submit_outcome_unknown" "scheduler acceptance has no valid receipt or job-start marker"
       end.

(** The job an undisturbed recovery adopts. *)
Definition adopted (ev : Evidence) : option string := if ids_conflict (acceptance_ids ev) then None else chosen_id ev.

(** Nobody else touches the queue, writes succeed, the scheduler host answers,
    and no fence was asked for. *)
Record undisturbed (V : RecoveryEnv) (s : JobSpec) (ev : Evidence) : Prop := {
  ud_interfere n q : V.(v_launch).(l_queue).(q_interfere) n q = q;
  ud_writes n : V.(v_launch).(l_queue).(q_write_fails) n = false;
  ud_dispatcher n t : V.(v_launch).(l_dispatcher) n t = true;
  ud_imported n : V.(v_imported) n s = Some ev.(ev_imported);
  ud_receipt n : V.(v_receipt) n s.(id) (bound_remote_workspace V s) = ev.(ev_receipt);
  ud_recorded n : V.(v_recorded) n s.(id) (bound_remote_workspace V s) = ev.(ev_recorded);
  ud_fence n : V.(v_fence) n s = Some None;
}.

Section exact.
Context (V : RecoveryEnv) (s : JobSpec) (ev : Evidence) (Hu : undisturbed V s ev).

Lemma with_row_alone {A} (body : res daemon_error JobSpec → A * option JobSpec) old w :
  w.(dw_queue) !! s.(id) = Some (Some old) →
  with_row V.(v_launch).(l_queue) s.(id) body w
  = (Ok (body (Ok old)).1,
     MkDWorld w.(dw_daemon) (match (body (Ok old)).2 with Some s' => <[s.(id) := Some s']> w.(dw_queue) | None => w.(dw_queue) end)
       (S w.(dw_tick)) w.(dw_trace) (w.(dw_seen) ++ [w.(dw_queue)])).
Proof.
  intros Hq. unfold with_row, access, read_spec. rewrite (ud_interfere _ _ _ Hu), Hq.
  destruct (body (Ok old)) as [a [s'|]]; [|done]. by rewrite (ud_writes _ _ _ Hu).
Qed.

(** A rewrite of the row at a time [now]. *)
Definition rewrites (f : Z → JobSpec → JobSpec) {A} (m : DM A) (a : A) : Prop :=
  ∀ w old, w.(dw_queue) !! s.(id) = Some (Some old) → is_terminal old = false → is_some old.(scheduler_target) = true →
    ∃ now w', m w = (Ok a, w') ∧ w'.(dw_queue) = <[s.(id) := Some (f now old)]> w.(dw_queue)
      ∧ w'.(dw_daemon) = w.(dw_daemon).

Lemma rewrites_then {A B} f (m : DM A) a (b : B) : rewrites f m a → rewrites f (do? _ := m in ret b) b.
Proof.
  intros Hm w old Hq Ht Hs. destruct (Hm w old Hq Ht Hs) as (now & w' & E & Hq' & Hd). exists now, w'.
  unfold bind. by rewrite E.
Qed.

Lemma mark_alone durable reason :
  rewrites (λ now old, set_failure_reason (Some reason) (heartbeat now (set_scheduler_state (Some durable)
              (set_state SUBMIT_OUTCOME_UNKNOWN old))))
    (mark_submit_unknown V.(v_launch) durable s reason) tt.
Proof.
  intros w old Hq Ht Hs. unfold mark_submit_unknown, bind, ask. erewrite with_row_alone by exact Hq.
  rewrite bool_decide_eq_false_2 by (intros E; by rewrite E in Hs). rewrite Ht. by eexists _, _.
Qed.

Lemma terminalize_alone reason live after :
  rewrites (λ now old, set_finished_at (Some (Aware now)) (set_exit_code None
              (set_failure_reason (Some reason) (set_scheduler_state (Some live) (set_state FAILED old)))))
    (terminalize_unadmitted V s reason live after) tt.
Proof.
  intros w old Hq Ht Hs. unfold terminalize_unadmitted, bind, ask. erewrite with_row_alone by exact Hq.
  rewrite Ht. by eexists _, _.
Qed.

Lemma adopt_alone target job_id w :
  w.(dw_queue) !! s.(id) = Some (Some s) → is_terminal s = false → s.(scheduler_target) = Some target →
  s.(scheduler_job_id) = None →
  ∃ now w', adopt_accepted V s target job_id w = (Ok true, w')
    ∧ w'.(dw_queue) = <[s.(id) := Some (heartbeat now (set_scheduler_job_id (Some job_id)
                          (set_scheduler_state None (set_state RUNNING s))))]> w.(dw_queue)
    ∧ w'.(dw_daemon).(scheduler_running)
      = <[s.(id) := new_scheduler_job target job_id (bound_remote_workspace V s)]> w.(dw_daemon).(scheduler_running).
Proof.
  intros Hq Ht Htgt Hj. unfold adopt_accepted. rewrite Ht. unfold bind at 1, persist_recovered_job_id.
  erewrite with_row_alone by exact Hq. rewrite Ht, Hj. cbn [orb]. rewrite bool_decide_eq_false_2 by (by rewrite Htgt).
  cbn [fst snd negb]. unfold bind at 1, confirm_running. unfold bind at 1, ask.
  erewrite with_row_alone by apply lookup_insert_eq.
  change (is_terminal (set_scheduler_job_id (Some job_id) s)) with (is_terminal s). rewrite Ht.
  rewrite bool_decide_eq_true_2 by done. cbn [fst snd negb]. unfold bind, track, update_daemon, ret.
  eexists _, _. split_and!; [done| |done]. simpl. by rewrite insert_insert_eq.
Qed.

(** C37: undisturbed, a recovery computes what the evidence decides.  A row of
    an uncertain submission that has not ended and has no id becomes exactly
    [recovered_row]: RUNNING under the id all the sources agree on and tracked
    under it on its target, FAILED when a receipt rejects it and nothing names
    a job, parked in every other case; no other row and no other job changes. *)
Theorem recovery_exact target w :
  w.(dw_queue) !! s.(id) = Some (Some s) → is_terminal s = false → s.(scheduler_target) = Some target →
  s.(scheduler_job_id) = None → scheduler_state_in s CONFLICT_STATES = false →
  ∃ now w', reconcile_unconfirmed_submit V s w = (Ok (is_some (adopted ev)), w')
    ∧ w'.(dw_queue) = <[s.(id) := Some (recovered_row now ev s)]> w.(dw_queue)
    ∧ w'.(dw_daemon).(scheduler_running)
      = match adopted ev with
        | Some job_id => <[s.(id) := new_scheduler_job target job_id (bound_remote_workspace V s)]>
                           w.(dw_daemon).(scheduler_running)
        | None => w.(dw_daemon).(scheduler_running)
        end.
Proof.
  intros Hq Ht Htgt Hj Hc. unfold reconcile_unconfirmed_submit. rewrite Hc, Htgt, Ht. cbn [andb].
  unfold bind at 1, ask at 1. rewrite (ud_dispatcher _ _ _ Hu). cbn [negb].
  unfold bind at 1, ask at 1. rewrite (ud_imported _ _ _ Hu).
  unfold bind at 1, ask at 1. rewrite (ud_receipt _ _ _ Hu).
  unfold bind at 1, ask at 1. rewrite (ud_recorded _ _ _ Hu). cbn [dw_daemon dw_queue dw_tick dw_trace dw_seen].
  assert (MkEvidence (ev_imported ev) (ev_receipt ev) (ev_recorded ev) = ev) as -> by by destruct ev.
  assert (is_some s.(scheduler_target) = true) as Hs by by rewrite Htgt.
  assert (∀ f m w1, w1.(dw_queue) = w.(dw_queue) → w1.(dw_daemon) = w.(dw_daemon) → rewrites f m false →
    ∃ now w', m w1 = (Ok false, w') ∧ w'.(dw_queue) = <[s.(id) := Some (f now s)]> w.(dw_queue)
      ∧ w'.(dw_daemon).(scheduler_running) = w.(dw_daemon).(scheduler_running)) as Hrw.
  { intros f m w1 Eq Ed Hm. destruct (Hm w1 s) as (now & w' & Er & Hq' & Hd); [by rewrite Eq|done..|].
    exists now, w'. split_and!; [done|by rewrite Hq', Eq|by rewrite Hd, Ed]. }
  unfold resolve_evidence, adopted, recovered_row. destruct (ids_conflict _).
  { refine (Hrw _ _ _ _ _ (rewrites_then _ _ _ false (mark_alone _ _))); done. }
  destruct (chosen_id ev) as [job_id|].
  { destruct (adopt_alone target job_id (MkDWorld (dw_daemon w) (dw_queue w) (S (S (S (S (dw_tick w))))) (dw_trace w) (dw_seen w)))
      as (now & w' & ? & ? & ?); [done..|]. by exists now, w'. }
  destruct (receipt_rejects ev).
  { refine (Hrw _ _ _ _ _ (rewrites_then _ _ _ false (terminalize_alone _ _ _))); done. }
  unfold bind at 1, apply_start_fence. unfold bind at 1, ask at 1. rewrite (ud_fence _ _ _ Hu).
  refine (Hrw _ _ _ _ _ (rewrites_then _ _ _ false (mark_alone _ _))); done.
Qed.
End exact.
