(* ===== verification/RecoveryRetry.v ===== *)
(** * The retry pass starves no row

    [_retry_deferred_scheduler_reattach] visits the rows in the order of their
    last attempts and may stop after one of them: every pass either tries a
    row that is due or moves it closer to the front. *)

From S2P Require Import Prelude Spec Json BrokerRecord StartFence Dialect Admission DaemonCore Dispatch DaemonLogic DispatchSafety Launch LaunchSafety Recovery RecoveryLogic RecoveryGuarantees.

(** ** Counting *)

Lemma filter_length_lt {A} (p q : A → bool) (l : list A) b :
  (∀ x, x ∈ l → q x = true → p x = true) → b ∈ l → p b = true → q b = false →
  (length (List.filter q l) < length (List.filter p l))%nat.
Proof.
  intros Hs. assert (∀ k, k ⊆ l → length (List.filter q k) <= length (List.filter p k))%nat as Hle.
  { induction k as [|x k IH]; intros Hk; simpl; [lia|]. specialize (IH ltac:(set_solver)).
    specialize (Hs x ltac:(set_solver)). destruct (q x); [rewrite Hs by done|destruct (p x)]; simpl; lia. }
  intros Hb Hp Hq. apply list_elem_of_split in Hb as (l1 & l2 & ->). rewrite !List.filter_app, !length_app. simpl.
  rewrite Hp, Hq. simpl. pose proof (Hle l1 ltac:(set_solver)). pose proof (Hle l2 ltac:(set_solver)). lia.
Qed.

Section retry.
Context (V : RecoveryEnv) (R : string → request) (K : string → Prop) (HQ : queue_ok R K V.(v_launch).(l_queue)).
Let clock : nat → Z := V.(v_launch).(l_monotonic).
Context (Hclock : ∀ n m, (n <= m)%nat → clock n <= clock m).

Abbreviation stamp w j := (w.(dw_daemon).(scheduler_reattach_retry_last) !! j).
Abbreviation tracked w j := (w.(dw_daemon).(scheduler_running) !! j).

(** ** One attempt *)

(** Since [t0]: the clock went on, the queue stayed honest, and whatever was
    stamped was stamped since. *)
Record stamping (t0 : Z) (w w' : dworld) : Prop := {
  sp_tick : (w.(dw_tick) <= w'.(dw_tick))%nat;
  sp_honest : honest R w.(dw_queue) → honest R w'.(dw_queue);
  sp_stamp j : stamp w' j = stamp w j ∨ ∃ t, stamp w' j = Some t ∧ t0 <= t;
}.

#[export] Instance stamping_preorder t0 : PreOrder (stamping t0).
Proof.
  split; [intros w; split; auto|]. intros w1 w2 w3 [? ? Hs] [? ? Hs']. split; [lia|auto|].
  intros j. destruct (Hs' j) as [E'|?]; [rewrite E'|by right]. destruct (Hs j) as [->|?]; [by left|by right].
Qed.

(** What an attempt on [s] does: it stamps [s] only, and leaves the tracking of
    the others. *)
Record tried_once (s : JobSpec) (w w' : dworld) : Prop := {
  at_tick : (w.(dw_tick) <= w'.(dw_tick))%nat;
  at_honest : honest R w'.(dw_queue);
  at_stamp : ∃ n, (w.(dw_tick) <= n)%nat ∧ stamp w' s.(id) = Some (clock n);
  at_stamps j : j ≠ s.(id) → stamp w' j = stamp w j;
  at_tracked j : j ≠ s.(id) → tracked w' j = tracked w j;
}.

Lemma retry_one_tries s w r w' :
  honest R w.(dw_queue) → retry_one V s w = (r, w') → tried_once s w w'.
Proof.
  intros Hw. unfold retry_one. set (m := if retry_unconfirmed _ _ then _ else _).
  assert (∃ acc una, wp m (λ _ w1, recovers R K V.(v_launch) s.(id) (target_of s) acc una w w1) w) as (acc & una & Hm).
  { unfold m. destruct (retry_unconfirmed _ _).
    - destruct (reconcile_unconfirmed_submit V s w) as [r1 w1] eqn:E1.
      destruct (reconcile_justified V R K HQ s w r1 w1 Hw E1) as (ev & _ & Hr & _).
      exists (accepts s ev), (proves_unadmitted V s ev). unfold wp, bind. rewrite E1. by destruct r1.
    - exists (λ _, True), False. eapply wp_mono; [|eapply leads_then; [by apply leads_reattach|..]]; simpl.
      + by intros r1 w1 [? _].
      + intros []; [by apply leads_relabel|by apply (leads_ret _ _ _ _ _ _ _ _ _ (λ _ _, True))].
      + done.
      + done. }
  unfold wp in Hm. destruct (m w) as [r1 w1]. simpl in Hm. destruct Hm as [_ Ho _ Hr Ht [Hc _]].
  unfold bind, ask, update_daemon, lift. simpl. intros [= <- <-]. split; simpl.
  - lia.
  - by apply Hc.
  - exists (dw_tick w1). by rewrite lookup_insert_eq.
  - intros j Hj. by rewrite lookup_insert_ne, Hr.
  - done.
Qed.

Lemma tried_stamping s w w' t0 : t0 <= clock w.(dw_tick) → tried_once s w w' → stamping t0 w w'.
Proof.
  intros Ht [Hk Hh (n & Hn & Hs) Hss _]. split; [done|auto|]. intros j.
  destruct (decide (j = s.(id))) as [->|Hj]; [right|left; by apply Hss].
  exists (clock n). split; [done|]. etransitivity; [done|by apply Hclock].
Qed.

(** ** The loop *)

Lemma candidate_ext d d' c :
  d'.(scheduler_running) !! c.(id) = d.(scheduler_running) !! c.(id) → retry_candidate d' c = retry_candidate d c.
Proof. intros E. unfold retry_candidate, retry_unconfirmed, untracked. by rewrite E. Qed.

Lemma stamping_tick t0 w : stamping t0 w (MkDWorld w.(dw_daemon) w.(dw_queue) (S w.(dw_tick)) w.(dw_trace) w.(dw_seen)).
Proof. split; simpl; auto. Qed.

(** An iteration that tries [s], and what follows. *)
Definition tries (deadline : Z) (s : JobSpec) (l : list JobSpec) : DM (list string) :=
  do? _ := retry_one V s in
  do? now := ask clock in
  if deadline <=? now then do? _ := update_daemon (set_scheduler_refresh_wakeup true) in ret [s.(id)]
  else do? rest := retry_loop V deadline l in ret (s.(id) :: rest).

Lemma tries_stamping t0 deadline s l w r w' :
  (∀ w r w', honest R w.(dw_queue) → t0 <= clock w.(dw_tick) → retry_loop V deadline l w = (r, w') → stamping t0 w w') →
  honest R w.(dw_queue) → t0 <= clock w.(dw_tick) → tries deadline s l w = (r, w') →
  ∃ w1, tried_once s w w1 ∧ stamping t0 w1 w'.
Proof.
  intros Hl Hw Ht. unfold tries, bind. destruct (retry_one V s w) as [r1 w1] eqn:E1.
  pose proof (retry_one_tries s w r1 w1 Hw E1) as Ha. intros Hrun. exists w1. split; [done|].
  assert (t0 <= clock (S (dw_tick w1))) as Ht1.
  { etransitivity; [done|]. apply Hclock. destruct Ha. lia. }
  destruct r1 as [[]|e]; [|by injection Hrun as <- <-]. unfold ask in Hrun. destruct (deadline <=? _).
  - unfold update_daemon in Hrun. injection Hrun as <- <-. split; simpl; auto.
  - destruct (retry_loop V deadline l _) as [r2 w2] eqn:E2. apply Hl in E2; [|by destruct Ha|done].
    assert (w' = w2) as -> by (by destruct r2; injection Hrun as <- <-).
    etransitivity; [apply stamping_tick|done].
Qed.

Lemma retry_loop_cons deadline s l w :
  retry_loop V deadline (s :: l) w
  = if negb (retry_candidate w.(dw_daemon) s) then retry_loop V deadline l w
    else let w1 := MkDWorld w.(dw_daemon) w.(dw_queue) (S w.(dw_tick)) w.(dw_trace) w.(dw_seen) in
         if clock w.(dw_tick) - last_retry w.(dw_daemon) s <? SCHEDULER_REATTACH_RETRY
         then retry_loop V deadline l w1 else tries deadline s l w1.
Proof. simpl. unfold tries, bind, get_daemon, ask. destruct (negb _); [done|]. by destruct (_ <? _). Qed.

Lemma retry_loop_stamping t0 deadline l w r w' :
  honest R w.(dw_queue) → t0 <= clock w.(dw_tick) → retry_loop V deadline l w = (r, w') → stamping t0 w w'.
Proof.
  revert w r w'. induction l as [|s l IH]; intros w r w' Hw Ht; [by intros [= <- <-]|].
  rewrite retry_loop_cons. destruct (negb _); [by apply IH|]. cbn zeta.
  assert (t0 <= clock (S (dw_tick w))) as Ht' by (etransitivity; [done|apply Hclock; lia]).
  destruct (_ <? _); intros Hrun; (etransitivity; [apply stamping_tick|]).
  - by eapply IH.
  - eapply tries_stamping in Hrun as (w1 & Ha & Hs); [|exact IH|exact Hw|exact Ht'].
    etransitivity; [by apply (tried_stamping s); [|exact Ha]|done].
Qed.

(** A row that is due is tried, or one before it is. *)
Lemma retry_loop_progress t0 deadline l c w r w' :
  honest R w.(dw_queue) → t0 <= clock w.(dw_tick) → c ∈ l →
  retry_candidate w.(dw_daemon) c = true → SCHEDULER_REATTACH_RETRY <= t0 - last_retry w.(dw_daemon) c →
  retry_loop V deadline l w = (r, w') →
  ∃ l1 b l2 t, l = l1 ++ b :: l2 ∧ c ∈ b :: l2 ∧ stamp w' b.(id) = Some t ∧ t0 <= t.
Proof.
  intros Hw Ht Hc Hcand Hdue. revert w Hw Ht Hcand Hdue. induction l as [|s l IH]; intros w Hw Ht Hcand Hdue;
    [by apply elem_of_nil in Hc|].
  assert (∀ w1, honest R w1.(dw_queue) → t0 <= clock w1.(dw_tick) → w1.(dw_daemon) = w.(dw_daemon) → c ≠ s →
    retry_loop V deadline l w1 = (r, w') →
    ∃ l1 b l2 t, s :: l = l1 ++ b :: l2 ∧ c ∈ b :: l2 ∧ stamp w' b.(id) = Some t ∧ t0 <= t) as Hskip.
  { intros w1 Hw1 Ht1 Hd Hn Hrun. apply elem_of_cons in Hc as [?|Hc]; [done|].
    destruct (IH Hc w1 Hw1 Ht1) as (l1 & b & l2 & t & -> & ? & ? & ?); [by rewrite Hd..|done|].
    by exists (s :: l1), b, l2, t. }
  rewrite retry_loop_cons. destruct (negb (retry_candidate _ s)) eqn:Es.
  { apply Hskip; [done..|]. intros ->. by rewrite Hcand in Es. }
  cbn zeta. assert (t0 <= clock (S (dw_tick w))) as Ht' by (etransitivity; [done|apply Hclock; lia]).
  destruct (_ <? _) eqn:El; intros Hrun.
  { apply Hskip in Hrun; try done. intros ->. apply Z.ltb_lt in El. fold clock in El. lia. }
  eapply tries_stamping in Hrun as (w1 & [_ _ (n & Hn & Hs) _ _] & [_ _ Hst]);
    [|apply retry_loop_stamping|exact Hw|exact Ht'].
  exists [], s, l. simpl in Hn. assert (t0 <= clock n) as Hn' by (etransitivity; [exact Ht'|by apply Hclock]).
  destruct (Hst s.(id)) as [E|(t & E & ?)]; [exists (clock n)|exists t]; split_and!; try done; by rewrite E, Hs.
Qed.

(** ** The pass *)

(** The rows a row waits for: those tried no later than it. *)
Definition waits_for (d : Daemon) (specs : list JobSpec) (c : JobSpec) : list JobSpec :=
  List.filter (λ s, negb (String.eqb s.(id) c.(id)) && (last_retry d s <=? last_retry d c)) specs.

(** C36: the retry pass starves no row.  Whatever its attempts do and however
    it ends (its quantum used up, or an exception that leaves it), a row that
    needs recovery and whose last attempt is a minute old is tried in the
    pass, or waits for strictly fewer rows afterwards. *)
Theorem retry_starves_none specs c w r w' :
  honest R w.(dw_queue) → c ∈ specs →
  retry_candidate w.(dw_daemon) c = true →
  SCHEDULER_REATTACH_RETRY <= clock w.(dw_tick) - last_retry w.(dw_daemon) c →
  retry_deferred_reattach V specs w = (r, w') →
  clock w.(dw_tick) <= last_retry w'.(dw_daemon) c
  ∨ (length (waits_for w'.(dw_daemon) specs c) < length (waits_for w.(dw_daemon) specs c))%nat.
Proof.
  intros Hw Hc Hcand Hdue. unfold retry_deferred_reattach, bind, get_daemon, ask. set (w1 := MkDWorld _ _ _ _ _).
  set (t0 := clock (dw_tick w)) in *. assert (t0 <= clock (dw_tick w1)) as Ht by (apply Hclock; simpl; lia).
  intros Hrun. pose proof (retry_loop_stamping t0 _ _ w1 _ _ Hw Ht Hrun) as [_ _ Hst].
  apply (retry_loop_progress t0 _ _ c) in Hrun as (l1 & b & l2 & t & El & Hcb & Hb & Htb);
    [|done|done|by apply elem_of_sort_by|done|done].
  assert (last_retry (dw_daemon w) b <= last_retry (dw_daemon w) c) as Hle.
  { apply elem_of_cons in Hcb as [->|Hcb]; [done|].
    pose proof (sort_by_sorted (on_key Z.leb (last_retry (dw_daemon w))) specs) as Hs.
    change (sort_by _ specs) with (retry_order (dw_daemon w) specs) in Hs. rewrite El in Hs.
    apply StronglySorted_app_1_r in Hs. apply StronglySorted_inv in Hs as [_ Hs]. rewrite Forall_forall in Hs.
    specialize (Hs c Hcb). by apply Z.leb_le in Hs. }
  assert (b ∈ specs) as Hbs.
  { apply (elem_of_sort_by (on_key Z.leb (last_retry (dw_daemon w)))).
    change (sort_by _ specs) with (retry_order (dw_daemon w) specs). rewrite El. set_solver. }
  unfold last_retry at 1. destruct (decide (b.(id) = c.(id))) as [Hid|Hid].
  { left. rewrite <- Hid, Hb. done. }
  destruct (Hst c.(id)) as [Hsc|(t' & -> & ?)]; [right|by left].
  assert (last_retry (dw_daemon w') c = last_retry (dw_daemon w) c) as Elc by (unfold last_retry; by rewrite Hsc).
  assert (0 < SCHEDULER_REATTACH_RETRY) as Hpos by done.
  apply (filter_length_lt _ _ specs b); [|done|..].
  - intros x Hx [Hn Hl]%andb_true_iff. rewrite Hn. apply Z.leb_le in Hl. apply Z.leb_le.
    rewrite Elc in Hl. destruct (Hst x.(id)) as [Hsx|(t' & Hsx & ?)].
    + unfold last_retry in Hl at 1. rewrite Hsx in Hl. exact Hl.
    + unfold last_retry in Hl at 1. rewrite Hsx in Hl. simpl in Hl. lia.
  - rewrite (proj2 (String.eqb_neq _ _) Hid). simpl. by apply Z.leb_le.
  - rewrite (proj2 (String.eqb_neq _ _) Hid). simpl. apply Z.leb_gt. rewrite Elc.
    unfold last_retry at 2. rewrite Hb. simpl. lia.
Qed.
End retry.
