(* ===== verification/DaemonWitnesses.v ===== *)
(** * A daemon at work

    A small queue, a host with eight cores and one GPU, one scheduler, and
    the daemon's own launcher: the concrete runs at which the theorems about
    the dispatch pass, the launcher and the reaper are applied. *)

From S2P Require Import Prelude Spec Admission DaemonCore Dispatch DaemonLogic DispatchSafety DispatchGuarantees Launch Reap LaunchSafety LaunchGuarantees.

Module Demo.

Definition config : DaemonConfig := MkConfig (Some 2) 8 None None (Some 4) ["0"] false.

Definition hosts : Hosts := [("hpc", MkHost None (Some 2) (5 * TICKS_PER_SECOND))].

Definition requests (name : string) : request :=
  if String.eqb name "a" then MkRequest 4 (Some 1) None None
  else if String.eqb name "b" then MkRequest 6 None None None
  else if String.eqb name "c" then MkRequest 1 None None (Some "hpc")
  else MkRequest 8 None None None.

Definition job (name : string) : JobSpec :=
  let r := requests name in
  {| id := name; command := ["sleep"; "60"]; cwd := "/w"; cpus := r.(rq_cpus); gpus := r.(rq_gpus);
     gpu_devices := None; mem_mb := r.(rq_mem_mb); wall_time_seconds := Some 3600; priority := 0;
     refresh_before := None; build_env := None; job_name := None; retry_max := 2; retry_count := 0;
     not_before := None; depends_on := []; depends_on_any := []; failure_reason := None;
     failure_tail := None; state := PENDING; submitted_at := "2026-01-01T00:00:00+00:00";
     idempotency_key_hash := None; submission_intent_digest := None; submission_owner_hash := None;
     submitter := None; pid := None; pgid := None; pid_start_time := None;
     scheduler_target := r.(rq_target); scheduler_job_id := None; scheduler_state := None;
     scheduler_remote_workspace := None; scheduler_submitted_at := None; scheduler_started_at := None;
     started_at := None; finished_at := None; last_heartbeat_at := None; pause_intent_at := None;
     exit_code := None; workdir := None; program := None; program_runtime_pin := None;
     qvf_artifact_name := None; paused_at := None;
     paused_monotonic_at := None; paused_seconds_total := 0; paused_by := None;
     pause_intent_monotonic_at := None; pause_intent_pgid := None; pause_intent_by := None |}.

Definition queue : queue_dir := {[ "a" := Some (job "a"); "b" := Some (job "b"); "c" := Some (job "c") ]}.

Definition idle : Daemon := MkDaemon ∅ ∅ ∅ ∅ None None ∅ None ∅ false ∅.

Definition world (d : Daemon) : dworld := MkDWorld d queue 0 [] [].

(** The clock moves by a thousand ticks, about a millisecond, per access. *)
Definition clock (n : nat) : Z := 1000 * TICKS_PER_SECOND + 1000 * Z.of_nat n.

Definition alone : QueueEnv := MkQueueEnv (λ _ q, q) (λ _, false).

Definition env (Q : QueueEnv) : DispatchEnv :=
  {| e_queue := Q; e_utcnow := clock; e_monotonic := clock; e_submit_clock := clock;
     e_admin_marker := λ _, None; e_config_unusable := λ _, false; e_drain := λ _, None;
     e_host_pressure := λ _, false; e_hosts := λ _, Some hosts; e_new_jobid := λ _, "build";
     e_workspace := λ _ _, Some "/b"; e_submitted_at := λ _, "2026-01-01T00:00:00+00:00";
     e_executable := "python"; e_build_wall_time := 3600 |}.

Definition launch_env (Q : QueueEnv) : LaunchEnv :=
  {| l_queue := Q; l_utcnow := clock; l_monotonic := clock; l_admin_marker := λ _, None;
     l_resolution := λ _ _, MkResolution None None None None None None;
     l_bundle_failure := λ _ _, None; l_container_requested := λ _, false;
     l_container_prepared := λ _ _, true; l_container_present := λ _ _, false;
     l_container_settled := λ _ _, false; l_setup_fails := λ _, false; l_scope_leaked := λ _ _, false;
     l_workdir := λ s, "/w/" +:+ s; l_spawn := λ _ _, Some 4242; l_getpgid := λ _ p, Some p;
     l_pid_start_time := λ _ _, Some 7; l_dispatcher := λ _ _, true; l_prepare_retry := λ _ _, true;
     l_wall_time_error := λ _ _, None; l_remote_workspace := λ s, "/r/" +:+ s;
     l_submit := λ _ _, Accepted "77" |}.

Definition reap_env (Q : QueueEnv) (rc : option Z) : ReapEnv :=
  {| r_queue := Q; r_utcnow := clock; r_monotonic := clock; r_poll := λ _ _, rc;
     r_pgroup_alive := λ _ _, true; r_own_pgrp := 1; r_container_poll := λ _ _, Some None;
     r_container_result := λ _ _, None; r_claim_repaired := λ _ _, true;
     r_stderr_tail := λ _ _, Some "boom" |}.

#[export] Instance recovery : SubmitRecovery :=
  {| reconcile_unconfirmed := λ _, ret tt; cancel_recovered := λ _ _, ret false |}.
#[export] Instance rerun : Rerun := {| spawn_rerun := λ _, ret tt |}.

Definition launcher : Launcher :=
  vq_launcher config (launch_env alone) (reap_env alone None) recovery rerun (ret tt).

(** ** The assumptions hold *)

Lemma alone_ok K : queue_ok requests K alone.
Proof. split; [done|]. intros n q. reflexivity. Qed.

Lemma recovery_ok K : SubmitRecoveryOk requests K recovery.
Proof. split; intros; by apply (does_ret requests (calm requests K)). Qed.

Lemma rerun_ok K : RerunOk requests K rerun.
Proof. split; intros; by apply (does_ret requests (quiet requests K)). Qed.

Lemma launcher_ok : LauncherOk requests launcher.
Proof.
  apply vq_launcher_ok; [apply alone_ok|apply alone_ok|apply recovery_ok|apply rerun_ok|].
  intros w _. apply wp_ret. reflexivity.
Qed.

Lemma env_is_ok : env_ok config (env alone) requests.
Proof.
  split; try done.
  - intros name. unfold requests. by repeat case_match.
  - intros name. unfold requests. by repeat case_match.
  - simpl. apply NoDup_singleton.
Qed.

Lemma queue_honest : honest requests queue.
Proof.
  intros name s. unfold queue. rewrite !lookup_insert_Some, lookup_singleton_Some.
  intros [[<- [= <-]]|[_ [[<- [= <-]]|[_ [<- [= <-]]]]]]; done.
Qed.
End Demo.

Import Demo.

#[local] Existing Instance launcher.

(** ** The dispatch pass *)

(** One pass over the demo queue: [a] and then [c] are started, [b] does not fit beside [a]. *)
Definition demo_pass : res daemon_error unit * dworld := dispatch_pending config (env alone) (world idle).

Lemma demo_pass_run : dispatch_pending config (env alone) (world idle) = (Ok tt, demo_pass.2).
Proof. vm_compute. reflexivity. Qed.

Lemma idle_ok : tracked_ok config idle.
Proof. split; [by intros ch Hch%not_elem_of_nil|constructor]. Qed.



Lemma scheduler_submissions_paced_witness :
  let A := new_admission hosts [] in
  ∃ es, demo_pass.2.(dw_trace) = es
    ∧ (0 < pool_starts A (canonical A "hpc") es →
       tracked_on A idle (canonical A "hpc") + pool_starts A (canonical A "hpc") es <= 2)
    ∧ pool_starts A (canonical A "hpc") es = 1.
Proof.
  intros A.
  destruct (scheduler_submissions_paced config (env alone) requests env_is_ok (HL := launcher_ok) hosts
    (world idle) (Ok tt) demo_pass.2) as (es & Htr & Hp); [done|exact queue_honest|exact demo_pass_run|].
  exists es. simpl in Htr. split; [exact Htr|]. split; [|subst es; vm_compute; reflexivity].
  destruct (Hp "hpc" (MkHost None (Some 2) (5 * TICKS_PER_SECOND))) as (_ & _ & Hcap);
    [apply list_elem_of_singleton; reflexivity|].
  exact (Hcap 2 eq_refl).
Defined.

Lemma build_runs_alone_witness :
  ∃ es, demo_pass.2.(dw_trace) = es ∧ build_last es ∧ length es = 4%nat.
Proof.
  destruct (build_runs_alone config (env alone) requests env_is_ok (HL := launcher_ok) (world idle) (Ok tt) demo_pass.2)
    as (es & Htr & Hl & _); [exact queue_honest|exact demo_pass_run|].
  exists es. simpl in Htr. split; [exact Htr|]. split; [exact Hl|]. subst es. vm_compute. reflexivity.
Defined.

(** The plan and the loop of the same pass. *)
Definition demo_plan : res daemon_error (option (pass * tally * list JobSpec)) * dworld :=
  plan config (env alone) [] None (world idle).

Lemma dispatch_work_conserving_witness :
  ∃ p t pending t' w',
    demo_plan.1 = Ok (Some (p, t, pending))
    ∧ dispatch_loop config (env alone) p t pending demo_plan.2 = (Ok (t', Next), w')
    ∧ map id pending = ["a"; "b"; "c"]
    ∧ ∃ es, w'.(dw_trace) = demo_plan.2.(dw_trace) ++ es
        ∧ ∀ s gs, s ∈ pending → s.(scheduler_target) = None → admission_gate config p t' s = Admit gs → served es w' s.
Proof.
  assert (∃ p t pending, plan config (env alone) [] None (world idle) = (Ok (Some (p, t, pending)), demo_plan.2)
    ∧ map id pending = ["a"; "b"; "c"]
    ∧ ∃ t' w', dispatch_loop config (env alone) p t pending demo_plan.2 = (Ok (t', Next), w'))
    as (p & t & pending & Hplan & Hids & t' & w' & Hrun).
  { do 3 eexists. split; [vm_compute; reflexivity|]. split; [vm_compute; reflexivity|].
    do 2 eexists. vm_compute. reflexivity. }
  destruct (wp_elim _ _ _ _ _ (plan_spec config (env alone) requests env_is_ok (HL := launcher_ok) [] None (world idle) queue_honest) Hplan)
    as (_ & Hq & Hp).
  exists p, t, pending, t', w'. split; [unfold demo_plan; rewrite Hplan; reflexivity|].
  split; [exact Hrun|]. split; [exact Hids|].
  exact (dispatch_work_conserving config (env alone) requests env_is_ok (HL := launcher_ok) [] None p t pending
    demo_plan.2 t' w' Hq (Hp _ _ _ eq_refl) Hrun).
Defined.

(** ** The launcher *)

(** The operator kills [a] at access [n] of whatever the daemon is doing. *)
Definition killer (at_access : nat) : QueueEnv :=
  MkQueueEnv (λ n q,
    match q !! "a" with
    | Some (Some s) =>
      if bool_decide (n = at_access) && negb (is_terminal s)
      then <["a" := Some (set_finished_at (Some (Aware 9)) (set_state KILLED s))]> q else q
    | _ => q
    end) (λ _, false).

Lemma killer_ok n : queue_ok requests (λ _, True) (killer n).
Proof.
  split.
  - intros k q Hq. simpl. destruct (q !! "a") as [[s|]|] eqn:Ea; [|done..].
    destruct (_ && _); [|done]. destruct (Hq _ _ Ea). by apply honest_insert.
  - intros k q. simpl. destruct (q !! "a") as [[s|]|] eqn:Ea; [|reflexivity..].
    destruct (is_terminal s) eqn:Ht; [by rewrite andb_false_r|]. destruct (_ && _); [|reflexivity].
    apply kept_write. unfold read_spec. rewrite Ea. intros ? [= <-]. by rewrite Ht.
Qed.

(** The kill lands between the claim and the recording of the pid. *)
Definition killed_start : res daemon_error bool * dworld :=
  vq_start_job config (launch_env (killer 13)) (job "a") ["0"] (world idle).

Lemma start_keeps_verdicts_witness :
  killed_start.1 = Ok false
  ∧ (∃ s, killed_start.2.(dw_queue) !! "a" = Some (Some s) ∧ s.(state) = KILLED)
  ∧ kept_since (λ _, True) (world idle) killed_start.2.
Proof.
  split; [vm_compute; reflexivity|]. split; [eexists; split; vm_compute; reflexivity|].
  exact (start_keeps_verdicts requests (λ _, True) config (launch_env (killer 13)) recovery (job "a") ["0"]
    (world idle) killed_start.1 killed_start.2 (killer_ok 13) (recovery_ok _) queue_honest eq_refl
    (surjective_pairing _)).
Defined.

Definition started : res daemon_error bool * dworld :=
  vq_start_job config (launch_env alone) (job "a") ["0"] (world idle).

Lemma started_run : vq_start_job config (launch_env alone) (job "a") ["0"] (world idle) = (Ok true, started.2).
Proof. vm_compute. reflexivity. Qed.

Lemma start_true_durable_witness : started_local "a" ["0"] (world idle) started.2.
Proof.
  exact (start_true_durable requests config (launch_env alone) (alone_ok _) (job "a") ["0"] (world idle) started.2
    queue_honest eq_refl eq_refl (λ _, eq_refl) started_run).
Defined.

(** The write after the spawn fails. *)
Definition full_disk (from : nat) : QueueEnv := MkQueueEnv (λ _ q, q) (λ n, bool_decide (from <= n)%nat).

Definition leaked_start : res daemon_error bool * dworld :=
  vq_start_job config (launch_env (full_disk 13)) (job "a") ["0"] (world idle).

(** A local start whose last write fails has spawned the child and lost
    it: [_start_job] raises, the durable row says RUNNING without a pid, so
    [vq kill] has nothing to signal, and the daemon tracks nothing, so the
    cores and the device of the live child count as free in the next pass,
    which does not offer the job again. *)
Theorem unrecorded_spawn_untracked :
  ∃ w' s, leaked_start = (Err DOSError, w')
    ∧ w'.(dw_queue) !! "a" = Some (Some s) ∧ s.(state) = RUNNING ∧ s.(pid) = None ∧ s.(pgid) = None
    ∧ (∃ n, (launch_env (full_disk 13)).(l_spawn) n s = Some 4242)
    ∧ used_cpus w'.(dw_daemon) = 0 ∧ busy_gpu_devices w'.(dw_daemon) = []
    ∧ untracked_reservations (env alone) w'.(dw_daemon) [s] w' = (Ok [], w')
    ∧ pending_of 0 ∅ [s] = [].
Proof.
  eexists _, _. split; [vm_compute; reflexivity|]. split; [vm_compute; reflexivity|].
  split_and!; try (vm_compute; reflexivity). by exists 0%nat.
Qed.

(** ** The reaper *)

(** After the start of [a], its child ends with [rc]. *)
Definition reaped_after_kill : res daemon_error unit * dworld :=
  vq_reconcile_running (reap_env (killer 14) (Some 1)) started.2.

Lemma started_honest : honest requests started.2.(dw_queue).
Proof.
  destruct (wp_elim _ _ _ _ _ (vq_start_ok requests (λ _, False) config (launch_env alone)
    (HP := recovery_ok _) (alone_ok _) (job "a") ["0"] eq_refl (world idle) queue_honest) started_run) as [Hs _].
  exact (se_honest _ _ _ _ _ _ Hs).
Qed.

(** The kill lands just before the end of the child is recorded: the label
    stays KILLED, and the exit code is filled in. *)
Lemma reap_keeps_verdicts_witness :
  reaped_after_kill.1 = Ok tt
  ∧ kept_since (λ _, True) started.2 reaped_after_kill.2.
Proof.
  split; [vm_compute; reflexivity|].
  exact (reap_keeps_verdicts requests (λ _, True) (reap_env (killer 14) (Some 1)) rerun started.2
    reaped_after_kill.1 reaped_after_kill.2 (killer_ok 14) (rerun_ok _) started_honest (surjective_pairing _)).
Defined.

(** Two retries of [a], and no third. *)
Definition first_retry : JobSpec := retried_spec "a" 5 (set_state RUNNING (set_pid (Some 4242) (job "a"))).
Definition second_retry : JobSpec := retried_spec "a" 9 (set_state RUNNING first_retry).

Lemma two_attempts : nsteps another_attempt 2 (job "a") second_retry.
Proof.
  apply (nsteps_l _ _ _ first_retry).
  - exists (set_state RUNNING (set_pid (Some 4242) (job "a"))), "a", 5, true.
    split; [split|]; vm_compute; reflexivity.
  - apply nsteps_once. exists (set_state RUNNING first_retry), "a", 9, true.
    split; [split|]; vm_compute; reflexivity.
Qed.

Lemma retries_bounded_witness :
  fresh_attempt second_retry ∧ second_retry.(retry_count) = 2
  ∧ maybe_retry "a" 11 true second_retry = None.
Proof.
  destruct (retries_bounded 2 (job "a") second_retry two_attempts) as [[He _]|(Hf & _ & _)]; [discriminate He|].
  split; [exact Hf|]. split; vm_compute; reflexivity.
Defined.

(** A killed job whose group still answers. *)
Definition killed_row : JobSpec := set_pgid (Some 4242) (set_state KILLED (job "a")).
Definition killed_holder : Holder := MkHolder 4 None ["0"] (Some 77) false false.
Definition reap_inputs : finish_inputs :=
  MkFinishInputs 5 5 (λ _, true) None (λ _, true) (λ _, Some "boom").

Lemma survivor_exact_witness :
  ∃ s' o, finish_row (reap_env alone None) reap_inputs "a" killed_holder (-9) killed_row
          = (Preserved s' (Some (MkSurvivor 4242 4 None KILLED 77 ["0"])), o).
Proof.
  apply (survivor_exact (reap_env alone None) reap_inputs "a" killed_holder (-9) killed_row
    (MkSurvivor 4242 4 None KILLED 77 ["0"]) eq_refl).
  exists 4242. repeat (split; [first [reflexivity | intros He; discriminate He]|]). reflexivity.
Defined.

(** The row of [a] is unreadable. *)
Definition torn : QueueEnv := MkQueueEnv (λ _ q, <["a" := None]> q) (λ _, false).

Lemma torn_ok : queue_ok requests (λ _, False) torn.
Proof.
  split; [|by intros n q j s []]. intros n q Hq name s. simpl. destruct (decide ("a" = name)) as [<-|Hne].
  - by rewrite lookup_insert_eq.
  - rewrite lookup_insert_ne by done. apply Hq.
Qed.

Lemma unreadable_row_stops_reaper_witness :
  ∃ e w', vq_reconcile_running (reap_env torn (Some 0)) started.2 = (Err e, w')
    ∧ charges w'.(dw_daemon) = charges started.2.(dw_daemon).
Proof.
  apply (unreadable_row_stops_reaper requests (reap_env torn (Some 0)) (HX := rerun_ok _) torn_ok "a"
    (MkHolder 4 None ["0"] None false false) 0 started.2).
  - exact started_honest.
  - vm_compute. reflexivity.
  - reflexivity.
  - intros n. reflexivity.
  - intros n q. exists DValueError. unfold read_spec. simpl. by rewrite lookup_insert_eq.
Defined.
