(* ===== verification/RecoveryWitnesses.v ===== *)
(** * Lost submissions, recovered

    Job [c] of the demo queue was submitted to the scheduler and the answer
    was lost: the concrete runs at which the theorems about the start fence
    and about recovery are applied. *)

From S2P Require Import Prelude Spec Json BrokerRecord StartFence Dialect StartFenceGuarantees BrokerWitnesses Admission DaemonCore Dispatch DaemonLogic DispatchSafety Launch LaunchSafety Recovery RecoveryLogic RecoveryGuarantees RecoveryRetry DaemonWitnesses.

Import Demo.

(** ** A fence *)

Definition demo_token : string := "0123456789abcdef0123456789abcdef".

Definition demo_original : json :=
  JObj [("intent", JObj [("id", JStr "c"); ("retry_count", JInt 0); ("scheduler_remote_workspace", JStr "/r/c")])].

Definition demo_token_record : list (string * json) :=
  token_record "c" 0 "/r/c" demo_token "2026-01-01T00:00:00+00:00".

Definition demo_fence : FencePlan :=
  {| fp_binding := demo_original; fp_token := demo_token; fp_claim := "attempt-" +:+ demo_token +:+ ".claim";
     fp_claim_line := "fenced " +:+ demo_token +:+ " " +:+ fence_id demo_original demo_token |}.

Lemma demo_fence_planned : StartFence.plan demo_original (Some demo_token_record) = Ok demo_fence.
Proof. vm_compute. reflexivity. Qed.

(** The fence links unnoticed, is repeated, and the job that the scheduler
    starts late does not run. *)
Definition fence_first : list claim_step :=
  [DoFence (Some "workspace") Linked; DoFence None LinkedUnreported; DoStart false false Linked "77"; DoFence None Linked].

(** The job starts, is started again after its node failed, and the fence comes too late. *)
Definition start_first : list claim_step :=
  [DoStart false false LinkedUnreported "77"; DoStart false false Linked "78"; DoStart false false Linked "77";
   DoFence None Linked].

Lemma start_fence_exclusive_witness :
  (do_claims demo_fence fence_first NoClaim).1 = [FenceReply Unsafe; FenceReply Fenced; Refused "77"; FenceReply Fenced]
  ∧ Ran "77" ∉ (do_claims demo_fence fence_first NoClaim).1
  ∧ (do_claims demo_fence start_first NoClaim).1 = [Ran "77"; Refused "78"; Ran "77"; FenceReply (JobStarted "77")]
  ∧ FenceReply Fenced ∉ (do_claims demo_fence start_first NoClaim).1.
Proof.
  split; [vm_compute; reflexivity|]. split.
  - destruct (start_fence_exclusive demo_original (Some demo_token_record) demo_fence fence_first NoClaim
      demo_fence_planned) as [Hf _]. apply Hf. vm_compute. do 2 constructor.
  - split; [vm_compute; reflexivity|]. intros Hin.
    destruct (start_fence_exclusive demo_original (Some demo_token_record) demo_fence start_first NoClaim
      demo_fence_planned) as [Hf _]. apply (Hf Hin "77"). vm_compute. constructor.
Defined.

(** ** A receipt and a marker *)

Definition lost : JobSpec :=
  set_scheduler_state (Some "submit_outcome_unknown") (set_state SUBMIT_OUTCOME_UNKNOWN (job "c")).

Definition lost_world : dworld := MkDWorld idle (<["c" := Some lost]> queue) 0 [] [].

Lemma lost_honest : honest requests lost_world.(dw_queue).
Proof. apply honest_insert; [apply queue_honest|done..]. Qed.

(** The receipt says [77] and the job recorded [marker]. *)
Definition seen_evidence (marker : string) : Evidence :=
  MkEvidence None (Some (MkReceipt "accepted" (Some "77") 0)) (Some marker).

Definition recovery_env (Q : QueueEnv) (marker : string) : RecoveryEnv :=
  {| v_launch := launch_env Q; v_imported := λ _ _, Some None;
     v_receipt := λ _ _ _, (seen_evidence marker).(ev_receipt);
     v_recorded := λ _ _ _, (seen_evidence marker).(ev_recorded); v_fence := λ _ _, Some None;
     v_fence_run := λ _ _, None; v_fence_retained := λ _, true; v_cancel := λ _ _, true;
     v_poll := λ _ _, Some (Some PhaseFinished); v_root_confirmed := λ _ _, true |}.

Definition row_c (w : dworld) : option (JobState * option string * option string) :=
  match w.(dw_queue) !! "c" with
  | Some (Some s) => Some (s.(state), s.(scheduler_job_id), s.(scheduler_state))
  | _ => None
  end.

Definition recovered_c (marker : string) : res daemon_error bool * dworld :=
  reconcile_unconfirmed_submit (recovery_env alone marker) lost lost_world.

(** The operator kills the job at an access of the recovery. *)
Definition kills_c (at_access : nat) : QueueEnv :=
  MkQueueEnv (λ n q,
    match q !! "c" with
    | Some (Some s) =>
      if bool_decide (n = at_access) && negb (is_terminal s)
      then <["c" := Some (set_finished_at (Some (Aware 9)) (set_state KILLED s))]> q else q
    | _ => q
    end) (λ _, false).

Lemma kills_c_ok n : queue_ok requests (λ _, True) (kills_c n).
Proof.
  split.
  - intros k q Hq. simpl. destruct (q !! "c") as [[s|]|] eqn:Ea; [|done..].
    destruct (_ && _); [|done]. destruct (Hq _ _ Ea). by apply honest_insert.
  - intros k q. simpl. destruct (q !! "c") as [[s|]|] eqn:Ea; [|reflexivity..].
    destruct (is_terminal s) eqn:Ht; [by rewrite andb_false_r|]. destruct (_ && _); [|reflexivity].
    apply kept_write. unfold read_spec. rewrite Ea. intros ? [= <-]. by rewrite Ht.
Qed.

(** The kill lands after the id was recorded: the row stays KILLED, and the
    job is cancelled under the id the evidence names. *)
Definition killed_c : res daemon_error bool * dworld :=
  reconcile_unconfirmed_submit (recovery_env (kills_c 6) "77") lost lost_world.

Lemma recovery_justified_witness :
  killed_c.1 = Ok false ∧ row_c killed_c.2 = Some (KILLED, Some "77", Some "submit_cancelled_after_terminal")
  ∧ ∃ ev, (ev = no_evidence ∨ evidence_of (recovery_env (kills_c 6) "77") lost ev)
      ∧ recovers requests (λ _, True) (launch_env (kills_c 6)) "c" "hpc" (accepts lost ev)
          (proves_unadmitted (recovery_env (kills_c 6) "77") lost ev) lost_world killed_c.2.
Proof.
  split; [vm_compute; reflexivity|]. split; [vm_compute; reflexivity|].
  destruct (recovery_justified (recovery_env (kills_c 6) "77") requests (λ _, True) (kills_c_ok 6) lost lost_world
    killed_c.1 killed_c.2 lost_honest (surjective_pairing _)) as (ev & Hev & Hr & _).
  exists ev. split; [exact Hev|exact Hr].
Defined.

Lemma undisturbed_c marker : undisturbed (recovery_env alone marker) lost (seen_evidence marker).
Proof. split; done. Qed.

(** The sources agree on [77]: the job runs and is tracked.  They disagree:
    the row is parked. *)
Lemma recovery_exact_witness :
  (∃ now w', recovered_c "77" = (Ok true, w')
     ∧ w'.(dw_queue) !! "c" = Some (Some (recovered_row now (seen_evidence "77") lost))
     ∧ (recovered_row now (seen_evidence "77") lost).(state) = RUNNING
     ∧ w'.(dw_daemon).(scheduler_running) = {[ "c" := new_scheduler_job "hpc" "77" "/r/c" ]})
  ∧ (∃ now w', recovered_c "78" = (Ok false, w')
     ∧ w'.(dw_queue) !! "c" = Some (Some (recovered_row now (seen_evidence "78") lost))
     ∧ (recovered_row now (seen_evidence "78") lost).(scheduler_state) = Some CONFLICT
     ∧ w'.(dw_daemon).(scheduler_running) = ∅).
Proof.
  split.
  - destruct (recovery_exact (recovery_env alone "77") lost (seen_evidence "77") (undisturbed_c "77") "hpc" lost_world
      eq_refl eq_refl eq_refl eq_refl eq_refl) as (now & w' & Hrun & Hq & Hd).
    exists now, w'. split; [exact Hrun|]. split; [rewrite Hq; apply lookup_insert_eq|].
    split; [reflexivity|]. rewrite Hd. reflexivity.
  - destruct (recovery_exact (recovery_env alone "78") lost (seen_evidence "78") (undisturbed_c "78") "hpc" lost_world
      eq_refl eq_refl eq_refl eq_refl eq_refl) as (now & w' & Hrun & Hq & Hd).
    exists now, w'. split; [exact Hrun|]. split; [rewrite Hq; apply lookup_insert_eq|].
    split; [reflexivity|]. rewrite Hd. reflexivity.
Defined.

(** ** A start that is killed *)

(** The kill lands between the scheduler's acceptance and its recording. *)
Definition submitted_c (at_access : nat) : res daemon_error bool * dworld :=
  vq_start_job config (launch_env (kills_c at_access)) (P := vq_recovery (recovery_env (kills_c at_access) "77"))
    (job "c") [] (world idle).


(** ** A retry pass *)

(** Two lost submissions, [b] tried 50 seconds before [c]. *)
Definition lost_b : JobSpec := set_scheduler_target (Some "hpc") (set_state SUBMIT_OUTCOME_UNKNOWN (job "b")).

Definition waiting : dworld :=
  MkDWorld (set_scheduler_reattach_retry_last
      {[ "b" := 850 * TICKS_PER_SECOND; "c" := 900 * TICKS_PER_SECOND ]} idle) (<["c" := Some lost]> queue) 0 [] [].

Definition retried : res daemon_error (list string) * dworld :=
  retry_deferred_reattach (recovery_env alone "77") [lost; lost_b] waiting.

Lemma clock_monotone n m : (n <= m)%nat → clock n <= clock m.
Proof. unfold clock. lia. Qed.

Lemma retry_starves_none_witness :
  retried.1 = Ok ["b"; "c"]
  ∧ map id (waits_for waiting.(dw_daemon) [lost; lost_b] lost) = ["b"]
  ∧ (clock 0 <= last_retry retried.2.(dw_daemon) lost
     ∨ (length (waits_for retried.2.(dw_daemon) [lost; lost_b] lost) < 1)%nat).
Proof.
  split; [vm_compute; reflexivity|]. split; [vm_compute; reflexivity|].
  apply (retry_starves_none (recovery_env alone "77") requests (λ _, True) (alone_ok _) clock_monotone
    [lost; lost_b] lost waiting retried.1 retried.2).
  - exact lost_honest.
  - do 2 constructor.
  - vm_compute. reflexivity.
  - vm_compute. discriminate.
  - apply surjective_pairing.
Defined.
