(* ===== verification/DrainWitnesses.v ===== *)
(** * Drains at work

    Concrete drain files at which the theorems about leases, expiry, releases
    and held dispatch are applied, and two operators whose changes to the
    legacy document overlap. *)

From S2P Require Import Prelude Json Spec Admission Drain DrainGuarantees DaemonCore Dispatch DaemonLogic DispatchSafety DispatchGuarantees Launch Reap LaunchSafety LaunchGuarantees DrainDispatch DaemonWitnesses.

Module Files.

(** Times are the strings "noon" (with a zone) and "local" (without). *)
Definition fromisoformat (s : string) : timestamp :=
  if String.eqb s "noon" then Aware 0 else if String.eqb s "local" then Naive 0 else Unparseable.

Definition drain_env (interfere : nat → drain_files → drain_files) : DrainEnv :=
  {| dn_interfere := interfere; dn_write_fails := λ _, false; dn_fromisoformat := fromisoformat;
     dn_utcnow_iso := λ _, "noon"; dn_now := λ n, 60 * TICKS_PER_SECOND;
     dn_local_now := λ n, 60 * TICKS_PER_SECOND; dn_token_hex := λ n, "t" +:+ pretty (Z.of_nat n);
     dn_pid_start_time := λ _ p, Some 7; dn_lease_detail := λ _, "torn";
     dn_encoded_size := λ l, 200 * Z.of_nat (length l) |}.

Definition quiet_env : DrainEnv := drain_env (λ _ f, f).

Definition hpc_lease : SchedulerDrainLease := MkLease "l1" "hpc" "rollout" "noon" None None 0.
Definition arm_lease : SchedulerDrainLease := MkLease "l2" "arm" "rollout" "noon" None None 0.

Definition full_hold (set_at : string) (lanes : list string) : DrainState :=
  MkDrain true None None set_at (Some "update") None 0 lanes true true None (Some 30).

Definition files (d : option DrainState) (l : list SchedulerDrainLease) : drain_files :=
  MkDrainFiles (match d with None => NoLegacy | Some s => dump_drain s end) (Leases l).
End Files.

Import Files.

(** ** Leases *)

Definition lease_files : drain_files := files None [hpc_lease].
Definition acquire_arm : lease_mutation := MkMutation (Some arm_lease) None None None false.
Definition leased : res drain_error (list SchedulerDrainLease * option SchedulerDrainLease * bool) * drain_files :=
  mutate_locked quiet_env acquire_arm 0 lease_files.

Lemma one_lease_ok : leases_ok [hpc_lease].
Proof. split; [apply NoDup_singleton..|]. repeat constructor. Qed.


(** ** Expiry *)

(** A hold of thirty seconds, read after sixty: with a lane, the lane is
    left; and the projection says the same. *)
Lemma expiry_projection_agrees_witness :
  project_expiry quiet_env (Some (full_hold "noon" ["hpc"])) (Aware (60 * TICKS_PER_SECOND))
    = Some (lift_full_hold (full_hold "noon" ["hpc"]))
  ∧ project_expiry quiet_env (Some (full_hold "local" [])) (Aware (60 * TICKS_PER_SECOND))
    = Some (full_hold "local" [])
  ∧ (read_locked quiet_env 0 (files (Some (full_hold "local" [])) [])).1 = Ok None.
Proof.
  split; [|split; [|vm_compute; reflexivity]].
  - destruct (expiry_projection_agrees quiet_env 0 (files (Some (full_hold "noon" ["hpc"])) [])
      (full_hold "noon" ["hpc"]) eq_refl eq_refl) as (r & Hr & Hp).
    vm_compute in Hr. injection Hr as <-. exact Hp.
  - exact (expiry_projection_agrees quiet_env 0 (files (Some (full_hold "local" [])) [])
      (full_hold "local" []) eq_refl eq_refl eq_refl).
Defined.

(** ** Releases *)

(** A full hold over a lane: the hold goes, the lane stays. *)
Definition held : DrainState := MkDrain true None None "noon" (Some "update") None 0 ["hpc"] true true None None.
Definition released : res drain_error bool * drain_files :=
  release_owned_locked quiet_env "update" "noon" 0 (files (Some held) []).

Lemma owned_release_exact_witness :
  released.1 = Ok true ∧ holds_all (doc released.2) = false ∧ holds_lane (doc released.2) "hpc" = true.
Proof.
  destruct (owned_release_exact quiet_env "update" "noon" 0 (files (Some held) []) (Ok true) released.2)
    as (_ & s & Hs & _ & _ & _ & Hall & Hlane & _); [vm_compute; reflexivity|].
  split; [vm_compute; reflexivity|]. split; [exact Hall|]. rewrite Hlane. vm_compute in Hs. injection Hs as <-.
  vm_compute. reflexivity.
Defined.

(** The corner: one lane, submissions rejected.  Releasing the lane holds everything. *)
Definition lane_only : DrainState := MkDrain true None None "noon" None None 0 ["hpc"] false true None None.
Definition widened : res drain_error bool * drain_files :=
  release_legacy_locked quiet_env "hpc" None 0 (files (Some lane_only) []).

Lemma lane_release_exact_witness :
  widened.1 = Ok true ∧ holds_all (Some lane_only) = false
  ∧ holds_lane (doc widened.2) "hpc" = false ∧ holds_all (doc widened.2) = true.
Proof.
  destruct (lane_release_exact quiet_env "hpc" None 0 (files (Some lane_only) []) (Ok true) widened.2)
    as (_ & s & Hs & _ & _ & Hlane & Hall & _); [vm_compute; reflexivity|].
  vm_compute in Hs. injection Hs as <-.
  split; [vm_compute; reflexivity|]. split; [vm_compute; reflexivity|].
  rewrite Hlane, Hall. split; vm_compute; reflexivity.
Defined.

(** Between the read and the write of [add_scheduler_host] another operator
    stops the whole daemon. *)
Definition stop_between : DrainEnv :=
  drain_env (λ n f, if bool_decide (n = 2)%nat then set_legacy (dump_drain held) f else f).

(** Adding a lane can erase a full drain.  [add_scheduler_host] reads and
    writes the legacy document in two transactions; a full drain written
    between them is overwritten by the lane alone, so dispatch, which the
    other operator stopped, goes on. *)
Theorem lane_erases_full_drain :
  ∃ w, add_scheduler_host stop_between "arm" None None (MkDrainWorld (files None []) 0) = (Ok true, w)
    ∧ holds_all (doc (stop_between.(dn_interfere) 2 (files None []))) = true
    ∧ holds_lane (doc w.(dn_files)) "arm" = true ∧ holds_all (doc w.(dn_files)) = false.
Proof. eexists. split; [vm_compute; reflexivity|]. split_and!; vm_compute; reflexivity. Qed.

(** ** Held dispatch *)

Import Demo.

#[local] Existing Instance launcher.

(** The demo's pass under a lease for its scheduler: only [a] is launched. *)
Definition drain_read : res drain_error (option DrainState) * drain_world :=
  read_effective_drain_state quiet_env (MkDrainWorld lease_files 0).

Definition leased_policy : option DrainState := compose_effective None [hpc_lease].

Definition drained_env : DispatchEnv :=
  {| e_queue := alone; e_utcnow := clock; e_monotonic := clock; e_submit_clock := clock;
     e_admin_marker := λ _, None; e_config_unusable := λ _, false; e_drain := λ _, leased_policy;
     e_host_pressure := λ _, false; e_hosts := λ _, Some hosts; e_new_jobid := λ _, "build";
     e_workspace := λ _ _, Some "/b"; e_submitted_at := λ _, "2026-01-01T00:00:00+00:00";
     e_executable := "python"; e_build_wall_time := 3600 |}.

Definition drained_pass : res daemon_error unit * dworld := dispatch_pending config drained_env (world idle).

Lemma drained_env_ok : env_ok config drained_env requests.
Proof. destruct env_is_ok. by split. Qed.

Lemma drained_not_dispatched_witness :
  length drained_pass.2.(dw_trace) = 2%nat
  ∧ ∀ a, Attempted a ∈ drained_pass.2.(dw_trace) → a.(at_spec).(scheduler_target) ≠ Some "hpc".
Proof.
  split; [vm_compute; reflexivity|]. intros a Ha Ht.
  destruct (drained_not_dispatched config drained_env quiet_env requests drained_env_ok (HL := launcher_ok) None
    (MkDrainWorld lease_files 0) leased_policy drain_read.2 (world idle) drained_pass.1 drained_pass.2)
    as (es & Htr & Hes);
    [vm_compute; reflexivity|reflexivity|reflexivity|exact queue_honest|exact (surjective_pairing _)|].
  simpl in Htr. rewrite Htr in Ha.
  destruct (proj2 Hes a "hpc" Ha Ht) as [_ Hl]; [discriminate|].
  apply (Hl hpc_lease); [apply list_elem_of_singleton|]; reflexivity.
Defined.
