(* ===== verification/Control.v ===== *)
(** * Job control: [src/vq/kill.py], [src/vq/pause_resume.py]

    [vq kill], [vq pause], [vq resume] and the recovery of a pause that died
    half way: the local commands, each under the job's row lock.  The world is
    the queue directory and the process groups of the host; the process that
    runs a command can be killed before any of its effects. *)

From S2P Require Import Prelude Spec Admission DaemonCore.

(** ** World *)

Inductive signal : Type := SIGCONT | SIGSTOP | SIGTERM | SIGKILL.

(** A live process group, stopped or not; a group that is gone has no entry. *)
Inductive group_state : Type := GRunning | GStopped.

#[global] Instance group_state_eq_dec : EqDecision group_state.
Proof. solve_decision. Defined.

(** What [process_group.signal_process_group] did: delivered the signal, or
    raised [ProcessLookupError] or [PermissionError]. *)
Inductive delivery : Type := Delivered | GroupGone | Denied.

#[global] Instance delivery_eq_dec : EqDecision delivery.
Proof. solve_decision. Defined.

Inductive effect : Type :=
| Signalled (pgid : Z) (sig : signal)
| SignalledPid (pid : Z) (sig : signal)
| CancelIssued (target job_id : string)
| StopRequested (jobid : string) (reason : string).

Record cworld : Type := MkCWorld {
  cw_queue : queue_dir;
  cw_groups : gmap Z group_state;
  cw_tick : nat;
  cw_effects : list effect;
}.

Inductive control_error : Type :=
| Crashed | CFileNotFound | COSError | CLockTimeout | CValueError | CTypeError | CPauseError.

#[global] Instance control_error_eq_dec : EqDecision control_error.
Proof. solve_decision. Defined.

Definition CM : Type → Type := eff cworld control_error.

Record ControlEnv : Type := MkControlEnv {
  (** what other processes did to the queue before a lock was taken *)
  c_interfere : nat → queue_dir → queue_dir;
  (** what became of the process groups before a signal *)
  c_groups : nat → gmap Z group_state → gmap Z group_state;
  (** the process is killed before this effect *)
  c_crash : nat → bool;
  c_write_fails : nat → bool;
  c_lock_busy : nat → bool;
  (** the group belongs to another user *)
  c_denied : nat → Z → bool;
  c_kill_pid : nat → Z → delivery;
  c_getpgrp : Z;
  c_utcnow : nat → Z;
  c_monotonic : nat → Z;
  (** [managed_container.present] *)
  c_container : nat → string → bool;
  (** the scheduler's [cancel] went through *)
  c_cancel : nat → JobSpec → bool;
}.

Section control.
Context (E : ControlEnv).

(** ** Effects *)

Definition answer {A} (f : nat → A) : CM A := λ w,
  (Ok (f w.(cw_tick)), MkCWorld w.(cw_queue) w.(cw_groups) (S w.(cw_tick)) w.(cw_effects)).

Definition effect_step {A} (f : nat → cworld → res control_error A * cworld) : CM A := λ w,
  let n := w.(cw_tick) in
  if E.(c_crash) n then (Err Crashed, MkCWorld w.(cw_queue) w.(cw_groups) (S n) w.(cw_effects))
  else f n (MkCWorld w.(cw_queue) (E.(c_groups) n w.(cw_groups)) (S n) w.(cw_effects)).

Definition log_effect (e : effect) : CM unit := λ w,
  (Ok tt, MkCWorld w.(cw_queue) w.(cw_groups) w.(cw_tick) (w.(cw_effects) ++ [e])).

(** An access outside the lock, and taking the lock: the others came first. *)
Definition other_writers (n : nat) (w : cworld) : cworld :=
  MkCWorld (E.(c_interfere) n w.(cw_queue)) w.(cw_groups) w.(cw_tick) w.(cw_effects).

Definition look {A} (f : queue_dir → A) : CM A := effect_step (λ n w,
  let w := other_writers n w in (Ok (f w.(cw_queue)), w)).

Definition spec_exists (jobid : string) : CM bool := look (λ q, bool_decide (is_Some (q !! jobid))).

Definition spec_lock (bounded : bool) : CM unit := effect_step (λ n w,
  let w := other_writers n w in
  if bounded && E.(c_lock_busy) n then (Err CLockTimeout, w) else (Ok tt, w)).

(** Reading and writing the row whose lock is held. *)
Definition row_of (q : queue_dir) (jobid : string) : res control_error JobSpec :=
  match q !! jobid with
  | None => Err CFileNotFound
  | Some None => Err CValueError
  | Some (Some s) => Ok s
  end.

Definition read_row (jobid : string) : CM JobSpec := λ w, (row_of w.(cw_queue) jobid, w).

Definition write_row (jobid : string) (s : JobSpec) : CM unit := effect_step (λ n w,
  if E.(c_write_fails) n then (Err COSError, w)
  else (Ok tt, MkCWorld (<[jobid := Some s]> w.(cw_queue)) w.(cw_groups) w.(cw_tick) w.(cw_effects))).

(** [process_group.signal_process_group], with the answer it settles on. *)
Definition signalled (sig : signal) (st : group_state) : group_state :=
  match sig with SIGSTOP => GStopped | SIGCONT => GRunning | SIGTERM | SIGKILL => st end.

Definition signal_process_group (g : Z) (sig : signal) : CM delivery := effect_step (λ n w,
  match w.(cw_groups) !! g with
  | None => (Ok GroupGone, w)
  | Some st =>
    if E.(c_denied) n g then (Ok Denied, w)
    else (Ok Delivered, MkCWorld w.(cw_queue) (<[g := signalled sig st]> w.(cw_groups)) w.(cw_tick)
                          (w.(cw_effects) ++ [Signalled g sig]))
  end).

(** ** [vq kill] *)

Definition DEFAULT_KILL_REASON : string := "killed by vq/operator request".
Definition MAX_KILL_REASON_CHARS : nat := 1000.

(** [" ".join(s.split())] *)
Fixpoint squeeze (started pending : bool) (s : string) : string :=
  match s with
  | EmptyString => ""
  | String c s =>
    if is_space c then squeeze started started s
    else (if pending then " " else "") +:+ String c (squeeze true false s)
  end.

Definition rstrip (s : string) : string := string_rev (lstrip (string_rev s)).

Definition format_kill_failure_reason (reason : option string) : string :=
  let cleaned := squeeze false false (default "" reason) in
  if String.eqb cleaned "" then DEFAULT_KILL_REASON
  else
    let cleaned := if (MAX_KILL_REASON_CHARS <? String.length cleaned)%nat
                   then rstrip (str_take (MAX_KILL_REASON_CHARS - 3) cleaned) +:+ "..."
                   else cleaned in
    DEFAULT_KILL_REASON +:+ ": " +:+ cleaned.

(** [_current_pause_seconds], in ticks. *)
Definition current_pause (monotonic now : Z) (s : JobSpec) : Z :=
  if negb (bool_decide (s.(state) = SUSPENDED)) then 0
  else match s.(paused_monotonic_at), s.(paused_at) with
       | Some m, _ => Z.max 0 (monotonic - m)
       | None, Some (Aware t | Naive t) => Z.max 0 (now - t)
       | None, _ => 0
       end.

(** [round(total + paused, 3)]: the total in milliseconds, half to even. *)
Definition round_div (a b : Z) : Z :=
  let q := a / b in
  let r := a mod b in
  if 2 * r <? b then q else if b <? 2 * r then q + 1 else if Z.even q then q else q + 1.

Definition add_pause (total_ms paused : Z) : Z :=
  round_div (total_ms * TICKS_PER_SECOND + paused * 1000) TICKS_PER_SECOND.

(** An assignment to [paused_seconds_total] is validated ([ge=0]). *)
Definition assign_paused_total (v : Z) (s : JobSpec) : res control_error JobSpec :=
  if v <? 0 then Err CValueError else Ok (set_paused_seconds_total v s).


Definition killed_spec (now : Z) (reason : string) (s : JobSpec) : JobSpec :=
  set_failure_reason (Some reason) (set_finished_at (Some (Aware now)) (set_state KILLED s)).

Inductive kill_outcome : Type :=
| ContainerStopRequested
| KilledPending
| KilledActive (signal_sent denied : bool).

Inductive cancel_outcome : Type := NoScheduler | NoSchedulerId | Cancelled | CancelFailed.

(** The signals of a kill: (sent, denied). *)
Definition kill_signals (s : JobSpec) : CM (bool * bool) :=
  match s.(pgid), s.(pid) with
  | Some g, _ =>
    do? d := signal_process_group g SIGCONT in
    match d with
    | GroupGone => ret (false, false)
    | Denied => ret (false, true)
    | Delivered =>
      do? d := signal_process_group g SIGTERM in
      ret (match d with Delivered => (true, false) | GroupGone => (false, false) | Denied => (false, true) end)
    end
  | None, Some p =>
    do? d := effect_step (λ n w, (Ok (E.(c_kill_pid) n p), w)) in
    match d with
    | Delivered => do? _ := log_effect (SignalledPid p SIGTERM) in ret (true, false)
    | GroupGone => ret (false, false)
    | Denied => ret (false, true)
    end
  | None, None => ret (false, false)
  end.

(** [_cancel_scheduler_job], outside the lock. *)
Definition cancel_scheduler_job (s : JobSpec) : CM cancel_outcome :=
  match s.(scheduler_target), s.(scheduler_job_id) with
  | None, _ => ret NoScheduler
  | Some _, (None | Some EmptyString) => ret NoSchedulerId
  | Some t, Some i =>
    do? ok := effect_step (λ n w, (Ok (E.(c_cancel) n s), w)) in
    if ok : bool then do? _ := log_effect (CancelIssued t i) in ret Cancelled else ret CancelFailed
  end.

(** The row of an active job after the kill. *)
Definition killed_active_spec (paused now : Z) (reason : string) (s : JobSpec)
    : res control_error JobSpec :=
  let killed := killed_spec now reason s in
  if bool_decide (s.(state) = SUSPENDED) then
    let? k := assign_paused_total (add_pause s.(paused_seconds_total) paused) killed in
    Ok (set_paused_monotonic_at None (set_paused_at None k))
  else Ok killed.

Definition kill_locked (jobid : string) (reason : string) : CM (kill_outcome * JobSpec) :=
  do? s := read_row jobid in
  if is_terminal s then throw CValueError
  else
    do? container := answer E.(c_container) in
    if container jobid then do? _ := log_effect (StopRequested jobid reason) in ret (ContainerStopRequested, s)
    else
      if bool_decide (s.(state) = PENDING) then
        do? now := answer E.(c_utcnow) in
        let k := killed_spec now reason s in
        do? _ := write_row jobid k in ret (KilledPending, k)
      else
        do? sent := kill_signals s in
        do? monotonic := answer E.(c_monotonic) in
        do? wall := answer E.(c_utcnow) in
        do? now := answer E.(c_utcnow) in
        do? k := lift (killed_active_spec (current_pause monotonic wall s) now reason s) in
        do? _ := write_row jobid k in ret (KilledActive sent.1 sent.2, k).

Definition kill_job (jobid : string) (reason : option string) : CM (kill_outcome * cancel_outcome) :=
  do? there := spec_exists jobid in
  if negb there then throw CFileNotFound
  else
    do? _ := spec_lock true in
    do? r := kill_locked jobid (format_kill_failure_reason reason) in
    match r.1 with
    | ContainerStopRequested => ret (ContainerStopRequested, NoScheduler)
    | o => do? c := cancel_scheduler_job r.2 in ret (o, c)
    end.

(** ** [vq pause] *)

Definition clear_pause_intent (s : JobSpec) : JobSpec :=
  set_pause_intent_by None (set_pause_intent_pgid None (set_pause_intent_monotonic_at None
    (set_pause_intent_at None s))).

(** [_finish_pause_from_intent] *)
Definition finish_pause_from_intent (s : JobSpec) : JobSpec :=
  clear_pause_intent (set_paused_by s.(pause_intent_by)
    (set_paused_monotonic_at s.(pause_intent_monotonic_at) (set_paused_at s.(pause_intent_at)
      (set_state SUSPENDED s)))).

Definition armed_spec (now monotonic g : Z) (by_ : option string) (s : JobSpec) : JobSpec :=
  set_pause_intent_by by_ (set_pause_intent_pgid (Some g) (set_pause_intent_monotonic_at (Some monotonic)
    (set_pause_intent_at (Some (Aware now)) s))).

Definition pause_locked (jobid : string) (by_ : option string) : CM unit :=
  do? s := read_row jobid in
  do? container := answer E.(c_container) in
  if container jobid then throw CPauseError
  else if negb (bool_decide (s.(pause_intent_at) = None)) then throw CPauseError
  else if negb (bool_decide (s.(state) = RUNNING)) then throw CPauseError
  else match s.(pgid) with
       | None => throw CPauseError
       | Some g =>
         if g =? E.(c_getpgrp) then throw CPauseError
         else
           do? now := answer E.(c_utcnow) in
           do? monotonic := answer E.(c_monotonic) in
           let s := armed_spec now monotonic g by_ s in
           do? _ := write_row jobid s in
           do? d := signal_process_group g SIGSTOP in
           match d with
           | GroupGone | Denied => do? _ := write_row jobid (clear_pause_intent s) in throw CPauseError
           | Delivered => write_row jobid (finish_pause_from_intent s)
           end
       end.

Definition pause_job (jobid : string) (by_ : option string) : CM unit :=
  do? there := spec_exists jobid in
  if negb there then throw CFileNotFound
  else do? _ := spec_lock false in pause_locked jobid by_.

(** ** Recovery of a pause *)

Inductive reconcile_outcome : Type := NoIntent | Completed | ClearedGone.

(** [_reconcile_pause_intent_path], under the lock. *)
Definition reconcile_intent_locked (jobid : string) : CM reconcile_outcome :=
  do? s := read_row jobid in
  if bool_decide (s.(pause_intent_at) = None) then ret NoIntent
  else match s.(pause_intent_pgid) with
       | None => throw CPauseError
       | Some g =>
         if (g <=? 0) || negb (bool_decide (s.(pgid) = Some g)) then throw CPauseError
         else if g =? E.(c_getpgrp) then throw CPauseError
         else if negb (bool_decide (s.(state) = RUNNING) || bool_decide (s.(state) = SUSPENDED)) then
           do? d := signal_process_group g SIGCONT in
           match d with
           | Denied => throw CPauseError
           | Delivered | GroupGone =>
             do? _ := write_row jobid (clear_pause_intent s) in ret ClearedGone
           end
         else
           do? d := signal_process_group g SIGSTOP in
           match d with
           | GroupGone => do? _ := write_row jobid (clear_pause_intent s) in ret ClearedGone
           | Denied => throw CPauseError
           | Delivered => do? _ := write_row jobid (finish_pause_from_intent s) in ret Completed
           end
       end.

Definition reconcile_pause_intent_path (jobid : string) : CM reconcile_outcome :=
  do? _ := spec_lock false in reconcile_intent_locked jobid.

(** [reconcile_pause_intents]: every row, the errors collected; a row that
    [skip] proves settled, or that is read without an intent, is left alone. *)
Record reconcile_result : Type := MkReconcile {
  rr_completed : list string;
  rr_cleared_gone : list string;
  rr_errors : list string;
}.

Definition add_outcome (jobid : string) (o : reconcile_outcome) (r : reconcile_result) : reconcile_result :=
  match o with
  | NoIntent => r
  | Completed => MkReconcile (r.(rr_completed) ++ [jobid]) r.(rr_cleared_gone) r.(rr_errors)
  | ClearedGone => MkReconcile r.(rr_completed) (r.(rr_cleared_gone) ++ [jobid]) r.(rr_errors)
  end.

Definition add_error (jobid : string) (r : reconcile_result) : reconcile_result :=
  MkReconcile r.(rr_completed) r.(rr_cleared_gone) (r.(rr_errors) ++ [jobid]).

Definition hint_without_intent (jobid : string) : CM bool := look (λ q,
  match row_of q jobid with
  | Ok s => bool_decide (s.(pause_intent_at) = None)
  | Err _ => false
  end).

Fixpoint reconcile_rows (omit : bool) (skip : string → bool) (names : list string) (r : reconcile_result)
    : CM reconcile_result :=
  match names with
  | [] => ret r
  | jobid :: names =>
    if skip jobid then reconcile_rows omit skip names r
    else
      do? settled := (if omit then hint_without_intent jobid else ret false) in
      if settled : bool then reconcile_rows omit skip names r
      else
        do? r := catch (do? o := reconcile_pause_intent_path jobid in ret (add_outcome jobid o r))
                   (λ e, negb (bool_decide (e = Crashed) || bool_decide (e = CTypeError)))
                   (λ _, ret (add_error jobid r)) in
        reconcile_rows omit skip names r
  end.

Definition reconcile_pause_intents (omit : bool) (skip : option (string → bool)) : CM reconcile_result :=
  match skip, omit with
  | Some _, false => throw CValueError
  | _, _ =>
    do? names := look spec_names in
    reconcile_rows omit (default (λ _, false) skip) names (MkReconcile [] [] [])
  end.

(** ** [vq resume] *)

(** The pause interval; the wall clock may have stepped back, and a time
    without a zone does not subtract. *)
Definition pause_interval (monotonic now : Z) (s : JobSpec) : res control_error Z :=
  match s.(paused_monotonic_at), s.(paused_at) with
  | Some m, _ => Ok (Z.max 0 (monotonic - m))
  | None, Some (Aware t) => Ok (now - t)
  | None, Some (Naive _) => Err CTypeError
  | None, _ => Ok 0
  end.

Definition resumed_spec (monotonic now : Z) (s : JobSpec) : res control_error JobSpec :=
  let? paused := pause_interval monotonic now s in
  let r := set_paused_by None (set_paused_monotonic_at None (set_paused_at None (set_state RUNNING s))) in
  assign_paused_total (add_pause s.(paused_seconds_total) paused) r.

Definition resume_locked (jobid : string) (by_ : option string) : CM unit :=
  do? s := read_row jobid in
  do? container := answer E.(c_container) in
  if container jobid then throw CPauseError
  else if negb (bool_decide (s.(state) = SUSPENDED)) then throw CPauseError
  else if match by_ with None => false | Some t => negb (bool_decide (s.(paused_by) = Some t)) end
  then throw CPauseError
  else match s.(pgid) with
       | None => throw CPauseError
       | Some g =>
         do? d := signal_process_group g SIGCONT in
         match d with
         | GroupGone | Denied => throw CPauseError
         | Delivered =>
           do? monotonic := answer E.(c_monotonic) in
           do? now := answer E.(c_utcnow) in
           do? r := lift (resumed_spec monotonic now s) in
           write_row jobid r
         end
       end.

Definition resume_job (jobid : string) (by_ : option string) : CM unit :=
  do? there := spec_exists jobid in
  if negb there then throw CFileNotFound
  else do? _ := spec_lock false in resume_locked jobid by_.

(** ** Commands *)

Inductive control_command : Type :=
| Kill (jobid : string) (reason : option string)
| Pause (jobid : string) (by_ : option string)
| Resume (jobid : string) (by_ : option string)
| ReconcileIntents (omit : bool) (skip : option (string → bool)).

Definition run_command (c : control_command) : CM unit :=
  match c with
  | Kill j r => do? _ := kill_job j r in ret tt
  | Pause j b => pause_job j b
  | Resume j b => resume_job j b
  | ReconcileIntents o s => do? _ := reconcile_pause_intents o s in ret tt
  end.

(** Commands one after the other, each a process of its own. *)
Definition session (cs : list control_command) (w : cworld) : cworld :=
  fold_left (λ w c, (run_command c w).2) cs w.
End control.
