(* ===== verification/ControlGuarantees.v ===== *)
(** * What job control guarantees

    No command changes a terminal verdict; a job whose processes are stopped
    is always recorded as suspended or as being paused, wherever the command
    that stopped it died; recovery finishes what a pause began. *)

From S2P Require Import Prelude Spec Admission DaemonCore Dispatch DaemonLogic Launch Reap LaunchSafety Control.

(** ** Rows and groups *)

(** A job that has not ended, and its process group. *)
Definition live_row (q : queue_dir) (name : string) (s : JobSpec) (g : Z) : Prop :=
  q !! name = Some (Some s) ∧ is_terminal s = false ∧ s.(pgid) = Some g.

(** The row says that the group may be stopped. *)
Definition stop_known (s : JobSpec) (g : Z) : Prop :=
  s.(state) = SUSPENDED ∨ (s.(pause_intent_at) ≠ None ∧ s.(pause_intent_pgid) = Some g).

Record recorded (q : queue_dir) (G : gmap Z group_state) : Prop := {
  rc_known name s g : live_row q name s g → G !! g = Some GStopped → stop_known s g;
  rc_distinct n1 n2 s1 s2 g : live_row q n1 s1 g → live_row q n2 s2 g → n1 = n2;
}.

Definition fewer_stopped (G' G : gmap Z group_state) : Prop :=
  ∀ g, G' !! g = Some GStopped → G !! g = Some GStopped.

#[export] Instance fewer_stopped_preorder : PreOrder fewer_stopped.
Proof. split; [by intros G g|]. intros G1 G2 G3 H1 H2 g Hg. auto. Qed.

Lemma recorded_groups q G G' : recorded q G → fewer_stopped G' G → recorded q G'.
Proof. intros [Hk Hd] Hf. split; [|done]. intros name s g Hl Hg. eauto. Qed.

(** A rewrite of a row: of its end, or of the same live group still accounted for. *)
Lemma recorded_write q G name old s :
  recorded q G → q !! name = Some (Some old) →
  (is_terminal s = true ∨
   (is_terminal old = false ∧ s.(pgid) = old.(pgid)
    ∧ ∀ g, s.(pgid) = Some g → G !! g = Some GStopped → stop_known s g)) →
  recorded (<[name := Some s]> q) G.
Proof.
  intros [Hk Hd] Hold Hs.
  assert (∀ n s' g, live_row (<[name := Some s]> q) n s' g →
            live_row q n s' g ∨ (n = name ∧ s' = s ∧ s.(pgid) = Some g ∧ is_terminal s = false)) as Hrow.
  { intros n s' g (Hn & Ht & Hg). destruct (decide (name = n)) as [<-|Hne].
    - rewrite lookup_insert_eq in Hn. simplify_eq. by right.
    - rewrite lookup_insert_ne in Hn by done. left. by split. }
  assert (∀ g, s.(pgid) = Some g → is_terminal s = false → live_row q name old g) as Hlive.
  { intros g Hg Ht. destruct Hs as [?|(? & Hp & _)]; [congruence|]. split_and!; congruence. }
  split.
  - intros n s' g [Hl|(-> & -> & Hg & Ht)]%Hrow Hst; [by eapply Hk|].
    destruct Hs as [?|(_ & _ & Hs)]; [congruence|auto].
  - intros n1 n2 s1 s2 g [H1|(-> & -> & Hg1 & Ht1)]%Hrow [H2|(-> & -> & Hg2 & Ht2)]%Hrow; eauto.
Qed.

Lemma recorded_stop q G name s g :
  recorded q G → live_row q name s g → stop_known s g → recorded q (<[g := GStopped]> G).
Proof.
  intros [Hk Hd] Hl Hs. split; [|done]. intros n s' g' Hl'. destruct (decide (g = g')) as [<-|Hne].
  - intros _. assert (n = name) as -> by eauto. destruct Hl as (Hq & _), Hl' as (Hq' & _). by simplify_eq.
  - rewrite lookup_insert_ne by done. eauto.
Qed.

Lemma fewer_stopped_cont G g : fewer_stopped (<[g := GRunning]> G) G.
Proof.
  intros g'. destruct (decide (g = g')) as [<-|]; [by rewrite lookup_insert_eq|by rewrite lookup_insert_ne].
Qed.

Lemma fewer_stopped_same G g st : G !! g = Some st → fewer_stopped (<[g := st]> G) G.
Proof. intros Hg. by rewrite insert_id. Qed.

(** ** Rules *)

(** Nobody else stops a group; the others keep stopped jobs on record. *)
Record rely (E : ControlEnv) : Prop := {
  rl_groups n G : fewer_stopped (E.(c_groups) n G) G;
  rl_rows n q G : recorded q G → recorded (E.(c_interfere) n q) G;
}.

Section rules.
Context (E : ControlEnv) (HE : rely E).

Definition fine (w : cworld) : Prop := recorded w.(cw_queue) w.(cw_groups).

#[local] Ltac passed := unfold fine in *; eapply recorded_groups; [eassumption|apply rl_groups; assumption].

Lemma answer_rule {A} (f : nat → A) P w :
  fine w → (∀ a w', fine w' → w'.(cw_queue) = w.(cw_queue) → w'.(cw_groups) = w.(cw_groups) → P (Ok a) w') →
  post (answer f) P w.
Proof. intros Hw HP. by apply HP. Qed.

Lemma lock_rule b P w :
  fine w → (∀ r w', fine w' → P r w') → post (spec_lock E b) P w.
Proof.
  intros Hw HP. unfold post, spec_lock, effect_step. destruct (c_crash E _); [by apply HP|].
  destruct (_ && _); apply HP; (apply rl_rows; [done|passed]).
Qed.

(** Any step that leaves queue and groups alone but for the passing of time. *)
Lemma pass_rule {A} (f : nat → res control_error A) P w :
  fine w → (∀ r w', fine w' → P r w') → post (effect_step E (λ n w, (f n, w))) P w.
Proof.
  intros Hw HP. unfold post, effect_step. destruct (c_crash E _); [by apply HP|].
  apply HP. passed.
Qed.

Lemma write_rule jobid s P w :
  fine w → (∀ G, fewer_stopped G w.(cw_groups) → recorded (<[jobid := Some s]> w.(cw_queue)) G) →
  (∀ r w', fine w' → fewer_stopped w'.(cw_groups) w.(cw_groups) →
     match r with
     | Ok _ => w'.(cw_queue) = <[jobid := Some s]> w.(cw_queue)
     | Err _ => w'.(cw_queue) = w.(cw_queue)
     end → P r w') → post (write_row E jobid s) P w.
Proof.
  intros Hw Hs HP. unfold post, write_row, effect_step.
  destruct (c_crash E _); [apply HP; [done|by intros ?|done]|].
  destruct (c_write_fails E _); (apply HP; [|apply rl_groups, HE|done]); [passed|]. apply Hs, rl_groups, HE.
Qed.

Lemma read_rule jobid P w :
  (∀ s, w.(cw_queue) !! jobid = Some (Some s) → P (Ok s) w) → (∀ e, P (Err e) w) → post (read_row jobid) P w.
Proof.
  intros Hs He. unfold post, read_row, row_of. destruct (cw_queue w !! jobid) as [[s|]|] eqn:Hq; simpl; auto.
Qed.

Lemma signal_rule g sig P w :
  fine w → (sig = SIGSTOP → ∃ name s, live_row w.(cw_queue) name s g ∧ stop_known s g) →
  (∀ r w', fine w' → w'.(cw_queue) = w.(cw_queue) →
     match r with
     | Ok Delivered => sig = SIGCONT → w'.(cw_groups) !! g = Some GRunning
     | Ok GroupGone => w'.(cw_groups) !! g = None
     | Ok Denied | Err _ => fewer_stopped w'.(cw_groups) w.(cw_groups)
     end → P r w') → post (signal_process_group E g sig) P w.
Proof.
  intros Hw Hstop HP. unfold post, signal_process_group, effect_step.
  destruct (c_crash E _); [apply HP; [done|done|by intros ?]|].
  set (G := c_groups E _ _). assert (fewer_stopped G w.(cw_groups)) as HG by apply rl_groups, HE.
  simpl. destruct (G !! g) as [st|] eqn:Hg; [|apply HP; [by apply (recorded_groups _ (cw_groups w))|done..]].
  destruct (c_denied E _ g); [apply HP; [by apply (recorded_groups _ (cw_groups w))|done..]|].
  apply HP; [|done|by intros ->; apply lookup_insert_eq]. unfold fine. simpl.
  assert (recorded (cw_queue w) G) as Hr by (by apply (recorded_groups _ (cw_groups w))). destruct sig; simpl.
  - eapply recorded_groups; [exact Hr|apply fewer_stopped_cont].
  - destruct Hstop as (name & s & Hl & Hs); [done|]. by eapply recorded_stop.
  - eapply recorded_groups; [exact Hr|by apply fewer_stopped_same].
  - eapply recorded_groups; [exact Hr|by apply fewer_stopped_same].
Qed.

(** *** Every command keeps stopped jobs on record *)

Definition keeps_record {A} (m : CM A) : Prop := ∀ w, fine w → post m (λ _, fine) w.

Lemma running_not_stopped w jobid s g :
  fine w → live_row w.(cw_queue) jobid s g → s.(state) = RUNNING → s.(pause_intent_at) = None →
  w.(cw_groups) !! g ≠ Some GStopped.
Proof. intros Hw Hl Hst Hi Hg. destruct (rc_known _ _ Hw _ _ _ Hl Hg) as [?|[? _]]; congruence. Qed.

(** Writing a row whose group is not stopped. *)
Lemma quiet_write w jobid old s g :
  fine w → w.(cw_queue) !! jobid = Some (Some old) → is_terminal old = false → s.(pgid) = old.(pgid) →
  old.(pgid) = Some g → w.(cw_groups) !! g ≠ Some GStopped →
  ∀ G, fewer_stopped G w.(cw_groups) → recorded (<[jobid := Some s]> w.(cw_queue)) G.
Proof.
  intros Hw Hold Ht Hp Hg Hns G HG. apply (recorded_write _ _ _ old); [by apply (recorded_groups _ (cw_groups w))|done|].
  right. split_and!; [done|done|]. intros g' Hg' Hst. apply HG in Hst. congruence.
Qed.

(** Writing a row that says its group may be stopped. *)
Lemma known_write w jobid old s g :
  fine w → w.(cw_queue) !! jobid = Some (Some old) → is_terminal old = false → s.(pgid) = old.(pgid) →
  old.(pgid) = Some g → stop_known s g →
  ∀ G, fewer_stopped G w.(cw_groups) → recorded (<[jobid := Some s]> w.(cw_queue)) G.
Proof.
  intros Hw Hold Ht Hp Hg Hns G HG. apply (recorded_write _ _ _ old); [by apply (recorded_groups _ (cw_groups w))|done|].
  right. split_and!; [done|done|]. intros g' Hg' Hst. congruence.
Qed.

Lemma ended_write w jobid old s :
  fine w → w.(cw_queue) !! jobid = Some (Some old) → is_terminal s = true →
  ∀ G, fewer_stopped G w.(cw_groups) → recorded (<[jobid := Some s]> w.(cw_queue)) G.
Proof.
  intros Hw Hold Ht G HG. apply (recorded_write _ _ _ old); [by apply (recorded_groups _ (cw_groups w))|done|by left].
Qed.

Lemma pause_locked_record jobid by_ : keeps_record (pause_locked E jobid by_).
Proof.
  intros w Hw. unfold pause_locked. apply post_bind, read_rule; [|done]. intros s Hs.
  apply post_bind, answer_rule; [done|]. intros container w1 Hw1 Hq1 HG1.
  destruct (container jobid); [done|].
  case_bool_decide as Hi; simpl; [|done]. case_bool_decide as Hst; simpl; [|done].
  destruct (pgid s) as [g|] eqn:Hg; [|done]. destruct (g =? _); [done|].
  apply post_bind, answer_rule; [done|]. intros now w2 Hw2 Hq2 HG2.
  apply post_bind, answer_rule; [done|]. intros mono w3 Hw3 Hq3 HG3.
  set (a := armed_spec now mono g by_ s).
  assert (is_terminal s = false) as Ht by (unfold is_terminal; by rewrite Hst).
  assert (w3.(cw_queue) !! jobid = Some (Some s)) as Hrow by congruence.
  assert (w3.(cw_groups) !! g ≠ Some GStopped) as Hns by (by eapply running_not_stopped).
  assert (stop_known a g) as Hk by by right.
  apply post_bind, write_rule; [done|by apply (known_write _ _ s _ g)|]. intros [_|e] w4 Hw4 HG4 Hq4; [|done].
  assert (w4.(cw_queue) !! jobid = Some (Some a)) as Ha by (rewrite Hq4; apply lookup_insert_eq).
  assert (w4.(cw_groups) !! g ≠ Some GStopped) as Hns4 by (intros ?%HG4; congruence).
  apply post_bind, signal_rule; [done|intros _; exists jobid, a; done|]. intros [d|e] w5 Hw5 Hq5 Hd; [|done].
  rewrite <- Hq5 in Ha.
  destruct d; simpl in Hd.
  - apply write_rule; [done|apply (known_write _ _ a _ g); [done..|by left]|done].
  - apply post_bind, write_rule; [done|apply (quiet_write _ _ a _ g); [done..|congruence]|by intros [] ???].
  - apply post_bind, write_rule; [done|apply (quiet_write _ _ a _ g); [done..|]|by intros [] ???].
    intros ?%Hd. done.
Qed.

Lemma reconcile_locked_record jobid : keeps_record (reconcile_intent_locked E jobid).
Proof.
  intros w Hw. unfold reconcile_intent_locked. apply post_bind, read_rule; [|done]. intros s Hs.
  case_bool_decide as Hi; [done|]. destruct (pause_intent_pgid s) as [g|] eqn:Hig; [|done].
  destruct (_ || _) eqn:Hg; [done|]. apply orb_false_iff in Hg as [_ Hg%negb_false_iff%bool_decide_eq_true].
  destruct (g =? _); [done|]. destruct (negb _) eqn:Hst.
  - assert (s.(state) ≠ RUNNING ∧ s.(state) ≠ SUSPENDED) as [Hr Hsu].
    { apply negb_true_iff, orb_false_iff in Hst as [?%bool_decide_eq_false ?%bool_decide_eq_false]. done. }
    apply post_bind, signal_rule; [done..|]. intros [d|e] w1 Hw1 Hq1 Hd; [|done]. rewrite <- Hq1 in Hs.
    assert (∀ G, fewer_stopped G w1.(cw_groups) → w1.(cw_groups) !! g ≠ Some GStopped →
              recorded (<[jobid := Some (clear_pause_intent s)]> w1.(cw_queue)) G) as Hwr.
    { intros G HG Hns. destruct (is_terminal s) eqn:Ht; [by apply (ended_write w1 _ s)|by apply (quiet_write w1 _ s _ g)]. }
    destruct d; simpl in Hd; [| |done].
    + apply post_bind, write_rule; [done|intros G HG; apply Hwr; [done|]|by intros [] ???]. by rewrite Hd.
    + apply post_bind, write_rule; [done|intros G HG; apply Hwr; [done|]|by intros [] ???]. by rewrite Hd.
  - assert (is_terminal s = false) as Ht.
    { unfold is_terminal. apply negb_false_iff, orb_true_iff in Hst.
      destruct Hst as [->%bool_decide_eq_true| ->%bool_decide_eq_true]; done. }
    apply post_bind, signal_rule; [done| |].
    { intros _. exists jobid, s. split; [done|by right]. }
    intros [d|e] w1 Hw1 Hq1 Hd; [|done]. rewrite <- Hq1 in Hs. destruct d; simpl in Hd; [| |done].
    + apply post_bind, write_rule; [done|apply (known_write _ _ s _ g); [done..|by left]|by intros [] ???].
    + apply post_bind, write_rule; [done|apply (quiet_write _ _ s _ g); [done..|congruence]|by intros [] ???].
Qed.

Lemma resumed_facts mono now s r :
  resumed_spec mono now s = Ok r → r.(pgid) = s.(pgid) ∧ r.(id) = s.(id) ∧ request_of r = request_of s.
Proof.
  unfold resumed_spec, assign_paused_total. destruct (pause_interval mono now s); simpl; [|done].
  destruct (_ <? 0); [done|]. by intros [= <-].
Qed.

Lemma resume_locked_record jobid by_ : keeps_record (resume_locked E jobid by_).
Proof.
  intros w Hw. unfold resume_locked. apply post_bind, read_rule; [|done]. intros s Hs.
  apply post_bind, answer_rule; [done|]. intros container w1 Hw1 Hq1 HG1. rewrite <- Hq1 in Hs.
  destruct (container jobid); [done|]. case_bool_decide as Hst; simpl; [|done].
  destruct (match by_ with None => _ | Some _ => _ end); [done|].
  destruct (pgid s) as [g|] eqn:Hg; [|done].
  apply post_bind, signal_rule; [done..|]. intros [d|e] w2 Hw2 Hq2 Hd; [|done]. rewrite <- Hq2 in Hs.
  destruct d; [|done..]. simpl in Hd.
  apply post_bind, answer_rule; [done|]. intros mono w3 Hw3 Hq3 HG3.
  apply post_bind, answer_rule; [done|]. intros now w4 Hw4 Hq4 HG4.
  apply post_bind, post_lift. destruct (resumed_spec mono now s) as [r|e] eqn:Hr; [|done].
  apply resumed_facts in Hr as (Hrg & _). apply write_rule; [done| |done].
  apply (quiet_write _ _ s _ g); try congruence. { unfold is_terminal. by rewrite Hst. }
  rewrite HG4, HG3, Hd by done. done.
Qed.

Lemma killed_active_facts paused now reason s k :
  killed_active_spec paused now reason s = Ok k →
  k.(state) = KILLED ∧ k.(id) = s.(id) ∧ request_of k = request_of s ∧ k.(failure_reason) = Some reason
  ∧ k.(finished_at) = Some (Aware now) ∧ k.(scheduler_job_id) = s.(scheduler_job_id).
Proof.
  unfold killed_active_spec, assign_paused_total. case_bool_decide; [|by intros [= <-]].
  destruct (_ <? 0); [done|]. by intros [= <-].
Qed.

Lemma kill_signals_record s w P :
  fine w → (∀ r w', fine w' → w'.(cw_queue) = w.(cw_queue) → P r w') → post (kill_signals E s) P w.
Proof.
  intros Hw HP. unfold kill_signals. destruct (pgid s) as [g|]; [|destruct (pid s) as [p|]; [|by apply post_ret, HP]].
  - apply post_bind, signal_rule; [done..|]. intros [[]|] w1 Hw1 Hq1 _; try by apply HP.
    apply post_bind, signal_rule; [done..|]. intros [[]|] w2 Hw2 Hq2 _; (apply HP; [done|exact (eq_trans Hq2 Hq1)]).
  - apply post_bind. unfold post at 1, effect_step. destruct (c_crash E _); simpl; [by apply HP|].
    assert (fine (MkCWorld (cw_queue w) (c_groups E (cw_tick w) (cw_groups w)) (S (cw_tick w)) (cw_effects w)))
      by (unfold fine in *; by apply (recorded_groups _ (cw_groups w)); [|apply rl_groups]).
    destruct (c_kill_pid E _ p); by apply HP.
Qed.

Lemma kill_locked_record jobid reason : keeps_record (kill_locked E jobid reason).
Proof.
  intros w Hw. unfold kill_locked. apply post_bind, read_rule; [|done]. intros s Hs.
  destruct (is_terminal s); [done|].
  apply post_bind, answer_rule; [done|]. intros container w1 Hw1 Hq1 _. rewrite <- Hq1 in Hs.
  destruct (container jobid); [done|]. case_bool_decide as Hp.
  - apply post_bind, answer_rule; [done|]. intros now w2 Hw2 Hq2 _. rewrite <- Hq2 in Hs.
    apply post_bind, write_rule; [done|by apply (ended_write _ _ s)|by intros [] ???].
  - apply post_bind, kill_signals_record; [done|]. intros [d|e] w2 Hw2 Hq2; [|done].
    apply post_bind, answer_rule; [done|]. intros mono w3 Hw3 Hq3 _.
    apply post_bind, answer_rule; [done|]. intros wall w4 Hw4 Hq4 _.
    apply post_bind, answer_rule; [done|]. intros now w5 Hw5 Hq5 _.
    apply post_bind, post_lift. destruct (killed_active_spec _ _ _ _) as [k|e] eqn:Hk; [|done].
    apply killed_active_facts in Hk as (Hk & _).
    apply post_bind, write_rule; [done| |by intros [] ???].
    apply (ended_write _ _ s); [done|congruence|]. unfold is_terminal. by rewrite Hk.
Qed.

Lemma cancel_record s : keeps_record (cancel_scheduler_job E s).
Proof.
  intros w Hw. unfold cancel_scheduler_job. destruct (scheduler_target s), (scheduler_job_id s) as [[]|]; try done.
  apply post_bind, pass_rule; [done..|]. by intros [[]|] w1 Hw1.
Qed.

Lemma record_bind {A B} (m : CM A) (k : A → CM B) :
  keeps_record m → (∀ a, keeps_record (k a)) → keeps_record (bind m k).
Proof.
  intros Hm Hk w Hw. apply post_bind. eapply post_mono, Hm, Hw. intros [a|e] w1 Hw1; [by apply Hk|done].
Qed.

Lemma record_ret {A} (a : A) : keeps_record (ret a).
Proof. by intros w. Qed.

Lemma record_lock b : keeps_record (spec_lock E b).
Proof. intros w Hw. by apply lock_rule. Qed.

Lemma record_look {A} (f : queue_dir → A) : keeps_record (look E f).
Proof.
  intros w Hw. unfold post, look, effect_step. destruct (c_crash E _); simpl; [done|].
  apply rl_rows; [done|]. unfold fine in Hw. passed.
Qed.

Lemma record_catch {A} (m : CM A) (h : control_error → bool) (k : control_error → CM A) :
  keeps_record m → (∀ e, keeps_record (k e)) → keeps_record (catch m h k).
Proof.
  intros Hm Hk w Hw. apply post_catch. eapply post_mono, Hm, Hw. intros [a|e] w1 Hw1; [done|].
  destruct (h e); [by apply Hk|done].
Qed.

Lemma reconcile_rows_record omit skip names r : keeps_record (reconcile_rows E omit skip names r).
Proof.
  revert r. induction names as [|j names IH]; intros r; simpl; [apply record_ret|].
  destruct (skip j); [done|]. apply record_bind; [destruct omit; [apply record_look|apply record_ret]|].
  intros settled. destruct settled; [done|]. apply record_bind; [|done].
  apply record_catch; [|intros; apply record_ret]. apply record_bind; [|intros; apply record_ret].
  apply record_bind; [apply record_lock|intros _; apply reconcile_locked_record].
Qed.

Lemma locked_record {A} jobid bounded (m : CM A) :
  keeps_record m →
  keeps_record (do? there := spec_exists E jobid in
                if negb there then throw CFileNotFound else do? _ := spec_lock E bounded in m).
Proof.
  intros Hm. apply record_bind; [apply record_look|]. intros []; simpl; [|by intros w].
  apply record_bind; [apply record_lock|done].
Qed.

Lemma command_record c : keeps_record (run_command E c).
Proof.
  destruct c as [j r|j b|j b|o sk]; simpl.
  - apply record_bind; [|intros; apply record_ret]. apply locked_record.
    apply record_bind; [apply kill_locked_record|]. intros [[] k]; simpl; [apply record_ret|..];
      (apply record_bind; [apply cancel_record|intros; apply record_ret]).
  - apply locked_record, pause_locked_record.
  - apply locked_record, resume_locked_record.
  - apply record_bind; [|intros; apply record_ret]. unfold reconcile_pause_intents.
    destruct sk, o; try by intros w.
    all: apply record_bind; [apply record_look|intros; apply reconcile_rows_record].
Qed.
End rules.

(** C10: no job is ever silently stopped.  In any session of kill, pause,
    resume and recovery commands, each of which may die or fail at any of its
    steps, a live job whose process group is stopped has a row that says so:
    it is SUSPENDED, or carries a durable pause intent for exactly that
    group.  (Nothing but these commands stops a group, and the other writers
    keep the record too.) *)
Theorem stopped_jobs_recorded E cs w name s g :
  rely E → recorded w.(cw_queue) w.(cw_groups) →
  let w' := session E cs w in
  live_row w'.(cw_queue) name s g → w'.(cw_groups) !! g = Some GStopped → stop_known s g.
Proof.
  intros HE Hw. assert (fine (session E cs w)) as [Hk _]; [|by apply Hk].
  revert w Hw. induction cs as [|c cs IH]; intros w Hw; simpl; [done|]. apply IH. exact (command_record E HE c w Hw).
Qed.

(** ** Verdicts *)

Section verdicts.
Context (R : string → request) (K : string → Prop) (E : ControlEnv).

(** What the commands, and the processes they run among, do to the queue. *)
Record neighbourly (q q' : queue_dir) : Prop := {
  nb_honest : honest R q → honest R q';
  nb_kept : kept K q q';
}.

#[export] Instance neighbourly_preorder : PreOrder neighbourly.
Proof.
  split; [by intros q; split; [|reflexivity]|]. intros q1 q2 q3 [] []. split; [auto|by etransitivity].
Qed.

Context (Hothers : ∀ n q, neighbourly q (E.(c_interfere) n q)).

Definition row_step (old s : JobSpec) : Prop :=
  s.(id) = old.(id) ∧ request_of s = request_of old ∧ (is_terminal old = true → verdict_kept old s).

Lemma neighbourly_write q name old s :
  q !! name = Some (Some old) → row_step old s → neighbourly q (<[name := Some s]> q).
Proof.
  intros Hq (Hi & Hr & Hv). split.
  - intros Hh. destruct (Hh _ _ Hq). apply honest_insert; [done|congruence..].
  - apply kept_write. unfold read_spec. rewrite Hq. by intros ? [= <-].
Qed.

Lemma still_answer {A} (f : nat → A) P w :
  (∀ r w', w'.(cw_queue) = w.(cw_queue) → P r w') → post (answer f) P w.
Proof. intros HP. by apply HP. Qed.

Lemma still_pass {A} (f : nat → cworld → res control_error A * cworld) P w :
  (∀ n w, (f n w).2.(cw_queue) = w.(cw_queue)) →
  (∀ r w', w'.(cw_queue) = w.(cw_queue) → P r w') → post (effect_step E f) P w.
Proof.
  intros Hf HP. unfold post, effect_step. destruct (c_crash E _); apply HP; [done|]. by rewrite Hf.
Qed.

Lemma still_signal g sig P w :
  (∀ r w', w'.(cw_queue) = w.(cw_queue) → P r w') → post (signal_process_group E g sig) P w.
Proof.
  apply still_pass. intros n w1. destruct (cw_groups w1 !! g); [|done]. by destruct (c_denied E n g).
Qed.

Lemma still_kill_signals s P w :
  (∀ r w', w'.(cw_queue) = w.(cw_queue) → P r w') → post (kill_signals E s) P w.
Proof.
  intros HP. unfold kill_signals. destruct (pgid s) as [g|]; [|destruct (pid s) as [p|]; [|by apply HP]].
  - apply post_bind, still_signal. intros [[]|] w1 Hq1; try by apply HP.
    apply post_bind, still_signal. intros [[]|] w2 Hq2; apply HP; exact (eq_trans Hq2 Hq1).
  - apply post_bind, still_pass; [done|]. intros [[]|] w1 Hq1; by apply HP.
Qed.

Lemma moves_write name old s P w :
  w.(cw_queue) !! name = Some (Some old) → row_step old s →
  (∀ r w', neighbourly w.(cw_queue) w'.(cw_queue) →
     match r with
     | Ok _ => w'.(cw_queue) = <[name := Some s]> w.(cw_queue)
     | Err _ => w'.(cw_queue) = w.(cw_queue)
     end → P r w') → post (write_row E name s) P w.
Proof.
  intros Hq Hs HP. unfold post, write_row, effect_step.
  destruct (c_crash E _); [by apply HP; [reflexivity|]|].
  destruct (c_write_fails E _); [by apply HP; [reflexivity|]|]. apply HP; [|done]. by eapply neighbourly_write.
Qed.

Definition moves {A} (m : CM A) : Prop := ∀ w, post m (λ _ w', neighbourly w.(cw_queue) w'.(cw_queue)) w.

Lemma moves_bind {A B} (m : CM A) (k : A → CM B) : moves m → (∀ a, moves (k a)) → moves (bind m k).
Proof.
  intros Hm Hk w. apply post_bind. eapply post_mono, Hm. intros [a|e] w1 Hw1; [|done].
  eapply post_mono, Hk. intros r w2 Hw2. by etransitivity.
Qed.

Lemma moves_ret {A} (a : A) : moves (ret a).
Proof. intros w. apply post_ret. reflexivity. Qed.

Lemma moves_throw {A} e : moves (throw e : CM A).
Proof. intros w. apply post_throw. reflexivity. Qed.

Lemma moves_catch {A} (m : CM A) (h : control_error → bool) (k : control_error → CM A) :
  moves m → (∀ e, moves (k e)) → moves (catch m h k).
Proof.
  intros Hm Hk w. apply post_catch. eapply post_mono, Hm. intros [a|e] w1 Hw1; [done|].
  destruct (h e); [|done]. eapply post_mono, Hk. intros r w2 Hw2. by etransitivity.
Qed.

Lemma moves_look {A} (f : queue_dir → A) : moves (look E f).
Proof. intros w. unfold post, look, effect_step. destruct (c_crash E _); simpl; [reflexivity|apply Hothers]. Qed.

Lemma moves_lock b : moves (spec_lock E b).
Proof.
  intros w. unfold post, spec_lock, effect_step.
  destruct (c_crash E _); simpl; [reflexivity|]. destruct (_ && _); simpl; apply Hothers.
Qed.

Lemma live_step old s : is_terminal old = false → s.(id) = old.(id) → request_of s = request_of old → row_step old s.
Proof. intros Ht ??. split_and!; [done..|]. by rewrite Ht. Qed.

#[local] Ltac unmoved := unfold post; simpl; first [reflexivity | intros; reflexivity].

Lemma kill_moves jobid reason : moves (kill_locked E jobid reason).
Proof.
  intros w. unfold kill_locked. apply post_bind, read_rule; [|unmoved]. intros s Hs.
  destruct (is_terminal s) eqn:Ht; [unmoved|].
  apply post_bind, still_answer. intros [container|e] w1 Hq1; rewrite <- Hq1 in *; [|unmoved].
  destruct (container jobid); [unmoved|]. case_bool_decide.
  - apply post_bind, still_answer. intros [now|e] w2 Hq2; rewrite <- Hq2 in *; [|unmoved].
    apply post_bind, (moves_write _ s); [done|by apply live_step|]. by intros [] w3 ? _.
  - apply post_bind, still_kill_signals. intros [d|e] w2 Hq2; rewrite <- Hq2 in *; [|unmoved].
    apply post_bind, still_answer. intros [mono|e] w3 Hq3; rewrite <- Hq3 in *; [|unmoved].
    apply post_bind, still_answer. intros [wall|e] w4 Hq4; rewrite <- Hq4 in *; [|unmoved].
    apply post_bind, still_answer. intros [now|e] w5 Hq5; rewrite <- Hq5 in *; [|unmoved].
    apply post_bind, post_lift. destruct (killed_active_spec _ _ _ _) as [k|e] eqn:Hk; [|unmoved].
    apply killed_active_facts in Hk as (_ & Hi & Hr & _).
    apply post_bind, (moves_write _ s); [done|by apply live_step|]. by intros [] w6 ? _.
Qed.

Lemma cancel_moves s : moves (cancel_scheduler_job E s).
Proof.
  intros w. unfold cancel_scheduler_job. destruct (scheduler_target s), (scheduler_job_id s) as [[]|]; try unmoved.
  apply post_bind, still_pass; [done|]. intros [[]|] w1 Hq1; rewrite <- Hq1; unmoved.
Qed.

Lemma pause_moves jobid by_ : moves (pause_locked E jobid by_).
Proof.
  intros w. unfold pause_locked. apply post_bind, read_rule; [|unmoved]. intros s Hs.
  apply post_bind, still_answer. intros [container|e] w1 Hq1; rewrite <- Hq1 in *; [|unmoved].
  destruct (container jobid); [unmoved|]. case_bool_decide; simpl; [|unmoved].
  case_bool_decide as Hst; simpl; [|unmoved]. destruct (pgid s) as [g|]; [|unmoved].
  destruct (g =? _); [unmoved|].
  assert (is_terminal s = false) as Ht by (unfold is_terminal; by rewrite Hst).
  apply post_bind, still_answer. intros [now|e] w2 Hq2; rewrite <- Hq2 in *; [|unmoved].
  apply post_bind, still_answer. intros [mono|e] w3 Hq3; rewrite <- Hq3 in *; [|unmoved].
  apply post_bind, (moves_write _ s); [done|by apply live_step|]. intros [_|e] w4 Hn Hq4; [|done].
  assert (w4.(cw_queue) !! jobid = Some (Some (armed_spec now mono g by_ s))) as Ha
    by (rewrite Hq4; apply lookup_insert_eq).
  apply post_bind, still_signal. intros [d|e] w5 Hq5; rewrite <- Hq5 in *; [|done].
  destruct d; [|apply post_bind..]; (eapply moves_write; [exact Ha|by apply live_step|]).
  - intros r w6 Hn' _. by etransitivity.
  - intros [] w6 Hn' _; unfold post; simpl; by etransitivity.
  - intros [] w6 Hn' _; unfold post; simpl; by etransitivity.
Qed.

Lemma reconcile_moves jobid : moves (reconcile_intent_locked E jobid).
Proof.
  intros w. unfold reconcile_intent_locked. apply post_bind, read_rule; [|unmoved]. intros s Hs.
  case_bool_decide; [unmoved|]. destruct (pause_intent_pgid s) as [g|]; [|unmoved].
  destruct (_ || _); [unmoved|]. destruct (g =? _); [unmoved|].
  assert (row_step s (clear_pause_intent s)) as Hc by (split_and!; auto; by intros _; split_and!; auto).
  destruct (negb _) eqn:Hst; (apply post_bind, still_signal; intros [d|e] w1 Hq1; rewrite <- Hq1 in *; [|unmoved]).
  - destruct d; [| |unmoved]; (apply post_bind, (moves_write _ s); [done..|]; by intros [] w2 ? _).
  - assert (is_terminal s = false) as Ht.
    { unfold is_terminal. apply negb_false_iff, orb_true_iff in Hst.
      destruct Hst as [->%bool_decide_eq_true| ->%bool_decide_eq_true]; done. }
    destruct d; [| |unmoved].
    + apply post_bind, (moves_write _ s); [done|by apply live_step|]. by intros [] w2 ? _.
    + apply post_bind, (moves_write _ s); [done..|]. by intros [] w2 ? _.
Qed.

Lemma resume_moves jobid by_ : moves (resume_locked E jobid by_).
Proof.
  intros w. unfold resume_locked. apply post_bind, read_rule; [|unmoved]. intros s Hs.
  apply post_bind, still_answer. intros [container|e] w1 Hq1; rewrite <- Hq1 in *; [|unmoved].
  destruct (container jobid); [unmoved|]. case_bool_decide as Hst; simpl; [|unmoved].
  destruct (match by_ with None => _ | Some _ => _ end); [unmoved|].
  destruct (pgid s) as [g|]; [|unmoved].
  apply post_bind, still_signal. intros [d|e] w2 Hq2; rewrite <- Hq2 in *; [|unmoved]. destruct d; [|unmoved..].
  apply post_bind, still_answer. intros [mono|e] w3 Hq3; rewrite <- Hq3 in *; [|unmoved].
  apply post_bind, still_answer. intros [now|e] w4 Hq4; rewrite <- Hq4 in *; [|unmoved].
  apply post_bind, post_lift. destruct (resumed_spec mono now s) as [r|e] eqn:Hr; [|unmoved].
  apply resumed_facts in Hr as (_ & Hi & Hrq).
  apply (moves_write _ s); [done| |done]. apply live_step; [|done..]. unfold is_terminal. by rewrite Hst.
Qed.

Lemma reconcile_rows_moves omit skip names r : moves (reconcile_rows E omit skip names r).
Proof.
  revert r. induction names as [|j names IH]; intros r; simpl; [apply moves_ret|].
  destruct (skip j); [done|]. apply moves_bind; [destruct omit; [apply moves_look|apply moves_ret]|].
  intros settled. destruct settled; [done|]. apply moves_bind; [|done].
  apply moves_catch; [|intros; apply moves_ret]. apply moves_bind; [|intros; apply moves_ret].
  apply moves_bind; [apply moves_lock|intros _; apply reconcile_moves].
Qed.

Lemma locked_moves {A} jobid bounded (m : CM A) :
  moves m →
  moves (do? there := spec_exists E jobid in
         if negb there then throw CFileNotFound else do? _ := spec_lock E bounded in m).
Proof.
  intros Hm. apply moves_bind; [apply moves_look|]. intros []; simpl; [|apply moves_throw].
  apply moves_bind; [apply moves_lock|done].
Qed.

Lemma command_moves c : moves (run_command E c).
Proof.
  destruct c as [j r|j b|j b|o sk]; simpl.
  - apply moves_bind; [|intros; apply moves_ret]. apply locked_moves.
    apply moves_bind; [apply kill_moves|]. intros [[] k]; simpl; [apply moves_ret|..];
      (apply moves_bind; [apply cancel_moves|intros; apply moves_ret]).
  - apply locked_moves, pause_moves.
  - apply locked_moves, resume_moves.
  - apply moves_bind; [|intros; apply moves_ret]. unfold reconcile_pause_intents.
    destruct sk, o; try apply moves_throw.
    all: apply moves_bind; [apply moves_look|intros; apply reconcile_rows_moves].
Qed.

Lemma session_moves cs w : neighbourly w.(cw_queue) (session E cs w).(cw_queue).
Proof.
  revert w. induction cs as [|c cs IH]; intros w; simpl; [reflexivity|].
  etransitivity; [apply (command_moves c)|apply IH].
Qed.
End verdicts.

(** Job control and the daemon get along.  A queue in which, before each
    access of the daemon, any session of kill, pause, resume and recovery
    commands has run, each of them failing or dying anywhere, is one the
    daemon's guarantees allow: rows keep their identity and request, and a
    terminal row keeps its label, end time and exit code. *)
Theorem control_respects_daemon R K E (sessions : nat → list control_command) (groups : nat → gmap Z group_state)
    (start : nat → nat) (write_fails : nat → bool) :
  (∀ n q, neighbourly R K q (E.(c_interfere) n q)) →
  queue_ok R K (MkQueueEnv
    (λ n q, (session E (sessions n) (MkCWorld q (groups n) (start n) [])).(cw_queue)) write_fails).
Proof.
  intros Hothers. split; intros n q; simpl.
  - exact (nb_honest _ _ _ _ (session_moves R K E Hothers (sessions n) (MkCWorld q (groups n) (start n) []))).
  - exact (nb_kept _ _ _ _ (session_moves R K E Hothers (sessions n) (MkCWorld q (groups n) (start n) []))).
Qed.
