(* ===== verification/ControlRecovery.v ===== *)
(** * What each control command does

    A pause that died half way is finished or undone by the next recovery; a
    kill is durable before it is reported; a resume bills the pause. *)

From S2P Require Import Prelude Spec Admission DaemonCore Dispatch DaemonLogic Launch Reap LaunchSafety Control ControlGuarantees.

(** ** One row, followed through a command *)

(** The other writers leave the row alone. *)
Definition row_still (E : ControlEnv) (jobid : string) : Prop :=
  ∀ n q, E.(c_interfere) n q !! jobid = q !! jobid.

Definition sees (jobid : string) (s : JobSpec) (w : cworld) : Prop := w.(cw_queue) !! jobid = Some (Some s).

(** The row is the same and no effect was forgotten. *)
Record later (jobid : string) (w w' : cworld) : Prop := {
  la_row : w'.(cw_queue) !! jobid = w.(cw_queue) !! jobid;
  la_effects e : e ∈ w.(cw_effects) → e ∈ w'.(cw_effects);
}.

#[export] Instance later_preorder jobid : PreOrder (later jobid).
Proof.
  split; [by intros w|]. intros w1 w2 w3 [E1 H1] [E2 H2]. split; [congruence|auto].
Qed.

Lemma later_sees jobid w w' s : later jobid w w' → sees jobid s w → sees jobid s w'.
Proof. intros [Hr _]. unfold sees. by rewrite Hr. Qed.

Section follow.
Context (E : ControlEnv) (jobid : string) (Hstill : row_still E jobid).

Lemma follow_look {A} (f : queue_dir → A) P w :
  (∀ w', later jobid w w' → P (Ok (f w'.(cw_queue))) w' ∧ (E.(c_crash) w.(cw_tick) = true → P (Err Crashed) w')) →
  post (look E f) P w.
Proof.
  intros HP. unfold post, look, effect_step. destruct (c_crash E _) eqn:Hc; simpl.
  - by refine (proj2 (HP _ _) eq_refl).
  - set (w1 := other_writers E _ _). refine (proj1 (HP w1 _)). split; [apply Hstill|done].
Qed.

Lemma follow_lock b P w :
  (∀ r w', later jobid w w' →
     (E.(c_crash) w.(cw_tick) = false → b = false ∨ E.(c_lock_busy) w.(cw_tick) = false → r = Ok tt) → P r w') →
  post (spec_lock E b) P w.
Proof.
  intros HP. unfold post, spec_lock, effect_step. destruct (c_crash E _); simpl; [by apply HP|].
  destruct (b && _) eqn:Hb; simpl; (apply HP; [split; [apply Hstill|done]|]); [|done].
  apply andb_true_iff in Hb as [-> ->]. by intros _ [?|?].
Qed.

Lemma follow_answer {A} (f : nat → A) P w :
  (∀ a w', later jobid w w' → P (Ok a) w') → post (answer f) P w.
Proof. intros HP. by apply HP. Qed.

Lemma follow_write s P w :
  (∀ r w', (∀ e, e ∈ w.(cw_effects) → e ∈ w'.(cw_effects)) →
     (E.(c_crash) w.(cw_tick) = false → E.(c_write_fails) w.(cw_tick) = false → r = Ok tt) →
     match r with
     | Ok _ => sees jobid s w'
     | Err _ => w'.(cw_queue) = w.(cw_queue)
     end → P r w') → post (write_row E jobid s) P w.
Proof.
  intros HP. unfold post, write_row, effect_step. destruct (c_crash E _); simpl; [by apply HP|].
  destruct (c_write_fails E _); simpl; [by apply HP|]. apply HP; [done|done|apply lookup_insert_eq].
Qed.

Lemma follow_signal g sig P w :
  (∀ r w', later jobid w w' →
     match r with
     | Ok Delivered => Signalled g sig ∈ w'.(cw_effects)
     | Ok GroupGone => True
     | Ok Denied => E.(c_denied) w.(cw_tick) g = true
     | Err e => e = Crashed ∧ E.(c_crash) w.(cw_tick) = true
     end → P r w') → post (signal_process_group E g sig) P w.
Proof.
  intros HP. unfold post, signal_process_group, effect_step. destruct (c_crash E _) eqn:Hc; simpl; [by apply HP|].
  destruct (_ !! g); simpl; [|by apply HP]. destruct (c_denied E _ g) eqn:Hd; simpl; [by apply HP|].
  apply HP; [split; [done|]|]; simpl; [|apply elem_of_app; right; by left].
  intros e He. apply elem_of_app. by left.
Qed.
End follow.

(** ** A pause and its recovery *)

(** What [pause_job] leaves of the row it found, and what it answers. *)
Inductive pause_left (s0 : JobSpec) (g : Z) (by_ : option string) : res control_error unit → JobSpec → Prop :=
| left_alone e : pause_left s0 g by_ (Err e) s0
| left_armed e now mono : s0.(state) = RUNNING → pause_left s0 g by_ (Err e) (armed_spec now mono g by_ s0)
| left_cleared now mono :
    s0.(state) = RUNNING → pause_left s0 g by_ (Err CPauseError) (clear_pause_intent (armed_spec now mono g by_ s0))
| left_suspended now mono :
    s0.(state) = RUNNING → pause_left s0 g by_ (Ok tt) (finish_pause_from_intent (armed_spec now mono g by_ s0)).

Lemma pause_job_leaves E jobid by_ s0 g w :
  row_still E jobid → sees jobid s0 w → s0.(pgid) = Some g →
  post (pause_job E jobid by_) (λ r w', ∃ s1, sees jobid s1 w' ∧ pause_left s0 g by_ r s1
    ∧ (r = Ok tt → Signalled g SIGSTOP ∈ w'.(cw_effects))) w.
Proof.
  intros Hst Hs Hg. unfold pause_job.
  assert (∀ e w', sees jobid s0 w' → ∃ s1, sees jobid s1 w' ∧ pause_left s0 g by_ (Err e) s1
            ∧ (Err e = Ok tt → Signalled g SIGSTOP ∈ w'.(cw_effects))) as Hsame.
  { intros e w' Hw'. exists s0. split_and!; [done|constructor|done]. }
  apply post_bind, (follow_look E jobid Hst). intros w1 L1. pose proof (later_sees _ _ _ _ L1 Hs) as H1.
  split; [|intros _; by apply Hsame]. unfold sees in H1. rewrite H1. simpl.
  apply post_bind, (follow_lock E jobid Hst). intros [_|e] w2 L2 _; pose proof (later_sees _ _ _ _ L2 H1) as H2; [|by apply Hsame].
  unfold pause_locked. apply post_bind, read_rule; [|by intros e; apply Hsame].
  intros s Hs2. unfold sees in H2. rewrite H2 in Hs2. injection Hs2 as <-.
  apply post_bind, (follow_answer jobid). intros container w3 L3. pose proof (later_sees _ _ _ _ L3 H2) as H3.
  destruct (container jobid); [by apply Hsame|]. case_bool_decide; simpl; [|by apply Hsame].
  case_bool_decide as Hrun; simpl; [|by apply Hsame]. rewrite Hg. destruct (g =? _); [by apply Hsame|].
  apply post_bind, (follow_answer jobid). intros now w4 L4. pose proof (later_sees _ _ _ _ L4 H3) as H4.
  apply post_bind, (follow_answer jobid). intros mono w5 L5. pose proof (later_sees _ _ _ _ L5 H4) as H5.
  set (a := armed_spec now mono g by_ s0).
  apply post_bind, (follow_write E jobid). intros [_|e] w6 _ _ H6; [|apply Hsame; unfold sees; by rewrite H6].
  assert (∀ e w', sees jobid a w' → ∃ s1, sees jobid s1 w' ∧ pause_left s0 g by_ (Err e) s1
            ∧ (Err e = Ok tt → Signalled g SIGSTOP ∈ w'.(cw_effects))) as Harmed.
  { intros e w' Hw'. exists a. split_and!; [done|by constructor|done]. }
  apply post_bind, (follow_signal E jobid). intros [d|e] w7 L7 Hd; pose proof (later_sees _ _ _ _ L7 H6) as H7; [|by apply Harmed].
  assert (post (write_row E jobid (clear_pause_intent a)) (λ r w', match r with
      | Ok _ => sees jobid (clear_pause_intent a) w' | Err _ => sees jobid a w' end) w7) as Hclear.
  { apply (follow_write E jobid). intros [] w8 _ _ H8; [done|]. unfold sees. by rewrite H8. }
  destruct d.
  - apply (follow_write E jobid). intros [[]|e] w8 Heff _ H8; [|apply Harmed; unfold sees; by rewrite H8].
    exists (finish_pause_from_intent a). split_and!; [done|by constructor|]. intros _. auto.
  - apply post_bind. eapply post_mono, Hclear. intros [[]|e] w8 H8; [|by apply Harmed].
    exists (clear_pause_intent a). split_and!; [done|by constructor|done].
  - apply post_bind. eapply post_mono, Hclear. intros [[]|e] w8 H8; [|by apply Harmed].
    exists (clear_pause_intent a). split_and!; [done|by constructor|done].
Qed.

(** A host on which nothing fails. *)
Record faultless (E : ControlEnv) : Prop := {
  fl_crash n : E.(c_crash) n = false;
  fl_write n : E.(c_write_fails) n = false;
  fl_denied n g : E.(c_denied) n g = false;
}.

Definition reconciled (s : JobSpec) (g : Z) (o : reconcile_outcome) (s2 : JobSpec) (w : cworld) : Prop :=
  match o with
  | NoIntent => s2 = s ∧ s.(pause_intent_at) = None
  | Completed => s2 = finish_pause_from_intent s ∧ Signalled g SIGSTOP ∈ w.(cw_effects)
                 ∧ s.(pause_intent_at) ≠ None ∧ (s.(state) = RUNNING ∨ s.(state) = SUSPENDED)
  | ClearedGone => s2 = clear_pause_intent s
  end.

Lemma reconcile_settles E jobid s g w :
  row_still E jobid → faultless E → sees jobid s w → s.(pgid) = Some g → 0 < g → g ≠ E.(c_getpgrp) →
  (s.(pause_intent_at) ≠ None → s.(pause_intent_pgid) = Some g) →
  post (reconcile_pause_intent_path E jobid)
    (λ r w', ∃ o s2, r = Ok o ∧ sees jobid s2 w' ∧ reconciled s g o s2 w'
       ∧ ∀ e, e ∈ w.(cw_effects) → e ∈ w'.(cw_effects)) w.
Proof.
  intros Hst [Hc Hwf Hden] Hs Hg Hpos Hown Hint. unfold reconcile_pause_intent_path.
  apply post_bind, (follow_lock E jobid Hst). intros r1 w1 L1 Hr1. rewrite Hr1 by auto.
  pose proof (later_sees _ _ _ _ L1 Hs) as H1.
  unfold reconcile_intent_locked. apply post_bind. unfold post, read_row, row_of. simpl. unfold sees in H1. rewrite H1. simpl.
  fold (post (W := cworld) (E := control_error) (A := reconcile_outcome)). case_bool_decide as Hi; [by exists NoIntent, s; split_and!; try done; apply L1|].
  rewrite (Hint Hi). rewrite (proj2 (Z.leb_gt g 0) Hpos), (bool_decide_eq_true_2 (pgid s = Some g) Hg). simpl.
  rewrite (proj2 (Z.eqb_neq _ _) Hown).
  assert (∀ w2 s2 (o : reconcile_outcome), later jobid w1 w2 →
    (∀ w3, (∀ e, e ∈ w2.(cw_effects) → e ∈ w3.(cw_effects)) → reconciled s g o s2 w3) →
    post (do? _ := write_row E jobid s2 in ret o) (λ r w', ∃ o s2, r = Ok o ∧ sees jobid s2 w' ∧ reconciled s g o s2 w'
       ∧ ∀ e, e ∈ w.(cw_effects) → e ∈ w'.(cw_effects)) w2)
    as Hwrite.
  { intros w2 s2 o L2 Ho. apply post_bind, (follow_write E jobid). intros r3 w3 Heff Hr3. rewrite Hr3 by auto.
    intros H3. exists o, s2. split_and!; auto. intros e He. apply Heff, L2, L1, He. }
  destruct (negb _) eqn:Hstate; apply post_bind, (follow_signal E jobid); intros r2 w2 L2 Hd.
  - destruct r2 as [[]|e]; [by apply Hwrite..| |]; [by rewrite Hden in Hd|by rewrite Hc in Hd; destruct Hd].
  - apply negb_false_iff, orb_true_iff in Hstate.
    assert (s.(state) = RUNNING ∨ s.(state) = SUSPENDED) as Hst'
      by (destruct Hstate as [?%bool_decide_eq_true|?%bool_decide_eq_true]; auto).
    destruct r2 as [[]|e]; [|by apply Hwrite| |]; [|by rewrite Hden in Hd|by rewrite Hc in Hd; destruct Hd].
    apply Hwrite; [done|]. intros w3 Heff. split_and!; auto.
Qed.

Lemma pause_left_facts s0 g by_ r s1 :
  s0.(pause_intent_at) = None → s0.(pgid) = Some g → pause_left s0 g by_ r s1 →
  s1.(pgid) = Some g ∧ (s1.(pause_intent_at) ≠ None → s1.(pause_intent_pgid) = Some g).
Proof. intros Hi Hg. by destruct 1. Qed.

(** The row recovery ends with: as it was, or suspended with the pauser's tag
    and the monotonic time of the intent. *)
Definition pause_decided (s0 : JobSpec) (g : Z) (by_ : option string) (s2 : JobSpec) (w : cworld) : Prop :=
  s2.(state) = s0.(state)
  ∨ (s0.(state) = RUNNING ∧ s2.(state) = SUSPENDED ∧ s2.(paused_by) = by_ ∧ is_Some s2.(paused_monotonic_at)
     ∧ Signalled g SIGSTOP ∈ w.(cw_effects)).

Lemma recovery_decides s0 g by_ r1 s1 w1 o s2 w2 :
  s0.(pause_intent_at) = None → pause_left s0 g by_ r1 s1 →
  (r1 = Ok tt → Signalled g SIGSTOP ∈ w1.(cw_effects)) → (∀ e, e ∈ w1.(cw_effects) → e ∈ w2.(cw_effects)) →
  reconciled s1 g o s2 w2 →
  s2.(pause_intent_at) = None ∧ pause_decided s0 g by_ s2 w2 ∧ (r1 = Ok tt → s2.(state) = SUSPENDED).
Proof.
  intros Hi Hl Hsig Heff Hr. unfold pause_decided, reconciled in *.
  destruct Hl as [e|e now mono Hs0|now mono Hs0|now mono Hs0], o; simpl in *; destruct_and?; subst; simpl in *;
    try done; split_and!; auto; try (right; split_and!; eauto; done); try congruence.
Qed.


(** ** A kill *)

Definition killed_as (reason : string) (s0 s1 : JobSpec) : Prop :=
  s1.(state) = KILLED ∧ s1.(failure_reason) = Some reason ∧ is_Some s1.(finished_at) ∧ s1.(id) = s0.(id)
  ∧ request_of s1 = request_of s0 ∧ s1.(scheduler_job_id) = s0.(scheduler_job_id).

(** What became of the allocation of a scheduler job. *)
Definition cancel_answer (s : JobSpec) (c : cancel_outcome) (w : cworld) : Prop :=
  match s.(scheduler_target), s.(scheduler_job_id) with
  | None, _ => c = NoScheduler
  | Some _, (None | Some EmptyString) => c = NoSchedulerId
  | Some t, Some i => (c = Cancelled ∧ CancelIssued t i ∈ w.(cw_effects)) ∨ c = CancelFailed
  end.

(** The signals a kill of [s] reports as sent. *)
Definition signals_answer (s : JobSpec) (sent : bool) (w : cworld) : Prop :=
  sent = true →
  match s.(pgid), s.(pid) with
  | Some g, _ => Signalled g SIGCONT ∈ w.(cw_effects) ∧ Signalled g SIGTERM ∈ w.(cw_effects)
  | None, Some p => SignalledPid p SIGTERM ∈ w.(cw_effects)
  | None, None => False
  end.

Section kill.
Context (E : ControlEnv) (jobid : string) (Hstill : row_still E jobid).

Lemma follow_pass {A} (f : nat → A) P w :
  (∀ r w', later jobid w w' →
     match r with Ok _ => True | Err e => e = Crashed ∧ E.(c_crash) w.(cw_tick) = true end → P r w') →
  post (effect_step E (λ n w, (Ok (f n), w))) P w.
Proof. intros HP. unfold post, effect_step. destruct (c_crash E _) eqn:Hc; simpl; (apply HP; [by split|done]). Qed.

Lemma follow_log e P w : (∀ w', later jobid w w' → e ∈ w'.(cw_effects) → P (Ok tt) w') → post (log_effect e) P w.
Proof.
  intros HP. apply HP; [split; [done|]|]; simpl; [|apply elem_of_app; right; by left].
  intros e' He. apply elem_of_app. by left.
Qed.

Lemma follow_kill_signals s P w :
  (∀ r w', later jobid w w' →
     match r with
     | Ok (sent, _) => signals_answer s sent w'
     | Err e => e = Crashed ∧ ∃ n, E.(c_crash) n = true
     end → P r w') → post (kill_signals E s) P w.
Proof.
  intros HP. unfold kill_signals, signals_answer in *.
  destruct (pgid s) as [g|]; [|destruct (pid s) as [p|]; [|by apply post_ret, HP]].
  - apply post_bind, (follow_signal E jobid). intros [d|e] w1 L1 Hd; [|apply HP; [done|destruct Hd; eauto]].
    destruct d; [|by apply HP..].
    apply post_bind, (follow_signal E jobid). intros [d|e] w2 L2 Hd2.
    + apply HP; [by transitivity w1|]. destruct d; [|done..]. intros _. split; [by apply L2|done].
    + apply HP; [by transitivity w1|destruct Hd2; eauto].
  - apply post_bind, follow_pass. intros [d|e] w1 L1 Hd; [|apply HP; [done|destruct Hd; eauto]].
    destruct d; [|by apply HP..].
    apply post_bind, follow_log. intros w2 L2 He. apply HP; [by transitivity w1|intros _; exact He].
Qed.

Lemma follow_cancel s P w :
  (∀ r w', later jobid w w' →
     match r with Ok c => cancel_answer s c w' | Err e => e = Crashed ∧ ∃ n, E.(c_crash) n = true end → P r w') →
  post (cancel_scheduler_job E s) P w.
Proof.
  intros HP. unfold cancel_scheduler_job, cancel_answer in *.
  destruct (scheduler_target s) as [t|]; [|by apply HP]. destruct (scheduler_job_id s) as [[|c i]|]; [by apply HP| |by apply HP].
  apply post_bind, follow_pass. intros [[]|e] w1 L1 Hd; [| |apply HP; [done|destruct Hd; eauto]].
  - apply post_bind, follow_log. intros w2 L2 He. apply HP; [by transitivity w1|]. by left.
  - apply HP; [done|]. by right.
Qed.

(** What a kill leaves of the row it found, and what it answers. *)
Definition kill_left (s0 : JobSpec) (why : string) (r : res control_error (kill_outcome * cancel_outcome))
    (s1 : JobSpec) (w : cworld) : Prop :=
  match r with
  | Ok (ContainerStopRequested, _) => is_terminal s0 = false ∧ s1 = s0 ∧ StopRequested jobid why ∈ w.(cw_effects)
  | Ok (KilledPending, c) => s0.(state) = PENDING ∧ killed_as why s0 s1 ∧ cancel_answer s0 c w
  | Ok (KilledActive sent _, c) =>
    is_terminal s0 = false ∧ s0.(state) ≠ PENDING ∧ killed_as why s0 s1 ∧ cancel_answer s0 c w
    ∧ signals_answer s0 sent w
  | Err e => s1 = s0 ∨ (e = Crashed ∧ is_terminal s0 = false ∧ killed_as why s0 s1)
  end.

(** The same of its locked part, which also answers with the row it wrote. *)
Definition locked_left (s0 : JobSpec) (why : string) (r : res control_error (kill_outcome * JobSpec))
    (s1 : JobSpec) (w : cworld) : Prop :=
  match r with
  | Ok (ContainerStopRequested, _) => is_terminal s0 = false ∧ s1 = s0 ∧ StopRequested jobid why ∈ w.(cw_effects)
  | Ok (KilledPending, k) => s0.(state) = PENDING ∧ killed_as why s0 s1 ∧ k = s1
  | Ok (KilledActive sent _, k) =>
    is_terminal s0 = false ∧ s0.(state) ≠ PENDING ∧ killed_as why s0 s1 ∧ k = s1 ∧ signals_answer s0 sent w
  | Err _ => s1 = s0
  end.

Definition sound : Prop := ∀ n, E.(c_crash) n = false ∧ E.(c_write_fails) n = false ∧ E.(c_lock_busy) n = false.

Lemma follow_read s P w : sees jobid s w → P (Ok s) w → post (read_row jobid) P w.
Proof. unfold sees, post, read_row, row_of. by intros ->. Qed.

Lemma signals_later s sent w w' : later jobid w w' → signals_answer s sent w → signals_answer s sent w'.
Proof.
  intros [_ He] Hs H. specialize (Hs H). destruct (pgid s); [naive_solver|]. destruct (pid s); auto.
Qed.

Lemma killed_pending_as now why s : killed_as why s (killed_spec now why s).
Proof. by split_and!. Qed.

Lemma cancel_same why s0 s1 c w : killed_as why s0 s1 → cancel_answer s1 c w → cancel_answer s0 c w.
Proof. intros (_ & _ & _ & _ & Hr & Hj). injection Hr as _ _ _ Ht. unfold cancel_answer. by rewrite Ht, Hj. Qed.

Lemma current_pause_nonneg mono now s : 0 <= current_pause mono now s.
Proof. unfold current_pause. destruct (negb _); [done|]. repeat case_match; lia. Qed.

Lemma round_div_bounds a b : 0 < b → 2 * a - b <= 2 * (round_div a b * b) <= 2 * a + b.
Proof.
  intros Hb. unfold round_div. pose proof (Z.div_mod a b ltac:(lia)). pose proof (Z.mod_pos_bound a b Hb).
  destruct (Z.ltb_spec (2 * (a mod b)) b), (Z.ltb_spec b (2 * (a mod b))); try destruct (Z.even (a / b)); nia.
Qed.

Lemma add_pause_ge total paused : 0 <= paused → total <= add_pause total paused.
Proof.
  intros Hp. unfold add_pause, round_div. set (T := TICKS_PER_SECOND). assert (0 < T) by done.
  assert (total <= (total * T + paused * 1000) / T) by (apply Z.div_le_lower_bound; lia).
  set (q := _ / T) in *. set (r := _ mod T). destruct (2 * r <? T), (T <? 2 * r); try destruct (Z.even q); lia.
Qed.

Lemma kill_locked_left s0 why w :
  sees jobid s0 w →
  post (kill_locked E jobid why) (λ r w', (∃ s1, sees jobid s1 w' ∧ locked_left s0 why r s1 w')
    ∧ (sound → is_terminal s0 = false → 0 <= s0.(paused_seconds_total) → ∃ x, r = Ok x)) w.
Proof.
  intros Hs. unfold kill_locked. apply post_bind, (follow_read s0); [done|].
  assert (∀ e w' (Q : Prop), sees jobid s0 w' → (sound → is_terminal s0 = false → 0 <= s0.(paused_seconds_total) → Q) →
    (∃ s1, sees jobid s1 w' ∧ locked_left s0 why (Err e) s1 w')
    ∧ (sound → is_terminal s0 = false → 0 <= s0.(paused_seconds_total) → Q)) as Hsame.
  { intros e w' Q Hw' HQ. split; [by exists s0|done]. }
  destruct (is_terminal s0) eqn:Ht; [by apply Hsame|].
  apply post_bind, (follow_answer jobid). intros container w1 L1. pose proof (later_sees _ _ _ _ L1 Hs) as H1.
  destruct (container jobid).
  { apply post_bind, follow_log. intros w2 L2 He. split; [|by eauto].
    exists s0. split; [by eapply later_sees|by split_and!]. }
  case_bool_decide as Hp.
  - apply post_bind, (follow_answer jobid). intros now w2 L2. pose proof (later_sees _ _ _ _ L2 H1) as H2.
    apply post_bind, (follow_write E jobid). intros [[]|e] w3 _ Hok H3.
    + split; [|by eauto]. eexists. split; [done|]. split_and!; [done|apply killed_pending_as|done].
    + apply Hsame; [unfold sees; by rewrite H3|]. intros Hso. destruct (Hso (cw_tick w2)) as (Hc & Hwf & _).
      by specialize (Hok Hc Hwf).
  - apply post_bind, follow_kill_signals. intros [[sent den]|e] w2 L2 Hsig; pose proof (later_sees _ _ _ _ L2 H1) as H2.
    2: { apply Hsame; [done|]. intros Hso. destruct Hsig as (_ & n & Hn). destruct (Hso n). congruence. }
    apply post_bind, (follow_answer jobid). intros mono w3 L3. pose proof (later_sees _ _ _ _ L3 H2) as H3.
    apply post_bind, (follow_answer jobid). intros wall w4 L4. pose proof (later_sees _ _ _ _ L4 H3) as H4.
    apply post_bind, (follow_answer jobid). intros now w5 L5. pose proof (later_sees _ _ _ _ L5 H4) as H5.
    apply post_bind, post_lift. destruct (killed_active_spec _ _ _ _) as [k|e] eqn:Hk.
    2: { apply Hsame; [done|]. intros _ _ Htot. exfalso. revert Hk. unfold killed_active_spec, assign_paused_total.
         case_bool_decide; [|done]. pose proof (current_pause_nonneg mono wall s0) as Hcp.
         pose proof (add_pause_ge (paused_seconds_total s0) _ Hcp). destruct (Z.ltb_spec (add_pause (paused_seconds_total s0) (current_pause mono wall s0)) 0); [lia|done]. }
    apply post_bind, (follow_write E jobid). intros [[]|e] w6 Heff Hok H6.
    + split; [|by eauto]. exists k. split; [done|]. apply killed_active_facts in Hk as (? & ? & ? & ? & Hf & ?).
      split_and!; [done|done| |done|]; [split_and!; try done; by rewrite Hf; eexists|].
      assert (later jobid w2 w5) as L25 by (etransitivity; [exact L3|by transitivity w4]).
      intros Hsent. specialize (signals_later _ _ _ _ L25 Hsig Hsent). destruct (pgid s0); [naive_solver|].
      destruct (pid s0); auto.
    + apply Hsame; [unfold sees; by rewrite H6|]. intros Hso. destruct (Hso (cw_tick w5)) as (Hc & Hwf & _).
      by specialize (Hok Hc Hwf).
Qed.
End kill.

(** A kill that reports success is durable.  When [kill_job] answers, the
    row says KILLED with the formatted reason and an end time (or a managed
    container was asked to stop and the row is untouched); a pending job was
    reported as such; a signal it claims was sent to the job's group (after
    SIGCONT) or process; the scheduler's cancel was issued or is reported as
    failed or impossible.  When it raises, the row is as it was, or the
    process died after the durable KILLED.  A terminal row is never touched,
    and where nothing fails the kill of a live job answers. *)
Theorem kill_exact E jobid reason s0 w r w' :
  row_still E jobid → sees jobid s0 w → kill_job E jobid reason w = (r, w') →
  (∃ s1, sees jobid s1 w' ∧ kill_left jobid s0 (format_kill_failure_reason reason) r s1 w')
  ∧ (sound E → is_terminal s0 = false → 0 <= s0.(paused_seconds_total) → ∃ x, r = Ok x).
Proof.
  intros Hst Hs. revert r w'. set (why := format_kill_failure_reason reason).
  refine (λ r w', post_elim _ (λ r w', (∃ s1, sees jobid s1 w' ∧ kill_left jobid s0 why r s1 w')
    ∧ (sound E → is_terminal s0 = false → 0 <= s0.(paused_seconds_total) → ∃ x, r = Ok x)) w r w' _).
  unfold kill_job. apply post_bind, (follow_look E jobid Hst). intros w1 L1. pose proof (later_sees _ _ _ _ L1 Hs) as H1.
  split.
  2: { intros Hc. split; [exists s0; split; [exact H1|by left]|]. intros Hso. destruct (Hso (cw_tick w)). congruence. }
  rewrite (bool_decide_eq_true_2 (is_Some _)) by (unfold sees in H1; rewrite H1; by eexists). simpl.
  apply post_bind, (follow_lock E jobid Hst). intros [[]|e] w2 L2 Hok; pose proof (later_sees _ _ _ _ L2 H1) as H2.
  2: { split; [exists s0; split; [exact H2|by left]|]. intros Hso. destruct (Hso (cw_tick w1)) as (Hc & _ & Hb). by specialize (Hok Hc (or_intror Hb)). }
  apply post_bind. eapply post_mono, (kill_locked_left E jobid s0 why w2 H2).
  intros [[o k]|e] w3 [(s1 & H3 & Hl) Hfin]; simpl in Hl; [|split; [exists s1; split; [exact H3|by left]|]].
  2: { intros ???. destruct Hfin as [? [=]]; done. }
  destruct o as [| |sent den]; simpl; [split; [by exists s1|by eauto]| |].
  - destruct Hl as (Hp & Hk & ->). apply post_bind, (follow_cancel E jobid). intros [c|e] w4 L4 Hc; (split; [exists s1; split; [by eapply later_sees|]|]).
    + split_and!; [done|done|]. by eapply cancel_same.
    + by eauto.
    + right. split_and!; [by destruct Hc| |done]. unfold is_terminal. by rewrite Hp.
    + intros Hso. destruct Hc as (_ & n & Hn). destruct (Hso n). congruence.
  - destruct Hl as (Hl & Hp & Hk & -> & Hsig). apply post_bind, (follow_cancel E jobid). intros [c|e] w4 L4 Hc; (split; [exists s1; split; [by eapply later_sees|]|]).
    + split_and!; [done|done|done|by eapply cancel_same|by eapply signals_later].
    + by eauto.
    + right. split_and!; [by destruct Hc|done..].
    + intros Hso. destruct Hc as (_ & n & Hn). destruct (Hso n). congruence.
Qed.

(** ** A pause cycle *)

(** A pause is billed as long as it was.  Resuming at monotonic time [q] a
    job paused at [p], also one whose pause recovery finished, succeeds,
    clears every trace of the pause, and adds the interval to
    [paused_seconds_total] to within half a millisecond, never taking any
    time away. *)
Theorem pause_cycle_billed now p g by_ q now' s :
  0 <= s.(paused_seconds_total) → p <= q →
  ∃ r, resumed_spec q now' (finish_pause_from_intent (armed_spec now p g by_ s)) = Ok r
    ∧ r.(state) = RUNNING ∧ r.(paused_at) = None ∧ r.(paused_monotonic_at) = None ∧ r.(paused_by) = None
    ∧ r.(pause_intent_at) = None ∧ s.(paused_seconds_total) <= r.(paused_seconds_total)
    ∧ Z.abs (2 * (r.(paused_seconds_total) - s.(paused_seconds_total)) * TICKS_PER_SECOND - 2 * (q - p) * 1000)
      <= TICKS_PER_SECOND.
Proof.
  intros Ht Hpq. unfold resumed_spec, pause_interval, assign_paused_total. simpl.
  rewrite (Z.max_r 0 (q - p)) by lia. pose proof (add_pause_ge (paused_seconds_total s) (q - p)) as Hge.
  destruct (Z.ltb_spec (add_pause (paused_seconds_total s) (q - p)) 0); [lia|]. eexists. split; [done|].
  simpl. split_and!; [done..|lia|]. unfold add_pause. set (T := TICKS_PER_SECOND).
  pose proof (round_div_bounds (paused_seconds_total s * T + (q - p) * 1000) T ltac:(done)). lia.
Qed.
