(* ===== verification/SchedulerReap.v ===== *)
(** * Reaping scheduler jobs: [_reconcile_scheduler_pass] of [src/vq/daemon.py]

    The pass that polls the scheduler hosts: what an observation says of a
    job, the stamps on its row, the cancellation of killed jobs, the wait for
    the exit marker, the bounded fetch of the results and the verdict.  The
    observation of a host, reading markers and fetching are answers of the
    outside, made in the background or on the spot; the daemon is in
    single-user mode. *)

From S2P Require Import Control Prelude Spec Json BrokerRecord StartFence Dialect Admission DaemonCore Dispatch Launch Reap Recovery.

(** ** What the pass asks of the outside *)

(** [_SchedulerPollObservation]: the phases and details of one batch, and the
    dialect of the host that answered.  The batch was fixed when the poll
    began: it covers some of the jobs tracked now, and may hold jobs that are
    tracked no longer. *)
Record Observation : Type := MkObservation {
  ob_dialect : dialect;
  ob_covers : string → bool;
  ob_stale : list (string * SchedulerJob);
  ob_poll_error : bool;
  ob_accounting_error : bool;
  ob_phases : string → option SchedulerPhase;
  ob_explicitly_absent : string → bool;
  ob_details : string → option QstatDetail;
}.

(** A transfer of the results: under way, failed, or done. *)
Inductive fetch_answer : Type := FetchWaits | FetchFails | FetchDone.

Record SchedulerEnv : Type := MkSchedulerEnv {
  p_recovery : RecoveryEnv;
  p_reap : ReapEnv;
  (** the observation of a target the pass consumes; [None] while one is in
      flight or the host's cooldown runs *)
  p_observe : nat → string → option Observation;
  (** the poll itself raised *)
  p_poll_raises : nat → string → option daemon_error;
  (** by job: [exit_marker_code] ([None] raises), the transfer, whether its
      workers are busy, and the marker in the fetched workspace *)
  p_exit_marker : nat → string → option (option Z);
  p_fetch : nat → string → fetch_answer;
  p_fetch_busy : nat → string → bool;
  p_local_marker : nat → string → option Z;
  (** the walltimes recorded on the row, and those in a late diagnosis *)
  p_row_walltime : nat → string → option string * option string;
  p_diagnosed_walltime : nat → string → option string * option string;
}.

Definition SCHEDULER_STATUS_REFRESH : Z := 60 * TICKS_PER_SECOND.
Definition SCHEDULER_FINISHED_MARKER_GRACE : Z := 120 * TICKS_PER_SECOND.
Definition SCHEDULER_FETCH_FAILURE_LIMIT : Z := 3.

(** ** What an observation says of a job *)

Definition accounting_required_for_absent (d : dialect) : bool := match d with Slurm => true | Torque => false end.

(** [phase_from_detail], [abnormal_termination_from_detail] and
    [ended_on_its_own_from_detail]; a state is never only white space. *)
Definition phase_from_detail (d : dialect) (detail : QstatDetail) : res dialect_error (option SchedulerPhase) :=
  if String.eqb detail.(qd_raw_state) "" then Ok None
  else let? phase := phase_for_state d detail.(qd_raw_state) in Ok (Some phase).
Definition abnormal_from_detail (d : dialect) (detail : QstatDetail) : option string :=
  if String.eqb detail.(qd_raw_state) "" then None
  else match abnormal_termination d detail.(qd_raw_state) with Ok verdict => verdict | Err _ => None end.
Definition own_end_from_detail (d : dialect) (detail : QstatDetail) : bool :=
  if String.eqb detail.(qd_raw_state) "" then false
  else match ended_on_its_own d detail.(qd_raw_state) with Ok b => b | Err _ => false end.

(** The phase of a job in an observation; [None] when it stays unknown. *)
Definition observed_phase (ob : Observation) (job_id : string) : option SchedulerPhase :=
  let detail := ob.(ob_details) job_id in
  match opt_or (ob.(ob_phases) job_id) PhaseFinished with
  | PhaseFinished =>
    if accounting_required_for_absent ob.(ob_dialect) then
      match detail with
      | None => if ob.(ob_explicitly_absent) job_id then Some PhaseFinished else None
      | Some d =>
        if ob.(ob_accounting_error) then None
        else match phase_from_detail ob.(ob_dialect) d with Ok (Some phase) => Some phase | _ => None end
      end
    else
      match detail with
      | None => Some PhaseFinished
      | Some d => match phase_from_detail ob.(ob_dialect) d with
                  | Ok (Some phase) => Some phase
                  | _ => Some PhaseFinished
                  end
      end
  | phase => Some phase
  end.

(** [_SCHEDULER_ABNORMAL_END_STATES] *)
Definition abnormal_end_state (verdict : string) : JobState :=
  if String.eqb verdict "OUT_OF_MEMORY" then OOM_KILLED
  else if mem_str verdict ["TIMEOUT"; "DEADLINE"] then TIME_EXCEEDED
  else ABORTED_BY_QUEUE.

(** [_scheduler_abnormal_end_reason] *)
Definition abnormal_end_reason (verdict raw_state : string) (marker_rc : option Z) : string :=
  "scheduler accounting reports " +:+ verdict
  +:+ (if String.eqb raw_state verdict then "" else " (accounting state " +:+ py_repr raw_state +:+ ")")
  +:+ "; "
  +:+ match marker_rc with
      | None => "exit-marker missing"
      | Some rc => "exit-marker rc=" +:+ pretty rc
                   +:+ " recorded, but a marker cannot certify a run the scheduler terminated"
      end.

(** [_scheduler_walltime_pair], [_scheduler_walltime_exceeded]; [diagnosed]
    is what the late diagnosis says, if there was one. *)
Definition first_some {A} (a b : option A) : option A := match a with Some _ => a | None => b end.
Definition walltime_pair (detail : option QstatDetail) (row diagnosed : option string * option string)
    : option string * option string :=
  (first_some (first_some (detail ≫= qd_walltime_used) row.1) diagnosed.1,
   first_some (first_some (detail ≫= qd_walltime_limit) row.2) diagnosed.2).
Definition walltime_exceeded (pair : option string * option string) : bool :=
  match scheduler_hms_to_seconds pair.1, scheduler_hms_to_seconds pair.2 with
  | Some used, Some limit => negb (limit <=? 0) && (limit <=? used)
  | _, _ => false
  end.
(** [_scheduler_walltime_reason] *)
Definition walltime_reason (pair : option string * option string) (missing_marker : bool) : string :=
  let note := if missing_marker then "; exit-marker missing after final workspace fetch"
              else "; preserving recovered exit-marker" in
  match pair with
  | (Some used, Some limit) => "scheduler walltime limit reached (" +:+ used +:+ " >= " +:+ limit +:+ ")" +:+ note
  | _ => "scheduler walltime limit reached" +:+ note
  end.

(** ** Notes on a tracked job *)

(** The handle of a tracked job. *)
Definition handle (sj : SchedulerJob) : string * string * string :=
  (sj.(sj_scheduler_target), sj.(sj_job_id), sj.(sj_remote_workspace)).

Definition set_last_status_write (t : Z) (sj : SchedulerJob) : SchedulerJob :=
  MkSchedulerJob sj.(sj_scheduler_target) sj.(sj_job_id) sj.(sj_remote_workspace) sj.(sj_array_size)
    sj.(sj_term_qdeled) sj.(sj_allocation_finished) t sj.(sj_finished_without_marker_since)
    sj.(sj_fetch_failure_misses).
Definition set_allocation (finished : bool) (since : option Z) (sj : SchedulerJob) : SchedulerJob :=
  MkSchedulerJob sj.(sj_scheduler_target) sj.(sj_job_id) sj.(sj_remote_workspace) sj.(sj_array_size)
    sj.(sj_term_qdeled) finished sj.(sj_last_status_write) since sj.(sj_fetch_failure_misses).
Definition set_fetch_misses (n : Z) (sj : SchedulerJob) : SchedulerJob :=
  MkSchedulerJob sj.(sj_scheduler_target) sj.(sj_job_id) sj.(sj_remote_workspace) sj.(sj_array_size)
    sj.(sj_term_qdeled) sj.(sj_allocation_finished) sj.(sj_last_status_write)
    sj.(sj_finished_without_marker_since) n.

Section pass.
Context (P : SchedulerEnv) {X : Rerun}.
Let V : RecoveryEnv := P.(p_recovery).
Let E : LaunchEnv := V.(v_launch).
Let Q : QueueEnv := E.(l_queue).

(** An assignment to a field of the [_SchedulerJob]: the tracked object is the
    one with the same handle. *)
Definition note (jobid : string) (f : SchedulerJob → SchedulerJob) (sj : SchedulerJob) : DM SchedulerJob :=
  do? _ := update_daemon (λ d, set_scheduler_running
    (alter (λ cur, if bool_decide (handle cur = handle sj) then f cur else cur) jobid d.(scheduler_running)) d) in
  ret (f sj).

(** ** Stamps *)

(** A row that has not ended is rewritten and the time of the write noted. *)
Definition stamp (jobid : string) (f : JobSpec → JobSpec) (needs_target : bool) (now : Z) (sj : SchedulerJob)
    : DM SchedulerJob :=
  do? written := with_row Q jobid (λ row,
    match row with
    | Err _ => (false, None)
    | Ok fresh =>
      if is_terminal fresh || (needs_target && bool_decide (fresh.(scheduler_target) = None)) then (false, None)
      else (true, Some (f fresh))
    end) in
  if written : bool then note jobid (set_last_status_write now) sj else ret sj.

(** Unchanged and written recently. *)
Definition recently (label : string) (spec : JobSpec) (now : Z) (sj : SchedulerJob) : bool :=
  bool_decide (spec.(scheduler_state) = Some label) && (now - sj.(sj_last_status_write) <? SCHEDULER_STATUS_REFRESH).

(** [_stamp_scheduler_finishing], [_stamp_scheduler_fetch_failed],
    [_stamp_scheduler_marker_probe_failed] *)
Definition stamp_label (label jobid : string) (spec : JobSpec) (sj : SchedulerJob) : DM SchedulerJob :=
  do? now := ask E.(l_monotonic) in
  if recently label spec now sj then ret sj
  else
    do? utc := ask E.(l_utcnow) in
    stamp jobid (λ fresh, heartbeat utc (set_scheduler_state (Some label) fresh)) false now sj.

(** [_stamp_scheduler_poll_succeeded]; the poll times are not part of the row here. *)
Definition stamp_poll_succeeded (jobid : string) : DM unit :=
  with_row Q jobid (λ row,
    match row with
    | Err _ => (tt, None)
    | Ok fresh =>
      if is_terminal fresh || bool_decide (fresh.(scheduler_target) = None) then (tt, None) else (tt, Some fresh)
    end).

(** [_stamp_scheduler_poll_failed] *)
Definition stamp_poll_failed (jobid : string) (sj : SchedulerJob) : DM SchedulerJob :=
  do? now := ask E.(l_monotonic) in
  stamp jobid (λ fresh, if scheduler_state_in fresh SCHEDULER_COLLECTION_PHASES then fresh
                        else set_scheduler_state (Some "poll_failed") fresh) true now sj.

(** [_stamp_scheduler_status] *)
Definition status_label (phase : SchedulerPhase) (detail : option QstatDetail) : string :=
  if match detail with Some d => String.eqb d.(qd_raw_state) "H" | None => false end then "held"
  else match phase with PhaseRunning => "running" | _ => "queued" end.
Definition status_row (label : string) (utc : Z) (fresh : JobSpec) : JobSpec :=
  let fresh := heartbeat utc (set_scheduler_state (Some label) fresh) in
  if String.eqb label "running" && bool_decide (fresh.(scheduler_started_at) = None)
  then set_scheduler_started_at (Some (Aware utc)) fresh else fresh.
Definition stamp_status (jobid : string) (spec : JobSpec) (phase : SchedulerPhase) (detail : option QstatDetail)
    (sj : SchedulerJob) : DM SchedulerJob :=
  let label := status_label phase detail in
  do? now := ask E.(l_monotonic) in
  if recently label spec now sj then ret sj
  else do? utc := ask E.(l_utcnow) in stamp jobid (status_row label utc) false now sj.

(** [_stamp_scheduler_artifacts_unavailable] *)
Definition stamp_artifacts_unavailable (jobid : string) : DM unit :=
  do? utc := ask E.(l_utcnow) in
  catch (with_row Q jobid (λ row,
    match row with
    | Err _ => (tt, None)
    | Ok fresh =>
      if is_terminal fresh then (tt, None)
      else (tt, Some (heartbeat utc (set_scheduler_state (Some "artifacts_unavailable") fresh)))
    end)) (λ e, bool_decide (e = DOSError)) (λ _, ret tt).

(** ** Evidence that came late *)

(** [_imported_scheduler_evidence_conflicts] *)
Definition park_conflict (spec : JobSpec) (reason : string) : DM bool :=
  do? _ := mark_submit_unknown E CONFLICT spec reason in
  do? _ := untrack spec.(id) in
  ret true.

Definition imported_conflicts (spec : JobSpec) (sj : SchedulerJob) : DM bool :=
  do? imported := ask (λ n, V.(v_imported) n spec) in
  match imported with
  | None => park_conflict spec "stored operator evidence cannot be verified"
  | Some None => ret false
  | Some imported =>
    do? receipt := ask (λ n, V.(v_receipt) n spec.(id) sj.(sj_remote_workspace)) in
    do? marker := ask (λ n, V.(v_recorded) n spec.(id) sj.(sj_remote_workspace)) in
    if ids_conflict (omap (λ o, o) [imported; Some sj.(sj_job_id); marker; receipt_job_id receipt])
    then park_conflict spec "late scheduler acceptance conflicts with imported operator evidence"
    else ret false
  end.

(** ** Verdicts *)

(** A row that has not ended takes the verdict. *)
Definition mark_ended (jobid : string) (f : Z → JobSpec → JobSpec) : DM unit :=
  do? utc := ask E.(l_utcnow) in
  with_row Q jobid (λ row,
    match row with
    | Err _ => (tt, None)
    | Ok fresh => if is_terminal fresh then (tt, None) else (tt, Some (f utc fresh))
    end).

Definition ended_row (st : JobState) (reason : string) (utc : Z) (fresh : JobSpec) : JobSpec :=
  set_failure_reason (Some reason) (set_finished_at (Some (Aware utc)) (set_state st fresh)).

Definition with_tail (tail : JobSpec → option string) (fresh : JobSpec) : JobSpec :=
  match fresh.(failure_tail) with
  | Some _ => fresh
  | None => match tail fresh with Some t => set_failure_tail (Some t) fresh | None => fresh end
  end.

(** [_mark_aborted_by_queue] *)
Definition mark_aborted_by_queue (jobid reason : string) : DM unit :=
  mark_ended jobid (ended_row ABORTED_BY_QUEUE reason).

(** [_mark_scheduler_time_exceeded] *)
Definition mark_time_exceeded (jobid reason : string) : DM unit :=
  do? tail := ask P.(p_reap).(r_stderr_tail) in
  mark_ended jobid (λ utc fresh, with_tail tail (ended_row TIME_EXCEEDED reason utc fresh)).

(** [_mark_scheduler_abnormal_end] *)
Definition mark_abnormal_end (jobid verdict raw_state : string) (marker_rc : option Z) : DM unit :=
  do? tail := ask P.(p_reap).(r_stderr_tail) in
  mark_ended jobid (λ utc fresh,
    with_tail tail (set_scheduler_state (Some (lower verdict))
      (ended_row (abnormal_end_state verdict) (abnormal_end_reason verdict raw_state marker_rc) utc fresh))).

(** [_honor_scheduler_end_over_late_kill] *)
Definition late_kill (s : JobSpec) : bool :=
  bool_decide (s.(state) = KILLED) && startswith (opt_or s.(failure_reason) "") DEFAULT_KILL_REASON.
Definition own_end_row (rc : Z) (s : JobSpec) : JobSpec :=
  set_failure_reason
    (if rc =? 0 then None
     else Some ("exit code " +:+ pretty rc
                +:+ "; the scheduler had finished the job before the kill request took effect"))
    (set_exit_code (Some rc) (set_state (if rc =? 0 then COMPLETED else FAILED) s)).
Definition honor_own_end (jobid : string) (d : dialect) (detail : QstatDetail) (rc : Z) : DM unit :=
  if negb (own_end_from_detail d detail) then ret tt
  else
    do? out := with_row Q jobid (λ row,
      match row with
      | Err e => (Some e, None)
      | Ok s => (None, if late_kill s then Some (own_end_row rc s) else None)
      end) in
    match out with Some e => throw e | None => ret tt end.

(** [_record_finish] for a scheduler job: it has no process group and no
    container here. *)
Definition record_scheduler_finish (jobid : string) (rc : Z) : DM unit :=
  do? now := ask E.(l_utcnow) in
  do? repaired := ask P.(p_reap).(r_claim_repaired) in
  do? tail := ask P.(p_reap).(r_stderr_tail) in
  let i := MkFinishInputs now 0 (λ _, false) None repaired tail in
  do? out := with_row Q jobid (finish_locked P.(p_reap) i jobid (MkHolder 0 None [] None false false) rc) in
  match out with
  | FinishUnreadable e => throw e
  | Finished s => spawn_rerun s
  | _ => ret tt
  end.

(** ** Fetching *)

Inductive fetch_outcome : Type := FETCHED | RETRY | UNAVAILABLE.

(** [_fetch_scheduler_results]: at the third failure in a row the job goes on
    without its results. *)
Definition fetch_scheduler_results (jobid : string) (spec : JobSpec) (sj : SchedulerJob)
    : DM (fetch_outcome * SchedulerJob) :=
  do? answer := ask (λ n, P.(p_fetch) n jobid) in
  match answer with
  | FetchWaits => ret (RETRY, sj)
  | FetchDone => do? sj := note jobid (set_fetch_misses 0) sj in ret (FETCHED, sj)
  | FetchFails =>
    let misses := sj.(sj_fetch_failure_misses) + 1 in
    do? sj := note jobid (set_fetch_misses misses) sj in
    if misses <? SCHEDULER_FETCH_FAILURE_LIMIT
    then do? sj := stamp_label "fetch_failed" jobid spec sj in ret (RETRY, sj)
    else do? _ := stamp_artifacts_unavailable jobid in ret (UNAVAILABLE, sj)
  end.

(** ** One job *)

(** The verdict by an exit code [rc]: [marker_rc] is the marker's, if it is
    the source; accounting comes first. *)
Definition settle_by_code (ob : Observation) (jobid : string) (detail : option QstatDetail) (rc : Z)
    (marker_rc : option Z) (late_kills : bool) : DM unit :=
  do? _ := (match detail with
            | None => ret tt
            | Some d =>
              match abnormal_from_detail ob.(ob_dialect) d with
              | Some verdict => mark_abnormal_end jobid verdict d.(qd_raw_state) marker_rc
              | None => if late_kills then honor_own_end jobid ob.(ob_dialect) d rc else ret tt
              end
            end) in
  record_scheduler_finish jobid rc.

(** Finished, and no exit marker is visible: whether the job is done with. *)
Definition reap_without_marker (ob : Observation) (jobid : string) (spec : JobSpec) (detail : option QstatDetail)
    (sj : SchedulerJob) : DM bool :=
  if is_terminal spec then ret true
  else
    do? now := ask E.(l_monotonic) in
    let since := opt_or sj.(sj_finished_without_marker_since) now in
    do? sj := note jobid (λ sj, set_allocation sj.(sj_allocation_finished) (Some since) sj) sj in
    do? sj := stamp_label "finishing" jobid spec sj in
    if now - since <? SCHEDULER_FINISHED_MARKER_GRACE then ret false
    else
      do? fetched := fetch_scheduler_results jobid spec sj in
      match fetched.1 with
      | RETRY => ret false
      | _ =>
        do? local := ask (λ n, P.(p_local_marker) n jobid) in
        match local with
        | Some rc => do? _ := settle_by_code ob jobid detail rc (Some rc) false in ret true
        | None =>
          let accounting_rc := if accounting_required_for_absent ob.(ob_dialect)
                               then detail ≫= qd_exit_code else None in
          do? row := ask (λ n, P.(p_row_walltime) n jobid) in
          do? diagnosed := ask (λ n, P.(p_diagnosed_walltime) n jobid) in
          let pair := walltime_pair detail row diagnosed in
          do? _ := (if walltime_exceeded pair then
                      do? _ := mark_time_exceeded jobid (walltime_reason pair true) in
                      match accounting_rc with Some rc => record_scheduler_finish jobid rc | None => ret tt end
                    else
                      match accounting_rc with
                      | Some rc => settle_by_code ob jobid detail rc None true
                      | None =>
                        mark_aborted_by_queue jobid
                          "scheduler job finished without an exit-marker after 120s marker-visibility grace and final workspace fetch"
                      end) in
          ret true
        end
      end.

(** Finished, with the exit code [rc] in the marker. *)
Definition reap_with_marker (ob : Observation) (jobid : string) (spec : JobSpec) (detail : option QstatDetail)
    (rc : Z) (sj : SchedulerJob) : DM bool :=
  do? fetched := fetch_scheduler_results jobid spec sj in
  let (outcome, sj) := fetched : fetch_outcome * SchedulerJob in
  match outcome with
  | RETRY => ret false
  | _ =>
    do? _ := (match outcome with
              | FETCHED =>
                if scheduler_state_in spec ["fetch_failed"; "marker_probe_failed"; "poll_failed"]
                then do? _ := stamp_label "finishing" jobid spec sj in ret tt else ret tt
              | _ => ret tt
              end) in
    do? row := ask (λ n, P.(p_row_walltime) n jobid) in
    let pair := walltime_pair detail row (None, None) in
    do? _ := (if walltime_exceeded pair then mark_time_exceeded jobid (walltime_reason pair false) else ret tt) in
    do? _ := settle_by_code ob jobid detail rc (Some rc) true in
    ret true
  end.

(** The allocation is finished. *)
Definition reap_finished (ob : Observation) (jobid : string) (spec : JobSpec) (sj : SchedulerJob) : DM bool :=
  let detail := ob.(ob_details) sj.(sj_job_id) in
  do? sj := note jobid (λ sj, set_allocation true sj.(sj_finished_without_marker_since) sj) sj in
  do? sj := (if scheduler_state_in spec ["fetch_failed"; "marker_probe_failed"; "artifacts_unavailable"]
             then ret sj else stamp_label "finishing" jobid spec sj) in
  do? busy := ask (λ n, P.(p_fetch_busy) n jobid) in
  if busy : bool then ret false
  else
    do? marker := ask (λ n, P.(p_exit_marker) n jobid) in
    match marker with
    | None => do? _ := stamp_label "marker_probe_failed" jobid spec sj in ret false
    | Some None => reap_without_marker ob jobid spec detail sj
    | Some (Some rc) => reap_with_marker ob jobid spec detail rc sj
    end.

(** A row that ended while its allocation may be live is owned and cancelled;
    [None] leaves the job to the next pass. *)
Definition cancel_ended (jobid : string) (spec : JobSpec) (sj : SchedulerJob) : DM (option (JobSpec * SchedulerJob)) :=
  if is_terminal spec && negb sj.(sj_term_qdeled) then
    do? owned := own_for_cancel V jobid sj.(sj_job_id) in
    match owned with
    | None => ret None
    | Some fresh =>
      do? cancelled := ask (λ n, V.(v_cancel) n sj) in
      if negb cancelled then ret None
      else do? sj := note jobid set_term_qdeled sj in ret (Some (fresh, sj))
    end
  else ret (Some (spec, sj)).

(** The body of the loop: whether the job leaves the tracking. *)
Definition reconcile_scheduler_job (ob : Observation) (jobid : string) (sj : SchedulerJob) : DM bool :=
  do? row := try_read V jobid in
  match row with
  | None => ret false
  | Some spec =>
    do? conflict := imported_conflicts spec sj in
    if conflict : bool then ret false
    else
      do? owned := cancel_ended jobid spec sj in
      match owned with
      | None => ret false
      | Some (spec, sj) =>
        match observed_phase ob sj.(sj_job_id) with
        | None => do? _ := stamp_poll_failed jobid sj in ret false
        | Some phase =>
          do? _ := stamp_poll_succeeded jobid in
          match phase with
          | PhaseFinished => reap_finished ob jobid spec sj
          | _ =>
            do? sj := note jobid (set_allocation false None) sj in
            do? _ := stamp_status jobid spec phase (ob.(ob_details) sj.(sj_job_id)) sj in
            ret false
          end
        end
      end
  end.

(** ** The pass *)

Definition reconcile_jobs (ob : Observation) : list string → list (string * SchedulerJob) → DM (list string) :=
  foldM (λ finished jr,
    if ob.(ob_poll_error) then do? _ := stamp_poll_failed jr.1 jr.2 in ret finished
    else do? gone := reconcile_scheduler_job ob jr.1 jr.2 in ret (if gone : bool then finished ++ [jr.1] else finished)).

(** The jobs of the batch, in [items] the jobs tracked when the pass began. *)
Definition batch (items : list (string * SchedulerJob)) (target : string) (ob : Observation)
    : list (string * SchedulerJob) :=
  List.filter (λ jr, String.eqb jr.2.(sj_scheduler_target) target && ob.(ob_covers) jr.1) items
  ++ List.filter (λ jr, String.eqb jr.2.(sj_scheduler_target) target) ob.(ob_stale).

(** One target. *)
Definition reconcile_target (items : list (string * SchedulerJob)) (finished : list string) (target : string)
    : DM (list string) :=
  do? raised := ask (λ n, P.(p_poll_raises) n target) in
  do? observation := ask (λ n, P.(p_observe) n target) in
  match raised, observation with
  | Some e, _ => throw e
  | None, None => ret finished
  | None, Some ob => reconcile_jobs ob finished (batch items target ob)
  end.

(** [list(by_target)] *)
Fixpoint targets_of (seen : list string) (items : list (string * SchedulerJob)) : list string :=
  match items with
  | [] => []
  | jr :: items =>
    let target := jr.2.(sj_scheduler_target) in
    if mem_str target seen then targets_of seen items else target :: targets_of (target :: seen) items
  end.

Definition vq_reconcile_scheduler : DM unit :=
  do? d := get_daemon in
  let items := map_to_list d.(scheduler_running) in
  do? finished := foldM (reconcile_target items) [] (targets_of [] items) in
  update_daemon (λ d, set_scheduler_running (foldr delete d.(scheduler_running) finished) d).
End pass.
