(* ===== verification/SchedulerReapLogic.v ===== *)
(** * What the scheduler pass may do to a row

    The steps the pass may take on the row of a tracked job, each with the
    evidence it needs; the relation between the worlds before and after, which
    is such steps between the changes of the other processes; and the rules by
    which the parts of the pass are shown to stay within it. *)

From S2P Require Import Control Prelude Spec Json BrokerRecord StartFence Dialect Admission DaemonCore Dispatch DaemonLogic DispatchSafety Launch Reap LaunchSafety Recovery RecoveryLogic RecoveryGuarantees SchedulerReap.

(** ** Evidence *)

Section evidence.
Context (P : SchedulerEnv) (jobid : string) (sj : SchedulerJob) (ob : Observation).
Let detail : option QstatDetail := ob.(ob_details) sj.(sj_job_id).

(** The host answered, and the allocation is finished. *)
Definition finished_in : Prop :=
  ob.(ob_poll_error) = false ∧ observed_phase ob sj.(sj_job_id) = Some PhaseFinished.

(** Accounting says that the scheduler ended the job, or that it ended itself. *)
Definition abnormal_in : option string := detail ≫= abnormal_from_detail ob.(ob_dialect).
Definition own_end_in : Prop := ∃ d, detail = Some d ∧ own_end_from_detail ob.(ob_dialect) d = true.

(** The marker has been looked for in vain since the job was first seen
    without it, for the whole grace. *)
Definition waited : Prop :=
  (∃ n, P.(p_exit_marker) n jobid = Some None)
  ∧ ∃ t n, sj.(sj_finished_without_marker_since) = Some t
      ∧ SCHEDULER_FINISHED_MARKER_GRACE <= P.(p_recovery).(v_launch).(l_monotonic) n - t.

(** Where an exit code comes from: the marker, and after the wait the fetched
    marker or accounting. *)
Inductive exit_source : Z → Prop :=
| es_marker n rc : P.(p_exit_marker) n jobid = Some (Some rc) → exit_source rc
| es_fetched n rc : waited → P.(p_local_marker) n jobid = Some rc → exit_source rc
| es_accounting rc : waited → accounting_required_for_absent ob.(ob_dialect) = true → detail ≫= qd_exit_code = Some rc →
    exit_source rc.

Definition walltime_over : Prop :=
  ∃ n diagnosed, (diagnosed = (None, None) ∨ ∃ m, diagnosed = P.(p_diagnosed_walltime) m jobid)
    ∧ walltime_exceeded (walltime_pair detail (P.(p_row_walltime) n jobid) diagnosed) = true.

(** The verdicts that are not the job's own. *)
Inductive stopped : JobState → Prop :=
| st_walltime : walltime_over → stopped TIME_EXCEEDED
| st_abnormal verdict : abnormal_in = Some verdict → stopped (abnormal_end_state verdict)
| st_lost n : waited → P.(p_local_marker) n jobid = None →
    (accounting_required_for_absent ob.(ob_dialect) = true → detail ≫= qd_exit_code = None) → stopped ABORTED_BY_QUEUE.

(** ** Steps *)

(** A row is labelled; parked on contradictory evidence; ended by its exit
    code, or tried again; stopped; or, killed too late, given its own end. *)
Inductive row_step (s s' : JobSpec) : Prop :=
| rs_note :
    s'.(state) = s.(state) → (is_terminal s = true → verdict_kept s s') → row_step s s'
| rs_park n spec :
    is_terminal s = false → P.(p_recovery).(v_imported) n spec ≠ Some None → spec.(id) = jobid →
    s'.(state) = SUBMIT_OUTCOME_UNKNOWN → row_step s s'
| rs_exit rc :
    is_terminal s = false → finished_in → exit_source rc → abnormal_in = None →
    s'.(state) = (if rc =? 0 then COMPLETED else FAILED) → s'.(exit_code) = Some rc → row_step s s'
| rs_retry rc :
    is_terminal s = false → finished_in → exit_source rc → abnormal_in = None → rc ≠ 0 →
    s.(retry_count) < s.(retry_max) → s'.(retry_count) = s.(retry_count) + 1 → s'.(state) = PENDING → row_step s s'
| rs_stop :
    is_terminal s = false → finished_in → stopped s'.(state) → row_step s s'
| rs_late_kill rc :
    late_kill s = true → finished_in → exit_source rc → abnormal_in = None → own_end_in → s' = own_end_row rc s →
    row_step s s'.

Record row_write (s s' : JobSpec) : Prop := {
  ww_step : row_step s s';
  ww_id : s'.(id) = s.(id);
  ww_request : request_of s' = request_of s;
}.
End evidence.

(** The other processes replace rows, they do not tear them. *)
Definition rows_stay (Q : QueueEnv) : Prop :=
  ∀ n q j s, q !! j = Some (Some s) → ∃ s', Q.(q_interfere) n q !! j = Some (Some s').

(** A rerun adds a job under a new id. *)
Inductive rerun_step (Q : QueueEnv) (q : queue_dir) : queue_dir → Prop :=
| rr_other n : rerun_step Q q (Q.(q_interfere) n q)
| rr_new j s : q !! j = None → rerun_step Q q (<[j := Some s]> q).

Class RerunFresh (R : string → request) (Q : QueueEnv) (X : Rerun) : Prop := {
  spawn_rerun_fresh s w :
    good R s.(id) s → honest R w.(dw_queue) →
    wp (spawn_rerun s) (λ _ w', rtc (rerun_step Q) w.(dw_queue) w'.(dw_queue) ∧ honest R w'.(dw_queue)
      ∧ released R w w' ∧ w'.(dw_daemon).(scheduler_running) = w.(dw_daemon).(scheduler_running)) w;
}.

(** A job the pass looks after on an observation: tracked when the pass began,
    or when the poll did. *)
Definition batched (T : gmap string SchedulerJob) (ob : Observation) (jobid : string) (sj : SchedulerJob) : Prop :=
  T !! jobid = Some sj ∨ (jobid, sj) ∈ ob.(ob_stale).

(** One change of the queue during a pass that began with the jobs [T]. *)
Inductive pass_step (P : SchedulerEnv) (T : gmap string SchedulerJob) (q : queue_dir) : queue_dir → Prop :=
| ps_rerun q' : rerun_step P.(p_recovery).(v_launch).(l_queue) q q' → pass_step P T q q'
| ps_write jobid sj ob s s' n :
    q !! jobid = Some (Some s) → batched T ob jobid sj → P.(p_observe) n sj.(sj_scheduler_target) = Some ob →
    row_write P jobid sj ob s s' → pass_step P T q (<[jobid := Some s']> q).

Section worlds.
Context (R : string → request) (P : SchedulerEnv) (T : gmap string SchedulerJob).
Let E : LaunchEnv := P.(p_recovery).(v_launch).
Let Q : QueueEnv := E.(l_queue).

Record passes (w w' : dworld) : Prop := {
  pa_queue : rtc (pass_step P T) w.(dw_queue) w'.(dw_queue);
  pa_handles j sj' : w'.(dw_daemon).(scheduler_running) !! j = Some sj' →
    ∃ sj, w.(dw_daemon).(scheduler_running) !! j = Some sj ∧ handle sj' = handle sj;
  pa_released : released R w w';
}.

#[export] Instance passes_preorder : PreOrder passes.
Proof.
  split; [intros w; split; [apply rtc_refl|by eauto|reflexivity]|].
  intros w1 w2 w3 [q1 h1 r1] [q2 h2 r2]. split; [by etransitivity| |by etransitivity].
  intros j sj (sj2 & Hj & E2)%h2. destruct (h1 j sj2 Hj) as (sj1 & ? & ?). exists sj1. split; [done|congruence].
Qed.

Definition passing {A} : (dworld → Prop) → DM A → (A → dworld → Prop) → Prop := triple R passes.

Abbreviation any := (λ _ : dworld, True).

(** What is known of a row: that it can be read, and that it has ended. *)
Definition present (jobid : string) (w : dworld) : Prop := ∃ s, w.(dw_queue) !! jobid = Some (Some s).
Definition ended (jobid : string) (w : dworld) : Prop :=
  ∃ s, w.(dw_queue) !! jobid = Some (Some s) ∧ is_terminal s = true.

Context (HQ : queue_ok R (λ _, True) Q) (Hstay : rows_stay Q).

Lemma terminal_step jobid sj ob s s' : row_step P jobid sj ob s s' → is_terminal s = true → is_terminal s' = true.
Proof.
  intros Hs Ht. destruct Hs as [Hst _| | | | |rc _ _ _ _ _ ->]; try congruence.
  - by rewrite (is_terminal_state s s').
  - unfold own_end_row, is_terminal. simpl. by destruct (rc =? 0).
Qed.

Lemma present_step jobid q q' :
  pass_step P T q q' → (∃ s, q !! jobid = Some (Some s)) → ∃ s, q' !! jobid = Some (Some s).
Proof.
  intros Hs [s Hq]. destruct Hs as [q' [n|j s' Hj]|j sj ob s0 s' n Hj _ _ _]; [by eapply Hstay|..].
  - exists s. rewrite lookup_insert_ne; [done|]. intros ->. congruence.
  - destruct (decide (j = jobid)) as [->|]; [exists s'; apply lookup_insert_eq|exists s; by rewrite lookup_insert_ne].
Qed.

Lemma ended_step jobid q q' :
  pass_step P T q q' → (∃ s, q !! jobid = Some (Some s) ∧ is_terminal s = true) →
  ∃ s, q' !! jobid = Some (Some s) ∧ is_terminal s = true.
Proof.
  intros Hs (s & Hq & Ht). destruct Hs as [q' [n|j s' Hj]|j sj ob s0 s' n Hj _ _ [Hw _ _]].
  - destruct (qo_kept _ _ _ HQ n q jobid s I Hq Ht) as (s' & Hq' & Hst & _). exists s'.
    split; [done|]. by rewrite (is_terminal_state s s').
  - exists s. rewrite lookup_insert_ne; [done|]. intros ->. congruence.
  - destruct (decide (j = jobid)) as [->|]; [|exists s; by rewrite lookup_insert_ne].
    exists s'. rewrite lookup_insert_eq. split; [done|]. rewrite Hj in Hq. injection Hq as ->. by eapply terminal_step.
Qed.

Lemma present_stable jobid w w' : passes w w' → present jobid w → present jobid w'.
Proof. intros [Hq _ _]. unfold present. induction Hq as [|q q1 q2 Hs _ IH]; [done|]. intros. by apply IH, (present_step _ q). Qed.

Lemma ended_stable jobid w w' : passes w w' → ended jobid w → ended jobid w'.
Proof. intros [Hq _ _]. unfold ended. induction Hq as [|q q1 q2 Hs _ IH]; [done|]. intros. by apply IH, (ended_step _ q). Qed.

(** ** Rules *)

Lemma passes_tick w : passes w (MkDWorld w.(dw_daemon) w.(dw_queue) (S w.(dw_tick)) w.(dw_trace) w.(dw_seen)).
Proof. split; simpl; [apply rtc_refl|by eauto|by split]. Qed.

Lemma passing_ask {A} (f : nat → A) Pre : passing Pre (ask f) (λ a _, ∃ n, a = f n).
Proof. intros w Hh _. unfold wp. simpl. split_and!; [apply passes_tick|done|]. intros a [= <-]. by eexists. Qed.

Lemma passing_note jobid f sj0 Pre :
  (∀ sj, handle (f sj) = handle sj) → passing Pre (note jobid f sj0) (λ sj' _, sj' = f sj0).
Proof.
  intros Hf w Hh _. unfold note, wp. simpl. split_and!; [|done|by intros ? [= <-]].
  split; simpl; [apply rtc_refl| |by split]. intros j sj'. destruct (decide (jobid = j)) as [->|Hj].
  - rewrite lookup_alter_eq. intros (sj1 & ? & ->)%fmap_Some. exists sj1. split; [done|]. by case_bool_decide.
  - rewrite lookup_alter_ne by done. by eauto.
Qed.

(** An access that reads, and perhaps rewrites, the row of a tracked job. *)
Context (jobid : string) (sj : SchedulerJob) (ob : Observation) (n0 : nat).
Context (HT : batched T ob jobid sj) (Hob : P.(p_observe) n0 sj.(sj_scheduler_target) = Some ob).

Lemma passes_access w q' :
  rtc (pass_step P T) (Q.(q_interfere) w.(dw_tick) w.(dw_queue)) q' →
  (honest R w.(dw_queue) → honest R q') →
  passes w (MkDWorld w.(dw_daemon) q' (S w.(dw_tick)) w.(dw_trace)
              (w.(dw_seen) ++ [Q.(q_interfere) w.(dw_tick) w.(dw_queue)])).
Proof.
  intros Hs Hh. split; simpl; [|by eauto|].
  - eapply rtc_l; [apply ps_rerun, (rr_other _ _ (dw_tick w))|done].
  - split; simpl; [done..|by eexists|done].
Qed.

Lemma passing_row {A} (Pre : dworld → Prop) (known : JobSpec → Prop) (body : res daemon_error JobSpec → A * option JobSpec) :
  (∀ w n s, Pre w → Q.(q_interfere) n w.(dw_queue) !! jobid = Some (Some s) → known s) →
  (∀ s s', known s → good R jobid s → (body (Ok s)).2 = Some s' → row_write P jobid sj ob s s') →
  (∀ e, (body (Err e)).2 = None) →
  passing Pre (with_row Q jobid body) (λ a w', ∃ row, a = (body row).1
    ∧ (∀ s, row = Ok s → good R jobid s ∧ known s ∧ w'.(dw_queue) !! jobid = Some (Some (opt_or (body row).2 s)))
    ∧ (∀ e, row = Err e → ¬ present jobid w')).
Proof.
  intros Hk Hw He w Hh Hp. unfold wp, with_row, access. set (q := q_interfere _ _ _).
  assert (honest R q) as Hq by by apply (qo_honest _ _ _ HQ).
  assert (∀ s, q !! jobid = Some (Some s) → good R jobid s ∧ known s) as Hrow.
  { intros s Hs. split; [by apply Hq|by apply (Hk w (dw_tick w))]. }
  destruct (body (read_spec q jobid)) as [a [s'|]] eqn:Eb.
  - destruct (q_write_fails _ _); simpl.
    { split_and!; [by apply passes_access; [apply rtc_refl|]|done|done]. }
    destruct (read_spec q jobid) as [s|e] eqn:Er; [|specialize (He e); by rewrite Eb in He].
    assert (q !! jobid = Some (Some s)) as Hs.
    { unfold read_spec in Er. destruct (q !! jobid) as [[s0|]|]; by simplify_eq. }
    destruct (Hrow s Hs) as [[Hi Hr] Hkn].
    assert (row_write P jobid sj ob s s') as Hs' by (apply Hw; [done|done|by rewrite Eb]).
    assert (honest R (<[jobid := Some s']> q)) as Hq' by (destruct Hs'; apply honest_insert; [done|congruence..]).
    split_and!; [|done|].
    + apply passes_access; [|done]. by apply rtc_once, (ps_write _ _ _ jobid sj ob s s' n0).
    + intros ? [= <-]. exists (Ok s). rewrite Eb. simpl. split_and!; [done| |done]. intros ? [= <-].
      by rewrite lookup_insert_eq.
  - simpl. split_and!; [by apply passes_access; [apply rtc_refl|]|done|]. intros ? [= <-]. exists (read_spec q jobid).
    rewrite Eb. simpl. split_and!; [done|..]; unfold read_spec, present; simpl.
    + intros s Hs. destruct (q !! jobid) as [[s0|]|] eqn:Eq; [|done..]. injection Hs as ->. by destruct (Hrow s).
    + intros e Hs [s Hq']. by rewrite Hq' in Hs.
Qed.
End worlds.
