(* ===== verification/SchedulerReapGuarantees.v ===== *)
(** * What the scheduler pass guarantees

    Whatever the other processes do meanwhile and whichever write fails, the
    pass takes only steps its evidence justifies: a job ends by its own exit
    code, by the scheduler's verdict or after the wait for its marker, and
    only once its allocation is finished; a verdict is taken back only from a
    kill that came too late. *)

From S2P Require Import Control Prelude Spec Json BrokerRecord StartFence Dialect Admission DaemonCore Dispatch DaemonLogic DispatchSafety Launch Reap LaunchSafety Recovery RecoveryLogic RecoveryGuarantees SchedulerReap SchedulerReapLogic.

Section job.
Context (R : string → request) (P : SchedulerEnv) (T : gmap string SchedulerJob).
Let V : RecoveryEnv := P.(p_recovery).
Let E : LaunchEnv := V.(v_launch).
Let Q : QueueEnv := E.(l_queue).
Context (HQ : queue_ok R (λ _, True) Q) (Hstay : rows_stay Q).
Context {X : Rerun} {HX : RerunFresh R Q X}.
Context (jobid : string) (sj : SchedulerJob) (ob : Observation) (n0 : nat).
Context (HT : batched T ob jobid sj) (Hob : P.(p_observe) n0 sj.(sj_scheduler_target) = Some ob).

Abbreviation passing := (passing R P T).
Abbreviation any := (λ _ : dworld, True).
Abbreviation there := (present jobid).
Abbreviation writes := (row_write P jobid sj ob).
(** [m], on a row that can be read, returns a [Post] value. *)
Abbreviation runs m Post := (passing there m (λ a _, Post a)).

(** ** Rules *)

Lemma runs_ret {A} (a : A) (Post : A → Prop) : Post a → runs (ret a) Post.
Proof. intros Ha. apply triple_ret; [exact _|done]. Qed.

Lemma runs_bind {A B} (m : DM A) (k : A → DM B) (Mid : A → Prop) (Post : B → Prop) :
  runs m Mid → (∀ a, Mid a → runs (k a) Post) → runs (bind m k) Post.
Proof.
  intros Hm Hk. eapply triple_bind; [exact _| |].
  - eapply triple_weaken; [eapply (triple_stable R _ there there); [|exact Hm]|by split|done].
    intros w w'. by apply present_stable.
  - intros a w Hh [Hi Ha]. by apply Hk.
Qed.

Lemma runs_asking {A B} (f : nat → A) (k : A → DM B) (Post : B → dworld → Prop) :
  (∀ n, passing there (k (f n)) Post) → passing there (bind (ask f) k) Post.
Proof.
  intros Hk. eapply triple_bind; [exact _| |].
  - eapply triple_weaken; [apply (triple_stable R _ there there); [|apply passing_ask]|by split|done].
    intros w w'. by apply present_stable.
  - intros a w Hh [Hi [n ->]]. by apply Hk.
Qed.

Lemma runs_any {A} (m : DM A) (Post : A → Prop) : passing any m (λ a _, Post a) → runs m Post.
Proof. intros Hm. by eapply triple_weaken. Qed.

(** ** Labels *)

Lemma writes_label_only s s' :
  s'.(state) = s.(state) → (is_terminal s = true → verdict_kept s s') → s'.(id) = s.(id) → request_of s' = request_of s →
  writes s s'.
Proof. intros. split; [by apply rs_note|done..]. Qed.

Lemma writes_label s s' :
  is_terminal s = false → s'.(state) = s.(state) → s'.(id) = s.(id) → request_of s' = request_of s → writes s s'.
Proof. intros Ht ? ? ?. apply writes_label_only; [done| |done..]. by rewrite Ht. Qed.

(** The notes of the pass keep the handle and the start of the wait. *)
Definition like (sj1 sj2 : SchedulerJob) : Prop :=
  handle sj2 = handle sj1 ∧ sj2.(sj_finished_without_marker_since) = sj1.(sj_finished_without_marker_since).

#[local] Instance like_preorder : PreOrder like.
Proof. split; [done|]. intros s1 s2 s3 [] []. split; congruence. Qed.

Lemma runs_note f sj1 : (∀ sj, handle (f sj) = handle sj) → runs (note jobid f sj1) (λ sj2, sj2 = f sj1).
Proof. intros Hf. by apply passing_note. Qed.

(** A row under its lock, whatever is known of it. *)
Lemma runs_row {A} (body : res daemon_error JobSpec → A * option JobSpec) (Post : A → Prop) :
  (∀ s s', good R jobid s → (body (Ok s)).2 = Some s' → writes s s') →
  (∀ e, (body (Err e)).2 = None) → (∀ row, (∀ s, row = Ok s → good R jobid s) → Post (body row).1) →
  runs (with_row Q jobid body) Post.
Proof.
  intros Hw He Hp. eapply triple_weaken; [eapply (passing_row R P T HQ jobid sj ob n0 HT Hob there (λ _, True))|done|].
  - done.
  - intros s s' _. apply Hw.
  - done.
  - intros a w (row & -> & Hrow & _). apply Hp. intros s Hs. by destruct (Hrow s Hs).
Qed.

Lemma runs_stamp f needs_target now sj1 :
  (∀ s, (f s).(state) = s.(state) ∧ (f s).(id) = s.(id) ∧ request_of (f s) = request_of s) →
  runs (stamp P jobid f needs_target now sj1) (like sj1).
Proof.
  intros Hf. unfold stamp. eapply (runs_bind _ _ (λ _, True)).
  - apply runs_row; [|done|done]. intros s s' Hg. simpl. destruct (is_terminal s) eqn:Ht; [done|]. simpl.
    destruct (needs_target && _); [done|]. intros [= <-]. destruct (Hf s) as (? & ? & ?). by apply writes_label.
  - intros [] _; [|by apply runs_ret]. eapply triple_weaken; [by apply runs_note|done|]. intros a w ->. by split.
Qed.

Lemma runs_stamp_label label spec sj1 : runs (stamp_label P label jobid spec sj1) (like sj1).
Proof.
  apply runs_asking; intros n. destruct (recently _ _ _ _); [by apply runs_ret|]. apply runs_asking; intros m. by apply runs_stamp.
Qed.

Lemma runs_status spec phase detail sj1 : runs (stamp_status P jobid spec phase detail sj1) (like sj1).
Proof.
  apply runs_asking; intros n. destruct (recently _ _ _ _); [by apply runs_ret|]. apply runs_asking; intros m.
  apply runs_stamp. intros s. unfold status_row. by destruct (_ && _).
Qed.

Lemma runs_poll_failed sj1 : runs (stamp_poll_failed P jobid sj1) (like sj1).
Proof. apply runs_asking; intros n. apply runs_stamp. intros s. by destruct (scheduler_state_in _ _). Qed.

Lemma runs_poll_succeeded : runs (stamp_poll_succeeded P jobid) (λ _, True).
Proof.
  apply runs_row; [|done|done]. intros s s' Hg. simpl. destruct (is_terminal s) eqn:Ht; [done|]. simpl.
  case_bool_decide; [done|]. intros [= <-]. by apply writes_label.
Qed.

Lemma runs_catch {A} (m : DM A) p (h : daemon_error → DM A) (Post : A → Prop) :
  runs m Post → (∀ e, passing any (h e) (λ a _, Post a)) → runs (catch m p h) Post.
Proof. apply triple_catch, _. Qed.

Lemma runs_artifacts : runs (stamp_artifacts_unavailable P jobid) (λ _, True).
Proof.
  apply runs_asking; intros utc. apply runs_catch; [|intros e; by apply triple_ret; [exact _|]].
  apply runs_row; [|done|done]. intros s s' Hg. simpl. destruct (is_terminal s) eqn:Ht; [done|]. intros [= <-].
  by apply writes_label.
Qed.

Lemma runs_fetch spec sj1 : runs (fetch_scheduler_results P jobid spec sj1) (λ o, like sj1 o.2).
Proof.
  apply runs_asking; intros n. destruct (p_fetch P n jobid).
  - by apply runs_ret.
  - eapply runs_bind; [by apply runs_note|]. intros ? ->. destruct (_ <? _).
    + eapply runs_bind; [apply runs_stamp_label|]. intros sj2 Hl. by apply runs_ret.
    + eapply runs_bind; [apply runs_artifacts|]. intros _ _. by apply runs_ret.
  - eapply runs_bind; [by apply runs_note|]. intros ? ->. by apply runs_ret.
Qed.

(** ** Conflicts and cancellation *)

Lemma runs_untrack : runs (untrack jobid) (λ _, True).
Proof.
  intros w Hh _. unfold wp. simpl. split_and!; [|done|done]. split; simpl; [apply rtc_refl| |by split].
  intros j sj' Hj. apply lookup_delete_Some in Hj as [_ Hj]. by eauto.
Qed.

Lemma runs_park n spec reason :
  spec.(id) = jobid → V.(v_imported) n spec ≠ Some None → runs (park_conflict P spec reason) (λ _, True).
Proof.
  intros Hid Hn. unfold park_conflict. rewrite Hid. eapply (runs_bind _ _ (λ _, True)).
  - unfold mark_submit_unknown. rewrite Hid. apply runs_asking; intros now. apply runs_row; [|done|done].
    intros s s' Hg. simpl. case_bool_decide; [done|]. destruct (is_terminal s) eqn:Ht; intros [= <-].
    + apply writes_label_only; [done| |done|done]. intros _. by apply verdict_same.
    + split; [by apply (rs_park _ _ _ _ _ _ n spec)|done|done].
  - intros _ _. eapply runs_bind; [apply runs_untrack|]. intros _ _. by apply runs_ret.
Qed.

Lemma runs_conflicts spec sj1 : spec.(id) = jobid → runs (imported_conflicts P spec sj1) (λ _, True).
Proof.
  intros Hid. apply runs_asking; intros n. destruct (v_imported _ n spec) as [[imported|]|] eqn:En.
  - apply runs_asking; intros n1. apply runs_asking; intros n2. destruct (ids_conflict _); [|by apply runs_ret].
    apply (runs_park n); [done|]. fold V in En. by rewrite En.
  - by apply runs_ret.
  - apply (runs_park n); [done|]. fold V in En. by rewrite En.
Qed.

Lemma runs_cancel spec sj1 :
  good R jobid spec → runs (cancel_ended P jobid spec sj1) (λ o, ∀ spec' sj2, o = Some (spec', sj2) → like sj1 sj2).
Proof.
  intros Hg. unfold cancel_ended. destruct (_ && _); [|apply runs_ret; by intros ? ? [= <- <-]].
  eapply (runs_bind _ _ (λ _, True)).
  - apply runs_asking; intros now. apply runs_row; [|done|done]. intros s s' _. simpl.
    destruct (is_terminal s) eqn:Ht; [|done]. intros [= <-]. apply writes_label_only; [done| |done|done]. intros _. by apply verdict_same.
  - intros [fresh|] _; [|by apply runs_ret]. apply runs_asking; intros n. destruct (negb _); [by apply runs_ret|].
    eapply runs_bind; [by apply runs_note|]. intros ? ->. apply runs_ret. by intros ? ? [= <- <-].
Qed.

(** ** Verdicts *)

Abbreviation over := (finished_in sj ob).

Lemma stopped_terminal st : stopped P jobid sj ob st → st ∈ TERMINAL_STATES.
Proof.
  intros [|verdict _|]; [set_solver| |set_solver]. unfold abnormal_end_state. repeat case_match; set_solver.
Qed.

(** A verdict that is not the job's own: afterwards the row has ended. *)
Lemma passing_mark_ended f :
  over → (∀ utc s, stopped P jobid sj ob (f utc s).(state)) →
  (∀ utc s, (f utc s).(id) = s.(id) ∧ request_of (f utc s) = request_of s) →
  passing there (mark_ended P jobid f) (λ _ w, ended jobid w).
Proof.
  intros Ho Hs Hf. apply runs_asking; intros n. set (utc := l_utcnow _ n).
  eapply triple_weaken; [eapply (triple_stable R _ there there); [|eapply (passing_row R P T HQ jobid sj ob n0 HT Hob there (λ _, True))]| |].
  - intros w w'. by apply present_stable.
  - done.
  - intros s s' _ _. simpl. destruct (is_terminal s) eqn:Ht; [done|]. intros [= <-]. destruct (Hf utc s).
    split; [by apply rs_stop|done..].
  - done.
  - by split.
  - intros a w [Hp ([s|e] & _ & Hrow & Herr)]; [|by destruct (Herr e)]. destruct (Hrow s) as (_ & _ & Hq); [done|].
    simpl in Hq. destruct (is_terminal s) eqn:Ht; simpl in Hq; [by exists s|]. exists (f utc s). split; [done|].
    apply is_terminal_spec. by eapply stopped_terminal.
Qed.

Lemma with_tail_same tail s :
  (with_tail tail s).(state) = s.(state) ∧ (with_tail tail s).(id) = s.(id) ∧ request_of (with_tail tail s) = request_of s.
Proof. unfold with_tail. by repeat case_match. Qed.

Lemma passing_time_exceeded reason :
  over → walltime_over P jobid sj ob → passing there (mark_time_exceeded P jobid reason) (λ _ w, ended jobid w).
Proof.
  intros Ho Hw. apply runs_asking; intros n. set (tail := r_stderr_tail _ n).
  apply passing_mark_ended; [done|..].
  - intros utc s. destruct (with_tail_same tail (ended_row TIME_EXCEEDED reason utc s)) as (-> & _). by apply st_walltime.
  - intros utc s. destruct (with_tail_same tail (ended_row TIME_EXCEEDED reason utc s)) as (_ & -> & ->). done.
Qed.

Lemma passing_abnormal verdict raw marker_rc :
  over → abnormal_in sj ob = Some verdict →
  passing there (mark_abnormal_end P jobid verdict raw marker_rc) (λ _ w, ended jobid w).
Proof.
  intros Ho Hv. apply runs_asking; intros n. set (tail := r_stderr_tail _ n).
  apply passing_mark_ended; [done| |];
    intros utc s; set (s1 := set_scheduler_state _ _); destruct (with_tail_same tail s1) as (H1 & H2 & H3).
  - rewrite H1. by apply st_abnormal.
  - by rewrite H2, H3.
Qed.

(** ** The end *)

(** The row the end of a job writes: the exit code under a verdict that is
    there, or the verdict by the exit code. *)
Lemma finish_writes i h rc s f o :
  (is_terminal s = false → over ∧ exit_source P jobid sj ob rc ∧ abnormal_in sj ob = None) →
  good R jobid s → finish_row P.(p_reap) i jobid h rc s = (f, o) → ∀ s', o = Some s' → writes s s'.
Proof.
  intros Hev Hg Hfin s' Hs'. assert (s'.(id) = s.(id) ∧ request_of s' = request_of s) as [Hi Hr].
  { destruct (finish_row_ok R _ i jobid h rc s f o Hg Hfin) as (Hok & _). destruct (Hok s' Hs') as [[] _]. destruct Hg. split; congruence. }
  split; [|done..]. subst o. unfold finish_row in Hfin. destruct (is_terminal s) eqn:Ht.
  - destruct (annotate_good R i rc s jobid Hg) as [_ Hk]. injection Hfin as _ Ho. case_bool_decide; simplify_eq.
    apply rs_note; [apply Hk|done].
  - destruct Hev as (Ho & Hx & Hab); [done|]. destruct (if rc =? 0 then None else _) as [s1|] eqn:Er.
    + injection Hfin as _ ->. destruct (Z.eqb_spec rc 0) as [|Hrc]; [done|]. unfold maybe_retry in Er.
      destruct (Z.leb_spec (retry_max s) 0), (Z.leb_spec (retry_max s) (retry_count s)); try done.
      destruct (negb _); [done|]. injection Er as <-. by apply (rs_retry _ _ _ _ _ _ rc).
    + injection Hfin as _ <-. apply (rs_exit _ _ _ _ _ _ rc); try done; case_bool_decide; try destruct (fi_tail i _); done.
Qed.

Lemma passing_rerun s : good R jobid s → passing any (spawn_rerun s) (λ _ _, True).
Proof.
  intros [Hi Hr] w Hh _. eapply wp_mono; [|apply (spawn_rerun_fresh s w); [split; congruence|done]].
  intros r w' (Hs & Hh' & Hrel & Hrun). split_and!; [|done..]. split; [|rewrite Hrun; by eauto|done].
  eapply (rtc_congruence (λ q, q)); [|exact Hs]. intros x y Hxy. by apply ps_rerun.
Qed.

(** [Pre] gives what is needed of a row that has not ended. *)
Lemma passing_record rc (Pre : dworld → Prop) :
  (∀ w n s, Pre w → Q.(q_interfere) n w.(dw_queue) !! jobid = Some (Some s) → is_terminal s = false →
     over ∧ exit_source P jobid sj ob rc ∧ abnormal_in sj ob = None) →
  (∀ w w', passes R P T w w' → Pre w → Pre w') →
  passing Pre (record_scheduler_finish P jobid rc) (λ _ _, True).
Proof.
  intros Hev Hst. unfold record_scheduler_finish.
  assert (∀ {A} (f : nat → A) (k : A → DM unit), (∀ n, passing Pre (k (f n)) (λ _ _, True)) →
    passing Pre (bind (ask f) k) (λ _ _, True)) as Hask.
  { intros A f k Hk. eapply triple_bind; [exact _| |].
    - eapply triple_weaken; [apply (triple_stable R _ Pre Pre); [exact Hst|apply passing_ask]|by split|done].
    - intros a w Hh [Hp [n ->]]. by apply Hk. }
  apply Hask; intros n1. apply Hask; intros n2. apply Hask; intros n3. set (i := MkFinishInputs _ _ _ _ _ _).
  set (known := λ s, is_terminal s = false → over ∧ exit_source P jobid sj ob rc ∧ abnormal_in sj ob = None).
  eapply triple_bind; [exact _|eapply (passing_row R P T HQ jobid sj ob n0 HT Hob Pre known)|].
  - intros w n s Hp Hs Ht. by eapply Hev.
  - intros s s' Hk Hg Hs'. simpl in Hs'. destruct (finish_row _ i jobid _ rc s) as [f o] eqn:Ef.
    by apply (finish_writes i _ rc s f o Hk Hg Ef).
  - done.
  - intros out. apply triple_given. intros w (row & -> & Hrow & _).
    destruct (finish_locked _ i jobid _ rc row) as [f o] eqn:Ef. simpl.
    destruct f as [e| |s1 o1| |s1]; try (by apply triple_ret; [exact _|]); [by apply triple_throw; exact _|].
    apply passing_rerun. eapply (finish_locked_ok R _ i jobid _ rc row); [|exact Ef|done]. intros s Hs. by destruct (Hrow s Hs).
Qed.

(** On a row that has ended, or on the job's own exit code. *)
Lemma passing_record_ended rc : passing (ended jobid) (record_scheduler_finish P jobid rc) (λ _ _, True).
Proof.
  apply passing_record; [|intros w w'; by apply ended_stable]. intros w n s (s0 & Hq & Ht) Hs Hf.
  destruct (qo_kept _ _ _ HQ n _ jobid s0 I Hq Ht) as (s' & Hq' & Hst & _). rewrite Hq' in Hs. injection Hs as ->.
  by rewrite (is_terminal_state s0 s), Ht in Hf.
Qed.

Lemma passing_record_code rc :
  over → exit_source P jobid sj ob rc → abnormal_in sj ob = None →
  passing there (record_scheduler_finish P jobid rc) (λ _ _, True).
Proof. intros. apply passing_record; [done|]. intros w w'. by apply present_stable. Qed.

Lemma runs_honor d rc :
  over → exit_source P jobid sj ob rc → abnormal_in sj ob = None → ob.(ob_details) sj.(sj_job_id) = Some d →
  runs (honor_own_end P jobid ob.(ob_dialect) d rc) (λ _, True).
Proof.
  intros Ho Hx Hab Hd. unfold honor_own_end. destruct (own_end_from_detail _ _) eqn:Eo; simpl; [|by apply runs_ret].
  eapply (runs_bind _ _ (λ _, True)); [apply runs_row; [|done|done]|].
  - intros s s' Hg. simpl. destruct (late_kill s) eqn:El; [|done]. intros [= <-].
    split; [|done..]. apply (rs_late_kill _ _ _ _ _ _ rc); [done..| |done]. by exists d.
  - intros [e|] _; [by apply triple_throw; exact _|by apply runs_ret].
Qed.

Lemma runs_settle rc marker_rc late :
  over → exit_source P jobid sj ob rc →
  runs (settle_by_code P ob jobid (ob.(ob_details) sj.(sj_job_id)) rc marker_rc late) (λ _, True).
Proof.
  intros Ho Hx. unfold settle_by_code. destruct (ob_details ob (sj_job_id sj)) as [d|] eqn:Ed.
  - destruct (abnormal_from_detail _ d) as [verdict|] eqn:Ea.
    + eapply triple_bind; [exact _|apply passing_abnormal; [done|]|intros ?; apply passing_record_ended].
      unfold abnormal_in. by rewrite Ed.
    + assert (abnormal_in sj ob = None) as Hab by (unfold abnormal_in; by rewrite Ed).
      eapply (runs_bind _ _ (λ _, True)); [|intros _ _; by apply passing_record_code].
      destruct late; [by apply runs_honor|by apply runs_ret].
  - eapply (runs_bind _ _ (λ _, True)); [by apply runs_ret|]. intros _ _. apply passing_record_code; [done..|].
    unfold abnormal_in. by rewrite Ed.
Qed.

(** After the wait, without any marker. *)
Lemma runs_lost k k1 k2 :
  over → waited P jobid sj → P.(p_local_marker) k jobid = None →
  let detail := ob.(ob_details) sj.(sj_job_id) in
  let accounting_rc := if accounting_required_for_absent ob.(ob_dialect) then detail ≫= qd_exit_code else None in
  let pair := walltime_pair detail (P.(p_row_walltime) k1 jobid) (P.(p_diagnosed_walltime) k2 jobid) in
  runs (if walltime_exceeded pair then
          do? _ := mark_time_exceeded P jobid (walltime_reason pair true) in
          match accounting_rc with Some rc => record_scheduler_finish P jobid rc | None => ret tt end
        else
          match accounting_rc with
          | Some rc => settle_by_code P ob jobid detail rc None true
          | None =>
            mark_aborted_by_queue P jobid
              "scheduler job finished without an exit-marker after 120s marker-visibility grace and final workspace fetch"
          end) (λ _, True).
Proof.
  intros Ho Hw Hk detail accounting_rc pair. destruct (walltime_exceeded pair) eqn:Ew.
  - eapply triple_bind; [exact _|apply passing_time_exceeded; [done|]|].
    + exists k1, (P.(p_diagnosed_walltime) k2 jobid). split; [right; by exists k2|done].
    + intros ?. destruct accounting_rc; [apply passing_record_ended|by apply triple_ret; [exact _|]].
  - destruct accounting_rc as [rc|] eqn:Erc; unfold accounting_rc in Erc.
    + apply runs_settle; [done|]. destruct (accounting_required_for_absent _) eqn:Ea; [|done]. by apply es_accounting.
    + eapply triple_weaken; [apply passing_mark_ended; [done|intros utc s|done]|done|done].
      apply (st_lost _ _ _ _ k); [done|done|]. intros Ha. by rewrite Ha in Erc.
Qed.

Lemma runs_without_marker n spec sj1 :
  over → P.(p_exit_marker) n jobid = Some None → like sj sj1 →
  runs (reap_without_marker P ob jobid spec (ob.(ob_details) sj.(sj_job_id)) sj1) (λ _, True).
Proof.
  intros Ho Hm [_ Hsince]. unfold reap_without_marker. destruct (is_terminal spec); [by apply runs_ret|].
  apply runs_asking; intros m. eapply runs_bind; [by apply runs_note|]. intros ? ->.
  eapply runs_bind; [apply runs_stamp_label|]. intros sj2 _. destruct (Z.ltb_spec (l_monotonic (v_launch (p_recovery P)) m - opt_or (sj_finished_without_marker_since sj1) (l_monotonic (v_launch (p_recovery P)) m)) SCHEDULER_FINISHED_MARKER_GRACE) as [|Hgrace]; [by apply runs_ret|].
  assert (waited P jobid sj) as Hw.
  { split; [by exists n|]. rewrite Hsince in Hgrace. destruct (sj_finished_without_marker_since sj) as [t|]; simpl in Hgrace.
    - by exists t, m.
    - assert (0 < SCHEDULER_FINISHED_MARKER_GRACE) by done. lia. }
  eapply runs_bind; [apply runs_fetch|]. intros [outcome sj3] _. simpl. destruct outcome; [|by apply runs_ret|];
    (apply runs_asking; intros k; destruct (p_local_marker P k jobid) as [rc|] eqn:Ek;
     [eapply runs_bind; [apply runs_settle; [done|by apply (es_fetched _ _ _ _ k)]|intros _ _; by apply runs_ret]|];
     apply runs_asking; intros k1; apply runs_asking; intros k2;
     eapply (runs_bind _ _ (λ _, True)); [|intros _ _; by apply runs_ret];
     by apply (runs_lost k k1 k2)).
Qed.

Lemma runs_with_marker n spec rc sj1 :
  over → P.(p_exit_marker) n jobid = Some (Some rc) →
  runs (reap_with_marker P ob jobid spec (ob.(ob_details) sj.(sj_job_id)) rc sj1) (λ _, True).
Proof.
  intros Ho Hm. unfold reap_with_marker.
  assert (∀ outcome sj2, runs
    (do? _ := (match outcome with
               | FETCHED =>
                 if scheduler_state_in spec ["fetch_failed"; "marker_probe_failed"; "poll_failed"]
                 then do? _ := stamp_label P "finishing" jobid spec sj2 in ret tt else ret tt
               | _ => ret tt
               end) in
     do? row := ask (λ n, P.(p_row_walltime) n jobid) in
     let pair := walltime_pair (ob.(ob_details) sj.(sj_job_id)) row (None, None) in
     do? _ := (if walltime_exceeded pair then mark_time_exceeded P jobid (walltime_reason pair false) else ret tt) in
     do? _ := settle_by_code P ob jobid (ob.(ob_details) sj.(sj_job_id)) rc (Some rc) true in
     ret true) (λ _, True)) as Hrest.
  { intros outcome sj2. eapply (runs_bind _ _ (λ _, True)).
    - destruct outcome; [destruct (scheduler_state_in _ _)|..]; try by apply runs_ret.
      eapply runs_bind; [apply runs_stamp_label|]. intros ? _. by apply runs_ret.
    - intros _ _. apply runs_asking; intros m. cbn zeta. eapply (runs_bind _ _ (λ _, True)).
      + destruct (walltime_exceeded _) eqn:Ew; [|by apply runs_ret].
        eapply triple_weaken; [apply passing_time_exceeded; [done|]|done|done]. exists m, (None, None). split; [by left|done].
      + intros _ _. eapply runs_bind; [apply runs_settle; [done|by apply (es_marker _ _ _ _ n)]|]. intros _ _. by apply runs_ret. }
  eapply runs_bind; [apply runs_fetch|]. intros [outcome sj2] _. destruct outcome; [apply (Hrest FETCHED sj2)|by apply runs_ret|apply (Hrest UNAVAILABLE sj2)].
Qed.

Lemma runs_finished spec sj1 : over → like sj sj1 → runs (reap_finished P ob jobid spec sj1) (λ _, True).
Proof.
  intros Ho Hl. unfold reap_finished. assert (sj_job_id sj1 = sj_job_id sj) as -> by by destruct Hl as [[= _ -> _] _].
  eapply runs_bind; [by apply runs_note|]. intros ? ->.
  eapply (runs_bind _ _ (like sj)).
  - destruct (scheduler_state_in _ _); [by apply runs_ret|].
    eapply triple_weaken; [apply runs_stamp_label|done|]. intros sj2 w Hl2. by etransitivity; [|exact Hl2].
  - intros sj2 Hl2. apply runs_asking; intros n1. destruct (p_fetch_busy P n1 jobid); [by apply runs_ret|].
    apply runs_asking; intros n. destruct (p_exit_marker P n jobid) as [[rc|]|] eqn:Em.
    + by eapply runs_with_marker.
    + by eapply runs_without_marker.
    + eapply runs_bind; [apply runs_stamp_label|]. intros ? _. by apply runs_ret.
Qed.

(** ** One job *)

Lemma passing_try_read : passing any (try_read V jobid) (λ o w, ∀ s, o = Some s → good R jobid s ∧ present jobid w).
Proof.
  intros w Hh _. unfold wp, try_read, catch, bind, read_active_spec, access. simpl. set (q := q_interfere _ _ _).
  assert (honest R q) as Hq by by apply (qo_honest _ _ _ HQ).
  assert (passes R P T w (MkDWorld (dw_daemon w) q (S (dw_tick w)) (dw_trace w) (dw_seen w ++ [q]))) as Hp.
  { apply passes_access; [apply rtc_refl|done]. }
  destruct (read_spec q jobid) as [s|e] eqn:Er; simpl.
  - split_and!; [done..|]. intros o [= <-] s' [= <-]. unfold read_spec in Er. unfold present. simpl.
    destruct (q !! jobid) as [[s0|]|] eqn:Eq; simplify_eq. split; [by apply Hq|by eexists].
  - destruct (is_os_or_value_error e); simpl; (split_and!; [done..|]); [by intros o [= <-]|done].
Qed.

Lemma passing_job : ob.(ob_poll_error) = false → passing any (reconcile_scheduler_job P ob jobid sj) (λ _ _, True).
Proof.
  intros Hpoll. eapply triple_bind; [exact _|apply passing_try_read|]. intros [spec|]; [|by apply triple_ret; [exact _|]].
  intros w Hh Hs. destruct (Hs spec eq_refl) as [Hg Hp]. clear Hs. revert w Hh Hp.
  change (runs (do? conflict := imported_conflicts P spec sj in
    if conflict : bool then ret false
    else do? owned := cancel_ended P jobid spec sj in
      match owned with
      | None => ret false
      | Some (spec, sj) =>
        match observed_phase ob sj.(sj_job_id) with
        | None => do? _ := stamp_poll_failed P jobid sj in ret false
        | Some phase =>
          do? _ := stamp_poll_succeeded P jobid in
          match phase with
          | PhaseFinished => reap_finished P ob jobid spec sj
          | _ =>
            do? sj := note jobid (set_allocation false None) sj in
            do? _ := stamp_status P jobid spec phase (ob.(ob_details) sj.(sj_job_id)) sj in
            ret false
          end
        end
      end) (λ _, True)).
  eapply runs_bind; [apply runs_conflicts, Hg|]. intros [] _; [by apply runs_ret|].
  eapply runs_bind; [by apply runs_cancel|]. intros [[spec' sj1]|] Hl; [|by apply runs_ret].
  specialize (Hl spec' sj1 eq_refl).
  destruct (observed_phase ob (sj_job_id sj1)) as [phase|] eqn:Eph;
    [|eapply runs_bind; [apply runs_poll_failed|]; intros ? _; by apply runs_ret].
  eapply runs_bind; [apply runs_poll_succeeded|]. intros _ _.
  destruct phase;
    [eapply runs_bind; [by apply runs_note|]; intros ? ->; eapply runs_bind; [apply runs_status|]; intros ? _; by apply runs_ret..|].
  apply runs_finished; [|done]. split; [done|]. by destruct Hl as [[= _ <- _] _].
Qed.

(** A host that did not answer: its jobs are labelled. *)
Lemma passing_poll_failed : passing any (stamp_poll_failed P jobid sj) (λ _ _, True).
Proof.
  unfold stamp_poll_failed, stamp. eapply triple_then; [exact _|apply passing_ask|]. intros now.
  eapply triple_then; [exact _|eapply (passing_row R P T HQ jobid sj ob n0 HT Hob any (λ _, True)); [done| |done]|].
  - intros s s' _ Hg. simpl. destruct (is_terminal s) eqn:Ht; [done|]. simpl. case_bool_decide; [done|].
    intros [= <-]. by destruct (scheduler_state_in _ _); apply writes_label.
  - intros []; [|by apply triple_ret; [exact _|]]. eapply triple_weaken; [apply (passing_note _ _ _ _ _ _ any)|..]; done.
Qed.
End job.

(** ** The pass *)

Section pass.
Context (R : string → request) (P : SchedulerEnv).
Let Q : QueueEnv := P.(p_recovery).(v_launch).(l_queue).
Context (HQ : queue_ok R (λ _, True) Q) (Hstay : rows_stay Q).
Context {X : Rerun} {HX : RerunFresh R Q X}.

Lemma passing_foldM {A B} T (f : B → A → DM B) b l :
  (∀ b x, x ∈ l → passing R P T (λ _, True) (f b x) (λ _ _, True)) → passing R P T (λ _, True) (foldM f b l) (λ _ _, True).
Proof.
  revert b. induction l as [|x l IH]; intros b Hf; simpl; [by apply triple_ret; [exact _|]|].
  eapply triple_then; [exact _|apply Hf; by left|]. intros b'. apply IH. intros b0 y Hy. apply Hf. by right.
Qed.

Lemma passing_target T items finished target :
  (∀ jr, jr ∈ items → T !! jr.1 = Some jr.2) →
  passing R P T (λ _, True) (reconcile_target P items finished target) (λ _ _, True).
Proof.
  intros Hitems. unfold reconcile_target. eapply triple_then; [exact _|apply passing_ask|]. intros [e|].
  { eapply triple_then; [exact _|apply passing_ask|]. intros ?. apply triple_throw, _. }
  eapply triple_bind; [exact _|apply passing_ask|]. intros observation.
  apply triple_given. intros _ [n ->]. destruct (p_observe P n target) as [ob|] eqn:Eob; [|by apply triple_ret; [exact _|]].
  apply passing_foldM. intros f [jobid sj] Hjr.
  assert (batched T ob jobid sj ∧ sj_scheduler_target sj = target) as [HT Ht].
  { apply elem_of_app in Hjr as [Hjr|Hjr]; apply list_elem_of_In, filter_In in Hjr as [Hin Ht]; simpl in Ht;
      apply list_elem_of_In in Hin.
    - apply andb_true_iff in Ht as [Ht%String.eqb_eq _]. split; [left; by apply (Hitems (jobid, sj))|done].
    - apply String.eqb_eq in Ht. split; [by right|done]. }
  assert (p_observe P n (sj_scheduler_target sj) = Some ob) as Hob by by rewrite Ht.
  simpl. destruct (ob_poll_error ob) eqn:Ep.
  - eapply triple_then; [exact _|by eapply passing_poll_failed|]. intros ?. by apply triple_ret; [exact _|].
  - eapply triple_then; [exact _|by eapply passing_job|]. intros ?. by apply triple_ret; [exact _|].
Qed.

Lemma lookup_foldr_delete (m : gmap string SchedulerJob) js j sj :
  foldr delete m js !! j = Some sj → m !! j = Some sj.
Proof. induction js as [|k js IH]; simpl; [done|]. intros [_ H]%lookup_delete_Some. by apply IH. Qed.

Lemma passing_pass T : passing R P T (λ w, T = w.(dw_daemon).(scheduler_running)) (vq_reconcile_scheduler P) (λ _ _, True).
Proof.
  apply (triple_bind _ _ get_daemon _ _ (λ d _, d.(scheduler_running) = T)).
  { intros w Hh ->. split_and!; [reflexivity|done|]. by intros d [= <-]. }
  intros d. apply triple_given. intros _ ->.
  eapply triple_then; [exact _|eapply triple_weaken; [apply passing_foldM|done|done]|].
  - intros finished target _. apply passing_target. intros [j sj] Hin. by apply elem_of_map_to_list in Hin.
  - intros finished w Hh _. split_and!; [|done|done]. split; simpl; [apply rtc_refl| |by split].
    intros j sj Hj%lookup_foldr_delete. by exists sj.
Qed.
End pass.

(** ** The guarantees *)

(** What the pass may make of a job that had ended: its verdict stays, or it
    was killed after its allocation had finished of its own accord, and takes
    that end. *)
Definition own_end (P : SchedulerEnv) (T : gmap string SchedulerJob) (j : string) (s s' : JobSpec) : Prop :=
  s.(state) = KILLED ∧ ∃ sj ob n rc,
    batched T ob j sj ∧ P.(p_observe) n sj.(sj_scheduler_target) = Some ob
    ∧ finished_in sj ob ∧ own_end_in sj ob ∧ abnormal_in sj ob = None ∧ exit_source P j sj ob rc
    ∧ s'.(state) = (if rc =? 0 then COMPLETED else FAILED) ∧ s'.(exit_code) = Some rc
    ∧ s'.(finished_at) = s.(finished_at).

(** The evidence that a job succeeded. *)
Definition earned (P : SchedulerEnv) (T : gmap string SchedulerJob) (j : string) : Prop :=
  ∃ sj ob n, batched T ob j sj ∧ P.(p_observe) n sj.(sj_scheduler_target) = Some ob
    ∧ finished_in sj ob ∧ abnormal_in sj ob = None ∧ exit_source P j sj ob 0.

(** The other processes never declare success. *)
Definition never_completes (Q : QueueEnv) : Prop :=
  ∀ n q j s s', q !! j = Some (Some s) → Q.(q_interfere) n q !! j = Some (Some s') →
    s'.(state) = COMPLETED → s.(state) = COMPLETED.

Section guarantees.
Context (R : string → request) (P : SchedulerEnv).
Let Q : QueueEnv := P.(p_recovery).(v_launch).(l_queue).
Context {X : Rerun}.

Lemma pass_passes w r w' :
  queue_ok R (λ _, True) Q → rows_stay Q → RerunFresh R Q X → honest R w.(dw_queue) →
  vq_reconcile_scheduler P w = (r, w') → passes R P w.(dw_daemon).(scheduler_running) w w'.
Proof.
  intros HQ Hstay HX Hh Er.
  pose proof (wp_elim _ _ _ _ _ (passing_pass R P HQ Hstay _ w Hh eq_refl) Er) as H. by destruct H.
Qed.

Section steps.
Context (HQ : queue_ok R (λ _, True) Q) (Hstay : rows_stay Q) (T : gmap string SchedulerJob).

Lemma own_end_then j s s1 s2 : own_end P T j s s1 → verdict_kept s1 s2 → own_end P T j s s2.
Proof.
  intros (Hk & sj & ob & n & rc & ? & ? & ? & ? & ? & ? & Hst & Hx & Hf) (Hst' & Hf' & Hx').
  split; [done|]. exists sj, ob, n, rc. split_and!; try done; [congruence| |congruence].
  destruct Hx' as [Hx'|Hx']; congruence.
Qed.

Lemma kept_then j s s1 s2 : verdict_kept s s1 → own_end P T j s1 s2 → own_end P T j s s2.
Proof.
  intros (Hst & Hf & _) (Hk & sj & ob & n & rc & ? & ? & ? & ? & ? & ? & ? & ? & ?).
  split; [congruence|]. exists sj, ob, n, rc. split_and!; try done. congruence.
Qed.

(** One change keeps the verdict of a job or gives it its own end. *)
Lemma verdict_step j q q' s :
  pass_step P T q q' → q !! j = Some (Some s) → is_terminal s = true →
  ∃ s', q' !! j = Some (Some s') ∧ (verdict_kept s s' ∨ own_end P T j s s').
Proof.
  intros Hs Hq Ht. destruct Hs as [q' [n|k s0 Hk]|k sj ob s0 s' n Hk HT Hob [Hw _ _]].
  - destruct (qo_kept _ _ _ HQ n q j s I Hq Ht) as (s' & Hq' & Hv). by exists s'; eauto.
  - exists s. rewrite lookup_insert_ne; [by split; [|left]|]. congruence.
  - destruct (decide (k = j)) as [->|]; [|exists s; rewrite lookup_insert_ne by done; by split; [|left]].
    rewrite Hk in Hq. injection Hq as ->. exists s'. rewrite lookup_insert_eq. split; [done|].
    destruct Hw as [_ Hv| | | | |rc Hl Hf He Ha Ho ->]; [by left; auto|congruence..|right].
    apply andb_true_iff in Hl as [Hl%bool_decide_eq_true _]. split; [done|].
    by exists sj, ob, n, rc.
Qed.

Lemma verdict_steps j q q' s :
  rtc (pass_step P T) q q' → q !! j = Some (Some s) → is_terminal s = true →
  ∃ s', q' !! j = Some (Some s') ∧ (verdict_kept s s' ∨ own_end P T j s s').
Proof.
  intros Hs. revert s. induction Hs as [q|q q1 q2 H1 _ IH]; intros s Hq Ht; [exists s; by split; [|left]|].
  destruct (verdict_step j q q1 s H1 Hq Ht) as (s1 & Hq1 & Hv1).
  assert (is_terminal s1 = true) as Ht1.
  { destruct Hv1 as [[Hst _]|(_ & sj & ob & n & rc & _ & _ & _ & _ & _ & _ & Hst & _)].
    - by rewrite (is_terminal_state s s1).
    - unfold is_terminal. rewrite Hst. by destruct (rc =? 0). }
  destruct (IH s1 Hq1 Ht1) as (s2 & Hq2 & Hv2). exists s2. split; [done|]. destruct Hv1 as [Hv1|Hv1], Hv2 as [Hv2|Hv2].
  - left. by etransitivity.
  - right. by eapply kept_then.
  - right. by eapply own_end_then.
  - destruct Hv1 as (_ & sj & ob & n & rc & _ & _ & _ & _ & _ & _ & Hst & _), Hv2 as [Hk _].
    rewrite Hk in Hst. by destruct (rc =? 0).
Qed.

Lemma completion_step j q q' s s' :
  never_completes Q → pass_step P T q q' → q !! j = Some (Some s) → q' !! j = Some (Some s') →
  s'.(state) = COMPLETED → s.(state) = COMPLETED ∨ earned P T j.
Proof.
  intros Hn Hs Hq Hq' Hc. destruct Hs as [q' [n|k s0 Hk]|k sj ob s0 s0' n Hk HT Hob [Hw _ _]].
  - left. by eapply Hn.
  - left. rewrite lookup_insert_ne in Hq'; congruence.
  - destruct (decide (k = j)) as [->|]; [|left; rewrite lookup_insert_ne in Hq'; congruence].
    rewrite lookup_insert_eq in Hq'. rewrite Hk in Hq. simplify_eq.
    destruct Hw as [Hst _|? ? ? ? ? Hst|rc ? Hf He Ha Hst|? ? ? ? ? ? ? ? Hst|_ _ Hst|rc ? Hf He Ha ? ->].
    + left. congruence.
    + congruence.
    + right. exists sj, ob, n. destruct (Z.eqb_spec rc 0) as [->|]; [done|congruence].
    + congruence.
    + rewrite Hc in Hst. inversion Hst as [|v _ Hv|]. unfold abnormal_end_state in Hv.
      by repeat case_match.
    + right. exists sj, ob, n. cbn in Hc. destruct (Z.eqb_spec rc 0) as [->|]; [done|congruence].
Qed.

Lemma completion_steps j q q' s s' :
  never_completes Q → rtc (pass_step P T) q q' → q !! j = Some (Some s) → q' !! j = Some (Some s') →
  s'.(state) = COMPLETED → s.(state) = COMPLETED ∨ earned P T j.
Proof.
  intros Hn Hs. revert s. induction Hs as [q|q q1 q2 H1 _ IH]; intros s Hq Hq' Hc.
  { left. congruence. }
  destruct (present_step P T Hstay j q q1 H1) as [s1 Hq1]; [by exists s|].
  destruct (IH s1 Hq1 Hq' Hc) as [Hc1|]; [|by right]. by eapply (completion_step j q q1 s s1).
Qed.
End steps.


(** C16: the scheduler pass takes a verdict back only from a late kill.  A job
    that had ended keeps its state, its end time and its exit code, unless it
    was KILLED, was in the batch, and the scheduler says it had ended by itself and
    not abnormally: then it is COMPLETED or FAILED by an exit code from its
    marker or from accounting. *)
Theorem scheduler_verdicts_kept w r w' j s :
  queue_ok R (λ _, True) Q → rows_stay Q → RerunFresh R Q X → honest R w.(dw_queue) →
  vq_reconcile_scheduler P w = (r, w') → w.(dw_queue) !! j = Some (Some s) → is_terminal s = true →
  ∃ s', w'.(dw_queue) !! j = Some (Some s')
    ∧ (verdict_kept s s' ∨ own_end P w.(dw_daemon).(scheduler_running) j s s').
Proof.
  intros HQ Hstay HX Hh Er. destruct (pass_passes w r w' HQ Hstay HX Hh Er) as [Hq _ _]. by apply verdict_steps.
Qed.


(** The daemon's launcher with its scheduler pass and its recovery keeps what
    the dispatch pass relies on. *)
Lemma daemon_launcher_ok C :
  queue_ok R (λ _, True) Q → queue_ok R (λ _, False) P.(p_reap).(r_queue) → rows_stay Q →
  RerunOk R (λ _, False) X → RerunFresh R Q X →
  LauncherOk R (vq_launcher C P.(p_recovery).(v_launch) P.(p_reap) (vq_recovery P.(p_recovery)) X
                  (vq_reconcile_scheduler P)).
Proof.
  intros HQ HF Hstay HX HX'.
  assert (queue_ok R (λ _, False) Q) as HQ' by (destruct HQ as [Hh _]; split; [done|by intros n q j s []]).
  apply vq_launcher_ok; [done|done|by apply vq_recovery_ok|done|]. intros w Hh.
  eapply wp_mono, (passing_pass R P HQ Hstay _ w Hh eq_refl). intros r w' [[_ _ Hr] _].
  by apply released_weaken.
Qed.
End guarantees.
