(* ===== verification/SchedulerReapWitnesses.v ===== *)
(** * Scheduler jobs, reaped

    Accounting output with several elements, and job [c] of the demo queue
    running under Slurm: the concrete inputs at which the theorems about the
    dialects and about the scheduler pass are applied. *)

From S2P Require Import Control Prelude Spec Json BrokerRecord StartFence Dialect DialectGuarantees Admission DaemonCore Dispatch DaemonLogic DispatchSafety Launch Reap LaunchSafety Recovery RecoveryLogic RecoveryGuarantees SchedulerReap SchedulerReapLogic SchedulerReapGuarantees DaemonWitnesses RecoveryWitnesses.

Import Demo.

(** ** Accounting *)

Definition sacct_lines (rows : list string) : string :=
  foldr (λ row out, row +:+ String "010"%char out) "" rows.

Definition element_0 : string := "41_0|COMPLETED|0:0|00:10:00|01:00:00|n1".
Definition element_1 : string := "41_1|CANCELLED by 1000|0:15|00:09:00|01:00:00|n2".
Definition step_0 : string := "41_0.batch|COMPLETED|0:0|00:10:00||n1".

Definition sacct_once : string := sacct_lines [element_0; element_1; step_0].
Definition sacct_again : string := sacct_lines [step_0; element_1; element_0].

Definition exit_codes (out : res dialect_error (string → option QstatDetail)) : res dialect_error (list (option (string * option Z))) :=
  let? details := out in
  Ok (map (λ j, (λ d, (d.(qd_raw_state), d.(qd_exit_code))) <$> details j) ["41"; "41_0"; "41_0.batch"]).

Lemma sacct_order_irrelevant_witness :
  exit_codes (parse_sacct sacct_once) = Ok [Some ("CANCELLED by 1000", Some 143); Some ("COMPLETED", Some 0); None]
  ∧ match parse_sacct sacct_once, parse_sacct sacct_again with
    | Ok details, Ok details' => ∀ job_id, details job_id = details' job_id
    | Err _, Err _ => True
    | _, _ => False
    end.
Proof.
  split; [vm_compute; reflexivity|]. apply (sacct_order_irrelevant sacct_once sacct_again).
  change (splitlines sacct_once) with [element_0; element_1; step_0].
  change (splitlines sacct_again) with [step_0; element_1; element_0].
  rewrite (Permutation_cons_append [element_1; step_0] element_0). apply Permutation_swap.
Defined.

(** Both elements completed: the allocation has exit code 0. *)
Definition sacct_both : string := sacct_lines [element_0; "41_1|COMPLETED|0:0|00:09:00|01:00:00|n2"].

Definition both_details : string → option QstatDetail :=
  match parse_sacct sacct_both with Ok details => details | Err _ => λ _, None end.

Definition both_verdict : QstatDetail := MkDetail "COMPLETED" (Some "n1") (Some "00:10:00") (Some "01:00:00") (Some 0).

Lemma sacct_fails_closed_witness :
  both_details "41" = Some both_verdict
  ∧ (both_verdict.(qd_exit_code) = Some 0 →
     normalize_state "COMPLETED" = Ok "COMPLETED" ∧ exit_code_pair "0:0" = Some (0, 0)).
Proof.
  split; [vm_compute; reflexivity|].
  exact (proj2 (sacct_fails_closed sacct_both both_details "41" both_verdict eq_refl eq_refl element_0 "41_0" both_verdict
    ltac:(change (splitlines sacct_both) with [element_0; "41_1|COMPLETED|0:0|00:09:00|01:00:00|n2"]; constructor)
    eq_refl eq_refl (or_intror eq_refl))).
Defined.

Lemma walltime_roundtrip_witness :
  format_walltime 93784 = Some "26:03:04" ∧ scheduler_hms_to_seconds (format_walltime 93784) = Some 93784.
Proof. split; [vm_compute; reflexivity|]. apply (walltime_roundtrip 93784). lia. Defined.

(** ** The pass *)

(** The host says that job [77] completed; the marker says [rc]. *)
Definition completed_observation : Observation :=
  MkObservation Slurm (λ _, true) [] false false (λ _, None) (λ _, false)
    (λ job_id, if String.eqb job_id "77" then Some (MkDetail "COMPLETED" (Some "n1") (Some "00:10:00") (Some "01:00:00") (Some 0))
               else None).

Definition scheduler_env (Q : QueueEnv) (rc : Z) : SchedulerEnv :=
  {| p_recovery := recovery_env Q "77"; p_reap := reap_env Q None; p_observe := λ _ _, Some completed_observation; p_poll_raises := λ _ _, None;
     p_exit_marker := λ _ _, Some (Some rc); p_fetch := λ _ _, FetchDone; p_fetch_busy := λ _ _, false;
     p_local_marker := λ _ _, None; p_row_walltime := λ _ _, (None, None); p_diagnosed_walltime := λ _ _, (None, None) |}.

Definition tracked_c : SchedulerJob := new_scheduler_job "hpc" "77" "/r/c".

Definition submitted_world (s : JobSpec) : dworld :=
  MkDWorld (set_scheduler_running {[ "c" := tracked_c ]} idle) (<["c" := Some s]> queue) 0 [] [].

Definition running_c : JobSpec := set_state RUNNING (set_scheduler_job_id (Some "77") (job "c")).
Definition killed_late : JobSpec :=
  set_failure_reason (Some DEFAULT_KILL_REASON) (set_finished_at (Some (Aware 9)) (set_state KILLED running_c)).

Definition scheduler_pass (Q : QueueEnv) (s : JobSpec) : res daemon_error unit * dworld :=
  vq_reconcile_scheduler (scheduler_env Q 0) (submitted_world s).

Lemma submitted_honest s : s.(id) = "c" → request_of s = requests "c" → honest requests (submitted_world s).(dw_queue).
Proof. intros. by apply honest_insert; [apply queue_honest|..]. Qed.

Lemma alone_stays : rows_stay alone.
Proof. intros n q j s Hq. by exists s. Qed.

Lemma alone_never_completes : never_completes alone.
Proof. intros n q j s s' Hq Hq'. simpl in Hq'. congruence. Qed.

Lemma kills_c_stays n : rows_stay (kills_c n).
Proof.
  intros k q j s Hq. simpl. destruct (q !! "c") as [[s0|]|] eqn:Ec; [|by exists s..].
  destruct (_ && _); [|by exists s]. destruct (decide (j = "c")) as [->|].
  - rewrite lookup_insert_eq. by eexists.
  - exists s. by rewrite lookup_insert_ne.
Qed.

Lemma rerun_fresh Q : RerunFresh requests Q rerun.
Proof. split. intros s w _ Hh. apply wp_ret. split_and!; [apply rtc_refl|done|reflexivity|done]. Qed.

(** The operator's kill lands while the pass settles the job: the row stays
    KILLED with the exit code of the marker, and the job is no longer tracked. *)
Definition disturbed : res daemon_error unit * dworld := scheduler_pass (kills_c 7) running_c.

Definition verdict_c (w : dworld) : option (JobState * option Z * bool) :=
  match w.(dw_queue) !! "c" with
  | Some (Some s) => Some (s.(state), s.(exit_code), is_some (w.(dw_daemon).(scheduler_running) !! "c"))
  | _ => None
  end.


(** Killed after it had completed: the job takes its own end. *)
Definition own_ended : res daemon_error unit * dworld := scheduler_pass alone killed_late.

Lemma scheduler_verdicts_kept_witness :
  verdict_c own_ended.2 = Some (COMPLETED, Some 0, false)
  ∧ ∃ s', own_ended.2.(dw_queue) !! "c" = Some (Some s')
    ∧ (verdict_kept killed_late s' ∨ own_end (scheduler_env alone 0) {[ "c" := tracked_c ]} "c" killed_late s').
Proof.
  split; [vm_compute; reflexivity|].
  exact (scheduler_verdicts_kept requests (scheduler_env alone 0) (submitted_world killed_late) own_ended.1 own_ended.2 "c" killed_late
    (alone_ok _) alone_stays (rerun_fresh _) (submitted_honest killed_late eq_refl eq_refl) (surjective_pairing _) eq_refl eq_refl).
Defined.

Definition settled : res daemon_error unit * dworld := scheduler_pass alone running_c.
Definition settled_c : JobSpec := opt_or (mjoin (settled.2.(dw_queue) !! "c")) running_c.

