(* ===== verification/SchedulerPoll.v ===== *)
(** * Polling scheduler hosts: flights, cooldowns and refreshes

    The part of [src/vq/daemon.py] that decides when a scheduler host is
    contacted: one poll per host in the air ([_SchedulerPollFlight]), the
    cooldown of a host that did not answer ([_SchedulerPollBackoff]), the
    refreshes that operators wait for ([request_scheduler_status_refresh]) and
    the two transfers that may run at once ([_SchedulerFetchFlight]).  The
    main loop, the poll workers and the threads of the requests take turns:
    each action is what one of them does while it holds the lock or owns the
    registry.  The loop is the production one ([_background_scheduler_polling]). *)

From S2P Require Import Prelude Spec SchedulerReap.

Definition SCHEDULER_POLL_BACKOFF : Z := 30 * TICKS_PER_SECOND.
Definition SCHEDULER_POLL_BACKOFF_MAX : Z := 300 * TICKS_PER_SECOND.
Definition SCHEDULER_STATUS_RPC_MAX : Z := 30.

(** ** Whether a host answered *)

(** The exceptions of a live poll: [SchedulerHostUnreachable],
    [SchedulerRemoteOutcomeUnknown], any other [SchedulerError],
    [DialectError], [OSError], [subprocess.SubprocessError]. *)
Inductive poll_exception : Type :=
| HostUnreachable | RemoteOutcomeUnknown | OtherSchedulerError | PollDialectError | PollOSError | PollSubprocessError.

Inductive poll_answer : Type := ANSWERED | REFUSED | UNDETERMINED.

#[global] Instance poll_answer_eq_dec : EqDecision poll_answer.
Proof. solve_decision. Defined.

(** [_scheduler_poll_answer] *)
Definition scheduler_poll_answer (poll_error : option poll_exception) : poll_answer :=
  match poll_error with
  | None => ANSWERED
  | Some HostUnreachable => REFUSED
  | Some (RemoteOutcomeUnknown | PollOSError | PollSubprocessError) => UNDETERMINED
  | Some _ => ANSWERED
  end.

(** ** The cooldown *)

(** [_SchedulerPollBackoff] *)
Record Backoff : Type := MkBackoff {
  bo_until : Z;
  bo_interval : Z;
  bo_last_attempt : Z;
  bo_consecutive : Z;
}.

Abbreviation backoffs := (gmap string Backoff).

(** [_scheduler_poll_is_deferred] *)
Definition poll_is_deferred (now : Z) (target : string) (bs : backoffs) : bool * backoffs :=
  match bs !! target with
  | None => (false, bs)
  | Some b =>
    if now <? b.(bo_until) then (true, bs)
    else (false, <[target := MkBackoff 0 b.(bo_interval) b.(bo_last_attempt) b.(bo_consecutive)]> bs)
  end.

(** [_scheduler_poll_deferral_remaining]; [running] is the target of a tracked job. *)
Definition poll_deferral_remaining (now : Z) (running : string → option string) (bs : backoffs) (jobid : string)
    : option Z :=
  target ← running jobid;
  record ← bs !! target;
  let remaining := record.(bo_until) - now in
  if 0 <? remaining then Some remaining else None.

(** [_prune_scheduler_poll_backoff] drops such a record. *)
Definition quiet_host (now : Z) (live : list string) (target : string) (b : Backoff) : bool :=
  negb (mem_str target live) && (SCHEDULER_POLL_BACKOFF_MAX <? now - b.(bo_last_attempt)).

(** [_note_scheduler_poll_outcome] *)
Definition backoff_interval (consecutive : Z) : Z :=
  Z.min (SCHEDULER_POLL_BACKOFF * 2 ^ (consecutive - 1)) SCHEDULER_POLL_BACKOFF_MAX.
Definition note_poll_outcome (now : Z) (target : string) (poll_error : option poll_exception) (bs : backoffs) : backoffs :=
  match scheduler_poll_answer poll_error with
  | ANSWERED => delete target bs
  | _ =>
    let consecutive := match bs !! target with Some previous => previous.(bo_consecutive) + 1 | None => 1 end in
    let interval := backoff_interval consecutive in
    <[target := MkBackoff (now + interval) interval now consecutive]> bs
  end.

(** ** The state *)

(** [_SchedulerPollFlight]: the jobs, the sequence number of the refreshes at
    its start and, once the worker is done, what it brings. *)
Inductive flight_outcome : Type := FlightRaises | FlightObserves (poll_error : option poll_exception).
Record Flight : Type := MkFlight {
  fl_items : list string;
  fl_refresh_sequence : Z;
  fl_outcome : option flight_outcome;
}.

(** What a refresh is told. *)
Inductive refresh_result : Type :=
| RefreshCompleted (observed_at : Z) | HostPollDeferred | JobNotObserved | RefreshTimeout | DaemonStopping.

#[global] Instance refresh_result_eq_dec : EqDecision refresh_result.
Proof. solve_decision. Defined.

(** What happened, for the record: nothing reads it. *)
Inductive poll_event : Type :=
| Requested (id : Z) (jobid : string)
| Contacted (target : string) (items : list string) (refresh_sequence now : Z)
| Landed (target : string)
| HostAnswered (target : string)
| Unanswered (target : string) (now interval : Z)
| Forgotten (target : string)
| Observed (jobid : string) (observed_at refresh_sequence : Z)
| Replied (id : Z) (result : refresh_result)
| Stopped.

(** A pass under way: [refresh_target] and [observed_jobs]. *)
Record Pass : Type := MkPass {
  pp_refresh_target : Z;
  pp_observed : gmap string (Z * Z);
  pp_raised : bool;
}.

Record Polls : Type := MkPolls {
  ps_clock : Z;
  ps_backoff : backoffs;
  ps_flights : gmap string Flight;
  ps_requested : Z;
  ps_requests : gmap Z string;
  ps_results : gmap Z refresh_result;
  (** the requests whose threads wait *)
  ps_waiting : gset Z;
  ps_pass : option Pass;
  ps_stop : bool;
  ps_trace : list poll_event;
}.

Definition no_polls : Polls := MkPolls 0 ∅ ∅ 0 ∅ ∅ ∅ None false [].

Definition set_clock (t : Z) (s : Polls) : Polls :=
  MkPolls t s.(ps_backoff) s.(ps_flights) s.(ps_requested) s.(ps_requests) s.(ps_results) s.(ps_waiting)
    s.(ps_pass) s.(ps_stop) s.(ps_trace).
Definition set_backoff (bs : backoffs) (s : Polls) : Polls :=
  MkPolls s.(ps_clock) bs s.(ps_flights) s.(ps_requested) s.(ps_requests) s.(ps_results) s.(ps_waiting)
    s.(ps_pass) s.(ps_stop) s.(ps_trace).
Definition set_flights (fs : gmap string Flight) (s : Polls) : Polls :=
  MkPolls s.(ps_clock) s.(ps_backoff) fs s.(ps_requested) s.(ps_requests) s.(ps_results) s.(ps_waiting)
    s.(ps_pass) s.(ps_stop) s.(ps_trace).
Definition set_registry (requested : Z) (requests : gmap Z string) (results : gmap Z refresh_result) (waiting : gset Z)
    (s : Polls) : Polls :=
  MkPolls s.(ps_clock) s.(ps_backoff) s.(ps_flights) requested requests results waiting
    s.(ps_pass) s.(ps_stop) s.(ps_trace).
Definition set_pass (p : option Pass) (s : Polls) : Polls :=
  MkPolls s.(ps_clock) s.(ps_backoff) s.(ps_flights) s.(ps_requested) s.(ps_requests) s.(ps_results) s.(ps_waiting)
    p s.(ps_stop) s.(ps_trace).
Definition log_event (e : poll_event) (s : Polls) : Polls :=
  MkPolls s.(ps_clock) s.(ps_backoff) s.(ps_flights) s.(ps_requested) s.(ps_requests) s.(ps_results) s.(ps_waiting)
    s.(ps_pass) s.(ps_stop) (s.(ps_trace) ++ [e]).

(** ** The main loop *)

(** The start of [_reconcile_scheduler]. *)
Definition begin_pass (s : Polls) : Polls := set_pass (Some (MkPass s.(ps_requested) ∅ false)) s.

(** The start of [_reconcile_scheduler_pass]: cooldowns of quiet hosts are
    dropped, and flights that are done for hosts without jobs. *)
Definition drop_flight (s : Polls) (target : string) : Polls :=
  match s.(ps_flights) !! target with
  | Some (MkFlight _ _ (Some _)) => log_event (Landed target) (set_flights (delete target s.(ps_flights)) s)
  | _ => s
  end.
Definition forget_host (now : Z) (live : list string) (s : Polls) (target : string) : Polls :=
  match s.(ps_backoff) !! target with
  | Some b => if quiet_host now live target b
              then log_event (Forgotten target) (set_backoff (delete target s.(ps_backoff)) s) else s
  | None => s
  end.
Definition sweep (now : Z) (live : list string) (s : Polls) : Polls :=
  let s := foldl (forget_host now live) s (map fst (map_to_list s.(ps_backoff))) in
  foldl drop_flight s (List.filter (λ target, negb (mem_str target live)) (map fst (map_to_list s.(ps_flights)))).

(** [_stamp_scheduler_poll_succeeded] of the jobs of an answer: [stamp] gives
    the time of the stamp. *)
Definition observe_job (stamp : string → option Z) (sequence : Z) (s : Polls) (jobid : string) : Polls :=
  match stamp jobid, s.(ps_pass) with
  | Some at_, Some p =>
    log_event (Observed jobid at_ sequence)
      (set_pass (Some (MkPass p.(pp_refresh_target) (<[jobid := (at_, sequence)]> p.(pp_observed)) p.(pp_raised))) s)
  | _, _ => s
  end.

(** [_start_scheduler_poll_flight] *)
Definition start_flight (now : Z) (target : string) (items : list string) (s : Polls) : Polls :=
  match s.(ps_flights) !! target with
  | Some _ => s
  | None =>
    log_event (Contacted target items s.(ps_requested) now)
      (set_flights (<[target := MkFlight items s.(ps_requested) None]> s.(ps_flights)) s)
  end.

(** A flight that is done leaves the registry; if it raised, so does the pass,
    and nothing it observed is acknowledged. *)
Definition settle_flight (now : Z) (target : string) (stamp : string → option Z) (fl : Flight) (outcome : flight_outcome)
    (p : Pass) (s : Polls) : Polls :=
  let s := log_event (Landed target) (set_flights (delete target s.(ps_flights)) s) in
  match outcome with
  | FlightRaises => set_pass (Some (MkPass p.(pp_refresh_target) ∅ true)) s
  | FlightObserves poll_error =>
    let bs := note_poll_outcome now target poll_error s.(ps_backoff) in
    let s := log_event (match scheduler_poll_answer poll_error with
                        | ANSWERED => HostAnswered target
                        | _ => Unanswered target now (match bs !! target with Some b => b.(bo_interval) | None => 0 end)
                        end) (set_backoff bs s) in
    match poll_error with
    | Some _ => s
    | None => foldl (observe_job stamp fl.(fl_refresh_sequence)) s fl.(fl_items)
    end
  end.

(** The turn of a host in the loop over the targets. *)
Definition serve_target (now : Z) (target : string) (items : list string) (stamp : string → option Z) (s : Polls) : Polls :=
  match s.(ps_pass) with
  | Some (MkPass _ _ false as p) =>
    match s.(ps_flights) !! target with
    | None =>
      let (deferred, bs) := poll_is_deferred now target s.(ps_backoff) in
      let s := set_backoff bs s in
      if deferred : bool then s else start_flight now target items s
    | Some fl =>
      match fl.(fl_outcome) with
      | None => s
      | Some outcome => settle_flight now target stamp fl outcome p s
      end
    end
  | _ => s
  end.

(** The end of [_reconcile_scheduler]: what a waiting request is told, if
    anything. *)
Definition refresh_reply (now : Z) (running : string → option string) (bs : backoffs) (observed : gmap string (Z * Z))
    (request_id : Z) (jobid : string) : option refresh_result :=
  let stale :=
    if is_some (poll_deferral_remaining now running bs jobid) then Some HostPollDeferred
    else if is_some (running jobid) then None else Some JobNotObserved in
  match observed !! jobid with
  | Some (at_, sequence) => if request_id <=? sequence then Some (RefreshCompleted at_) else stale
  | None => stale
  end.
Definition reply_one (now : Z) (running : string → option string) (p : Pass) (s : Polls) (request : Z * string) : Polls :=
  let (id, jobid) := request in
  if id <=? p.(pp_refresh_target) then
    match refresh_reply now running s.(ps_backoff) p.(pp_observed) id jobid with
    | None => s
    | Some result =>
      log_event (Replied id result)
        (set_registry s.(ps_requested) (delete id s.(ps_requests)) (<[id := result]> s.(ps_results)) s.(ps_waiting) s)
    end
  else s.
Definition end_pass (now : Z) (running : string → option string) (s : Polls) : Polls :=
  match s.(ps_pass) with
  | None => s
  | Some p =>
    let s := set_pass None s in
    if p.(pp_refresh_target) =? 0 then s else foldl (reply_one now running p) s (map_to_list s.(ps_requests))
  end.

(** The end of [run]. *)
Definition shut_down (s : Polls) : Polls :=
  log_event Stopped
    (MkPolls s.(ps_clock) ∅ ∅ s.(ps_requested) s.(ps_requests) s.(ps_results) s.(ps_waiting) None true s.(ps_trace)).

(** ** The other threads *)

(** A poll worker is done. *)
Definition land (target : string) (outcome : flight_outcome) (s : Polls) : Polls :=
  match s.(ps_flights) !! target with
  | Some (MkFlight items sequence None) =>
    set_flights (<[target := MkFlight items sequence (Some outcome)]> s.(ps_flights)) s
  | _ => s
  end.

(** [request_scheduler_status_refresh], up to the wait, and one turn of the
    wait: [None] goes on waiting. *)
Definition refresh_timeout_ok (timeout_seconds : pyfloat) : bool :=
  isfinite timeout_seconds && fltb (float_of_int 0) timeout_seconds
  && fleb timeout_seconds (float_of_int SCHEDULER_STATUS_RPC_MAX).
Definition request_refresh (jobid : string) (timeout_seconds : pyfloat) (s : Polls) : res ValueError Z * Polls :=
  match validate_job_id jobid with
  | Err e => (Err e, s)
  | Ok jobid =>
    if negb (refresh_timeout_ok timeout_seconds) then (Err InvalidValue, s)
    else
      let id := s.(ps_requested) + 1 in
      (Ok id, log_event (Requested id jobid)
                (set_registry id (<[id := jobid]> s.(ps_requests)) s.(ps_results) ({[id]} ∪ s.(ps_waiting)) s))
  end.
Definition await_refresh (id : Z) (expired : bool) (s : Polls) : option refresh_result * Polls :=
  let leave s := set_registry s.(ps_requested) (delete id s.(ps_requests)) (delete id s.(ps_results)) (s.(ps_waiting) ∖ {[id]}) s in
  if decide (id ∈ s.(ps_waiting)) then
    match s.(ps_results) !! id with
    | Some result => (Some result, leave s)
    | None =>
      if s.(ps_stop) then (Some DaemonStopping, leave s)
      else if expired then (Some RefreshTimeout, leave s) else (None, s)
    end
  else (None, s).

(** ** The actions, and the runs *)

Inductive poll_action : Type :=
| Begin
| Sweep (now : Z) (live : list string)
| Serve (now : Z) (target : string) (items : list string) (stamp : string → option Z)
| Acknowledge (now : Z) (running : string → option string)
| Stop
| Land (target : string) (outcome : flight_outcome)
| Request (jobid : string) (timeout_seconds : pyfloat)
| Await (id : Z) (expired : bool).

Definition action_time (s : Polls) (a : poll_action) : Z :=
  match a with
  | Sweep now _ | Serve now _ _ _ | Acknowledge now _ => now
  | _ => s.(ps_clock)
  end.

(** The loop has ended once the daemon stops. *)
Definition poll_act (a : poll_action) (s : Polls) : Polls :=
  let s := set_clock (action_time s a) s in
  match a with
  | Land target outcome => land target outcome s
  | Request jobid timeout_seconds => (request_refresh jobid timeout_seconds s).2
  | Await id expired => (await_refresh id expired s).2
  | _ =>
    if s.(ps_stop) then s
    else
      match a with
      | Begin => begin_pass s
      | Sweep now live => sweep now live s
      | Serve now target items stamp => serve_target now target items stamp s
      | Acknowledge now running => end_pass now running s
      | _ => shut_down s
      end
  end.

(** The clock is monotonic. *)
Inductive poll_step (s : Polls) : Polls → Prop :=
| poll_step_act a : s.(ps_clock) <= action_time s a → poll_step s (poll_act a s).

Definition poll_run (actions : list poll_action) (s : Polls) : Polls := foldl (λ s a, poll_act a s) s actions.

(** ** Transfers *)

(** [_SCHEDULER_FETCH_CONCURRENCY] *)
Definition SCHEDULER_FETCH_CONCURRENCY : Z := 2.

Section transfers.
(** What a transfer is bound to: the job object, the workspace, the dispatcher
    and the handle. *)
Context {B : Type} `{!EqDecision B}.

(** [_SchedulerFetchFlight]: its binding and, when done, whether it failed. *)
Record Transfers : Type := MkTransfers {
  tr_flights : gmap string (B * option bool);
  tr_admissions_left : option Z;
}.

Definition busy (fl : string * (B * option bool)) : bool := negb (is_some fl.2.2).
Definition busy_count (s : Transfers) : Z := Z.of_nat (length (List.filter busy (map_to_list s.(tr_flights)))).

(** [_scheduler_fetch_capacity_available] *)
Definition fetch_capacity_available (s : Transfers) : bool :=
  negb (bool_decide (s.(tr_admissions_left) = Some 0)) && (busy_count s <? SCHEDULER_FETCH_CONCURRENCY).

(** Around a pass: the free slots it may take. *)
Definition admit_transfers (s : Transfers) : Transfers :=
  MkTransfers s.(tr_flights) (Some (Z.max 0 (SCHEDULER_FETCH_CONCURRENCY - busy_count s))).
Definition release_admissions (s : Transfers) : Transfers := MkTransfers s.(tr_flights) None.

(** The start of the pass drops what a replaced job left behind. *)
Definition drop_orphan (tracked : string → B → bool) (s : Transfers) (jobid : string) : Transfers :=
  match s.(tr_flights) !! jobid with
  | Some (b, Some _) => if tracked jobid b then s else MkTransfers (delete jobid s.(tr_flights)) s.(tr_admissions_left)
  | _ => s
  end.
Definition drop_orphans (tracked : string → B → bool) (s : Transfers) : Transfers :=
  foldl (drop_orphan tracked) s (map fst (map_to_list s.(tr_flights))).

(** The part of [_fetch_scheduler_results] about the flight: it is started,
    waited for, or consumed by the binding it was started for. *)
Definition fetch_turn (jobid : string) (b : B) (s : Transfers) : fetch_answer * Transfers :=
  match s.(tr_flights) !! jobid with
  | None =>
    if fetch_capacity_available s
    then (FetchWaits, MkTransfers (<[jobid := (b, None)]> s.(tr_flights)) ((λ n, n - 1) <$> s.(tr_admissions_left)))
    else (FetchWaits, s)
  | Some (_, None) => (FetchWaits, s)
  | Some (b', Some failed) =>
    let s := MkTransfers (delete jobid s.(tr_flights)) s.(tr_admissions_left) in
    if negb (bool_decide (b' = b)) then (FetchWaits, s)
    else (if failed : bool then FetchFails else FetchDone, s)
  end.

(** A transfer worker is done. *)
Definition transfer_lands (jobid : string) (failed : bool) (s : Transfers) : Transfers :=
  match s.(tr_flights) !! jobid with
  | Some (b, None) => MkTransfers (<[jobid := (b, Some failed)]> s.(tr_flights)) s.(tr_admissions_left)
  | _ => s
  end.

Inductive transfer_action : Type :=
| TransferPass | TransferRelease
| TransferSweep (tracked : string → B → bool)
| TransferTurn (jobid : string) (b : B)
| TransferLand (jobid : string) (failed : bool).

Definition transfer_act (s : Transfers) (a : transfer_action) : Transfers :=
  match a with
  | TransferPass => admit_transfers s
  | TransferRelease => release_admissions s
  | TransferSweep tracked => drop_orphans tracked s
  | TransferTurn jobid b => (fetch_turn jobid b s).2
  | TransferLand jobid failed => transfer_lands jobid failed s
  end.
End transfers.
Arguments Transfers B : clear implicits.
Arguments transfer_action B : clear implicits.
