(* ===== verification/SchedulerPollGuarantees.v ===== *)
(** * What polling guarantees

    In every interleaving of the main loop, the poll workers and the waiting
    requests: a host is contacted again only after its cooldown, which grows
    with the attempts it leaves unanswered up to a bound, and is never given
    up; an operator who is told that a job was refreshed gets an observation
    that began after the question; no more transfers than allowed run, and none
    speaks for another job. *)

From S2P Require Import Prelude Spec SchedulerReap SchedulerPoll.

(** ** Reading a trace *)

Definition is_request (e : poll_event) : bool := match e with Requested _ _ => true | _ => false end.
(** How many refreshes were requested. *)
Definition published (tr : list poll_event) : Z := Z.of_nat (length (List.filter is_request tr)).

(** Until when a host that did not answer is left alone. *)
Definition cool (target : string) (d : option Z) (e : poll_event) : option Z :=
  match e with
  | Unanswered t now interval => if String.eqb t target then Some (now + interval) else d
  | HostAnswered t => if String.eqb t target then None else d
  | Stopped => None
  | _ => d
  end.
Definition cooling (target : string) (tr : list poll_event) : option Z := foldl (cool target) None tr.

(** How many attempts in a row it left unanswered. *)
Definition count_unanswered (target : string) (n : Z) (e : poll_event) : Z :=
  match e with
  | Unanswered t _ _ => if String.eqb t target then n + 1 else n
  | HostAnswered t | Forgotten t => if String.eqb t target then 0 else n
  | Stopped => 0
  | _ => n
  end.
Definition streak (target : string) (tr : list poll_event) : Z := foldl (count_unanswered target) 0 tr.

(** Whether a poll of the host is in the air. *)
Definition fly (target : string) (b : bool) (e : poll_event) : bool :=
  match e with
  | Contacted t _ _ _ => if String.eqb t target then true else b
  | Landed t => if String.eqb t target then false else b
  | Stopped => false
  | _ => b
  end.
Definition airborne (target : string) (tr : list poll_event) : bool := foldl (fly target) false tr.

(** What must have happened before an event. *)
Definition justified (tr : list poll_event) (e : poll_event) : Prop :=
  match e with
  | Requested id _ => id = published tr + 1
  | Contacted target _ sequence now =>
    airborne target tr = false ∧ sequence = published tr ∧ (∀ d, cooling target tr = Some d → d <= now)
  | Unanswered target _ interval => interval = backoff_interval (streak target tr + 1) ∧ 0 <= streak target tr
  | Observed jobid _ sequence => ∃ target items now, Contacted target items sequence now ∈ tr ∧ jobid ∈ items
  | Replied id (RefreshCompleted at_) =>
    ∃ jobid sequence, Requested id jobid ∈ tr ∧ Observed jobid at_ sequence ∈ tr ∧ id <= sequence
  | _ => True
  end.

Definition causal (tr : list poll_event) : Prop := ∀ pre e post, tr = pre ++ e :: post → justified pre e.

Lemma causal_snoc tr e : causal tr → justified tr e → causal (tr ++ [e]).
Proof.
  intros Hc He pre e' post Heq. destruct post as [|x post _] using rev_ind.
  - apply app_inj_tail in Heq as [-> ->]. done.
  - rewrite app_comm_cons, app_assoc in Heq. apply app_inj_tail in Heq as [Heq _]. by eapply Hc.
Qed.

Lemma published_snoc tr e : published (tr ++ [e]) = published tr + (if is_request e then 1 else 0).
Proof. unfold published. rewrite List.filter_app, length_app. simpl. destruct (is_request e); simpl; lia. Qed.

Lemma cooling_snoc t tr e : cooling t (tr ++ [e]) = cool t (cooling t tr) e.
Proof. apply foldl_snoc. Qed.
Lemma streak_snoc t tr e : streak t (tr ++ [e]) = count_unanswered t (streak t tr) e.
Proof. apply foldl_snoc. Qed.
Lemma airborne_snoc t tr e : airborne t (tr ++ [e]) = fly t (airborne t tr) e.
Proof. apply foldl_snoc. Qed.

Lemma backoff_interval_bounds n : 1 <= n → SCHEDULER_POLL_BACKOFF <= backoff_interval n <= SCHEDULER_POLL_BACKOFF_MAX.
Proof.
  intros Hn. unfold backoff_interval. assert (1 <= 2 ^ (n - 1)) by (apply (Z.pow_le_mono_r 2 0); lia).
  change SCHEDULER_POLL_BACKOFF_MAX with (10 * SCHEDULER_POLL_BACKOFF).
  assert (0 < SCHEDULER_POLL_BACKOFF) by done. nia.
Qed.

(** ** The state and the trace *)

Record registry_ok (requested : Z) (requests : gmap Z string) (results : gmap Z refresh_result) (waiting : gset Z)
    (tr : list poll_event) : Prop := {
  rg_requested : requested = published tr;
  rg_requests id jobid : requests !! id = Some jobid → Requested id jobid ∈ tr ∧ id ∈ waiting;
  rg_results id : is_Some (results !! id) → id ∈ waiting;
  rg_waiting id : id ∈ waiting → id <= requested;
}.

Record flights_ok (flights : gmap string Flight) (tr : list poll_event) : Prop := {
  fk_here t fl : flights !! t = Some fl →
    airborne t tr = true ∧ ∃ now, Contacted t fl.(fl_items) fl.(fl_refresh_sequence) now ∈ tr;
  fk_gone t : flights !! t = None → airborne t tr = false;
}.

Record record_ok (clock : Z) (t : string) (b : Backoff) (tr : list poll_event) : Prop := {
  bk_streak : b.(bo_consecutive) = streak t tr;
  bk_positive : 1 <= b.(bo_consecutive);
  bk_interval : b.(bo_interval) = backoff_interval b.(bo_consecutive);
  bk_attempt : b.(bo_last_attempt) <= clock;
  bk_cooling : cooling t tr = Some (b.(bo_last_attempt) + b.(bo_interval));
  bk_until : b.(bo_until) = b.(bo_last_attempt) + b.(bo_interval)
             ∨ b.(bo_until) = 0 ∧ b.(bo_last_attempt) + b.(bo_interval) <= clock;
}.

Record cooldowns_ok (clock : Z) (bs : backoffs) (tr : list poll_event) : Prop := {
  ck_here t b : bs !! t = Some b → record_ok clock t b tr;
  ck_gone t : bs !! t = None → streak t tr = 0 ∧ ∀ d, cooling t tr = Some d → d <= clock;
}.

Definition observed_ok (p : option Pass) (tr : list poll_event) : Prop :=
  ∀ p' j at_ sequence, p = Some p' → p'.(pp_observed) !! j = Some (at_, sequence) → Observed j at_ sequence ∈ tr.

Record polls_ok (s : Polls) : Prop := {
  po_clock : 0 <= s.(ps_clock);
  po_registry : registry_ok s.(ps_requested) s.(ps_requests) s.(ps_results) s.(ps_waiting) s.(ps_trace);
  po_flights : flights_ok s.(ps_flights) s.(ps_trace);
  po_cooldowns : cooldowns_ok s.(ps_clock) s.(ps_backoff) s.(ps_trace);
  po_observed : observed_ok s.(ps_pass) s.(ps_trace);
  po_causal : causal s.(ps_trace);
}.

(** ** Events that do not matter to a part *)

Lemma elem_of_snoc {A} (x e : A) tr : x ∈ tr → x ∈ tr ++ [e].
Proof. intros. apply elem_of_app. by left. Qed.
Lemma elem_of_last {A} (e : A) tr : e ∈ tr ++ [e].
Proof. apply elem_of_app. right. apply list_elem_of_singleton. done. Qed.

Create HintDb vq_poll.
#[local] Hint Resolve elem_of_snoc elem_of_last causal_snoc : vq_poll.

Lemma registry_snoc requested requests results waiting tr e :
  is_request e = false → registry_ok requested requests results waiting tr → registry_ok requested requests results waiting (tr ++ [e]).
Proof.
  intros He [H1 H2 H3 H4]. split; [|..|done|done].
  - rewrite published_snoc, He. lia.
  - intros id jobid Hid. destruct (H2 id jobid Hid). auto with vq_poll.
Qed.

Lemma flights_snoc fs tr e : (∀ t b, fly t b e = b) → flights_ok fs tr → flights_ok fs (tr ++ [e]).
Proof.
  intros He [H1 H2]. split; intros t; rewrite airborne_snoc, He; [|apply H2].
  intros fl Hfl. destruct (H1 t fl Hfl) as [Ha [now Hn]]. split; [done|exists now; auto with vq_poll].
Qed.

Lemma record_snoc c t b tr e :
  (∀ d, cool t d e = d) → (∀ n, count_unanswered t n e = n) → record_ok c t b tr → record_ok c t b (tr ++ [e]).
Proof. intros Hc Hn []. split; rewrite ?streak_snoc, ?cooling_snoc, ?Hc, ?Hn; done. Qed.

Lemma cooldowns_snoc c bs tr e :
  (∀ t d, cool t d e = d) → (∀ t n, count_unanswered t n e = n) → cooldowns_ok c bs tr → cooldowns_ok c bs (tr ++ [e]).
Proof.
  intros Hc Hn [H1 H2]. split.
  - intros t b Hb. apply record_snoc; auto.
  - intros t Hb. rewrite streak_snoc, cooling_snoc, Hc, Hn. auto.
Qed.

Lemma observed_snoc p tr e : observed_ok p tr → observed_ok p (tr ++ [e]).
Proof. intros Ho p' j at_ sequence Hp Hj. apply elem_of_snoc. by eapply Ho. Qed.

Lemma cooldowns_later c c' bs tr : c <= c' → cooldowns_ok c bs tr → cooldowns_ok c' bs tr.
Proof.
  intros Hc [H1 H2]. split.
  - intros t b Hb. destruct (H1 t b Hb) as [? ? ? ? ? Hu]. split; [done..|lia|done|]. destruct Hu as [?|[? ?]]; [by left|right; lia].
  - intros t Ht. destruct (H2 t Ht) as [? Hd]. split; [done|]. intros d Hd'. specialize (Hd d Hd'). lia.
Qed.

#[local] Hint Extern 1 (justified _ _) => exact I : vq_poll.
#[local] Hint Resolve registry_snoc flights_snoc cooldowns_snoc observed_snoc : vq_poll.

(** ** The actions *)

Lemma ok_clock t s : s.(ps_clock) <= t → polls_ok s → polls_ok (set_clock t s).
Proof. intros Ht [? ? ? ? ? ?]. split; simpl; [lia|done|done|by eapply cooldowns_later|done|done]. Qed.

Lemma ok_pass p s : observed_ok p s.(ps_trace) → polls_ok s → polls_ok (set_pass p s).
Proof. intros Hp []. by split. Qed.

Lemma ok_foldl {A} (f : Polls → A → Polls) l s : (∀ s x, x ∈ l → polls_ok s → polls_ok (f s x)) → polls_ok s → polls_ok (foldl f s l).
Proof.
  revert s. induction l as [|x l IH]; intros s Hf Hs; [done|]. apply IH; [|apply Hf; [by left|done]].
  intros s' y Hy. apply Hf. by right.
Qed.

(** A poll that is over leaves the air. *)
Lemma ok_land_out s target fl :
  s.(ps_flights) !! target = Some fl → polls_ok s →
  polls_ok (log_event (Landed target) (set_flights (delete target s.(ps_flights)) s)).
Proof.
  intros Hfl [? ? Hf ? ? ?]. split; simpl; auto with vq_poll. split; intros t; rewrite airborne_snoc; simpl;
    destruct (String.eqb_spec target t) as [->|Ht].
  - by rewrite lookup_delete_eq.
  - rewrite lookup_delete_ne by done. intros fl' Hfl'. destruct (fk_here _ _ Hf t fl' Hfl') as [? [now ?]].
    split; [done|exists now; auto with vq_poll].
  - done.
  - rewrite lookup_delete_ne by done. apply Hf.
Qed.

Lemma ok_drop s target : polls_ok s → polls_ok (drop_flight s target).
Proof.
  intros Hs. unfold drop_flight. destruct (ps_flights s !! target) as [[items sequence [outcome|]]|] eqn:Ef; [|done..].
  by eapply ok_land_out.
Qed.

Lemma ok_forget now live s target : s.(ps_clock) = now → polls_ok s → polls_ok (forget_host now live s target).
Proof.
  intros Hn Hs. unfold forget_host. destruct (ps_backoff s !! target) as [b|] eqn:Eb; [|done].
  destruct (quiet_host now live target b) eqn:Eq; [|done]. apply andb_true_iff in Eq as [_ Eq%Z.ltb_lt].
  destruct Hs as [? ? ? Hc ? ?]. split; simpl; auto with vq_poll. split; intros t; simpl.
  - intros b' [Ht Hb']%lookup_delete_Some. apply record_snoc; [done| |by apply Hc].
    intros n. simpl. by destruct (String.eqb_spec target t).
  - rewrite streak_snoc, cooling_snoc. simpl. destruct (String.eqb_spec target t) as [->|Ht].
    + intros _. split; [done|]. destruct (ck_here _ _ _ Hc t b Eb) as [_ Hp Hi _ -> _].
      intros d [= <-]. pose proof (backoff_interval_bounds _ Hp). lia.
    + rewrite lookup_delete_ne by done. apply Hc.
Qed.

Lemma clock_forget now live s target : (forget_host now live s target).(ps_clock) = s.(ps_clock).
Proof. unfold forget_host. destruct (ps_backoff s !! target) as [b|]; [|done]. by destruct (quiet_host _ _ _ _). Qed.

Lemma ok_sweep now live s : s.(ps_clock) = now → polls_ok s → polls_ok (sweep now live s).
Proof.
  intros Hn Hs. apply ok_foldl; [intros; by apply ok_drop|].
  generalize (map fst (map_to_list (ps_backoff s))) as l. intros l. revert s Hn Hs.
  induction l as [|t l IH]; intros s Hn Hs; [done|]. apply IH; [by rewrite clock_forget|by apply ok_forget].
Qed.

Lemma ok_observe stamp sequence target items now s jobid :
  Contacted target items sequence now ∈ s.(ps_trace) → jobid ∈ items → polls_ok s → polls_ok (observe_job stamp sequence s jobid).
Proof.
  intros Hc Hj Hs. unfold observe_job. destruct (stamp jobid) as [at_|]; [|done]. destruct (ps_pass s) as [p|] eqn:Ep; [|done].
  destruct Hs as [? ? ? ? Ho ?]. split; simpl; auto with vq_poll.
  - intros p' j at' sq [= <-]. simpl. intros [[<- [= <- <-]]|[_ Hj']]%lookup_insert_Some; auto with vq_poll.
    apply elem_of_snoc. by eapply Ho.
  - apply causal_snoc; [done|]. by exists target, items, now.
Qed.

Lemma trace_observe stamp sequence s jobid : s.(ps_trace) `prefix_of` (observe_job stamp sequence s jobid).(ps_trace).
Proof. unfold observe_job. destruct (stamp jobid), (ps_pass s); simpl; try done. by eexists. Qed.

Lemma ok_observe_all stamp sequence target items now l s :
  Contacted target items sequence now ∈ s.(ps_trace) → l ⊆ items → polls_ok s →
  polls_ok (foldl (observe_job stamp sequence) s l).
Proof.
  revert s. induction l as [|j l IH]; intros s Hc Hl Hs; [done|]. apply IH; [|set_solver|].
  - destruct (trace_observe stamp sequence s j) as [post ->]. apply elem_of_app. by left.
  - by apply (ok_observe _ _ target items now); [|set_solver|].
Qed.

(** *** Contacting a host *)

Lemma ok_deferred now target s deferred bs :
  poll_is_deferred now target s.(ps_backoff) = (deferred, bs) → s.(ps_clock) = now → polls_ok s →
  polls_ok (set_backoff bs s) ∧ (deferred = false → ∀ d, cooling target s.(ps_trace) = Some d → d <= now)
  ∧ (deferred = true → ∃ d, cooling target s.(ps_trace) = Some d ∧ now < d <= now + SCHEDULER_POLL_BACKOFF_MAX).
Proof.
  intros Hd Hn Hs. pose proof (po_cooldowns _ Hs) as Hc. unfold poll_is_deferred in Hd.
  destruct (ps_backoff s !! target) as [b|] eqn:Eb.
  2:{ injection Hd as <- <-. split_and!; [by destruct Hs|intros _; rewrite <- Hn; by apply Hc|done]. }
  destruct (ck_here _ _ _ Hc target b Eb) as [H1 H2 H3 H4 H5 H6]. pose proof (backoff_interval_bounds _ H2) as Hb.
  destruct (Z.ltb_spec now (bo_until b)) as [Hlt|Hge]; injection Hd as <- <-; rewrite H5.
  - split_and!; [by destruct Hs|done|]. intros _. eexists. split; [done|]. pose proof (po_clock _ Hs). lia.
  - split_and!; [|intros _ d [= <-]; lia|done]. destruct Hs as [? ? ? _ ? ?]. split; simpl; try done. split; intros t.
    + intros b' [[<- [= <-]]|[Ht Hb']]%lookup_insert_Some; [|by apply Hc]. split; simpl; try done. right. lia.
    + intros [Ht Hb']%lookup_insert_None. by apply Hc.
Qed.

Lemma ok_start now target items s :
  (∀ d, cooling target s.(ps_trace) = Some d → d <= now) → polls_ok s → polls_ok (start_flight now target items s).
Proof.
  intros Hd Hs. unfold start_flight. destruct (ps_flights s !! target) as [fl|] eqn:Ef; [done|].
  destruct Hs as [? Hr Hf ? ? ?]. split; simpl; auto with vq_poll.
  - split; intros t; rewrite airborne_snoc; simpl; destruct (String.eqb_spec target t) as [->|Ht].
    + rewrite lookup_insert_eq. intros fl [= <-]. split; [done|]. exists now. simpl. auto with vq_poll.
    + rewrite lookup_insert_ne by done. intros fl Hfl. destruct (fk_here _ _ Hf t fl Hfl) as [? [m ?]].
      split; [done|exists m; auto with vq_poll].
    + by rewrite lookup_insert_eq.
    + rewrite lookup_insert_ne by done. apply Hf.
  - apply causal_snoc; [done|]. split_and!; [by apply Hf|by apply Hr|done].
Qed.

(** *** What a poll brings *)

Lemma ok_answered now target poll_error s :
  scheduler_poll_answer poll_error = ANSWERED → polls_ok s →
  polls_ok (log_event (HostAnswered target) (set_backoff (note_poll_outcome now target poll_error s.(ps_backoff)) s)).
Proof.
  intros Ha [? ? ? Hc ? ?]. unfold note_poll_outcome. rewrite Ha. split; simpl; auto with vq_poll. split; intros t.
  - intros b [Ht Hb]%lookup_delete_Some. apply record_snoc; [..|by apply Hc]; intros x; simpl;
      by destruct (String.eqb_spec target t).
  - rewrite streak_snoc, cooling_snoc. simpl. destruct (String.eqb_spec target t) as [->|Ht]; [done|].
    rewrite lookup_delete_ne by done. apply Hc.
Qed.

Lemma ok_unanswered now target poll_error s :
  scheduler_poll_answer poll_error ≠ ANSWERED → s.(ps_clock) = now → polls_ok s →
  let bs := note_poll_outcome now target poll_error s.(ps_backoff) in
  polls_ok (log_event (Unanswered target now (match bs !! target with Some b => b.(bo_interval) | None => 0 end)) (set_backoff bs s)).
Proof.
  intros Ha Hn [? ? ? Hc ? ?] bs. set (n := match ps_backoff s !! target with Some b => b.(bo_consecutive) + 1 | None => 1 end).
  assert (bs = <[target := MkBackoff (now + backoff_interval n) (backoff_interval n) now n]> (ps_backoff s)) as Ebs.
  { unfold bs, note_poll_outcome. by destruct (scheduler_poll_answer poll_error). }
  assert (n = streak target s.(ps_trace) + 1 ∧ 1 <= n) as [En Hn1].
  { unfold n. destruct (ps_backoff s !! target) as [b|] eqn:Eb.
    - destruct (ck_here _ _ _ Hc target b Eb). lia.
    - destruct (ck_gone _ _ _ Hc target Eb). lia. }
  clearbody bs n. subst bs. rewrite lookup_insert_eq. simpl. split; simpl; auto with vq_poll; [split; intros t|].
  - intros b [[<- <-]|[Ht Hb]]%lookup_insert_Some.
    + split; simpl; rewrite ?streak_snoc, ?cooling_snoc; simpl; rewrite ?String.eqb_refl; first [done|lia|by left].
    + apply record_snoc; [..|by apply Hc]; intros x; simpl; by destruct (String.eqb_spec target t).
  - intros [Hb Ht]%lookup_insert_None. rewrite streak_snoc, cooling_snoc. simpl.
    destruct (String.eqb_spec target t); [done|]. by apply Hc.
  - apply causal_snoc; [done|]. split; [by rewrite <- En|lia].
Qed.

Lemma ok_settle now target stamp fl outcome p s :
  s.(ps_flights) !! target = Some fl → s.(ps_clock) = now → polls_ok s →
  polls_ok (settle_flight now target stamp fl outcome p s).
Proof.
  intros Hfl Hn Hs. destruct (fk_here _ _ (po_flights _ Hs) target fl Hfl) as [_ [m Hm]].
  pose proof (ok_land_out _ _ _ Hfl Hs) as Hs1. unfold settle_flight. set (s1 := log_event (Landed target) _) in *.
  destruct outcome as [|poll_error].
  { apply ok_pass; [|done]. by intros p' j at_ sq [= <-]. }
  destruct poll_error as [e|].
  - destruct (scheduler_poll_answer (Some e)) eqn:Ea; [by apply (ok_answered now target (Some e))|..];
      (refine (ok_unanswered now target (Some e) s1 _ Hn Hs1); by rewrite Ea).
  - simpl. eapply (ok_observe_all _ _ target (fl_items fl) m); [|done|exact (ok_answered now target None s1 eq_refl Hs1)].
    simpl. auto with vq_poll.
Qed.

Lemma ok_serve now target items stamp s : s.(ps_clock) = now → polls_ok s → polls_ok (serve_target now target items stamp s).
Proof.
  intros Hn Hs. unfold serve_target. destruct (ps_pass s) as [[rt ob []]|]; [done| |done].
  destruct (ps_flights s !! target) as [fl|] eqn:Ef.
  - destruct (fl_outcome fl); [by apply ok_settle|done].
  - destruct (poll_is_deferred now target (ps_backoff s)) as [deferred bs] eqn:Ed.
    destruct (ok_deferred _ _ _ _ _ Ed Hn Hs) as (Hs' & Hd & _). destruct deferred; [done|]. by apply ok_start; [apply Hd|].
Qed.

(** *** Requests *)

Lemma ok_reply now running p s id jobid :
  observed_ok (Some p) s.(ps_trace) → Requested id jobid ∈ s.(ps_trace) ∧ id ∈ s.(ps_waiting) → polls_ok s →
  polls_ok (reply_one now running p s (id, jobid)).
Proof.
  intros Ho [Hr Hw] Hs. unfold reply_one. destruct (id <=? _); [|done].
  destruct (refresh_reply _ _ _ _ _ _) as [result|] eqn:Er; [|done]. destruct Hs as [? Hg ? ? ? ?]. split; simpl; auto with vq_poll.
  - apply registry_snoc; [done|]. destruct Hg as [H1 H2 H3 H4]. split; [done|..|done].
    + intros id' j' [_ Hj]%lookup_delete_Some. by apply H2.
    + intros id' [r [[<- _]|[_ Hid']]%lookup_insert_Some]; [done|]. apply H3. by exists r.
  - apply causal_snoc; [done|]. destruct result as [at_| | | |]; try done. exists jobid. unfold refresh_reply in Er.
    destruct (pp_observed p !! jobid) as [[at' sq]|] eqn:Eo; [|by repeat case_match].
    destruct (Z.leb_spec id sq); [|by repeat case_match]. injection Er as ->. exists sq. split_and!; [done| |done].
    by eapply Ho.
Qed.

Lemma reply_keeps now running p s r :
  s.(ps_trace) `prefix_of` (reply_one now running p s r).(ps_trace)
  ∧ (reply_one now running p s r).(ps_waiting) = s.(ps_waiting).
Proof.
  destruct r as [id jobid]. unfold reply_one. destruct (id <=? _); [|done]. destruct (refresh_reply _ _ _ _ _ _); [|done].
  split; [by eexists|done].
Qed.

Lemma ok_reply_all now running p l s :
  observed_ok (Some p) s.(ps_trace) →
  (∀ id jobid, (id, jobid) ∈ l → Requested id jobid ∈ s.(ps_trace) ∧ id ∈ s.(ps_waiting)) → polls_ok s →
  polls_ok (foldl (reply_one now running p) s l).
Proof.
  revert s. induction l as [|[id jobid] l IH]; intros s Ho Hreq Hs; [done|].
  destruct (reply_keeps now running p s (id, jobid)) as [[post Hpost] Hw]. apply IH.
  - intros p' j at_ sq Hp Hj. rewrite Hpost. apply elem_of_app. left. by eapply Ho.
  - intros id' j' Hin. rewrite Hw, Hpost. destruct (Hreq id' j') as [Hr ?]; [by right|]. split; [|done]. apply elem_of_app. by left.
  - apply ok_reply; [done| |done]. apply Hreq. by left.
Qed.

Lemma ok_end now running s : polls_ok s → polls_ok (end_pass now running s).
Proof.
  intros Hs. unfold end_pass. destruct (ps_pass s) as [p|] eqn:Ep; [|done].
  assert (polls_ok (set_pass None s)) as Hs1 by (apply ok_pass; [by intros ?|done]).
  destruct (_ =? 0); [done|]. apply ok_reply_all; [rewrite <- Ep; apply Hs| |done].
  intros id jobid Hin%elem_of_map_to_list. by apply (po_registry _ Hs).
Qed.

Lemma ok_request jobid timeout s : polls_ok s → polls_ok (request_refresh jobid timeout s).2.
Proof.
  intros Hs. unfold request_refresh. destruct (validate_job_id jobid) as [j|e]; [|done]. destruct (negb _); [done|].
  destruct Hs as [? [H1 H2 H3 H4] ? ? ? ?]. split; simpl; auto with vq_poll.
  - split.
    + rewrite published_snoc. simpl. lia.
    + intros id j' [[<- <-]|[_ Hid]]%lookup_insert_Some; [split; [auto with vq_poll|set_solver]|].
      destruct (H2 id j' Hid). split; [auto with vq_poll|set_solver].
    + intros id Hid. specialize (H3 id Hid). set_solver.
    + intros id [->%elem_of_singleton|Hid%H4]%elem_of_union; lia.
  - apply causal_snoc; [done|]. simpl. lia.
Qed.

Lemma ok_await id expired s : polls_ok s → polls_ok (await_refresh id expired s).2.
Proof.
  intros Hs. assert (polls_ok (set_registry s.(ps_requested) (delete id s.(ps_requests)) (delete id s.(ps_results))
    (s.(ps_waiting) ∖ {[id]}) s)) as Hl.
  { destruct Hs as [? [H1 H2 H3 H4] ? ? ? ?]. split; simpl; try done. split; [done|..].
    - intros id' j [Hne Hj]%lookup_delete_Some. destruct (H2 id' j Hj). split; [done|set_solver].
    - intros id' [r [Hne Hr]%lookup_delete_Some]. assert (id' ∈ ps_waiting s) by (apply H3; by exists r). set_solver.
    - intros id' Hid'. apply H4. set_solver. }
  unfold await_refresh. destruct (decide _); [|done]. destruct (ps_results s !! id); [done|].
  destruct (ps_stop s); [done|]. by destruct expired.
Qed.

Lemma ok_land target outcome s : polls_ok s → polls_ok (land target outcome s).
Proof.
  intros Hs. unfold land. destruct (ps_flights s !! target) as [[items sq [o|]]|] eqn:Ef; [done| |done].
  destruct Hs as [? ? Hf ? ? ?]. split; simpl; try done. split; intros t.
  - intros fl [[<- <-]|[_ Hfl]]%lookup_insert_Some; [|by apply Hf]. by apply (fk_here _ _ Hf target (MkFlight items sq None)).
  - intros [Hfl _]%lookup_insert_None. by apply Hf.
Qed.

Lemma ok_stop s : polls_ok s → polls_ok (shut_down s).
Proof.
  intros [? ? ? ? ? ?]. split; simpl; auto with vq_poll.
  - split; intros t; rewrite airborne_snoc; [by rewrite lookup_empty|done].
  - split; intros t; [by rewrite lookup_empty|]. by rewrite streak_snoc, cooling_snoc.
  - by intros ?.
Qed.

Lemma ok_act a s : s.(ps_clock) <= action_time s a → polls_ok s → polls_ok (poll_act a s).
Proof.
  intros Ht Hs. pose proof (ok_clock _ _ Ht Hs) as Hs1. unfold poll_act.
  destruct a as [|now live|now target items stamp|now running| |target outcome|jobid timeout|id expired];
    try (destruct (ps_stop _); [done|]).
  - apply ok_pass; [|done]. by intros p j at_ sq [= <-].
  - by apply ok_sweep.
  - by apply ok_serve.
  - by apply ok_end.
  - by apply ok_stop.
  - by apply ok_land.
  - by apply ok_request.
  - by apply ok_await.
Qed.

Lemma reachable_ok s : rtc poll_step no_polls s → polls_ok s.
Proof.
  intros Hr. assert (polls_ok no_polls) as H0.
  { split; [done|..|by intros ?|by intros [|] e post]; split; simpl; try by intros ?.
    - done.
    - intros id [r Hr']. by rewrite lookup_empty in Hr'. }
  revert H0. induction Hr as [|s1 s2 s3 [a Ha] _ IH]; [done|]. intros H0. by apply IH, ok_act.
Qed.

(** ** The guarantees *)

(** An event of a trace was justified by those before it. *)
Lemma reachable_justified s pre e post :
  rtc poll_step no_polls s → s.(ps_trace) = pre ++ e :: post → justified pre e.
Proof. intros Hs. apply (po_causal _ (reachable_ok s Hs)). Qed.

Lemma published_mono pre post : published pre <= published (pre ++ post).
Proof. unfold published. rewrite List.filter_app, length_app. lia. Qed.

(** C17: who is told that a job was refreshed gets news.  However the threads
    interleave, an answer with an observation stands on a poll of a batch with
    that very job, which was sent after the request was made and came back
    before the answer. *)
Theorem refresh_answers_fresh s id at_ pre post :
  rtc poll_step no_polls s → s.(ps_trace) = pre ++ Replied id (RefreshCompleted at_) :: post →
  ∃ jobid target items sequence now pre1 pre2 pre3,
    pre = pre1 ++ Contacted target items sequence now :: pre2 ++ Observed jobid at_ sequence :: pre3
    ∧ Requested id jobid ∈ pre1 ∧ jobid ∈ items.
Proof.
  intros Hs Htr. destruct (reachable_justified s _ _ _ Hs Htr) as (jobid & sq & Hreq & Hobs & Hid).
  apply list_elem_of_split in Hobs as (pre12 & pre3 & ->).
  assert (s.(ps_trace) = pre12 ++ Observed jobid at_ sq :: (pre3 ++ Replied id (RefreshCompleted at_) :: post)) as Htr'
    by by rewrite Htr, <- app_assoc.
  destruct (reachable_justified s _ _ _ Hs Htr') as (target & items & now & Hcon & Hj).
  apply list_elem_of_split in Hcon as (pre1 & pre2 & ->). exists jobid, target, items, sq, now, pre1, pre2, pre3.
  rewrite <- app_assoc in Htr'. simpl in Htr'. destruct (reachable_justified s _ _ _ Hs Htr') as (_ & Hsq & _).
  split_and!; [by rewrite <- app_assoc| |done]. rewrite <- app_assoc in Hreq. apply elem_of_app in Hreq as [Hreq|Hreq]; [done|].
  exfalso. apply list_elem_of_split in Hreq as (l1 & l2 & Hl).
  assert (s.(ps_trace) = (pre1 ++ l1) ++ Requested id jobid :: (l2 ++ Replied id (RefreshCompleted at_) :: post)) as Htr2.
  { rewrite Htr. simpl in Hl. rewrite <- (app_assoc pre1). simpl. rewrite Hl. by rewrite <- !app_assoc. }
  pose proof (reachable_justified s _ _ _ Hs Htr2) as Hid'. simpl in Hid'. pose proof (published_mono pre1 l1). lia.
Qed.

(** Nothing about whether [target] answers. *)
Definition silent (target : string) (e : poll_event) : Prop :=
  match e with
  | Unanswered t _ _ | HostAnswered t => t ≠ target
  | Stopped => False
  | _ => True
  end.

Lemma cooling_silent target tr d : Forall (silent target) tr → foldl (cool target) d tr = d.
Proof.
  revert d. induction tr as [|e tr IH]; intros d Hf; [done|]. apply Forall_cons in Hf as [He Hf]. simpl. rewrite IH by done.
  destruct e; simpl in *; try done; by destruct (String.eqb_spec target0 target).
Qed.

(** C34: a host that does not answer is left alone, longer each time and never
    longer than five minutes.  After an attempt that brought no answer the next
    contact of the host comes at the earliest when the interval is over: thirty
    seconds, doubled for every further attempt in a row, at most three hundred;
    it is also the only poll of the host in the air. *)
Theorem poll_cooldown_kept s target t interval items sequence now pre mid post :
  rtc poll_step no_polls s →
  s.(ps_trace) = pre ++ Unanswered target t interval :: mid ++ Contacted target items sequence now :: post →
  Forall (silent target) mid →
  t + interval <= now
  ∧ interval = Z.min (SCHEDULER_POLL_BACKOFF * 2 ^ streak target pre) SCHEDULER_POLL_BACKOFF_MAX
  ∧ SCHEDULER_POLL_BACKOFF <= interval <= SCHEDULER_POLL_BACKOFF_MAX
  ∧ airborne target (pre ++ Unanswered target t interval :: mid) = false.
Proof.
  intros Hs Htr Hmid. destruct (reachable_justified s _ _ _ Hs Htr) as [Hi Hn].
  rewrite app_comm_cons, app_assoc in Htr. destruct (reachable_justified s _ _ _ Hs Htr) as (Ha & _ & Hc).
  split_and!; [| | | |done].
  - apply Hc. unfold cooling. rewrite foldl_app. simpl. rewrite String.eqb_refl. by apply cooling_silent.
  - rewrite Hi. unfold backoff_interval. do 3 f_equal. lia.
  - rewrite Hi. apply backoff_interval_bounds. lia.
  - rewrite Hi. apply backoff_interval_bounds. lia.
Qed.

Lemma cooling_bounded s target d :
  polls_ok s → cooling target s.(ps_trace) = Some d → d <= s.(ps_clock) + SCHEDULER_POLL_BACKOFF_MAX.
Proof.
  intros Hs Hd. pose proof (po_cooldowns _ Hs) as Hc. destruct (ps_backoff s !! target) as [b|] eqn:Eb.
  - destruct (ck_here _ _ _ Hc target b Eb) as [_ H2 H3 H4 H5 _]. pose proof (backoff_interval_bounds _ H2). simplify_eq. lia.
  - destruct (ck_gone _ _ _ Hc target Eb) as [_ Hg]. specialize (Hg d Hd).
    assert (0 < SCHEDULER_POLL_BACKOFF_MAX) by done. lia.
Qed.

(** C35: no host is given up.  At its turn in a pass, a host without a poll in
    the air is contacted at once unless its cooldown runs, and a cooldown is
    over five minutes after the last action at the latest. *)
Theorem poll_never_abandoned s p now target items stamp :
  rtc poll_step no_polls s → s.(ps_stop) = false → s.(ps_pass) = Some p → p.(pp_raised) = false →
  s.(ps_flights) !! target = None → s.(ps_clock) <= now →
  let s' := poll_act (Serve now target items stamp) s in
  if match cooling target s.(ps_trace) with Some d => now <? d | None => false end
  then s'.(ps_flights) !! target = None ∧ now < s.(ps_clock) + SCHEDULER_POLL_BACKOFF_MAX
  else s'.(ps_flights) !! target = Some (MkFlight items s.(ps_requested) None)
       ∧ s'.(ps_trace) = s.(ps_trace) ++ [Contacted target items s.(ps_requested) now].
Proof.
  intros Hr Hstop Hp Hraised Hf Hn s'. pose proof (reachable_ok s Hr) as Hs. destruct p as [rt ob raised]. simpl in Hraised. subst raised.
  destruct (poll_is_deferred now target s.(ps_backoff)) as [deferred bs] eqn:Ed.
  destruct (ok_deferred now target (set_clock now s) deferred bs Ed eq_refl (ok_clock _ _ Hn Hs)) as (_ & Hgo & Hwait).
  assert (s' = if deferred then set_backoff bs (set_clock now s) else start_flight now target items (set_backoff bs (set_clock now s))) as ->.
  { unfold s', poll_act, serve_target. simpl. rewrite Hstop, Hp. simpl. by rewrite Hf, Ed. }
  destruct deferred.
  - destruct (Hwait eq_refl) as (d & Hd & Hlt). simpl in Hd. rewrite Hd. destruct (Z.ltb_spec now d); [|lia].
    split; [done|]. pose proof (cooling_bounded s target d Hs Hd). lia.
  - specialize (Hgo eq_refl). simpl in Hgo. unfold start_flight. simpl. rewrite Hf. simpl.
    destruct (cooling target (ps_trace s)) as [d|] eqn:Ec; [specialize (Hgo d eq_refl); destruct (Z.ltb_spec now d); [lia|]|];
      by rewrite lookup_insert_eq.
Qed.

(** ** Transfers *)

Section transfers.
Context {B : Type} `{!EqDecision B}.
Implicit Types (s : Transfers B) (m : gmap string (B * option bool)).

Definition busy_in m : Z := Z.of_nat (length (List.filter busy (map_to_list m))).

Lemma busy_cons fl l : Z.of_nat (length (List.filter (busy (B := B)) (fl :: l)))
  = (if busy fl then 1 else 0) + Z.of_nat (length (List.filter busy l)).
Proof. simpl. destruct (busy fl); simpl; lia. Qed.

Lemma busy_perm l l' : l ≡ₚ l' → length (List.filter (busy (B := B)) l) = length (List.filter busy l').
Proof. induction 1 as [|x l l' _ IH|x y l|]; simpl; [done|..|congruence]; repeat destruct (busy _); simpl; congruence. Qed.

Lemma busy_delete m j x : m !! j = Some x → busy_in m = (if busy (j, x) then 1 else 0) + busy_in (delete j m).
Proof.
  intros Hj. unfold busy_in. rewrite <- (busy_perm _ _ (map_to_list_delete m j x Hj)). by rewrite busy_cons.
Qed.

Lemma busy_insert m j x : m !! j = None → busy_in (<[j := x]> m) = (if busy (j, x) then 1 else 0) + busy_in m.
Proof. intros Hj. unfold busy_in. rewrite (busy_perm _ _ (map_to_list_insert m j x Hj)). by rewrite busy_cons. Qed.

Lemma busy_nonneg m : 0 <= busy_in m.
Proof. unfold busy_in. lia. Qed.

Lemma transfer_keeps s a :
  busy_count s <= SCHEDULER_FETCH_CONCURRENCY → busy_count (transfer_act s a) <= SCHEDULER_FETCH_CONCURRENCY.
Proof.
  intros Hs. change (busy_count s) with (busy_in s.(tr_flights)) in Hs. destruct a as [| |tracked|j b|j failed]; simpl; try done.
  - unfold drop_orphans. generalize (map fst (map_to_list (tr_flights s))) as l. intros l. revert s Hs.
    induction l as [|j l IH]; intros s Hs; simpl; [done|]. apply IH. unfold drop_orphan.
    destruct (tr_flights s !! j) as [[b [f|]]|] eqn:Ej; [|done..]. destruct (tracked j b); [done|].
    rewrite (busy_delete _ _ _ Ej) in Hs. simpl in *. lia.
  - unfold fetch_turn. destruct (tr_flights s !! j) as [[b' [f|]]|] eqn:Ej; [|done|].
    + rewrite (busy_delete _ _ _ Ej) in Hs. by destruct (negb _); simpl in *.
    + destruct (fetch_capacity_available s) eqn:Ec; [|done]. apply andb_true_iff in Ec as [_ Ec%Z.ltb_lt].
      change (busy_count s) with (busy_in s.(tr_flights)) in Ec.
      change (busy_in (<[j := (b, None)]> s.(tr_flights)) <= SCHEDULER_FETCH_CONCURRENCY). rewrite busy_insert by done. simpl. lia.
  - unfold transfer_lands. destruct (tr_flights s !! j) as [[b [f|]]|] eqn:Ej; [done| |done].
    change (busy_in (<[j := (b, Some failed)]> s.(tr_flights)) <= SCHEDULER_FETCH_CONCURRENCY).
    rewrite (busy_delete _ _ _ Ej) in Hs. rewrite <- insert_delete_eq, busy_insert by apply lookup_delete_eq. simpl in *. lia.
Qed.

(** At most two transfers run at once, however passes, workers and replaced
    jobs interleave. *)
Theorem transfers_bounded (actions : list (transfer_action B)) left :
  busy_count (foldl transfer_act (MkTransfers ∅ left) actions) <= SCHEDULER_FETCH_CONCURRENCY.
Proof.
  assert (busy_count (MkTransfers (∅ : gmap string (B * option bool)) left) <= SCHEDULER_FETCH_CONCURRENCY) as H0 by done.
  revert H0. generalize (MkTransfers (∅ : gmap string (B * option bool)) left) as s.
  induction actions as [|a actions IH]; intros s Hs; simpl; [done|]. by apply IH, transfer_keeps.
Qed.
End transfers.
