(* ===== verification/SchedulerPollWitnesses.v ===== *)
(** * Polling, a run

    One scheduler host that first does not answer, an operator who asks for
    news of job [c], and the answer: the run at which the theorems about
    polling are applied. *)

From S2P Require Import Prelude Spec SchedulerReap SchedulerPoll SchedulerPollGuarantees.

Definition seconds (n : Z) : Z := n * TICKS_PER_SECOND.

(** The clock of a run never goes back. *)
Fixpoint in_time (s : Polls) (actions : list poll_action) : bool :=
  match actions with
  | [] => true
  | a :: actions => (s.(ps_clock) <=? action_time s a) && in_time (poll_act a s) actions
  end.

Lemma run_reachable actions s : in_time s actions = true → rtc poll_step s (poll_run actions s).
Proof.
  revert s. induction actions as [|a actions IH]; intros s Ht; simpl; [apply rtc_refl|].
  simpl in Ht. apply andb_true_iff in Ht as [Ht%Z.leb_le Hrest]. eapply rtc_l; [by apply (poll_step_act s a)|by apply IH].
Qed.

Definition on_hpc (jobid : string) : option string := if String.eqb jobid "c" then Some "hpc" else None.
Definition turn (n : Z) : list poll_action :=
  [Begin; Sweep (seconds n) ["hpc"]; Serve (seconds n) "hpc" ["c"] (λ _, Some (seconds n)); Acknowledge (seconds n) on_hpc].

(** Contacted at 10 s, which brings no answer at 20 s; left alone at 40 s. *)
Definition unanswered_run : list poll_action :=
  turn 10 ++ [Land "hpc" (FlightObserves (Some HostUnreachable))] ++ turn 20 ++ turn 40.
(** The operator asks at 45 s; the poll of 51 s answers at 60 s. *)
Definition answered_run : list poll_action :=
  unanswered_run ++ [Request "c" (float_of_int 20)] ++ turn 51 ++ [Land "hpc" (FlightObserves None)] ++ turn 60 ++ [Await 1 false].

Definition asked : Polls := poll_run answered_run no_polls.

Definition trace_to_contact : list poll_event :=
  [Contacted "hpc" ["c"] 0 (seconds 10); Landed "hpc"].

Lemma asked_trace :
  asked.(ps_trace)
  = trace_to_contact ++ Unanswered "hpc" (seconds 20) (seconds 30) :: [Requested 1 "c"]
    ++ Contacted "hpc" ["c"] 1 (seconds 51)
    :: [Landed "hpc"; HostAnswered "hpc"; Observed "c" (seconds 60) 1; Replied 1 (RefreshCompleted (seconds 60))].
Proof. vm_compute. reflexivity. Qed.

Definition trace_to_answer : list poll_event :=
  trace_to_contact ++ [Unanswered "hpc" (seconds 20) (seconds 30); Requested 1 "c"; Contacted "hpc" ["c"] 1 (seconds 51);
                       Landed "hpc"; HostAnswered "hpc"; Observed "c" (seconds 60) 1].

Lemma refresh_answers_fresh_witness :
  ∃ jobid target items sequence now pre1 pre2 pre3,
    trace_to_answer = pre1 ++ Contacted target items sequence now :: pre2 ++ Observed jobid (seconds 60) sequence :: pre3
    ∧ Requested 1 jobid ∈ pre1 ∧ jobid ∈ items.
Proof.
  exact (refresh_answers_fresh asked 1 (seconds 60) trace_to_answer [] (run_reachable answered_run no_polls eq_refl) asked_trace).
Defined.

Lemma poll_cooldown_kept_witness :
  seconds 20 + seconds 30 <= seconds 51
  ∧ seconds 30 = Z.min (SCHEDULER_POLL_BACKOFF * 2 ^ streak "hpc" trace_to_contact) SCHEDULER_POLL_BACKOFF_MAX
  ∧ SCHEDULER_POLL_BACKOFF <= seconds 30 <= SCHEDULER_POLL_BACKOFF_MAX
  ∧ airborne "hpc" (trace_to_contact ++ Unanswered "hpc" (seconds 20) (seconds 30) :: [Requested 1 "c"]) = false.
Proof.
  refine (poll_cooldown_kept asked "hpc" (seconds 20) (seconds 30) ["c"] 1 (seconds 51) trace_to_contact [Requested 1 "c"] _
    (run_reachable answered_run no_polls eq_refl) asked_trace _).
  constructor; [exact I|constructor].
Defined.

(** Asked again at 49 s the host is left alone, asked at 50 s it is contacted. *)
Definition waiting_polls : Polls := poll_run (unanswered_run ++ [Begin]) no_polls.
Definition waiting_pass : Pass := MkPass 0 ∅ false.

Lemma poll_never_abandoned_witness :
  (poll_act (Serve (seconds 49) "hpc" ["c"] (λ _, None)) waiting_polls).(ps_flights) !! "hpc" = None
  ∧ (poll_act (Serve (seconds 50) "hpc" ["c"] (λ _, None)) waiting_polls).(ps_flights) !! "hpc" = Some (MkFlight ["c"] 0 None).
Proof.
  split.
  - exact (proj1 (poll_never_abandoned waiting_polls waiting_pass (seconds 49) "hpc" ["c"] (λ _, None)
      (run_reachable (unanswered_run ++ [Begin]) no_polls eq_refl) eq_refl eq_refl eq_refl eq_refl
      ltac:(apply Z.leb_le; vm_compute; reflexivity))).
  - exact (proj1 (poll_never_abandoned waiting_polls waiting_pass (seconds 50) "hpc" ["c"] (λ _, None)
      (run_reachable (unanswered_run ++ [Begin]) no_polls eq_refl) eq_refl eq_refl eq_refl eq_refl
      ltac:(apply Z.leb_le; vm_compute; reflexivity))).
Defined.
