(* ===== verification/Watchdog.v ===== *)
(** * The watchdog: [src/vq/watchdog.py]

    The per-job state machine that decides when a running job is terminated
    (wall time, memory, CPU starvation) and then killed, and the host-wide one
    that pauses and resumes jobs under memory pressure.  What the readers of
    /proc and the cgroup files answered is an input; sample files are not
    modelled.  Percentages are in 2^-20ths of a percent. *)

From S2P Require Import Prelude Spec.

(** ** Data *)

Inductive WatchdogAction : Type := WD_OK | WD_SIGTERM | WD_SIGKILL.

#[global] Instance WatchdogAction_eq_dec : EqDecision WatchdogAction.
Proof. solve_decision. Defined.

(** Why: the text of a verdict, with its numbers. *)
Inductive wd_reason : Type :=
| WallTime (limit paused_ms : Z)
| DeclaredMemory (rss limit : Z)
| HostMemory (rss cap : Z)
| Starvation
| GraceExpired.

Record Verdict : Type := MkVerdict {
  v_action : WatchdogAction;
  v_reason : option wd_reason;
  v_terminal_state : option JobState;
}.

Definition verdict_ok : Verdict := MkVerdict WD_OK None None.

Record WatchdogJobState : Type := MkWatch {
  started_monotonic : Z;
  last_sample_monotonic : Z;
  last_cputime_seconds : option Z;
  last_cputime_source : option string;
  last_wall_monotonic : option Z;
  starve_since_monotonic : option Z;
  sigterm_sent_at_monotonic : option Z;
  sigterm_terminal_state : option JobState;
  sigkill_emitted : bool;
  last_observed_spec_state : option JobState;
}.

Definition new_watch (started : Z) : WatchdogJobState :=
  MkWatch started 0 None None None None None None false None.

(** The settings of a [Watchdog]. *)
Record WatchdogConfig : Type := MkWatchdogConfig {
  interval_seconds : Z;
  grace_seconds : Z;
  max_rss_percent : Z;
  starve_threshold_percent : Z;
  starve_window_seconds : Z;
  host_total_mem_mb : option Z;
  enforce_memory : bool;
  enforce_wall_time : bool;
  host_pressure_pause_pct : Z;
  host_pressure_resume_pct : Z;
  enforce_host_pressure_pause : bool;
}.

(** What the readers answered: CPU time and RSS from the job's cgroup, from
    its process group, from its process; a managed container reports both
    itself. *)
Record readings : Type := MkReadings {
  rd_external : option (option Z * option Z * string);
  rd_cgroup : option (option Z * option Z);
  rd_pgid : option Z * option Z;
  rd_pid : option Z * option Z;
}.

(** The CPU time, its reader and the RSS of a sample: the first reader that
    has each. *)
Definition sample_usage (has_pgid : bool) (rd : readings) : option Z * option string * option Z :=
  match rd.(rd_external) with
  | Some (cpu, rss, source) => (cpu, Some source, rss)
  | None =>
    let '(cpu, rss) := match rd.(rd_cgroup) with Some u => u | None => (None, None) end in
    let '(cpu2, rss2, source) := if has_pgid then (rd.(rd_pgid).1, rd.(rd_pgid).2, "pgid")
                                 else (rd.(rd_pid).1, rd.(rd_pid).2, "pid") in
    let rss := match rss with Some r => Some r | None => rss2 end in
    match cpu with
    | Some c => (Some c, Some "cgroup", rss)
    | None => (cpu2, match cpu2 with Some _ => Some source | None => None end, rss)
    end
  end.

Section watchdog.
Context (C : WatchdogConfig).

(** [reset_sampling_for_resume] *)
Definition reset_sampling (st : WatchdogJobState) : WatchdogJobState :=
  MkWatch st.(started_monotonic) 0 None None None None st.(sigterm_sent_at_monotonic)
    st.(sigterm_terminal_state) st.(sigkill_emitted) st.(last_observed_spec_state).

Definition set_observed (v : JobState) (st : WatchdogJobState) : WatchdogJobState :=
  MkWatch st.(started_monotonic) st.(last_sample_monotonic) st.(last_cputime_seconds)
    st.(last_cputime_source) st.(last_wall_monotonic) st.(starve_since_monotonic)
    st.(sigterm_sent_at_monotonic) st.(sigterm_terminal_state) st.(sigkill_emitted) (Some v).

Definition set_sigkilled (st : WatchdogJobState) : WatchdogJobState :=
  MkWatch st.(started_monotonic) st.(last_sample_monotonic) st.(last_cputime_seconds)
    st.(last_cputime_source) st.(last_wall_monotonic) st.(starve_since_monotonic)
    st.(sigterm_sent_at_monotonic) st.(sigterm_terminal_state) true st.(last_observed_spec_state).

Definition set_starve (v : option Z) (st : WatchdogJobState) : WatchdogJobState :=
  MkWatch st.(started_monotonic) st.(last_sample_monotonic) st.(last_cputime_seconds)
    st.(last_cputime_source) st.(last_wall_monotonic) v
    st.(sigterm_sent_at_monotonic) st.(sigterm_terminal_state) st.(sigkill_emitted)
    st.(last_observed_spec_state).

(** The baseline of the next sample. *)
Definition set_baseline (cpu : option Z) (source : option string) (now : Z) (st : WatchdogJobState)
    : WatchdogJobState :=
  MkWatch st.(started_monotonic) now cpu source (Some now) st.(starve_since_monotonic)
    st.(sigterm_sent_at_monotonic) st.(sigterm_terminal_state) st.(sigkill_emitted)
    st.(last_observed_spec_state).

Definition set_sampled (now : Z) (st : WatchdogJobState) : WatchdogJobState :=
  MkWatch st.(started_monotonic) now st.(last_cputime_seconds) st.(last_cputime_source)
    st.(last_wall_monotonic) st.(starve_since_monotonic) st.(sigterm_sent_at_monotonic)
    st.(sigterm_terminal_state) st.(sigkill_emitted) st.(last_observed_spec_state).

(** [_escalate] *)
Definition escalate (now : Z) (terminal : JobState) (why : wd_reason) (st : WatchdogJobState)
    : Verdict * WatchdogJobState :=
  (MkVerdict WD_SIGTERM (Some why) (Some terminal),
   MkWatch st.(started_monotonic) st.(last_sample_monotonic) st.(last_cputime_seconds)
     st.(last_cputime_source) st.(last_wall_monotonic) st.(starve_since_monotonic) (Some now)
     (Some terminal) st.(sigkill_emitted) st.(last_observed_spec_state)).

(** [(now - started) - paused_seconds_total >= wall_time_seconds] *)
Definition wall_time_exceeded (now : Z) (spec : JobSpec) (st : WatchdogJobState) : bool :=
  match spec.(wall_time_seconds) with
  | None => false
  | Some limit =>
    C.(enforce_wall_time)
    && (limit * 1000 * TICKS_PER_SECOND
        <=? (now - st.(started_monotonic)) * 1000 - spec.(paused_seconds_total) * TICKS_PER_SECOND)
  end.

(** Whether the CPU share since the last sample was measured, and then whether
    it was below the threshold ([100.0 * cpu / wall < threshold]). *)
Definition low_cpu (now : Z) (cpu : option Z) (source : option string) (st : WatchdogJobState) : option bool :=
  match cpu, st.(last_cputime_seconds) with
  | Some c, Some last =>
    if match st.(last_cputime_source) with None => true | Some s => bool_decide (source = Some s) end then
      let wall := now - match st.(last_wall_monotonic) with None | Some 0 => now | Some l => l end in
      if (0 <? wall) && (0 <=? c - last)
      then Some (100 * (c - last) * TICKS_PER_SECOND <? C.(starve_threshold_percent) * wall)
      else None
    else None
  | _, _ => None
  end.

Definition declared_exceeded (spec : JobSpec) (rss : Z) : option wd_reason :=
  match spec.(mem_mb) with
  | Some m => if C.(enforce_memory) && (m <? rss) then Some (DeclaredMemory rss m) else None
  | None => None
  end.

Definition host_exceeded (rss : Z) : option wd_reason :=
  match C.(host_total_mem_mb) with
  | Some t =>
    if 0 <? t then
      let cap := Z.quot (t * C.(max_rss_percent)) (100 * TICKS_PER_SECOND) in
      if cap <? rss then Some (HostMemory rss cap) else None
    else None
  | None => None
  end.

Definition memory_exceeded (spec : JobSpec) (rss : option Z) : option wd_reason :=
  match rss with
  | None => None
  | Some r => match declared_exceeded spec r with Some why => Some why | None => host_exceeded r end
  end.

(** [Watchdog.evaluate] of a registered job. *)
Definition sample (now : Z) (spec : JobSpec) (rd : readings) (st : WatchdogJobState)
    : Verdict * WatchdogJobState :=
  let '(cpu, source, rss) := sample_usage (bool_decide (is_Some spec.(pgid))) rd in
  if bool_decide (rss = None) && bool_decide (cpu = None) then
    let st := match rd.(rd_external) with
              | None => st
              | Some _ => MkWatch st.(started_monotonic) st.(last_sample_monotonic) None None None None
                            st.(sigterm_sent_at_monotonic) st.(sigterm_terminal_state)
                            st.(sigkill_emitted) st.(last_observed_spec_state)
              end in
    (verdict_ok, set_sampled now st)
  else
    let low := low_cpu now cpu source st in
    let st := set_baseline cpu source now st in
    match memory_exceeded spec rss with
    | Some why => escalate now OOM_KILLED why st
    | None =>
      match low with
      | Some true =>
        match st.(starve_since_monotonic) with
        | None => (verdict_ok, set_starve (Some now) st)
        | Some since =>
          if C.(starve_window_seconds) <=? now - since then escalate now STARVED Starvation st
          else (verdict_ok, st)
        end
      | _ => (verdict_ok, set_starve None st)
      end
    end.

Definition evaluate (now : Z) (spec : JobSpec) (rd : readings) (st : WatchdogJobState)
    : Verdict * WatchdogJobState :=
  let st := if bool_decide (st.(last_observed_spec_state) = Some SUSPENDED) && bool_decide (spec.(state) = RUNNING)
            then reset_sampling st else st in
  let st := set_observed spec.(state) st in
  match st.(sigterm_sent_at_monotonic) with
  | Some sent =>
    if st.(sigkill_emitted) then (verdict_ok, st)
    else if C.(grace_seconds) <=? now - sent
    then (MkVerdict WD_SIGKILL (Some GraceExpired) st.(sigterm_terminal_state), set_sigkilled st)
    else (verdict_ok, st)
  | None =>
    if bool_decide (spec.(state) = SUSPENDED) then (verdict_ok, st)
    else if wall_time_exceeded now spec st
    then escalate now TIME_EXCEEDED (WallTime (default 0 spec.(wall_time_seconds)) spec.(paused_seconds_total)) st
    else if now - st.(last_sample_monotonic) <? C.(interval_seconds) then (verdict_ok, st)
    else sample now spec rd st
  end.

(** ** Host pressure *)

Inductive HostPressureAction : Type := HP_NO_OP | HP_PAUSE | HP_RESUME.

#[global] Instance HostPressureAction_eq_dec : EqDecision HostPressureAction.
Proof. solve_decision. Defined.

Record pressure_state : Type := MkPressure {
  host_pressure_active : bool;
  host_pressure_paused_jobids : gset string;
}.

(** [check_host_pressure]; a set is listed in some order. *)
Definition check_host_pressure (running_jobids : list string) (pressure : option Z) (p : pressure_state)
    : HostPressureAction * list string * pressure_state :=
  if negb C.(enforce_host_pressure_pause) then (HP_NO_OP, [], p)
  else match pressure with
       | None => (HP_NO_OP, [], p)
       | Some x =>
         if negb p.(host_pressure_active) then
           if (C.(host_pressure_pause_pct) <=? x) && negb (bool_decide (running_jobids = []))
           then (HP_PAUSE, running_jobids, MkPressure true (list_to_set running_jobids))
           else (HP_NO_OP, [], p)
         else if x <=? C.(host_pressure_resume_pct)
         then (HP_RESUME, elements p.(host_pressure_paused_jobids), MkPressure false ∅)
         else (HP_NO_OP, [], p)
       end.

(** [reseed_host_pressure_paused] *)
Definition reseed_host_pressure_paused (jobids : list string) (p : pressure_state) : pressure_state :=
  match jobids with [] => p | _ => MkPressure true (list_to_set jobids) end.
End watchdog.
