(* ===== verification/WatchdogGuarantees.v ===== *)
(** * What the watchdog guarantees

    A job is terminated for cause, in order and once; pauses and resumes under
    memory pressure alternate, and each resume names what the last pause named. *)

From S2P Require Import Prelude Spec Watchdog.

(** ** Runs *)

(** One evaluation: when, of which row, with which readings. *)
Record observation : Type := MkObservation {
  o_now : Z;
  o_spec : JobSpec;
  o_readings : readings;
}.

Record evaluated : Type := MkEvaluated {
  ev_obs : observation;
  ev_verdict : Verdict;
  (** the CPU share this evaluation measured: low or not *)
  ev_low : option bool;
}.

Definition killing (x : evaluated) : bool := negb (bool_decide (x.(ev_verdict).(v_action) = WD_OK)).

Section run.
Context (C : WatchdogConfig).

Definition observed (spec : JobSpec) (st : WatchdogJobState) : WatchdogJobState :=
  set_observed spec.(state)
    (if bool_decide (st.(last_observed_spec_state) = Some SUSPENDED) && bool_decide (spec.(state) = RUNNING)
     then reset_sampling st else st).

(** The evaluation comes to sample the job. *)
Definition samples (o : observation) (st : WatchdogJobState) : bool :=
  bool_decide (st.(sigterm_sent_at_monotonic) = None) && negb (bool_decide (o.(o_spec).(state) = SUSPENDED))
  && negb (wall_time_exceeded C o.(o_now) o.(o_spec) st)
  && negb (o.(o_now) - st.(last_sample_monotonic) <? C.(interval_seconds)).

Definition measured (o : observation) (st : WatchdogJobState) : option bool :=
  let st := observed o.(o_spec) st in
  if samples o st then
    let '(cpu, source, rss) := sample_usage (bool_decide (is_Some o.(o_spec).(pgid))) o.(o_readings) in
    low_cpu C o.(o_now) cpu source st
  else None.

Definition evaluate_obs (o : observation) (st : WatchdogJobState) : evaluated * WatchdogJobState :=
  let '(v, st') := evaluate C o.(o_now) o.(o_spec) o.(o_readings) st in
  (MkEvaluated o v (measured o st), st').

(** A run of evaluations of one registered job, oldest first. *)
Inductive watched (st0 : WatchdogJobState) : list evaluated → WatchdogJobState → Prop :=
| watched_nil : watched st0 [] st0
| watched_snoc l st o :
    watched st0 l st → watched st0 (l ++ [(evaluate_obs o st).1]) (evaluate_obs o st).2.

(** The cause of a termination, but for starvation. *)
Definition caused (started : Z) (x : evaluated) (why : wd_reason) (label : JobState) : Prop :=
  let s := x.(ev_obs).(o_spec) in
  s.(state) ≠ SUSPENDED ∧
  match why with
  | WallTime limit paused =>
    label = TIME_EXCEEDED ∧ s.(wall_time_seconds) = Some limit ∧ paused = s.(paused_seconds_total)
    ∧ C.(enforce_wall_time) = true
    ∧ limit * 1000 * TICKS_PER_SECOND + paused * TICKS_PER_SECOND <= (x.(ev_obs).(o_now) - started) * 1000
  | DeclaredMemory rss m => label = OOM_KILLED ∧ s.(mem_mb) = Some m ∧ m < rss ∧ C.(enforce_memory) = true
  | HostMemory rss cap =>
    label = OOM_KILLED ∧ cap < rss ∧
    ∃ t, C.(host_total_mem_mb) = Some t ∧ 0 < t ∧ cap = Z.quot (t * C.(max_rss_percent)) (100 * TICKS_PER_SECOND)
  | Starvation => label = STARVED ∧ x.(ev_low) = Some true
  | GraceExpired => False
  end.

(** The shape of one evaluation: what it answers and what it remembers. *)
Inductive evaluation (o : observation) (st : WatchdogJobState) : evaluated → WatchdogJobState → Prop :=
| ev_quiet st' low :
    st'.(started_monotonic) = st.(started_monotonic) → st'.(sigterm_sent_at_monotonic) = st.(sigterm_sent_at_monotonic) →
    st'.(sigterm_terminal_state) = st.(sigterm_terminal_state) → st'.(sigkill_emitted) = st.(sigkill_emitted) →
    (st.(sigterm_sent_at_monotonic) = None →
     st'.(starve_since_monotonic) = None
     ∨ (st'.(starve_since_monotonic) = st.(starve_since_monotonic) ∧ (low = None ∨ low = Some true))
     ∨ (st'.(starve_since_monotonic) = Some o.(o_now) ∧ low = Some true)) →
    evaluation o st (MkEvaluated o verdict_ok low) st'
| ev_term st' low why label :
    st.(sigterm_sent_at_monotonic) = None →
    st'.(started_monotonic) = st.(started_monotonic) → st'.(sigterm_sent_at_monotonic) = Some o.(o_now) →
    st'.(sigterm_terminal_state) = Some label → st'.(sigkill_emitted) = st.(sigkill_emitted) →
    caused st.(started_monotonic) (MkEvaluated o (MkVerdict WD_SIGTERM (Some why) (Some label)) low) why label →
    (why = Starvation → ∃ since, st.(starve_since_monotonic) = Some since ∧ C.(starve_window_seconds) <= o.(o_now) - since) →
    evaluation o st (MkEvaluated o (MkVerdict WD_SIGTERM (Some why) (Some label)) low) st'
| ev_kill st' low sent :
    st.(sigterm_sent_at_monotonic) = Some sent → st.(sigkill_emitted) = false → C.(grace_seconds) <= o.(o_now) - sent →
    st'.(started_monotonic) = st.(started_monotonic) → st'.(sigterm_sent_at_monotonic) = Some sent →
    st'.(sigterm_terminal_state) = st.(sigterm_terminal_state) → st'.(sigkill_emitted) = true →
    evaluation o st (MkEvaluated o (MkVerdict WD_SIGKILL (Some GraceExpired) st.(sigterm_terminal_state)) low) st'.

Lemma memory_caused s rss why :
  memory_exceeded C s rss = Some why →
  ∀ x, x.(ev_obs).(o_spec) = s → s.(state) ≠ SUSPENDED → ∀ started, caused started x why OOM_KILLED.
Proof.
  unfold memory_exceeded. destruct rss as [r|]; [|done]. intros Hm x Hx Hs started. unfold caused. rewrite Hx.
  split; [done|]. destruct (declared_exceeded C s r) as [w|] eqn:Hd.
  - unfold declared_exceeded in Hd. destruct (mem_mb s) as [m|]; [|done].
    destruct (enforce_memory C) eqn:He; [|done]. simpl in Hd. destruct (Z.ltb_spec m r); [|done].
    assert (why = DeclaredMemory r m) as -> by congruence. done.
  - unfold host_exceeded in Hm. destruct (host_total_mem_mb C) as [t|]; [|done]. destruct (Z.ltb_spec 0 t); [|done].
    destruct (Z.ltb_spec (Z.quot (t * max_rss_percent C) (100 * TICKS_PER_SECOND)) r); [|done].
    injection Hm as <-. split_and!; [done|done|by exists t].
Qed.

Lemma sample_shape o st :
  let ob := observed o.(o_spec) st in
  samples o ob = true →
  let '(v, st') := sample C o.(o_now) o.(o_spec) o.(o_readings) ob in
  evaluation o st (MkEvaluated o v (measured o st)) st'.
Proof.
  intros ob Hs. unfold measured. fold ob. rewrite Hs. unfold sample.
  unfold samples in Hs. rewrite !andb_true_iff, !negb_true_iff in Hs. destruct Hs as [[[Ht Hsu] _] _].
  apply bool_decide_eq_true in Ht. apply bool_decide_eq_false in Hsu.
  assert (ob.(started_monotonic) = st.(started_monotonic)
    ∧ ob.(sigterm_sent_at_monotonic) = st.(sigterm_sent_at_monotonic)
    ∧ ob.(sigterm_terminal_state) = st.(sigterm_terminal_state) ∧ ob.(sigkill_emitted) = st.(sigkill_emitted)
    ∧ (ob.(starve_since_monotonic) = None ∨ ob.(starve_since_monotonic) = st.(starve_since_monotonic)))
    as (H1 & H2 & H3 & H4 & H5).
  { unfold ob, observed. destruct (_ && _); simpl; split_and!; auto. }
  clearbody ob.
  destruct (sample_usage _ _) as [[cpu source] rss].
  destruct (bool_decide (rss = None) && bool_decide (cpu = None)) eqn:Hn.
  - apply andb_true_iff in Hn as [_ ->%bool_decide_eq_true].
    destruct (rd_external (o_readings o)); apply ev_quiet; simpl; try done; intros _.
    + by left.
    + destruct H5; [by left|right; left; by auto].
  - destruct (memory_exceeded C (o_spec o) rss) as [why|] eqn:Hm.
    + apply ev_term; simpl; try done; [congruence|by eapply memory_caused|].
      intros ->. by destruct (memory_caused _ _ _ Hm (MkEvaluated o verdict_ok None) eq_refl Hsu 0) as [_ []].
    + destruct (low_cpu C (o_now o) cpu source ob) as [[]|]; simpl.
      * destruct (starve_since_monotonic ob) as [since|] eqn:Hst; simpl.
        -- destruct (Z.leb_spec (starve_window_seconds C) (o_now o - since)).
           ++ apply ev_term; simpl; try done; [congruence|].
              intros _. exists since. split; [destruct H5; congruence|done].
           ++ apply ev_quiet; simpl; try done. intros _. right. left. split; [|by right]. destruct H5; congruence.
        -- apply ev_quiet; simpl; try done. intros _. by right; right.
      * apply ev_quiet; simpl; try done. intros _. by left.
      * apply ev_quiet; simpl; try done. intros _. by left.
Qed.

Lemma evaluate_shape o st : evaluation o st (evaluate_obs o st).1 (evaluate_obs o st).2.
Proof.
  unfold evaluate_obs, evaluate. fold (observed o.(o_spec) st). set (ob := observed _ _).
  assert (ob.(started_monotonic) = st.(started_monotonic)
    ∧ ob.(sigterm_sent_at_monotonic) = st.(sigterm_sent_at_monotonic)
    ∧ ob.(sigterm_terminal_state) = st.(sigterm_terminal_state) ∧ ob.(sigkill_emitted) = st.(sigkill_emitted)
    ∧ (ob.(starve_since_monotonic) = None ∨ ob.(starve_since_monotonic) = st.(starve_since_monotonic)))
    as (H1 & H2 & H3 & H4 & H5).
  { unfold ob, observed. destruct (_ && _); simpl; split_and!; auto. }
  pose proof (sample_shape o st) as Hsample. cbn zeta in Hsample. fold ob in Hsample.
  assert (samples o ob = false → measured o st = None) as Hno.
  { unfold measured. fold ob. by intros ->. }
  clearbody ob. destruct (sigterm_sent_at_monotonic ob) as [sent|] eqn:Hsent.
  - destruct (sigkill_emitted ob) eqn:Hem; simpl; [apply ev_quiet; congruence|].
    destruct (Z.leb_spec (grace_seconds C) (o_now o - sent)); simpl; [|apply ev_quiet; congruence].
    rewrite H3. apply (ev_kill _ _ _ _ sent); simpl; first [done|congruence].
  - unfold samples in *. rewrite Hsent in *.
    assert (measured o st = None → evaluation o st (MkEvaluated o verdict_ok (measured o st)) ob) as Hq.
    { intros ->. apply ev_quiet; try done; [congruence|]. intros _. destruct H5; auto. }
    rewrite (bool_decide_eq_true_2 (None = None)) in * by done.
    destruct (bool_decide (state (o_spec o) = SUSPENDED)) eqn:Hsu; simpl; [by apply Hq, Hno|].
    apply bool_decide_eq_false in Hsu. destruct (wall_time_exceeded C (o_now o) (o_spec o) ob) eqn:Hw; simpl.
    + unfold wall_time_exceeded in Hw. destruct (wall_time_seconds (o_spec o)) as [limit|] eqn:Hlim; [|done].
      apply andb_true_iff in Hw as [He Hw%Z.leb_le].
      apply ev_term; simpl; try done. split; [done|]. simpl. rewrite H1 in Hw. split_and!; try done. lia.
    + destruct (Z.ltb_spec (o_now o - last_sample_monotonic ob) (interval_seconds C)); simpl; [by apply Hq, Hno|].
      specialize (Hsample eq_refl). by destruct (sample C _ _ _ ob).
Qed.

(** Low CPU, measured by every sample from time [t] to the end of [l]. *)
Definition starving_since (l : list evaluated) (t : Z) : Prop :=
  ∃ l1 x l2, l = l1 ++ x :: l2 ∧ x.(ev_obs).(o_now) = t ∧ x.(ev_low) = Some true
    ∧ ∀ y, y ∈ l2 → y.(ev_low) ≠ Some false.

Lemma starving_snoc l t x : starving_since l t → x.(ev_low) ≠ Some false → starving_since (l ++ [x]) t.
Proof.
  intros (l1 & y & l2 & -> & Ht & Hy & Hl) Hx. exists l1, y, (l2 ++ [x]).
  split_and!; [by rewrite <- app_assoc|done|done|]. intros z [?| ->%list_elem_of_singleton]%elem_of_app; auto.
Qed.

(** [t] is the termination of the run [l], labelled and for cause; a starved
    job had measured low CPU, and nothing else, for the whole window. *)
Definition terminated (started : Z) (l : list evaluated) (t : evaluated) (label : JobState) : Prop :=
  ∃ why, t.(ev_verdict) = MkVerdict WD_SIGTERM (Some why) (Some label) ∧ caused started t why label
    ∧ (why = Starvation → ∃ before after since, l = before ++ t :: after
         ∧ starving_since before since ∧ C.(starve_window_seconds) <= t.(ev_obs).(o_now) - since).

Lemma terminated_snoc started l t label x : terminated started l t label → terminated started (l ++ [x]) t label.
Proof.
  intros (why & ? & ? & Hs). exists why. split_and!; [done..|]. intros E.
  destruct (Hs E) as (b & a & since & -> & ? & ?). exists b, (a ++ [x]), since. by rewrite <- app_assoc.
Qed.

Record run_inv (started : Z) (l : list evaluated) (st : WatchdogJobState) : Prop := {
  ri_started : st.(started_monotonic) = started;
  ri_phase :
    match st.(sigterm_sent_at_monotonic) with
    | None => List.filter killing l = [] ∧ st.(sigkill_emitted) = false
              ∧ ∀ t, st.(starve_since_monotonic) = Some t → starving_since l t
    | Some sent =>
      ∃ t label, terminated started l t label ∧ t.(ev_obs).(o_now) = sent
        ∧ st.(sigterm_terminal_state) = Some label
        ∧ if st.(sigkill_emitted)
          then ∃ k, List.filter killing l = [t; k] ∧ k.(ev_verdict).(v_action) = WD_SIGKILL
                 ∧ k.(ev_verdict).(v_terminal_state) = Some label ∧ C.(grace_seconds) <= k.(ev_obs).(o_now) - sent
          else List.filter killing l = [t]
    end;
}.

Lemma filter_snoc {A} (p : A → bool) l x :
  List.filter p (l ++ [x]) = List.filter p l ++ if p x then [x] else [].
Proof. rewrite List.filter_app. simpl. by destruct (p x). Qed.

Lemma run_inv_step started l st o :
  run_inv started l st → run_inv started (l ++ [(evaluate_obs o st).1]) (evaluate_obs o st).2.
Proof.
  intros [Hs Hp]. destruct (evaluate_shape o st) as [st' low E1 E2 E3 E4 Hst|st' low why label E0 E1 E2 E3 E4 Hc Hsv|st' low sent E0 Ek Hg E1 E2 E3 E4].
  - split; [congruence|]. rewrite E2, filter_snoc. simpl. rewrite app_nil_r.
    destruct (sigterm_sent_at_monotonic st) as [sent|].
    + destruct Hp as (t & label & Ht & Hn & Hl & Hk). exists t, label. rewrite E3, E4.
      split_and!; [by apply terminated_snoc|done|done|done].
    + destruct Hp as (Hf & Hk & Hsince). rewrite E4. split_and!; [done|done|]. intros t Ht.
      destruct (Hst eq_refl) as [?|[[Hsame Hlow]|[Hnow Hlow]]]; [congruence| |].
      * apply starving_snoc; [apply Hsince; congruence|]. simpl. destruct Hlow; congruence.
      * exists l, (MkEvaluated o verdict_ok low), []. simpl. split_and!; [done|congruence|done|].
        by intros y ?%not_elem_of_nil.
  - rewrite E0 in Hp. destruct Hp as (Hf & Hk & Hsince). split; [congruence|]. rewrite E2, filter_snoc, Hf. simpl.
    exists (MkEvaluated o (MkVerdict WD_SIGTERM (Some why) (Some label)) low), label. split_and!; [|done|done|by rewrite E4, Hk]. exists why.
    split_and!; [done|congruence|]. intros Hwhy. destruct (Hsv Hwhy) as (since & Hsi & Hw).
    exists l, [], since. split_and!; [done|by apply Hsince|done].
  - rewrite E0 in Hp. destruct Hp as (t & label & Ht & Hn & Hl & Hf). rewrite Ek in Hf.
    split; [congruence|]. rewrite E2. exists t, label.
    split_and!; [by apply terminated_snoc|done|congruence|]. rewrite E4, filter_snoc, Hf. simpl.
    eexists. split_and!; [done|done|exact Hl|exact Hg].
Qed.

Lemma watched_inv started l st : watched (new_watch started) l st → run_inv started l st.
Proof. induction 1 as [|l st o _ IH]; [by split|by apply run_inv_step]. Qed.
End run.


(** ** Host pressure *)

Section pressure.
Context (C : WatchdogConfig).

(** The decisions of a sequence of ticks, each with the jobs running then and
    the pressure read. *)
Fixpoint pressure_run (p : pressure_state) (ticks : list (list string * option Z))
    : list (HostPressureAction * list string * option Z) :=
  match ticks with
  | [] => []
  | (jobs, x) :: ticks =>
    let '(a, ids, p') := check_host_pressure C jobs x p in
    (a, ids, x) :: pressure_run p' ticks
  end.

Definition acts (d : HostPressureAction * list string * option Z) : bool := negb (bool_decide (d.1.1 = HP_NO_OP)).

Definition above (bound : Z) (x : option Z) : Prop := ∃ v, x = Some v ∧ bound <= v.
Definition below (bound : Z) (x : option Z) : Prop := ∃ v, x = Some v ∧ v <= bound.

(** Pause and resume in turn; [held] are the jobs of the pause still to be undone. *)
Fixpoint in_turn (held : option (gset string)) (l : list (HostPressureAction * list string * option Z)) : Prop :=
  match held, l with
  | _, [] => True
  | None, (HP_PAUSE, ids, x) :: l =>
    ids ≠ [] ∧ above C.(host_pressure_pause_pct) x ∧ in_turn (Some (list_to_set ids)) l
  | Some h, (HP_RESUME, ids, x) :: l =>
    NoDup ids ∧ list_to_set ids = h ∧ below C.(host_pressure_resume_pct) x ∧ in_turn None l
  | _, _ => False
  end.

Definition held_of (p : pressure_state) : option (gset string) :=
  if p.(host_pressure_active) then Some p.(host_pressure_paused_jobids) else None.

(** Pauses under memory pressure alternate with resumes, whatever the
    readings: a pause happens only above the upper threshold with jobs to
    pause, a resume only below the lower one, and it names exactly the jobs
    of the pause before it, each once.  The same holds for a daemon that
    re-seeded the jobs it had paused before a restart. *)
Theorem pressure_alternates p ticks :
  in_turn (held_of p) (List.filter acts (pressure_run p ticks)).
Proof.
  revert p. induction ticks as [|[jobs x] ticks IH]; intros p; simpl; [by destruct (held_of p)|].
  unfold check_host_pressure. destruct (negb (enforce_host_pressure_pause C)); [apply IH|].
  destruct x as [x|]; [|apply IH]. specialize (IH p) as IHp. unfold held_of in *.
  destruct (host_pressure_active p); simpl.
  - destruct (Z.leb_spec x (host_pressure_resume_pct C)); simpl; [|exact IHp].
    split_and!; [apply NoDup_elements|apply list_to_set_elements_L|by exists x|]. exact (IH (MkPressure false ∅)).
  - destruct (Z.leb_spec (host_pressure_pause_pct C) x); simpl; [|exact IHp].
    case_bool_decide; simpl; [exact IHp|]. split_and!; [done|by exists x|]. exact (IH (MkPressure true _)).
Qed.
End pressure.
