(* ===== verification/HostWatch.v ===== *)
(** * The daemon's watchdog passes: [_host_pressure_pass], [_watchdog_pass],
    [_reseed_host_pressure_pauses_at_startup] of [src/vq/daemon.py]

    The two machines of [Watchdog.v] applied to the queue and the process
    groups of [Control.v]. *)

From S2P Require Import Prelude Spec Admission DaemonCore Control Watchdog.

Definition HOST_PRESSURE_PAUSE_TAG : string := "watchdog_host_pressure".

(** [Watchdog._states] *)
Abbreviation watches := (gmap string WatchdogJobState).

Section passes.
Context (E : ControlEnv) (C : WatchdogConfig).

(** Every exception of Python's [Exception]; a crash is not one. *)
Definition any_exception (e : control_error) : bool := negb (bool_decide (e = Crashed)).

(** [_read_active_spec] *)
Definition read_active (jobid : string) : CM JobSpec :=
  do? r := look E (λ q, row_of q jobid) in lift r.

(** ** [_host_pressure_pass] *)

Fixpoint running_rows (names : list string) : CM (list string) :=
  match names with
  | [] => ret []
  | jobid :: names =>
    do? here := catch (do? s := read_active jobid in ret (bool_decide (s.(state) = RUNNING)))
                  any_exception (λ _, ret false) in
    do? rest := running_rows names in
    ret (if here : bool then jobid :: rest else rest)
  end.

Fixpoint each_best_effort (f : string → CM unit) (names : list string) : CM unit :=
  match names with
  | [] => ret tt
  | jobid :: names =>
    do? _ := catch (f jobid) any_exception (λ _, ret tt) in each_best_effort f names
  end.

(** The jobs tracked as alive, and the pressure the probe reads. *)
Definition host_pressure_pass (tracked : list string) (pressure : nat → option Z) (p : pressure_state)
    : CM pressure_state :=
  do? current := running_rows tracked in
  do? x := answer pressure in
  let '(action, ids, p') := check_host_pressure C current x p in
  match action with
  | HP_NO_OP => ret p'
  | HP_PAUSE => do? _ := each_best_effort (λ j, pause_job E j (Some HOST_PRESSURE_PAUSE_TAG)) ids in ret p'
  | HP_RESUME => do? _ := each_best_effort (λ j, resume_job E j None) ids in ret p'
  end.

(** [_reseed_host_pressure_pauses_at_startup], over the rows of the scan. *)
Definition reseed_at_startup (rows : list JobSpec) (p : pressure_state) : pressure_state :=
  let tagged := map id (List.filter (λ s, bool_decide (s.(state) = SUSPENDED)
                                          && bool_decide (s.(paused_by) = Some HOST_PRESSURE_PAUSE_TAG)) rows) in
  if negb C.(enforce_host_pressure_pause) then p else reseed_host_pressure_paused tagged p.

(** ** [_watchdog_pass] *)

(** A tracked job: a child of this process, by its pid, or an orphan; in a
    managed container or not. *)
Record target : Type := MkTarget {
  t_jobid : string;
  t_child : option Z;
  t_container : bool;
}.

(** [watchdog.killpg]: the answer is not looked at. *)
Definition killpg (g : Z) (sig : signal) : CM unit :=
  do? _ := signal_process_group E g sig in ret tt.

(** The signals of a verdict: the group the scan's row named, else the child. *)
Definition signal_target (t : target) (spec : JobSpec) (sig : signal) : CM unit :=
  match spec.(pgid) with
  | Some g => do? _ := killpg g SIGCONT in killpg g sig
  | None =>
    match t.(t_child) with
    | Some p => log_effect (SignalledPid p sig)
    | None => ret tt
    end
  end.

(** The label of a termination, under the lock, on the row as it is now. *)
Definition mark_terminated (jobid : string) (label : JobState) : CM unit :=
  do? _ := spec_lock E false in
  do? fresh := catch (do? s := read_row jobid in ret (Some s)) any_exception (λ _, ret None) in
  match fresh with
  | Some s =>
    if is_terminal s then ret tt
    else
      do? now := answer E.(c_utcnow) in
      write_row E jobid (set_finished_at (Some (Aware now)) (set_state label s))
  | None => ret tt
  end.

Definition act_on (t : target) (spec : JobSpec) (v : Verdict) : CM unit :=
  match v.(v_action), v.(v_terminal_state) with
  | WD_OK, _ | _, None => ret tt
  | a, Some label =>
    if t.(t_container) then log_effect (StopRequested t.(t_jobid) (JobState_value label))
    else match a with
         | WD_SIGTERM =>
           do? _ := mark_terminated t.(t_jobid) label in signal_target t spec SIGTERM
         | _ => signal_target t spec SIGKILL
         end
  end.

(** One target: what the watchdog remembers is kept also when acting on its
    verdict raises. *)
Definition watch_one (rd : nat → string → readings) (ws : watches) (t : target)
    : CM (watches * option control_error) :=
  do? row := catch (do? s := read_active t.(t_jobid) in ret (Some s)) any_exception (λ _, ret None) in
  match row with
  | None => ret (ws, None)
  | Some spec =>
    do? now := answer E.(c_monotonic) in
    do? r := answer rd in
    let st := match ws !! t.(t_jobid) with Some st => st | None => new_watch now end in
    let '(v, st') := evaluate C now spec (r t.(t_jobid)) st in
    do? raised := catch (do? _ := act_on t spec v in ret None) any_exception (λ e, ret (Some e)) in
    ret (<[t.(t_jobid) := st']> ws, raised)
  end.

(** In-process jobs first, then orphans; an exception ends the pass. *)
Fixpoint watchdog_pass (rd : nat → string → readings) (ws : watches) (targets : list target)
    : CM (watches * option control_error) :=
  match targets with
  | [] => ret (ws, None)
  | t :: targets =>
    do? r := watch_one rd ws t in
    match r with
    | (ws', None) => watchdog_pass rd ws' targets
    | (ws', Some e) => ret (ws', Some e)
    end
  end.
End passes.
