(* ===== verification/HostWatchGuarantees.v ===== *)
(** * What the watchdog passes guarantee

    They take no verdict back and leave no stopped job unrecorded; and what a
    retry inherits from the pauses of the attempt before it. *)

From S2P Require Import Prelude Spec Admission DaemonCore Dispatch DaemonLogic Launch Reap LaunchSafety Control ControlGuarantees Watchdog HostWatch.

Section moves.
Context (R : string → request) (K : string → Prop) (E : ControlEnv) (C : WatchdogConfig).
Context (Hothers : ∀ n q, neighbourly R K q (E.(c_interfere) n q)) (HE : rely E).

(** Both at once: rows are rewritten as a neighbour may, stopped jobs stay recorded. *)
Definition well {A} (m : CM A) : Prop := moves R K m ∧ keeps_record m.

Lemma well_bind {A B} (m : CM A) (k : A → CM B) : well m → (∀ a, well (k a)) → well (bind m k).
Proof.
  intros [Hm1 Hm2] Hk. split; [apply moves_bind|apply record_bind]; try done; intros a; apply (Hk a).
Qed.

(** What a computation answers. *)
Definition gives {A} (m : CM A) (P : A → Prop) : Prop := ∀ w a w', m w = (Ok a, w') → P a.

Lemma well_bind_gives {A B} (m : CM A) (P : A → Prop) (k : A → CM B) :
  well m → gives m P → (∀ a, P a → well (k a)) → well (bind m k).
Proof.
  intros [Hm1 Hm2] Hg Hk. split; intros w; [|intros Hw]; unfold post, bind.
  - specialize (Hm1 w). unfold post in Hm1. destruct (m w) as [[a|e] w1] eqn:Em; simpl in *; [|done].
    etransitivity; [exact Hm1|]. apply (Hk a (Hg _ _ _ Em)).
  - specialize (Hm2 w Hw). unfold post in Hm2. destruct (m w) as [[a|e] w1] eqn:Em; simpl in *; [|done].
    by apply (Hk a (Hg _ _ _ Em)).
Qed.

Lemma well_catch {A} (m : CM A) (h : control_error → bool) (k : control_error → CM A) :
  well m → (∀ e, well (k e)) → well (catch m h k).
Proof.
  intros [Hm1 Hm2] Hk. split; [apply moves_catch|apply record_catch]; try done; intros e; apply (Hk e).
Qed.

Lemma well_ret {A} (a : A) : well (ret a).
Proof. split; [apply moves_ret|apply record_ret]. Qed.

Lemma well_look {A} (f : queue_dir → A) : well (look E f).
Proof. split; [by apply moves_look|by apply record_look]. Qed.

Lemma well_still {A} (m : CM A) : (∀ w, (m w).2.(cw_queue) = w.(cw_queue) ∧ (m w).2.(cw_groups) = w.(cw_groups)) → well m.
Proof.
  intros Hm. split; intros w; unfold post; destruct (Hm w) as [Hq Hg].
  - rewrite Hq. reflexivity.
  - intros Hw. unfold fine. by rewrite Hq, Hg.
Qed.

Lemma well_signal g sig : sig ≠ SIGSTOP → well (signal_process_group E g sig).
Proof.
  intros Hs. split; intros w.
  - apply still_signal. intros r w' ->. reflexivity.
  - intros Hw. by apply signal_rule.
Qed.

Lemma well_read_active jobid : well (read_active E jobid).
Proof. apply well_bind; [apply well_look|]. intros r. by apply well_still. Qed.

Lemma well_pause jobid by_ : well (pause_job E jobid by_).
Proof. split; [by apply (command_moves R K E Hothers (Pause jobid by_))|by apply (command_record E HE (Pause jobid by_))]. Qed.

Lemma well_resume jobid by_ : well (resume_job E jobid by_).
Proof. split; [by apply (command_moves R K E Hothers (Resume jobid by_))|by apply (command_record E HE (Resume jobid by_))]. Qed.

Lemma well_best_effort f names : (∀ j, well (f j)) → well (each_best_effort f names).
Proof.
  intros Hf. induction names as [|j names IH]; simpl; [apply well_ret|]. apply well_bind; [|done].
  apply well_catch; [apply Hf|intros; apply well_ret].
Qed.

Lemma well_running names : well (running_rows E names).
Proof.
  induction names as [|j names IH]; simpl; [apply well_ret|]. apply well_bind.
  - apply well_catch; [|intros; apply well_ret]. apply well_bind; [apply well_read_active|intros; apply well_ret].
  - intros here. apply well_bind; [done|intros; apply well_ret].
Qed.

Lemma pressure_pass_well tracked pressure p : well (host_pressure_pass E C tracked pressure p).
Proof.
  unfold host_pressure_pass. apply well_bind; [apply well_running|]. intros current.
  apply well_bind; [by apply well_still|]. intros x.
  destruct (check_host_pressure C current x p) as [[[] ids] p']; [apply well_ret|..];
    (apply well_bind; [|intros; apply well_ret]); apply well_best_effort; intros j;
    [apply well_pause|apply well_resume].
Qed.

Lemma well_mark jobid label : state_is_terminal label = true → well (mark_terminated E jobid label).
Proof.
  intros Hl. unfold mark_terminated. apply well_bind; [split; [by apply moves_lock|by apply record_lock]|]. intros _.
  assert (∀ w P, (∀ r, (∀ s, r = Ok (Some s) → w.(cw_queue) !! jobid = Some (Some s)) → P r w) →
    post (catch (do? s := read_row jobid in ret (Some s)) any_exception (λ _, ret None)) P w) as Hread.
  { intros w P HP. apply post_catch, post_bind, read_rule.
    - intros s Hs. by apply HP; intros s' [= <-].
    - intros e. destruct (any_exception e); by apply HP. }
  split; intros w; [|intros Hw]; apply post_bind, Hread; intros [[s|]|e] Hs; simpl; try done; try reflexivity.
  - specialize (Hs s eq_refl). destruct (is_terminal s) eqn:Ht; [unfold post; simpl; reflexivity|].
    apply post_bind, still_answer. intros [now|e] w1 Hq1; rewrite <- Hq1 in *; [|unfold post; simpl; reflexivity].
    apply (moves_write R K E jobid s); [done|by apply live_step|done].
  - specialize (Hs s eq_refl). destruct (is_terminal s) eqn:Ht; [done|].
    apply post_bind, answer_rule; [done|]. intros now w1 Hw1 Hq1 _. rewrite <- Hq1 in Hs.
    apply (write_rule E HE); [done|by apply (ended_write _ _ s)|done].
Qed.

Lemma well_signal_target t spec sig : sig ≠ SIGSTOP → well (signal_target E t spec sig).
Proof.
  intros Hs. unfold signal_target. destruct (pgid spec) as [g|].
  - apply well_bind; [apply well_bind; [by apply well_signal|intros; apply well_ret]|]. intros _.
    apply well_bind; [by apply well_signal|intros; apply well_ret].
  - destruct (t_child t); by apply well_still.
Qed.

Lemma well_act t spec v :
  (∀ label, v.(v_terminal_state) = Some label → state_is_terminal label = true) → well (act_on E t spec v).
Proof.
  intros Hv. unfold act_on. destruct (v_action v), (v_terminal_state v) as [label|] eqn:Hl; try apply well_ret.
  - destruct (t_container t); [by apply well_still|].
    apply well_bind; [apply well_mark; auto|intros _; by apply well_signal_target].
  - destruct (t_container t); [by apply well_still|by apply well_signal_target].
Qed.

(** The labels a watch remembers are terminal. *)
Definition labels_ok (ws : watches) : Prop :=
  ∀ j st label, ws !! j = Some st → st.(sigterm_terminal_state) = Some label → state_is_terminal label = true.

Lemma evaluate_labels now spec rd st v st' :
  evaluate C now spec rd st = (v, st') →
  (∀ label, st.(sigterm_terminal_state) = Some label → state_is_terminal label = true) →
  (∀ label, v.(v_terminal_state) = Some label → state_is_terminal label = true)
  ∧ (∀ label, st'.(sigterm_terminal_state) = Some label → state_is_terminal label = true).
Proof.
  unfold evaluate. set (ob := set_observed _ _).
  assert (ob.(sigterm_terminal_state) = st.(sigterm_terminal_state)) as Hob by (unfold ob; by destruct (_ && _)).
  clearbody ob. rewrite <- Hob. clear Hob. intros Hev Hst.
  assert (∀ w l (x : WatchdogJobState), escalate now l w x = (v, st') → state_is_terminal l = true →
    (∀ label, v.(v_terminal_state) = Some label → state_is_terminal label = true)
    ∧ (∀ label, st'.(sigterm_terminal_state) = Some label → state_is_terminal label = true)) as Hesc.
  { intros w l x [= <- <-] Hl. split; by intros ? [= <-]. }
  destruct (sigterm_sent_at_monotonic ob); [|].
  { destruct (sigkill_emitted ob); [by simplify_eq|]. destruct (_ <=? _); by simplify_eq. }
  destruct (bool_decide _); [by simplify_eq|]. destruct (wall_time_exceeded _ _ _ _); [by eapply Hesc|].
  destruct (_ <? _); [by simplify_eq|]. unfold sample in Hev.
  destruct (sample_usage _ _) as [[cpu source] rss]. destruct (_ && _).
  { destruct (rd_external rd); by simplify_eq. }
  destruct (memory_exceeded _ _ _); [by eapply Hesc|]. destruct (low_cpu _ _ _ _ _) as [[]|]; [|by simplify_eq..].
  destruct (starve_since_monotonic _); [|by simplify_eq]. destruct (_ <=? _); [by eapply Hesc|by simplify_eq].
Qed.

Lemma well_watch_one rd ws t : labels_ok ws → well (watch_one E C rd ws t) ∧ gives (watch_one E C rd ws t) (λ r, labels_ok r.1).
Proof.
  intros Hws. unfold watch_one.
  assert (well (catch (do? s := read_active E (t_jobid t) in ret (Some s)) any_exception (λ _, ret None))) as Hrow.
  { apply well_catch; [|intros; apply well_ret]. apply well_bind; [apply well_read_active|intros; apply well_ret]. }
  assert (∀ now spec r v st',
    evaluate C now spec (r (t_jobid t)) match ws !! t_jobid t with Some st => st | None => new_watch now end = (v, st') →
    (∀ label, v.(v_terminal_state) = Some label → state_is_terminal label = true)
    ∧ labels_ok (<[t_jobid t := st']> ws)) as Hev.
  { intros now spec r v st' Hev. destruct (evaluate_labels _ _ _ _ _ _ Hev) as [Hv Hst'].
    { intros label. destruct (ws !! t_jobid t) as [st|] eqn:Hst; [by apply (Hws _ _ _ Hst)|done]. }
    split; [done|]. intros j st label [[_ <-]|[_ Hj]]%lookup_insert_Some; [apply Hst'|by apply (Hws _ _ _ Hj)]. }
  split.
  - apply well_bind; [exact Hrow|]. intros [spec|]; [|apply well_ret].
    apply well_bind; [by apply well_still|]. intros now. apply well_bind; [by apply well_still|]. intros r.
    destruct (evaluate C now spec _ _) as [v st'] eqn:Hv. destruct (Hev _ _ _ _ _ Hv) as [Hl _].
    apply well_bind; [|intros; apply well_ret]. apply well_catch; [|intros; apply well_ret].
    apply well_bind; [by apply well_act|intros; apply well_ret].
  - intros w a w'. unfold bind. destruct (catch _ _ _ w) as [[[spec|]|e] w1]; [|by intros [= <- _]|done]. simpl.
    destruct (evaluate C _ spec _ _) as [v st'] eqn:Hv. destruct (Hev _ _ (λ j, rd _ j) _ _ Hv) as [_ Hl].
    destruct (catch _ _ _ _) as [[raised|e] w2]; [|done]. by intros [= <- _].
Qed.

(** The watchdog's passes are good citizens.  Whatever the readings, a
    pass over the tracked jobs and a pass for host pressure, every step
    failing or not, take no terminal verdict back and change no job's
    identity or request; and a job they leave stopped is recorded as
    SUSPENDED or as being paused. *)
Theorem watch_passes_safe tracked pressure p rd ws targets w :
  labels_ok ws → recorded w.(cw_queue) w.(cw_groups) →
  let w1 := (host_pressure_pass E C tracked pressure p w).2 in
  let w2 := (watchdog_pass E C rd ws targets w).2 in
  neighbourly R K w.(cw_queue) w1.(cw_queue) ∧ recorded w1.(cw_queue) w1.(cw_groups)
  ∧ neighbourly R K w.(cw_queue) w2.(cw_queue) ∧ recorded w2.(cw_queue) w2.(cw_groups).
Proof.
  intros Hws Hw. destruct (pressure_pass_well tracked pressure p) as [Hm Hr].
  split; [apply Hm|]. split; [exact (Hr w Hw)|]. clear Hm Hr.
  assert (well (watchdog_pass E C rd ws targets)) as [Hm Hr]; [|split; [apply Hm|exact (Hr w Hw)]].
  clear w Hw. revert ws Hws. induction targets as [|t targets IH]; intros ws Hws; simpl; [apply well_ret|].
  destruct (well_watch_one rd ws t Hws) as [H1 H2]. apply (well_bind_gives _ _ _ H1 H2).
  intros [ws' [e|]] Hws'; [apply well_ret|by apply IH].
Qed.
End moves.

(** A retry inherits the pauses of the attempts before it.
    [_maybe_retry], which clears the fields of the run, keeps
    [paused_seconds_total]; so the new attempt, whose own clock starts at its
    dispatch and which was never paused, may run for its wall time limit and,
    on top of it, for as long as the earlier attempts had been paused. *)
Theorem retry_inherits_pauses C jobid at_ repaired s s' limit started now :
  maybe_retry jobid at_ repaired s = Some s' → s.(wall_time_seconds) = Some limit → C.(enforce_wall_time) = true →
  wall_time_exceeded C now (set_state RUNNING s') (new_watch started) = true
  ↔ limit * 1000 * TICKS_PER_SECOND + s.(paused_seconds_total) * TICKS_PER_SECOND <= (now - started) * 1000.
Proof.
  unfold maybe_retry. destruct (_ <=? 0); [done|]. destruct (_ <=? _); [done|]. destruct (negb _); [done|].
  intros [= <-] Hlim He. unfold wall_time_exceeded. simpl. rewrite Hlim, He. simpl. rewrite Z.leb_le. lia.
Qed.
