(* ===== verification/ControlWitnesses.v ===== *)
(** * Job control and the watchdog at work

    Concrete commands, crashes and evaluations at which the theorems about
    job control and the watchdog are applied; an operator whose pause is
    undone by the host-pressure pass; and a resume that strands a job. *)

From S2P Require Import Prelude Spec Admission DaemonCore Dispatch DaemonLogic Launch Reap LaunchSafety Control ControlGuarantees ControlRecovery Watchdog WatchdogGuarantees HostWatch HostWatchGuarantees DaemonWitnesses.

Import Demo.

Module Host.

(** The job [a], running in group 4242, the only one of the host. *)
Definition run_a : JobSpec := set_pgid (Some 4242) (set_pid (Some 4242) (set_state RUNNING (job "a"))).

Definition control_queue (s : JobSpec) : queue_dir := {[ "a" := Some s ]}.
Definition groups : gmap Z group_state := {[ 4242 := GRunning ]}.
Definition on_host (s : JobSpec) : cworld := MkCWorld (control_queue s) groups 0 [].

(** A host where the command dies before step [crash_at], and where the wall
    clock reads [wall]; other writers do [others]. *)
Definition control_env (others : nat → queue_dir → queue_dir) (crash_at : option nat) (wall : Z) : ControlEnv :=
  {| c_interfere := others; c_groups := λ _ G, G; c_crash := λ n, bool_decide (Some n = crash_at);
     c_write_fails := λ _, false; c_lock_busy := λ _, false; c_denied := λ _ _, false;
     c_kill_pid := λ _ _, Delivered; c_getpgrp := 1; c_utcnow := λ _, wall;
     c_monotonic := λ n, 1000 * Z.of_nat n; c_container := λ _ _, false; c_cancel := λ _ _, true |}.

Definition calm_host : ControlEnv := control_env (λ _ q, q) None 5.

Lemma control_env_rely crash_at wall : rely (control_env (λ _ q, q) crash_at wall).
Proof. split; [by intros n G g|done]. Qed.

Lemma one_row_recorded s : s.(pgid) = Some 4242 → recorded (control_queue s) groups.
Proof.
  intros Hg. split.
  - intros name s' g (Hn & _ & Hg') Hst. unfold control_queue in Hn.
    apply lookup_singleton_Some in Hn as [_ [= <-]]. rewrite Hg in Hg'. injection Hg' as <-. done.
  - intros n1 n2 s1 s2 g (H1 & _) (H2 & _). unfold control_queue in *.
    apply lookup_singleton_Some in H1 as [<- _], H2 as [<- _]. done.
Qed.

Lemma calm_still crash_at wall jobid : row_still (control_env (λ _ q, q) crash_at wall) jobid.
Proof. done. Qed.

Lemma calm_faultless : faultless calm_host.
Proof. by split. Qed.
End Host.

Import Host.

(** ** Pauses *)

(** The pauser dies after SIGSTOP, before it recorded the suspension. *)
Definition dead_pauser : ControlEnv := control_env (λ _ q, q) (Some 7%nat) 5.
Definition half_paused : res control_error unit * cworld := pause_job dead_pauser "a" (Some "me") (on_host run_a).

Lemma stopped_jobs_recorded_witness :
  half_paused.1 = Err Crashed
  ∧ ∃ s, half_paused.2.(cw_queue) !! "a" = Some (Some s) ∧ s.(state) = RUNNING
     ∧ half_paused.2.(cw_groups) !! 4242 = Some GStopped ∧ stop_known s 4242.
Proof.
  split; [vm_compute; reflexivity|]. eexists. split; [vm_compute; reflexivity|]. split; [vm_compute; reflexivity|].
  split; [vm_compute; reflexivity|].
  apply (stopped_jobs_recorded dead_pauser [Pause "a" (Some "me")] (on_host run_a) "a");
    [apply control_env_rely|by apply one_row_recorded|split_and!; vm_compute; reflexivity|vm_compute; reflexivity].
Defined.


Lemma pause_cycle_billed_witness :
  ∃ r, resumed_spec (2 * TICKS_PER_SECOND) 9 (finish_pause_from_intent (armed_spec 5 TICKS_PER_SECOND 4242 None run_a)) = Ok r
    ∧ r.(paused_seconds_total) = 1000.
Proof.
  destruct (pause_cycle_billed 5 TICKS_PER_SECOND 4242 None (2 * TICKS_PER_SECOND) 9 run_a) as (r & Hr & _);
    [vm_compute; discriminate|vm_compute; discriminate|].
  exists r. split; [exact Hr|]. vm_compute in Hr. injection Hr as <-. vm_compute. reflexivity.
Defined.

(** A row paused before monotonic times were recorded, at wall time 9; by now
    the wall clock was set back to 5. *)
Definition old_pause : JobSpec := set_paused_at (Some (Aware (9 * TICKS_PER_SECOND))) (set_state SUSPENDED run_a).
Definition stopped_host : cworld := MkCWorld (control_queue old_pause) {[ 4242 := GStopped ]} 0 [].

(** A resume can leave a running job marked SUSPENDED.  For a row without
    a monotonic time, when the wall clock has been set back since the pause,
    the accumulated total becomes negative, its validation raises after
    SIGCONT was delivered, and the row still says SUSPENDED: the job runs,
    and the watchdog, which skips suspended jobs, enforces nothing on it. *)
Theorem resume_clock_step_strands :
  ∃ w s, resume_job (control_env (λ _ q, q) None (5 * TICKS_PER_SECOND)) "a" None stopped_host = (Err CValueError, w)
    ∧ w.(cw_queue) !! "a" = Some (Some s) ∧ s.(state) = SUSPENDED ∧ w.(cw_groups) !! 4242 = Some GRunning
    ∧ ∀ C now rd started,
        (evaluate C now s rd (new_watch started)).1 = verdict_ok.
Proof.
  eexists _, old_pause. split; [vm_compute; reflexivity|]. split; [vm_compute; reflexivity|].
  split; [reflexivity|]. split; [vm_compute; reflexivity|]. intros C now rd started. reflexivity.
Qed.

(** ** Kills *)

Definition killed : res control_error (kill_outcome * cancel_outcome) * cworld :=
  kill_job calm_host "a" (Some "too  slow") (on_host run_a).

Lemma kill_exact_witness :
  killed.1 = Ok (KilledActive true false, NoScheduler)
  ∧ ∃ s1, sees "a" s1 killed.2 ∧ killed_as "killed by vq/operator request: too slow" run_a s1.
Proof.
  split; [vm_compute; reflexivity|].
  destruct (kill_exact calm_host "a" (Some "too  slow") run_a (on_host run_a)
    (Ok (KilledActive true false, NoScheduler)) killed.2) as ((s1 & Hs1 & Hk) & _);
    [done|vm_compute; reflexivity|vm_compute; reflexivity|].
  exists s1. split; [exact Hs1|]. destruct Hk as (_ & _ & Hk & _). vm_compute in Hk. exact Hk.
Defined.

(** The daemon's queue under sessions of control commands. *)
Lemma control_respects_daemon_witness :
  queue_ok requests (λ _, True) (MkQueueEnv
    (λ n q, (session calm_host [Pause "a" None; Kill "a" None] (MkCWorld q groups n [])).(cw_queue)) (λ _, false)).
Proof.
  apply (control_respects_daemon requests (λ _, True) calm_host (λ _, [Pause "a" None; Kill "a" None]) (λ _, groups)
    (λ n, n) (λ _, false)).
  intros n q. reflexivity.
Defined.

(** ** The watchdog *)

(** The default settings, on a host of 64 GB. *)
Definition defaults : WatchdogConfig :=
  MkWatchdogConfig (5 * TICKS_PER_SECOND) (10 * TICKS_PER_SECOND) (90 * TICKS_PER_SECOND) (5 * TICKS_PER_SECOND)
    (300 * TICKS_PER_SECOND) (Some 65536) true true (85 * TICKS_PER_SECOND) (70 * TICKS_PER_SECOND) true.

(** [a] takes 60 GB, does not go on SIGTERM, and is killed after the grace. *)
Definition bloated (now : Z) : observation :=
  MkObservation (now * TICKS_PER_SECOND) run_a
    (MkReadings None (Some (Some 7, Some 61440)) (None, None) (None, None)).

Definition watch_states : list WatchdogJobState :=
  let st1 := (evaluate_obs defaults (bloated 100) (new_watch 0)).2 in
  let st2 := (evaluate_obs defaults (bloated 105) st1).2 in
  [st1; st2; (evaluate_obs defaults (bloated 110) st2).2].


Lemma labels_none : labels_ok ∅.
Proof. intros j st label Hj. by rewrite lookup_empty in Hj. Qed.

Lemma watch_passes_safe_witness :
  let w1 := (host_pressure_pass calm_host defaults ["a"] (λ _, Some (90 * TICKS_PER_SECOND)) (MkPressure false ∅) (on_host run_a)).2 in
  w1.(cw_groups) !! 4242 = Some GStopped ∧ recorded w1.(cw_queue) w1.(cw_groups).
Proof.
  intros w1. split; [vm_compute; reflexivity|].
  exact (proj1 (proj2 (watch_passes_safe requests (λ _, True) calm_host defaults (λ n q, reflexivity q)
    (control_env_rely None 5) ["a"] (λ _, Some (90 * TICKS_PER_SECOND)) (MkPressure false ∅)
    (λ _ _, MkReadings None None (None, None) (None, None)) ∅ [] (on_host run_a) labels_none
    (one_row_recorded run_a eq_refl)))).
Defined.

(** [a] was paused for an hour before it failed; it has two retries and a
    limit of an hour. *)
Definition paused_once : JobSpec := set_paused_seconds_total (3600 * 1000) run_a.
Lemma retry_inherits_pauses_witness :
  ∃ s', maybe_retry "a" 0 true paused_once = Some s'
    ∧ ∀ now, wall_time_exceeded defaults now (set_state RUNNING s') (new_watch 0) = true
             ↔ 3600 * 1000 * TICKS_PER_SECOND + 3600 * 1000 * TICKS_PER_SECOND <= (now - 0) * 1000.
Proof.
  eexists. split; [vm_compute; reflexivity|]. intros now.
  exact (retry_inherits_pauses defaults "a" 0 true paused_once _ 3600 0 now eq_refl eq_refl eq_refl).
Defined.

(** An operator pauses [a] just before the pass does. *)
Definition operator_paused : JobSpec :=
  set_paused_by (Some "operator") (set_paused_monotonic_at (Some 1) (set_paused_at (Some (Aware 1)) (set_state SUSPENDED run_a))).
Definition operator_env : ControlEnv :=
  {| c_interfere := λ n q, if bool_decide (n = 2)%nat then control_queue operator_paused else q;
     c_groups := λ n G, if bool_decide (n = 2)%nat then {[ 4242 := GStopped ]} else G;
     c_crash := λ _, false; c_write_fails := λ _, false; c_lock_busy := λ _, false; c_denied := λ _ _, false;
     c_kill_pid := λ _ _, Delivered; c_getpgrp := 1; c_utcnow := λ _, 5; c_monotonic := λ n, 1000 * Z.of_nat n;
     c_container := λ _ _, false; c_cancel := λ _ _, true |}.

(** The host-pressure pass can undo an operator's pause.  It remembers
    every job it meant to pause, also one whose [pause_job] it saw refused
    because the operator had just paused it, and resumes them all without a
    tag: when the pressure recedes the operator's job runs again. *)
Theorem pressure_resumes_operator_pause :
  ∃ p1 w1 s1 p2 w2 s2,
    host_pressure_pass operator_env defaults ["a"] (λ _, Some (90 * TICKS_PER_SECOND)) (MkPressure false ∅) (on_host run_a)
      = (Ok p1, w1)
    ∧ w1.(cw_queue) !! "a" = Some (Some s1) ∧ s1.(state) = SUSPENDED ∧ s1.(paused_by) = Some "operator"
    ∧ host_pressure_pass operator_env defaults ["a"] (λ _, Some (10 * TICKS_PER_SECOND)) p1 w1 = (Ok p2, w2)
    ∧ w2.(cw_queue) !! "a" = Some (Some s2) ∧ s2.(state) = RUNNING ∧ w2.(cw_groups) !! 4242 = Some GRunning.
Proof.
  eexists _, _, _, _, _, _. split; [vm_compute; reflexivity|].
  split_and!; try (vm_compute; reflexivity).
Qed.
