(* ===== verification/Relay.v ===== *)
(** * The gateway's relay store: [src/vq/gateway/relay.py]

    In relay mode the gateway holds admitted jobs for a connector that makes
    only outbound requests: it claims work items, drives its local broker and
    acknowledges each outcome.  This file is [RelayStore]: one JSON file per
    job, the buffered logs and the results a connector pushes.  Every
    operation runs under the store's file lock, so it is one function over the
    store; what it wrote before it raised stays written. *)

From S2P Require Import Prelude Spec Json BrokerRecord.

(** ** Time

    A moment is an integer number of microseconds; [_iso] keeps whole seconds. *)

Definition MICROS : Z := 1000000.
Definition iso (moment : Z) : Z := moment / MICROS * MICROS.

Definition LEASE : Z := 120 * MICROS.
Definition FRESH : Z := 90 * MICROS.
Definition LOGS_WANTED_FOR : Z := 600 * MICROS.
Definition LOG_BUFFER_CAP : Z := 16 * 1024 * 1024.
Definition LOG_STREAMS : list string := ["stdout"; "stderr"].

(** [json.dumps(v, sort_keys=True)] and [str] on a JSON value that is not a
    string: the interpreter's text forms. *)
Class TextForms : Type := {
  dumps_sorted : json → string;
  str_other : json → string;
}.

Definition py_str `{TextForms} (j : json) : string :=
  match j with JStr s => s | _ => str_other j end.

(** Python truth of a JSON value. *)
Definition truthy (j : json) : bool :=
  match j with
  | JNull => false
  | JBool b => b
  | JInt z => negb (z =? 0)
  | JFloat (FFin t) => negb (t =? 0)
  | JFloat _ => true
  | JStr s => negb (String.eqb s "")
  | JList l => negb (bool_decide (length l = 0%nat))
  | JObj kvs => negb (bool_decide (length kvs = 0%nat))
  end.

(** ** Exceptions

    [RelayError] carries the HTTP status; [ResumeAt n] is the one whose
    message, ["resume at byte n"], the connector reads back.  [FsError] is an
    [OSError], [JsonError] a file [json.loads] refuses. *)
Inductive relay_error : Type :=
| RelayError (status : Z) (message : string)
| ResumeAt (size : Z)
| FsError | JsonError | RelayTypeError.

Definition relay_status (e : relay_error) : option Z :=
  match e with
  | RelayError status _ => Some status
  | ResumeAt _ => Some 409
  | _ => None
  end.

(** ** Records *)

Inductive transfer_state : Type :=
| TRANSFER_QUEUED | TRANSFER_CLAIMED | TRANSFER_ACCEPTED | TRANSFER_REFUSED
| TRANSFER_UNCERTAIN | TRANSFER_CANCELLED.

#[global] Instance transfer_state_eq_dec : EqDecision transfer_state.
Proof. solve_decision. Defined.

Definition transfer_text (t : transfer_state) : string :=
  match t with
  | TRANSFER_QUEUED => "queued" | TRANSFER_CLAIMED => "claimed"
  | TRANSFER_ACCEPTED => "accepted" | TRANSFER_REFUSED => "refused"
  | TRANSFER_UNCERTAIN => "uncertain" | TRANSFER_CANCELLED => "cancelled"
  end.

Definition CLAIMABLE (t : transfer_state) : bool :=
  match t with
  | TRANSFER_QUEUED | TRANSFER_CLAIMED | TRANSFER_UNCERTAIN => true
  | _ => false
  end.

Inductive cancel_state : Type := CANCEL_REQUESTED | CANCEL_STOPPED | CANCEL_NOT_STOPPED.

#[global] Instance cancel_state_eq_dec : EqDecision cancel_state.
Proof. solve_decision. Defined.

Definition cancel_text (c : cancel_state) : string :=
  match c with
  | CANCEL_REQUESTED => "requested" | CANCEL_STOPPED => "stopped"
  | CANCEL_NOT_STOPPED => "not-stopped"
  end.

Inductive collect_state : Type :=
| COLLECT_REQUESTED | COLLECT_DONE | COLLECT_NOT_FINISHED | COLLECT_FAILED.

#[global] Instance collect_state_eq_dec : EqDecision collect_state.
Proof. solve_decision. Defined.

Definition collect_text (c : collect_state) : string :=
  match c with
  | COLLECT_REQUESTED => "requested" | COLLECT_DONE => "done"
  | COLLECT_NOT_FINISHED => "not-finished" | COLLECT_FAILED => "failed"
  end.

Record RelayCancel : Type := MkRelayCancel {
  cn_state : cancel_state;
  cn_requested_at : Z;
  cn_reason : string;
  cn_epoch : Z;
  cn_lease_until : option Z;
  cn_settled_at : option Z;
}.

Record RelayCollect : Type := MkRelayCollect {
  cl_state : collect_state;
  cl_epoch : Z;
  cl_lease_until : option Z;
  cl_requested_at : Z;
  cl_byte_budget : Z;
  cl_detail : option string;
}.

Record RelayRecord : Type := MkRelayRecord {
  g_job_id : string;
  g_principal : string;
  g_project : string;
  g_key_id : string;
  g_scoped_key : string;
  g_request : list (string * json);
  g_request_digest : string;
  g_upload_id : string;
  g_upload_sha256 : string;
  g_upload_size : Z;
  g_transfer : transfer_state;
  g_epoch : Z;
  g_lease_until : option Z;
  g_broker_job_id : option string;
  g_refused_reason : option string;
  g_view : option (list (string * json));
  g_view_at : option Z;
  g_created_at : Z;
  g_updated_at : Z;
  g_cancel : option RelayCancel;
  g_collect : option RelayCollect;
  g_logs_wanted_until : option Z;
}.

#[global] Instance RelayCancel_eq_dec : EqDecision RelayCancel.
Proof. solve_decision. Defined.
#[global] Instance RelayCollect_eq_dec : EqDecision RelayCollect.
Proof. solve_decision. Defined.
#[global] Instance RelayRecord_eq_dec : EqDecision RelayRecord.
Proof. solve_decision. Defined.

(** The item assignments of the code, one setter for the fields a step
    changes together. *)
Definition with_transfer (r : RelayRecord) (t : transfer_state) (epoch : Z) (lease : option Z)
    (broker_id refused : option string) (updated : Z) : RelayRecord :=
  {| g_job_id := r.(g_job_id); g_principal := r.(g_principal); g_project := r.(g_project);
     g_key_id := r.(g_key_id); g_scoped_key := r.(g_scoped_key); g_request := r.(g_request);
     g_request_digest := r.(g_request_digest); g_upload_id := r.(g_upload_id);
     g_upload_sha256 := r.(g_upload_sha256); g_upload_size := r.(g_upload_size);
     g_transfer := t; g_epoch := epoch; g_lease_until := lease;
     g_broker_job_id := broker_id; g_refused_reason := refused;
     g_view := r.(g_view); g_view_at := r.(g_view_at); g_created_at := r.(g_created_at);
     g_updated_at := updated; g_cancel := r.(g_cancel); g_collect := r.(g_collect);
     g_logs_wanted_until := r.(g_logs_wanted_until) |}.

(** The requests and reports kept beside the transfer. *)
Definition with_requests (r : RelayRecord) (cancel : option RelayCancel)
    (collect : option RelayCollect) (logs_wanted : option Z) (updated : Z) : RelayRecord :=
  {| g_job_id := r.(g_job_id); g_principal := r.(g_principal); g_project := r.(g_project);
     g_key_id := r.(g_key_id); g_scoped_key := r.(g_scoped_key); g_request := r.(g_request);
     g_request_digest := r.(g_request_digest); g_upload_id := r.(g_upload_id);
     g_upload_sha256 := r.(g_upload_sha256); g_upload_size := r.(g_upload_size);
     g_transfer := r.(g_transfer); g_epoch := r.(g_epoch); g_lease_until := r.(g_lease_until);
     g_broker_job_id := r.(g_broker_job_id); g_refused_reason := r.(g_refused_reason);
     g_view := r.(g_view); g_view_at := r.(g_view_at); g_created_at := r.(g_created_at);
     g_updated_at := updated; g_cancel := cancel; g_collect := collect;
     g_logs_wanted_until := logs_wanted |}.

Definition with_view (r : RelayRecord) (view : list (string * json)) (at_ : Z) : RelayRecord :=
  {| g_job_id := r.(g_job_id); g_principal := r.(g_principal); g_project := r.(g_project);
     g_key_id := r.(g_key_id); g_scoped_key := r.(g_scoped_key); g_request := r.(g_request);
     g_request_digest := r.(g_request_digest); g_upload_id := r.(g_upload_id);
     g_upload_sha256 := r.(g_upload_sha256); g_upload_size := r.(g_upload_size);
     g_transfer := r.(g_transfer); g_epoch := r.(g_epoch); g_lease_until := r.(g_lease_until);
     g_broker_job_id := r.(g_broker_job_id); g_refused_reason := r.(g_refused_reason);
     g_view := Some view; g_view_at := Some at_; g_created_at := r.(g_created_at);
     g_updated_at := r.(g_updated_at); g_cancel := r.(g_cancel); g_collect := r.(g_collect);
     g_logs_wanted_until := r.(g_logs_wanted_until) |}.

(** ** The store

    A job file holds a record or is unreadable.  [rd_incoming] is the
    directory results are pushed into: its files by relative path, and the
    directories made for them. *)

Inductive job_file : Type := JobFile (r : RelayRecord) | JobGarbage.

Record incoming_dir : Type := MkIncoming {
  in_files : gmap string string;
  in_dirs : gset string;
}.

Record results_manifest : Type := MkManifest {
  rm_job_id : string;
  rm_collected_at : Z;
  rm_target_state : json;
  rm_files : list json;
  rm_skipped : list string;
}.

Record result_dir : Type := MkResultDir {
  rd_incoming : option incoming_dir;
  rd_files : option (gmap string string);
  rd_manifest : option results_manifest;
}.

Record relay : Type := MkRelay {
  r_jobs : gmap string job_file;
  r_logs : gmap (string * string) (string * Z);
  r_results : gmap string result_dir;
  r_withheld : gmap string Z;
}.

Definition set_jobs (s : relay) (m : gmap string job_file) : relay :=
  {| r_jobs := m; r_logs := s.(r_logs); r_results := s.(r_results); r_withheld := s.(r_withheld) |}.
Definition set_logs (s : relay) (m : gmap (string * string) (string * Z)) : relay :=
  {| r_jobs := s.(r_jobs); r_logs := m; r_results := s.(r_results); r_withheld := s.(r_withheld) |}.
Definition set_results (s : relay) (m : gmap string result_dir) : relay :=
  {| r_jobs := s.(r_jobs); r_logs := s.(r_logs); r_results := m; r_withheld := s.(r_withheld) |}.
Definition set_withheld (s : relay) (m : gmap string Z) : relay :=
  {| r_jobs := s.(r_jobs); r_logs := s.(r_logs); r_results := s.(r_results); r_withheld := m |}.

(** What surrounds an operation: the clock, which file writes fail, how many
    bytes of an append land before it fails, and what [stat] says of the size
    of a directory. *)
Record genv : Type := MkGenv {
  e_now : Z;
  e_write_fails : string → bool;
  e_append_stops : option nat;
  e_dir_size : string → Z;
}.

Definition quiet_at (now : Z) : genv :=
  {| e_now := now; e_write_fails := λ _, false; e_append_stops := None; e_dir_size := λ _, 4096 |}.

Abbreviation op A := (eff relay relay_error A).

Definition fail {A} (status : Z) (message : string) : op A := throw (RelayError status message).
Definition modify (f : relay → relay) : op unit := λ s, (Ok tt, f s).
Definition gets {A} (f : relay → A) : op A := λ s, (Ok (f s), s).

(** [withheld] *)
Definition withheld (s : relay) (project : string) : Z := opt_or (s.(r_withheld) !! project) 0.

(** [GW_JOB_RE.fullmatch]: ["g-[0-9a-f]{12}"] *)
Definition GW_JOB_RE (s : string) : bool :=
  match s with
  | String g (String d rest) =>
    Ascii.eqb g "g" && Ascii.eqb d "-" && fullmatch_class is_lower_hex 12 12 rest
  | _ => false
  end.

Definition relay_read (gw_job_id : string) : op (option RelayRecord) := λ s,
  if negb (GW_JOB_RE gw_job_id) then (Err (RelayError 404 "no such job"), s)
  else match s.(r_jobs) !! gw_job_id with
       | None => (Ok None, s)
       | Some JobGarbage => (Err JsonError, s)
       | Some (JobFile r) => (Ok (Some r), s)
       end.

(** [self.read(job_id) if GW_JOB_RE.fullmatch(job_id) else None] *)
Definition relay_find (gw_job_id : string) : op (option RelayRecord) :=
  if GW_JOB_RE gw_job_id then relay_read gw_job_id else ret None.

(** [_write]: a temporary file replaces the job's file whole. *)
Definition relay_write (ev : genv) (r : RelayRecord) : op unit := λ s,
  if negb (GW_JOB_RE r.(g_job_id)) then (Err (RelayError 404 "no such job"), s)
  else if ev.(e_write_fails) r.(g_job_id) then (Err FsError, s)
  else (Ok tt, set_jobs s (<[r.(g_job_id) := JobFile r]> s.(r_jobs))).

(** [_all]: the readable files, in the order of their names. *)
Definition name_leb (a b : string) : bool := String.leb (a +:+ ".json") (b +:+ ".json").

Definition job_names (m : gmap string job_file) : list string := sort_by name_leb (elements (dom m)).

Definition readable (m : gmap string job_file) (id : string) : option RelayRecord :=
  match m !! id with Some (JobFile r) => Some r | _ => None end.

Definition relay_all (s : relay) : list RelayRecord :=
  omap (readable s.(r_jobs)) (job_names s.(r_jobs)).

Section with_hashing.
Context {H : Hashing} {T : TextForms}.

Definition gateway_job_id (scoped_key : string) : string :=
  "g-" +:+ str_take 12 (sha256_hex ("relay" +:+ String "000"%char scoped_key)).

(** The fields of an upload the store keeps. *)
Record upload_ref : Type := MkUploadRef { u_id : string; u_sha256 : string; u_size : Z }.

Definition request_digest (request : list (string * json)) (sha256 : string) : string :=
  sha256_hex (dumps_sorted (JObj [("request", JObj request); ("sha256", JStr sha256)])).

Definition owner (r : RelayRecord) : string * string := (r.(g_principal), r.(g_project)).

Definition admitted_record (principal project key_id scoped_key : string)
    (request : list (string * json)) (upload : upload_ref) (now : Z) : RelayRecord :=
  {| g_job_id := gateway_job_id scoped_key; g_principal := principal; g_project := project;
     g_key_id := key_id; g_scoped_key := scoped_key; g_request := request;
     g_request_digest := request_digest request upload.(u_sha256);
     g_upload_id := upload.(u_id); g_upload_sha256 := upload.(u_sha256);
     g_upload_size := upload.(u_size); g_transfer := TRANSFER_QUEUED; g_epoch := 0;
     g_lease_until := None; g_broker_job_id := None; g_refused_reason := None; g_view := None;
     g_view_at := None; g_created_at := iso now; g_updated_at := iso now; g_cancel := None;
     g_collect := None; g_logs_wanted_until := None |}.

(** [admit]: the record and whether it is a replay. *)
Definition relay_admit (ev : genv) (principal project key_id scoped_key : string)
    (request : list (string * json)) (upload : upload_ref) : op (RelayRecord * bool) :=
  do? existing := relay_read (gateway_job_id scoped_key) in
  match existing with
  | Some existing =>
    if negb (String.eqb existing.(g_request_digest) (request_digest request upload.(u_sha256)))
       || negb (bool_decide (owner existing = (principal, project)))
    then fail 409 "this idempotency_key already names a different submission"
    else ret (existing, true)
  | None =>
    let record := admitted_record principal project key_id scoped_key request upload ev.(e_now) in
    do? _ := relay_write ev record in
    ret (record, false)
  end.

Definition owned (gw_job_id principal project : string) : op RelayRecord :=
  do? record := relay_read gw_job_id in
  match record with
  | Some r => if bool_decide (owner r = (principal, project)) then ret r else fail 404 "no such job"
  | None => fail 404 "no such job"
  end.

Definition owned_records (s : relay) (principal project : string) : list RelayRecord :=
  filter (λ r, owner r = (principal, project)) (relay_all s).

(** ** Claiming work *)

Inductive work_item : Type :=
| SubmitItem (epoch : Z) (job_id scoped_key : string) (request : list (string * json))
    (upload_id sha256 : string) (size : Z)
| CancelItem (epoch : Z) (job_id : string) (broker_job_id : option string) (reason : string)
| CollectItem (epoch : Z) (job_id : string) (broker_job_id : option string) (byte_budget : Z).

(** [lease is not None and datetime.fromisoformat(lease) > now] *)
Definition lease_live (lease : option Z) (now : Z) : bool :=
  match lease with Some until => now <? until | None => false end.

(** [spool_free is not None and needed > spool_free] *)
Definition too_big (spool_free : option Z) (needed : Z) : bool :=
  match spool_free with Some free => free <? needed | None => false end.

Definition spend (spool_free : option Z) (needed : Z) : option Z :=
  (λ free, free - needed) <$> spool_free.

(** [self._withheld[project] += 1] *)
Definition withhold (project : string) : op unit :=
  modify (λ s, set_withheld s (<[project := withheld s project + 1]> s.(r_withheld))).

Definition claimed_record (r : RelayRecord) (now : Z) : RelayRecord :=
  with_transfer r TRANSFER_CLAIMED (r.(g_epoch) + 1) (Some (iso (now + LEASE)))
    r.(g_broker_job_id) r.(g_refused_reason) (iso now).

Definition submit_item (r : RelayRecord) : work_item :=
  SubmitItem r.(g_epoch) r.(g_job_id) r.(g_scoped_key) r.(g_request) r.(g_upload_id)
    r.(g_upload_sha256) r.(g_upload_size).

(** A record the first loop does not pass over before it looks at the spool. *)
Definition submit_due (project : string) (now : Z) (r : RelayRecord) : bool :=
  negb (negb (String.eqb r.(g_project) project) || negb (CLAIMABLE r.(g_transfer)))
  && negb (negb (bool_decide (r.(g_transfer) = TRANSFER_QUEUED)) && lease_live r.(g_lease_until) now)
  && negb (is_some r.(g_cancel) && bool_decide (r.(g_transfer) = TRANSFER_QUEUED)).

Fixpoint claim_submits (ev : genv) (project : string) (max_items : Z) (records : list RelayRecord)
    (items : list work_item) (spool_free : option Z) : op (list work_item * option Z) :=
  match records with
  | [] => ret (items, spool_free)
  | record :: records =>
    if max_items <=? Z.of_nat (length items) then ret (items, spool_free)
    else if negb (submit_due project ev.(e_now) record)
    then claim_submits ev project max_items records items spool_free
    else if too_big spool_free record.(g_upload_size) then
      do? _ := withhold project in
      claim_submits ev project max_items records items spool_free
    else
      let record := claimed_record record ev.(e_now) in
      do? _ := relay_write ev record in
      claim_submits ev project max_items records (items ++ [submit_item record])
        (spend spool_free record.(g_upload_size))
  end.

Definition leased_cancel (c : RelayCancel) (now : Z) : RelayCancel :=
  {| cn_state := c.(cn_state); cn_requested_at := c.(cn_requested_at); cn_reason := c.(cn_reason);
     cn_epoch := c.(cn_epoch) + 1; cn_lease_until := Some (iso (now + LEASE));
     cn_settled_at := c.(cn_settled_at) |}.

(** The cancel request the second loop leases. *)
Definition cancel_due (project : string) (now : Z) (r : RelayRecord) : option RelayCancel :=
  match r.(g_cancel) with
  | Some cancel =>
    if negb (String.eqb r.(g_project) project)
       || negb (bool_decide (cancel.(cn_state) = CANCEL_REQUESTED))
       || negb (bool_decide (r.(g_transfer) = TRANSFER_ACCEPTED)) then None
    else if lease_live cancel.(cn_lease_until) now then None
    else Some cancel
  | None => None
  end.

Fixpoint claim_cancels (ev : genv) (project : string) (max_items : Z) (records : list RelayRecord)
    (items : list work_item) : op (list work_item) :=
  match records with
  | [] => ret items
  | record :: records =>
    if max_items <=? Z.of_nat (length items) then ret items
    else match cancel_due project ev.(e_now) record with
         | None => claim_cancels ev project max_items records items
         | Some cancel =>
           let cancel := leased_cancel cancel ev.(e_now) in
           do? _ := relay_write ev (with_requests record (Some cancel) record.(g_collect)
                      record.(g_logs_wanted_until) (iso ev.(e_now))) in
           claim_cancels ev project max_items records
             (items ++ [CancelItem cancel.(cn_epoch) record.(g_job_id) record.(g_broker_job_id)
                          cancel.(cn_reason)])
         end
  end.

Definition leased_collect (c : RelayCollect) (now : Z) : RelayCollect :=
  {| cl_state := c.(cl_state); cl_epoch := c.(cl_epoch) + 1;
     cl_lease_until := Some (iso (now + LEASE)); cl_requested_at := c.(cl_requested_at);
     cl_byte_budget := c.(cl_byte_budget); cl_detail := c.(cl_detail) |}.

(** The collect request the third loop looks at. *)
Definition collect_due (project : string) (now : Z) (r : RelayRecord) : option RelayCollect :=
  match r.(g_collect) with
  | Some collect =>
    if negb (String.eqb r.(g_project) project)
       || negb (bool_decide (collect.(cl_state) = COLLECT_REQUESTED))
       || negb (bool_decide (r.(g_transfer) = TRANSFER_ACCEPTED)) then None
    else if lease_live collect.(cl_lease_until) now then None
    else Some collect
  | None => None
  end.

Fixpoint claim_collects (ev : genv) (project : string) (max_items : Z) (records : list RelayRecord)
    (items : list work_item) (spool_free : option Z) : op (list work_item) :=
  match records with
  | [] => ret items
  | record :: records =>
    if max_items <=? Z.of_nat (length items) then ret items
    else match collect_due project ev.(e_now) record with
         | None => claim_collects ev project max_items records items spool_free
         | Some collect =>
           if too_big spool_free collect.(cl_byte_budget) then
             do? _ := withhold project in
             claim_collects ev project max_items records items spool_free
           else
             let collect := leased_collect collect ev.(e_now) in
             do? _ := relay_write ev (with_requests record record.(g_cancel) (Some collect)
                        record.(g_logs_wanted_until) record.(g_updated_at)) in
             claim_collects ev project max_items records
               (items ++ [CollectItem collect.(cl_epoch) record.(g_job_id)
                            record.(g_broker_job_id) collect.(cl_byte_budget)])
               (spend spool_free collect.(cl_byte_budget))
         end
  end.

Definition claim (ev : genv) (project : string) (max_items : Z) (spool_free : option Z)
    : op (list work_item) :=
  do? _ := modify (λ s, set_withheld s (<[project := 0]> s.(r_withheld))) in
  do? records := gets relay_all in
  do? (items, spool_free) := claim_submits ev project max_items records [] spool_free in
  do? records := gets relay_all in
  do? items := claim_cancels ev project max_items records items in
  do? records := gets relay_all in
  claim_collects ev project max_items records items spool_free.
End with_hashing.
