(* ===== verification/RelayOps.v ===== *)
(** * Requests, acknowledgements, results and logs of the relay store

    The rest of [RelayStore] in [src/vq/gateway/relay.py]: what clients ask
    for, what the connector acknowledges and pushes, and what a client is
    shown. *)

From S2P Require Import Prelude Spec Json BrokerRecord Relay.

(** ** Paths of pushed results *)

Definition join_path (parts : list string) : string := String.concat "/" parts.

Fixpoint split_slash_from (acc : string) (s : string) : list string :=
  match s with
  | EmptyString => [acc]
  | String c rest =>
    if Ascii.eqb c "/" then acc :: split_slash_from "" rest
    else split_slash_from (acc +:+ String c "") rest
  end.

(** The components of a [PurePosixPath] below its root: empty ones and ["."]
    vanish. *)
Definition pure_parts (path : string) : list string :=
  filter (λ p, p ≠ "" ∧ p ≠ ".") (split_slash_from "" path).

(** [_safe_parts] *)
Definition safe_parts (path : string) : res relay_error (list string) :=
  let parts := pure_parts path in
  if bool_decide (parts = []) || startswith path "/" || mem_str ".." parts
     || (4096 <? str_len path)
  then Err (RelayError 400 "unsafe result path")
  else Ok parts.

(** The directories above a path: every proper prefix of its parts. *)
Definition ancestors (parts : list string) : list string :=
  map (λ n, join_path (take n parts)) (seq 1 (length parts - 1)).

Section with_hashing.
Context {H : Hashing} {T : TextForms}.

Definition results_of (s : relay) (gw_job_id : string) : result_dir :=
  opt_or (s.(r_results) !! gw_job_id)
    {| rd_incoming := None; rd_files := None; rd_manifest := None |}.

Definition no_incoming : incoming_dir := {| in_files := ∅; in_dirs := ∅ |}.

Definition put_results (gw_job_id : string) (d : result_dir) : op unit :=
  modify (λ s, set_results s (<[gw_job_id := d]> s.(r_results))).

(** [_incoming]: made when missing. *)
Definition incoming (gw_job_id : string) : op incoming_dir :=
  do? d := gets (λ s, results_of s gw_job_id) in
  let tree := opt_or d.(rd_incoming) no_incoming in
  do? _ := put_results gw_job_id {| rd_incoming := Some tree; rd_files := d.(rd_files);
                                    rd_manifest := d.(rd_manifest) |} in
  ret tree.

Definition tree_size (files : gmap string string) : Z :=
  map_fold (λ _ data total, total + str_len data) 0 files.

Definition set_incoming (gw_job_id : string) (tree : option incoming_dir) : op unit := λ s,
  let d := results_of s gw_job_id in
  put_results gw_job_id {| rd_incoming := tree; rd_files := d.(rd_files);
                           rd_manifest := d.(rd_manifest) |} s.

(** What an append of [data] leaves of it on disk. *)
Definition landed (ev : genv) (data : string) : string :=
  match ev.(e_append_stops) with Some k => str_take k data | None => data end.

(** ** Results *)

Definition requested_collect (collect : option RelayCollect) (now byte_budget : Z) : RelayCollect :=
  {| cl_state := COLLECT_REQUESTED;
     cl_epoch := match collect with Some c => c.(cl_epoch) | None => 0 end;
     cl_lease_until := None; cl_requested_at := iso now; cl_byte_budget := byte_budget;
     cl_detail := None |}.

Definition request_results (ev : genv) (gw_job_id principal project : string) (byte_budget : Z)
    : op RelayRecord :=
  do? record := owned gw_job_id principal project in
  if bool_decide (record.(g_transfer) = TRANSFER_ACCEPTED)
     && match record.(g_collect) with
        | None => true
        | Some c => bool_decide (c.(cl_state) = COLLECT_NOT_FINISHED)
                    || bool_decide (c.(cl_state) = COLLECT_FAILED)
        end
  then
    let record := with_requests record record.(g_cancel)
      (Some (requested_collect record.(g_collect) ev.(e_now) byte_budget))
      record.(g_logs_wanted_until) record.(g_updated_at) in
    do? _ := relay_write ev record in
    ret record
  else ret record.

(** The collection [push_result] adds to. *)
Definition pending_collect (project : string) (record : option RelayRecord) : option RelayCollect :=
  match record with
  | Some r =>
    match r.(g_collect) with
    | Some c => if negb (String.eqb r.(g_project) project)
                   || negb (bool_decide (c.(cl_state) = COLLECT_REQUESTED)) then None else Some c
    | None => None
    end
  | None => None
  end.

Definition push_result (ev : genv) (project gw_job_id path : string) (start : Z) (data : string)
    : op Z :=
  do? parts := lift (safe_parts path) in
  do? record := relay_find gw_job_id in
  match pending_collect project record with
  | None => fail 404 "no collection is pending for this job"
  | Some collect =>
    do? tree := incoming gw_job_id in
    if collect.(cl_byte_budget) <? tree_size tree.(in_files) + str_len data
    then fail 413 "these results exceed the remaining storage quota"
    else if existsb (λ a, is_some (tree.(in_files) !! a)) (ancestors parts) then throw FsError
    else
      let target := join_path parts in
      let dirs := tree.(in_dirs) ∪ list_to_set (ancestors parts) in
      do? _ := set_incoming gw_job_id (Some {| in_files := tree.(in_files); in_dirs := dirs |}) in
      let is_dir := bool_decide (target ∈ dirs) in
      let old := opt_or (tree.(in_files) !! target) "" in
      let size := if is_dir then ev.(e_dir_size) target else str_len old in
      if negb (start =? size) then throw (ResumeAt size)
      else if is_dir then throw FsError
      else
        do? _ := set_incoming gw_job_id
          (Some {| in_files := <[target := old +:+ landed ev data]> tree.(in_files);
                   in_dirs := dirs |}) in
        match ev.(e_append_stops) with
        | Some _ => throw FsError
        | None => ret (size + str_len data)
        end
  end.

(** A manifest entry and the path it is filed under. *)
Definition manifest_entry (entry : json) : res relay_error (string * (Z * string * json)) :=
  match entry with
  | JObj kvs =>
    match assoc "path" kvs, assoc "size" kvs, assoc "sha256" kvs with
    | Some (JStr path), Some (JInt size), Some (JStr sha256) =>
      let? parts := safe_parts path in Ok (join_path parts, (size, sha256, entry))
    | _, _, _ => Err (RelayError 400 "malformed manifest entry")
    end
  | _ => Err (RelayError 400 "malformed manifest entry")
  end.

Fixpoint expected_files (entries : list json) (expected : list (string * (Z * string * json)))
    : res relay_error (list (string * (Z * string * json))) :=
  match entries with
  | [] => Ok expected
  | entry :: entries =>
    let? (name, e) := manifest_entry entry in
    expected_files entries (assoc_set name e expected)
  end.

(** [set(present) != set(expected)], and each file's size and digest. *)
Definition same_names (present : gmap string string) (expected : list (string * (Z * string * json)))
    : bool := bool_decide (dom present = list_to_set expected.*1).

Definition file_matches (present : gmap string string) (e : string * (Z * string * json)) : bool :=
  match present !! e.1 with
  | Some data => negb (negb (str_len data =? e.2.1.1) || negb (String.eqb (sha256_hex data) e.2.1.2))
  | None => false
  end.

(** [[str(s)[:500] for s in manifest.get("skipped") or []][:1000]] *)
Definition skipped_names (j : json) : res relay_error (list string) :=
  if negb (truthy j) then Ok []
  else match j with
       | JList l => Ok (take 1000 (map (λ s, str_take 500 (py_str s)) l))
       | JStr s => Ok (take 1000 (map (λ c, String c "") (String.list_ascii_of_string s)))
       | JObj kvs => Ok (take 1000 (map (λ kv, str_take 500 kv.1) kvs))
       | _ => Err RelayTypeError
       end.

Definition settled_collect (c : RelayCollect) (st : collect_state) (detail : option string)
    : RelayCollect :=
  {| cl_state := st; cl_epoch := c.(cl_epoch); cl_lease_until := None;
     cl_requested_at := c.(cl_requested_at); cl_byte_budget := c.(cl_byte_budget);
     cl_detail := detail |}.

(** The collected branch of [_ack_collect]: check the pushed files against
    the manifest, then publish both. *)
Definition publish_results (ev : genv) (job_id : string) (manifest : json) : op unit :=
  match manifest with
  | JObj m =>
    match assoc "files" m with
    | Some (JList entries) =>
      do? expected := lift (expected_files entries []) in
      do? d := gets (λ s, results_of s job_id) in
      let present := match d.(rd_incoming) with Some t => t.(in_files) | None => ∅ end in
      if negb (same_names present expected)
      then fail 409 "pushed files do not match the manifest"
      else if negb (forallb (file_matches present) expected)
      then fail 409 "file does not match its manifest digest"
      else
        do? _ := put_results job_id {| rd_incoming := None; rd_files := Some present;
                                       rd_manifest := d.(rd_manifest) |} in
        do? skipped := lift (skipped_names (jget m "skipped")) in
        if ev.(e_write_fails) (job_id +:+ "/manifest.json") then throw FsError
        else
          put_results job_id
            {| rd_incoming := None; rd_files := Some present;
               rd_manifest := Some {| rm_job_id := job_id; rm_collected_at := iso ev.(e_now);
                                      rm_target_state := jget m "target_state";
                                      rm_files := map (λ e, e.2.2) expected;
                                      rm_skipped := skipped |} |}
    | _ => fail 400 "a collected outcome needs its manifest"
    end
  | _ => fail 400 "a collected outcome needs its manifest"
  end.

Definition collect_of_outcome (outcome : string) : option collect_state :=
  if String.eqb outcome "not-finished" then Some COLLECT_NOT_FINISHED
  else if String.eqb outcome "failed" then Some COLLECT_FAILED
  else None.

(** [_ack_collect] *)
Definition ack_collect (ev : genv) (record : RelayRecord) (epoch : Z) (outcome : string)
    (manifest : json) (reason : option string) : op RelayRecord :=
  match record.(g_collect) with
  | None => fail 404 "unknown work item"
  | Some collect =>
    if negb (epoch =? collect.(cl_epoch)) then fail 409 "stale claim epoch"
    else if bool_decide (collect.(cl_state) = COLLECT_DONE) then ret record
    else if negb (bool_decide (collect.(cl_state) = COLLECT_REQUESTED))
    then fail 409 "this collection was already settled"
    else
      do? collect :=
        (if String.eqb outcome "collected" then
           do? _ := publish_results ev record.(g_job_id) manifest in
           ret (settled_collect collect COLLECT_DONE collect.(cl_detail))
         else match collect_of_outcome outcome with
              | Some st =>
                do? _ := set_incoming record.(g_job_id) None in
                ret (settled_collect collect st (Some (str_take 300 (opt_or reason ""))))
              | None => fail 400 "a collect outcome is collected, not-finished or failed"
              end) in
      let record := with_requests record record.(g_cancel) (Some collect)
                      record.(g_logs_wanted_until) (iso ev.(e_now)) in
      do? _ := relay_write ev record in
      ret record
  end.

(** ** Cancellation *)

Definition requested_cancel (reason : string) (now : Z) : RelayCancel :=
  {| cn_state := CANCEL_REQUESTED; cn_requested_at := iso now; cn_reason := str_take 300 reason;
     cn_epoch := 0; cn_lease_until := None; cn_settled_at := None |}.

(** [cancel.update(state=..., settled_at=...)] and, for an acknowledgement,
    [lease_until=None]. *)
Definition settled_cancel (c : RelayCancel) (st : cancel_state) (now : Z) (lease : option Z)
    : RelayCancel :=
  {| cn_state := st; cn_requested_at := c.(cn_requested_at); cn_reason := c.(cn_reason);
     cn_epoch := c.(cn_epoch); cn_lease_until := lease; cn_settled_at := Some (iso now) |}.

Definition request_cancel (ev : genv) (gw_job_id principal project reason : string)
    : op RelayRecord :=
  do? record := owned gw_job_id principal project in
  if bool_decide (record.(g_transfer) = TRANSFER_REFUSED)
     || bool_decide (record.(g_transfer) = TRANSFER_CANCELLED) then ret record
  else match record.(g_cancel) with
       | Some _ => ret record
       | None =>
         let now := ev.(e_now) in
         let cancel := requested_cancel reason now in
         let record :=
           if bool_decide (record.(g_transfer) = TRANSFER_QUEUED)
           then with_transfer
                  (with_requests record (Some (settled_cancel cancel CANCEL_STOPPED now None))
                     record.(g_collect) record.(g_logs_wanted_until) (iso now))
                  TRANSFER_CANCELLED record.(g_epoch) record.(g_lease_until)
                  record.(g_broker_job_id) record.(g_refused_reason) (iso now)
           else with_requests record (Some cancel) record.(g_collect)
                  record.(g_logs_wanted_until) (iso now) in
         do? _ := relay_write ev record in
         ret record
       end.

Definition cancel_of_outcome (outcome : string) : option cancel_state :=
  if String.eqb outcome "stopped" then Some CANCEL_STOPPED
  else if String.eqb outcome "not-stopped" then Some CANCEL_NOT_STOPPED
  else None.

(** [_ack_cancel] *)
Definition ack_cancel (ev : genv) (record : RelayRecord) (epoch : Z) (outcome : string)
    : op RelayRecord :=
  match record.(g_cancel) with
  | None => fail 404 "unknown work item"
  | Some cancel =>
    if negb (epoch =? cancel.(cn_epoch)) then fail 409 "stale claim epoch"
    else match cancel_of_outcome outcome with
         | None => fail 400 "a cancel outcome is stopped or not-stopped"
         | Some st =>
           if negb (bool_decide (cancel.(cn_state) = CANCEL_REQUESTED)) then
             if bool_decide (cancel.(cn_state) = st) then ret record
             else fail 409 "this cancellation was already settled"
           else
             let record := with_requests record (Some (settled_cancel cancel st ev.(e_now) None))
                             record.(g_collect) record.(g_logs_wanted_until) (iso ev.(e_now)) in
             do? _ := relay_write ev record in
             ret record
         end
  end.

(** ** Acknowledging a submission *)

(** The refusal settles a pending cancel. *)
Definition refuse_cancel (c : RelayCancel) (now : Z) : RelayCancel :=
  if bool_decide (c.(cn_state) = CANCEL_REQUESTED)
  then settled_cancel c CANCEL_STOPPED now c.(cn_lease_until) else c.

Definition ack_submit (ev : genv) (record : RelayRecord) (epoch : Z) (outcome : string)
    (broker_job_id reason : option string) : op RelayRecord :=
  let now := ev.(e_now) in
  if negb (epoch =? record.(g_epoch)) then fail 409 "stale claim epoch"
  else if bool_decide (record.(g_transfer) = TRANSFER_ACCEPTED) then
    if String.eqb outcome "accepted" && bool_decide (broker_job_id = record.(g_broker_job_id))
    then ret record
    else fail 409 "this item was already accepted"
  else
    do? record :=
      (if String.eqb outcome "accepted" then
         if negb (is_some broker_job_id) || bool_decide (broker_job_id = Some "")
         then fail 400 "an accepted item needs its broker job id"
         else ret (with_transfer record TRANSFER_ACCEPTED record.(g_epoch) None broker_job_id
                     record.(g_refused_reason) (iso now))
       else if String.eqb outcome "refused" then
         let record := with_requests record ((λ c, refuse_cancel c now) <$> record.(g_cancel))
                         record.(g_collect) record.(g_logs_wanted_until) (iso now) in
         ret (with_transfer record TRANSFER_REFUSED record.(g_epoch) None record.(g_broker_job_id)
                (Some (str_take 500 (opt_or reason ""))) (iso now))
       else if String.eqb outcome "uncertain" then
         ret (with_transfer record TRANSFER_UNCERTAIN record.(g_epoch) record.(g_lease_until)
                record.(g_broker_job_id) record.(g_refused_reason) (iso now))
       else fail 400 "outcome must be accepted, refused or uncertain") in
    do? _ := relay_write ev record in
    ret record.

(** What an item id names: ["kind:job"]. *)
Inductive item_kind : Type := KSubmit | KCancel | KCollect.

#[global] Instance item_kind_eq_dec : EqDecision item_kind.
Proof. solve_decision. Defined.

Definition kind_text (k : item_kind) : string :=
  match k with KSubmit => "submit" | KCancel => "cancel" | KCollect => "collect" end.

Definition item_id (k : item_kind) (job_id : string) : string := kind_text k +:+ ":" +:+ job_id.

(** [item_id.partition(":")] *)
Fixpoint partition_colon (s : string) : string * string :=
  match s with
  | EmptyString => ("", "")
  | String c rest =>
    if Ascii.eqb c ":" then ("", rest)
    else let (a, b) := partition_colon rest in (String c a, b)
  end.

Definition item_kind_of (s : string) : option item_kind :=
  if String.eqb s "submit" then Some KSubmit
  else if String.eqb s "cancel" then Some KCancel
  else if String.eqb s "collect" then Some KCollect
  else None.

Definition ack (ev : genv) (project item : string) (epoch : Z) (outcome : string)
    (broker_job_id reason : option string) (manifest : json) : op RelayRecord :=
  let (kind, job_id) := partition_colon item in
  match item_kind_of kind with
  | None => fail 404 "unknown work item"
  | Some kind =>
    do? record := relay_find job_id in
    match record with
    | None => fail 404 "unknown work item"
    | Some record =>
      if negb (String.eqb record.(g_project) project) then fail 404 "unknown work item"
      else match kind with
           | KCancel => ack_cancel ev record epoch outcome
           | KCollect => ack_collect ev record epoch outcome manifest reason
           | KSubmit => ack_submit ev record epoch outcome broker_job_id reason
           end
    end
  end.

(** ** Logs *)

(** [_log_path] *)
Definition log_path (gw_job_id stream : string) : res relay_error (string * string) :=
  if negb (mem_str stream LOG_STREAMS) then Err (RelayError 400 "stream must be stdout or stderr")
  else if negb (GW_JOB_RE gw_job_id) then Err (RelayError 404 "no such job")
  else Ok (gw_job_id, stream).

Definition log_size (s : relay) (path : string * string) : Z :=
  match s.(r_logs) !! path with Some (data, _) => str_len data | None => 0 end.

Definition want_logs (ev : genv) (gw_job_id principal project : string) : op RelayRecord :=
  do? record := owned gw_job_id principal project in
  let record := with_requests record record.(g_cancel) record.(g_collect)
                  (Some (iso (ev.(e_now) + LOGS_WANTED_FOR))) record.(g_updated_at) in
  do? _ := relay_write ev record in
  ret record.

(** [read_logs], at an offset and limit that are not negative: the window,
    the buffered size and the time of the last push. *)
Definition read_logs (gw_job_id stream : string) (offset limit : nat)
    : op (string * Z * option Z) :=
  do? path := lift (log_path gw_job_id stream) in
  gets (λ s, match s.(r_logs) !! path with
             | Some (data, mtime) =>
               (String.substring offset limit data, str_len data, Some (iso mtime))
             | None => ("", 0, None)
             end).

Definition logs_wanted (ev : genv) (project : string) (s : relay)
    : list (string * option string * list (string * Z)) :=
  omap (λ r, match r.(g_logs_wanted_until) with
             | Some until =>
               if negb (String.eqb r.(g_project) project)
                  || negb (bool_decide (r.(g_transfer) = TRANSFER_ACCEPTED))
                  || (until <=? ev.(e_now)) then None
               else Some (r.(g_job_id), r.(g_broker_job_id),
                          map (λ stream, (stream, log_size s (r.(g_job_id), stream))) LOG_STREAMS)
             | None => None
             end) (relay_all s).

Definition append_logs (ev : genv) (project gw_job_id stream : string) (start : Z) (data : string)
    : op Z :=
  do? record := relay_find gw_job_id in
  match record with
  | Some r =>
    if negb (String.eqb r.(g_project) project)
       || negb (bool_decide (r.(g_transfer) = TRANSFER_ACCEPTED))
    then fail 404 "no such admitted job"
    else
      do? path := lift (log_path gw_job_id stream) in
      do? size := gets (λ s, log_size s path) in
      if negb (start =? size) then throw (ResumeAt size)
      else if LOG_BUFFER_CAP <? size + str_len data
      then fail 413 "the gateway's buffer for this job's output is full"
      else
        do? _ := modify (λ s,
          let old := match s.(r_logs) !! path with Some (d, _) => d | None => "" end in
          set_logs s (<[path := (old +:+ landed ev data, ev.(e_now))]> s.(r_logs))) in
        match ev.(e_append_stops) with
        | Some _ => throw FsError
        | None => ret (size + str_len data)
        end
  | None => fail 404 "no such admitted job"
  end.

(** ** Reports and views *)

Definition VIEW_KEYS : list string :=
  ["state"; "placed"; "waiting_reasons"; "attempts"; "cancellation"; "updated_at"].

(** The views are an object's values: each is stored for an accepted job of
    the project and skipped otherwise. *)
Fixpoint report_views (ev : genv) (project : string) (views : list (string * json)) (stored : Z)
    : op Z :=
  match views with
  | [] => ret stored
  | (job_id, view) :: views =>
    do? record := relay_find job_id in
    match record, view with
    | Some r, JObj kvs =>
      if negb (String.eqb r.(g_project) project)
         || negb (bool_decide (r.(g_transfer) = TRANSFER_ACCEPTED))
      then report_views ev project views stored
      else
        do? _ := relay_write ev (with_view r (map (λ k, (k, jget kvs k)) VIEW_KEYS) (iso ev.(e_now))) in
        report_views ev project views (stored + 1)
    | _, _ => report_views ev project views stored
    end
  end.

Definition report (ev : genv) (project : string) (views : list (string * json)) : op Z :=
  report_views ev project views 0.

Record ClientView : Type := MkClientView {
  v_job_id : string;
  v_transfer : transfer_state;
  v_state : json;
  v_placed : bool;
  v_waiting_reasons : json;
  v_refused_reason : option string;
  v_program : json; v_job_name : json; v_cpus : json; v_mem_mb : json;
  v_created_at : Z; v_updated_at : Z;
  v_status_as_of : option Z;
  v_connector_fresh : bool;
  v_connector_backpressure : bool;
  v_collection : option (collect_state * option string);
  v_cancellation : option (cancel_state * Z * option Z);
}.

Definition py_or (a b : json) : json := if truthy a then a else b.

Definition client_view (now : Z) (record : RelayRecord) (connector_last_seen : option Z)
    (withheld : Z) : ClientView :=
  let view := opt_or record.(g_view) [] in
  let request := record.(g_request) in
  {| v_job_id := record.(g_job_id); v_transfer := record.(g_transfer);
     v_state := py_or (jget view "state") (JStr (transfer_text record.(g_transfer)));
     v_placed := truthy (jget view "placed");
     v_waiting_reasons := py_or (jget view "waiting_reasons") (JList []);
     v_refused_reason := record.(g_refused_reason);
     v_program := jget request "program"; v_job_name := jget request "job_name";
     v_cpus := jget request "cpus"; v_mem_mb := jget request "mem_mb";
     v_created_at := record.(g_created_at); v_updated_at := record.(g_updated_at);
     v_status_as_of := record.(g_view_at);
     v_connector_fresh :=
       match connector_last_seen with Some seen => now - seen <=? FRESH | None => false end;
     v_connector_backpressure := 0 <? withheld;
     v_collection := (λ c, (c.(cl_state), c.(cl_detail))) <$> record.(g_collect);
     v_cancellation :=
       (λ c, (c.(cn_state), c.(cn_requested_at), c.(cn_settled_at))) <$> record.(g_cancel) |}.
End with_hashing.
