(* ===== verification/RelayLogic.v ===== *)
(** * How the relay store evolves

    The order on records ([relay_evolves]) and stores ([relay_le]) that every
    operation respects, and the rounds of a claim: the three loops of
    [RelayStore.claim] as one loop, what it rewrites and what it hands out. *)

From S2P Require Import Prelude Spec Json BrokerRecord Relay RelayOps.

(** ** What one record may become *)

Definition identity (r : RelayRecord) :=
  (r.(g_job_id), owner r, r.(g_key_id), r.(g_scoped_key), r.(g_request), r.(g_request_digest),
   (r.(g_upload_id), r.(g_upload_sha256), r.(g_upload_size)), r.(g_created_at)).

Definition rec_epoch (k : item_kind) (r : RelayRecord) : Z :=
  match k with
  | KSubmit => r.(g_epoch)
  | KCancel => match r.(g_cancel) with Some c => c.(cn_epoch) | None => 0 end
  | KCollect => match r.(g_collect) with Some c => c.(cl_epoch) | None => 0 end
  end.

Definition cancel_le (c c' : RelayCancel) : Prop :=
  c'.(cn_reason) = c.(cn_reason) ∧ c'.(cn_requested_at) = c.(cn_requested_at)
  ∧ (c.(cn_state) ≠ CANCEL_REQUESTED →
     c'.(cn_state) = c.(cn_state) ∧ c'.(cn_settled_at) = c.(cn_settled_at)).

Definition collect_le (c c' : RelayCollect) : Prop :=
  c.(cl_state) = COLLECT_DONE → c'.(cl_state) = COLLECT_DONE.

Definition option_le {A} (R : A → A → Prop) (a b : option A) : Prop :=
  ∀ x, a = Some x → ∃ y, b = Some y ∧ R x y.

(** The states a record's fields can be in together. *)
Definition transfer_typed (r : RelayRecord) : Prop :=
  match r.(g_transfer) with
  | TRANSFER_QUEUED =>
    r.(g_epoch) = 0 ∧ r.(g_lease_until) = None ∧ r.(g_cancel) = None ∧ r.(g_broker_job_id) = None
  | TRANSFER_CLAIMED => 0 < r.(g_epoch) ∧ is_Some r.(g_lease_until) ∧ r.(g_broker_job_id) = None
  | TRANSFER_ACCEPTED => r.(g_lease_until) = None ∧ ∃ b, r.(g_broker_job_id) = Some b ∧ b ≠ ""
  | TRANSFER_REFUSED =>
    r.(g_lease_until) = None ∧ r.(g_broker_job_id) = None
    ∧ ∀ c, r.(g_cancel) = Some c → c.(cn_state) ≠ CANCEL_REQUESTED
  | TRANSFER_UNCERTAIN => r.(g_broker_job_id) = None
  | TRANSFER_CANCELLED =>
    r.(g_broker_job_id) = None ∧ ∃ c, r.(g_cancel) = Some c ∧ c.(cn_state) = CANCEL_STOPPED
  end.

Record record_typed (r : RelayRecord) : Prop := {
  rt_epoch : 0 <= r.(g_epoch);
  rt_transfer : transfer_typed r;
  rt_cancel : ∀ c, r.(g_cancel) = Some c →
    0 <= c.(cn_epoch) ∧ (c.(cn_state) = CANCEL_REQUESTED ↔ c.(cn_settled_at) = None);
  rt_collect : ∀ c, r.(g_collect) = Some c → r.(g_transfer) = TRANSFER_ACCEPTED ∧ 0 <= c.(cl_epoch);
}.

Record relay_evolves (r r' : RelayRecord) : Prop := {
  re_identity : identity r' = identity r;
  re_epoch : ∀ k, rec_epoch k r <= rec_epoch k r';
  re_accepted : r.(g_transfer) = TRANSFER_ACCEPTED →
    r'.(g_transfer) = TRANSFER_ACCEPTED ∧ r'.(g_broker_job_id) = r.(g_broker_job_id)
    ∧ r'.(g_epoch) = r.(g_epoch);
  re_queued : r'.(g_transfer) = TRANSFER_QUEUED → r.(g_transfer) = TRANSFER_QUEUED;
  re_cancel : option_le cancel_le r.(g_cancel) r'.(g_cancel);
  re_collect : option_le collect_le r.(g_collect) r'.(g_collect);
  re_typed : record_typed r → record_typed r';
}.

#[global] Instance option_le_preorder {A} (R : A → A → Prop) `{!PreOrder R} : PreOrder (option_le R).
Proof.
  split.
  - intros a x ->. by exists x.
  - intros a b c Hab Hbc x Hx. destruct (Hab x Hx) as (y & Hy & ?).
    destruct (Hbc y Hy) as (z & ? & ?). exists z. split; [done|by transitivity y].
Qed.

#[global] Instance cancel_le_preorder : PreOrder cancel_le.
Proof.
  split; [done|]. intros a b c (? & ? & Hab) (? & ? & Hbc). split_and!; [congruence..|].
  intros Ha. destruct (Hab Ha) as [E1 E2], (Hbc ltac:(congruence)). by split; congruence.
Qed.

#[global] Instance collect_le_preorder : PreOrder collect_le.
Proof. split; [by intros c ?|]. intros a b c Hab Hbc Ha. auto. Qed.

#[global] Instance relay_evolves_preorder : PreOrder relay_evolves.
Proof.
  split.
  - intros r. by split.
  - intros a b c [I1 E1 A1 Q1 C1 L1 T1] [I2 E2 A2 Q2 C2 L2 T2]. split; try congruence.
    + intros k. by transitivity (rec_epoch k b).
    + intros Ha. destruct (A1 Ha) as (Hb & ? & ?), (A2 Hb) as (? & ? & ?). split_and!; congruence.
    + auto.
    + by transitivity b.(g_cancel).
    + by transitivity b.(g_collect).
    + auto.
Qed.

(** Facts about single steps on a record. *)
Create HintDb vq_relay.

(** A step's record is one the old record may become. *)
Ltac evolve :=
  split; unfold identity, owner in *; simpl; try done; try (intros [] ; simpl; lia);
  try congruence; try (intros ?; congruence).

(** A step keeps the record's fields in agreement. *)
Ltac retype :=
  lazymatch goal with |- record_typed ?r → _ =>
    intros [Te Tt Tc Tl]; split; unfold transfer_typed in *; simpl in *;
    destruct (g_transfer r) eqn:?; simpl in *; destruct_and?;
    repeat match goal with E : ∃ _, _ |- _ => destruct E as (? & ? & ?) end; split_and?;
    try solve [done | lia | congruence | eauto
              | intros ? [= <-]; simpl; eauto
              | eexists; split; [done|]; simpl; congruence
              | let E := fresh in intros ? E; destruct (Tl _ E); done
              | intros ? [= <-]; edestruct Tc; [done|]; simpl; split; [lia|tauto]
              | intros ? [= <-]; edestruct Tl; [done|]; simpl; split; [done|lia]]
  end.

(** An order on records that keeps their identity. *)
Record record_order : Type := MkOrder {
  ro_rel : relation RelayRecord;
  ro_preorder : PreOrder ro_rel;
  ro_identity r r' : ro_rel r r' → identity r' = identity r;
}.
#[global] Existing Instance ro_preorder.

Definition evolving : record_order :=
  {| ro_rel := relay_evolves; ro_preorder := relay_evolves_preorder; ro_identity := re_identity |}.

Section with_hashing.
Context {H : Hashing} {T : TextForms}.

(** A record as [admit] writes it. *)
Definition fresh_record (r : RelayRecord) : Prop :=
  r.(g_job_id) = gateway_job_id r.(g_scoped_key) ∧ r.(g_transfer) = TRANSFER_QUEUED
  ∧ r.(g_epoch) = 0 ∧ r.(g_lease_until) = None ∧ r.(g_broker_job_id) = None
  ∧ r.(g_cancel) = None ∧ r.(g_collect) = None.

(** Every file holds the record of its own name. *)
Definition keyed (s : relay) : Prop :=
  ∀ id r, s.(r_jobs) !! id = Some (JobFile r) → r.(g_job_id) = id ∧ GW_JOB_RE id = true.

(** The orders on stores a given order on records makes: [relay_evolves], and
    the finer ones of single operations. *)
Section order.
Context (O : record_order).
Local Abbreviation R := (ro_rel O).

(** The job files at a later moment. *)
Definition file_by (f f' : option job_file) : Prop :=
  match f with
  | Some (JobFile r) => ∃ r', f' = Some (JobFile r') ∧ R r r'
  | Some JobGarbage => f' = Some JobGarbage
  | None => match f' with
            | None => True
            | Some f' => ∃ r0 r', f' = JobFile r' ∧ fresh_record r0 ∧ R r0 r'
            end
  end.

Definition jobs_by (s s' : relay) : Prop := ∀ id, file_by (s.(r_jobs) !! id) (s'.(r_jobs) !! id).

(** An operation's effect on the jobs. *)
Definition relay_by (s s' : relay) : Prop := keyed s → keyed s' ∧ jobs_by s s'.

#[global] Instance jobs_by_preorder : PreOrder jobs_by.
Proof.
  split.
  - intros s id. unfold file_by. destruct (r_jobs s !! id) as [[r|]|]; try done. by exists r.
  - intros a b c Hab Hbc id. specialize (Hab id). specialize (Hbc id). unfold file_by in *.
    destruct (r_jobs a !! id) as [[r|]|].
    + destruct Hab as (r1 & E1 & H1). rewrite E1 in Hbc. destruct Hbc as (r2 & E2 & H2).
      exists r2. split; [done|by transitivity r1].
    + by rewrite Hab in Hbc.
    + destruct (r_jobs b !! id) as [f|] eqn:Eb; [|done]. destruct Hab as (r0 & r1 & -> & ? & ?).
      destruct Hbc as (r2 & -> & ?). exists r0, r2. split_and!; [done..|by transitivity r1].
Qed.

#[global] Instance relay_by_preorder : PreOrder relay_by.
Proof.
  split.
  - intros s Hs. by split; [|reflexivity].
  - intros a b c Hab Hbc Ha. destruct (Hab Ha) as [Hb ?], (Hbc Hb) as [? ?].
    split; [done|by transitivity b].
Qed.

Lemma relay_le_jobs s s' : s'.(r_jobs) = s.(r_jobs) → relay_by s s'.
Proof.
  intros E Hs. split; [intros id r; rewrite E; apply Hs|].
  intros id. rewrite E. exact (PreOrder_Reflexive (R := jobs_by) s id).
Qed.

Lemma keeps_modify f : (∀ s, r_jobs (f s) = r_jobs s) → keeps relay_by (modify f).
Proof. intros Hf s. apply relay_le_jobs, Hf. Qed.

Lemma keeps_gets {A} (f : relay → A) : keeps relay_by (gets f).
Proof. intros s. reflexivity. Qed.

(** Replacing a stored record by one it may become. *)
Lemma relay_le_put s r r' :
  s.(r_jobs) !! r.(g_job_id) = Some (JobFile r) → R r r' →
  relay_by s (set_jobs s (<[r'.(g_job_id) := JobFile r']> s.(r_jobs))).
Proof.
  intros Hr Hev Hs. pose proof (ro_identity O _ _ Hev) as Hid. unfold identity in Hid.
  assert (g_job_id r' = g_job_id r) as -> by congruence. split.
  - intros id r0. simpl. destruct (decide (id = g_job_id r)) as [->|Hne].
    + rewrite lookup_insert_eq. intros [= <-]. split; [congruence|by apply (Hs _ r)].
    + rewrite lookup_insert_ne by done. apply Hs.
  - intros id. simpl. destruct (decide (id = g_job_id r)) as [->|Hne].
    + rewrite lookup_insert_eq. unfold file_by. rewrite Hr. by exists r'.
    + rewrite lookup_insert_ne by done. exact (PreOrder_Reflexive (R := jobs_by) s id).
Qed.

Lemma relay_le_write ev s r r' :
  s.(r_jobs) !! r.(g_job_id) = Some (JobFile r) → R r r' →
  relay_by s (relay_write ev r' s).2.
Proof.
  intros Hr Hev. unfold relay_write. destruct (negb _); [reflexivity|].
  destruct (e_write_fails _ _); [reflexivity|]. by eapply relay_le_put.
Qed.

(** An operation that reads a record and writes what it may become. *)
Definition follows_by {A} (r : RelayRecord) (m : op A) : Prop :=
  ∀ s, s.(r_jobs) !! r.(g_job_id) = Some (JobFile r) → relay_by s (m s).2.

Lemma follows_write ev r r' {A} (a : A) :
  R r r' → follows_by r (do? _ := relay_write ev r' in ret a).
Proof.
  intros Hev s Hr. unfold bind. pose proof (relay_le_write ev s r r' Hr Hev) as Hw.
  by destruct (relay_write ev r' s) as [[[]|e] s'].
Qed.

Lemma follows_keeps {A} r (m : op A) : keeps relay_by m → follows_by r m.
Proof. intros Hm s _. apply Hm. Qed.

(** Before the write, only other parts of the store change. *)
Lemma follows_bind {A B} r (m : op B) (k : B → op A) :
  (∀ s, r_jobs (m s).2 = r_jobs s) → (∀ b, follows_by r (k b)) → follows_by r (bind m k).
Proof.
  intros Hm Hk s Hr. unfold bind. specialize (Hm s). destruct (m s) as [[b|e] s1]; simpl in *.
  - transitivity s1; [by apply relay_le_jobs|]. apply Hk. by rewrite Hm.
  - by apply relay_le_jobs.
Qed.

Lemma relay_read_cases gw s :
  relay_read gw s = (Ok None, s)
  ∨ (∃ e, relay_read gw s = (Err e, s))
  ∨ (∃ r, relay_read gw s = (Ok (Some r), s) ∧ s.(r_jobs) !! gw = Some (JobFile r)).
Proof.
  unfold relay_read. destruct (negb _); [by right; left; eexists|].
  destruct (r_jobs s !! gw) as [[r|]|] eqn:E; [|by right; left; eexists|by left].
  right; right. by exists r.
Qed.

Lemma keeps_read {A} gw (k : option RelayRecord → op A) :
  keeps relay_by (k None) → (∀ r, follows_by r (k (Some r))) →
  keeps relay_by (do? record := relay_read gw in k record).
Proof.
  intros Hn Hk s Hs. unfold bind.
  destruct (relay_read_cases gw s) as [->|[[e ->]|(r & -> & Hr)]].
  - by apply Hn.
  - by apply (PreOrder_Reflexive (R := relay_by)).
  - apply Hk; [|done]. by rewrite (proj1 (Hs _ _ Hr)).
Qed.

Lemma keeps_find {A} gw (k : option RelayRecord → op A) :
  keeps relay_by (k None) → (∀ r, follows_by r (k (Some r))) →
  keeps relay_by (do? record := relay_find gw in k record).
Proof.
  intros Hn Hk. unfold relay_find. destruct (GW_JOB_RE gw); [by apply keeps_read|apply Hn].
Qed.

Lemma owned_cases gw p j s :
  (∃ e, owned gw p j s = (Err e, s))
  ∨ (∃ r, owned gw p j s = (Ok r, s) ∧ s.(r_jobs) !! gw = Some (JobFile r) ∧ owner r = (p, j)).
Proof.
  unfold owned, bind. destruct (relay_read_cases gw s) as [->|[[e ->]|(r & -> & Hr)]]; [by left; eexists..|].
  case_bool_decide; [right; by exists r|by left; eexists].
Qed.

Lemma keeps_owned {A} gw p j (k : RelayRecord → op A) :
  (∀ r, follows_by r (k r)) → keeps relay_by (do? record := owned gw p j in k record).
Proof.
  intros Hk s Hs. unfold bind. destruct (owned_cases gw p j s) as [[e ->]|(r & -> & Hr & _)].
  - by apply (PreOrder_Reflexive (R := relay_by)).
  - apply Hk; [|done]. by rewrite (proj1 (Hs _ _ Hr)).
Qed.
End order.
End with_hashing.

Abbreviation jobs_le := (jobs_by evolving).
Abbreviation relay_le := (relay_by evolving).
Abbreviation follows := (follows_by evolving).

Section with_hashing.
Context {H : Hashing} {T : TextForms}.

(** ** One loop for the three kinds of work

    [claim]'s loops differ in which record they pick, what it becomes and
    what is handed out; [needed] is the spool space asked for, if any. *)
Section claim_loop.
Context (ev : genv) (project : string) (max_items : Z).
Context (pick : RelayRecord → option (option Z * RelayRecord * work_item)).

Fixpoint claim_loop (records : list RelayRecord) (items : list work_item) (spool_free : option Z)
    : op (list work_item * option Z) :=
  match records with
  | [] => ret (items, spool_free)
  | record :: records =>
    if max_items <=? Z.of_nat (length items) then ret (items, spool_free)
    else match pick record with
         | None => claim_loop records items spool_free
         | Some (needed, record', item) =>
           if match needed with Some n => too_big spool_free n | None => false end then
             do? _ := withhold project in claim_loop records items spool_free
           else
             do? _ := relay_write ev record' in
             claim_loop records (items ++ [item])
               (match needed with Some n => spend spool_free n | None => spool_free end)
         end
  end.

Definition picked (r : RelayRecord) : bool := is_some (pick r).
Definition item_of (r : RelayRecord) : list work_item :=
  match pick r with Some (_, _, i) => [i] | None => [] end.
Definition need_of (r : RelayRecord) : Z :=
  match pick r with Some (Some n, _, _) => n | _ => 0 end.

(** The files once the chosen records are rewritten. *)
Definition updates (chosen : list RelayRecord) (m : gmap string job_file) : gmap string job_file :=
  foldl (λ m r, match pick r with
                | Some (_, r', _) => <[r'.(g_job_id) := JobFile r']> m
                | None => m
                end) m chosen.

Definition rewrites (s s' : relay) (chosen : list RelayRecord) : Prop :=
  s'.(r_jobs) = updates chosen s.(r_jobs) ∧ s'.(r_logs) = s.(r_logs)
  ∧ s'.(r_results) = s.(r_results).

Definition room (items : list work_item) : nat := Z.to_nat (max_items - Z.of_nat (length items)).

Definition loop_result (records : list RelayRecord) (items : list work_item) (spool : option Z)
    (chosen : list RelayRecord) (out : res relay_error (list work_item * option Z)) : Prop :=
  chosen `sublist_of` records ∧ Forall (λ r, picked r = true) chosen
  ∧ (length chosen <= room items)%nat
  ∧ (∀ free, spool = Some free → 0 <= free → sumZ need_of chosen <= free)
  ∧ match out with
    | Ok (items', spool') =>
      items' = items ++ mjoin (map item_of chosen)
      ∧ spool' = (λ free, free - sumZ need_of chosen) <$> spool
      ∧ (spool = None → chosen = take (room items) (List.filter picked records))
    | Err _ => ∃ id, ev.(e_write_fails) id = true
    end.

Lemma claim_loop_spec records items spool s :
  (∀ r n r' i, r ∈ records → pick r = Some (n, r', i) → GW_JOB_RE r'.(g_job_id) = true) →
  post (claim_loop records items spool)
    (λ out s', ∃ chosen, rewrites s s' chosen ∧ loop_result records items spool chosen out) s.
Proof.
  revert items spool s. induction records as [|r records IH]; intros items spool s Hre; cbn [claim_loop].
  { apply post_ret. exists []. unfold loop_result. simpl. split_and!; try done; try lia.
    - by rewrite app_nil_r.
    - by destruct spool as [f|]; simpl; [rewrite Z.sub_0_r|].
    - by rewrite take_nil. }
  assert (Hre' : ∀ r0 n r' i, r0 ∈ records → pick r0 = Some (n, r', i) → GW_JOB_RE r'.(g_job_id) = true).
  { intros r0 n r' i Hin. apply Hre. by right. }
  destruct (Z.leb_spec max_items (Z.of_nat (length items))) as [Hfull|Hroom].
  { apply post_ret. exists []. assert (room items = 0%nat) as Hz by (unfold room; lia).
    unfold loop_result. simpl. rewrite Hz. split_and!; try done; try lia.
    - apply sublist_nil_l.
    - by rewrite app_nil_r.
    - by destruct spool as [f|]; simpl; [rewrite Z.sub_0_r|]. }
  destruct (pick r) as [[[n r'] i]|] eqn:Hp.
  2: { eapply post_mono; [|by apply IH]. intros out s' (ch & Hrw & Hsub & Hall & Hlen & Hsp & Hout).
       exists ch. split; [done|]. split_and!; try done; [by apply sublist_cons|].
       destruct out as [[items' sp']|]; [|done]. destruct Hout as (? & ? & Hex). split_and!; try done.
       intros ->. cbn [List.filter]. unfold picked at 1. rewrite Hp. by apply Hex. }
  destruct (match n with Some n => too_big spool n | None => false end) eqn:Hbig.
  - destruct n as [n|]; [|done]. apply post_bind. unfold withhold, modify, post at 1. cbn [fst snd].
    eapply post_mono; [|by apply IH]. intros out s' (ch & Hrw & Hsub & Hall & Hlen & Hsp & Hout).
    exists ch. split; [done|]. split_and!; try done; [by apply sublist_cons|].
    destruct out as [[items' sp']|]; [|done]. destruct Hout as (? & ? & Hex). split_and!; try done.
    by intros ->.
  - apply post_bind. unfold relay_write. unfold post at 1.
    rewrite (Hre r n r' i ltac:(by left) Hp). cbn [negb].
    destruct (e_write_fails ev (g_job_id r')) eqn:Hw; cbn [fst snd].
    { exists []. unfold loop_result. simpl. split_and!; try done; try lia.
      - apply sublist_nil_l.
      - by eexists. }
    eapply post_mono; [|by apply IH]. intros out s' (ch & (Hj & Hl & Hr) & Hsub & Hall & Hlen & Hsp & Hout).
    exists (r :: ch).
    assert (room items = S (room (items ++ [i]))) as Hroom'.
    { unfold room. rewrite length_app. simpl. lia. }
    assert (Hneed : need_of r = match n with Some n => n | None => 0 end).
    { unfold need_of. by rewrite Hp. }
    split.
    { split_and!; [|done..]. rewrite Hj. unfold updates. simpl. by rewrite Hp. }
    split_and!.
    + by apply sublist_skip.
    + constructor; [|done]. unfold picked. by rewrite Hp.
    + rewrite Hroom'. simpl. lia.
    + intros free -> Hfree. simpl. destruct n as [n|]; simpl in Hbig, Hneed.
      * apply Z.ltb_ge in Hbig. specialize (Hsp (free - n) eq_refl). lia.
      * specialize (Hsp free eq_refl). lia.
    + destruct out as [[items' sp']|]; [|done]. destruct Hout as (-> & -> & Hex). split_and!.
      * simpl. unfold item_of at 2. rewrite Hp. simpl. by rewrite <- app_assoc.
      * destruct n as [n|]; destruct spool as [f|]; simpl in *; try done; f_equal; lia.
      * intros ->. cbn [List.filter]. unfold picked at 1. rewrite Hp. cbn [is_some]. rewrite Hroom'.
        cbn [take]. f_equal. apply Hex. by destruct n.
Qed.
End claim_loop.

Definition pick_submit (ev : genv) (project : string) (r : RelayRecord)
    : option (option Z * RelayRecord * work_item) :=
  if submit_due project ev.(e_now) r
  then let r' := claimed_record r ev.(e_now) in
       Some (Some r'.(g_upload_size), r', submit_item r')
  else None.

Definition pick_cancel (ev : genv) (project : string) (r : RelayRecord)
    : option (option Z * RelayRecord * work_item) :=
  (λ c, let c := leased_cancel c ev.(e_now) in
        (None, with_requests r (Some c) r.(g_collect) r.(g_logs_wanted_until) (iso ev.(e_now)),
         CancelItem c.(cn_epoch) r.(g_job_id) r.(g_broker_job_id) c.(cn_reason)))
  <$> cancel_due project ev.(e_now) r.

Definition pick_collect (ev : genv) (project : string) (r : RelayRecord)
    : option (option Z * RelayRecord * work_item) :=
  (λ c, let c := leased_collect c ev.(e_now) in
        (Some c.(cl_byte_budget),
         with_requests r r.(g_cancel) (Some c) r.(g_logs_wanted_until) r.(g_updated_at),
         CollectItem c.(cl_epoch) r.(g_job_id) r.(g_broker_job_id) c.(cl_byte_budget)))
  <$> collect_due project ev.(e_now) r.

Lemma bind_ext {A B} (m m' : op B) (k k' : B → op A) s :
  m s = m' s → (∀ b s, k b s = k' b s) → bind m k s = bind m' k' s.
Proof. unfold bind. intros -> Hk. by destruct (m' s) as [[b|e] s']. Qed.

Lemma claim_submits_loop ev project max records items spool s :
  claim_submits ev project max records items spool s
  = claim_loop ev project max (pick_submit ev project) records items spool s.
Proof.
  revert items spool s. induction records as [|r records IH]; intros items spool s; [done|].
  cbn [claim_submits claim_loop]. destruct (_ <=? _); [done|]. unfold pick_submit at 1.
  destruct (submit_due _ _ _); cbn [negb]; [|apply IH].
  change (g_upload_size (claimed_record r (e_now ev))) with (g_upload_size r).
  destruct (too_big _ _); apply bind_ext; auto.
Qed.

Lemma claim_cancels_loop ev project max records items spool s :
  claim_cancels ev project max records items s
  = (do? (items, _) := claim_loop ev project max (pick_cancel ev project) records items spool in
     ret items) s.
Proof.
  revert items s. induction records as [|r records IH]; intros items s; [done|].
  cbn [claim_cancels claim_loop]. destruct (_ <=? _); [done|]. unfold pick_cancel at 1.
  destruct (cancel_due _ _ _); cbn [fmap option_fmap option_map]; [|apply IH].
  unfold bind at 1 2 3. destruct (relay_write _ _ s) as [[[]|e] s']; [|done]. apply IH.
Qed.

Lemma claim_collects_loop ev project max records items spool s :
  claim_collects ev project max records items spool s
  = (do? (items, _) := claim_loop ev project max (pick_collect ev project) records items spool in
     ret items) s.
Proof.
  revert items spool s. induction records as [|r records IH]; intros items spool s; [done|].
  cbn [claim_collects claim_loop]. destruct (_ <=? _); [done|]. unfold pick_collect at 1.
  destruct (collect_due _ _ _) as [c|]; cbn [fmap option_fmap option_map]; [|apply IH].
  change (cl_byte_budget (leased_collect c (e_now ev))) with (cl_byte_budget c).
  destruct (too_big _ _).
  - unfold bind at 1 2 3. unfold withhold, modify. apply IH.
  - unfold bind at 1 2 3. destruct (relay_write _ _ s) as [[[]|e] s']; [|done]. apply IH.
Qed.

(** ** The records of a store *)

Lemma readable_Some m id r : readable m id = Some r ↔ m !! id = Some (JobFile r).
Proof. unfold readable. destruct (m !! id) as [[r0|]|]; naive_solver. Qed.

Lemma elem_of_relay_all s r :
  r ∈ relay_all s ↔ ∃ id, s.(r_jobs) !! id = Some (JobFile r).
Proof.
  unfold relay_all, job_names. rewrite list_elem_of_omap. split.
  - intros (id & _ & Hf%readable_Some). by exists id.
  - intros (id & Hid). exists id. split; [|by apply readable_Some].
    rewrite elem_of_sort_by, elem_of_elements, elem_of_dom. by eexists.
Qed.

Lemma relay_all_lookup s r :
  keyed s → r ∈ relay_all s ↔ s.(r_jobs) !! r.(g_job_id) = Some (JobFile r).
Proof.
  intros Hs. rewrite elem_of_relay_all. split; [|by eexists].
  intros (id & Hid). by rewrite (proj1 (Hs _ _ Hid)).
Qed.

Lemma omap_ids_nodup (m : gmap string job_file) (names : list string) :
  (∀ id r, m !! id = Some (JobFile r) → r.(g_job_id) = id) → NoDup names →
  NoDup (g_job_id <$> omap (readable m) names).
Proof.
  intros Hk. induction 1 as [|id names Hni _ IH]; [constructor|]. csimpl.
  destruct (readable m id) as [r|] eqn:E; [|done]. csimpl. apply NoDup_cons. split; [|done].
  rewrite (Hk id r) by (by apply readable_Some). intros Hin. apply Hni.
  apply list_elem_of_fmap in Hin as (r1 & -> & (id1 & Hin1 & E1)%list_elem_of_omap).
  by rewrite (Hk id1 r1) by (by apply readable_Some).
Qed.

Lemma job_names_nodup m : NoDup (job_names m).
Proof. unfold job_names. rewrite (sort_by_perm name_leb). apply NoDup_elements. Qed.

Lemma relay_all_nodup s : keyed s → NoDup (g_job_id <$> relay_all s).
Proof.
  intros Hs. apply omap_ids_nodup; [|apply job_names_nodup]. intros id r Hr. by apply (Hs _ r).
Qed.

(** ** What a round of claims does to the store *)

Definition tag (i : work_item) : item_kind * string * Z :=
  match i with
  | SubmitItem e j _ _ _ _ _ => (KSubmit, j, e)
  | CancelItem e j _ _ => (KCancel, j, e)
  | CollectItem e j _ _ => (KCollect, j, e)
  end.

(** A pick of kind [k] raises that kind's epoch by one, leaves the other two
    alone, and hands out the new epoch. *)
Record pick_ok (k : item_kind) (pick : RelayRecord → option (option Z * RelayRecord * work_item))
    : Prop := {
  pick_evolves r n r' i : pick r = Some (n, r', i) → relay_evolves r r';
  pick_tag r n r' i : pick r = Some (n, r', i) → tag i = (k, r.(g_job_id), rec_epoch k r + 1);
  pick_epoch r n r' i : pick r = Some (n, r', i) →
    ∀ k', rec_epoch k' r' = rec_epoch k' r + (if decide (k' = k) then 1 else 0);
}.

Lemma pick_submit_ok ev project : pick_ok KSubmit (pick_submit ev project).
Proof.
  assert (Hd : ∀ r n r' i, pick_submit ev project r = Some (n, r', i) →
    r' = claimed_record r (e_now ev) ∧ i = submit_item r' ∧ CLAIMABLE r.(g_transfer) = true).
  { intros r n r' i. unfold pick_submit, submit_due. case_match eqn:E; [|done].
    intros [= <- <- <-]. propify. done. }
  split; intros r n r' i (-> & -> & Hc)%Hd; [|done|intros []; simpl; lia].
  evolve; [intros Ha; by rewrite Ha in Hc|]. retype.
Qed.

Lemma pick_cancel_ok ev project : pick_ok KCancel (pick_cancel ev project).
Proof.
  assert (Hd : ∀ r n r' i, pick_cancel ev project r = Some (n, r', i) → ∃ c,
    r.(g_cancel) = Some c ∧ c.(cn_state) = CANCEL_REQUESTED
    ∧ r' = with_requests r (Some (leased_cancel c (e_now ev))) r.(g_collect)
            r.(g_logs_wanted_until) (iso (e_now ev))
    ∧ i = CancelItem (cn_epoch c + 1) r.(g_job_id) r.(g_broker_job_id) c.(cn_reason)).
  { intros r n r' i. unfold pick_cancel, cancel_due. destruct (g_cancel r) as [c|]; [|done].
    repeat case_match; simplify_eq/=; try done. intros [= <- <- <-]. propify. by exists c. }
  split; intros r n r' i (c & Hc & Hst & -> & ->)%Hd.
  - evolve; [intros []; simpl; rewrite ?Hc; simpl; lia|..].
    { intros c0 E. exists (leased_cancel c (e_now ev)). rewrite Hc in E. simplify_eq. by split. } retype.
  - simpl. by rewrite Hc.
  - intros []; simpl; rewrite ?Hc; simpl; lia.
Qed.

Lemma pick_collect_ok ev project : pick_ok KCollect (pick_collect ev project).
Proof.
  assert (Hd : ∀ r n r' i, pick_collect ev project r = Some (n, r', i) → ∃ c,
    r.(g_collect) = Some c ∧ c.(cl_state) = COLLECT_REQUESTED
    ∧ r' = with_requests r r.(g_cancel) (Some (leased_collect c (e_now ev)))
            r.(g_logs_wanted_until) r.(g_updated_at)
    ∧ i = CollectItem (cl_epoch c + 1) r.(g_job_id) r.(g_broker_job_id) c.(cl_byte_budget)).
  { intros r n r' i. unfold pick_collect, collect_due. destruct (g_collect r) as [c|]; [|done].
    repeat case_match; simplify_eq/=; try done. intros [= <- <- <-]. propify. by exists c. }
  split; intros r n r' i (c & Hc & Hst & -> & ->)%Hd.
  - evolve; [intros []; simpl; rewrite ?Hc; simpl; lia|..].
    { intros c0 E. exists (leased_collect c (e_now ev)). rewrite Hc in E. simplify_eq. split; [done|by intros ?]. }
    retype.
  - simpl. by rewrite Hc.
  - intros []; simpl; rewrite ?Hc; simpl; lia.
Qed.

Section updates.
Context (k : item_kind) (pick : RelayRecord → option (option Z * RelayRecord * work_item)).
Context (Hpick : pick_ok k pick).

Lemma pick_id r n r' i : pick r = Some (n, r', i) → r'.(g_job_id) = r.(g_job_id).
Proof using Hpick.
  intros Hp%(pick_evolves _ _ Hpick). pose proof (re_identity _ _ Hp) as E.
  unfold identity in E. congruence.
Qed.

Lemma updates_cons r chosen m :
  updates pick (r :: chosen) m
  = updates pick chosen (match pick r with
                         | Some (_, r', _) => <[r'.(g_job_id) := JobFile r']> m
                         | None => m
                         end).
Proof. done. Qed.

Lemma updates_other chosen m id :
  id ∉ g_job_id <$> chosen → updates pick chosen m !! id = m !! id.
Proof using Hpick.
  revert m. induction chosen as [|r chosen IH]; intros m Hid; [done|].
  csimpl in Hid. apply not_elem_of_cons in Hid as [Hne Hid]. rewrite updates_cons, IH by done.
  destruct (pick r) as [[[n r'] i]|] eqn:Hp; [|done].
  rewrite (pick_id _ _ _ _ Hp). by apply lookup_insert_ne.
Qed.

Lemma updates_chosen chosen m r n r' i :
  NoDup (g_job_id <$> chosen) → r ∈ chosen → pick r = Some (n, r', i) →
  updates pick chosen m !! r.(g_job_id) = Some (JobFile r').
Proof using Hpick.
  revert m. induction chosen as [|r0 chosen IH]; intros m Hn Hin Hp; [by apply elem_of_nil in Hin|].
  csimpl in Hn. apply NoDup_cons in Hn as [Hni Hn]. apply elem_of_cons in Hin as [<-|Hin].
  - rewrite updates_cons. rewrite updates_other by done.
    rewrite Hp, (pick_id _ _ _ _ Hp). apply lookup_insert_eq.
  - rewrite updates_cons. by apply IH.
Qed.
End updates.

Definition epoch_at (s : relay) (k : item_kind) (j : string) : Z :=
  match s.(r_jobs) !! j with Some (JobFile r) => rec_epoch k r | _ => 0 end.

(** The spool space an item takes on the connector's host. *)
Definition item_need (i : work_item) : Z :=
  match i with
  | SubmitItem _ _ _ _ _ _ size => size
  | CollectItem _ _ _ budget => budget
  | CancelItem _ _ _ _ => 0
  end.

Lemma epoch_at_stored s r k :
  s.(r_jobs) !! r.(g_job_id) = Some (JobFile r) → epoch_at s k r.(g_job_id) = rec_epoch k r.
Proof. unfold epoch_at. by intros ->. Qed.

(** One round over the records of the store. *)
Record round (k : item_kind) (pick : RelayRecord → option (option Z * RelayRecord * work_item))
    (s s' : relay) (chosen : list RelayRecord) : Prop := {
  round_le : relay_le s s';
  round_rest : s'.(r_logs) = s.(r_logs) ∧ s'.(r_results) = s.(r_results);
  round_epoch k' j : epoch_at s' k' j
    = epoch_at s k' j + (if decide (k' = k ∧ j ∈ g_job_id <$> chosen) then 1 else 0);
  round_other id : id ∉ g_job_id <$> chosen → s'.(r_jobs) !! id = s.(r_jobs) !! id;
  round_chosen r : r ∈ chosen → s.(r_jobs) !! r.(g_job_id) = Some (JobFile r) ∧
    ∃ n r' i, pick r = Some (n, r', i) ∧ s'.(r_jobs) !! r.(g_job_id) = Some (JobFile r');
  round_nodup : NoDup (g_job_id <$> chosen);
}.

Lemma rewrites_round k pick s s' chosen :
  pick_ok k pick → keyed s → chosen `sublist_of` relay_all s →
  Forall (λ r, picked pick r = true) chosen → rewrites pick s s' chosen → round k pick s s' chosen.
Proof.
  intros Hp Hs Hsub Hall (Hj & Hl & Hr).
  assert (Hn : NoDup (g_job_id <$> chosen)).
  { eapply sublist_NoDup; [by apply relay_all_nodup|by apply fmap_sublist]. }
  assert (Hin : ∀ r, r ∈ chosen → s.(r_jobs) !! r.(g_job_id) = Some (JobFile r)).
  { intros r Hr0. apply relay_all_lookup; [done|]. by eapply elem_of_sublist. }
  assert (Hch : ∀ r, r ∈ chosen → ∃ n r' i, pick r = Some (n, r', i)
    ∧ s'.(r_jobs) !! r.(g_job_id) = Some (JobFile r')).
  { intros r Hr0. rewrite Forall_forall in Hall. specialize (Hall r Hr0). unfold picked in Hall.
    destruct (pick r) as [[[n r'] i]|] eqn:E; [|done]. exists n, r', i. split; [done|].
    rewrite Hj. by eapply updates_chosen. }
  assert (Ho : ∀ id, id ∉ g_job_id <$> chosen → s'.(r_jobs) !! id = s.(r_jobs) !! id).
  { intros id Hid. rewrite Hj. by eapply updates_other. }
  assert (Hcase : ∀ id, (id ∉ g_job_id <$> chosen) ∨ ∃ r, r ∈ chosen ∧ id = r.(g_job_id)).
  { intros id. destruct (decide (id ∈ g_job_id <$> chosen)) as [Hi|]; [right|by left].
    apply list_elem_of_fmap in Hi as (r & -> & ?). by exists r. }
  split; [| done | |done|by intros r ?; auto|done].
  - intros _. split.
    + intros id r0 Hr0. destruct (Hcase id) as [Hid|(r & Hr1 & ->)].
      * rewrite Ho in Hr0 by done. by apply (Hs _ r0).
      * destruct (Hch r Hr1) as (n & r' & i & Hpr & E). rewrite E in Hr0. simplify_eq.
        split; [by eapply pick_id|]. by apply (Hs _ r), Hin.
    + intros id. destruct (Hcase id) as [Hid|(r & Hr1 & ->)].
      * rewrite Ho by done. exact (PreOrder_Reflexive (R := jobs_le) s id).
      * destruct (Hch r Hr1) as (n & r' & i & Hpr & E). rewrite E, (Hin r Hr1). exists r'.
        split; [done|]. by eapply pick_evolves.
  - intros k' j. unfold epoch_at. destruct (Hcase j) as [Hid|(r & Hr1 & ->)].
    + rewrite Ho by done. rewrite decide_False by naive_solver. lia.
    + destruct (Hch r Hr1) as (n & r' & i & Hpr & E). rewrite E, (Hin r Hr1).
      rewrite (pick_epoch _ _ Hp _ _ _ _ Hpr). f_equal.
      destruct (decide (k' = k)) as [->|Hne]; [rewrite decide_True|rewrite decide_False by naive_solver]; try done.
      split; [done|]. by apply list_elem_of_fmap_2.
Qed.

Lemma round_tags k pick s s' chosen :
  pick_ok k pick → round k pick s s' chosen →
  tag <$> mjoin (map (item_of pick) chosen)
  = (λ r, (k, r.(g_job_id), epoch_at s k r.(g_job_id) + 1)) <$> chosen.
Proof.
  intros Hp Hrd.
  assert (Hall : ∀ r, r ∈ chosen → ∃ n r' i, pick r = Some (n, r', i)
    ∧ tag i = (k, r.(g_job_id), epoch_at s k r.(g_job_id) + 1)).
  { intros r Hr. destruct (round_chosen _ _ _ _ _ Hrd r Hr) as (Hs & n & r' & i & E & _).
    exists n, r', i. split; [done|]. rewrite (pick_tag _ _ Hp _ _ _ _ E).
    by rewrite epoch_at_stored. }
  clear Hrd. induction chosen as [|r chosen IH]; [done|].
  destruct (Hall r ltac:(by left)) as (n & r' & i & E & Ht). csimpl.
  unfold item_of at 1. rewrite E. cbn [app]. csimpl. rewrite Ht. f_equal. apply IH.
  intros r0 Hr0. apply Hall. by right.
Qed.

Lemma round_needs pick chosen :
  (∀ r n r' i, pick r = Some (n, r', i) → item_need i = match n with Some n => n | None => 0 end) →
  sumZ item_need (mjoin (map (item_of pick) chosen)) = sumZ (need_of pick) chosen.
Proof.
  intros Hn. induction chosen as [|r chosen IH]; [done|]. csimpl. rewrite sumZ_app, IH. f_equal.
  unfold item_of, need_of. destruct (pick r) as [[[n r'] i]|] eqn:E; [|done].
  cbn [sumZ foldr]. rewrite (Hn _ _ _ _ E). destruct n; simpl; lia.
Qed.

Lemma claim_loop_round ev project max k pick items spool s :
  pick_ok k pick → keyed s →
  post (claim_loop ev project max pick (relay_all s) items spool)
    (λ out s', ∃ chosen, round k pick s s' chosen
       ∧ loop_result ev max pick (relay_all s) items spool chosen out) s.
Proof.
  intros Hp Hs. eapply post_mono; [|apply claim_loop_spec].
  - intros out s' (ch & Hrw & Hres). exists ch. split; [|done]. destruct Hres as (Hsub & Hall & _).
    by apply rewrites_round.
  - intros r n r' i Hr E. rewrite (pick_id _ _ Hp _ _ _ _ E).
    by apply (Hs _ r), relay_all_lookup.
Qed.

Lemma round_keyed k pick s s' chosen : keyed s → round k pick s s' chosen → keyed s'.
Proof. intros Hs Hr. by apply (round_le _ _ _ _ _ Hr). Qed.

Definition unwithheld (project : string) (s : relay) : relay :=
  set_withheld s (<[project := 0]> s.(r_withheld)).

(** The three rounds of a claim, and how much each took. *)
Record claim_run (ev : genv) (project : string) (max : Z) (spool : option Z) (s s' : relay)
    (items : list work_item) (s1 s2 : relay) (c1 c2 c3 : list RelayRecord) : Prop := {
  run_submits : round KSubmit (pick_submit ev project) (unwithheld project s) s1 c1;
  run_cancels : round KCancel (pick_cancel ev project) s1 s2 c2;
  run_collects : round KCollect (pick_collect ev project) s2 s' c3;
  run_items : items = mjoin (map (item_of (pick_submit ev project)) c1)
                ++ mjoin (map (item_of (pick_cancel ev project)) c2)
                ++ mjoin (map (item_of (pick_collect ev project)) c3);
  run_length : (length c1 + length c2 + length c3 <= Z.to_nat max)%nat;
  run_spool free : spool = Some free → 0 <= free →
    sumZ (need_of (pick_submit ev project)) c1 + sumZ (need_of (pick_collect ev project)) c3 <= free;
  run_exact : spool = None →
    c1 = take (Z.to_nat max) (List.filter (picked (pick_submit ev project)) (relay_all s))
    ∧ c2 = take (Z.to_nat max - length c1) (List.filter (picked (pick_cancel ev project)) (relay_all s1))
    ∧ c3 = take (Z.to_nat max - length c1 - length c2)
             (List.filter (picked (pick_collect ev project)) (relay_all s2));
}.

Lemma items_length k pick s s' chosen :
  pick_ok k pick → round k pick s s' chosen →
  length (mjoin (map (item_of pick) chosen)) = length chosen.
Proof.
  intros Hp Hr. pose proof (f_equal length (round_tags _ _ _ _ _ Hp Hr)) as E.
  by rewrite !length_fmap in E.
Qed.

Lemma post_ext {A} (m m' : op A) P (s : relay) : m s = m' s → post m' P s → post m P s.
Proof. unfold post. by intros ->. Qed.

Lemma claim_rounds ev project max spool s :
  keyed s →
  post (claim ev project max spool)
    (λ out s', relay_le s s' ∧ s'.(r_logs) = s.(r_logs) ∧ s'.(r_results) = s.(r_results)
       ∧ match out with
         | Ok items => ∃ s1 s2 c1 c2 c3, claim_run ev project max spool s s' items s1 s2 c1 c2 c3
         | Err _ => ∃ id, ev.(e_write_fails) id = true
         end) s.
Proof.
  intros Hs. pose proof (pick_submit_ok ev project) as P1. pose proof (pick_cancel_ok ev project) as P2.
  pose proof (pick_collect_ok ev project) as P3.
  unfold claim. apply post_bind. unfold modify, post at 1. cbn [fst snd].
  apply post_bind. unfold gets, post at 1. cbn [fst snd]. fold (unwithheld project s).
  assert (Hk0 : keyed (unwithheld project s)) by done.
  assert (L0 : relay_le s (unwithheld project s)) by by apply relay_le_jobs.
  apply post_bind. eapply post_ext; [apply claim_submits_loop|].
  eapply post_mono; [|by apply claim_loop_round].
  intros out s1 (c1 & R1 & Hsub1 & Hall1 & Hlen1 & Hsp1 & Hout1).
  assert (L1 : relay_le s s1) by (transitivity (unwithheld project s); [done|apply R1]).
  assert (Hk1 : keyed s1) by by apply (L1 Hs).
  destruct (round_rest _ _ _ _ _ R1) as [Hl1 Hr1]. simpl in Hl1, Hr1.
  destruct out as [[items1 sp1]|e]; [|done]. destruct Hout1 as (-> & -> & Hex1). cbn [app].
  apply post_bind. unfold gets, post at 1. cbn [fst snd]. apply post_bind.
  eapply post_ext; [apply (claim_cancels_loop _ _ _ _ _ spool)|]. apply post_bind.
  eapply post_mono; [|by apply claim_loop_round].
  intros out s2 (c2 & R2 & Hsub2 & Hall2 & Hlen2 & Hsp2 & Hout2).
  assert (L2 : relay_le s s2) by (transitivity s1; [done|apply R2]).
  assert (Hk2 : keyed s2) by by apply (L2 Hs).
  destruct (round_rest _ _ _ _ _ R2) as [Hl2 Hr2].
  destruct out as [[items2 sp2]|e]; [|split_and!; try done; congruence].
  destruct Hout2 as (-> & _ & Hex2). apply post_ret.
  apply post_bind. unfold gets, post at 1. cbn [fst snd].
  eapply post_ext; [apply claim_collects_loop|]. apply post_bind.
  eapply post_mono; [|by apply claim_loop_round].
  intros out s3 (c3 & R3 & Hsub3 & Hall3 & Hlen3 & Hsp3 & Hout3).
  assert (L3 : relay_le s s3) by (transitivity s2; [done|apply R3]).
  destruct (round_rest _ _ _ _ _ R3) as [Hl3 Hr3].
  assert (Hl : r_logs s3 = r_logs s) by congruence. assert (Hr : r_results s3 = r_results s) by congruence.
  destruct out as [[items3 sp3]|e]; [|done].
  destruct Hout3 as (-> & _ & Hex3). apply post_ret. split_and!; try done.
  pose proof (items_length _ _ _ _ _ P1 R1) as E1. pose proof (items_length _ _ _ _ _ P2 R2) as E2.
  unfold room in *. rewrite !length_app, ?E1, ?E2 in *. cbn [length] in *.
  exists s1, s2, c1, c2, c3. split; try done.
  - by rewrite <- app_assoc.
  - lia.
  - intros free -> Hf. specialize (Hsp1 free eq_refl Hf). simpl in Hsp3.
    specialize (Hsp3 _ eq_refl). lia.
  - intros ->. specialize (Hex1 eq_refl). specialize (Hex3 eq_refl). rewrite Nat2Z.inj_add in Hex3.
    assert (∀ n m, Z.to_nat (max - (Z.of_nat n + Z.of_nat m)) = Z.to_nat max - n - m)%nat as Hm by lia.
    assert (∀ n, Z.to_nat (max - Z.of_nat n) = Z.to_nat max - n)%nat as Hm' by lia.
    rewrite Hm in Hex3. rewrite Hm' in Hex1, Hex2. rewrite Nat.sub_0_r in Hex1. by auto.
Qed.

(** Whatever each round respects, a claim respects, failing or not. *)
Lemma claim_by (R : relation relay) `{!PreOrder R} ev project max spool s :
  (∀ s, R s (unwithheld project s)) →
  (∀ s s' c, round KSubmit (pick_submit ev project) s s' c → R s s') →
  (∀ s s' c, round KCancel (pick_cancel ev project) s s' c → R s s') →
  (∀ s s' c, round KCollect (pick_collect ev project) s s' c → R s s') →
  keyed s → R s (claim ev project max spool s).2.
Proof.
  intros R0 R1 R2 R3 Hs. pose proof (pick_submit_ok ev project) as P1.
  pose proof (pick_cancel_ok ev project) as P2. pose proof (pick_collect_ok ev project) as P3.
  apply (post_bind _ _ (λ _ s', R s s')). unfold modify, post at 1. cbn [fst snd].
  apply post_bind. unfold gets, post at 1. cbn [fst snd]. fold (unwithheld project s).
  apply post_bind. eapply post_ext; [apply claim_submits_loop|].
  eapply post_mono; [|by apply claim_loop_round]. intros out s1 (c1 & H1 & _).
  assert (Hk1 : keyed s1) by by eapply (round_keyed _ _ (unwithheld project s)).
  assert (L1 : R s s1) by (transitivity (unwithheld project s); eauto).
  destruct out as [[items1 sp1]|e]; [|done].
  apply post_bind. unfold gets, post at 1. cbn [fst snd]. apply post_bind.
  eapply post_ext; [apply (claim_cancels_loop _ _ _ _ _ spool)|]. apply post_bind.
  eapply post_mono; [|by apply claim_loop_round]. intros out s2 (c2 & H2 & _).
  assert (Hk2 : keyed s2) by by eapply round_keyed.
  assert (L2 : R s s2) by (transitivity s1; eauto).
  destruct out as [[items2 sp2]|e]; [|done]. apply post_ret, post_bind.
  unfold gets, post at 1. cbn [fst snd]. eapply post_ext; [apply claim_collects_loop|]. apply post_bind.
  eapply post_mono; [|by apply claim_loop_round]. intros out s3 (c3 & H3 & _).
  assert (L3 : R s s3) by (transitivity s2; eauto).
  by destruct out as [[items3 sp3]|e]; [apply post_ret|].
Qed.

(** A claim hands out each item at an epoch above every earlier one, and the
    store keeps that epoch. *)
Lemma claim_tags ev project max spool s s' items s1 s2 c1 c2 c3 :
  claim_run ev project max spool s s' items s1 s2 c1 c2 c3 →
  NoDup (tag <$> items)
  ∧ ∀ k j e, (k, j, e) ∈ tag <$> items → epoch_at s k j < e ∧ e = epoch_at s' k j.
Proof.
  intros [R1 R2 R3 -> _ _ _].
  rewrite !fmap_app, (round_tags _ _ _ _ _ (pick_submit_ok _ _) R1),
    (round_tags _ _ _ _ _ (pick_cancel_ok _ _) R2), (round_tags _ _ _ _ _ (pick_collect_ok _ _) R3).
  assert (Hn : ∀ k pick a b chosen, round k pick a b chosen →
    NoDup ((λ r, (k, g_job_id r, epoch_at a k (g_job_id r) + 1)) <$> chosen)).
  { intros k pick a b chosen Hr. pose proof (round_nodup _ _ _ _ _ Hr) as Hn.
    clear Hr. induction chosen as [|r l IH]; [constructor|]. csimpl in *.
    apply NoDup_cons in Hn as [Hni Hn]. apply NoDup_cons. split; [|auto].
    intros (r1 & E & Hr1)%list_elem_of_fmap. apply Hni. injection E as E _. rewrite E.
    by apply list_elem_of_fmap_2. }
  split.
  - apply NoDup_app. split_and!; [by eapply Hn| |apply NoDup_app; split_and!; [by eapply Hn| |by eapply Hn]].
    + intros x (r & -> & _)%list_elem_of_fmap [(? & ? & _)%list_elem_of_fmap|(? & ? & _)%list_elem_of_fmap]%elem_of_app; done.
    + intros x (r & -> & _)%list_elem_of_fmap (? & ? & _)%list_elem_of_fmap; done.
  - intros k j e. rewrite !elem_of_app, !list_elem_of_fmap.
    pose proof (round_epoch _ _ _ _ _ R1 k j) as E1. pose proof (round_epoch _ _ _ _ _ R2 k j) as E2.
    pose proof (round_epoch _ _ _ _ _ R3 k j) as E3.
    change (epoch_at (unwithheld project s) k j) with (epoch_at s k j) in E1.
    intros [(r & [= -> -> ->] & Hr)|[(r & [= -> -> ->] & Hr)|(r & [= -> -> ->] & Hr)]];
      apply (list_elem_of_fmap_2 g_job_id) in Hr;
      repeat case_decide; destruct_and?; try done; try tauto;
      change (epoch_at (unwithheld project s)) with (epoch_at s) in *; split; lia.
Qed.
End with_hashing.
