(* ===== verification/RelayGuarantees.v ===== *)
(** * What the relay store guarantees

    Everything a record says for good stays said; every hand-out of a work
    item carries an epoch of its own, and only the latest one can be
    acknowledged; a claim hands out exactly the items that are due; logs and
    results are exactly what was pushed. *)

From S2P Require Import Prelude Spec Json BrokerRecord Relay RelayOps RelayLogic.

(** ** The calls clients and connectors make *)

Inductive relay_call : Type :=
| CallSubmit (principal project key_id scoped_key : string) (request : list (string * json))
    (upload : upload_ref)
| CallClaim (project : string) (max_items : Z) (spool_free : option Z)
| CallRequestResults (job_id principal project : string) (byte_budget : Z)
| CallPush (project job_id path : string) (start : Z) (data : string)
| CallRequestCancel (job_id principal project reason : string)
| CallAck (project item : string) (epoch : Z) (outcome : string)
    (broker_job_id reason : option string) (manifest : json)
| CallWantLogs (job_id principal project : string)
| CallAppendLogs (project job_id stream : string) (start : Z) (data : string)
| CallReport (project : string) (views : list (string * json)).

Definition no_items {A} (m : op A) : op (list work_item) := do? _ := m in ret [].

Section with_hashing.
Context {H : Hashing} {T : TextForms}.

(** What the call hands out, if it returns. *)
Definition run_call (ev : genv) (c : relay_call) : op (list work_item) :=
  match c with
  | CallSubmit p j k key req up => no_items (relay_admit ev p j k key req up)
  | CallClaim project max spool => claim ev project max spool
  | CallRequestResults id p j budget => no_items (request_results ev id p j budget)
  | CallPush project id path start data => no_items (push_result ev project id path start data)
  | CallRequestCancel id p j why => no_items (request_cancel ev id p j why)
  | CallAck project item epoch outcome bid why manifest =>
    no_items (ack ev project item epoch outcome bid why manifest)
  | CallWantLogs id p j => no_items (want_logs ev id p j)
  | CallAppendLogs project id stream start data =>
    no_items (append_logs ev project id stream start data)
  | CallReport project views => no_items (report ev project views)
  end.

Definition handed_out (out : res relay_error (list work_item)) : list work_item :=
  match out with Ok items => items | Err _ => [] end.

(** A history of calls, each in its own environment: all the items handed out
    and the store it leaves. *)
Fixpoint run_calls (calls : list (genv * relay_call)) (s : relay) : list work_item * relay :=
  match calls with
  | [] => ([], s)
  | (ev, c) :: calls =>
    let (out, s1) := run_call ev c s in
    let (items, s2) := run_calls calls s1 in
    (handed_out out ++ items, s2)
  end.

Definition empty_relay : relay :=
  {| r_jobs := ∅; r_logs := ∅; r_results := ∅; r_withheld := ∅ |}.

(** ** Every operation respects the order *)

Lemma keeps_no_items {A} (R : relation relay) `{!PreOrder R} (m : op A) :
  keeps R m → keeps R (no_items m).
Proof. intros Hm. apply keeps_bind; [apply _|done|]. intros ?. apply keeps_ret, _. Qed.

Section steps.
Context (O : record_order).

Lemma relay_le_fresh ev s r :
  fresh_record r → s.(r_jobs) !! r.(g_job_id) = None → relay_by O s (relay_write ev r s).2.
Proof.
  intros Hf Hn. unfold relay_write. destruct (GW_JOB_RE (g_job_id r)) eqn:Hre; [|reflexivity].
  cbn [negb]. destruct (e_write_fails _ _); [reflexivity|]. intros Hs. split.
  - intros id r0. simpl. destruct (decide (id = g_job_id r)) as [->|Hne].
    + rewrite lookup_insert_eq. by intros [= <-].
    + rewrite lookup_insert_ne by done. apply Hs.
  - intros id. simpl. destruct (decide (id = g_job_id r)) as [->|Hne].
    + rewrite lookup_insert_eq, Hn. simpl. by exists r, r.
    + rewrite lookup_insert_ne by done. exact (PreOrder_Reflexive (R := jobs_by O) s id).
Qed.

Lemma keeps_fail {A} n msg : keeps (A := A) (relay_by O) (fail n msg).
Proof. apply keeps_throw, _. Qed.

Lemma follows_fail {A} r n msg : follows_by O (A := A) r (fail n msg).
Proof. apply follows_keeps, keeps_fail. Qed.

Lemma follows_ret {A} r (a : A) : follows_by O r (ret a).
Proof. apply follows_keeps, keeps_ret, _. Qed.

Lemma follows_throw {A} r e : follows_by O (A := A) r (throw e).
Proof. apply follows_keeps, keeps_throw, _. Qed.

Lemma admit_keeps ev p j k key req up : keeps (relay_by O) (relay_admit ev p j k key req up).
Proof.
  intros s. unfold relay_admit, bind.
  destruct (relay_read_cases (gateway_job_id key) s) as [E|[[e ->]|(r & -> & _)]]; [|reflexivity|].
  - rewrite E. set (r := admitted_record _ _ _ _ _ _ _).
    assert (r_jobs s !! g_job_id r = None).
    { unfold relay_read in E. change (g_job_id r) with (gateway_job_id key).
      destruct (negb _); [done|]. by destruct (r_jobs s !! _) as [[]|]. }
    pose proof (relay_le_fresh ev s r) as Hw.
    destruct (relay_write ev r s) as [[[]|e] s']; simpl in *; by apply Hw.
  - destruct (_ || _); reflexivity.
Qed.
End steps.

#[local] Hint Resolve follows_fail follows_ret follows_throw keeps_fail : vq_relay.

Lemma request_results_keeps ev id p j b : keeps relay_le (request_results ev id p j b).
Proof.
  apply keeps_owned. intros r. case_match eqn:Hg; [|auto with vq_relay].
  apply follows_write. evolve.
  - intros c Hc. eexists. split; [done|]. intros Hd. rewrite Hc, Hd in Hg. by destruct (bool_decide _).
  - apply andb_true_iff in Hg as [Ha%bool_decide_eq_true _]. retype.
    intros c [= <-]. simpl. split; [done|]. destruct (g_collect r); [by edestruct Tl|done].
Qed.

Lemma set_incoming_jobs id t s : r_jobs (set_incoming id t s).2 = r_jobs s.
Proof. done. Qed.

Lemma push_result_jobs ev project id path start data s :
  r_jobs (push_result ev project id path start data s).2 = r_jobs s.
Proof.
  unfold push_result, bind, lift. destruct (safe_parts path) as [parts|]; [|done].
  assert (∃ o, relay_find id s = (o, s)) as [o ->].
  { unfold relay_find. destruct (GW_JOB_RE id); [|by eexists].
    destruct (relay_read_cases id s) as [->|[[e ->]|(r & -> & _)]]; by eexists. }
  destruct o as [record|]; [|done]. destruct (pending_collect _ _) as [c|]; [|done].
  unfold incoming, set_incoming, bind, gets, put_results, modify, ret, throw, fail.
  repeat case_match; simplify_eq/=; done.
Qed.

Lemma publish_results_jobs ev id m s : r_jobs (publish_results ev id m s).2 = r_jobs s.
Proof.
  unfold publish_results, bind, lift, gets, put_results, modify, ret, throw, fail.
  repeat case_match; simplify_eq/=; done.
Qed.

Lemma ack_collect_follows ev r epoch outcome m why : follows r (ack_collect ev r epoch outcome m why).
Proof.
  unfold ack_collect. destruct (g_collect r) as [c|] eqn:Hc; [|auto with vq_relay].
  destruct (Z.eqb_spec epoch (cl_epoch c)) as [->|]; cbn [negb]; [|auto with vq_relay].
  case_bool_decide as Hd; [auto with vq_relay|].
  case_bool_decide as Hq; cbn [negb]; [|auto with vq_relay].
  assert (Hset : ∀ st d, follows r (
    (do? _ := relay_write ev (with_requests r r.(g_cancel) (Some (settled_collect c st d))
       r.(g_logs_wanted_until) (iso (e_now ev))) in
     ret (with_requests r r.(g_cancel) (Some (settled_collect c st d))
       r.(g_logs_wanted_until) (iso (e_now ev)))))).
  { intros st d. apply follows_write. evolve.
    - intros []; simpl; rewrite ?Hc; simpl; lia.
    - intros c0 E. rewrite Hc in E. simplify_eq. eexists. split; [done|]. by intros ?.
    - retype. }
  destruct (String.eqb outcome "collected").
  - intros s Hr. unfold bind at 1 2. pose proof (publish_results_jobs ev (g_job_id r) m s) as Hj.
    destruct (publish_results _ _ _ s) as [[[]|e] s1]; simpl in Hj |- *; [|by apply relay_le_jobs].
    transitivity s1; [by apply relay_le_jobs|]. apply Hset. by rewrite Hj.
  - destruct (collect_of_outcome outcome) as [st|]; [|intros s _; reflexivity].
    intros s Hr. unfold bind at 1 2. unfold set_incoming, put_results, modify. cbn.
    set (s1 := set_results _ _). transitivity s1; [by apply relay_le_jobs|]. by apply Hset.
Qed.

Lemma request_cancel_keeps ev id p j why : keeps relay_le (request_cancel ev id p j why).
Proof.
  apply keeps_owned. intros r. case_match eqn:Hg; [auto with vq_relay|].
  destruct (g_cancel r) as [c|] eqn:Hc; [auto with vq_relay|].
  apply follows_write. apply orb_false_iff in Hg as [Hr1 Hr2]; propify.
  destruct (bool_decide (g_transfer r = TRANSFER_QUEUED)) eqn:Hq; propify; evolve;
    try (intros []; simpl; rewrite ?Hc; simpl; lia); try (by rewrite Hc); retype;
    intros ? [= <-]; simpl; by split.
Qed.

Lemma cancel_of_outcome_settled o st : cancel_of_outcome o = Some st → st ≠ CANCEL_REQUESTED.
Proof. unfold cancel_of_outcome. by repeat case_match; intros [= <-]. Qed.

Lemma ack_cancel_follows ev r epoch outcome : follows r (ack_cancel ev r epoch outcome).
Proof.
  unfold ack_cancel. destruct (g_cancel r) as [c|] eqn:Hc; [|auto with vq_relay].
  destruct (epoch =? cn_epoch c); cbn [negb]; [|auto with vq_relay].
  destruct (cancel_of_outcome outcome) as [st|] eqn:Ho; [|auto with vq_relay].
  apply cancel_of_outcome_settled in Ho. case_bool_decide as Hq; cbn [negb]; [|case_bool_decide; auto with vq_relay].
  apply follows_write. evolve.
  - intros []; simpl; rewrite ?Hc; simpl; lia.
  - intros c0 E. rewrite Hc in E. simplify_eq. by eexists.
  - retype; intros ? [= <-]; (edestruct Tc; [done|]); simpl; by split.
Qed.

Lemma ack_submit_follows ev r epoch outcome bid why :
  follows r (ack_submit ev r epoch outcome bid why).
Proof.
  unfold ack_submit. case_match; [auto with vq_relay|].
  case_bool_decide as Ha; [case_match; auto with vq_relay|].
  assert (Hev : ∀ r' : RelayRecord, relay_evolves r r' →
    follows r ((do? record := ret r' in do? _ := relay_write ev record in ret record))).
  { intros r' Hr'. by apply follows_write. }
  destruct (String.eqb outcome "accepted"); [|destruct (String.eqb outcome "refused");
    [|destruct (String.eqb outcome "uncertain")]].
  - case_match eqn:Hb; [intros s _; reflexivity|]. assert (∃ b, bid = Some b ∧ b ≠ "") as Hbid.
    { destruct bid as [b|]; [|done]. exists b. split; [done|]. by intros ->. }
    apply Hev. evolve. retype.
  - apply Hev. evolve.
    + intros []; simpl; try lia. destruct (g_cancel r) as [c|]; simpl; [|lia].
      unfold refuse_cancel. case_bool_decide; simpl; lia.
    + intros c ->. eexists. split; [done|]. unfold refuse_cancel. by case_bool_decide.
    + retype.
      all: (destruct (g_cancel r) as [c|] eqn:Hc; [|done]); intros ? [= <-]; unfold refuse_cancel.
      all: destruct (Tc c eq_refl); case_bool_decide; simpl in *; try done; split; done || by split.
  - apply Hev. evolve. retype.
  - intros s _. reflexivity.
Qed.

Lemma ack_keeps ev project item epoch outcome bid why m :
  keeps relay_le (ack ev project item epoch outcome bid why m).
Proof.
  unfold ack. destruct (partition_colon item) as [kind job].
  destruct (item_kind_of kind) as [k|]; [|auto with vq_relay].
  apply keeps_find; [auto with vq_relay|]. intros r. case_match; [auto with vq_relay|].
  destruct k; [apply ack_submit_follows|apply ack_cancel_follows|apply ack_collect_follows].
Qed.

Lemma want_logs_keeps ev id p j : keeps relay_le (want_logs ev id p j).
Proof.
  apply keeps_owned. intros r. apply follows_write. evolve. retype.
Qed.

Lemma append_logs_jobs ev project id stream start data s :
  r_jobs (append_logs ev project id stream start data s).2 = r_jobs s.
Proof.
  unfold append_logs, bind, lift, relay_find, relay_read, gets, modify, ret, throw, fail.
  repeat case_match; simplify_eq/=; done.
Qed.

Lemma report_keeps ev project views : keeps relay_le (report ev project views).
Proof.
  unfold report. generalize 0. induction views as [|[id v] views IH]; intros n; simpl;
    [apply keeps_ret, _|].
  apply keeps_find; [apply IH|]. intros r. destruct v; try (by apply follows_keeps).
  case_match; [by apply follows_keeps|].
  intros s Hr. unfold bind. set (r' := with_view _ _ _).
  pose proof (relay_le_write evolving ev s r r' Hr) as Hw.
  destruct (relay_write ev r' s) as [[[]|e] s1]; simpl in *.
  - transitivity s1; [|apply IH]. apply Hw. evolve. retype.
  - apply Hw. evolve. retype.
Qed.

Lemma claim_keeps ev project max spool : keeps relay_le (claim ev project max spool).
Proof.
  intros s Hs. pose proof (claim_rounds ev project max spool s Hs) as Hr.
  by apply Hr.
Qed.

Lemma run_call_keeps ev c : keeps relay_le (run_call ev c).
Proof.
  destruct c; simpl; [..|apply keeps_no_items, report_keeps; apply _]; try (apply keeps_no_items; [apply _|]);
    eauto using admit_keeps, claim_keeps, request_results_keeps, request_cancel_keeps, ack_keeps,
      want_logs_keeps;
    intros s; apply relay_le_jobs; [apply push_result_jobs|apply append_logs_jobs].
Qed.

Lemma run_calls_le calls s : relay_le s (run_calls calls s).2.
Proof.
  revert s. induction calls as [|[ev c] calls IH]; intros s; simpl; [reflexivity|].
  pose proof (run_call_keeps ev c s) as Hc. destruct (run_call ev c s) as [out s1]. simpl in Hc.
  specialize (IH s1). destruct (run_calls calls s1) as [items s2]. by transitivity s1.
Qed.

Lemma keyed_empty : keyed empty_relay.
Proof. intros id r. unfold empty_relay. simpl. by rewrite lookup_empty. Qed.

(** ** Histories *)

Lemma relay_calls_evolve calls s id r :
  keyed s → s.(r_jobs) !! id = Some (JobFile r) →
  ∃ r', (run_calls calls s).2.(r_jobs) !! id = Some (JobFile r') ∧ relay_evolves r r'.
Proof.
  intros Hs Hr. destruct (run_calls_le calls s Hs) as [_ Hle]. specialize (Hle id).
  by rewrite Hr in Hle.
Qed.

Lemma reachable_keyed calls : keyed (run_calls calls empty_relay).2.
Proof. apply (run_calls_le calls empty_relay), keyed_empty. Qed.

(** What the relay has recorded of a job is permanent: after any calls by
    any clients and connectors, in any order and with any failed writes, the
    job keeps its identity (owner, key, request, upload); an accepted job
    stays accepted under the same broker job; a settled cancellation and a
    finished collection stay settled; no epoch goes back. *)
Theorem relay_history_permanent calls more id r :
  (run_calls calls empty_relay).2.(r_jobs) !! id = Some (JobFile r) →
  ∃ r', (run_calls more (run_calls calls empty_relay).2).2.(r_jobs) !! id = Some (JobFile r')
        ∧ relay_evolves r r'.
Proof. apply relay_calls_evolve, reachable_keyed. Qed.

(** C32: the fields of a relay record always agree: after any history every
    file holds the record of its own name, and its epochs, lease, broker job,
    cancellation and collection are those of its transfer state (accepted if
    and only if it names a broker job, leased and claimed once at least while
    claimed, never claimed nor cancelled while queued, no cancellation left
    pending when refused or cancelled, collected only after acceptance). *)
Theorem relay_records_typed calls id r :
  (run_calls calls empty_relay).2.(r_jobs) !! id = Some (JobFile r) →
  r.(g_job_id) = id ∧ GW_JOB_RE id = true ∧ record_typed r.
Proof.
  intros Hr. destruct (reachable_keyed calls id r Hr) as [-> Hre]. split_and!; [done..|].
  destruct (run_calls_le calls empty_relay keyed_empty) as [_ Hle]. specialize (Hle id).
  rewrite Hr in Hle. destruct Hle as (r0 & r' & [= <-] & (_ & Ht & He & Hl & Hb & Hc & Hcl) & Hev).
  apply (re_typed _ _ Hev). split; [lia| |by rewrite Hc|by rewrite Hcl].
  unfold transfer_typed. by rewrite Ht.
Qed.

Lemma epoch_at_mono s s' k j : jobs_le s s' → epoch_at s k j <= epoch_at s' k j.
Proof.
  intros Hle. specialize (Hle j). unfold epoch_at, file_by in *.
  destruct (r_jobs s !! j) as [[r|]|].
  - destruct Hle as (r' & -> & He). apply He.
  - by rewrite Hle.
  - destruct (r_jobs s' !! j) as [f|]; [|done]. destruct Hle as (r0 & r' & -> & Hf & He).
    transitivity (rec_epoch k r0); [|apply He]. destruct Hf as (_ & _ & He0 & _ & _ & Hc & Hl).
    destruct k; simpl; [by rewrite He0|by rewrite Hc|by rewrite Hl].
Qed.

Definition tags_between (s s' : relay) (tags : list (item_kind * string * Z)) : Prop :=
  NoDup tags ∧ ∀ k j e, (k, j, e) ∈ tags → epoch_at s k j < e <= epoch_at s' k j.

Lemma run_call_tags ev c s :
  keyed s →
  tags_between s (run_call ev c s).2 (tag <$> handed_out (run_call ev c s).1).
Proof.
  intros Hs.
  assert (Hnil : ∀ A (m : op A), run_call ev c = no_items m →
    tags_between s (run_call ev c s).2 (tag <$> handed_out (run_call ev c s).1)).
  { intros A m ->. unfold no_items, bind, ret. destruct (m s) as [[a|e] s']; simpl;
      (split; [constructor|intros ??? []%elem_of_nil]). }
  destruct c as [|project max spool| | | | | | |]; try by eapply Hnil.
  simpl. pose proof (claim_rounds ev project max spool s Hs) as Hr. unfold post in Hr.
  destruct (claim ev project max spool s) as [[items|e] s']; simpl in *.
  - destruct Hr as (_ & _ & _ & s1 & s2 & c1 & c2 & c3 & Hrun).
    destruct (claim_tags _ _ _ _ _ _ _ _ _ _ _ _ Hrun) as [Hn Ht]. split; [done|].
    intros k j e Hin. destruct (Ht k j e Hin). lia.
  - split; [constructor|intros ??? []%elem_of_nil].
Qed.

Lemma run_calls_tags calls s :
  keyed s → tags_between s (run_calls calls s).2 (tag <$> (run_calls calls s).1).
Proof.
  revert s. induction calls as [|[ev c] calls IH]; intros s Hs; simpl.
  { split; [constructor|intros ??? []%elem_of_nil]. }
  pose proof (run_call_tags ev c s Hs) as [Hn1 Ht1].
  pose proof (run_call_keeps ev c s Hs) as [Hk1 Hle1].
  destruct (run_call ev c s) as [out s1]. simpl in *.
  pose proof (IH s1 Hk1) as [Hn2 Ht2]. pose proof (run_calls_le calls s1 Hk1) as [_ Hle2].
  destruct (run_calls calls s1) as [items s2]. simpl in *. rewrite fmap_app. split.
  - apply NoDup_app. split_and!; [done| |done]. intros [[k j] e] Hin1 Hin2.
    specialize (Ht1 _ _ _ Hin1). specialize (Ht2 _ _ _ Hin2). lia.
  - intros k j e [Hin|Hin]%elem_of_app.
    + specialize (Ht1 _ _ _ Hin). pose proof (epoch_at_mono s1 s2 k j Hle2). lia.
    + specialize (Ht2 _ _ _ Hin). pose proof (epoch_at_mono s s1 k j Hle1). lia.
Qed.

Lemma partition_item_id k j : partition_colon (item_id k j) = (kind_text k, j).
Proof. by destruct k. Qed.

Lemma item_kind_text k : item_kind_of (kind_text k) = Some k.
Proof. by destruct k. Qed.

(** An acknowledgement that does not carry the record's epoch. *)
Lemma ack_wrong_epoch ev project k j e outcome bid why m s :
  keyed s → e ≠ epoch_at s k j ∨ ¬ GW_JOB_RE j →
  ∃ err, ack ev project (item_id k j) e outcome bid why m s = (Err err, s).
Proof.
  intros Hs He. unfold ack. rewrite partition_item_id, item_kind_text. unfold bind, relay_find.
  destruct (GW_JOB_RE j) eqn:Hre; [|by eexists].
  destruct (relay_read_cases j s) as [->|[[err ->]|(r & -> & Hr)]]; [by eexists..|].
  destruct He as [He|He]; [|by destruct He]. unfold epoch_at in He. rewrite Hr in He.
  destruct (String.eqb _ _); [|by eexists]. cbn [negb].
  destruct k; simpl in He.
  - unfold ack_submit. rewrite (proj2 (Z.eqb_neq _ _) He). by eexists.
  - unfold ack_cancel. destruct (g_cancel r); [|by eexists].
    rewrite (proj2 (Z.eqb_neq _ _) He). by eexists.
  - unfold ack_collect. destruct (g_collect r); [|by eexists].
    rewrite (proj2 (Z.eqb_neq _ _) He). by eexists.
Qed.


(** Submission through the relay is idempotent: once a key has been
    admitted, the same submission returns the job it created, whatever
    happened in between, and a different one under that key is refused;
    either way nothing is written. *)
Theorem relay_replay ev principal project key_id scoped_key request upload calls more r :
  (run_calls calls empty_relay).2.(r_jobs) !! gateway_job_id scoped_key = Some (JobFile r) →
  r.(g_principal) = principal → r.(g_project) = project →
  r.(g_request_digest) = request_digest request upload.(u_sha256) →
  let s := (run_calls more (run_calls calls empty_relay).2).2 in
  (∃ r', relay_admit ev principal project key_id scoped_key request upload s = (Ok (r', true), s)
         ∧ relay_evolves r r')
  ∧ ∀ ev' p j k request' upload', (p, j) ≠ (principal, project)
      ∨ request_digest request' upload'.(u_sha256) ≠ request_digest request upload.(u_sha256) →
    ∃ msg, relay_admit ev' p j k scoped_key request' upload' s = (Err (RelayError 409 msg), s).
Proof.
  intros Hr Hp Hj Hd s. pose proof (reachable_keyed calls) as Hk.
  destruct (relay_calls_evolve more _ _ _ Hk Hr) as (r' & Hr' & Hev). fold s in Hr'.
  assert (Hread : relay_read (gateway_job_id scoped_key) s = (Ok (Some r'), s)).
  { unfold relay_read. rewrite Hr', (proj2 (Hk _ _ Hr)). done. }
  pose proof (re_identity _ _ Hev) as Hid. unfold identity, owner in Hid. simplify_eq.
  unfold relay_admit, bind, owner. rewrite Hread.
  assert (g_request_digest r' = g_request_digest r) as E1 by congruence.
  assert (g_principal r' = g_principal r) as E2 by congruence.
  assert (g_project r' = g_project r) as E3 by congruence.
  split.
  - exists r'. split; [|done]. rewrite E1, Hd, String.eqb_refl, bool_decide_eq_true_2 by congruence. done.
  - intros ev' p j k request' upload' Hne.
    destruct (String.eqb_spec (g_request_digest r') (request_digest request' (u_sha256 upload')));
      [|by eexists]. cbn [negb orb].
    rewrite bool_decide_eq_false_2; [by eexists|]. intros Ho. destruct Hne; congruence.
Qed.

(** ** What a claim hands out *)

Definition work_offer (pick : RelayRecord → option (option Z * RelayRecord * work_item))
    (r : option RelayRecord) : list work_item := match r with Some r => item_of pick r | None => [] end.

(** What one round may hand out, over the whole store. *)
Definition offers (pick : RelayRecord → option (option Z * RelayRecord * work_item)) (s : relay)
    : list work_item := mjoin (map (item_of pick) (relay_all s)).

(** Everything due: submissions, then cancellations, then collections, each
    in the order of the job names. *)
Definition due_items (ev : genv) (project : string) (s : relay) : list work_item :=
  offers (pick_submit ev project) s ++ offers (pick_cancel ev project) s
  ++ offers (pick_collect ev project) s.

Lemma offers_names pick s :
  offers pick s = mjoin (map (λ id, work_offer pick (readable s.(r_jobs) id)) (job_names s.(r_jobs))).
Proof.
  unfold offers, relay_all. induction (job_names (r_jobs s)) as [|id l IH]; [done|].
  csimpl. destruct (readable (r_jobs s) id); csimpl; by rewrite IH.
Qed.

Lemma taken_items pick n l :
  mjoin (map (item_of pick) (take n (List.filter (picked pick) l)))
  = take n (mjoin (map (item_of pick) l)).
Proof.
  revert n. induction l as [|r l IH]; intros n; [by destruct n|]. csimpl.
  unfold picked, item_of at 2. destruct (pick r) as [[[m r'] i]|] eqn:E; cbn [is_some app].
  - destruct n as [|n]; [done|]. cbn [take]. csimpl. unfold item_of at 1. rewrite E. cbn [app].
    f_equal. apply IH.
  - apply IH.
Qed.

(** A round changes no other round's offers. *)
Lemma round_offers k pick s s' chosen other :
  round k pick s s' chosen →
  (∀ r n r' i, pick r = Some (n, r', i) → item_of other r' = item_of other r) →
  offers other s' = offers other s.
Proof.
  intros Hr Ho. rewrite !offers_names.
  assert (Hdom : dom s'.(r_jobs) = dom s.(r_jobs)).
  { apply set_eq. intros id. rewrite !elem_of_dom.
    destruct (decide (id ∈ g_job_id <$> chosen)) as [(r & -> & Hin)%list_elem_of_fmap|Hni].
    - destruct (round_chosen _ _ _ _ _ Hr r Hin) as (-> & n & r' & i & _ & ->).
      split; intros _; by eexists.
    - by rewrite (round_other _ _ _ _ _ Hr id Hni). }
  unfold job_names. rewrite Hdom. f_equal. apply map_ext. intros id.
  destruct (decide (id ∈ g_job_id <$> chosen)) as [(r & -> & Hin)%list_elem_of_fmap|Hni].
  - destruct (round_chosen _ _ _ _ _ Hr r Hin) as (E & n & r' & i & Hp & E').
    unfold readable. rewrite E, E'. by eapply Ho.
  - unfold readable. by rewrite (round_other _ _ _ _ _ Hr id Hni).
Qed.

Lemma submit_not_accepted ev project r n r' i :
  pick_submit ev project r = Some (n, r', i) →
  r'.(g_transfer) = TRANSFER_CLAIMED ∧ r.(g_transfer) ≠ TRANSFER_ACCEPTED.
Proof.
  unfold pick_submit, submit_due. case_match eqn:E; [|done]. intros [= <- <- <-]. propify.
  split; [done|]. intros Ha. rewrite Ha in *. done.
Qed.

Lemma no_cancel_item ev project r : r.(g_transfer) ≠ TRANSFER_ACCEPTED → item_of (pick_cancel ev project) r = [].
Proof.
  intros Hr. unfold item_of, pick_cancel, cancel_due. destruct (g_cancel r); [|done].
  rewrite (bool_decide_eq_false_2 _ Hr), orb_true_r. done.
Qed.

Lemma no_collect_item ev project r : r.(g_transfer) ≠ TRANSFER_ACCEPTED → item_of (pick_collect ev project) r = [].
Proof.
  intros Hr. unfold item_of, pick_collect, collect_due. destruct (g_collect r); [|done].
  rewrite (bool_decide_eq_false_2 _ Hr), orb_true_r. done.
Qed.

Lemma submit_round_offers ev project s s' chosen :
  round KSubmit (pick_submit ev project) s s' chosen →
  offers (pick_cancel ev project) s' = offers (pick_cancel ev project) s
  ∧ offers (pick_collect ev project) s' = offers (pick_collect ev project) s.
Proof.
  intros Hr. split; (eapply round_offers; [done|]); intros r n r' i [E Hne]%submit_not_accepted.
  - by rewrite !no_cancel_item by congruence.
  - by rewrite !no_collect_item by congruence.
Qed.

Lemma cancel_round_offers ev project s s' chosen :
  round KCancel (pick_cancel ev project) s s' chosen →
  offers (pick_collect ev project) s' = offers (pick_collect ev project) s.
Proof.
  intros Hr. eapply round_offers; [done|]. intros r n r' i. unfold pick_cancel.
  destruct (cancel_due _ _ _); [|done]. intros [= <- <- <-].
  unfold item_of, pick_collect, collect_due. simpl. destruct (g_collect r); [|done].
  destruct (_ || _); [done|]. by destruct (lease_live _ _).
Qed.

(** A claim that meets no failing write hands out exactly the first
    [max_items] of the items due: every submission not under a live lease and
    not cancelled, then every unleased cancellation and collection of an
    accepted job of the project, in order of the job names. *)
Theorem claim_exact now project max_items s :
  keyed s →
  (claim (quiet_at now) project max_items None s).1
  = Ok (take (Z.to_nat max_items) (due_items (quiet_at now) project s)).
Proof.
  intros Hs. set (ev := quiet_at now).
  pose proof (claim_rounds ev project max_items None s Hs) as Hr. unfold post in Hr.
  destruct (claim ev project max_items None s) as [[items|e] s']; simpl in *;
    [|destruct Hr as (_ & _ & _ & id & Hf); by subst ev].
  destruct Hr as (_ & _ & _ & s1 & s2 & c1 & c2 & c3 & [R1 R2 R3 -> _ _ Hex]). f_equal.
  destruct (Hex eq_refl) as (E1 & E2 & E3).
  pose proof (items_length _ _ _ _ _ (pick_submit_ok _ _) R1) as L1.
  pose proof (items_length _ _ _ _ _ (pick_cancel_ok _ _) R2) as L2.
  destruct (submit_round_offers _ _ _ _ _ R1) as [O2 O3]. pose proof (cancel_round_offers _ _ _ _ _ R2) as O3'.
  assert (I1 : mjoin (map (item_of (pick_submit ev project)) c1)
               = take (Z.to_nat max_items) (offers (pick_submit ev project) s)).
  { rewrite E1. apply taken_items. }
  assert (I2 : mjoin (map (item_of (pick_cancel ev project)) c2)
               = take (Z.to_nat max_items - length c1) (offers (pick_cancel ev project) s)).
  { rewrite E2, taken_items. unfold offers in O2. by rewrite O2. }
  assert (I3 : mjoin (map (item_of (pick_collect ev project)) c3)
               = take (Z.to_nat max_items - length c1 - length c2) (offers (pick_collect ev project) s)).
  { rewrite E3, taken_items. unfold offers in O3, O3'. by rewrite O3', O3. }
  rewrite I1 in L1 |- *. rewrite I2 in L2 |- *. rewrite I3. rewrite length_take in L1, L2.
  unfold due_items. rewrite !take_app. f_equal.
  replace (Z.to_nat max_items - length c1)%nat
    with (Z.to_nat max_items - length (offers (pick_submit ev project) s))%nat by lia.
  f_equal. f_equal. lia.
Qed.

(** The lease a hand-out of kind [k] takes. *)
Definition lease_of (k : item_kind) (r : RelayRecord) : option Z :=
  match k with
  | KSubmit => if decide (r.(g_transfer) = TRANSFER_QUEUED) then None else r.(g_lease_until)
  | KCancel => match r.(g_cancel) with Some c => c.(cn_lease_until) | None => None end
  | KCollect => match r.(g_collect) with Some c => c.(cl_lease_until) | None => None end
  end.

Lemma round_elem k pick s s' chosen i :
  pick_ok k pick → round k pick s s' chosen → i ∈ mjoin (map (item_of pick) chosen) →
  ∃ r n r', r ∈ chosen ∧ pick r = Some (n, r', i) ∧ s.(r_jobs) !! r.(g_job_id) = Some (JobFile r).
Proof.
  intros Hp Hr (l & Hi & (r & -> & Hin)%list_elem_of_fmap)%list_elem_of_join.
  destruct (round_chosen _ _ _ _ _ Hr r Hin) as (Hs & n & r' & i' & E & _).
  unfold item_of in Hi. rewrite E in Hi. apply list_elem_of_singleton in Hi as ->. by exists r, n, r'.
Qed.

Lemma pick_submit_lease ev project r n r' i :
  pick_submit ev project r = Some (n, r', i) →
  r.(g_project) = project ∧ lease_live (lease_of KSubmit r) ev.(e_now) = false.
Proof.
  unfold pick_submit, submit_due. case_match eqn:E; [|done]. intros [= <- <- <-]. simpl.
  rewrite !andb_true_iff, !negb_true_iff, orb_false_iff, !negb_false_iff, String.eqb_eq in E.
  destruct E as [[[Hp _] Hl] _]. split; [done|].
  destruct (decide (g_transfer r = TRANSFER_QUEUED)) as [Hq|Hq]; [done|].
  by rewrite (bool_decide_eq_false_2 _ Hq) in Hl.
Qed.

Lemma pick_cancel_lease ev project r n r' i :
  pick_cancel ev project r = Some (n, r', i) →
  r.(g_project) = project ∧ lease_live (lease_of KCancel r) ev.(e_now) = false.
Proof.
  unfold pick_cancel, cancel_due. simpl. destruct (g_cancel r) as [c|]; [|done].
  repeat case_match; try done. intros [= <- <- <-]. propify. by apply String.eqb_eq in H0.
Qed.

Lemma pick_collect_lease ev project r n r' i :
  pick_collect ev project r = Some (n, r', i) →
  r.(g_project) = project ∧ lease_live (lease_of KCollect r) ev.(e_now) = false.
Proof.
  unfold pick_collect, collect_due. simpl. destruct (g_collect r) as [c|]; [|done].
  repeat case_match; try done. intros [= <- <- <-]. propify. by apply String.eqb_eq in H0.
Qed.

Definition lease_at (s : relay) (k : item_kind) (j : string) : option Z :=
  match s.(r_jobs) !! j with Some (JobFile r) => lease_of k r | _ => None end.

(** A pick takes a fresh lease of its own kind and no other. *)
Definition pick_leases (k : item_kind) (until : Z)
    (pick : RelayRecord → option (option Z * RelayRecord * work_item)) : Prop :=
  ∀ r n r' i, pick r = Some (n, r', i) →
  ∀ k', lease_of k' r' = if decide (k' = k) then Some until else lease_of k' r.

Lemma pick_submit_leases ev project : pick_leases KSubmit (iso (e_now ev + LEASE)) (pick_submit ev project).
Proof.
  intros r n r' i. unfold pick_submit. destruct (submit_due _ _ _); [|done].
  by intros [= <- <- <-] [].
Qed.

Lemma pick_cancel_leases ev project : pick_leases KCancel (iso (e_now ev + LEASE)) (pick_cancel ev project).
Proof.
  intros r n r' i. unfold pick_cancel. destruct (cancel_due _ _ _); [|done].
  by intros [= <- <- <-] [].
Qed.

Lemma pick_collect_leases ev project : pick_leases KCollect (iso (e_now ev + LEASE)) (pick_collect ev project).
Proof.
  intros r n r' i. unfold pick_collect. destruct (collect_due _ _ _); [|done].
  by intros [= <- <- <-] [].
Qed.

Lemma round_lease k until pick s s' chosen :
  round k pick s s' chosen → pick_leases k until pick →
  ∀ k' j, lease_at s' k' j = if decide (k' = k ∧ j ∈ g_job_id <$> chosen) then Some until
                             else lease_at s k' j.
Proof.
  intros Hr Hp k' j. unfold lease_at.
  destruct (decide (j ∈ g_job_id <$> chosen)) as [Hin|Hni].
  - pose proof Hin as (r & -> & Hr0)%list_elem_of_fmap.
    destruct (round_chosen _ _ _ _ _ Hr r Hr0) as (-> & n & r' & i & E & ->).
    rewrite (Hp _ _ _ _ E). destruct (decide (k' = k)); [rewrite decide_True|rewrite decide_False]; naive_solver.
  - rewrite (round_other _ _ _ _ _ Hr j Hni). rewrite decide_False by naive_solver. done.
Qed.

(** The items of a round are of its kind and were not leased before it. *)
Lemma round_unleased k pick s s' chosen i project now :
  pick_ok k pick → round k pick s s' chosen →
  (∀ r n r' i, pick r = Some (n, r', i) → r.(g_project) = project ∧ lease_live (lease_of k r) now = false) →
  i ∈ mjoin (map (item_of pick) chosen) →
  ∃ j e r, tag i = (k, j, e) ∧ j ∈ g_job_id <$> chosen ∧ s.(r_jobs) !! j = Some (JobFile r)
    ∧ r.(g_project) = project ∧ lease_live (lease_at s k j) now = false.
Proof.
  intros Hp Hr Hl Hi. destruct (round_elem _ _ _ _ _ _ Hp Hr Hi) as (r & n & r' & Hin & E & Hs).
  destruct (Hl _ _ _ _ E) as [? ?]. exists (g_job_id r), (rec_epoch k r + 1), r.
  rewrite (pick_tag _ _ Hp _ _ _ _ E). unfold lease_at. rewrite Hs.
  split_and!; try done. by apply list_elem_of_fmap_2.
Qed.

Lemma jobs_le_back s s' j r' :
  jobs_le s s' → s'.(r_jobs) !! j = Some (JobFile r') → is_Some (s.(r_jobs) !! j) →
  ∃ r, s.(r_jobs) !! j = Some (JobFile r) ∧ relay_evolves r r'.
Proof.
  intros Hle Hr' [f Hf]. specialize (Hle j). unfold file_by in Hle. rewrite Hf, Hr' in Hle.
  destruct f as [r|]; [|done]. exists r. split; [done|]. destruct Hle as (? & [= <-] & ?). done.
Qed.

Lemma round_known k pick s s' chosen j r' :
  keyed s → round k pick s s' chosen → s'.(r_jobs) !! j = Some (JobFile r') →
  ∃ r, s.(r_jobs) !! j = Some (JobFile r) ∧ relay_evolves r r'.
Proof.
  intros Hs Hr Hj. destruct (round_le _ _ _ _ _ Hr Hs) as [_ Hle]. apply (jobs_le_back s s'); [done..|].
  destruct (decide (j ∈ g_job_id <$> chosen)) as [(r & -> & Hin)%list_elem_of_fmap|Hni].
  - destruct (round_chosen _ _ _ _ _ Hr r Hin) as (-> & _). by eexists.
  - rewrite <- (round_other _ _ _ _ _ Hr j Hni), Hj. by eexists.
Qed.

Definition asks (i : work_item) (n : option Z) : Prop :=
  item_need i = match n with Some n => n | None => 0 end.

Lemma submit_need ev project r n r' i : pick_submit ev project r = Some (n, r', i) → asks i n.
Proof. unfold pick_submit. destruct (submit_due _ _ _); [|done]. by intros [= <- <- <-]. Qed.

Lemma cancel_need ev project r n r' i : pick_cancel ev project r = Some (n, r', i) → asks i n.
Proof. unfold pick_cancel. destruct (cancel_due _ _ _); [|done]. by intros [= <- <- <-]. Qed.

Lemma collect_need ev project r n r' i : pick_collect ev project r = Some (n, r', i) → asks i n.
Proof. unfold pick_collect. destruct (collect_due _ _ _); [|done]. by intros [= <- <- <-]. Qed.

(** What an item handed out says of the store before and after. *)
Definition leased (now : Z) (project : string) (s s' : relay) (i : work_item) : Prop :=
  ∃ k j e r, tag i = (k, j, e) ∧ s.(r_jobs) !! j = Some (JobFile r) ∧ r.(g_project) = project
    ∧ lease_live (lease_at s k j) now = false
    ∧ lease_at s' k j = Some (iso (now + LEASE)).

(** A claim stays within its limits: at most [max_items] items, whose
    payloads and results fit in the connector's free spool together; each is
    a job of the connector's own project whose lease of that kind has run
    out, and leaves with a new one, so no two hand-outs of an item overlap. *)
Theorem claim_within_limits ev project max_items spool_free s items s' :
  keyed s → claim ev project max_items spool_free s = (Ok items, s') →
  (length items <= Z.to_nat max_items)%nat
  ∧ (∀ free, spool_free = Some free → 0 <= free → sumZ item_need items <= free)
  ∧ Forall (leased ev.(e_now) project s s') items.
Proof.
  intros Hs Hc. pose proof (post_elim _ _ _ _ _ (claim_rounds ev project max_items spool_free s Hs) Hc) as Hr.
  destruct Hr as (_ & _ & _ & s1 & s2 & c1 & c2 & c3 & [R1 R2 R3 -> Hlen Hsp _]).
  assert (Hk0 : keyed (unwithheld project s)) by done.
  pose proof (round_keyed _ _ _ _ _ Hk0 R1) as Hk1. pose proof (round_keyed _ _ _ _ _ Hk1 R2) as Hk2.
  pose proof (round_lease _ _ _ _ _ _ R1 (pick_submit_leases ev project)) as L1.
  pose proof (round_lease _ _ _ _ _ _ R2 (pick_cancel_leases ev project)) as L2.
  pose proof (round_lease _ _ _ _ _ _ R3 (pick_collect_leases ev project)) as L3.
  assert (L0 : ∀ k j, lease_at (unwithheld project s) k j = lease_at s k j) by done.
  split_and!.
  - rewrite !length_app, (items_length _ _ _ _ _ (pick_submit_ok _ _) R1),
      (items_length _ _ _ _ _ (pick_cancel_ok _ _) R2), (items_length _ _ _ _ _ (pick_collect_ok _ _) R3). lia.
  - intros free Hf Hpos. specialize (Hsp free Hf Hpos). rewrite !sumZ_app.
    rewrite (round_needs _ _ (submit_need ev project)), (round_needs _ _ (cancel_need ev project)),
      (round_needs _ _ (collect_need ev project)).
    replace (sumZ (need_of (pick_cancel ev project)) c2) with 0; [lia|].
    clear. induction c2 as [|r l IH]; [done|]. simpl. rewrite <- IH. unfold need_of, pick_cancel.
    by destruct (cancel_due _ _ _).
  - apply Forall_forall. intros i [Hi|[Hi|Hi]%elem_of_app]%elem_of_app.
    + destruct (round_unleased _ _ _ _ _ _ project (e_now ev) (pick_submit_ok _ _) R1
        (pick_submit_lease ev project) Hi) as (j & e & r & Ht & Hin & Hj & Hp & Hl).
      exists KSubmit, j, e, r. rewrite L3, L2, L1.
      by rewrite !decide_False, decide_True by naive_solver.
    + destruct (round_unleased _ _ _ _ _ _ project (e_now ev) (pick_cancel_ok _ _) R2
        (pick_cancel_lease ev project) Hi) as (j & e & r & Ht & Hin & Hj & Hp & Hl).
      destruct (round_known _ _ _ _ _ _ _ Hk0 R1 Hj) as (r0 & Hr0 & Hev).
      pose proof (re_identity _ _ Hev) as Hid. unfold identity, owner in Hid.
      rewrite L1, decide_False, L0 in Hl by naive_solver.
      exists KCancel, j, e, r0. rewrite L3, L2.
      rewrite decide_False, decide_True by naive_solver. split_and!; try done. congruence.
    + destruct (round_unleased _ _ _ _ _ _ project (e_now ev) (pick_collect_ok _ _) R3
        (pick_collect_lease ev project) Hi) as (j & e & r & Ht & Hin & Hj & Hp & Hl).
      destruct (round_known _ _ _ _ _ _ _ Hk1 R2 Hj) as (r1 & Hr1 & Hev1).
      destruct (round_known _ _ _ _ _ _ _ Hk0 R1 Hr1) as (r0 & Hr0 & Hev0).
      pose proof (re_identity _ _ Hev0) as Hid. pose proof (re_identity _ _ Hev1) as Hid1.
      unfold identity, owner in Hid, Hid1.
      rewrite L2, decide_False, L1, decide_False, L0 in Hl by naive_solver.
      exists KCollect, j, e, r0. rewrite L3, decide_True by naive_solver.
      split_and!; try done. congruence.
Qed.
End with_hashing.
