(* ===== verification/RelayResults.v ===== *)
(** * Logs and results the connector pushes

    The buffered output of a job only grows, by exactly the bytes pushed at
    its end, and stays within its cap; a finished collection is published as
    files that are exactly those of its manifest. *)

From S2P Require Import Prelude Spec Json BrokerRecord Relay RelayOps RelayLogic RelayGuarantees.

(** ** What the other operations leave alone *)

Definition rest_same (s s' : relay) : Prop :=
  s'.(r_logs) = s.(r_logs) ∧ s'.(r_results) = s.(r_results).

#[global] Instance rest_same_preorder : PreOrder rest_same.
Proof. split; [done|]. intros a b c [? ?] [? ?]. split; congruence. Qed.

Lemma rest_write ev r : keeps rest_same (relay_write ev r).
Proof. intros s. unfold relay_write. repeat case_match; done. Qed.

Lemma rest_read id : keeps rest_same (relay_read id).
Proof. intros s. unfold relay_read. repeat case_match; done. Qed.

Lemma rest_find id : keeps rest_same (relay_find id).
Proof. unfold relay_find. case_match; [apply rest_read|done]. Qed.

Lemma rest_owned id p j : keeps rest_same (owned id p j).
Proof.
  apply keeps_bind; [apply _|apply rest_read|]. intros [r|]; [|done]. by case_match.
Qed.

(** [rest] follows an operation through its calls. *)
Ltac rest :=
  repeat (first [ apply rest_write | apply rest_read | apply rest_find | apply rest_owned
                | apply keeps_ret, _ | apply keeps_throw, _ | apply keeps_lift, _
                | apply keeps_bind; [apply _| |intros ?] | case_match ]).

Section with_hashing.
Context {H : Hashing} {T : TextForms}.

Lemma rest_report ev project views : keeps rest_same (report ev project views).
Proof.
  unfold report. generalize 0. induction views as [|[id v] views IH]; intros n; simpl; [by rest|].
  apply keeps_bind; [apply _|apply rest_find|]. intros [r|]; [|by destruct v].
  destruct v; try apply IH. case_match; [apply IH|].
  apply keeps_bind; [apply _|apply rest_write|]. intros _. apply IH.
Qed.

Lemma rest_claim ev project max spool s :
  keyed s → rest_same s (claim ev project max spool s).2.
Proof. intros Hs. pose proof (claim_rounds ev project max spool s Hs) as Hr. by split; apply Hr. Qed.

(** ** Logs *)

Definition log_data (s : relay) (path : string * string) : string :=
  match s.(r_logs) !! path with Some (data, _) => data | None => "" end.

Definition logs_bounded (s : relay) : Prop := ∀ path, str_len (log_data s path) <= LOG_BUFFER_CAP.

(** The logs at a later moment extend the earlier ones. *)
Definition logs_le (s s' : relay) : Prop :=
  (∀ path, ∃ more, log_data s' path = log_data s path +:+ more)
  ∧ (logs_bounded s → logs_bounded s').

#[local] Instance logs_le_preorder : PreOrder logs_le.
Proof.
  split.
  - intros s. split; [|done]. intros path. exists "". by rewrite string_app_nil.
  - intros a b c [H1 H2] [H3 H4]. split; [|auto]. intros path.
    destruct (H1 path) as [m1 E1], (H3 path) as [m2 E2]. exists (m1 +:+ m2).
    by rewrite E2, E1, string_app_assoc.
Qed.

Lemma logs_le_same s s' : s'.(r_logs) = s.(r_logs) → logs_le s s'.
Proof.
  intros E. unfold logs_le, logs_bounded, log_data. rewrite E. split; [|done].
  intros path. exists "". by rewrite string_app_nil.
Qed.

Lemma landed_le ev data : 0 <= str_len (landed ev data) <= str_len data.
Proof.
  unfold landed. destruct (e_append_stops ev); [apply str_take_le|]. unfold str_len. lia.
Qed.

Lemma log_size_data s path : log_size s path = str_len (log_data s path).
Proof. unfold log_size, log_data. by destruct (r_logs s !! path) as [[d m]|]. Qed.

(** What an append does, on every path through it. *)
Lemma append_logs_cases ev project id stream start data s out s' :
  append_logs ev project id stream start data s = (out, s') →
  (s' = s ∧ ∃ e, out = Err e)
  ∨ (∃ r, s.(r_jobs) !! id = Some (JobFile r) ∧ r.(g_project) = project
      ∧ r.(g_transfer) = TRANSFER_ACCEPTED ∧ stream ∈ LOG_STREAMS
      ∧ start = str_len (log_data s (id, stream))
      ∧ start + str_len data <= LOG_BUFFER_CAP
      ∧ s' = set_logs s (<[(id, stream) := (log_data s (id, stream) +:+ landed ev data, ev.(e_now))]> s.(r_logs))
      ∧ match ev.(e_append_stops) with
        | None => out = Ok (start + str_len data)
        | Some _ => out = Err FsError
        end).
Proof.
  unfold append_logs, bind, relay_find. destruct (GW_JOB_RE id) eqn:Hre; [|by intros [= <- <-]; left; eauto].
  destruct (relay_read_cases id s) as [->|[[e ->]|(r & -> & Hr)]]; [by intros [= <- <-]; left; eauto..|].
  destruct (String.eqb_spec (g_project r) project) as [Hp|]; [|by intros [= <- <-]; left; eauto].
  case_bool_decide as Ht; [|by intros [= <- <-]; left; eauto]. cbn [negb orb].
  unfold lift, log_path. destruct (mem_str stream LOG_STREAMS) eqn:Hst; [|by intros [= <- <-]; left; eauto].
  rewrite Hre. cbn [negb]. unfold gets. rewrite log_size_data.
  destruct (Z.eqb_spec start (str_len (log_data s (id, stream)))) as [->|]; [|by intros [= <- <-]; left; eauto].
  cbn [negb]. destruct (Z.ltb_spec LOG_BUFFER_CAP (str_len (log_data s (id, stream)) + str_len data));
    [by intros [= <- <-]; left; eauto|]. unfold modify. intros Hout. right. exists r.
  apply mem_str_spec in Hst. split_and!; try done; destruct (e_append_stops ev); by injection Hout as <- <-.
Qed.

Lemma append_logs_le ev project id stream start data s :
  logs_le s (append_logs ev project id stream start data s).2.
Proof.
  destruct (append_logs ev project id stream start data s) as [out s'] eqn:E.
  destruct (append_logs_cases _ _ _ _ _ _ _ _ _ E) as [[-> _]|(r & _ & _ & _ & _ & -> & Hcap & -> & _)];
    [reflexivity|]. simpl. set (path := (id, stream)) in *.
  assert (Hd : ∀ p, log_data (set_logs s (<[path := (log_data s path +:+ landed ev data, e_now ev)]> (r_logs s))) p
            = if decide (p = path) then log_data s path +:+ landed ev data else log_data s p).
  { intros p. unfold log_data at 1. simpl. destruct (decide (p = path)) as [->|Hne].
    - by rewrite lookup_insert_eq.
    - by rewrite lookup_insert_ne. }
  split.
  - intros p. rewrite Hd. destruct (decide (p = path)) as [->|]; [by eexists|].
    exists "". by rewrite string_app_nil.
  - intros Hb p. rewrite Hd. destruct (decide (p = path)) as [->|]; [|apply Hb].
    rewrite str_len_app. pose proof (landed_le ev data). lia.
Qed.

Lemma push_result_logs ev project id path start data s :
  r_logs (push_result ev project id path start data s).2 = r_logs s.
Proof.
  unfold push_result, bind, lift. destruct (safe_parts path) as [parts|]; [|done].
  pose proof (rest_find id s) as Hf. destruct (relay_find id s) as [[record|e] s1]; [|apply Hf].
  destruct (pending_collect _ _) as [c|]; [|apply Hf].
  unfold incoming, set_incoming, bind, gets, put_results, modify, ret, throw, fail.
  destruct Hf as [<- _]. repeat case_match; simplify_eq/=; done.
Qed.

Lemma publish_results_logs ev id m s : r_logs (publish_results ev id m s).2 = r_logs s.
Proof.
  unfold publish_results, bind, lift, gets, put_results, modify, ret, throw, fail.
  repeat case_match; simplify_eq/=; done.
Qed.

Definition logs_same (s s' : relay) : Prop := s'.(r_logs) = s.(r_logs).

#[local] Instance logs_same_preorder : PreOrder logs_same.
Proof. split; [done|]. intros a b c E1 E2. unfold logs_same in *. congruence. Qed.

Lemma keeps_weaken {A} (R R' : relation relay) (m : op A) :
  (∀ s s', R s s' → R' s s') → keeps R m → keeps R' m.
Proof. intros HR Hm s. apply HR, Hm. Qed.

Lemma logs_ack ev project item epoch outcome bid why m :
  keeps logs_same (ack ev project item epoch outcome bid why m).
Proof.
  assert (Hw : ∀ ev r, keeps logs_same (relay_write ev r)).
  { intros ev' r. apply (keeps_weaken rest_same); [|apply rest_write]. by intros s s' [? _]. }
  unfold ack. destruct (partition_colon item) as [kind job].
  destruct (item_kind_of kind) as [k|]; [|done].
  apply keeps_bind; [apply _|apply (keeps_weaken rest_same); [|apply rest_find]; by intros s s' [? _]|].
  intros [r|]; [|done]. case_match; [done|]. destruct k.
  - apply (keeps_weaken rest_same); [|unfold ack_submit, fail; by rest]. by intros s s' [? _].
  - apply (keeps_weaken rest_same); [|unfold ack_cancel, fail; by rest]. by intros s s' [? _].
  - unfold ack_collect. destruct (g_collect r); [|done]. do 3 (case_match; [done|]).
    repeat (apply keeps_bind; [apply _| |intros ?]); [|apply Hw|done].
    case_match; [apply keeps_bind; [apply _| |done]|case_match; [|done]; by intros s].
    intros s. apply publish_results_logs.
Qed.

Lemma keeps_rest_logs {A} (m : op A) : keeps rest_same m → keeps logs_le m.
Proof. intros Hm s. apply logs_le_same, Hm. Qed.

Lemma run_call_logs ev c s : keyed s → logs_le s (run_call ev c s).2.
Proof.
  intros Hs. destruct c; simpl; try (apply (keeps_no_items logs_le); clear s Hs).
  - apply keeps_rest_logs. unfold relay_admit, fail. by rest.
  - apply logs_le_same, rest_claim, Hs.
  - apply keeps_rest_logs. unfold request_results. by rest.
  - intros s. apply logs_le_same, push_result_logs.
  - apply keeps_rest_logs. unfold request_cancel. by rest.
  - intros s. apply logs_le_same, logs_ack.
  - apply keeps_rest_logs. unfold want_logs. by rest.
  - intros s. apply append_logs_le.
  - apply keeps_rest_logs, rest_report.
Qed.

Lemma run_calls_logs calls s : keyed s → logs_le s (run_calls calls s).2.
Proof.
  revert s. induction calls as [|[ev c] calls IH]; intros s Hs; simpl; [reflexivity|].
  pose proof (run_call_logs ev c s Hs) as Hc. pose proof (run_call_keeps ev c s Hs) as [Hk _].
  destruct (run_call ev c s) as [out s1]. specialize (IH s1 Hk).
  destruct (run_calls calls s1) as [items s2]. by transitivity s1.
Qed.

(** A job's buffered output is append-only and bounded: whatever is called
    afterwards, what a client has read stays where it was, and no stream ever
    exceeds 16 MiB. *)
Theorem relay_logs_append_only calls more path :
  let s := (run_calls calls empty_relay).2 in
  let s' := (run_calls more s).2 in
  (∃ tail, log_data s' path = log_data s path +:+ tail)
  ∧ str_len (log_data s' path) <= LOG_BUFFER_CAP.
Proof.
  intros s s'. pose proof (reachable_keyed calls) as Hk. fold s in Hk.
  destruct (run_calls_logs more s Hk) as [Ha Hb]. split; [apply Ha|].
  apply Hb. destruct (run_calls_logs calls empty_relay keyed_empty) as [_ H0]. apply H0.
  intros p. done.
Qed.

(** ** Results *)

(** The published files are those of the manifest, each with its size and
    digest, at a path below the job's directory. *)
Definition inside (parts : list string) : Prop :=
  parts ≠ [] ∧ Forall (λ p, p ≠ "" ∧ p ≠ "." ∧ p ≠ ".." ∧ any_char (Ascii.eqb "/") p = false) parts.

Definition file_of_entry (files : gmap string string) (entry : json) : Prop :=
  ∃ parts size data,
    manifest_entry entry = Ok (join_path parts, (size, sha256_hex data, entry))
    ∧ inside parts ∧ files !! join_path parts = Some data ∧ str_len data = size.

Definition verified (id : string) (d : result_dir) : Prop :=
  ∃ files m, d.(rd_files) = Some files ∧ d.(rd_manifest) = Some m ∧ m.(rm_job_id) = id
    ∧ Forall (file_of_entry files) m.(rm_files)
    ∧ ∀ name, is_Some (files !! name) →
        ∃ entry x, entry ∈ m.(rm_files) ∧ manifest_entry entry = Ok (name, x).

Definition within (budget : Z) (files : gmap string string) : Prop :=
  tree_size files <= Z.max 0 budget.

(** What a collection's state says of the job's results. *)
Definition collect_inv (id : string) (c : option RelayCollect) (d : result_dir) : Prop :=
  match c with
  | None => d.(rd_incoming) = None
  | Some c =>
    match c.(cl_state) with
    | COLLECT_REQUESTED => ∀ t, d.(rd_incoming) = Some t → within c.(cl_byte_budget) t.(in_files)
    | COLLECT_DONE => verified id d ∧ ∀ files, d.(rd_files) = Some files → within c.(cl_byte_budget) files
    | _ => d.(rd_incoming) = None
    end
  end.

Definition results_ok (s : relay) : Prop :=
  keyed s ∧ ∀ id, match s.(r_jobs) !! id with
                  | Some (JobFile r) => collect_inv id r.(g_collect) (results_of s id)
                  | _ => (results_of s id).(rd_incoming) = None
                  end.

(** An operation keeps the results in order. *)
Definition orderly (s s' : relay) : Prop := results_ok s → results_ok s'.

#[local] Instance orderly_preorder : PreOrder orderly.
Proof. split; [by intros s ?|]. intros a b c Hab Hbc Ha. auto. Qed.

(** Two collections the results do not tell apart. *)
Definition alike (c c' : option RelayCollect) : Prop :=
  option_map (λ c, (c.(cl_state), c.(cl_byte_budget))) c'
  = option_map (λ c, (c.(cl_state), c.(cl_byte_budget))) c.

Lemma collect_inv_alike id c c' d : alike c c' → collect_inv id c d → collect_inv id c' d.
Proof.
  unfold alike, collect_inv. destruct c as [c|], c' as [c'|]; simpl; try done.
  intros [= -> ->]. done.
Qed.

(** A store whose files changed only in ways the results do not see. *)
Lemma results_ok_jobs s s' :
  keyed s' → s'.(r_results) = s.(r_results) →
  (∀ id r', s'.(r_jobs) !! id = Some (JobFile r') →
     (∃ r, s.(r_jobs) !! id = Some (JobFile r) ∧ alike r.(g_collect) r'.(g_collect))
     ∨ (s.(r_jobs) !! id = None ∧ r'.(g_collect) = None)) →
  (∀ id, s'.(r_jobs) !! id = Some JobGarbage → s.(r_jobs) !! id = Some JobGarbage) →
  (∀ id, s'.(r_jobs) !! id = None → s.(r_jobs) !! id = None) →
  orderly s s'.
Proof.
  intros Hk Hr Hj Hg Hn [_ Hs]. split; [done|]. intros id. specialize (Hs id).
  assert (results_of s' id = results_of s id) as -> by (unfold results_of; by rewrite Hr).
  destruct (r_jobs s' !! id) as [[r'|]|] eqn:E.
  - destruct (Hj id r' E) as [(r & Er & Ha)|[En Hc]].
    + rewrite Er in Hs. by eapply collect_inv_alike.
    + rewrite En in Hs. by rewrite Hc.
  - by rewrite (Hg id E) in Hs.
  - by rewrite (Hn id E) in Hs.
Qed.

(** A record and its rewriting that the results do not tell apart. *)
Definition alike_records (r r' : RelayRecord) : Prop :=
  r'.(g_job_id) = r.(g_job_id) ∧ alike r.(g_collect) r'.(g_collect).

Lemma orderly_write ev s r r' :
  s.(r_jobs) !! r.(g_job_id) = Some (JobFile r) → alike_records r r' →
  orderly s (relay_write ev r' s).2.
Proof.
  intros Hr [Hid Ha]. unfold relay_write. destruct (negb _); [reflexivity|].
  destruct (e_write_fails _ _); [reflexivity|]. simpl. rewrite Hid. intros Hok.
  assert (Hlook : ∀ id, <[g_job_id r := JobFile r']> (r_jobs s) !! id
     = if decide (id = g_job_id r) then Some (JobFile r') else r_jobs s !! id).
  { intros id. destruct (decide (id = g_job_id r)) as [->|Hne];
      [by rewrite lookup_insert_eq|by rewrite lookup_insert_ne]. }
  revert Hok. intros Hok. apply (results_ok_jobs s); try done; simpl.
  - intros id r0. simpl. rewrite Hlook. case_decide as E; [|apply Hok].
    intros [= <-]. subst id. split; [done|]. by apply (proj1 Hok _ r).
  - intros id r0. rewrite Hlook. case_decide as E; [|by intros Er; left; exists r0].
    intros [= <-]. subst id. left. by exists r.
  - intros id. rewrite Hlook. by case_decide.
  - intros id. rewrite Hlook. by case_decide.
Qed.

(** An operation on a stored record that keeps the results in order. *)
Definition minds {A} (r : RelayRecord) (m : op A) : Prop :=
  ∀ s, s.(r_jobs) !! r.(g_job_id) = Some (JobFile r) → orderly s (m s).2.

Lemma minds_write ev r r' {A} (a : A) :
  alike_records r r' → minds r (do? _ := relay_write ev r' in ret a).
Proof.
  intros Ha s Hr. unfold bind. pose proof (orderly_write ev s r r' Hr Ha) as Hw.
  by destruct (relay_write ev r' s) as [[[]|e] s'].
Qed.

Lemma minds_keeps {A} r (m : op A) : keeps orderly m → minds r m.
Proof. intros Hm s _. apply Hm. Qed.

Lemma minds_fail {A} r n msg : minds (A := A) r (fail n msg).
Proof. intros s _. reflexivity. Qed.

Lemma minds_ret {A} r (a : A) : minds r (ret a).
Proof. intros s _. reflexivity. Qed.

#[local] Hint Resolve minds_fail minds_ret : vq_relay.

Lemma orderly_found {A} gw (k : option RelayRecord → op A) :
  keeps orderly (k None) → (∀ r, minds r (k (Some r))) →
  keeps orderly (do? record := relay_find gw in k record).
Proof.
  intros Hn Hk s Hs. unfold bind, relay_find. destruct (GW_JOB_RE gw); [|by apply Hn].
  destruct (relay_read_cases gw s) as [->|[[e ->]|(r & -> & Hr)]]; [by apply Hn|done|].
  apply Hk; [|done]. by rewrite (proj1 (proj1 Hs _ _ Hr)).
Qed.

Lemma orderly_owned {A} gw p j (k : RelayRecord → op A) :
  (∀ r, minds r (k r)) → keeps orderly (do? record := owned gw p j in k record).
Proof.
  intros Hk s Hs. unfold bind. destruct (owned_cases gw p j s) as [[e ->]|(r & -> & Hr & _)]; [done|].
  apply Hk; [|done]. by rewrite (proj1 (proj1 Hs _ _ Hr)).
Qed.

Lemma admit_orderly ev p j k key req up : keeps orderly (relay_admit ev p j k key req up).
Proof.
  intros s Hok. unfold relay_admit, bind.
  destruct (relay_read_cases (gateway_job_id key) s) as [E|[[e ->]|(r & -> & _)]]; [|done|by case_match].
  rewrite E. set (r := admitted_record _ _ _ _ _ _ _).
  assert (Hn : r_jobs s !! g_job_id r = None).
  { unfold relay_read in E. change (g_job_id r) with (gateway_job_id key).
    destruct (negb _); [done|]. by destruct (r_jobs s !! _) as [[]|]. }
  assert (Hw : results_ok (relay_write ev r s).2); [|by destruct (relay_write ev r s) as [[[]|e] s']].
  pose proof (relay_le_fresh evolving ev s r) as Hle. unfold relay_write in *.
  destruct (negb _); [done|]. destruct (e_write_fails _ _); [done|]. simpl in *.
  revert Hok. intros Hok. eapply results_ok_jobs; [| | | | |exact Hok]; try done; simpl.
  - apply Hle; [done|done|apply Hok].
  - intros id r0. destruct (decide (id = g_job_id r)) as [->|Hne].
    + rewrite lookup_insert_eq. intros [= <-]. right. by split.
    + rewrite lookup_insert_ne by done. intros Er. left. by exists r0.
  - intros id. destruct (decide (id = g_job_id r)) as [->|Hne];
      [by rewrite lookup_insert_eq|by rewrite lookup_insert_ne].
  - intros id. destruct (decide (id = g_job_id r)) as [->|Hne];
      [by rewrite lookup_insert_eq|by rewrite lookup_insert_ne].
Qed.

Lemma round_orderly k pick s s' chosen :
  (∀ r n r' i, pick r = Some (n, r', i) → alike r.(g_collect) r'.(g_collect)) →
  round k pick s s' chosen → orderly s s'.
Proof.
  intros Ha Hr Hok. destruct (round_le _ _ _ _ _ Hr (proj1 Hok)) as [Hk Hle].
  eapply results_ok_jobs; [done|apply Hr| | | |exact Hok].
  - intros id r' Er. left. destruct (decide (id ∈ g_job_id <$> chosen)) as [(r & -> & Hin)%list_elem_of_fmap|Hni].
    + destruct (round_chosen _ _ _ _ _ Hr r Hin) as (Es & n & r0 & i & Hp & Es'). simplify_eq.
      exists r. split; [done|by eapply Ha].
    + rewrite (round_other _ _ _ _ _ Hr id Hni) in Er. by exists r'.
  - intros id E. specialize (Hle id). rewrite E in Hle. unfold file_by in Hle.
    destruct (r_jobs s !! id) as [[r|]|]; [by destruct Hle as (? & ? & _)|done|by destruct Hle as (? & ? & ? & _)].
  - intros id E. specialize (Hle id). rewrite E in Hle. unfold file_by in Hle.
    destruct (r_jobs s !! id) as [[r|]|]; [by destruct Hle as (? & ? & _)|done|done].
Qed.

Lemma claim_orderly ev project max spool : keeps orderly (claim ev project max spool).
Proof.
  intros s Hok. revert Hok. intros Hok. pose proof (proj1 Hok) as Hk. revert Hok.
  apply (claim_by orderly); [|..|done].
  - intros s0. by intros [? ?].
  - intros s0 s' c. apply round_orderly. intros r n r' i. unfold pick_submit.
    destruct (submit_due _ _ _); [|done]. by intros [= <- <- <-].
  - intros s0 s' c. apply round_orderly. intros r n r' i. unfold pick_cancel.
    destruct (cancel_due _ _ _); [|done]. by intros [= <- <- <-].
  - intros s0 s' c. apply round_orderly. intros r n r' i. unfold pick_collect, collect_due.
    destruct (g_collect r) as [cl|] eqn:E; [|done]. repeat case_match; try done.
    by intros [= <- <- <-].
Qed.

(** ** Pushing *)

Lemma tree_size_insert files name data :
  tree_size (<[name := data]> files)
  = tree_size files - str_len (opt_or (files !! name) "") + str_len data.
Proof.
  unfold tree_size.
  assert (Hins : ∀ (m : gmap string string) k v, m !! k = None →
    map_fold (λ _ d total, total + str_len d) 0 (<[k := v]> m)
    = map_fold (λ _ d total, total + str_len d) 0 m + str_len v).
  { intros m k v Hm. rewrite map_fold_insert_L; [done| |done]. intros; lia. }
  destruct (files !! name) as [old|] eqn:E; simpl.
  - rewrite <- (insert_delete_id files name old E) at 2.
    rewrite <- insert_delete_eq. rewrite !Hins by apply lookup_delete_eq. lia.
  - rewrite Hins by done. change (str_len "") with 0. lia.
Qed.

Lemma results_of_put s id d :
  results_of (set_results s (<[id := d]> s.(r_results))) id = d
  ∧ ∀ id', id' ≠ id → results_of (set_results s (<[id := d]> s.(r_results))) id' = results_of s id'.
Proof.
  unfold results_of. simpl. split; [by rewrite lookup_insert_eq|].
  intros id' Hne. by rewrite lookup_insert_ne.
Qed.

(** Replacing a job's results by ones its collection allows. *)
Lemma orderly_results s id d :
  (∀ r, s.(r_jobs) !! id = Some (JobFile r) → collect_inv id r.(g_collect) (results_of s id) →
     collect_inv id r.(g_collect) d) →
  is_Some (readable s.(r_jobs) id) →
  orderly s (set_results s (<[id := d]> s.(r_results))).
Proof.
  intros Hd [r Hr%readable_Some] [Hk Hok]. split; [done|]. intros id'.
  destruct (results_of_put s id d) as [E1 E2]. simpl.
  destruct (decide (id' = id)) as [->|Hne].
  - rewrite E1, Hr. apply Hd; [done|]. specialize (Hok id). by rewrite Hr in Hok.
  - rewrite E2 by done. apply Hok.
Qed.

Definition tree_of (s : relay) (id : string) : incoming_dir :=
  opt_or (results_of s id).(rd_incoming) no_incoming.

Definition with_incoming (s : relay) (id : string) (t : option incoming_dir) : relay :=
  let d := results_of s id in
  set_results s (<[id := {| rd_incoming := t; rd_files := d.(rd_files);
                            rd_manifest := d.(rd_manifest) |}]> s.(r_results)).

Lemma with_incoming_twice s id t t' : with_incoming (with_incoming s id t) id t' = with_incoming s id t'.
Proof.
  unfold with_incoming. destruct (results_of_put s id
    {| rd_incoming := t; rd_files := (results_of s id).(rd_files);
       rd_manifest := (results_of s id).(rd_manifest) |}) as [-> _].
  unfold set_results. simpl. by rewrite insert_insert_eq.
Qed.

Lemma set_incoming_with id t s : set_incoming id t s = (Ok tt, with_incoming s id t).
Proof. done. Qed.

Lemma incoming_with id s : incoming id s = (Ok (tree_of s id), with_incoming s id (Some (tree_of s id))).
Proof. done. Qed.

(** What a push does, on every path through it. *)
Lemma push_result_cases ev project id path start data s out s' :
  push_result ev project id path start data s = (out, s') →
  s' = s
  ∨ ∃ r c t, s.(r_jobs) !! id = Some (JobFile r) ∧ r.(g_project) = project
      ∧ r.(g_collect) = Some c ∧ c.(cl_state) = COLLECT_REQUESTED
      ∧ s' = with_incoming s id (Some t)
      ∧ (t.(in_files) = (tree_of s id).(in_files)
         ∨ ∃ parts, safe_parts path = Ok parts
             ∧ tree_size (tree_of s id).(in_files) + str_len data <= c.(cl_byte_budget)
             ∧ let old := opt_or ((tree_of s id).(in_files) !! join_path parts) "" in
               start = str_len old
               ∧ t.(in_files) = <[join_path parts := old +:+ landed ev data]> (tree_of s id).(in_files)).
Proof.
  unfold push_result, bind at 1, lift. destruct (safe_parts path) as [parts|] eqn:Hsafe;
    [|by intros [= <- <-]; left].
  unfold bind at 1, relay_find. destruct (GW_JOB_RE id); [|by intros [= <- <-]; left].
  destruct (relay_read_cases id s) as [->|[[e ->]|(r & -> & Hr)]]; [by intros [= <- <-]; left..|].
  unfold pending_collect. destruct (g_collect r) as [c|] eqn:Hc; [|by intros [= <- <-]; left].
  destruct (_ || _) eqn:Hg; [by intros [= <- <-]; left|]. rewrite orb_false_iff, !negb_false_iff in Hg.
  destruct Hg as [Hp%String.eqb_eq Hst%bool_decide_eq_true].
  unfold bind at 1. rewrite incoming_with. cbn [fst snd].
  assert (Hsame : ∀ o t, t.(in_files) = (tree_of s id).(in_files) → (o, with_incoming s id (Some t)) = (out, s') →
    s' = s ∨ ∃ r c t, s.(r_jobs) !! id = Some (JobFile r) ∧ r.(g_project) = project
      ∧ r.(g_collect) = Some c ∧ c.(cl_state) = COLLECT_REQUESTED ∧ s' = with_incoming s id (Some t)
      ∧ (t.(in_files) = (tree_of s id).(in_files)
         ∨ ∃ parts', Ok (E := relay_error) parts = Ok parts'
             ∧ tree_size (tree_of s id).(in_files) + str_len data <= c.(cl_byte_budget)
             ∧ let old := opt_or ((tree_of s id).(in_files) !! join_path parts') "" in
               start = str_len old
               ∧ t.(in_files) = <[join_path parts' := old +:+ landed ev data]> (tree_of s id).(in_files))).
  { intros o t Ht [= _ <-]. right. exists r, c, t. split_and!; try done. by left. }
  destruct (Z.ltb_spec (cl_byte_budget c) (tree_size (in_files (tree_of s id)) + str_len data)) as [|Hb].
  { by apply Hsame. }
  destruct (existsb _ _). { by apply Hsame. }
  unfold bind at 1. rewrite set_incoming_with, with_incoming_twice.
  destruct (bool_decide _) eqn:Hdir.
  { destruct (negb _); by apply Hsame. }
  destruct (Z.eqb_spec start (str_len (opt_or (in_files (tree_of s id) !! join_path parts) ""))) as [->|];
    cbn [negb]; [|by apply Hsame].
  unfold bind. rewrite set_incoming_with, with_incoming_twice. intros Hout. right.
  exists r, c. eexists. split_and!; [done..| |right; exists parts; split_and!; try done].
  - destruct (e_append_stops ev); by injection Hout as <- <-.
  - done.
Qed.

Lemma push_result_orderly ev project id path start data :
  keeps orderly (push_result ev project id path start data).
Proof.
  intros s. destruct (push_result ev project id path start data s) as [out s'] eqn:E.
  apply push_result_cases in E as [->|(r & c & t & Hr & _ & Hc & Hst & -> & Ht)]; [reflexivity|].
  apply orderly_results; [|by exists r; apply readable_Some]. intros r0 Hr0. simplify_eq.
  unfold collect_inv. rewrite Hc, Hst. simpl.
  intros Hold t' [= <-]. assert (within (cl_byte_budget c) (in_files (tree_of s id))) as Hw.
  { unfold tree_of. destruct (rd_incoming (results_of s id)) as [t0|] eqn:Et; [by apply Hold|].
    unfold within, tree_size. simpl. rewrite map_fold_empty. lia. }
  destruct Ht as [->|(parts & _ & Hb & Hlen & ->)]; [done|]. unfold within in *.
  rewrite tree_size_insert, str_len_app. pose proof (landed_le ev data). lia.
Qed.

(** ** Publishing *)

Lemma any_char_app p a b : any_char p (a +:+ b) = any_char p a || any_char p b.
Proof.
  induction a as [|c a IH]; [done|].
  change (p c || any_char p (a +:+ b) = (p c || any_char p a) || any_char p b).
  by rewrite IH, orb_assoc.
Qed.

Lemma split_slash_clean acc s :
  any_char (Ascii.eqb "/") acc = false →
  Forall (λ p, any_char (Ascii.eqb "/") p = false) (split_slash_from acc s).
Proof.
  revert acc. induction s as [|c s IH]; intros acc Ha; cbn [split_slash_from]; [by constructor|].
  destruct (Ascii.eqb c "/") eqn:E.
  - constructor; [done|by apply IH].
  - apply IH. rewrite any_char_app, Ha. change (Ascii.eqb "/" c || false = false).
    by rewrite Ascii.eqb_sym, E.
Qed.

Lemma safe_parts_inside path parts : safe_parts path = Ok parts → inside parts.
Proof.
  unfold safe_parts. destruct (_ || _) eqn:Hg; [done|]. intros [= <-].
  rewrite !orb_false_iff in Hg. destruct Hg as [[[Hne%bool_decide_eq_false _] Hdd] _].
  split; [done|]. apply Forall_forall. intros p Hp. pose proof Hp as Hp'.
  unfold pure_parts in Hp. apply list_elem_of_filter in Hp as [[He Hd] Hin]. split_and!; try done.
  - intros ->. apply mem_str_spec in Hp'. unfold pure_parts in *. congruence.
  - pose proof (split_slash_clean "" path eq_refl) as Hc. rewrite Forall_forall in Hc. by apply Hc.
Qed.

Lemma manifest_entry_ok entry name size sha e :
  manifest_entry entry = Ok (name, (size, sha, e)) →
  e = entry ∧ ∃ parts, name = join_path parts ∧ inside parts.
Proof.
  unfold manifest_entry. repeat case_match; try done; intros; simplify_eq.
  split; [done|]. eexists. split; [done|]. by eapply safe_parts_inside.
Qed.

Definition listed (x : string * (Z * string * json)) : Prop :=
  manifest_entry x.2.2 = Ok x.

Lemma assoc_set_Forall {A} (P : string * A → Prop) k v l :
  P (k, v) → Forall P l → Forall P (assoc_set k v l).
Proof.
  intros Hv. induction 1 as [|[k' v'] l Hp Hl IH]; simpl; [by repeat constructor|].
  destruct (String.eqb_spec k k') as [->|]; by constructor.
Qed.

Lemma expected_files_listed entries expected out :
  Forall listed expected → expected_files entries expected = Ok out → Forall listed out.
Proof.
  revert expected. induction entries as [|e entries IH]; intros expected Hl; cbn [expected_files].
  { by intros [= <-]. }
  destruct (manifest_entry e) as [[name [[size sha] e']]|] eqn:E; [|done]. apply IH.
  apply assoc_set_Forall; [|done]. destruct (manifest_entry_ok _ _ _ _ _ E) as [-> _]. exact E.
Qed.

Lemma within_empty b : within b ∅.
Proof. unfold within, tree_size. rewrite map_fold_empty. lia. Qed.

(** What publishing leaves behind, on every path through it. *)
Lemma publish_results_cases ev id manifest s out s' :
  publish_results ev id manifest s = (out, s') →
  (s' = s ∧ ∃ e, out = Err e)
  ∨ (∃ d, s' = set_results s (<[id := d]> s.(r_results)) ∧ d.(rd_incoming) = None
      ∧ (out = Ok tt → verified id d
           ∧ ∃ files, d.(rd_files) = Some files ∧ files = (tree_of s id).(in_files))).
Proof.
  unfold publish_results. destruct manifest as [| | | | | |m]; try by intros [= <- <-]; left; eauto.
  destruct (assoc "files" m) as [[| | | | |entries|]|]; try by intros [= <- <-]; left; eauto.
  unfold bind at 1, lift. destruct (expected_files entries []) as [expected|] eqn:He;
    [|by intros [= <- <-]; left; eauto].
  apply expected_files_listed in He; [|constructor].
  unfold bind at 1, gets. set (d0 := results_of s id).
  assert (Hpres : match d0.(rd_incoming) with Some t => t.(in_files) | None => ∅ end = in_files (tree_of s id)).
  { unfold tree_of. fold d0. by destruct (rd_incoming d0). }
  rewrite Hpres. set (present := in_files (tree_of s id)).
  destruct (same_names present expected) eqn:Hn; cbn [negb]; [|by intros [= <- <-]; left; eauto].
  destruct (forallb _ _) eqn:Hm; cbn [negb]; [|by intros [= <- <-]; left; eauto].
  unfold bind, put_results, modify.
  destruct (skipped_names _) as [skipped|e]; [|by intros [= <- <-]; right; eexists].
  destruct (e_write_fails _ _); [by intros [= <- <-]; right; eexists|].
  intros [= <- <-]. right. eexists. split.
  { unfold set_results. simpl. by rewrite insert_insert_eq. }
  split; [done|]. intros _. split; [|by eexists].
  apply bool_decide_eq_true in Hn. rewrite forallb_forall in Hm. rewrite Forall_forall in He.
  eexists present, _. split_and!; try done; simpl.
  - apply Forall_map, Forall_forall. intros [name [[size sha] e]] Hin. simpl.
    specialize (Hm _ ltac:(by apply list_elem_of_In)). unfold file_matches in Hm. simpl in Hm.
    specialize (He _ Hin). unfold listed in He. simpl in He.
    destruct (manifest_entry_ok _ _ _ _ _ He) as (_ & parts & -> & Hins).
    destruct (present !! join_path parts) as [data|] eqn:Ep; [|done].
    rewrite negb_true_iff, orb_false_iff, !negb_false_iff in Hm.
    destruct Hm as [Hs%Z.eqb_eq Hh%String.eqb_eq]. subst sha size.
    exists parts, (str_len data), data. done.
  - intros name [data Hd]. assert (name ∈ dom present) as Hin by (apply elem_of_dom; by eexists).
    rewrite Hn in Hin. apply elem_of_list_to_set, list_elem_of_fmap in Hin as (x & -> & Hx).
    exists x.2.2, x.2. split; [by apply (list_elem_of_fmap_2 (λ e, e.2.2))|].
    specialize (He _ Hx). unfold listed in He. rewrite He. by destruct x.
Qed.

(** Settling the collection of a stored record. *)
Lemma orderly_settle ev s r c st d :
  r.(g_collect) = Some c → s.(r_jobs) !! r.(g_job_id) = Some (JobFile r) → results_ok s →
  let r' := with_requests r r.(g_cancel) (Some (settled_collect c st d)) r.(g_logs_wanted_until)
              (iso (e_now ev)) in
  collect_inv r.(g_job_id) (Some (settled_collect c st d)) (results_of s r.(g_job_id)) →
  results_ok (relay_write ev r' s).2.
Proof.
  intros Hc Hr [Hk Hok] r' Hinv. unfold relay_write. destruct (negb _); [done|].
  destruct (e_write_fails _ _); [done|]. simpl. split.
  - intros id r0. simpl. destruct (decide (id = g_job_id r)) as [->|Hne].
    + rewrite lookup_insert_eq. intros [= <-]. split; [done|]. by apply (Hk _ r).
    + rewrite lookup_insert_ne by done. apply Hk.
  - intros id. simpl. destruct (decide (id = g_job_id r)) as [->|Hne].
    + by rewrite lookup_insert_eq.
    + rewrite lookup_insert_ne by done. apply Hok.
Qed.

Lemma bind_write_state ev r' {A} (a : A) s :
  (bind (relay_write ev r') (λ _, ret a) s).2 = (relay_write ev r' s).2.
Proof. unfold bind. by destruct (relay_write ev r' s) as [[[]|e] s']. Qed.

Lemma ack_collect_minds ev r epoch outcome m why : minds r (ack_collect ev r epoch outcome m why).
Proof.
  unfold ack_collect. destruct (g_collect r) as [c|] eqn:Hc; [|auto with vq_relay].
  destruct (Z.eqb_spec epoch (cl_epoch c)) as [->|]; cbn [negb]; [|auto with vq_relay].
  case_bool_decide as Hd; [auto with vq_relay|].
  case_bool_decide as Hq; cbn [negb]; [|auto with vq_relay].
  intros s Hr Hok. set (id := g_job_id r) in *.
  pose proof (proj2 Hok id) as Hinv. rewrite Hr, Hc in Hinv. unfold collect_inv in Hinv. rewrite Hq in Hinv.
  assert (Hnone : ∀ d, d.(rd_incoming) = None → results_ok (set_results s (<[id := d]> s.(r_results)))).
  { intros d Hd0. revert Hok. apply orderly_results; [|by exists r; apply readable_Some].
    intros r0 Hr0. rewrite Hr in Hr0. injection Hr0 as <-. intros _. unfold collect_inv.
    rewrite Hc, Hq. intros t. by rewrite Hd0. }
  destruct (String.eqb outcome "collected").
  - unfold bind at 1 2. destruct (publish_results ev id m s) as [out s1] eqn:Ep.
    apply publish_results_cases in Ep as [[-> [e ->]]|(d & -> & Hdn & Hv)]; [done|].
    destruct out as [[]|e]; [|by apply Hnone]. cbn [ret]. rewrite bind_write_state.
    destruct (Hv eq_refl) as [Hver (files & Hf & Hfiles)].
    apply orderly_settle; [done|done|by apply Hnone|]. fold id.
    rewrite (proj1 (results_of_put s id d)). split; [done|]. intros f Hf'. rewrite Hf in Hf'.
    injection Hf' as <-. rewrite Hfiles. unfold tree_of. destruct (rd_incoming (results_of s id)) as [t|]; [by apply Hinv|].
    apply within_empty.
  - destruct (collect_of_outcome outcome) as [st|] eqn:Ho; [|done].
    unfold bind at 1 2. rewrite set_incoming_with. cbn [ret]. rewrite bind_write_state.
    apply orderly_settle; [done|done|by apply Hnone|].
    assert (rd_incoming (results_of (with_incoming s id None) id) = None) as Hi.
    { unfold with_incoming. by rewrite (proj1 (results_of_put s id _)). }
    unfold collect_of_outcome in Ho. unfold collect_inv. simpl. repeat case_match; by simplify_eq.
Qed.

Lemma ack_orderly ev project item epoch outcome bid why m :
  keeps orderly (ack ev project item epoch outcome bid why m).
Proof.
  unfold ack. destruct (partition_colon item) as [kind job].
  destruct (item_kind_of kind) as [k|]; [|by intros s].
  apply orderly_found; [by intros s|]. intros r. case_match; [auto with vq_relay|].
  destruct k; [| |apply ack_collect_minds].
  - unfold ack_submit. case_match; [auto with vq_relay|].
    case_match; [case_match; auto with vq_relay|].
    assert (Hw : ∀ r', alike_records r r' →
      minds r (do? record := ret r' in do? _ := relay_write ev record in ret record)).
    { intros r' Ha. by apply minds_write. }
    repeat case_match; try (by apply Hw); intros s _; by intros ?.
  - unfold ack_cancel. destruct (g_cancel r); [|auto with vq_relay].
    case_match; [auto with vq_relay|]. destruct (cancel_of_outcome outcome); [|auto with vq_relay].
    case_match; [case_match; auto with vq_relay|]. by apply minds_write.
Qed.

Lemma request_results_orderly ev id p j b : keeps orderly (request_results ev id p j b).
Proof.
  apply orderly_owned. intros r. case_match eqn:Hg; [|auto with vq_relay].
  intros s Hr Hok. rewrite bind_write_state. apply andb_true_iff in Hg as [_ Hg].
  pose proof (proj2 Hok (g_job_id r)) as Hinv. rewrite Hr in Hinv.
  assert (Hin : rd_incoming (results_of s (g_job_id r)) = None).
  { unfold collect_inv in Hinv. destruct (g_collect r) as [c|]; [|done].
    rewrite orb_true_iff, !bool_decide_eq_true in Hg. destruct Hg as [Hg|Hg]; by rewrite Hg in Hinv. }
  unfold relay_write. destruct (negb _); [done|]. destruct (e_write_fails _ _); [done|]. simpl. split.
  - intros id0 r0. simpl. destruct (decide (id0 = g_job_id r)) as [->|Hne].
    + rewrite lookup_insert_eq. intros [= <-]. split; [done|]. by apply (proj1 Hok _ r).
    + rewrite lookup_insert_ne by done. apply Hok.
  - intros id0. simpl. destruct (decide (id0 = g_job_id r)) as [->|Hne].
    + rewrite lookup_insert_eq. simpl. intros t Ht. change (results_of _ (g_job_id r)) with
        (results_of s (g_job_id r)) in Ht. congruence.
    + rewrite lookup_insert_ne by done. apply Hok.
Qed.

Lemma report_orderly ev project views : keeps orderly (report ev project views).
Proof.
  unfold report. generalize 0. induction views as [|[id v] views IH]; intros n; simpl; [by intros s|].
  apply orderly_found; [apply IH|]. intros r. destruct v; try (by apply minds_keeps).
  case_match; [by apply minds_keeps|]. intros s Hr. unfold bind. set (r' := with_view _ _ _).
  pose proof (orderly_write ev s r r' Hr) as Hw.
  destruct (relay_write ev r' s) as [[[]|e] s1]; simpl in *; [|by apply Hw].
  transitivity s1; [by apply Hw|apply IH].
Qed.

Lemma run_call_orderly ev c : keeps orderly (run_call ev c).
Proof.
  destruct c; simpl; try (apply (keeps_no_items orderly)).
  - apply admit_orderly.
  - apply claim_orderly.
  - apply request_results_orderly.
  - apply push_result_orderly.
  - apply orderly_owned. intros r. case_match; [auto with vq_relay|].
    destruct (g_cancel r); [auto with vq_relay|]. apply minds_write. by case_match.
  - apply ack_orderly.
  - apply orderly_owned. intros r. by apply minds_write.
  - intros s [Hk Hok]. destruct (append_logs _ _ _ _ _ _ s) as [out s'] eqn:E.
    destruct (append_logs_cases _ _ _ _ _ _ _ _ _ E) as [[-> _]|(r & _ & _ & _ & _ & _ & _ & -> & _)]; done.
  - apply report_orderly.
Qed.

Lemma run_calls_orderly calls s : orderly s (run_calls calls s).2.
Proof.
  revert s. induction calls as [|[ev c] calls IH]; intros s; simpl; [reflexivity|].
  pose proof (run_call_orderly ev c s) as Hc. destruct (run_call ev c s) as [out s1]. simpl in Hc.
  specialize (IH s1). destruct (run_calls calls s1) as [items s2]. by transitivity s1.
Qed.

Lemma results_ok_empty : results_ok empty_relay.
Proof. split; [apply keyed_empty|]. intros id. simpl. by rewrite lookup_empty. Qed.

(** C23: a collection reported as done is what the connector declared: after
    any history the published files are exactly the files of the manifest,
    each with the declared size and SHA-256 digest and at a path inside the
    job's directory, and together they fit the byte budget that was granted;
    until then a job's pushed bytes never exceed that budget. *)
Theorem collected_results_verified calls id r c :
  let s := (run_calls calls empty_relay).2 in
  s.(r_jobs) !! id = Some (JobFile r) → r.(g_collect) = Some c →
  (c.(cl_state) = COLLECT_DONE →
     verified id (results_of s id)
     ∧ ∀ files, (results_of s id).(rd_files) = Some files → within c.(cl_byte_budget) files)
  ∧ (c.(cl_state) = COLLECT_REQUESTED →
     ∀ t, (results_of s id).(rd_incoming) = Some t → within c.(cl_byte_budget) t.(in_files)).
Proof.
  intros s Hr Hc. destruct (run_calls_orderly calls empty_relay results_ok_empty) as [_ Hok].
  specialize (Hok id). fold s in Hok. rewrite Hr, Hc in Hok. unfold collect_inv in Hok.
  split; intros Hst; by rewrite Hst in Hok.
Qed.
End with_hashing.
