(* ===== verification/GatewayKeys.v ===== *)
(** * Gateway credentials: [src/vq/gateway/keys.py] and [ConnectorStore]

    API keys of clients ([KeyStore]) and the enrollment tokens and rotating
    keys of connectors ([ConnectorStore] of [src/vq/gateway/relay.py]).  Both
    stores keep keyed digests only; every operation runs under the store's
    lock and writes its file once, after its checks, so a refusal changes
    nothing but the pepper it may have drawn.  Each operation reads the clock
    at one moment. *)

From S2P Require Import Prelude Spec BrokerRecord Relay.

(** ** Shared pieces *)

(** [hmac.new(pepper, secret, sha256).hexdigest()] *)
Class Keyed_hash : Type := { hmac_hex : string → string → string }.

Inductive key_error : Type :=
| GatewayKeyError | GatewayAuthError (message : string) | OutOfDraws.

(** What an operation draws: ids ([secrets.token_hex(8)], one per try), a
    secret ([secrets.token_urlsafe(32)]) and the bytes of a new pepper. *)
Record draws : Type := MkDraws { d_ids : list string; d_secret : string; d_pepper : string }.

Definition urlsafe (c : ascii) : bool := is_alnum c || Ascii.eqb c "_" || Ascii.eqb c "-".

(** [re.fullmatch(prefix + "([0-9a-f]{16})_([A-Za-z0-9_-]{43})", s)] *)
Definition match_credential (prefix s : string) : option (string * string) :=
  let n := String.length prefix in
  let id := String.substring n 16 s in
  let secret := String.substring (n + 17) (String.length s) s in
  if startswith s prefix && fullmatch_class is_lower_hex 16 16 id
     && String.eqb (String.substring (n + 16) 1 s) "_" && fullmatch_class urlsafe 43 43 secret
  then Some (id, secret) else None.

Definition credential (prefix id secret : string) : string := prefix +:+ id +:+ "_" +:+ secret.

(** ** API keys *)

Record GatewayKey : Type := MkKey {
  k_principal : string;
  k_project : string;
  k_scopes : list string;
  k_digest : string;
  k_created_at : Z;
  k_expires_at : option Z;
  k_revoked_at : option Z;
  k_last_used_at : option Z;
}.

Record key_store : Type := MkKeyStore {
  ks_pepper : option string;
  ks_keys : gmap string GatewayKey;
}.

Abbreviation kop A := (eff key_store key_error A).

Definition GATEWAY_SCOPES : list string := ["submit"; "read"; "cancel"; "download"].
Definition LAST_USED_GRANULARITY : Z := 60 * MICROS.
Definition DAY : Z := 86400 * MICROS.

(** ["[A-Za-z0-9][A-Za-z0-9._@-]{0,127}"] *)
Definition PRINCIPAL_RE (s : string) : bool :=
  match s with
  | EmptyString => false
  | String c rest =>
    is_alnum c && fullmatch_class (λ c, is_alnum c || Ascii.eqb c "." || Ascii.eqb c "_"
                                        || Ascii.eqb c "@" || Ascii.eqb c "-") 0 127 rest
  end.

(** [tuple(dict.fromkeys(scopes))] *)
Fixpoint from_keys (seen : list string) (l : list string) : list string :=
  match l with
  | [] => []
  | x :: l => if mem_str x seen then from_keys seen l else x :: from_keys (x :: seen) l
  end.

(** [_pepper]: a file of 32 bytes, drawn on first use when [create]. *)
Definition key_pepper (d : draws) (create : bool) : kop string := λ s,
  match s.(ks_pepper) with
  | Some p => if str_len p =? 32 then (Ok p, s) else (Err GatewayKeyError, s)
  | None => if create
            then (if str_len d.(d_pepper) =? 32 then Ok d.(d_pepper) else Err GatewayKeyError,
                  {| ks_pepper := Some d.(d_pepper); ks_keys := s.(ks_keys) |})
            else (Err (GatewayAuthError "gateway has no keys"), s)
  end.

Definition save_key (id : string) (k : GatewayKey) : kop unit := λ s,
  (Ok tt, {| ks_pepper := s.(ks_pepper); ks_keys := <[id := k]> s.(ks_keys) |}).

(** The draws until one is not taken. *)
Fixpoint unused (ids : list string) (taken : gmap string GatewayKey) : res key_error string :=
  match ids with
  | [] => Err OutOfDraws
  | id :: ids => if is_some (taken !! id) then unused ids taken else Ok id
  end.

Definition set_revoked (k : GatewayKey) (at_ : option Z) : GatewayKey :=
  {| k_principal := k.(k_principal); k_project := k.(k_project); k_scopes := k.(k_scopes);
     k_digest := k.(k_digest); k_created_at := k.(k_created_at); k_expires_at := k.(k_expires_at);
     k_revoked_at := at_; k_last_used_at := k.(k_last_used_at) |}.

Definition set_last_used (k : GatewayKey) (at_ : Z) : GatewayKey :=
  {| k_principal := k.(k_principal); k_project := k.(k_project); k_scopes := k.(k_scopes);
     k_digest := k.(k_digest); k_created_at := k.(k_created_at); k_expires_at := k.(k_expires_at);
     k_revoked_at := k.(k_revoked_at); k_last_used_at := Some at_ |}.

Section keyed.
Context {K : Keyed_hash}.

(** [create]: the id, the stored key and the plaintext. *)
Definition create_key (now : Z) (d : draws) (principal project : string) (scopes : list string)
    (expires_days : option Z) (projects : list string) : kop (string * GatewayKey * string) :=
  if negb (PRINCIPAL_RE principal) then throw GatewayKeyError
  else if negb (mem_str project projects) then throw GatewayKeyError
  else
    let chosen := from_keys [] scopes in
    if bool_decide (chosen = []) || existsb (λ scope, negb (mem_str scope GATEWAY_SCOPES)) chosen
    then throw GatewayKeyError
    else if match expires_days with Some n => negb ((1 <=? n) && (n <=? 3650)) | None => false end
    then throw GatewayKeyError
    else
      do? pepper := key_pepper d true in
      do? key_id := (λ s, (unused d.(d_ids) s.(ks_keys), s)) in
      let k := {| k_principal := principal; k_project := project; k_scopes := chosen;
                  k_digest := hmac_hex pepper d.(d_secret); k_created_at := iso now;
                  k_expires_at := (λ n, iso (now + n * DAY)) <$> expires_days;
                  k_revoked_at := None; k_last_used_at := None |} in
      do? _ := save_key key_id k in
      ret (key_id, k, credential "vqk_" key_id d.(d_secret)).

Definition revoke_key (now : Z) (key_id : string) : kop GatewayKey := λ s,
  match s.(ks_keys) !! key_id with
  | None => (Err GatewayKeyError, s)
  | Some raw =>
    match raw.(k_revoked_at) with
    | Some _ => (Ok raw, s)
    | None => let raw := set_revoked raw (Some (iso now)) in
              (do? _ := save_key key_id raw in ret raw) s
    end
  end.

(** The days [rotate] asks for: [max(1, remaining.days)]. *)
Definition rotated_days (now : Z) (old : GatewayKey) : option Z :=
  (λ expires, Z.max 1 ((expires - now) / DAY)) <$> old.(k_expires_at).

(** [rotate], when nothing intervenes between its three locked parts. *)
Definition rotate_key (now : Z) (d : draws) (key_id : string) (projects : list string)
    : kop (string * GatewayKey * string) :=
  do? old := (λ s, (Ok (s.(ks_keys) !! key_id), s)) in
  match old with
  | None => throw GatewayKeyError
  | Some old =>
    match old.(k_revoked_at) with
    | Some _ => throw GatewayKeyError
    | None =>
      do? new := create_key now d old.(k_principal) old.(k_project) old.(k_scopes)
                   (rotated_days now old) projects in
      do? _ := revoke_key now key_id in
      ret new
    end
  end.

Definition authenticate_key (now : Z) (d : draws) (presented : string) (projects : list string)
    : kop (string * GatewayKey) :=
  match match_credential "vqk_" presented with
  | None => throw (GatewayAuthError "invalid gateway API key")
  | Some (key_id, secret) =>
    do? pepper := key_pepper d false in
    do? raw := (λ s, (Ok (s.(ks_keys) !! key_id), s)) in
    match raw with
    | None => throw (GatewayAuthError "invalid gateway API key")
    | Some raw =>
      if negb (String.eqb (hmac_hex pepper secret) raw.(k_digest))
      then throw (GatewayAuthError "invalid gateway API key")
      else if is_some raw.(k_revoked_at) then throw (GatewayAuthError "gateway API key is revoked")
      else if match raw.(k_expires_at) with Some until => until <=? now | None => false end
      then throw (GatewayAuthError "gateway API key has expired")
      else if negb (mem_str raw.(k_project) projects)
      then throw (GatewayAuthError "gateway API key's project is no longer configured")
      else if match raw.(k_last_used_at) with
              | None => true
              | Some last => LAST_USED_GRANULARITY <=? now - last
              end
      then let raw := set_last_used raw (iso now) in
           do? _ := save_key key_id raw in ret (key_id, raw)
      else ret (key_id, raw)
    end
  end.
End keyed.

(** ** Connectors *)

Definition ENROLL_TTL : Z := 600 * MICROS.
Definition ROTATION_OVERLAP : Z := 600 * MICROS.

Record enrollment : Type := MkEnrollment {
  n_project : string; n_digest : string; n_expires_at : Z; n_used_at : option Z;
}.

Record connector : Type := MkConnector {
  t_project : string;
  t_digest : string;
  t_previous : option (string * Z);
  t_created_at : Z;
  t_revoked_at : option Z;
  t_last_seen_at : option Z;
}.

Record connector_store : Type := MkConnectorStore {
  cs_pepper : option string;
  cs_connectors : gmap string connector;
  cs_enrollments : gmap string enrollment;
}.

Abbreviation cop A := (eff connector_store relay_error A).

Definition connector_pepper (d : draws) : cop string := λ s,
  match s.(cs_pepper) with
  | Some p => (Ok p, s)
  | None => (Ok d.(d_pepper), {| cs_pepper := Some d.(d_pepper); cs_connectors := s.(cs_connectors);
                                 cs_enrollments := s.(cs_enrollments) |})
  end.

Definition put_connector (id : string) (c : connector) : cop unit := λ s,
  (Ok tt, {| cs_pepper := s.(cs_pepper); cs_connectors := <[id := c]> s.(cs_connectors);
             cs_enrollments := s.(cs_enrollments) |}).

Definition put_enrollment (id : string) (n : enrollment) : cop unit := λ s,
  (Ok tt, {| cs_pepper := s.(cs_pepper); cs_connectors := s.(cs_connectors);
             cs_enrollments := <[id := n]> s.(cs_enrollments) |}).

(** An unrevoked connector of the project. *)
Definition serves (project : string) (c : connector) : bool :=
  String.eqb c.(t_project) project && negb (is_some c.(t_revoked_at)).

(** [_active_for]: the first in the file's (sorted) order. *)
Definition active_for (s : connector_store) (project : string) : option string :=
  head (List.filter (λ id, match s.(cs_connectors) !! id with
                           | Some c => serves project c
                           | None => false
                           end) (sort_by String.leb (elements (dom s.(cs_connectors))))).

Section keyed_connectors.
Context {K : Keyed_hash}.

Definition create_enrollment (now : Z) (d : draws) (project : string) (projects : list string)
    : cop string :=
  if negb (mem_str project projects) then throw (RelayError 400 "project is not configured")
  else
    do? pepper := connector_pepper d in
    do? active := (λ s, (Ok (active_for s project), s)) in
    if is_some active then throw (RelayError 409 "project already has a connector")
    else
      let token_id := opt_or (head d.(d_ids)) "" in
      do? _ := put_enrollment token_id
        {| n_project := project; n_digest := hmac_hex pepper d.(d_secret);
           n_expires_at := iso (now + ENROLL_TTL); n_used_at := None |} in
      ret (credential "vqe_" token_id d.(d_secret)).

(** [enroll]: the connector id, its project and key. *)
Definition enroll (now : Z) (d : draws) (token : string) : cop (string * string * string) :=
  match match_credential "vqe_" token with
  | None => throw (RelayError 401 "invalid enrollment token")
  | Some (token_id, secret) =>
    do? pepper := connector_pepper d in
    do? record := (λ s, (Ok (s.(cs_enrollments) !! token_id), s)) in
    match record with
    | None => throw (RelayError 401 "invalid enrollment token")
    | Some record =>
      if negb (String.eqb record.(n_digest) (hmac_hex pepper secret))
      then throw (RelayError 401 "invalid enrollment token")
      else if is_some record.(n_used_at)
      then throw (RelayError 401 "this enrollment token was already used")
      else if record.(n_expires_at) <=? now
      then throw (RelayError 401 "this enrollment token has expired")
      else
        do? active := (λ s, (Ok (active_for s record.(n_project)), s)) in
        if is_some active then throw (RelayError 409 "project already has a connector")
        else
          do? _ := put_enrollment token_id
            {| n_project := record.(n_project); n_digest := record.(n_digest);
               n_expires_at := record.(n_expires_at); n_used_at := Some (iso now) |} in
          let connector_id := opt_or (head d.(d_ids)) "" in
          do? _ := put_connector connector_id
            {| t_project := record.(n_project); t_digest := hmac_hex pepper d.(d_secret);
               t_previous := None; t_created_at := iso now; t_revoked_at := None;
               t_last_seen_at := None |} in
          ret (connector_id, record.(n_project), credential "vqc_" connector_id d.(d_secret))
    end
  end.

Definition seen (c : connector) (at_ : Z) : connector :=
  {| t_project := c.(t_project); t_digest := c.(t_digest); t_previous := c.(t_previous);
     t_created_at := c.(t_created_at); t_revoked_at := c.(t_revoked_at);
     t_last_seen_at := Some at_ |}.

(** The current digest, or the previous one until its overlap ends. *)
Definition key_matches (now : Z) (c : connector) (presented : string) : bool :=
  String.eqb c.(t_digest) presented
  || match c.(t_previous) with
     | Some (digest, until) => String.eqb digest presented && (now <? until)
     | None => false
     end.

Definition authenticate (now : Z) (d : draws) (key : string) : cop (string * string) :=
  match match_credential "vqc_" key with
  | None => throw (RelayError 401 "invalid connector key")
  | Some (connector_id, secret) =>
    do? pepper := connector_pepper d in
    do? record := (λ s, (Ok (s.(cs_connectors) !! connector_id), s)) in
    match record with
    | None => throw (RelayError 401 "invalid connector key")
    | Some record =>
      if negb (key_matches now record (hmac_hex pepper secret))
      then throw (RelayError 401 "invalid connector key")
      else if is_some record.(t_revoked_at) then throw (RelayError 401 "this connector is revoked")
      else
        do? _ := put_connector connector_id (seen record (iso now)) in
        ret (connector_id, record.(t_project))
    end
  end.

Definition rotate (now : Z) (d : draws) (connector_id : string) : cop string :=
  do? pepper := connector_pepper d in
  do? record := (λ s, (Ok (s.(cs_connectors) !! connector_id), s)) in
  match record with
  | None => throw (RelayError 404 "no such active connector")
  | Some record =>
    if is_some record.(t_revoked_at) then throw (RelayError 404 "no such active connector")
    else
      do? _ := put_connector connector_id
        {| t_project := record.(t_project); t_digest := hmac_hex pepper d.(d_secret);
           t_previous := Some (record.(t_digest), iso (now + ROTATION_OVERLAP));
           t_created_at := record.(t_created_at); t_revoked_at := record.(t_revoked_at);
           t_last_seen_at := record.(t_last_seen_at) |} in
      ret (credential "vqc_" connector_id d.(d_secret))
  end.

Definition revoke (now : Z) (connector_id : string) : cop connector := λ s,
  match s.(cs_connectors) !! connector_id with
  | None => (Err (RelayError 404 "no such connector"), s)
  | Some record =>
    match record.(t_revoked_at) with
    | Some _ => (Ok record, s)
    | None =>
      let record := {| t_project := record.(t_project); t_digest := record.(t_digest);
                       t_previous := record.(t_previous); t_created_at := record.(t_created_at);
                       t_revoked_at := Some (iso now); t_last_seen_at := record.(t_last_seen_at) |} in
      (do? _ := put_connector connector_id record in ret record) s
    end
  end.

Definition last_seen (s : connector_store) (project : string) : option Z :=
  match active_for s project with
  | Some id => match s.(cs_connectors) !! id with Some c => c.(t_last_seen_at) | None => None end
  | None => None
  end.
End keyed_connectors.
