(* ===== verification/CredentialGuarantees.v ===== *)
(** * What the gateway's credentials guarantee

    One connector serves a project; a connector's key works until it is
    replaced, and the one it replaced for ten more minutes; an enrollment
    token enrolls once. *)

From S2P Require Import Prelude Spec BrokerRecord Relay GatewayKeys.

(** ** Parsing a credential *)

Lemma substring_all s n : (String.length s <= n)%nat → String.substring 0 n s = s.
Proof.
  revert n. induction s as [|c s IH]; intros [|n] Hn; simpl in *; try done; [lia|].
  rewrite IH by lia. done.
Qed.

Definition credential_ok (id secret : string) : bool :=
  fullmatch_class is_lower_hex 16 16 id && fullmatch_class urlsafe 43 43 secret.

Lemma match_credential_print prefix id secret :
  credential_ok id secret = true →
  match_credential prefix (credential prefix id secret) = Some (id, secret).
Proof.
  intros [Hid Hsec]%andb_true_iff. unfold match_credential, credential.
  assert (String.length id = 16%nat) as Lid.
  { unfold fullmatch_class, str_len in Hid. propify. lia. }
  rewrite startswith_app. rewrite (substring_app_skip prefix) by done.
  assert (String.substring 0 16 (id +:+ "_" +:+ secret) = id) as ->.
  { rewrite <- Lid. apply substring_app_keep. }
  rewrite Hid. cbn [andb].
  assert (Hat : ∀ k m, String.substring (String.length prefix + (16 + k)) m
            (prefix +:+ id +:+ "_" +:+ secret) = String.substring k m ("_" +:+ secret)).
  { intros k m. induction prefix as [|c p IHp]; [|exact IHp]. rewrite <- Lid. clear.
    induction id as [|c i IHi]; [done|exact IHi]. }
  pose proof (Hat 0%nat 1%nat) as H1. pose proof (Hat 1%nat (String.length (prefix +:+ id +:+ "_" +:+ secret))) as H2.
  rewrite Nat.add_0_r in H1. rewrite H1. change (16 + 1)%nat with 17%nat in H2. rewrite H2.
  change (String.substring 0 1 ("_" +:+ secret)) with (String "_" (String.substring 0 0 secret)).
  assert (String.substring 0 0 secret = "") as -> by by destruct secret.
  rewrite String.eqb_refl.
  change (String.substring 1 ?n ("_" +:+ secret)) with (String.substring 0 n secret).
  rewrite substring_all.
  - by rewrite Hsec.
  - rewrite !string_length_app. lia.
Qed.

(** ** Connectors *)

Inductive connector_call : Type :=
| NCreate (project : string) (projects : list string)
| NEnroll (token : string)
| NAuthenticate (key : string)
| NRotate (connector_id : string)
| NRevoke (connector_id : string).

Definition no_connectors : connector_store :=
  {| cs_pepper := None; cs_connectors := ∅; cs_enrollments := ∅ |}.

(** The keys issued for each connector, latest first, each with the moment it
    was issued. *)
Abbreviation key_log := (gmap string (list (string * Z))).

Section keyed.
Context {K : Keyed_hash}.

Definition run_connector (now : Z) (d : draws) (c : connector_call) (s : connector_store)
    : connector_store :=
  match c with
  | NCreate project projects => (create_enrollment now d project projects s).2
  | NEnroll token => (enroll now d token s).2
  | NAuthenticate key => (authenticate now d key s).2
  | NRotate id => (rotate now d id s).2
  | NRevoke id => (revoke now id s).2
  end.

Definition run_connectors (calls : list (Z * draws * connector_call)) (s : connector_store)
    : connector_store := foldl (λ s x, run_connector x.1.1 x.1.2 x.2 s) s calls.

(** At most one unrevoked connector per project. *)
Definition exclusive (m : gmap string connector) : Prop :=
  ∀ id id' c c', m !! id = Some c → m !! id' = Some c' → c.(t_revoked_at) = None →
  c'.(t_revoked_at) = None → c.(t_project) = c'.(t_project) → id = id'.

Lemma active_for_none s project :
  active_for s project = None → ∀ id c, s.(cs_connectors) !! id = Some c → serves project c = false.
Proof.
  unfold active_for. intros Hh id c Hc. apply head_None in Hh.
  destruct (serves project c) eqn:E; [|done]. exfalso.
  assert (id ∈ List.filter (λ id, match cs_connectors s !! id with Some c => serves project c | None => false end)
     (sort_by String.leb (elements (dom (cs_connectors s))))) as Hin.
  { rewrite list_elem_of_In, filter_In, <- list_elem_of_In, Hc. split; [|done].
    rewrite elem_of_sort_by, elem_of_elements, elem_of_dom. by eexists. }
  rewrite Hh in Hin. by apply elem_of_nil in Hin.
Qed.

Lemma connector_pepper_cases d s :
  ∃ p, (connector_pepper d s).1 = Ok p
    ∧ cs_connectors (connector_pepper d s).2 = cs_connectors s
    ∧ cs_enrollments (connector_pepper d s).2 = cs_enrollments s
    ∧ (connector_pepper d s).2.(cs_pepper) = Some p
    ∧ (∀ q, s.(cs_pepper) = Some q → p = q).
Proof.
  unfold connector_pepper. destruct (cs_pepper s) as [p|] eqn:E.
  - exists p. split_and!; naive_solver.
  - exists (d_pepper d). done.
Qed.

(** Every operation draws or reads the pepper, then changes at most one
    connector. *)
Definition connector_step (s s' : connector_store) : Prop :=
  s'.(cs_connectors) = s.(cs_connectors)
  ∨ ∃ id c', s'.(cs_connectors) = <[id := c']> s.(cs_connectors)
      ∧ match s.(cs_connectors) !! id with
        | Some c => c'.(t_project) = c.(t_project) ∧ (c'.(t_revoked_at) = None → c.(t_revoked_at) = None)
                    ∨ (active_for s c'.(t_project) = None)
        | None => active_for s c'.(t_project) = None
        end.

Lemma connector_step_exclusive s s' :
  connector_step s s' → exclusive s.(cs_connectors) → exclusive s'.(cs_connectors).
Proof.
  intros [->|(id0 & c0 & -> & Hc0)] Hex; [done|].
  assert (Hnew : ∀ id c, id ≠ id0 → cs_connectors s !! id = Some c → t_revoked_at c = None →
    t_revoked_at c0 = None → t_project c = t_project c0 → False).
  { intros id c Hne Hc Hr Hr0 Hp.
    assert (active_for s (t_project c0) = None → False) as Hact.
    { intros Hnone. pose proof (active_for_none _ _ Hnone id c Hc) as Hs. unfold serves in Hs.
      by rewrite Hp, String.eqb_refl, Hr in Hs. }
    destruct (cs_connectors s !! id0) as [c1|] eqn:E1; [|auto].
    destruct Hc0 as [[Hp1 Hr1]|]; [|auto]. apply Hne.
    apply (Hex id id0 c c1); try done; [auto|congruence]. }
  intros id id' c c'. destruct (decide (id = id0)) as [->|H1], (decide (id' = id0)) as [->|H2];
    rewrite ?lookup_insert_eq, ?lookup_insert_ne by done; try done.
  - intros [= <-] Hc' Hr Hr' Hp. exfalso. by apply (Hnew id' c').
  - intros Hc [= <-] Hr Hr' Hp. exfalso. by apply (Hnew id c).
  - apply Hex.
Qed.

Lemma active_for_ext s s' project :
  s'.(cs_connectors) = s.(cs_connectors) → active_for s' project = active_for s project.
Proof. unfold active_for. by intros ->. Qed.

Lemma run_connector_step now d c s : connector_step s (run_connector now d c s).
Proof.
  destruct (connector_pepper_cases d s) as (p & E1 & Ec & En & _ & _).
  destruct (connector_pepper d s) as [o s1] eqn:Ep. simpl in *. subst o.
  destruct c as [project projects|token|key|id|id]; simpl.
  - left. unfold create_enrollment, bind. case_match; [done|]. rewrite Ep. by case_match.
  - unfold enroll. destruct (match_credential _ _) as [[tid secret]|]; [|by left].
    unfold bind at 1. rewrite Ep. unfold bind at 1. cbn.
    destruct (cs_enrollments s1 !! tid) as [n|]; [|by left].
    repeat (case_match; [by left|]). unfold bind. cbn.
    destruct (active_for s1 (n_project n)) as [a|] eqn:Ha; [by left|]. right. cbn.
    eexists _, _. rewrite Ec. split; [done|]. simpl.
    assert (active_for s (n_project n) = None) as Ha' by by rewrite <- (active_for_ext s s1).
    case_match; [by right|done].
  - unfold authenticate. destruct (match_credential _ _) as [[cid secret]|]; [|by left].
    unfold bind at 1. rewrite Ep. unfold bind. cbn. rewrite Ec.
    destruct (cs_connectors s !! cid) as [c|] eqn:Hc; [|by left]. repeat (case_match; [by left|]).
    right. eexists cid, _. cbn. rewrite Ec. split; [done|]. rewrite Hc. by left.
  - unfold rotate, bind at 1. rewrite Ep. unfold bind. cbn. rewrite Ec.
    destruct (cs_connectors s !! id) as [c|] eqn:Hc; [|by left]. case_match; [by left|].
    right. eexists id, _. cbn. rewrite Ec. split; [done|]. rewrite Hc. by left.
  - unfold revoke. destruct (cs_connectors s !! id) as [c|] eqn:Hc; [|by left]. case_match; [by left|].
    right. eexists id, _. split; [done|]. rewrite Hc. by left.
Qed.

(** One connector authority serves a project: whatever tokens are created
    and used, keys rotated and connectors revoked, in any order and whatever
    ids are drawn, at most one connector of a project is not revoked. *)
Theorem one_connector_per_project calls :
  exclusive (run_connectors calls no_connectors).(cs_connectors).
Proof.
  unfold run_connectors. assert (exclusive (cs_connectors no_connectors)) as H0 by by intros ?.
  revert H0. generalize no_connectors as s0.
  induction calls as [|[[now d] c] calls IH]; intros s Hs; [done|]. simpl. apply IH.
  eapply connector_step_exclusive; [apply run_connector_step|done].
Qed.

(** ** The keys of a connector *)

Definition issued (log : key_log) (id : string) : list (string * Z) := opt_or (log !! id) [].

(** An [enroll] that succeeds starts a connector's keys; a [rotate] adds one. *)
Definition log_call (now : Z) (d : draws) (c : connector_call) (s : connector_store) (log : key_log)
    : key_log :=
  match c with
  | NEnroll token => match (enroll now d token s).1 with
                     | Ok (id, _, _) => <[id := [(d.(d_secret), now)]]> log
                     | Err _ => log
                     end
  | NRotate id => match (rotate now d id s).1 with
                  | Ok _ => <[id := (d.(d_secret), now) :: issued log id]> log
                  | Err _ => log
                  end
  | _ => log
  end.

Definition run_logged (calls : list (Z * draws * connector_call)) (s : connector_store)
    : key_log * connector_store :=
  foldl (λ ls x, (log_call x.1.1 x.1.2 x.2 ls.2 ls.1, run_connector x.1.1 x.1.2 x.2 ls.2)) (∅, s) calls.

(** What a connector's record holds of its keys. *)
Definition holds (pepper : string) (keys : list (string * Z)) (c : connector) : Prop :=
  match keys with
  | [] => False
  | (secret, at_) :: rest =>
    c.(t_digest) = hmac_hex pepper secret
    ∧ c.(t_previous) = match rest with
                       | [] => None
                       | (old, _) :: _ => Some (hmac_hex pepper old, iso (at_ + ROTATION_OVERLAP))
                       end
  end.

Definition logged (log : key_log) (s : connector_store) : Prop :=
  ∀ id c, s.(cs_connectors) !! id = Some c →
  ∃ pepper, s.(cs_pepper) = Some pepper ∧ holds pepper (issued log id) c.

Lemma issued_insert log id keys id' :
  issued (<[id := keys]> log) id' = if decide (id' = id) then keys else issued log id'.
Proof.
  unfold issued. destruct (decide (id' = id)) as [->|Hne];
    [by rewrite lookup_insert_eq|by rewrite lookup_insert_ne].
Qed.

Lemma logged_put log s id c' keys :
  logged log s → (∀ p, s.(cs_pepper) = Some p → holds p keys c') → is_Some s.(cs_pepper) →
  logged (<[id := keys]> log)
    {| cs_pepper := s.(cs_pepper); cs_connectors := <[id := c']> s.(cs_connectors);
       cs_enrollments := s.(cs_enrollments) |}.
Proof.
  intros Hl Hh [p Hp] id0 c0. simpl. rewrite issued_insert. case_decide as E.
  - subst. rewrite lookup_insert_eq. intros [= <-]. exists p. auto.
  - rewrite lookup_insert_ne by done. apply Hl.
Qed.

Lemma logged_rest log s s' :
  logged log s → s'.(cs_connectors) = s.(cs_connectors) →
  (∀ p, s.(cs_pepper) = Some p → s'.(cs_pepper) = Some p) → logged log s'.
Proof.
  intros Hl Ec Hp id c. rewrite Ec. intros Hc. destruct (Hl id c Hc) as (p & ? & ?). eauto.
Qed.

Lemma pepper_logged d s log :
  logged log s → logged log (connector_pepper d s).2.
Proof.
  intros Hl. destruct (connector_pepper_cases d s) as (p & _ & Ec & _ & Ep & Hq).
  eapply logged_rest; [done|done|]. intros q Hs. rewrite Ep. f_equal. auto.
Qed.

(** A record whose keys are unchanged. *)
Lemma logged_same_keys log s id c c' :
  logged log s → s.(cs_connectors) !! id = Some c → c'.(t_digest) = c.(t_digest) →
  c'.(t_previous) = c.(t_previous) →
  logged log {| cs_pepper := s.(cs_pepper); cs_connectors := <[id := c']> s.(cs_connectors);
                cs_enrollments := s.(cs_enrollments) |}.
Proof.
  intros Hl Hc Ed Ep id0 c0. simpl. destruct (decide (id0 = id)) as [->|Hne].
  - rewrite lookup_insert_eq. intros [= <-]. destruct (Hl id c Hc) as (p & ? & Hh). exists p.
    split; [done|]. unfold holds in *. destruct (issued log id) as [|[sec at_] rest]; [done|].
    by rewrite Ed, Ep.
  - rewrite lookup_insert_ne by done. apply Hl.
Qed.

Lemma log_call_logged now d c s log :
  logged log s → logged (log_call now d c s log) (run_connector now d c s).
Proof.
  intros Hl. pose proof (pepper_logged d s log Hl) as Hl1.
  destruct (connector_pepper_cases d s) as (p & E1 & Ec & En & Epp & _).
  destruct (connector_pepper d s) as [o s1] eqn:Ep. simpl in *. subst o.
  assert (Hb : ∀ A (k : string → cop A), bind (connector_pepper d) k s = k p s1)
    by (intros; unfold bind; by rewrite Ep).
  destruct c as [project projects|token|key|id|id]; simpl.
  - unfold create_enrollment. case_match; [done|]. rewrite Hb. unfold bind. cbn.
    destruct (is_some (active_for s1 project)); cbn; [done|]. by eapply (logged_rest _ s1).
  - unfold enroll. destruct (match_credential _ _) as [[tid secret]|]; [|done].
    rewrite !Hb. unfold bind. cbn.
    destruct (cs_enrollments s1 !! tid) as [n|]; [|exact Hl1].
    destruct (negb _); [exact Hl1|]. destruct (is_some (n_used_at n)); [exact Hl1|].
    destruct (_ <=? _); [exact Hl1|]. cbn.
    destruct (active_for s1 (n_project n)) as [a|]; [exact Hl1|]. cbn.
    apply (logged_put log (MkConnectorStore (cs_pepper s1) (cs_connectors s1) _)); simpl.
    + by eapply logged_rest.
    + rewrite Epp. by intros q [= <-].
    + by rewrite Epp.
  - unfold authenticate. destruct (match_credential _ _) as [[cid secret]|]; [|done].
    rewrite !Hb. unfold bind. cbn.
    destruct (cs_connectors s1 !! cid) as [c|] eqn:Hc; [|exact Hl1]. destruct (negb _); [exact Hl1|].
    destruct (is_some _); [exact Hl1|].
    by eapply logged_same_keys.
  - unfold rotate. rewrite !Hb. unfold bind. cbn.
    destruct (cs_connectors s1 !! id) as [c|] eqn:Hc; [|exact Hl1]. destruct (is_some _); [exact Hl1|]. cbn.
    apply logged_put; [done| |by rewrite Epp]. rewrite Epp. intros q [= <-]. simpl.
    destruct (Hl1 id c Hc) as (q & Hq & Hh). rewrite Epp in Hq. injection Hq as <-.
    unfold holds in Hh. destruct (issued log id) as [|[sec at_] rest]; [done|].
    destruct Hh as [-> _]. done.
  - unfold revoke. destruct (cs_connectors s !! id) as [c|] eqn:Hc; [|done]. case_match; [done|].
    by eapply logged_same_keys.
Qed.

Lemma run_logged_ok calls :
  logged (run_logged calls no_connectors).1 (run_logged calls no_connectors).2.
Proof.
  unfold run_logged. assert (H0 : logged ∅ no_connectors) by by intros id c.
  revert H0. generalize (∅ : key_log) as log. generalize no_connectors as s.
  induction calls as [|[[now d] c] calls IH]; intros s log Hl; [done|]. simpl. apply IH.
  by apply log_call_logged.
Qed.

(** What the keys issued say: the latest one, or the one it replaced while
    the overlap lasts. *)
Definition key_current (now : Z) (keys : list (string * Z)) (secret : string) : Prop :=
  match keys with
  | [] => False
  | (latest, at_) :: rest =>
    secret = latest
    ∨ match rest with [] => False | (old, _) :: _ => secret = old ∧ now < iso (at_ + ROTATION_OVERLAP) end
  end.

(** A connector's key is accepted exactly while it should be: after any
    history, a key authenticates if and only if its connector is not revoked
    and it is the last key issued for it, or the one that key replaced less
    than ten minutes (in whole seconds) before; older keys and those of
    revoked connectors never work again.  The key presented is assumed not to
    collide, under the store's pepper, with a different key issued for the
    connector. *)
Theorem connector_key_lifecycle calls id c secret now d :
  credential_ok id secret = true →
  let '(log, s) := run_logged calls no_connectors in
  (∀ pepper x, x ∈ (issued log id).*1 → hmac_hex pepper x = hmac_hex pepper secret → x = secret) →
  s.(cs_connectors) !! id = Some c →
  is_ok (authenticate now d (credential "vqc_" id secret) s).1 = true
  ↔ c.(t_revoked_at) = None ∧ key_current now (issued log id) secret.
Proof.
  intros Hok. pose proof (run_logged_ok calls) as Hl.
  destruct (run_logged calls no_connectors) as [log s]. simpl in Hl. intros Hinj Hc.
  destruct (Hl id c Hc) as (p & Hp & Hh). unfold authenticate. rewrite match_credential_print by done.
  unfold bind, connector_pepper. rewrite Hp. cbn. rewrite Hc.
  unfold holds in Hh. destruct (issued log id) as [|[latest at_] rest]; [done|].
  destruct Hh as [Hd Hprev]. unfold key_matches. rewrite Hd, Hprev. csimpl in Hinj.
  assert (Heq : ∀ x, x ∈ latest :: rest.*1 → String.eqb (hmac_hex p x) (hmac_hex p secret) = true ↔ secret = x).
  { intros x Hx. rewrite String.eqb_eq. split; [intros E; by apply Hinj in E|by intros ->]. }
  assert (Hm : String.eqb (hmac_hex p latest) (hmac_hex p secret)
      || match match rest with [] => None | (old, _) :: _ => Some (hmac_hex p old, iso (at_ + ROTATION_OVERLAP)) end with
         | Some (digest, until) => String.eqb digest (hmac_hex p secret) && (now <? until)
         | None => false end = true ↔ key_current now ((latest, at_) :: rest) secret).
  { rewrite orb_true_iff, Heq by (left). simpl. destruct rest as [|[old t] rest]; [naive_solver|].
    by rewrite andb_true_iff, Heq, Z.ltb_lt by (right; left). }
  destruct (_ || _); cbn [negb].
  - destruct (t_revoked_at c); simpl; [naive_solver|]. split; [|done]. intros _. split; [done|by apply Hm].
  - simpl. split; [done|]. intros [_ Hk%Hm]. done.
Qed.

(** ** Rotating an API key *)

(** The grant of a key is one [create] takes. *)
Definition grant_ok (k : GatewayKey) (projects : list string) : bool :=
  PRINCIPAL_RE k.(k_principal) && mem_str k.(k_project) projects
  && negb (bool_decide (from_keys [] k.(k_scopes) = [])
           || existsb (λ scope, negb (mem_str scope GATEWAY_SCOPES)) (from_keys [] k.(k_scopes))).

Lemma unused_fresh ids taken id : unused ids taken = Ok id → taken !! id = None.
Proof.
  induction ids as [|x ids IH]; simpl; [done|]. destruct (taken !! x) eqn:E; simpl; [done|].
  by intros [= <-].
Qed.

(** Rotating an expired API key brings its grant back to life: the old
    key is refused from its expiry on, yet [rotate] issues a key with the
    same grant that works for a day, where its documentation promises the
    same expiry. *)
Theorem rotate_revives_expired now later d key_id secret old expires projects s pepper id' :
  s.(ks_pepper) = Some pepper → str_len pepper = 32 →
  s.(ks_keys) !! key_id = Some old → grant_ok old projects = true →
  old.(k_revoked_at) = None → old.(k_expires_at) = Some expires → expires <= now →
  unused d.(d_ids) s.(ks_keys) = Ok id' →
  credential_ok key_id secret = true → credential_ok id' d.(d_secret) = true →
  later < iso (now + DAY) →
  is_ok (authenticate_key now d (credential "vqk_" key_id secret) projects s).1 = false
  ∧ ∃ k s', rotate_key now d key_id projects s = (Ok (id', k, credential "vqk_" id' d.(d_secret)), s')
      ∧ is_ok (authenticate_key later d (credential "vqk_" id' d.(d_secret)) projects s').1 = true.
Proof.
  intros Hp Hlen Hk Hg Hr He Hexp Hid Hc Hc' Hlater.
  apply andb_true_iff in Hg as [Hg Hsc]. apply andb_true_iff in Hg as [Hpr Hproj].
  split.
  - unfold authenticate_key. rewrite match_credential_print by done. unfold bind, key_pepper. rewrite Hp, Hlen. cbn.
    rewrite Hk, Hr, He, (proj2 (Z.leb_le _ _) Hexp). cbn. by destruct (String.eqb _ _).
  - assert (Hne : id' ≠ key_id) by (intros ->; by rewrite (unused_fresh _ _ _ Hid) in Hk).
    assert (Hday : rotated_days now old = Some 1).
    { unfold rotated_days. rewrite He. cbn. f_equal. apply Z.max_l.
      transitivity 0; [|lia]. apply Z.div_le_upper_bound; unfold DAY, MICROS; lia. }
    eexists _, _. split.
    + unfold rotate_key, bind at 1. cbn. rewrite Hk. rewrite Hr, Hday. unfold create_key.
      rewrite Hpr, Hproj. cbn [negb]. apply negb_true_iff in Hsc. rewrite Hsc. cbn.
      unfold bind, key_pepper. rewrite Hp, Hlen. cbn. rewrite Hid. cbn. unfold revoke_key. cbn.
      rewrite lookup_insert_ne by done. rewrite Hk, Hr. cbn. reflexivity.
    + unfold authenticate_key. rewrite match_credential_print by done. unfold bind, key_pepper. cbn. rewrite Hp, Hlen. cbn.
      rewrite lookup_insert_ne by congruence. rewrite lookup_insert_eq. cbn. rewrite String.eqb_refl. cbn.
      rewrite Hproj. change (1 * DAY) with DAY. by rewrite (proj2 (Z.leb_gt _ _) Hlater).
Qed.
End keyed.
