(* ===== verification/Connector.v ===== *)
(** * The outbound connector: [src/vq/gateway/connector.py]

    What the connector does with a submit item, one durable effect per step,
    and the whole relay as a transition system: the gateway's store, the
    broker's store, the connector's journal and the items in progress.  The
    request a relay job carries is the printed intent of
    [src/vq/gateway/jobs.py]. *)

From S2P Require Import Prelude Spec Overview Json BrokerRecord BrokerStore BrokerLifecycle BrokerGuarantees Relay RelayOps RelayLogic RelayGuarantees.

(** ** The request of a relay job *)

(** [intent_request] *)
Definition intent_request (i : BrokerIntent) : list (string * json) :=
  [("command", JList (map JStr i.(i_command)));
   ("cpus", JInt i.(i_cpus));
   ("mem_mb", JInt i.(i_mem_mb));
   ("wall_time_seconds", jopt JInt i.(i_wall_time_seconds));
   ("program", jopt JStr i.(i_program));
   ("expected_sha", jopt JStr i.(i_expected_sha));
   ("job_name", jopt JStr i.(i_job_name));
   ("tags", JList (map JStr i.(i_tags)))]
  ++ match i.(i_runtime_seconds) with
     | Some (low, high) => [("runtime_seconds", JList [jnum low; jnum high])]
     | None => []
     end.

(** The exceptions of [intent_from_request]: a missing key, a value that
    cannot be iterated, a [BrokerIntent] that refuses its fields. *)
Inductive request_error : Type := ReqKeyError | ReqTypeError | ReqInvalid.

Definition str_item (j : json) : res request_error string :=
  match j with JStr s => Ok s | _ => Err ReqInvalid end.

(** [tuple(v)] *)
Definition tuple_of (j : json) : res request_error (list json) :=
  match j with
  | JList l => Ok l
  | JStr s => Ok (map (λ c, JStr (String c "")) (String.list_ascii_of_string s))
  | JObj kvs => Ok (map (λ kv, JStr kv.1) kvs)
  | _ => Err ReqTypeError
  end.

Definition item_at (request : list (string * json)) (k : string) : res request_error json :=
  match assoc k request with Some j => Ok j | None => Err ReqKeyError end.

Definition int_of (j : json) : res request_error Z :=
  match j with JInt z => Ok z | _ => Err ReqInvalid end.
Definition opt_int_of (j : json) : res request_error (option Z) :=
  match j with JNull => Ok None | JInt z => Ok (Some z) | _ => Err ReqInvalid end.
Definition opt_str_of (j : json) : res request_error (option string) :=
  match j with JNull => Ok None | JStr s => Ok (Some s) | _ => Err ReqInvalid end.
Definition num_of (j : json) : res request_error pynum :=
  match j with JInt z => Ok (NInt z) | JFloat f => Ok (NFloat f) | _ => Err ReqInvalid end.
Definition bounds_of (l : list json) : res request_error (pynum * pynum) :=
  match l with
  | [a; b] => let? low := num_of a in let? high := num_of b in Ok (low, high)
  | _ => Err ReqInvalid
  end.

(** [intent_from_request]: the arguments are evaluated first, then checked. *)
Definition intent_from_request (request : list (string * json)) : res request_error BrokerIntent :=
  let? command := item_at request "command" in
  let? command := tuple_of command in
  let? cpus := item_at request "cpus" in
  let? mem_mb := item_at request "mem_mb" in
  let? wall := item_at request "wall_time_seconds" in
  let? program := item_at request "program" in
  let tags := jget request "tags" in
  let? tags := (if truthy tags then tuple_of tags else Ok []) in
  let runtime := jget request "runtime_seconds" in
  let? runtime := (match runtime with
                   | JNull => Ok None
                   | _ => let? l := tuple_of runtime in Ok (Some l)
                   end) in
  let? command := mapM_res str_item command in
  let? tags := mapM_res str_item tags in
  let? cpus := int_of cpus in
  let? mem_mb := int_of mem_mb in
  let? wall := opt_int_of wall in
  let? job_name := opt_str_of (jget request "job_name") in
  let? program := opt_str_of program in
  let? expected_sha := opt_str_of (jget request "expected_sha") in
  let? runtime := (match runtime with
                   | None => Ok None
                   | Some l => let? b := bounds_of l in Ok (Some b)
                   end) in
  let i := {| i_command := command; i_cpus := cpus; i_mem_mb := mem_mb;
              i_wall_time_seconds := wall; i_priority := 0; i_auto_resume := false; i_retry := 0;
              i_job_name := job_name; i_program := program; i_expected_sha := expected_sha;
              i_tags := tags; i_clean_workdir_on_terminal := false;
              i_rerun_until_file_exists := None; i_rerun_max := 10; i_pool := None;
              i_runtime_seconds := runtime |} in
  raise? ReqInvalid when (negb (intent_valid i)) in
  Ok i.

(** ** One submit item *)

Definition journal : Type := gmap string string.

(** Where [_submit] is with an item. *)
Inductive submit_at : Type :=
| AtDownload
| AtAccept (data : string)
| AtCommit (p : pending)
| AtRemember (broker_job_id : string)
| AtAck (outcome : string) (broker_job_id reason : option string).

(** What a step makes of it: the next place, or the end of the item. *)
Inductive submit_next : Type := Next (at_ : submit_at) | Deferred | PassDies.

Record submit_task : Type := MkTask {
  k_epoch : Z;
  k_job_id : string;
  k_scoped_key : string;
  k_request : list (string * json);
  k_sha256 : string;
  k_size : Z;
  k_at : submit_at;
}.

Definition task_of (i : work_item) : option submit_task :=
  match i with
  | SubmitItem epoch job_id scoped_key request _ sha256 size =>
    Some {| k_epoch := epoch; k_job_id := job_id; k_scoped_key := scoped_key; k_request := request;
            k_sha256 := sha256; k_size := size; k_at := AtDownload |}
  | _ => None
  end.

Definition task_at (k : submit_task) (at_ : submit_at) : submit_task :=
  {| k_epoch := k.(k_epoch); k_job_id := k.(k_job_id); k_scoped_key := k.(k_scoped_key);
     k_request := k.(k_request); k_sha256 := k.(k_sha256); k_size := k.(k_size); k_at := at_ |}.

Definition refused (why : string) : submit_next := Next (AtAck "refused" None (Some why)).

(** The handlers around the broker's intake: busy defers the item, any other
    [BrokerStoreError] or [ValueError] refuses it, the rest ends the pass. *)
Definition accept_failed (e : broker_error) : submit_next :=
  match e with
  | StoreBusy => Deferred
  | StoreError | RecordConflict | IdempotencyConflict | RecordCorrupt | PyValueError => refused "broker"
  | _ => PassDies
  end.

(** What a step sees outside: the gateway's answer to the download ([None]
    when the request fails), whether this host is a broker now, the broker
    store's environment and clock, and whether the journal can be written. *)
Record cenv : Type := MkCenv {
  c_download : option (Z * string);
  c_broker_enabled : bool;
  c_store : env;
  c_clock : pyfloat;
  c_journal_fails : bool;
}.

Section with_hashing.
Context {H : Hashing} {T : TextForms} {P : PayloadCheck}.

(** [_submit] up to the acknowledgement.  [broker_service.accept] is
    [require_enabled], a check that concerns pools only, and the store's
    two-step intake. *)
Definition submit_step (ev : cenv) (k : submit_task) (s : store) (j : journal)
    : submit_next * store * journal :=
  match k.(k_at) with
  | AtDownload =>
    match ev.(c_download) with
    | None => (Deferred, s, j)
    | Some (status, data) =>
      if negb (status =? 200) then (Deferred, s, j)
      else if negb (str_len data =? k.(k_size)) || negb (String.eqb (sha256_hex data) k.(k_sha256))
      then (refused "payload does not match its digest", s, j)
      else (Next (AtAccept data), s, j)
    end
  | AtAccept data =>
    match intent_from_request k.(k_request) with
    | Err ReqTypeError => (PassDies, s, j)
    | Err _ => (refused "request", s, j)
    | Ok intent =>
      if negb ev.(c_broker_enabled) then (accept_failed StoreError, s, j)
      else match accept_stage ev.(c_store) s (Some data) intent ev.(c_clock) (Keyed k.(k_scoped_key)) with
           | (Ok p, s') => (Next (AtCommit p), s', j)
           | (Err e, s') => (accept_failed e, s', j)
           end
    end
  | AtCommit p =>
    match accept_commit ev.(c_store) s p with
    | (Ok r, s') => (Next (AtRemember r.(broker_job_id)), s', j)
    | (Err e, s') => (accept_failed e, s', j)
    end
  | AtRemember id =>
    if ev.(c_journal_fails) then (PassDies, s, j)
    else (Next (AtAck "accepted" (Some id) None), s, <[k.(k_job_id) := id]> j)
  | AtAck _ _ _ => (Deferred, s, j)
  end.

(** [_ack] of the item, as the gateway receives it; the HTTP client may send
    it any number of times. *)
Definition submit_ack (gev : genv) (project : string) (k : submit_task) : op RelayRecord :=
  match k.(k_at) with
  | AtAck outcome id why =>
    ack gev project (item_id KSubmit k.(k_job_id)) k.(k_epoch) outcome id why JNull
  | _ => fail 404 "unknown work item"
  end.

(** ** The whole relay *)

Record world : Type := MkWorld {
  w_relay : relay;
  w_broker : system;
  w_journal : journal;
  w_claimed : list work_item;
  w_tasks : list submit_task;
}.

Definition empty_world : world :=
  {| w_relay := empty_relay; w_broker := initial; w_journal := ∅; w_claimed := []; w_tasks := [] |}.

(** A call that acknowledges no submission: everything a client may ask, and
    a connector's other traffic. *)
Definition other_call (c : relay_call) : bool :=
  match c with
  | CallClaim _ _ _ => false
  | CallAck _ item _ _ _ _ _ => negb (String.eqb (partition_colon item).1 "submit")
  | _ => true
  end.

Definition set_tasks (w : world) (ks : list submit_task) : world :=
  {| w_relay := w.(w_relay); w_broker := w.(w_broker); w_journal := w.(w_journal);
     w_claimed := w.(w_claimed); w_tasks := ks |}.

Inductive relay_step : world → world → Prop :=
| step_call ev c w : other_call c = true →
    relay_step w {| w_relay := (run_call ev c w.(w_relay)).2; w_broker := w.(w_broker);
                    w_journal := w.(w_journal); w_claimed := w.(w_claimed); w_tasks := w.(w_tasks) |}
| step_claim ev project max spool w :
    let out := claim ev project max spool w.(w_relay) in
    relay_step w {| w_relay := out.2; w_broker := w.(w_broker); w_journal := w.(w_journal);
                    w_claimed := handed_out out.1 ++ w.(w_claimed); w_tasks := w.(w_tasks) |}
| step_start i k l1 l2 w : w.(w_claimed) = l1 ++ i :: l2 → task_of i = Some k →
    relay_step w {| w_relay := w.(w_relay); w_broker := w.(w_broker); w_journal := w.(w_journal);
                    w_claimed := l1 ++ l2; w_tasks := k :: w.(w_tasks) |}
| step_submit ev k l1 l2 w next s' j' : w.(w_tasks) = l1 ++ k :: l2 →
    submit_step ev k w.(w_broker).(st) w.(w_journal) = (next, s', j') →
    relay_step w {| w_relay := w.(w_relay);
                    w_broker := {| st := s'; inflight := w.(w_broker).(inflight) |};
                    w_journal := j'; w_claimed := w.(w_claimed);
                    w_tasks := l1 ++ match next with Next at_ => task_at k at_ :: l2 | _ => l2 end |}
| step_ack ev project k l1 l2 w : w.(w_tasks) = l1 ++ k :: l2 →
    relay_step w {| w_relay := (submit_ack ev project k w.(w_relay)).2; w_broker := w.(w_broker);
                    w_journal := w.(w_journal); w_claimed := w.(w_claimed); w_tasks := w.(w_tasks) |}
| step_crash k l1 l2 w : w.(w_tasks) = l1 ++ k :: l2 → relay_step w (set_tasks w (l1 ++ l2))
| step_broker w b' : step w.(w_broker) b' →
    relay_step w {| w_relay := w.(w_relay); w_broker := b'; w_journal := w.(w_journal);
                    w_claimed := w.(w_claimed); w_tasks := w.(w_tasks) |}.

Definition relay_reachable (w : world) : Prop := rtc relay_step empty_world w.
End with_hashing.
