(* ===== verification/ConnectorGuarantees.v ===== *)
(** * What the relay guarantees end to end

    Whatever is lost, repeated, delayed or killed between the gateway, the
    connector and the broker: a job the gateway calls accepted is held by the
    broker under the key, the request and the payload it was submitted with;
    a verdict is final; a job cancelled before delivery is never delivered. *)

From S2P Require Import Prelude Spec Overview Json BrokerRecord BrokerStore BrokerLifecycle BrokerGuarantees Relay RelayOps RelayLogic RelayGuarantees Connector.

(** ** What single calls do to a record's transfer *)

Definition transfer_key (r : RelayRecord) := (r.(g_transfer), r.(g_epoch), r.(g_broker_job_id)).

Definition calm_moves (r r' : RelayRecord) : Prop :=
  identity r' = identity r
  ∧ (transfer_key r' = transfer_key r
     ∨ (r.(g_transfer) = TRANSFER_QUEUED
        ∧ transfer_key r' = (TRANSFER_CANCELLED, r.(g_epoch), r.(g_broker_job_id)))).

#[local] Instance calm_moves_preorder : PreOrder calm_moves.
Proof.
  split; [by intros r; split; [|left]|]. unfold transfer_key.
  intros a b c [I1 T1] [I2 T2]. split; [congruence|].
  destruct T1 as [T1|[Q1 T1]], T2 as [T2|[Q2 T2]].
  - left. congruence.
  - right. injection T1 as E1 E2 E3. rewrite E1 in Q2. rewrite E2, E3 in T2. by split.
  - right. split; [done|congruence].
  - injection T1 as E1 E2 E3. congruence.
Qed.

(** The order of every call but claims and acknowledgements of submissions. *)
Definition calm_order : record_order :=
  {| ro_rel := calm_moves; ro_preorder := calm_moves_preorder; ro_identity := λ r r' h, proj1 h |}.

Definition claiming_moves (r r' : RelayRecord) : Prop :=
  identity r' = identity r
  ∧ (transfer_key r' = transfer_key r
     ∨ (CLAIMABLE r.(g_transfer) = true ∧ r'.(g_transfer) = TRANSFER_CLAIMED
        ∧ r.(g_epoch) < r'.(g_epoch) ∧ r'.(g_broker_job_id) = r.(g_broker_job_id))).

#[local] Instance claiming_moves_preorder : PreOrder claiming_moves.
Proof.
  split; [by intros r; split; [|left]|]. unfold transfer_key.
  intros a b c [I1 T1] [I2 T2]. split; [congruence|].
  destruct T1 as [T1|(Q1 & C1 & E1 & B1)], T2 as [T2|(Q2 & C2 & E2 & B2)].
  - left. congruence.
  - right. injection T1 as T1 T1' T1''. rewrite T1, T1', T1'' in *. by split_and!.
  - right. injection T2 as -> -> ->. by split_and!.
  - right. split_and!; [done|done|lia|congruence].
Qed.

(** The order of a claim. *)
Definition claiming_order : record_order :=
  {| ro_rel := claiming_moves; ro_preorder := claiming_moves_preorder; ro_identity := λ r r' h, proj1 h |}.

Section with_hashing.
Context {H : Hashing} {T : TextForms} {P : PayloadCheck}.

#[local] Hint Resolve follows_fail follows_ret follows_throw keeps_fail : vq_relay.

Lemma calm_write ev r r' {A} (a : A) :
  calm_moves r r' → follows_by calm_order r (do? _ := relay_write ev r' in ret a).
Proof. apply (follows_write calm_order). Qed.

Lemma calm_requests r c l w u : calm_moves r (with_requests r c l w u).
Proof. by split; [|left]. Qed.

Lemma calm_same {A} (m : op A) : (∀ s, r_jobs (m s).2 = r_jobs s) → keeps (relay_by calm_order) m.
Proof. intros Hm s. apply relay_le_jobs, Hm. Qed.

Lemma calm_ack_collect ev r epoch outcome m why :
  follows_by calm_order r (ack_collect ev r epoch outcome m why).
Proof.
  unfold ack_collect. destruct (g_collect r) as [c|]; [|auto with vq_relay].
  do 3 (case_match; [auto with vq_relay|]). apply follows_bind.
  - intros s. case_match; unfold bind.
    + pose proof (publish_results_jobs ev (g_job_id r) m s) as Hp.
      by destruct (publish_results _ _ _ s) as [[[]|e] s'].
    + by case_match.
  - intros c'. apply calm_write, calm_requests.
Qed.

Lemma calm_report ev project views : keeps (relay_by calm_order) (report ev project views).
Proof.
  unfold report. generalize 0. induction views as [|[id v] views IH]; intros n; simpl;
    [apply keeps_ret, _|].
  apply keeps_find; [apply IH|]. intros r. destruct v; try (by apply follows_keeps).
  case_match; [by apply follows_keeps|].
  intros s Hr. unfold bind. set (r' := with_view _ _ _).
  pose proof (relay_le_write calm_order ev s r r' Hr) as Hw.
  assert (ro_rel calm_order r r') as Hc by by split; [|left].
  destruct (relay_write ev r' s) as [[[]|e] s1]; simpl in *; [|by apply Hw].
  transitivity s1; [by apply Hw|apply IH].
Qed.

Lemma other_call_calm ev c : other_call c = true → keeps (relay_by calm_order) (run_call ev c).
Proof.
  destruct c as [|project max spool|id p j b| |id p j why|project item epoch outcome bid why m|id p j| |project views];
    simpl; intros Hc; try done; apply (keeps_no_items (relay_by calm_order)).
  - apply admit_keeps.
  - apply keeps_owned. intros r. case_match; [apply calm_write, calm_requests|auto with vq_relay].
  - apply calm_same. intros s. apply push_result_jobs.
  - apply keeps_owned. intros r. case_match; [auto with vq_relay|].
    destruct (g_cancel r); [auto with vq_relay|]. apply calm_write.
    destruct (bool_decide (g_transfer r = TRANSFER_QUEUED)) eqn:Hq; [|apply calm_requests].
    apply bool_decide_eq_true in Hq. split; [done|by right].
  - unfold ack. destruct (partition_colon item) as [kind job]. simpl in Hc.
    destruct (item_kind_of kind) as [k|] eqn:Hk; [|apply keeps_fail].
    apply keeps_find; [apply keeps_fail|]. intros r. case_match; [auto with vq_relay|].
    destruct k; [|unfold ack_cancel; repeat (case_match; auto with vq_relay);
                  apply calm_write, calm_requests|apply calm_ack_collect].
    exfalso. unfold item_kind_of in Hk. destruct (String.eqb kind "submit"); [done|].
    repeat case_match; done.
  - apply keeps_owned. intros r. apply calm_write, calm_requests.
  - apply calm_same. intros s. apply append_logs_jobs.
  - apply calm_report.
Qed.

(** ** Claims *)

Lemma round_claiming k pick s s' chosen :
  (∀ r n r' i, pick r = Some (n, r', i) → claiming_moves r r') →
  round k pick s s' chosen → relay_by claiming_order s s'.
Proof.
  intros Hp Hr Hs. destruct (round_le _ _ _ _ _ Hr Hs) as [Hk _]. split; [done|]. intros id.
  destruct (decide (id ∈ g_job_id <$> chosen)) as [(r & -> & Hin)%list_elem_of_fmap|Hni].
  - destruct (round_chosen _ _ _ _ _ Hr r Hin) as (-> & n & r' & i & E & ->).
    exists r'. split; [done|by eapply Hp].
  - rewrite (round_other _ _ _ _ _ Hr id Hni). exact (PreOrder_Reflexive (R := jobs_by claiming_order) s id).
Qed.

Lemma claim_claiming ev project max spool s :
  keyed s → relay_by claiming_order s (claim ev project max spool s).2.
Proof.
  apply (claim_by (relay_by claiming_order)).
  - intros s0. by apply relay_le_jobs.
  - intros s0 s' c. apply round_claiming. intros r n r' i. unfold pick_submit, submit_due.
    case_match eqn:E; [|done]. intros [= <- <- <-]. propify. split; [done|]. right. simpl. by split_and!; [..|lia|].
  - intros s0 s' c. apply round_claiming. intros r n r' i. unfold pick_cancel.
    destruct (cancel_due _ _ _); [|done]. intros [= <- <- <-]. by split; [|left].
  - intros s0 s' c. apply round_claiming. intros r n r' i. unfold pick_collect.
    destruct (collect_due _ _ _); [|done]. intros [= <- <- <-]. by split; [|left].
Qed.

(** ** What the broker holds of a relay job *)

Definition delivered (s : store) (key : string) (request : list (string * json)) (sha256 id : string)
    : Prop :=
  broker_job_id_for_key key = Ok id
  ∧ ∃ i rb, intent_from_request request = Ok i ∧ get s id = Ok rb
    ∧ intent_eqb rb.(intent) i = true ∧ rb.(payload_sha256) = sha256.

Lemma delivered_later s s' key request sha256 id :
  store_advances s s' → delivered s key request sha256 id → delivered s' key request sha256 id.
Proof.
  intros Ha [Hk (i & rb & Hi & Hg & He & Hs)]. split; [done|].
  destruct (Ha _ _ Hg) as (rb' & Hg' & [Hev _]). exists i, rb'.
  rewrite (ev_intent _ _ Hev), (ev_sha _ _ Hev). done.
Qed.

Lemma intent_eqb_refl i : intent_eqb i i = true.
Proof.
  unfold intent_eqb, bounds_eqb. rewrite !Z.eqb_refl, !Bool.eqb_reflx.
  repeat rewrite bool_decide_eq_true_2 by done. simpl.
  destruct (i_runtime_seconds i) as [[l h]|]; [|done]. by rewrite !bool_decide_eq_true_2.
Qed.

Lemma commit_delivers ev s p r s' :
  store_wf s → pending_wf p = true → p.(p_keyed) = true → accept_commit ev s p = (Ok r, s') →
  r.(broker_job_id) = p.(p_job_id)
  ∧ ∃ rb, get s' p.(p_job_id) = Ok rb ∧ intent_eqb rb.(intent) p.(p_intent) = true
          ∧ rb.(payload_sha256) = p.(p_sha256).
Proof.
  intros Hs Hp Hk Hc. unfold accept_commit in Hc.
  destruct (staging s !! _) as [bytes|]; [|done].
  destruct (negb (is_tarfile bytes)); [done|]. destruct (negb _); [done|]. rewrite Hk in Hc.
  destruct (lock_busy ev); [done|].
  destruct (existing_record s (p_job_id p)) as [[existing|]|e] eqn:Ex; [| |done].
  - unfold existing_record in Ex. destruct (get s _) as [r0|e0] eqn:Hg; [|by destruct e0].
    injection Ex as ->. destruct (_ && _) eqn:Hm; [|done]. injection Hc as <- <-.
    apply andb_true_iff in Hm as [Hi Hsha%String.eqb_eq].
    destruct (get_ok _ _ _ Hg) as (_ & Hid & _). split; [done|]. exists existing.
    split_and!; try done.
  - destruct (link_payload _ _ _ _ _) as [[[]|e] s1] eqn:El; [|done].
    destruct (link_payload_records _ _ _ _ _ _ _ El) as [Hr Hcl].
    pose proof (publish_new_cases _ _ _ _ _ Hc) as (-> & _ & ->). simpl. split; [done|].
    destruct (held_record_printable p Hp) as [Hpr Hcons]. exists (normalise (held_record p)).
    simpl. rewrite intent_eqb_refl. split_and!; try done.
    change (p_job_id p) with (broker_job_id (held_record p)).
    apply get_written; [|done|done|].
    + unfold written. simpl. rewrite Hcl. apply Hs.
    + unfold written. simpl. apply lookup_insert_eq.
Qed.

(** ** The invariant *)

(** The submissions the connector has in hand. *)
Definition units (w : world) : list submit_task := omap task_of w.(w_claimed) ++ w.(w_tasks).

Definition unit_key (k : submit_task) : string * Z := (k.(k_job_id), k.(k_epoch)).

(** The item names a record, at an epoch that was handed out. *)
Definition known (s : relay) (k : submit_task) : Prop :=
  ∃ r, s.(r_jobs) !! k.(k_job_id) = Some (JobFile r) ∧ r.(g_scoped_key) = k.(k_scoped_key)
       ∧ r.(g_request) = k.(k_request) ∧ r.(g_upload_sha256) = k.(k_sha256)
       ∧ 0 < k.(k_epoch) <= r.(g_epoch).

Definition task_ok (s : store) (k : submit_task) : Prop :=
  match k.(k_at) with
  | AtDownload => True
  | AtAccept data => sha256_hex data = k.(k_sha256)
  | AtCommit p =>
    pending_wf p = true ∧ p.(p_keyed) = true
    ∧ broker_job_id_for_key k.(k_scoped_key) = Ok p.(p_job_id)
    ∧ intent_from_request k.(k_request) = Ok p.(p_intent) ∧ p.(p_sha256) = k.(k_sha256)
  | AtRemember id => delivered s k.(k_scoped_key) k.(k_request) k.(k_sha256) id
  | AtAck outcome id why =>
    (outcome = "accepted" ∧ ∃ b, id = Some b
       ∧ delivered s k.(k_scoped_key) k.(k_request) k.(k_sha256) b)
    ∨ (outcome = "refused" ∧ id = None)
  end.

Definition refusing (k : submit_task) : Prop := ∃ id why, k.(k_at) = AtAck "refused" id why.

Definition record_ok (s : store) (ks : list submit_task) (r : RelayRecord) : Prop :=
  match r.(g_transfer) with
  | TRANSFER_QUEUED | TRANSFER_CANCELLED => r.(g_epoch) = 0
  | TRANSFER_CLAIMED => 0 < r.(g_epoch)
  | TRANSFER_ACCEPTED => ∃ b, r.(g_broker_job_id) = Some b
      ∧ delivered s r.(g_scoped_key) r.(g_request) r.(g_upload_sha256) b
  | TRANSFER_REFUSED => ∀ k, k ∈ ks → unit_key k = (r.(g_job_id), r.(g_epoch)) → refusing k
  | TRANSFER_UNCERTAIN => False
  end.

Record winv (w : world) : Prop := {
  wi_broker : system_wf w.(w_broker);
  wi_keyed : keyed w.(w_relay);
  wi_known : ∀ k, k ∈ units w → known w.(w_relay) k;
  wi_unique : NoDup (unit_key <$> units w);
  wi_tasks : ∀ k, k ∈ w.(w_tasks) → task_ok w.(w_broker).(st) k;
  wi_records : ∀ id r, w.(w_relay).(r_jobs) !! id = Some (JobFile r) →
    record_ok w.(w_broker).(st) (units w) r;
}.

Lemma task_ok_later s s' k : store_advances s s' → task_ok s k → task_ok s' k.
Proof.
  intros Ha. unfold task_ok. destruct (k_at k); try done; [by apply delivered_later|].
  intros [(-> & b & -> & Hd)|?]; [left|by right]. split; [done|]. exists b.
  split; [done|by eapply delivered_later].
Qed.

(** Fewer units and a later broker keep a record in order. *)
Lemma record_ok_later s s' ks ks' r :
  store_advances s s' → (∀ k, k ∈ ks' → ¬ refusing k → k ∈ ks) → record_ok s ks r → record_ok s' ks' r.
Proof.
  intros Ha Hk. unfold record_ok. destruct (g_transfer r); try done.
  - intros (b & ? & ?). exists b. split; [done|by eapply delivered_later].
  - intros Hr k Hin Hkey. destruct (k_at k) as [| | | |o i y] eqn:Ek.
    5: destruct (decide (o = "refused")) as [->|Hne]; [by exists i, y|].
    all: assert (¬ refusing k) as Hnr by (intros (? & ? & E); congruence);
      destruct (Hnr (Hr k (Hk k Hin Hnr) Hkey)).
Qed.

Lemma winv_initial : winv empty_world.
Proof.
  split.
  - apply initial_wf.
  - apply keyed_empty.
  - intros k []%elem_of_nil.
  - constructor.
  - intros k []%elem_of_nil.
  - intros id r. simpl. by rewrite lookup_empty.
Qed.

Context {Hok : HashingOk H}.

(** ** Every step keeps it *)

(** Steps that only move the broker and the tasks. *)
Lemma winv_tasks w b' j' claimed tasks :
  winv w → system_wf b' → store_advances w.(w_broker).(st) b'.(st) →
  let w' := {| w_relay := w.(w_relay); w_broker := b'; w_journal := j'; w_claimed := claimed;
               w_tasks := tasks |} in
  NoDup (unit_key <$> units w') →
  (∀ k, k ∈ units w' → known w.(w_relay) k) →
  (∀ k, k ∈ tasks → task_ok b'.(st) k) →
  (∀ k, k ∈ units w' → ¬ refusing k → ∃ k0, k0 ∈ units w ∧ unit_key k0 = unit_key k ∧ ¬ refusing k0) →
  winv w'.
Proof.
  intros [Wb Wk Wn Wu Wt Wr] Hb Ha w' Hnd Hkn Htk Hun. split; try done.
  intros id r Hr. specialize (Wr id r Hr). revert Wr. unfold record_ok.
  destruct (g_transfer r); try done.
  - intros (b & ? & ?). exists b. split; [done|by eapply delivered_later].
  - intros Href k Hin Hkey. destruct (k_at k) as [| | | |o i y] eqn:Ek.
    5: destruct (decide (o = "refused")) as [->|Hne]; [by exists i, y|].
    all: assert (¬ refusing k) as Hnr by (intros (? & ? & E); congruence);
      destruct (Hun k Hin Hnr) as (k0 & Hk0 & Ek0 & Hnr0);
      destruct (Hnr0 (Href k0 Hk0 ltac:(congruence))).
Qed.

Lemma units_app w l1 k l2 :
  w.(w_tasks) = l1 ++ k :: l2 → units w ≡ₚ k :: omap task_of w.(w_claimed) ++ l1 ++ l2.
Proof. unfold units. intros ->. by rewrite <- Permutation_middle, <- Permutation_middle. Qed.

Lemma store_advances_refl s : store_advances s s.
Proof. reflexivity. Qed.

Lemma step_crash_inv w k l1 l2 : winv w → w.(w_tasks) = l1 ++ k :: l2 → winv (set_tasks w (l1 ++ l2)).
Proof.
  intros W Hw. pose proof (units_app w l1 k l2 Hw) as Hu.
  apply (winv_tasks w w.(w_broker) w.(w_journal) w.(w_claimed) (l1 ++ l2)); try apply W;
    [reflexivity|..]; unfold units; simpl.
  - pose proof (wi_unique _ W) as Hn. rewrite Hu in Hn. csimpl in Hn. by apply NoDup_cons in Hn as [_ Hn].
  - intros k0 Hk0. apply (wi_known _ W). rewrite Hu. by right.
  - intros k0 Hk0. apply (wi_tasks _ W). rewrite Hw. set_solver.
  - intros k0 Hk0 Hnr. exists k0. split_and!; try done. rewrite Hu. by right.
Qed.

Lemma step_start_inv w i k l1 l2 :
  winv w → w.(w_claimed) = l1 ++ i :: l2 → task_of i = Some k →
  winv {| w_relay := w.(w_relay); w_broker := w.(w_broker); w_journal := w.(w_journal);
          w_claimed := l1 ++ l2; w_tasks := k :: w.(w_tasks) |}.
Proof.
  intros W Hw Hk.
  assert (Hu : units w ≡ₚ omap task_of (l1 ++ l2) ++ k :: w.(w_tasks)).
  { unfold units. rewrite Hw, !omap_app. csimpl. rewrite Hk. rewrite <- !app_assoc.
    apply Permutation_app_head. cbn [app]. by rewrite Permutation_middle. }
  apply (winv_tasks w w.(w_broker) w.(w_journal) (l1 ++ l2) (k :: w.(w_tasks))); try apply W;
    [reflexivity|..]; unfold units; simpl.
  - rewrite <- Hu. apply W.
  - intros k0 Hk0. apply (wi_known _ W). by rewrite Hu.
  - intros k0 [->|Hk0]%elem_of_cons; [|by apply W].
    unfold task_of in Hk. destruct i; simplify_eq. done.
  - intros k0 Hk0 Hnr. exists k0. split_and!; try done. by rewrite Hu.
Qed.

Lemma step_broker_inv w b' :
  winv w → step w.(w_broker) b' →
  winv {| w_relay := w.(w_relay); w_broker := b'; w_journal := w.(w_journal);
          w_claimed := w.(w_claimed); w_tasks := w.(w_tasks) |}.
Proof using Hok.
  intros W Hb. destruct (step_sound _ _ (wi_broker _ W) Hb) as [Hwf Ha].
  apply (winv_tasks w b' w.(w_journal) w.(w_claimed) w.(w_tasks)); try done; try apply W.
  - intros k Hk. eapply task_ok_later; [done|]. by apply W.
  - intros k Hk Hnr. by exists k.
Qed.

Lemma intent_from_request_valid request i :
  intent_from_request request = Ok i → intent_valid i = true.
Proof.
  unfold intent_from_request. intros Hi. unbind. injection Hi as <-. by apply negb_false_iff.
Qed.

(** One step of a submission: the broker advances and the task stays sound. *)
Lemma submit_step_ok ev k s j next s' j' :
  store_wf s → task_ok s k → submit_step ev k s j = (next, s', j') →
  sound_step s s' ∧ ∀ at_, next = Next at_ →
    task_ok s' (task_at k at_) ∧ ¬ refusing k.
Proof using Hok.
  intros Hs Ht Hst. unfold submit_step in Hst. unfold task_ok in Ht.
  assert (Hsame : sound_step s s) by by apply sound_step_refl.
  assert (Hfail : ∀ e s1, ¬ refusing k → ∀ at_, accept_failed e = Next at_ →
    task_ok s1 (task_at k at_) ∧ ¬ refusing k).
  { intros e s1 Hnr at_. unfold accept_failed, refused. intros E. split; [|done].
    unfold task_ok. simpl. destruct e; simplify_eq; by right. }
  destruct (k_at k) as [|data|p|id|o i y] eqn:Ek.
  - assert (¬ refusing k) as Hnr by (intros (? & ? & E); congruence).
    destruct (c_download ev) as [[status data]|]; [|by simplify_eq].
    destruct (negb (status =? 200)); [by simplify_eq|].
    destruct (_ || _) eqn:Hg; simplify_eq; (split; [done|]); intros at_ [= <-]; (split; [|done]).
    + by right.
    + apply orb_false_iff in Hg as [_ Hg%negb_false_iff]. by apply String.eqb_eq.
  - assert (¬ refusing k) as Hnr by (intros (? & ? & E); congruence).
    destruct (intent_from_request (k_request k)) as [i|e] eqn:Ei.
    2: { unfold refused in Hst. destruct e; simplify_eq; (split; [done|]); intros at_ E; simplify_eq;
         (split; [by right|done]). }
    destruct (negb _). { simplify_eq. split; [done|]. by apply Hfail. }
    assert (accept_args_ok i (Keyed (k_scoped_key k)) = true) as Hargs.
    { unfold accept_args_ok. by rewrite (intent_from_request_valid _ _ Ei). }
    destruct (accept_stage _ _ _ _ _ _) as [[p|e] s1] eqn:Es; simplify_eq.
    + destruct (accept_stage_sound _ _ _ _ _ _ _ _ Hs Hargs Es) as [Hsnd Hpw]. split; [done|].
      intros at_ [= <-]. split; [|done]. unfold task_ok. simpl. split; [by apply Hpw|].
      unfold accept_stage in Es. destruct (closed s); [done|].
      destruct (finite_time _); [|done]. destruct (broker_job_id_for_key _) as [bid|] eqn:Eb; [|done].
      destruct (_ || _); simplify_eq. done.
    + destruct (accept_stage_sound _ _ _ _ _ _ _ _ Hs Hargs Es) as [Hsnd _]. split; [done|].
      by apply Hfail.
  - assert (¬ refusing k) as Hnr by (intros (? & ? & E); congruence).
    destruct Ht as (Hpw & Hkd & Hid & Hi & Hsha).
    destruct (accept_commit _ _ _) as [[r|e] s1] eqn:Ec; simplify_eq.
    + split; [by eapply accept_commit_sound|]. intros at_ [= <-]. split; [|done].
      destruct (commit_delivers _ _ _ _ _ Hs Hpw Hkd Ec) as (-> & rb & Hg & He & Hsh).
      unfold task_ok. simpl. split; [done|]. exists (p_intent p), rb. by split_and!; [| | |congruence].
    + split; [by eapply accept_commit_sound|]. by apply Hfail.
  - assert (¬ refusing k) as Hnr by (intros (? & ? & E); congruence).
    destruct (c_journal_fails ev); simplify_eq; split; try done. intros at_ [= <-]. split; [|done].
    left. split; [done|]. by exists id.
  - simplify_eq. done.
Qed.

Lemma step_submit_inv ev w k l1 l2 next s' j' :
  winv w → w.(w_tasks) = l1 ++ k :: l2 →
  submit_step ev k w.(w_broker).(st) w.(w_journal) = (next, s', j') →
  winv {| w_relay := w.(w_relay); w_broker := {| st := s'; inflight := w.(w_broker).(inflight) |};
          w_journal := j'; w_claimed := w.(w_claimed);
          w_tasks := l1 ++ match next with Next at_ => task_at k at_ :: l2 | _ => l2 end |}.
Proof using Hok.
  intros W Hw Hst. pose proof (units_app w l1 k l2 Hw) as Hu.
  assert (Hkin : k ∈ w.(w_tasks)) by (rewrite Hw; set_solver).
  destruct (submit_step_ok _ _ _ _ _ _ _ (proj1 (wi_broker _ W)) (wi_tasks _ W k Hkin) Hst)
    as [[Hwf Ha] Hnext].
  assert (Hrest : ∀ k0, k0 ∈ l1 ++ l2 → task_ok s' k0).
  { intros k0 Hk0. eapply task_ok_later; [exact Ha|]. apply (wi_tasks _ W). rewrite Hw. set_solver. }
  pose proof (wi_unique _ W) as Hn. rewrite Hu in Hn. csimpl in Hn.
  assert (Hdrop : winv {| w_relay := w.(w_relay); w_broker := {| st := s'; inflight := w.(w_broker).(inflight) |};
     w_journal := j'; w_claimed := w.(w_claimed); w_tasks := l1 ++ l2 |}).
  { apply winv_tasks; try done; [split; [done|apply W]|..]; unfold units; simpl.
    - by apply NoDup_cons in Hn as [_ Hn].
    - intros k0 Hk0. apply (wi_known _ W). rewrite Hu. by right.
    - intros k0 Hk0 Hnr. exists k0. split_and!; try done. rewrite Hu. by right. }
  destruct next as [at_| |]; [|done..]. destruct (Hnext at_ eq_refl) as [Hk' Hnr].
  assert (Hu' : ∀ x, omap task_of w.(w_claimed) ++ l1 ++ x :: l2 ≡ₚ x :: omap task_of w.(w_claimed) ++ l1 ++ l2).
  { intros x. by rewrite <- Permutation_middle, <- Permutation_middle. }
  apply winv_tasks; try done; [split; [done|apply W]|..]; unfold units; simpl.
  - by rewrite Hu'.
  - intros k0. rewrite Hu'. intros [->|Hk0]%elem_of_cons.
    + apply (wi_known _ W k). unfold units. rewrite Hw. set_solver.
    + apply (wi_known _ W). rewrite Hu. by right.
  - intros k0. rewrite <- Permutation_middle. intros [->|Hk0]%elem_of_cons; [done|by apply Hrest].
  - intros k0. rewrite Hu'. intros [->|Hk0]%elem_of_cons Hnr0.
    + exists k. split_and!; try done. rewrite Hu. by left.
    + exists k0. split_and!; try done. rewrite Hu. by right.
Qed.

(** Steps that only move the gateway, by an order that keeps what the broker
    and the connector know. *)
Lemma winv_gateway w s' claimed' :
  winv w → keyed s' →
  let w' := {| w_relay := s'; w_broker := w.(w_broker); w_journal := w.(w_journal);
               w_claimed := claimed'; w_tasks := w.(w_tasks) |} in
  NoDup (unit_key <$> units w') →
  (∀ k, k ∈ units w' → known s' k) →
  (∀ id r', s'.(r_jobs) !! id = Some (JobFile r') → record_ok w.(w_broker).(st) (units w') r') →
  winv w'.
Proof. intros [Wb Wk Wn Wu Wt Wr] Hk w' Hnd Hkn Hrec. by split. Qed.

(** An item stays known while its record keeps its identity and epoch. *)
Lemma known_later (O : record_order) s s' k :
  (∀ r r', ro_rel O r r' → r.(g_epoch) <= r'.(g_epoch)) → jobs_by O s s' → known s k → known s' k.
Proof.
  intros Hep Hle (r & Hr & E1 & E2 & E3 & E4). specialize (Hle (k_job_id k)). rewrite Hr in Hle.
  destruct Hle as (r' & Hr' & Hm). pose proof (ro_identity O _ _ Hm) as Hid.
  unfold identity, owner in Hid. specialize (Hep _ _ Hm).
  exists r'. split_and!; try congruence || lia.
Qed.

Lemma calm_epoch r r' : calm_moves r r' → r.(g_epoch) <= r'.(g_epoch).
Proof. intros [_ [E|[_ E]]]; unfold transfer_key in E; injection E as _ -> _; lia. Qed.

Lemma claiming_epoch r r' : claiming_moves r r' → r.(g_epoch) <= r'.(g_epoch).
Proof. intros [_ [E|(_ & _ & ? & _)]]; [unfold transfer_key in E; injection E as _ -> _|]; lia. Qed.

Lemma record_ok_same s ks r r' :
  identity r' = identity r → transfer_key r' = transfer_key r → record_ok s ks r → record_ok s ks r'.
Proof.
  unfold identity, owner, transfer_key, record_ok. intros Hid [= -> He Hb].
  assert (g_job_id r' = g_job_id r ∧ g_scoped_key r' = g_scoped_key r ∧ g_request r' = g_request r
          ∧ g_upload_sha256 r' = g_upload_sha256 r) as (-> & -> & -> & ->) by (split_and!; congruence).
  by rewrite He, Hb.
Qed.

Lemma step_call_inv ev c w :
  winv w → other_call c = true →
  winv {| w_relay := (run_call ev c w.(w_relay)).2; w_broker := w.(w_broker); w_journal := w.(w_journal);
          w_claimed := w.(w_claimed); w_tasks := w.(w_tasks) |}.
Proof.
  intros W Hc. destruct (other_call_calm ev c Hc w.(w_relay) (wi_keyed _ W)) as [Hk Hle].
  set (s' := (run_call ev c (w_relay w)).2) in *. apply winv_gateway; try done; try apply W.
  - intros k Hkin. eapply (known_later calm_order); [apply calm_epoch|done|]. by apply (wi_known _ W).
  - intros id r' Hr'. specialize (Hle id). rewrite Hr' in Hle. change (units _) with (units w).
    destruct (r_jobs (w_relay w) !! id) as [[r|]|] eqn:Er; [|done|].
    + destruct Hle as (r1 & [= <-] & [Hid Hm]). pose proof (wi_records _ W id r Er) as Hrec.
      destruct Hm as [Hm|[Hq Hm]]; [by eapply record_ok_same|].
      unfold record_ok in Hrec |- *. rewrite Hq in Hrec. unfold transfer_key in Hm. injection Hm as -> -> _. done.
    + destruct Hle as (r0 & r1 & [= <-] & Hf & [Hid Hm]). destruct Hf as (_ & Hq & He & _).
      unfold record_ok. unfold transfer_key in Hm.
      destruct Hm as [Hm|[_ Hm]]; injection Hm as -> -> _; by rewrite ?Hq.
Qed.

(** The submissions of a claim. *)
Lemma claim_items_known ev project max spool s :
  keyed s →
  (∀ id r, s.(r_jobs) !! id = Some (JobFile r) → CLAIMABLE r.(g_transfer) = true → 0 <= r.(g_epoch)) →
  let out := claim ev project max spool s in
  ∀ k, k ∈ omap task_of (handed_out out.1) →
    known out.2 k ∧ epoch_at s KSubmit k.(k_job_id) < k.(k_epoch)
    ∧ (KSubmit, k.(k_job_id), k.(k_epoch)) ∈ tag <$> handed_out out.1 ∧ k.(k_at) = AtDownload.
Proof.
  intros Hs Hpos out k Hk. pose proof (claim_rounds ev project max spool s Hs) as Hr. unfold post in Hr. fold out in Hr.
  apply list_elem_of_omap in Hk as (i & Hi & Hk). destruct out as [[items|e] s']; [|by apply elem_of_nil in Hi].
  simpl in *. destruct Hr as (Hle & _ & _ & s1 & s2 & c1 & c2 & c3 & Hrun).
  destruct (claim_tags _ _ _ _ _ _ _ _ _ _ _ _ Hrun) as [_ Htags].
  destruct i as [e j key req up sha size| |]; simpl in Hk; simplify_eq. simpl.
  assert (Htag : (KSubmit, j, e) ∈ tag <$> items) by by apply (list_elem_of_fmap_2 tag _ _ Hi).
  destruct (Htags _ _ _ Htag) as [Hlt He]. apply Z.eq_le_incl in He. split_and!; try done.
  destruct Hrun as [R1 R2 R3 -> _ _ _].
  assert (Hin : SubmitItem e j key req up sha size ∈ mjoin (map (item_of (pick_submit ev project)) c1)).
  { apply elem_of_app in Hi as [Hi|[Hi|Hi]%elem_of_app]; [done| |]; exfalso.
    - destruct (round_elem _ _ _ _ _ _ (pick_cancel_ok _ _) R2 Hi) as (r & n & r' & _ & E & _).
      pose proof (pick_tag _ _ (pick_cancel_ok ev project) _ _ _ _ E). done.
    - destruct (round_elem _ _ _ _ _ _ (pick_collect_ok _ _) R3 Hi) as (r & n & r' & _ & E & _).
      pose proof (pick_tag _ _ (pick_collect_ok ev project) _ _ _ _ E). done. }
  destruct (round_elem _ _ _ _ _ _ (pick_submit_ok _ _) R1 Hin) as (r & n & r' & _ & E & Hr).
  simpl in Hr. unfold pick_submit in E. destruct (submit_due _ _ _) eqn:Hdue; [|done].
  unfold submit_item in E. simplify_eq/=.
  match goal with E : SubmitItem _ _ _ _ _ _ _ = _ |- _ => injection E as <- <- <- <- <- <- <- end.
  unfold submit_due in Hdue. rewrite !andb_true_iff, !negb_true_iff, orb_false_iff, !negb_false_iff in Hdue.
  destruct Hdue as [[[_ Hcl] _] _]. specialize (Hpos _ _ Hr Hcl).
  destruct (Hle Hs) as [_ Hj]. specialize (Hj (g_job_id r)). simpl in Hj. rewrite Hr in Hj.
  destruct Hj as (r' & Hr' & Hev). pose proof (re_identity _ _ Hev) as Hid. unfold identity, owner in Hid.
  simpl in *. unfold epoch_at in He. rewrite Hr' in He. simpl in He.
  exists r'. split_and!; simpl; try done; try congruence; lia.
Qed.

Lemma step_claim_inv ev project max spool w :
  winv w →
  let out := claim ev project max spool w.(w_relay) in
  winv {| w_relay := out.2; w_broker := w.(w_broker); w_journal := w.(w_journal);
          w_claimed := handed_out out.1 ++ w.(w_claimed); w_tasks := w.(w_tasks) |}.
Proof.
  intros W out. set (s := w_relay w) in *. pose proof (wi_keyed _ W) as Hs. fold s in Hs.
  destruct (claim_claiming ev project max spool s Hs Hs) as [Hk Hle]. fold out in Hk, Hle.
  assert (Hpos : ∀ id r, s.(r_jobs) !! id = Some (JobFile r) → CLAIMABLE r.(g_transfer) = true → 0 <= r.(g_epoch)).
  { intros id r Hr Hc. pose proof (wi_records _ W id r Hr) as Hrec. unfold record_ok in Hrec.
    destruct (g_transfer r); simpl in *; try done; lia. }
  pose proof (claim_items_known ev project max spool s Hs Hpos) as Hnew. simpl in Hnew. fold out in Hnew.
  assert (Hold : ∀ k, k ∈ units w → known out.2 k ∧ k.(k_epoch) <= epoch_at s KSubmit k.(k_job_id)).
  { intros k Hkin. pose proof (wi_known _ W k Hkin) as Hkn. split.
    - eapply (known_later claiming_order); [apply claiming_epoch|exact Hle|done].
    - destruct Hkn as (r & Hr & _ & _ & _ & ?). unfold epoch_at, s. rewrite Hr. simpl. lia. }
  assert (Hu : units {| w_relay := out.2; w_broker := w.(w_broker); w_journal := w.(w_journal);
                        w_claimed := handed_out out.1 ++ w.(w_claimed); w_tasks := w.(w_tasks) |}
               = omap task_of (handed_out out.1) ++ units w).
  { unfold units. simpl. by rewrite omap_app, app_assoc. }
  apply winv_gateway; [done|done|..]; rewrite Hu.
  - rewrite fmap_app. apply NoDup_app. split_and!; [| |apply W].
    + assert (NoDup (tag <$> handed_out out.1)) as Hn.
      { apply (run_call_tags ev (CallClaim project max spool) s Hs). }
      clear -Hn. induction (handed_out out.1) as [|i l IH]; [constructor|]. csimpl in Hn.
      apply NoDup_cons in Hn as [Hni Hn]. csimpl. destruct (task_of i) as [k|] eqn:Hk; [|auto].
      csimpl. apply NoDup_cons. split; [|auto].
      intros (k' & Ek & (i' & Hi' & Hk')%list_elem_of_omap)%list_elem_of_fmap. apply Hni.
      apply list_elem_of_fmap. exists i'. split; [|done].
      unfold unit_key in Ek. destruct i, i'; simplify_eq/=. congruence.
    + intros key (k & -> & Hkin)%list_elem_of_fmap (k' & Ek & Hkin')%list_elem_of_fmap.
      destruct (Hnew k Hkin) as (_ & Hlt & _). destruct (Hold k' Hkin') as [_ Hge].
      unfold unit_key in Ek. injection Ek as Ej Ee. rewrite Ej, Ee in Hlt. lia.
  - intros k [Hkin|Hkin]%elem_of_app; [by apply Hnew|by apply Hold].
  - intros id r' Hr'. specialize (Hle id). rewrite Hr' in Hle.
    destruct (r_jobs s !! id) as [[r|]|] eqn:Er; [|done|].
    + destruct Hle as (r1 & [= <-] & [Hid Hm]). pose proof (wi_records _ W id r Er) as Hrec.
      destruct Hm as [Hm|(Hcl & Hst & Hlt & _)].
      * apply (record_ok_same _ _ r); [done|done|].
        unfold record_ok in Hrec |- *. destruct (g_transfer r); try done.
        intros k [Hkin|Hkin]%elem_of_app Hkey; [|by apply Hrec]. exfalso.
        destruct (Hnew k Hkin) as (Hkn & Hlt & _). unfold unit_key in Hkey. injection Hkey as Ej Ee.
        rewrite Ej, Ee in Hlt. unfold epoch_at in Hlt.
        rewrite (proj1 (Hs _ _ Er)), Er in Hlt. simpl in Hlt. lia.
      * unfold record_ok. rewrite Hst. pose proof (Hpos _ _ Er Hcl). lia.
    + destruct Hle as (r0 & r1 & [= <-] & Hf & [Hid Hm]). destruct Hf as (_ & Hq & He & _).
      unfold record_ok. unfold transfer_key in Hm.
      destruct Hm as [Hm|(_ & -> & ? & _)]; [injection Hm as -> -> _; by rewrite Hq|lia].
Qed.

(** ** Acknowledging *)

(** What an acknowledgement of a submission does to the store. *)
Lemma ack_submit_cases ev project j epoch outcome id why m s :
  let out := ack ev project (item_id KSubmit j) epoch outcome id why m s in
  out.2 = s
  ∨ ∃ r r', s.(r_jobs) !! j = Some (JobFile r) ∧ epoch = r.(g_epoch)
      ∧ r.(g_transfer) ≠ TRANSFER_ACCEPTED ∧ identity r' = identity r
      ∧ out.2 = set_jobs s (<[r'.(g_job_id) := JobFile r']> s.(r_jobs))
      ∧ ((outcome = "accepted" ∧ transfer_key r' = (TRANSFER_ACCEPTED, r.(g_epoch), id))
         ∨ (outcome = "refused" ∧ transfer_key r' = (TRANSFER_REFUSED, r.(g_epoch), r.(g_broker_job_id)))
         ∨ outcome = "uncertain").
Proof.
  unfold ack. rewrite partition_item_id, item_kind_text. unfold bind, relay_find.
  destruct (GW_JOB_RE j); [|by left].
  destruct (relay_read_cases j s) as [->|[[err ->]|(r & -> & Hr)]]; [by left..|].
  destruct (negb _); [by left|]. unfold ack_submit.
  destruct (Z.eqb_spec epoch (g_epoch r)) as [->|]; cbn [negb]; [|by left].
  case_bool_decide as Ha; [by left; case_match|].
  assert (Hw : ∀ r', identity r' = identity r →
    ((outcome = "accepted" ∧ transfer_key r' = (TRANSFER_ACCEPTED, r.(g_epoch), id))
     ∨ (outcome = "refused" ∧ transfer_key r' = (TRANSFER_REFUSED, r.(g_epoch), r.(g_broker_job_id)))
     ∨ outcome = "uncertain") →
    let out := bind (ret r') (λ record, bind (relay_write ev record) (λ _, ret record)) s in
    out.2 = s ∨ ∃ r0 r', s.(r_jobs) !! j = Some (JobFile r0) ∧ g_epoch r = r0.(g_epoch)
      ∧ r0.(g_transfer) ≠ TRANSFER_ACCEPTED ∧ identity r' = identity r0
      ∧ out.2 = set_jobs s (<[r'.(g_job_id) := JobFile r']> s.(r_jobs))
      ∧ ((outcome = "accepted" ∧ transfer_key r' = (TRANSFER_ACCEPTED, r0.(g_epoch), id))
         ∨ (outcome = "refused" ∧ transfer_key r' = (TRANSFER_REFUSED, r0.(g_epoch), r0.(g_broker_job_id)))
         ∨ outcome = "uncertain")).
  { intros r' Hid Hcase. unfold bind, ret, relay_write. destruct (negb _); [by left|].
    destruct (e_write_fails _ _); [by left|]. right. exists r, r'. by split_and!. }
  destruct (String.eqb_spec outcome "accepted") as [->|]; [|destruct (String.eqb_spec outcome "refused") as [->|];
    [|destruct (String.eqb_spec outcome "uncertain") as [->|]; [|by left]]].
  - destruct (_ || _); [by left|]. apply Hw; [done|]. by left.
  - apply Hw; [done|]. right. by left.
  - apply Hw; [done|]. by right; right.
Qed.

(** What the acknowledgement of a task in hand does. *)
Lemma task_ack_cases ev project w k :
  winv w → k ∈ w.(w_tasks) →
  let s := w.(w_relay) in
  let s' := (submit_ack ev project k s).2 in
  s' = s
  ∨ ∃ r r', s.(r_jobs) !! k.(k_job_id) = Some (JobFile r) ∧ k.(k_epoch) = r.(g_epoch)
      ∧ r.(g_job_id) = k.(k_job_id)
      ∧ r.(g_transfer) ≠ TRANSFER_ACCEPTED ∧ identity r' = identity r
      ∧ s' = set_jobs s (<[r.(g_job_id) := JobFile r']> s.(r_jobs))
      ∧ ((∃ b, transfer_key r' = (TRANSFER_ACCEPTED, r.(g_epoch), Some b)
               ∧ delivered w.(w_broker).(st) k.(k_scoped_key) k.(k_request) k.(k_sha256) b ∧ ¬ refusing k)
         ∨ (refusing k ∧ transfer_key r' = (TRANSFER_REFUSED, r.(g_epoch), r.(g_broker_job_id)))).
Proof.
  intros W Hk s s'. subst s'. unfold submit_ack. pose proof (wi_tasks _ W k Hk) as Ht. unfold task_ok in Ht.
  destruct (k_at k) as [| | | |o i y] eqn:Ek; [by left..|].
  destruct (ack_submit_cases ev project (k_job_id k) (k_epoch k) o i y JNull s)
    as [E|(r & r' & Hr & He & Hna & Hid & E & Hcase)]; [by left|].
  right. exists r, r'. pose proof Hid as Hid'. unfold identity in Hid'.
  assert (g_job_id r' = g_job_id r) as Ej by congruence. rewrite Ej in E.
  split_and!; try done; [by apply (wi_keyed _ W _ r)|].
  destruct Hcase as [[-> Hc]|[[-> Hc]|Hc]].
  - destruct Ht as [(_ & b & -> & Hd)|[? _]]; [|done]. left. exists b. split_and!; try done.
    intros (? & ? & E'). congruence.
  - right. split; [by exists i, y|done].
  - destruct Ht as [(? & _)|[? _]]; congruence.
Qed.

Lemma lookup_put s id r' id0 :
  (set_jobs s (<[id := JobFile r']> s.(r_jobs))).(r_jobs) !! id0
  = if decide (id0 = id) then Some (JobFile r') else s.(r_jobs) !! id0.
Proof.
  simpl. destruct (decide (id0 = id)) as [->|Hne]; [by rewrite lookup_insert_eq|by rewrite lookup_insert_ne].
Qed.

Lemma step_ack_inv ev project k w :
  winv w → k ∈ w.(w_tasks) →
  winv {| w_relay := (submit_ack ev project k w.(w_relay)).2; w_broker := w.(w_broker);
          w_journal := w.(w_journal); w_claimed := w.(w_claimed); w_tasks := w.(w_tasks) |}.
Proof.
  intros W Hk. destruct (task_ack_cases ev project w k W Hk)
    as [E|(r & r' & Hr & He & Hj & Hna & Hid & E & Hcase)]; rewrite E; [by destruct w|].
  pose proof Hid as Hid'. unfold identity, owner in Hid'.
  assert (Hep : g_epoch r' = g_epoch r).
  { unfold transfer_key in Hcase. destruct Hcase as [(b & Hc & _)|[_ Hc]]; congruence. }
  assert (Hin : k ∈ units w) by (unfold units; set_solver).
  apply winv_gateway; [done|..].
  - intros id r0. rewrite lookup_put. case_decide as Eid; [|apply W]. intros [= <-]. subst id.
    split; [congruence|]. rewrite Hj. by apply (wi_keyed _ W _ r).
  - apply W.
  - intros k0 Hk0. change (units _) with (units w) in Hk0.
    destruct (wi_known _ W k0 Hk0) as (r0 & Hr0 & E1 & E2 & E3 & E4). unfold known.
    rewrite lookup_put. case_decide as Eid; [|by exists r0].
    rewrite <- Hj in Hr. rewrite Eid, Hr in Hr0. injection Hr0 as <-. exists r'.
    split_and!; congruence || lia.
  - intros id r0. rewrite lookup_put. change (units _) with (units w). case_decide as Eid; [|apply W].
    intros [= <-]. subst id. unfold record_ok.
    destruct (wi_known _ W k Hin) as (r1 & Hr1 & E1 & E2 & E3 & E4). rewrite Hr in Hr1. injection Hr1 as <-.
    destruct Hcase as [(b & Hc & Hd & _)|[Href Hc]]; unfold transfer_key in Hc; injection Hc as -> _ Hb.
    + exists b. split; [done|].
      assert (g_scoped_key r' = k_scoped_key k) as -> by congruence.
      assert (g_request r' = k_request k) as -> by congruence.
      assert (g_upload_sha256 r' = k_sha256 k) as -> by congruence. done.
    + intros k0 Hk0 Hkey. assert (k0 = k) as ->; [|done].
      assert (unit_key k0 = unit_key k) as Ekey.
      { rewrite Hkey. unfold unit_key. congruence. }
      clear -Hk0 Hin Ekey W. pose proof (wi_unique _ W) as Hn. revert Hn Hk0 Hin.
      induction (units w) as [|x l IH]; [by intros _ ?%elem_of_nil|]. csimpl.
      intros [Hni Hn]%NoDup_cons [->|Ha]%elem_of_cons [->|Hb]%elem_of_cons; try done; [..|by apply IH];
        exfalso; apply Hni; [rewrite Ekey|rewrite <- Ekey]; by apply list_elem_of_fmap_2.
Qed.

Lemma relay_step_inv w w' : winv w → relay_step w w' → winv w'.
Proof using Hok.
  intros W Hst. destruct Hst as [ev c w Hc|ev project max spool w out|i k l1 l2 w Hw Hk
    |ev k l1 l2 w next s' j' Hw Hs|ev project k l1 l2 w Hw|k l1 l2 w Hw|w b' Hb].
  - by apply step_call_inv.
  - by apply step_claim_inv.
  - by eapply step_start_inv.
  - by eapply step_submit_inv.
  - apply step_ack_inv; [done|]. rewrite Hw. set_solver.
  - by eapply step_crash_inv.
  - by apply step_broker_inv.
Qed.

Lemma reachable_inv w : relay_reachable w → winv w.
Proof using Hok.
  intros Hr. unfold relay_reachable in Hr. generalize winv_initial. revert Hr. generalize empty_world.
  induction 1; eauto using relay_step_inv.
Qed.


Definition verdict (t : transfer_state) : bool :=
  match t with TRANSFER_ACCEPTED | TRANSFER_REFUSED | TRANSFER_CANCELLED => true | _ => false end.

Lemma step_verdict w w' id r :
  winv w → relay_step w w' → w.(w_relay).(r_jobs) !! id = Some (JobFile r) →
  verdict r.(g_transfer) = true →
  ∃ r', w'.(w_relay).(r_jobs) !! id = Some (JobFile r') ∧ transfer_key r' = transfer_key r.
Proof.
  intros W Hst Hr Hv. destruct Hst as [ev c w Hc|ev project max spool w out|i k l1 l2 w Hw Hk
    |ev k l1 l2 w next s' j' Hw Hs|ev project k l1 l2 w Hw|k l1 l2 w Hw|w b' Hb]; simpl; try by exists r.
  - destruct (other_call_calm ev c Hc w.(w_relay) (wi_keyed _ W)) as [_ Hle]. specialize (Hle id).
    rewrite Hr in Hle. destruct Hle as (r' & Hr' & [_ [Hm|[Hq _]]]); [by exists r'|].
    by rewrite Hq in Hv.
  - pose proof (wi_keyed _ W) as Hs. destruct (claim_claiming ev project max spool _ Hs Hs) as [_ Hle].
    specialize (Hle id). rewrite Hr in Hle. destruct Hle as (r' & Hr' & [_ [Hm|(Hcl & _)]]); [by exists r'|].
    by destruct (g_transfer r).
  - assert (Hk : k ∈ w.(w_tasks)) by (rewrite Hw; set_solver).
    destruct (task_ack_cases ev project w k W Hk)
      as [E|(r0 & r' & Hr0 & He & Hj & Hna & Hid & E & Hcase)]; rewrite E; [by exists r|].
    rewrite lookup_put. case_decide as Eid; [|by exists r].
    subst id. rewrite Hj, Hr0 in Hr. injection Hr as <-. exists r'. split; [done|].
    pose proof (wi_records _ W _ _ Hr0) as Hrec. unfold record_ok in Hrec.
    assert (Hin : k ∈ units w) by (unfold units; set_solver).
    destruct (wi_known _ W k Hin) as (r1 & Hr1 & _ & _ & _ & Hpos).
    destruct (g_transfer r0) eqn:Et; try done; [|lia].
    assert (refusing k) as Href by (apply Hrec; [done|unfold unit_key; congruence]).
    destruct Hcase as [(b & _ & _ & Hnr)|[_ Hc]]; [done|]. rewrite Hc. unfold transfer_key. by rewrite Et.
Qed.

Lemma steps_verdict w w' id r :
  winv w → rtc relay_step w w' → w.(w_relay).(r_jobs) !! id = Some (JobFile r) →
  verdict r.(g_transfer) = true →
  winv w' ∧ ∃ r', w'.(w_relay).(r_jobs) !! id = Some (JobFile r') ∧ transfer_key r' = transfer_key r.
Proof using Hok.
  intros W Hs. revert r. induction Hs as [w|w1 w2 w3 H12 _ IH]; intros r Hr Hv; [by split; [|exists r]|].
  destruct (step_verdict _ _ _ _ W H12 Hr Hv) as (r2 & Hr2 & E2).
  destruct (IH (relay_step_inv _ _ W H12) r2 Hr2) as [W3 (r3 & Hr3 & E3)].
  - unfold transfer_key in E2. by injection E2 as -> _ _.
  - split; [done|]. exists r3. split; [done|congruence].
Qed.

(** C9: a relay job's verdict is final: once accepted, refused or cancelled it
    stays so, under the same broker job, whatever the clients ask, however
    often acknowledgements are repeated and items claimed again; and no
    submission of a cancelled job is ever in a connector's hands. *)
Theorem relay_verdicts_final w w' id r :
  relay_reachable w → rtc relay_step w w' →
  w.(w_relay).(r_jobs) !! id = Some (JobFile r) → verdict r.(g_transfer) = true →
  (∃ r', w'.(w_relay).(r_jobs) !! id = Some (JobFile r')
         ∧ r'.(g_transfer) = r.(g_transfer) ∧ r'.(g_broker_job_id) = r.(g_broker_job_id))
  ∧ (r.(g_transfer) = TRANSFER_CANCELLED → ∀ k, k ∈ units w' → k.(k_job_id) ≠ id).
Proof using Hok.
  intros Hw%reachable_inv Hs Hr Hv. destruct (steps_verdict _ _ _ _ Hw Hs Hr Hv) as [W' (r' & Hr' & E)].
  unfold transfer_key in E. injection E as Et Ee Eb. split; [by exists r'|].
  intros Hc k Hk Hid. destruct (wi_known _ W' k Hk) as (r1 & Hr1 & _ & _ & _ & Hpos).
  rewrite Hid, Hr' in Hr1. injection Hr1 as <-. pose proof (wi_records _ W' _ _ Hr') as Hrec.
  unfold record_ok in Hrec. rewrite Et, Hc in Hrec. lia.
Qed.

(** The request a relay job carries is exactly the intent the client
    submitted: reading back the printed request gives the intent, for every
    intent the gateway can make (the fields it does not let a client set at
    their defaults). *)
Theorem relay_request_roundtrip i :
  intent_valid i = true → i.(i_priority) = 0 → i.(i_auto_resume) = false → i.(i_retry) = 0 →
  i.(i_clean_workdir_on_terminal) = false → i.(i_rerun_until_file_exists) = None →
  i.(i_rerun_max) = 10 → i.(i_pool) = None →
  intent_from_request (intent_request i) = Ok i.
Proof.
  intros Hv E1 E2 E3 E4 E5 E6 E7. unfold intent_from_request.
  assert (Hstrs : ∀ l, mapM_res str_item (map JStr l) = Ok l).
  { induction l as [|x l IH]; simpl; [done|by rewrite IH]. }
  assert (Hint : ∀ o, opt_int_of (jopt JInt o) = Ok o) by by intros [].
  assert (Hstr : ∀ o, opt_str_of (jopt JStr o) = Ok o) by by intros [].
  assert (Hnum : ∀ n, num_of (jnum n) = Ok n) by by intros [].
  destruct i as [command cpus mem wall pr ar retry name prog sha tags clean rerun rmax pool runtime].
  cbn [i_priority i_auto_resume i_retry i_clean_workdir_on_terminal i_rerun_until_file_exists i_rerun_max i_pool] in *.
  subst. unfold intent_request, item_at, jget. cbn -[mapM_res intent_valid].
  assert (Htags : (if negb (bool_decide (length (map JStr tags) = 0%nat)) then Ok (map JStr tags) else Ok [])
                  = Ok (E := request_error) (map JStr tags)).
  { destruct tags; [done|]. by rewrite bool_decide_eq_false_2. }
  rewrite Htags, !Hstrs. rewrite Hint, !Hstr.
  destruct runtime as [[low high]|]; cbn -[mapM_res intent_valid]; rewrite ?Hnum; rewrite Hv; done.
Qed.
End with_hashing.
