(* ===== verification/RelayWitnesses.v ===== *)
(** * A small relay

    One submission taken through the gateway, a connector and a broker, on the
    checksum and printer of the broker's examples: the hypotheses of the relay
    theorems hold in it, and it shows two behaviours the documentation does
    not expect. *)

From S2P Require Import Prelude Spec Overview Json BrokerRecord BrokerStore BrokerLifecycle BrokerGuarantees BrokerWitnesses Relay RelayOps RelayLogic RelayGuarantees RelayResults GatewayKeys CredentialGuarantees Connector ConnectorGuarantees.

#[global] Instance toy_text : TextForms := {| dumps_sorted := toy_json; str_other := toy_json |}.
#[global] Instance toy_hmac : Keyed_hash := {| hmac_hex pepper secret := pepper +:+ ":" +:+ secret |}.

Lemma toy_hmac_inj pepper a b : hmac_hex pepper a = hmac_hex pepper b → a = b.
Proof. intros E. do 2 apply string_app_inj_l in E. done. Qed.

(** ** Calls on the store *)

Definition gw_intent : BrokerIntent :=
  {| i_command := ["python"; "run.py"]; i_cpus := 4; i_mem_mb := 2000;
     i_wall_time_seconds := Some 3600; i_priority := 0; i_auto_resume := false; i_retry := 0;
     i_job_name := Some "h2o"; i_program := Some "orca"; i_expected_sha := None; i_tags := ["a"; "b"];
     i_clean_workdir_on_terminal := false; i_rerun_until_file_exists := None; i_rerun_max := 10;
     i_pool := None; i_runtime_seconds := None |}.

Definition gw_upload : upload_ref := {| u_id := "up-1"; u_sha256 := toy_sha "archive"; u_size := 7 |}.

Definition second (n : Z) : genv := quiet_at (n * MICROS).

Definition gw_submit : relay_call :=
  CallSubmit "alice" "chem" "k1" "gw-1" (intent_request gw_intent) gw_upload.

Definition gw_id : string := Eval vm_compute in gateway_job_id "gw-1".
Definition gw_broker_id : string := Eval vm_compute in
  match broker_job_id_for_key "gw-1" with Ok id => id | Err _ => "" end.

Definition submitted : list (genv * relay_call) := [(second 0, gw_submit)].

(** Claimed, lost, claimed again after the lease. *)
Definition reclaimed : list (genv * relay_call) :=
  submitted ++ [(second 1, CallClaim "chem" 10 None); (second 60, CallClaim "chem" 10 None);
                (second 200, CallClaim "chem" 10 None)].

Definition manifest_of (data : string) : json :=
  JObj [("files", JList [JObj [("path", JStr "out/log.txt"); ("size", JInt (str_len data));
                               ("sha256", JStr (toy_sha data))]]);
        ("target_state", JStr "done")].

(** Accepted, collected and acknowledged. *)
Definition collected : list (genv * relay_call) :=
  reclaimed
  ++ [(second 201, CallAck "chem" (item_id KSubmit gw_id) 2 "accepted" (Some gw_broker_id) None JNull);
      (second 210, CallRequestResults gw_id "alice" "chem" 100);
      (second 211, CallClaim "chem" 10 (Some 1000));
      (second 212, CallPush "chem" gw_id "out/log.txt" 0 "hello ");
      (second 213, CallPush "chem" gw_id "out/./log.txt" 6 "world");
      (second 214, CallAck "chem" (item_id KCollect gw_id) 1 "collected" None None (manifest_of "hello world"))].

Definition record_in (calls : list (genv * relay_call)) : RelayRecord :=
  match (run_calls calls empty_relay).2.(r_jobs) !! gw_id with
  | Some (JobFile r) => r
  | _ => admitted_record "" "" "" "" [] gw_upload 0
  end.

Example handed_out_tags :
  tag <$> (run_calls reclaimed empty_relay).1 = [(KSubmit, gw_id, 1); (KSubmit, gw_id, 2)].
Proof. vm_compute. reflexivity. Qed.

Example collected_state :
  (λ c, cl_state c) <$> (record_in collected).(g_collect) = Some COLLECT_DONE.
Proof. vm_compute. reflexivity. Qed.

Lemma record_in_submitted :
  (run_calls submitted empty_relay).2.(r_jobs) !! gw_id = Some (JobFile (record_in submitted)).
Proof. vm_compute. reflexivity. Qed.

Lemma relay_history_permanent_witness :
  ∃ r', (run_calls [(second 5, CallRequestCancel gw_id "alice" "chem" "stop")]
           (run_calls submitted empty_relay).2).2.(r_jobs) !! gw_id = Some (JobFile r')
        ∧ relay_evolves (record_in submitted) r'.
Proof. apply relay_history_permanent. exact record_in_submitted. Defined.


Lemma relay_replay_witness :
  ∃ r', relay_admit (second 9) "alice" "chem" "k2" "gw-1" (intent_request gw_intent) gw_upload
          (run_calls [] (run_calls submitted empty_relay).2).2
        = (Ok (r', true), (run_calls [] (run_calls submitted empty_relay).2).2).
Proof.
  destruct (relay_replay (second 9) "alice" "chem" "k2" "gw-1" (intent_request gw_intent) gw_upload
              submitted [] (record_in submitted)) as [(r' & Hr & _) _].
  - exact record_in_submitted.
  - vm_compute. reflexivity.
  - vm_compute. reflexivity.
  - vm_compute. reflexivity.
  - exists r'. exact Hr.
Defined.

Lemma claim_exact_witness :
  (claim (quiet_at MICROS) "chem" 10 None (run_calls submitted empty_relay).2).1
  = Ok (take 10 (due_items (quiet_at MICROS) "chem" (run_calls submitted empty_relay).2)).
Proof. apply (claim_exact MICROS "chem" 10). apply reachable_keyed. Defined.

Lemma claim_within_limits_witness :
  ∃ items s', claim (second 1) "chem" 10 (Some 1000) (run_calls submitted empty_relay).2 = (Ok items, s')
              ∧ sumZ item_need items <= 1000.
Proof.
  destruct (claim (second 1) "chem" 10 (Some 1000) (run_calls submitted empty_relay).2) as [out s'] eqn:E.
  assert (Ho : is_ok out = true).
  { change out with (out, s').1. rewrite <- E. vm_compute. reflexivity. }
  destruct out as [items|e]; [|discriminate Ho]. exists items, s'. split; [reflexivity|].
  destruct (claim_within_limits (second 1) "chem" 10 (Some 1000) _ items s'
              (reachable_keyed submitted) E) as (_ & Hs & _).
  apply Hs; [reflexivity|lia].
Defined.

Lemma collected_results_verified_witness :
  verified gw_id (results_of (run_calls collected empty_relay).2 gw_id).
Proof.
  assert (Hr : (run_calls collected empty_relay).2.(r_jobs) !! gw_id = Some (JobFile (record_in collected)))
    by (vm_compute; reflexivity).
  destruct (g_collect (record_in collected)) as [c|] eqn:Hc; [|vm_compute in Hc; discriminate Hc].
  destruct (collected_results_verified collected gw_id (record_in collected) c Hr Hc) as [Hd _].
  assert (Hst : (λ c, cl_state c) <$> Some c = Some COLLECT_DONE) by (rewrite <- Hc; exact collected_state).
  injection Hst as Hst. exact (proj1 (Hd Hst)).
Defined.

Lemma relay_request_roundtrip_witness :
  intent_from_request (intent_request gw_intent) = Ok gw_intent.
Proof. apply relay_request_roundtrip; vm_compute; reflexivity. Defined.

(** ** The whole relay *)

Inductive move : Type :=
| MCall (ev : genv) (c : relay_call)
| MClaim (ev : genv)
| MStart
| MSubmit (ev : cenv)
| MAck (ev : genv)
| MCrash.

Definition with_relay (w : world) (s : relay) : world :=
  {| w_relay := s; w_broker := w.(w_broker); w_journal := w.(w_journal);
     w_claimed := w.(w_claimed); w_tasks := w.(w_tasks) |}.

(** One step; the connector works on its first item. *)
Definition do_move (w : world) (m : move) : world :=
  match m with
  | MCall ev c => if other_call c then with_relay w (run_call ev c w.(w_relay)).2 else w
  | MClaim ev =>
    let out := claim ev "chem" 10 None w.(w_relay) in
    {| w_relay := out.2; w_broker := w.(w_broker); w_journal := w.(w_journal);
       w_claimed := handed_out out.1 ++ w.(w_claimed); w_tasks := w.(w_tasks) |}
  | MStart =>
    match w.(w_claimed) with
    | [] => w
    | i :: l =>
      match task_of i with
      | Some k => {| w_relay := w.(w_relay); w_broker := w.(w_broker); w_journal := w.(w_journal);
                     w_claimed := l; w_tasks := k :: w.(w_tasks) |}
      | None => w
      end
    end
  | MSubmit ev =>
    match w.(w_tasks) with
    | [] => w
    | k :: l =>
      let out := submit_step ev k w.(w_broker).(st) w.(w_journal) in
      {| w_relay := w.(w_relay);
         w_broker := {| st := out.1.2; inflight := w.(w_broker).(inflight) |};
         w_journal := out.2; w_claimed := w.(w_claimed);
         w_tasks := match out.1.1 with Next at_ => task_at k at_ :: l | _ => l end |}
    end
  | MAck ev => match w.(w_tasks) with
               | [] => w
               | k :: _ => with_relay w (submit_ack ev "chem" k w.(w_relay)).2
               end
  | MCrash => set_tasks w (tail w.(w_tasks))
  end.

Definition do_moves : world → list move → world := foldl do_move.

Lemma do_move_steps w m : rtc relay_step w (do_move w m).
Proof.
  destruct m as [ev c|ev| |ev|ev|]; simpl.
  - destruct (other_call c) eqn:E; [by apply rtc_once, step_call|done].
  - apply rtc_once, (step_claim ev).
  - destruct (w_claimed w) as [|i l] eqn:Ec; [done|]. destruct (task_of i) as [k|] eqn:Ek; [|done].
    by apply rtc_once, (step_start i k [] l).
  - destruct (w_tasks w) as [|k l] eqn:Et; [done|].
    apply rtc_once, (step_submit ev k [] l w); [done|]. by destruct (submit_step _ _ _ _) as [[]].
  - destruct (w_tasks w) as [|k l] eqn:Et; [done|]. by apply rtc_once, (step_ack ev "chem" k [] l).
  - destruct (w_tasks w) as [|k l] eqn:Et; simpl; [|by apply rtc_once, (step_crash k [] l)].
    destruct w. simpl in Et. by rewrite Et.
Qed.

Lemma do_moves_steps w ms : rtc relay_step w (do_moves w ms).
Proof.
  revert w. induction ms as [|m ms IH]; intros w; [done|]. simpl. etrans; [apply do_move_steps|apply IH].
Qed.

Lemma do_moves_app w ms ms' : do_moves w (ms ++ ms') = do_moves (do_moves w ms) ms'.
Proof. apply foldl_app. Qed.

Definition connected (enabled : bool) : cenv :=
  {| c_download := Some (200, "archive"); c_broker_enabled := enabled; c_store := calm;
     c_clock := FFin 1; c_journal_fails := false |}.

Definition deliver : list move := [MStart; MSubmit (connected true); MSubmit (connected true);
                                   MSubmit (connected true)].

(** Delivered, with the acknowledgement lost. *)
Definition half_done : list move :=
  [MCall (second 0) gw_submit; MClaim (second 1)] ++ deliver ++ [MCrash].

(** Delivered again and acknowledged. *)
Definition delivered_moves : list move :=
  half_done ++ [MClaim (second 200)] ++ deliver ++ [MSubmit (connected true); MAck (second 201)].

Definition relay_record_in (w : world) : RelayRecord :=
  match w.(w_relay).(r_jobs) !! gw_id with
  | Some (JobFile r) => r
  | _ => admitted_record "" "" "" "" [] gw_upload 0
  end.

Example delivered_state :
  (relay_record_in (do_moves empty_world delivered_moves)).(g_transfer) = TRANSFER_ACCEPTED.
Proof. vm_compute. reflexivity. Qed.

Lemma delivered_record :
  (do_moves empty_world delivered_moves).(w_relay).(r_jobs) !! gw_id
  = Some (JobFile (relay_record_in (do_moves empty_world delivered_moves))).
Proof. vm_compute. reflexivity. Qed.


Lemma relay_verdicts_final_witness :
  ∃ r', (do_moves (do_moves empty_world delivered_moves)
           [MCall (second 300) (CallRequestCancel gw_id "alice" "chem" "stop")]).(w_relay).(r_jobs) !! gw_id
        = Some (JobFile r') ∧ r'.(g_transfer) = TRANSFER_ACCEPTED.
Proof.
  destruct (relay_verdicts_final (do_moves empty_world delivered_moves)
              (do_moves (do_moves empty_world delivered_moves)
                 [MCall (second 300) (CallRequestCancel gw_id "alice" "chem" "stop")])
              gw_id (relay_record_in (do_moves empty_world delivered_moves))) as [(r' & H1 & H2 & _) _].
  - apply do_moves_steps.
  - apply do_moves_steps.
  - exact delivered_record.
  - vm_compute. reflexivity.
  - exists r'. split; [exact H1|]. rewrite H2. exact delivered_state.
Defined.

(** Delivered with the acknowledgement lost, a cancellation asked for, claimed
    again on a host that is no broker any more. *)
Definition refused_moves : list move :=
  half_done ++ [MCall (second 30) (CallRequestCancel gw_id "alice" "chem" "stop"); MClaim (second 200);
                MStart; MSubmit (connected true); MSubmit (connected false); MAck (second 201)].

(** A job the gateway reports refused, its cancellation reported done, may
    be held by the broker, where it can still be placed and run: the
    acknowledgement of the first delivery is lost, and the repeated delivery
    is refused.  The code settles the cancellation on the ground that refused
    jobs never ran. *)
Theorem refused_job_is_held :
  ∃ w r rb, relay_reachable w ∧ w.(w_relay).(r_jobs) !! gw_id = Some (JobFile r)
    ∧ r.(g_transfer) = TRANSFER_REFUSED ∧ (cn_state <$> r.(g_cancel)) = Some CANCEL_STOPPED
    ∧ broker_job_id_for_key r.(g_scoped_key) = Ok gw_broker_id
    ∧ get w.(w_broker).(st) gw_broker_id = Ok rb ∧ rb.(rstate) = HELD.
Proof.
  assert (Hb : is_ok (get (do_moves empty_world refused_moves).(w_broker).(st) gw_broker_id) = true)
    by (vm_compute; reflexivity).
  destruct (get (w_broker (do_moves empty_world refused_moves)).(st) gw_broker_id) as [rb|e] eqn:E; [|done].
  exists (do_moves empty_world refused_moves), (relay_record_in (do_moves empty_world refused_moves)), rb.
  split_and!; [apply do_moves_steps|vm_compute; reflexivity..|exact E|].
  assert (Hs : match get (w_broker (do_moves empty_world refused_moves)).(st) gw_broker_id with
               | Ok rb => rb.(rstate) | Err _ => PLACED end = HELD) by (vm_compute; reflexivity).
  by rewrite E in Hs.
Qed.

(** ** Keys *)

Definition gw_secret (c : string) : string :=
  c +:+ "bcdefghijklmnopqrstuvwxyz0123456789abcdefgh"%string.

Definition gw_draws (id : string) (c : string) : draws :=
  {| d_ids := [id]; d_secret := String.substring 0 43 (gw_secret c);
     d_pepper := "0123456789abcdef0123456789abcdef" |}.

Definition enroll_id : string := "00000000000000e1".
Definition connector_id : string := "00000000000000c1".
Definition key_secret (c : string) : string := d_secret (gw_draws "" c).

(** Enrolled, then rotated. *)
Definition rotated : list (Z * draws * connector_call) :=
  [(0, gw_draws enroll_id "A", NCreate "chem" ["chem"]);
   (MICROS, gw_draws connector_id "B", NEnroll (credential "vqe_" enroll_id (key_secret "A")));
   (2 * MICROS, gw_draws "" "C", NRotate connector_id)].

Definition rotated_connector : connector :=
  opt_or ((run_logged rotated no_connectors).2.(cs_connectors) !! connector_id)
    {| t_project := ""; t_digest := ""; t_previous := None; t_created_at := 0; t_revoked_at := None;
       t_last_seen_at := None |}.

Lemma connector_key_lifecycle_witness :
  is_ok (authenticate (3 * MICROS) (gw_draws "" "D") (credential "vqc_" connector_id (key_secret "B"))
           (run_logged rotated no_connectors).2).1 = true.
Proof.
  pose proof (connector_key_lifecycle rotated connector_id rotated_connector (key_secret "B")
                (3 * MICROS) (gw_draws "" "D") ltac:(vm_compute; reflexivity)) as Hk.
  assert (Hc : (run_logged rotated no_connectors).2.(cs_connectors) !! connector_id = Some rotated_connector)
    by (vm_compute; reflexivity).
  assert (Hr : t_revoked_at rotated_connector = None) by (vm_compute; reflexivity).
  assert (Hl : issued (run_logged rotated no_connectors).1 connector_id
               = [(key_secret "C", 2 * MICROS); (key_secret "B", MICROS)]) by (vm_compute; reflexivity).
  destruct (run_logged rotated no_connectors) as [log s]. simpl in Hc, Hl. apply Hk.
  - intros pepper x _. apply toy_hmac_inj.
  - exact Hc.
  - split; [exact Hr|]. rewrite Hl. right. split; [reflexivity|vm_compute; reflexivity].
Defined.

(** A key that expired after a day, rotated a month later. *)
Definition old_key : GatewayKey :=
  {| k_principal := "alice"; k_project := "chem"; k_scopes := ["submit"; "read"];
     k_digest := hmac_hex (d_pepper (gw_draws "" "")) (key_secret "A"); k_created_at := 0;
     k_expires_at := Some DAY; k_revoked_at := None; k_last_used_at := None |}.

Definition old_keys : key_store :=
  {| ks_pepper := Some (d_pepper (gw_draws "" "")); ks_keys := {[ enroll_id := old_key ]} |}.

Lemma rotate_revives_expired_witness :
  ∃ k s', rotate_key (30 * DAY) (gw_draws connector_id "B") enroll_id ["chem"] old_keys
          = (Ok (connector_id, k, credential "vqk_" connector_id (key_secret "B")), s')
    ∧ is_ok (authenticate_key (30 * DAY + MICROS) (gw_draws connector_id "B")
               (credential "vqk_" connector_id (key_secret "B")) ["chem"] s').1 = true.
Proof.
  refine (proj2 (rotate_revives_expired (30 * DAY) (30 * DAY + MICROS) (gw_draws connector_id "B") enroll_id
    (key_secret "A") old_key DAY ["chem"] old_keys (d_pepper (gw_draws "" "")) connector_id
    _ _ _ _ _ _ _ _ _ _ _)); vm_compute; (reflexivity || discriminate).
Defined.

Lemma relay_records_typed_witness : record_typed (record_in collected).
Proof.
  assert (Hr : (run_calls collected empty_relay).2.(r_jobs) !! gw_id = Some (JobFile (record_in collected)))
    by (vm_compute; reflexivity).
  destruct (relay_records_typed collected gw_id (record_in collected) Hr) as (_ & _ & Ht). exact Ht.
Defined.
