(* ===== verification/Uploads.v ===== *)
(** * Gateway uploads: [src/vq/gateway/uploads.py]

    A client declares an archive, sends it in chunks and finalizes it.  An
    upload is a directory of three files: the metadata, the bytes received
    and, once final, the payload.  Every durable effect of an operation can be
    the last one: an error of the file system and the death of the process
    leave the same files behind, since no operation cleans up after itself. *)

From S2P Require Import Prelude Spec Json BrokerRecord Relay RelayOps.

(** ** Data *)

(** The fields of a [GatewayKey] the stores read. *)
Record caller : Type := MkCaller { c_principal : string; c_project : string; c_key_id : string }.

Inductive upload_state : Type := STATE_OPEN | STATE_FINAL.

#[global] Instance upload_state_eq_dec : EqDecision upload_state.
Proof. solve_decision. Defined.

Record Upload : Type := MkUpload {
  up_upload_id : string;
  up_principal : string;
  up_project : string;
  up_key_id : string;
  up_size : Z;
  up_sha256 : string;
  up_received : Z;
  up_state : upload_state;
  up_created_at : Z;
}.

Inductive meta_file : Type := MetaFile (m : Upload) | MetaGarbage.

Record upload_dir : Type := MkUploadDir {
  ud_meta : option meta_file;
  ud_part : option string;
  ud_payload : option string;
}.

Abbreviation uploads := (gmap string upload_dir).

(** [UploadError] with its status, or any other way an operation ends early. *)
Inductive upload_error : Type := UploadError (status : Z) (message : string) | Broken.

(** The clock, the drawn id, which durable effect of the operation (counted
    from 0) does not happen any more, how many bytes of an append land when it
    is that effect, and what an interrupted [rmtree] leaves: the metadata, the
    bytes received, the payload. *)
Record uenv : Type := MkUenv {
  u_now : Z;
  u_draw : string;
  u_stops : nat → bool;
  u_lands : nat;
  u_rm : string → option (bool * bool * bool);
}.

Abbreviation uop A := (eff uploads upload_error A).

Definition refuse {A} (status : Z) (message : string) : uop A := throw (UploadError status message).

Definition MAX_MEMBERS : Z := 10000.
Definition CHUNK_LIMIT : Z := 64 * 1024 * 1024.

(** ["u-[0-9a-f]{16}"] *)
Definition UPLOAD_ID_RE (s : string) : bool :=
  startswith s "u-" && fullmatch_class is_lower_hex 16 16 (String.substring 2 (String.length s) s).

(** ** Archives *)

Inductive member_kind : Type := MFile | MDir | MOther.
Record member : Type := MkMember { m_name : string; m_kind : member_kind; m_size : Z }.

#[global] Instance member_kind_eq_dec : EqDecision member_kind.
Proof. solve_decision. Defined.

(** What [tarfile] reads in a file: the members, and whether it fails then. *)
Class TarReader : Type := { tar_read : string → list member * bool }.

(** [name.is_absolute() or ".." in name.parts or not member.name.strip("./")] *)
Definition unsafe_name (name : string) : bool :=
  startswith name "/" || mem_str ".." (pure_parts name)
  || all_chars (λ c, Ascii.eqb c "." || Ascii.eqb c "/") name.

Fixpoint validate_members (limit members expanded : Z) (l : list member) : res upload_error unit :=
  match l with
  | [] => Ok tt
  | m :: l =>
    let members := members + 1 in
    if MAX_MEMBERS <? members then Err (UploadError 422 "archive has too many members")
    else if unsafe_name m.(m_name) then
      if bool_decide (m.(m_kind) = MDir) && mem_str m.(m_name) ["."; "./"]
      then validate_members limit members expanded l
      else Err (UploadError 422 "unsafe archive path")
    else if bool_decide (m.(m_kind) = MOther)
    then Err (UploadError 422 "archive member is not a plain file or directory")
    else
      let expanded := expanded + m.(m_size) in
      if limit <? expanded then Err (UploadError 422 "archive expands beyond the project storage quota")
      else validate_members limit members expanded l
  end.

Section reading.
Context {H : Hashing} {R : TarReader}.

Definition validate_archive (limit : Z) (data : string) : res upload_error unit :=
  let (members, fails) := tar_read data in
  let? _ := validate_members limit 0 0 members in
  if fails then Err (UploadError 422 "not a valid uncompressed tar archive") else Ok tt.

(** ** The store *)

Definition dir_of (s : uploads) (id : string) : upload_dir :=
  opt_or (s !! id) {| ud_meta := None; ud_part := None; ud_payload := None |}.

(** One durable effect on an upload's directory. *)
Definition effect (ev : uenv) (n : nat) (id : string) (f : upload_dir → upload_dir) : uop unit := λ s,
  if ev.(u_stops) n then (Err Broken, s) else (Ok tt, <[id := f (dir_of s id)]> s).

Definition set_meta (m : Upload) (d : upload_dir) : upload_dir :=
  {| ud_meta := Some (MetaFile m); ud_part := d.(ud_part); ud_payload := d.(ud_payload) |}.
Definition set_part (b : option string) (d : upload_dir) : upload_dir :=
  {| ud_meta := d.(ud_meta); ud_part := b; ud_payload := d.(ud_payload) |}.

(** [_write_meta]: written aside and renamed. *)
Definition write_meta (ev : uenv) (n : nat) (id : string) (m : Upload) : uop unit :=
  effect ev n id (set_meta m).

(** [_meta] *)
Definition meta (id : string) : uop Upload := λ s,
  if negb (UPLOAD_ID_RE id) then (Err (UploadError 404 "no such upload"), s)
  else match (dir_of s id).(ud_meta) with
       | Some (MetaFile m) => (Ok m, s)
       | Some MetaGarbage => (Err Broken, s)
       | None => (Err (UploadError 404 "no such upload"), s)
       end.

Definition belongs (m : Upload) (key : caller) : bool :=
  bool_decide ((m.(up_principal), m.(up_project)) = (key.(c_principal), key.(c_project))).

(** [owned] *)
Definition owned_upload (id : string) (key : caller) : uop Upload :=
  do? m := meta id in
  if belongs m key then ret m else refuse 404 "no such upload".

(** What one directory adds to [usage_bytes]. *)
Definition charged_bytes (principal project : string) (entry : string * upload_dir) : Z :=
  if negb (UPLOAD_ID_RE entry.1) then 0
  else match entry.2.(ud_meta) with
       | Some (MetaFile m) =>
         if bool_decide ((m.(up_principal), m.(up_project)) = (principal, project)) then m.(up_size) else 0
       | _ => 0
       end.

Definition usage_bytes (principal project : string) (s : uploads) : Z :=
  sumZ (charged_bytes principal project) (map_to_list s).

Definition new_upload (ev : uenv) (id : string) (key : caller) (size : Z) (sha256 : string) : Upload :=
  {| up_upload_id := id; up_principal := key.(c_principal); up_project := key.(c_project);
     up_key_id := key.(c_key_id); up_size := size; up_sha256 := sha256; up_received := 0;
     up_state := STATE_OPEN; up_created_at := iso ev.(u_now) |}.

(** [create]: a directory, an empty file of bytes, the metadata. *)
Definition create_upload (ev : uenv) (key : caller) (size sha256 : json) (quota_bytes : Z) : uop Upload :=
  match size with
  | JInt size =>
    if size <? 1 then refuse 400 "size must be a positive byte count"
    else match sha256 with
         | JStr sha256 =>
           if negb (is_sha256_hex sha256) then refuse 400 "sha256 must be 64 lowercase hex digits"
           else
             do? used := (λ s, (Ok (usage_bytes key.(c_principal) key.(c_project) s), s)) in
             if quota_bytes <? used + size
             then refuse 413 "this upload would exceed the project storage quota"
             else
               let id := "u-" +:+ ev.(u_draw) in
               do? taken := (λ s : uploads, (Ok (is_some (s !! id)), s)) in
               if taken then throw Broken
               else
                 do? _ := effect ev 0 id (λ d, d) in
                 do? _ := effect ev 1 id (set_part (Some "")) in
                 let m := new_upload ev id key size sha256 in
                 do? _ := write_meta ev 2 id m in
                 ret m
         | _ => refuse 400 "sha256 must be 64 lowercase hex digits"
         end
  | _ => refuse 400 "size must be a positive byte count"
  end.

(** The bytes on disk after an append, whole or interrupted. *)
Definition append_part (ev : uenv) (id : string) (old data : string) : uop unit := λ s,
  if ev.(u_stops) 0%nat
  then (Err Broken, <[id := set_part (Some (old +:+ str_take ev.(u_lands) data)) (dir_of s id)]> s)
  else (Ok tt, <[id := set_part (Some (old +:+ data)) (dir_of s id)]> s).

Definition with_received (m : Upload) (received : Z) : Upload :=
  {| up_upload_id := m.(up_upload_id); up_principal := m.(up_principal); up_project := m.(up_project);
     up_key_id := m.(up_key_id); up_size := m.(up_size); up_sha256 := m.(up_sha256);
     up_received := received; up_state := m.(up_state); up_created_at := m.(up_created_at) |}.

Definition finalized (m : Upload) : Upload :=
  {| up_upload_id := m.(up_upload_id); up_principal := m.(up_principal); up_project := m.(up_project);
     up_key_id := m.(up_key_id); up_size := m.(up_size); up_sha256 := m.(up_sha256);
     up_received := m.(up_received); up_state := STATE_FINAL; up_created_at := m.(up_created_at) |}.

Definition read_part (id : string) : uop string := λ s,
  match (dir_of s id).(ud_part) with Some b => (Ok b, s) | None => (Err Broken, s) end.

(** [append] *)
Definition append_upload (ev : uenv) (id : string) (key : caller) (start : Z) (data : string)
    : uop Upload :=
  do? upload := owned_upload id key in
  if negb (bool_decide (upload.(up_state) = STATE_OPEN))
  then refuse 409 "this upload is already finalized"
  else if negb (start =? upload.(up_received)) then refuse 409 "resume at the received byte"
  else if (CHUNK_LIMIT <? str_len data) || (upload.(up_size) <? upload.(up_received) + str_len data)
  then refuse 413 "chunk exceeds the declared upload size"
  else
    do? old := read_part id in
    do? _ := append_part ev id old data in
    do? m := meta id in
    let m := with_received m (upload.(up_received) + str_len data) in
    do? _ := write_meta ev 1 id m in
    ret m.

(** [finalize] *)
Definition finalize (ev : uenv) (id : string) (key : caller) (expanded_limit : Z) : uop Upload :=
  do? upload := owned_upload id key in
  if bool_decide (upload.(up_state) = STATE_FINAL) then ret upload
  else if negb (upload.(up_received) =? upload.(up_size)) then refuse 409 "incomplete upload"
  else
    do? data := read_part id in
    if negb (String.eqb (sha256_hex data) upload.(up_sha256))
    then refuse 422 "upload bytes do not match the declared sha256"
    else
      do? _ := lift (validate_archive expanded_limit data) in
      do? _ := effect ev 0 id (λ d, {| ud_meta := d.(ud_meta); ud_part := None;
                                       ud_payload := d.(ud_part) |}) in
      do? m := meta id in
      let m := finalized m in
      do? _ := write_meta ev 1 id m in
      ret m.

(** [payload]: the upload whose [payload.tar] may be read. *)
Definition payload (id : string) (key : caller) : uop Upload :=
  do? upload := owned_upload id key in
  if negb (bool_decide (upload.(up_state) = STATE_FINAL))
  then refuse 409 "finalize the upload before submitting it"
  else ret upload.

(** [shutil.rmtree] of a directory: gone, or what is left of it. *)
Definition kept {A} (b : bool) (o : option A) : option A := if b then o else None.

Definition rmtree (ev : uenv) (id : string) (s : uploads) : uploads :=
  match ev.(u_rm) id with
  | None => delete id s
  | Some (km, kp, ky) =>
    let d := dir_of s id in
    <[id := {| ud_meta := kept km d.(ud_meta); ud_part := kept kp d.(ud_part);
               ud_payload := kept ky d.(ud_payload) |}]> s
  end.

(** [delete] *)
Definition delete_upload (ev : uenv) (id : string) (key : caller) : uop unit :=
  do? _ := owned_upload id key in
  (λ s, (if is_some (ev.(u_rm) id) then Err Broken else Ok tt, rmtree ev id s)).

(** [now - created_at >= timedelta(days)] *)
Definition upload_expired (ev : uenv) (retention_days : list (string * Z)) (d : upload_dir) : bool :=
  match d.(ud_meta) with
  | Some (MetaFile m) =>
    match assoc m.(up_project) retention_days with
    | Some days => days * (86400 * MICROS) <=? ev.(u_now) - m.(up_created_at)
    | None => false
    end
  | _ => false
  end.

(** [prune_uploads]: the names removed; what cannot be removed is skipped. *)
Fixpoint prune_names (ev : uenv) (retention_days : list (string * Z)) (dry_run : bool)
    (names : list string) (s : uploads) : list string * uploads :=
  match names with
  | [] => ([], s)
  | name :: names =>
    if UPLOAD_ID_RE name && upload_expired ev retention_days (dir_of s name) then
      let (removed, s') := prune_names ev retention_days dry_run names
                             (if dry_run then s else rmtree ev name s) in
      (name :: removed, s')
    else prune_names ev retention_days dry_run names s
  end.

Definition prune_uploads (ev : uenv) (retention_days : list (string * Z)) (dry_run : bool)
    : uop (list string) := λ s,
  let (removed, s') := prune_names ev retention_days dry_run
                         (sort_by String.leb (elements (dom s))) s in
  (Ok removed, s').
End reading.
