(* ===== verification/UploadGuarantees.v ===== *)
(** * What the upload store guarantees

    A final upload is the archive its client declared, whatever was
    interrupted on the way, and stays so; a client that resumes where it is
    told completes its upload; the declared bytes of an owner stay within the
    quota; an upload whose last metadata write was lost can never be
    finalized. *)

From S2P Require Import Prelude Spec Json BrokerRecord Relay RelayOps Uploads.

Inductive upload_call : Type :=
| UCreate (key : caller) (size sha256 : json) (quota_bytes : Z)
| UAppend (id : string) (key : caller) (start : Z) (data : string)
| UFinalize (id : string) (key : caller) (expanded_limit : Z)
| UDelete (id : string) (key : caller)
| UPrune (retention_days : list (string * Z)) (dry_run : bool).

Definition removes (c : upload_call) : bool :=
  match c with UDelete _ _ | UPrune _ _ => true | _ => false end.

(** A member an archive may have. *)
Definition plain_member (m : member) : Prop :=
  (m.(m_kind) = MDir ∧ (m.(m_name) = "." ∨ m.(m_name) = "./"))
  ∨ (unsafe_name m.(m_name) = false ∧ m.(m_kind) ≠ MOther).

Section reading.
Context {H : Hashing} {R : TarReader}.

Definition run_upload (ev : uenv) (c : upload_call) (s : uploads) : uploads :=
  match c with
  | UCreate key size sha quota => (create_upload ev key size sha quota s).2
  | UAppend id key start data => (append_upload ev id key start data s).2
  | UFinalize id key limit => (finalize ev id key limit s).2
  | UDelete id key => (delete_upload ev id key s).2
  | UPrune days dry => (prune_uploads ev days dry s).2
  end.

Definition run_uploads (calls : list (uenv * upload_call)) (s : uploads) : uploads :=
  foldl (λ s x, run_upload x.1 x.2 s) s calls.

(** ** What single calls do *)

Lemma dir_of_insert (s : uploads) id d id' :
  dir_of (<[id := d]> s) id' = if decide (id' = id) then d else dir_of s id'.
Proof.
  unfold dir_of. destruct (decide (id' = id)) as [->|Hne];
    [by rewrite lookup_insert_eq|by rewrite lookup_insert_ne].
Qed.

Lemma dir_of_insert_eq (s : uploads) id d : dir_of (<[id := d]> s) id = d.
Proof. rewrite dir_of_insert. by case_decide. Qed.

Definition meta_is (d : upload_dir) (m : Upload) : Prop := d.(ud_meta) = Some (MetaFile m).

(** Reading the caller's own metadata. *)
Lemma upload_owned_cases id key s :
  (∃ e, owned_upload id key s = (Err e, s))
  ∨ (∃ m, owned_upload id key s = (Ok m, s) ∧ meta_is (dir_of s id) m ∧ belongs m key = true
          ∧ UPLOAD_ID_RE id = true).
Proof.
  unfold owned_upload, meta, bind. destruct (UPLOAD_ID_RE id) eqn:Hre; [|by left; eexists]. cbn [negb].
  destruct (ud_meta (dir_of s id)) as [[m|]|] eqn:Hm; [|by left; eexists..].
  destruct (belongs m key) eqn:Hb; [|by left; eexists]. right. by exists m.
Qed.

Lemma meta_read id s m : UPLOAD_ID_RE id = true → meta_is (dir_of s id) m → meta id s = (Ok m, s).
Proof. unfold meta, meta_is. by intros -> ->. Qed.

(** Where an [append] that is allowed to write can end. *)
Definition appended (ev : uenv) (m : Upload) (b data : string) (d d' : upload_dir) : Prop :=
  (u_stops ev 0 = true ∧ ∃ k, d' = set_part (Some (b +:+ str_take k data)) d)
  ∨ (u_stops ev 1 = true ∧ d' = set_part (Some (b +:+ data)) d)
  ∨ (u_stops ev 1 = false ∧ d' = set_meta (with_received m (up_received m + str_len data)) (set_part (Some (b +:+ data)) d)).

Lemma append_elim ev id key start data s (P : uploads → Prop) :
  P s →
  (∀ m b d', meta_is (dir_of s id) m → (dir_of s id).(ud_part) = Some b →
     m.(up_state) = STATE_OPEN → m.(up_received) + str_len data <= m.(up_size) →
     appended ev m b data (dir_of s id) d' → P (<[id := d']> s)) →
  P (append_upload ev id key start data s).2.
Proof.
  intros Hs Hk. unfold append_upload. unfold bind at 1.
  destruct (upload_owned_cases id key s) as [[e ->]|(m & -> & Hm & _ & Hre)]; [done|].
  case_bool_decide as Ho; cbn [negb]; [|done]. destruct (negb (start =? _)); [done|].
  destruct (CHUNK_LIMIT <? str_len data); [done|]. cbn [orb].
  destruct (Z.ltb_spec (up_size m) (up_received m + str_len data)); [done|].
  unfold read_part, bind at 1. destruct (ud_part (dir_of s id)) as [b|] eqn:Hb; [|done].
  unfold append_part, bind at 1. destruct (u_stops ev 0) eqn:E0; cbn.
  - apply (Hk m b); try done. left. split; [done|]. by eexists.
  - unfold bind. rewrite (meta_read id _ m); [|done|by rewrite dir_of_insert_eq].
    unfold write_meta, effect. destruct (u_stops ev 1) eqn:E1; cbn.
    + apply (Hk m b); try done. right. by left.
    + rewrite dir_of_insert_eq, insert_insert_eq. apply (Hk m b); try done. right. by right.
Qed.

Definition moved (d : upload_dir) : upload_dir :=
  {| ud_meta := d.(ud_meta); ud_part := None; ud_payload := d.(ud_part) |}.

Lemma finalize_elim ev id key limit s (P : uploads → Prop) :
  P s →
  (∀ m b d', meta_is (dir_of s id) m → (dir_of s id).(ud_part) = Some b →
     m.(up_state) = STATE_OPEN → m.(up_received) = m.(up_size) →
     sha256_hex b = m.(up_sha256) → validate_archive limit b = Ok tt →
     (u_stops ev 1 = true ∧ d' = moved (dir_of s id))
     ∨ (u_stops ev 1 = false ∧ d' = set_meta (finalized m) (moved (dir_of s id))) → P (<[id := d']> s)) →
  P (finalize ev id key limit s).2.
Proof.
  intros Hs Hk. unfold finalize. unfold bind at 1.
  destruct (upload_owned_cases id key s) as [[e ->]|(m & -> & Hm & _ & Hre)]; [done|].
  case_bool_decide as Ho; [done|].
  destruct (Z.eqb_spec (up_received m) (up_size m)) as [Hrec|]; cbn [negb]; [|done].
  unfold read_part, bind at 1. destruct (ud_part (dir_of s id)) as [b|] eqn:Hb; [|done].
  destruct (String.eqb_spec (sha256_hex b) (up_sha256 m)) as [Hsha|]; cbn [negb]; [|done].
  unfold bind at 1, lift. destruct (validate_archive limit b) as [[]|e] eqn:Hv; [|done].
  unfold effect at 1, bind at 1. destruct (u_stops ev 0); [done|].
  assert (up_state m = STATE_OPEN) as Hop by by destruct (up_state m).
  unfold bind. rewrite (meta_read id _ m); [|done|by rewrite dir_of_insert_eq].
  unfold write_meta, effect. destruct (u_stops ev 1) eqn:E1; cbn.
  - apply (Hk m b); try done. by left.
  - rewrite dir_of_insert_eq, insert_insert_eq. apply (Hk m b); try done. by right.
Qed.

Definition empty_dir : upload_dir := {| ud_meta := None; ud_part := None; ud_payload := None |}.

Definition new_id (ev : uenv) : string := "u-" +:+ u_draw ev.

Lemma create_elim ev key size sha quota s (P : uploads → Prop) :
  P s →
  (s !! new_id ev = None → P (<[new_id ev := empty_dir]> s)) →
  (s !! new_id ev = None → P (<[new_id ev := set_part (Some "") empty_dir]> s)) →
  (∀ n h, s !! new_id ev = None → 1 <= n →
     usage_bytes (c_principal key) (c_project key) s + n <= quota →
     P (<[new_id ev := set_meta (new_upload ev (new_id ev) key n h) (set_part (Some "") empty_dir)]> s)) →
  P (create_upload ev key size sha quota s).2.
Proof.
  intros Hs H1 H2 H3. unfold create_upload. destruct size as [| |n| | | |]; try done.
  destruct (Z.ltb_spec n 1); [done|]. destruct sha as [| | | |h| |]; try done.
  destruct (negb _); [done|]. unfold bind at 1. cbn.
  destruct (Z.ltb_spec quota (usage_bytes (c_principal key) (c_project key) s + n)); [done|].
  fold (new_id ev). unfold bind at 1. cbn.
  destruct (s !! new_id ev) as [d|] eqn:Hl; [done|]. cbn.
  unfold effect, bind. destruct (u_stops ev 0); [done|].
  assert (dir_of s (new_id ev) = empty_dir) as -> by (unfold dir_of; by rewrite Hl).
  destruct (u_stops ev 1); [by apply H1|]. rewrite dir_of_insert_eq, insert_insert_eq.
  unfold write_meta, effect. destruct (u_stops ev 2); [by apply H2|].
  rewrite dir_of_insert_eq. cbn. rewrite insert_insert_eq. by apply H3.
Qed.

(** Removing directories: a property of what an [rmtree] leaves of each. *)
Definition remains (km kp ky : bool) (d : upload_dir) : upload_dir :=
  {| ud_meta := kept km d.(ud_meta); ud_part := kept kp d.(ud_part); ud_payload := kept ky d.(ud_payload) |}.

Lemma rmtree_elim ev id s (P : uploads → Prop) :
  P (delete id s) → (∀ km kp ky, P (<[id := remains km kp ky (dir_of s id)]> s)) → P (rmtree ev id s).
Proof. intros Hd Hk. unfold rmtree. destruct (u_rm ev id) as [[[km kp] ky]|]; [apply Hk|done]. Qed.

Lemma delete_elim ev id key s (P : uploads → Prop) :
  P s → P (rmtree ev id s) → P (delete_upload ev id key s).2.
Proof.
  intros Hs Hr. unfold delete_upload, bind.
  by destruct (upload_owned_cases id key s) as [[e ->]|(m & -> & _)].
Qed.

Lemma prune_elim ev days dry s (P : uploads → Prop) :
  P s → (∀ id s, P s → P (rmtree ev id s)) → P (prune_uploads ev days dry s).2.
Proof.
  intros Hs Hr. unfold prune_uploads. generalize (sort_by String.leb (elements (dom s))) as names.
  intros names. enough (P (prune_names ev days dry names s).2) by by destruct (prune_names _ _ _ _ _).
  revert s Hs. induction names as [|name names IH]; intros s Hs; simpl; [done|].
  destruct (_ && _); [|by apply IH].
  assert (P (if dry then s else rmtree ev name s)) as Hp by (destruct dry; auto).
  specialize (IH _ Hp). by destruct (prune_names _ _ _ _ _).
Qed.

(** ** The invariant *)

Definition archive_plain (b : string) : Prop :=
  let (members, fails) := tar_read b in
  fails = false ∧ Z.of_nat (length members) <= MAX_MEMBERS ∧ Forall plain_member members.

Lemma validate_members_plain limit members expanded l :
  validate_members limit members expanded l = Ok tt → members <= MAX_MEMBERS →
  members + Z.of_nat (length l) <= MAX_MEMBERS ∧ Forall plain_member l.
Proof.
  revert members expanded. induction l as [|m l IH]; intros members expanded; simpl; [split; [lia|done]|].
  destruct (Z.ltb_spec MAX_MEMBERS (members + 1)); [done|].
  assert (Hgo : ∀ e, validate_members limit (members + 1) e l = Ok tt → plain_member m →
    members + Z.of_nat (S (length l)) <= MAX_MEMBERS ∧ Forall plain_member (m :: l)).
  { intros e Hv Hp. destruct (IH _ _ Hv) as [? ?]; [lia|]. split; [lia|by constructor]. }
  intros Hv _. revert Hv. destruct (unsafe_name (m_name m)) eqn:Hu.
  - destruct (bool_decide _ && _) eqn:Hd; [|done]. apply andb_true_iff in Hd as [Hd%bool_decide_eq_true Hn].
    intros Hv. apply (Hgo expanded); [done|]. left. split; [done|]. simpl in Hn.
    destruct (String.eqb_spec (m_name m) "."); [by left|]. destruct (String.eqb_spec (m_name m) "./"); [by right|done].
  - case_bool_decide; [done|]. destruct (limit <? _); [done|]. intros Hv. eapply Hgo; [done|]. by right.
Qed.

Lemma validate_archive_plain limit b : validate_archive limit b = Ok tt → archive_plain b.
Proof.
  unfold validate_archive, archive_plain. destruct (tar_read b) as [members fails].
  destruct (validate_members limit 0 0 members) as [[]|e] eqn:Hv; [|done]. simpl. destruct fails; [done|].
  intros _. by destruct (validate_members_plain _ _ _ _ Hv); [unfold MAX_MEMBERS; lia|].
Qed.

Record dir_ok (d : upload_dir) : Prop := {
  do_received m : meta_is d m → 0 <= m.(up_received) <= m.(up_size) ∧ 1 <= m.(up_size);
  do_payload m b : meta_is d m → d.(ud_payload) = Some b →
    sha256_hex b = m.(up_sha256) ∧ archive_plain b ∧ d.(ud_part) = None;
  do_final m : meta_is d m → m.(up_state) = STATE_FINAL → d.(ud_part) = None;
}.

Definition store_ok (s : uploads) : Prop := ∀ id, dir_ok (dir_of s id).

Lemma empty_dir_ok : dir_ok empty_dir.
Proof. by split. Qed.

Lemma store_ok_insert s id d : store_ok s → dir_ok d → store_ok (<[id := d]> s).
Proof. intros Hs Hd id'. rewrite dir_of_insert. by case_decide. Qed.

Lemma appended_ok ev m b data d d' :
  dir_ok d → meta_is d m → d.(ud_part) = Some b → m.(up_state) = STATE_OPEN →
  m.(up_received) + str_len data <= m.(up_size) → appended ev m b data d d' → dir_ok d'.
Proof.
  intros [Hr Hp Hf] Hm Hb Ho Hle Ha. destruct (Hr m Hm). pose proof (str_len_nonneg data).
  assert (Hnone : d.(ud_payload) = None).
  { destruct (ud_payload d) as [x|] eqn:E; [|done]. destruct (Hp m x Hm eq_refl) as (_ & _ & ?). congruence. }
  unfold meta_is in *. destruct Ha as [[_ [k ->]]|[[_ ->]|[_ ->]]]; split; unfold meta_is; simpl;
    rewrite ?Hm, ?Hnone; try done; intros ? [= <-]; simpl; try done; lia || congruence.
Qed.

Lemma moved_ok limit m b d :
  dir_ok d → meta_is d m → d.(ud_part) = Some b → sha256_hex b = m.(up_sha256) →
  validate_archive limit b = Ok tt → dir_ok (moved d) ∧ dir_ok (set_meta (finalized m) (moved d)).
Proof.
  intros [Hr Hp Hf] Hm Hb Hsha Hv%validate_archive_plain. destruct (Hr m Hm). unfold meta_is in *.
  split; split; unfold meta_is; simpl; rewrite ?Hm, ?Hb; try (by intros ? [= <-]).
  - intros ? ? [= <-] [= <-]. done.
  - intros ? ? [= <-] [= <-]. done.
Qed.

Lemma remains_ok km kp ky d : dir_ok d → dir_ok (remains km kp ky d).
Proof.
  intros [Hr Hp Hf]. unfold meta_is in *.
  split; unfold meta_is; destruct km, kp, ky; simpl; try done; try naive_solver.
Qed.

Lemma rmtree_ok ev id s : store_ok s → store_ok (rmtree ev id s).
Proof.
  intros Hs. apply rmtree_elim.
  - intros id'. unfold dir_of. destruct (decide (id' = id)) as [->|Hne].
    + rewrite lookup_delete_eq. apply empty_dir_ok.
    + rewrite lookup_delete_ne by done. apply Hs.
  - intros km kp ky. apply store_ok_insert; [done|by apply remains_ok].
Qed.

Lemma run_upload_ok ev c s : store_ok s → store_ok (run_upload ev c s).
Proof.
  intros Hs. destruct c as [key size sha quota|id key start data|id key limit|id key|days dry]; simpl.
  - apply create_elim; [done|intros; apply store_ok_insert; [done|]..]; [apply empty_dir_ok|by split|].
    split; unfold meta_is; simpl; try done; intros m [= <-]; simpl; try done; lia.
  - apply append_elim; [done|]. intros m b d' Hm Hb Ho Hle Ha. apply store_ok_insert; [done|].
    by eapply appended_ok.
  - apply finalize_elim; [done|]. intros m b d' Hm Hb Ho Hrec Hsha Hv Hd. apply store_ok_insert; [done|].
    destruct (moved_ok limit m b (dir_of s id)) as [? ?]; try done. by destruct Hd as [[_ ->]|[_ ->]].
  - apply delete_elim; [done|by apply rmtree_ok].
  - apply prune_elim; [done|]. intros. by apply rmtree_ok.
Qed.

Lemma run_uploads_ok calls s : store_ok s → store_ok (run_uploads calls s).
Proof.
  revert s. induction calls as [|[ev c] calls IH]; intros s Hs; [done|]. by apply IH, run_upload_ok.
Qed.

Lemma no_uploads_ok : store_ok ∅.
Proof. intros id. unfold dir_of. rewrite lookup_empty. apply empty_dir_ok. Qed.

Lemma meta_present s id m : meta_is (dir_of s id) m → is_Some (s !! id).
Proof. unfold dir_of, meta_is. destruct (s !! id) as [d|]; [by eexists|done]. Qed.

(** A call that changes a directory which has metadata finds it open. *)
Lemma only_open_changes ev c s id m :
  meta_is (dir_of s id) m → removes c = false → m.(up_state) = STATE_FINAL →
  dir_of (run_upload ev c s) id = dir_of s id.
Proof.
  intros Hm Hc Hf. destruct c as [key size sha quota|id' key start data|id' key limit|id' key|days dry];
    simpl; try done.
  - assert (s !! new_id ev = None → ∀ d, dir_of (<[new_id ev := d]> s) id = dir_of s id) as Hn.
    { intros Hn d. rewrite dir_of_insert. case_decide as E; [|done]. subst.
      destruct (meta_present _ _ _ Hm) as [? ?]. congruence. }
    apply (create_elim _ _ _ _ _ _ (λ s', dir_of s' id = dir_of s id)); auto.
  - apply (append_elim _ _ _ _ _ _ (λ s', dir_of s' id = dir_of s id)); [done|].
    intros m' b d' Hm' _ Ho _ _. rewrite dir_of_insert. case_decide as E; [|done]. subst.
    unfold meta_is in *. congruence.
  - apply (finalize_elim _ _ _ _ _ (λ s', dir_of s' id = dir_of s id)); [done|].
    intros m' b d' Hm' _ Ho _ _ _ _. rewrite dir_of_insert. case_decide as E; [|done]. subst.
    unfold meta_is in *. congruence.
Qed.

(** C20: a final upload is the archive its client declared: after any history
    of calls, interrupted at any durable effect, the payload of a final
    upload has the declared digest, reads as a complete archive of at most
    10000 plain files and directories under relative paths without "..", and
    no call but a removal changes the directory again. *)
Theorem final_upload_verified calls id m b :
  let s := run_uploads calls ∅ in
  meta_is (dir_of s id) m → m.(up_state) = STATE_FINAL → (dir_of s id).(ud_payload) = Some b →
  (sha256_hex b = m.(up_sha256) ∧ archive_plain b)
  ∧ ∀ ev c, removes c = false → dir_of (run_upload ev c s) id = dir_of s id.
Proof.
  intros s Hm Hf Hb. destruct (run_uploads_ok calls ∅ no_uploads_ok id) as [_ Hp _].
  destruct (Hp m b Hm Hb) as (? & ? & _). split; [done|]. intros ev c Hc. by eapply only_open_changes.
Qed.

(** ** Uploads that are stuck *)

(** More bytes on disk than were counted, or none to finalize. *)
Definition stuck (m0 : Upload) (d : upload_dir) : Prop :=
  ∃ m, meta_is d m ∧ m.(up_state) = STATE_OPEN ∧ m.(up_sha256) = m0.(up_sha256) ∧ m.(up_size) = m0.(up_size)
    ∧ match d.(ud_part) with Some b => m.(up_received) < str_len b | None => True end.

Lemma appended_stuck ev m0 m b data d d' :
  stuck m0 d → meta_is d m → d.(ud_part) = Some b → appended ev m b data d d' → stuck m0 d'.
Proof.
  intros (m' & Hm' & Ho & Hsha & Hsz & Hlen) Hm Hb Ha. unfold meta_is in *.
  assert (m' = m) as -> by congruence. rewrite Hb in Hlen.
  destruct Ha as [[_ [k ->]]|[[_ ->]|[_ ->]]]; eexists; (split; [done|]); simpl; split_and!; try done; rewrite str_len_app.
  - pose proof (str_len_nonneg (str_take k data)). lia.
  - pose proof (str_len_nonneg data). lia.
  - lia.
Qed.

Lemma stuck_stays m0 id calls s :
  (∀ x, sha256_hex x = m0.(up_sha256) → str_len x = m0.(up_size)) →
  Forall (λ x, removes x.2 = false) calls → stuck m0 (dir_of s id) →
  stuck m0 (dir_of (run_uploads calls s) id).
Proof.
  intros Hsize Hr. revert s. induction Hr as [|[ev c] calls Hc _ IH]; intros s Hs; [done|]. simpl. apply IH.
  simpl in Hc. clear IH. pose proof Hs as (m & Hm & Ho & Hsha & Hsz & Hlen).
  destruct c as [key size sha quota|id' key start data|id' key limit|id' key|days dry]; simpl; try done.
  - assert (s !! new_id ev = None → ∀ d, stuck m0 (dir_of (<[new_id ev := d]> s) id)) as Hn.
    { intros Hn d. rewrite dir_of_insert. case_decide as E; [|done]. subst.
      destruct (meta_present _ _ _ Hm) as [? ?]. congruence. }
    apply (create_elim _ _ _ _ _ _ (λ s', stuck m0 (dir_of s' id))); auto.
  - apply (append_elim _ _ _ _ _ _ (λ s', stuck m0 (dir_of s' id))); [done|].
    intros m' b d' Hm' Hb _ _ Ha. rewrite dir_of_insert. case_decide as E; [|done]. subst.
    by eapply appended_stuck.
  - apply (finalize_elim _ _ _ _ _ (λ s', stuck m0 (dir_of s' id))); [done|].
    intros m' b d' Hm' Hb _ Hrec Hsha' _ _. rewrite dir_of_insert. case_decide as E; [|done]. subst.
    exfalso. unfold meta_is in *. assert (m' = m) as -> by congruence. rewrite Hb in Hlen.
    rewrite Hsha in Hsha'. apply Hsize in Hsha'. lia.
Qed.

(** An upload whose process stops between the bytes and the metadata of a
    chunk, or between the rename and the metadata of its finalization, can
    never be finalized, resumed or submitted: it stays open whatever calls
    follow, until it is removed.  (Assuming that only contents of the declared
    size have the declared digest.) *)
Theorem interrupted_upload_strands ev c s id key m b calls :
  meta_is (dir_of s id) m → m.(up_state) = STATE_OPEN → (dir_of s id).(ud_part) = Some b →
  str_len b = m.(up_received) →
  (∀ x, sha256_hex x = m.(up_sha256) → str_len x = m.(up_size)) →
  ev.(u_stops) 0%nat = false → ev.(u_stops) 1%nat = true →
  (∃ data limit, (c = UAppend id key m.(up_received) data ∧ data ≠ "" ∨ c = UFinalize id key limit)
                 ∧ run_upload ev c s ≠ s) →
  Forall (λ x, removes x.2 = false) calls →
  ∃ m', meta_is (dir_of (run_uploads calls (run_upload ev c s)) id) m' ∧ m'.(up_state) = STATE_OPEN
        ∧ ∀ key, is_ok (payload id key (run_uploads calls (run_upload ev c s))).1 = false.
Proof.
  intros Hm Ho Hb Hlen Hsize H0 H1 (data & limit & Hc & Hne) Hr.
  assert (Hs : stuck m (dir_of (run_upload ev c s) id)).
  { destruct Hc as [[-> Hd]| ->]; revert Hne; simpl.
    - apply (append_elim _ _ _ _ _ _ (λ s', s' ≠ s → stuck m (dir_of s' id))); [done|].
      intros m' b' d' Hm' Hb' _ _ Ha _. rewrite dir_of_insert_eq. unfold meta_is in *.
      assert (m' = m ∧ b' = b) as [-> ->] by (split; congruence).
      destruct Ha as [[? _]|[[_ ->]|[? _]]]; [congruence| |congruence].
      exists m. simpl. rewrite str_len_app. split_and!; try done. destruct data; [done|]. unfold str_len in *. simpl. lia.
    - apply (finalize_elim _ _ _ _ _ (λ s', s' ≠ s → stuck m (dir_of s' id))); [done|].
      intros m' b' d' Hm' Hb' _ _ _ _ Ha _. rewrite dir_of_insert_eq. unfold meta_is in *.
      assert (m' = m) as -> by congruence. destruct Ha as [[_ ->]|[? _]]; [|congruence]. by exists m. }
  destruct (stuck_stays m id calls _ Hsize Hr Hs) as (m' & Hm' & Ho' & _). exists m'.
  split_and!; [done..|]. intros key'. unfold payload, bind.
  destruct (upload_owned_cases id key' (run_uploads calls (run_upload ev c s))) as [[e ->]|(m1 & -> & Hm1 & _)]; [done|].
  unfold meta_is in *. assert (m1 = m') as -> by congruence. by rewrite Ho'.
Qed.

(** ** Quota *)

Section quota.
Context (principal project : string).
Local Abbreviation usage := (usage_bytes principal project).
Local Abbreviation charge := (charged_bytes principal project).

Lemma usage_insert id d s : usage (<[id := d]> s) = usage (delete id s) + charge (id, d).
Proof.
  unfold usage_bytes. rewrite <- insert_delete_eq.
  rewrite (sumZ_perm _ _ _ (map_to_list_insert _ id d (lookup_delete_eq s id))). simpl. lia.
Qed.

Lemma usage_split id s : usage s = usage (delete id s) + charge (id, dir_of s id).
Proof.
  unfold dir_of. destruct (s !! id) as [d|] eqn:E; simpl.
  - rewrite <- (usage_insert id d s), insert_id; done.
  - rewrite delete_id by done. unfold charged_bytes. simpl. destruct (negb _); lia.
Qed.

Lemma usage_step id d s : charge (id, d) <= charge (id, dir_of s id) → usage (<[id := d]> s) <= usage s.
Proof. rewrite usage_insert, (usage_split id s). lia. Qed.

Lemma charged_nonneg id d : dir_ok d → 0 <= charge (id, d).
Proof.
  intros [Hr _ _]. unfold charged_bytes. simpl. destruct (negb _); [lia|].
  destruct (ud_meta d) as [[m|]|] eqn:Hm; try lia. destruct (Hr m Hm). case_bool_decide; lia.
Qed.

Lemma rmtree_usage ev id s : store_ok s → usage (rmtree ev id s) <= usage s.
Proof.
  intros Hs. pose proof (charged_nonneg id _ (Hs id)) as Hc. apply (rmtree_elim _ _ _ (λ s', usage s' <= usage s)).
  - rewrite (usage_split id s). lia.
  - intros km kp ky. apply usage_step. destruct km; [done|]. unfold charged_bytes at 1. simpl. destruct (negb _); lia.
Qed.

(** The quota a creation for this owner was given. *)
Definition quota_at_most (limit : Z) (c : upload_call) : Prop :=
  match c with
  | UCreate key _ _ quota => (c_principal key, c_project key) = (principal, project) → quota <= limit
  | _ => True
  end.

Lemma run_upload_usage limit ev c s :
  store_ok s → quota_at_most limit c → usage s <= limit → usage (run_upload ev c s) <= limit.
Proof.
  intros Hs Hq Hu. destruct c as [key size sha quota|id key start data|id key l|id key|days dry]; simpl.
  - assert (Hnew : ∀ d, s !! new_id ev = None → charge (new_id ev, d) <= limit - usage s →
      usage (<[new_id ev := d]> s) <= limit).
    { intros d Hn Hd. rewrite usage_insert, delete_id by done. lia. }
    assert (Hz : ∀ d, ud_meta d = None → charge (new_id ev, d) = 0).
    { intros d Hd. unfold charged_bytes. simpl. rewrite Hd. by destruct (negb _). }
    apply (create_elim _ _ _ _ _ _ (λ s', usage s' <= limit)); [done|intros; apply Hnew; [done|rewrite Hz; [lia|done]]..|].
    intros n h Hn Hpos Hle. apply Hnew; [done|]. unfold charged_bytes. simpl. destruct (negb _); [lia|].
    case_bool_decide as E; [|lia]. simpl in Hq. specialize (Hq E). injection E as E1 E2. rewrite E1, E2 in Hle. lia.
  - apply (append_elim _ _ _ _ _ _ (λ s', usage s' <= limit)); [done|].
    intros m b d' Hm Hb Ho Hle Ha. transitivity (usage s); [|done]. apply usage_step.
    unfold meta_is in Hm. unfold charged_bytes. simpl.
    destruct Ha as [[_ [k ->]]|[[_ ->]|[_ ->]]]; simpl; rewrite Hm; simpl; lia.
  - apply (finalize_elim _ _ _ _ _ (λ s', usage s' <= limit)); [done|].
    intros m b d' Hm Hb Ho Hrec Hsha Hv Hd. transitivity (usage s); [|done]. apply usage_step.
    unfold meta_is in Hm. unfold charged_bytes. simpl. destruct Hd as [[_ ->]|[_ ->]]; simpl; rewrite Hm; simpl; lia.
  - apply (delete_elim _ _ _ _ (λ s', usage s' <= limit)); [done|].
    pose proof (rmtree_usage ev id s Hs). lia.
  - apply (prune_elim _ _ _ _ (λ s', store_ok s' ∧ usage s' <= limit)); [done|].
    intros id s' [Hs' Hu']. split; [by apply rmtree_ok|]. pose proof (rmtree_usage ev id s' Hs'). lia.
Qed.
End quota.

(** The sizes an owner's uploads declare never exceed the quota, counted
    over every upload whose metadata can be read, through any history of
    calls of any owners, interrupted anywhere. *)
Theorem uploads_within_quota principal project limit calls :
  0 <= limit → Forall (λ x, quota_at_most principal project limit x.2) calls →
  usage_bytes principal project (run_uploads calls ∅) <= limit.
Proof.
  intros Hl Hq. assert (H0 : usage_bytes principal project ∅ <= limit).
  { unfold usage_bytes. rewrite map_to_list_empty. done. }
  revert H0. generalize no_uploads_ok. generalize (∅ : uploads) as s.
  induction Hq as [|[ev c] calls Hc _ IH]; intros s Hs Hu; [done|]. simpl. apply IH.
  - by apply run_upload_ok.
  - by apply run_upload_usage.
Qed.

(** ** Resuming *)

Fixpoint chunk_calls (ev : uenv) (id : string) (key : caller) (start : Z) (chunks : list string)
    : list (uenv * upload_call) :=
  match chunks with
  | [] => []
  | c :: chunks => (ev, UAppend id key start c) :: chunk_calls ev id key (start + str_len c) chunks
  end.

Definition joined (chunks : list string) : string := foldr String.append "" chunks.

(** The metadata and bytes an upload has while it is open and untouched by
    interruptions. *)
Definition open_at (s : uploads) (id : string) (m : Upload) (b : string) : Prop :=
  meta_is (dir_of s id) m ∧ m.(up_state) = STATE_OPEN ∧ (dir_of s id).(ud_part) = Some b
  ∧ m.(up_received) = str_len b.

Lemma append_quiet ev id key s m b data :
  (∀ n, u_stops ev n = false) → UPLOAD_ID_RE id = true → belongs m key = true → open_at s id m b →
  str_len data <= CHUNK_LIMIT → str_len b + str_len data <= m.(up_size) →
  open_at (run_upload ev (UAppend id key (str_len b) data) s) id
    (with_received m (str_len b + str_len data)) (b +:+ data).
Proof.
  intros Hq Hre Hk (Hm & Ho & Hb & Hrec) Hc Hsz. simpl. unfold append_upload, owned_upload, bind.
  rewrite (meta_read id s m) by done. rewrite Hk. cbn. rewrite Ho, Hrec, Z.eqb_refl, bool_decide_eq_true_2 by done.
  rewrite (proj2 (Z.ltb_ge _ _) Hc), (proj2 (Z.ltb_ge _ _) Hsz). cbn. unfold read_part. rewrite Hb. cbn.
  unfold append_part. rewrite Hq. cbn.
  rewrite (meta_read id _ m); [|done|by rewrite dir_of_insert_eq].
  unfold write_meta, effect. rewrite Hq. cbn. unfold open_at. rewrite !dir_of_insert_eq. cbn.
  split_and!; try done. by rewrite str_len_app.
Qed.

Lemma chunks_quiet ev id key s m b chunks :
  (∀ n, u_stops ev n = false) → UPLOAD_ID_RE id = true → belongs m key = true → open_at s id m b →
  Forall (λ c, str_len c <= CHUNK_LIMIT) chunks → str_len b + str_len (joined chunks) <= m.(up_size) →
  open_at (run_uploads (chunk_calls ev id key (str_len b) chunks) s) id
    (with_received m (str_len b + str_len (joined chunks))) (b +:+ joined chunks).
Proof.
  intros Hq Hre. revert s m b. induction chunks as [|c chunks IH]; intros s m b Hk Hopen Hc Hsz.
  - simpl. rewrite string_app_nil, Z.add_0_r. destruct Hopen as (Hm & Ho & Hb & Hrec).
    split_and!; try done. rewrite <- Hrec. by destruct m.
  - apply Forall_cons in Hc as [Hc Hcs]. simpl in Hsz |- *. rewrite str_len_app in Hsz |- *.
    pose proof (str_len_nonneg (joined chunks)).
    pose proof (append_quiet ev id key s m b c Hq Hre Hk Hopen Hc ltac:(lia)) as Hopen'.
    specialize (IH _ (with_received m (str_len b + str_len c)) _ Hk Hopen' Hcs). rewrite str_len_app in IH. simpl in IH.
    specialize (IH ltac:(lia)). rewrite <- Z.add_assoc, string_app_assoc in IH. exact IH.
Qed.

(** An upload can be resumed and completed: while it is open and no write
    was lost, a chunk that does not start at the received count is refused
    with no effect, and sending the rest of the declared content from that
    count, in chunks of any allowed sizes, then finalizing, makes it final
    with exactly the declared bytes as its payload. *)
Theorem upload_resumes ev id key s m b chunks limit :
  (∀ n, u_stops ev n = false) → UPLOAD_ID_RE id = true → belongs m key = true → open_at s id m b →
  Forall (λ c, str_len c <= CHUNK_LIMIT) chunks →
  m.(up_size) = str_len (b +:+ joined chunks) → m.(up_sha256) = sha256_hex (b +:+ joined chunks) →
  validate_archive limit (b +:+ joined chunks) = Ok tt →
  (∀ start data, start ≠ str_len b → is_ok (append_upload ev id key start data s).1 = false
                                     ∧ (append_upload ev id key start data s).2 = s)
  ∧ let s' := run_uploads (chunk_calls ev id key (str_len b) chunks ++ [(ev, UFinalize id key limit)]) s in
    ∃ m', payload id key s' = (Ok m', s') ∧ m'.(up_state) = STATE_FINAL
          ∧ (dir_of s' id).(ud_payload) = Some (b +:+ joined chunks).
Proof.
  intros Hq Hre Hk Hopen Hc Hsz Hsha Hv. split.
  - intros start data Hne. destruct Hopen as (Hm & Ho & Hb & Hrec).
    unfold append_upload, owned_upload, bind. rewrite (meta_read id s m) by done. rewrite Hk. cbn.
    rewrite Ho, Hrec, bool_decide_eq_true_2 by done. cbn. by rewrite (proj2 (Z.eqb_neq _ _) Hne).
  - cbn zeta. unfold run_uploads at 1 2 3. rewrite foldl_app. fold (run_uploads (chunk_calls ev id key (str_len b) chunks) s).
    rewrite str_len_app in Hsz.
    destruct (chunks_quiet ev id key s m b chunks Hq Hre Hk Hopen Hc ltac:(lia)) as (Hm & Ho & Hb & Hrec).
    set (s1 := run_uploads _ s) in *. set (m1 := with_received _ _) in *.
    assert (Hk1 : belongs m1 key = true) by done. assert (Hsha1 : sha256_hex (b +:+ joined chunks) = up_sha256 m1) by done.
    assert (Hr1 : (up_received m1 =? up_size m1) = true) by (simpl; lia). clearbody m1 s1.
    exists (finalized m1).
    assert (E : run_upload ev (UFinalize id key limit) s1
                = <[id := set_meta (finalized m1) (moved (dir_of s1 id))]> s1).
    { simpl. unfold finalize, owned_upload, bind. rewrite (meta_read id s1 m1) by done.
      rewrite Hk1. cbn. rewrite Ho, bool_decide_eq_false_2 by done.
      rewrite Hr1. cbn. unfold read_part. rewrite Hb. cbn. rewrite Hsha1, String.eqb_refl. cbn. unfold lift. rewrite Hv. cbn. unfold effect at 1. rewrite Hq. cbn.
      rewrite (meta_read id _ m1); [|done|by rewrite dir_of_insert_eq].
      unfold write_meta, effect. rewrite Hq. cbn. by rewrite dir_of_insert_eq, insert_insert_eq. }
    cbn [foldl fst snd]. rewrite E, dir_of_insert_eq. split_and!; [|done|done].
    unfold payload, owned_upload, bind. rewrite (meta_read id _ (finalized m1)); [|done|by rewrite dir_of_insert_eq].
    assert (belongs (finalized m1) key = true) as -> by done. cbn. by rewrite bool_decide_eq_true_2.
Qed.
End reading.
