(* ===== verification/GatewayJobs.v ===== *)
(** * Gateway submissions: [src/vq/gateway/jobs.py]

    Local submission: the project's policy turns a client's request into a
    [BrokerIntent], the broker takes it in under a key scoped to its owner,
    and an ownership record lets only that owner see the job.  The state is
    the ownership index beside the broker's and the upload store; a death can
    fall between the broker's intake and the ownership record. *)

From S2P Require Import Prelude Spec Overview Json BrokerRecord BrokerStore BrokerLifecycle BrokerGuarantees Relay RelayOps RelayLogic RelayGuarantees Connector Uploads.

(** ** Data *)

Record GatewayProjectConfig : Type := MkProject {
  gp_programs : list string;
  gp_max_cpus : Z;
  gp_max_mem_mb : Z;
  gp_max_wall_time_seconds : Z;
  gp_max_active_jobs : Z;
}.

(** [GatewayJobError] with its status; [JobBroken] is any other exception, or
    the end of the process. *)
Inductive job_error : Type := GatewayJobError (status : Z) (message : string) | JobBroken.

Record job_owner : Type := MkOwner {
  o_principal : string;
  o_project : string;
  o_key_id : string;
  o_upload_id : json;
  o_idempotency_key : string;
  o_submitted_at : Z;
}.

Inductive owner_file : Type := OwnerFile (o : job_owner) | OwnerGarbage.

Record gateway : Type := MkGateway {
  gs_index : gmap string owner_file;
  gs_broker : store;
  gs_uploads : uploads;
}.

Definition set_index (s : gateway) (m : gmap string owner_file) : gateway :=
  {| gs_index := m; gs_broker := s.(gs_broker); gs_uploads := s.(gs_uploads) |}.
Definition set_broker (s : gateway) (b : store) : gateway :=
  {| gs_index := s.(gs_index); gs_broker := b; gs_uploads := s.(gs_uploads) |}.

Abbreviation jop A := (eff gateway job_error A).

Definition reject {A} (status : Z) (message : string) : jop A := throw (GatewayJobError status message).

(** The clocks, whether this host is a broker, the broker store's
    environment, whether the ownership record cannot be written (or the
    process dies before it is), and whether a placed job's results are still
    to be collected. *)
Record jenv : Type := MkJenv {
  j_now : Z;
  j_clock : pyfloat;
  j_broker_enabled : bool;
  j_store : env;
  j_index_stops : bool;
  j_uncollected : string → bool;
}.

(** ["[A-Za-z0-9][A-Za-z0-9._:-]{0,127}"] *)
Definition CLIENT_KEY_RE (s : string) : bool := IDEMPOTENCY_KEY_PATTERN s.

Definition WAITING_STATES (st : broker_state) : bool :=
  match st with HELD | RESERVED | TRANSFERRING => true | _ => false end.

Definition MAX_LIST : nat := 100.

Definition REQUEST_FIELDS : list string :=
  ["upload_id"; "command"; "program"; "expected_sha"; "cpus"; "mem_mb"; "wall_time_seconds";
   "job_name"; "tags"; "idempotency_key"; "runtime_seconds"].

(** ** The request *)

Definition job_fail {A} (status : Z) (message : string) : res job_error A :=
  Err (GatewayJobError status message).

Definition command_part (j : json) : option string :=
  match j with
  | JStr p => if (0 <? str_len p) && (str_len p <=? 4096) then Some p else None
  | _ => None
  end.

Definition request_command (j : json) : res job_error (list string) :=
  match j with
  | JList l =>
    match mapM command_part l with
    | Some (_ :: _ as command) =>
      if 64 <? Z.of_nat (length command)
      then job_fail 400 "command must be a list of 1-64 non-empty strings" else Ok command
    | _ => job_fail 400 "command must be a list of 1-64 non-empty strings"
    end
  | _ => job_fail 400 "command must be a list of 1-64 non-empty strings"
  end.

Definition request_program (j : json) (programs : list string) : res job_error string :=
  match j with
  | JStr p => if mem_str p programs then Ok p else job_fail 403 "program is not allowed"
  | _ => job_fail 403 "program is not allowed"
  end.

(** One of the three limits. *)
Definition request_amount (j : json) (ceiling : Z) : res job_error Z :=
  match j with
  | JInt value =>
    if (1 <=? value) && (value <=? ceiling) then Ok value
    else job_fail (if ceiling <? value then 403 else 400) "must be an integer up to the ceiling"
  | _ => job_fail 400 "must be an integer up to the ceiling"
  end.

Definition request_sha (j : json) : res job_error (option string) :=
  match j with
  | JNull => Ok None
  | JStr sha => if fullmatch_class is_lower_hex 40 40 sha then Ok (Some sha)
                else job_fail 400 "expected_sha must be a full 40-hex commit"
  | _ => job_fail 400 "expected_sha must be a full 40-hex commit"
  end.

Definition tag_text (j : json) : option string := match j with JStr t => Some t | _ => None end.

Definition request_tags (j : json) : res job_error (list string) :=
  if truthy j then
    match j with
    | JList l => if 16 <? Z.of_nat (length l) then job_fail 400 "tags must be a list of at most 16 strings"
                 else match mapM tag_text l with
                      | Some tags => Ok tags
                      | None => job_fail 400 "tags must be a list of at most 16 strings"
                      end
    | _ => job_fail 400 "tags must be a list of at most 16 strings"
    end
  else Ok [].

(** What [BrokerIntent] refuses is a client error. *)
Definition or_client_error {A} (r : res request_error A) : res job_error A :=
  match r with Ok a => Ok a | Err _ => job_fail 400 "intent" end.

(** [_intent] *)
Definition gateway_intent (request : list (string * json)) (project : GatewayProjectConfig)
    : res job_error BrokerIntent :=
  raise? (GatewayJobError 400 "unsupported fields")
    when (existsb (λ k, negb (mem_str k REQUEST_FIELDS)) (map fst request)) in
  let? command := request_command (jget request "command") in
  let? program := request_program (jget request "program") project.(gp_programs) in
  let? cpus := request_amount (jget request "cpus") project.(gp_max_cpus) in
  let? mem_mb := request_amount (jget request "mem_mb") project.(gp_max_mem_mb) in
  let? wall := request_amount (jget request "wall_time_seconds") project.(gp_max_wall_time_seconds) in
  let? expected_sha := request_sha (jget request "expected_sha") in
  let? tags := request_tags (jget request "tags") in
  let? runtime := (match jget request "runtime_seconds" with
                   | JNull => Ok None
                   | JList l => Ok (Some l)
                   | _ => job_fail 400 "runtime_seconds must be a list [low, high]"
                   end) in
  let? job_name := or_client_error (opt_str_of (jget request "job_name")) in
  let? runtime := (match runtime with
                   | None => Ok None
                   | Some l => let? b := or_client_error (bounds_of l) in Ok (Some b)
                   end) in
  let i := {| i_command := command; i_cpus := cpus; i_mem_mb := mem_mb;
              i_wall_time_seconds := Some wall; i_priority := 0; i_auto_resume := false; i_retry := 0;
              i_job_name := job_name; i_program := Some program; i_expected_sha := expected_sha;
              i_tags := tags; i_clean_workdir_on_terminal := false;
              i_rerun_until_file_exists := None; i_rerun_max := 10; i_pool := None;
              i_runtime_seconds := runtime |} in
  raise? (GatewayJobError 400 "intent") when (negb (intent_valid i)) in
  Ok i.

Section with_hashing.
Context {H : Hashing} {T : TextForms} {P : PayloadCheck} {R : TarReader}.

(** [broker_key]: the client's key scoped to its owner. *)
Definition broker_key (key : caller) (client_key : string) : string :=
  "gw-" +:+ str_take 40 (sha256_hex
    (key.(c_project) +:+ String "000"%char (key.(c_principal) +:+ String "000"%char client_key))).

(** ** Ownership *)

(** [JobIndex.read] *)
Definition index_read (id : string) : jop (option job_owner) := λ s,
  if negb (BROKER_JOB_ID_PATTERN id) then (Err (GatewayJobError 404 "no such job"), s)
  else match s.(gs_index) !! id with
       | Some (OwnerFile o) => (Ok (Some o), s)
       | Some OwnerGarbage => (Err JobBroken, s)
       | None => (Ok None, s)
       end.

Definition owned_by (key : caller) (o : job_owner) : bool :=
  bool_decide ((o.(o_principal), o.(o_project)) = (key.(c_principal), key.(c_project))).

(** [JobIndex.record] *)
Definition index_record (ev : jenv) (id : string) (o : job_owner) : jop job_owner :=
  do? existing := index_read id in
  match existing with
  | Some e =>
    if negb (bool_decide ((e.(o_principal), e.(o_project)) = (o.(o_principal), o.(o_project))))
    then reject 409 "job ownership conflict"
    else ret e
  | None =>
    if ev.(j_index_stops) then throw JobBroken
    else λ s, (Ok o, set_index s (<[id := OwnerFile o]> s.(gs_index)))
  end.

(** [JobIndex.owned_ids]: in the order of the files' names. *)
Definition owned_ids (key : caller) (s : gateway) : list string :=
  List.filter (λ id, match s.(gs_index) !! id with
                     | Some (OwnerFile o) => owned_by key o
                     | _ => false
                     end) (sort_by String.leb (elements (dom s.(gs_index)))).

(** [JobIndex.owned]: another owner's job reads as missing. *)
Definition owned_job (id : string) (key : caller) : jop job_owner :=
  do? o := index_read id in
  match o with
  | Some o => if owned_by key o then ret o else reject 404 "no such job"
  | None => reject 404 "no such job"
  end.

(** ** Submission *)

(** The path [uploads.payload] gives, as the bytes found there. *)
Definition upload_bytes (upload_id : string) (key : caller) : jop (option string) := λ s,
  match (payload upload_id key s.(gs_uploads)).1 with
  | Ok _ => (Ok (dir_of s.(gs_uploads) upload_id).(ud_payload), s)
  | Err (UploadError status message) => (Err (GatewayJobError status message), s)
  | Err Broken => (Err JobBroken, s)
  end.

Definition request_upload (request : list (string * json)) : string :=
  match assoc "upload_id" request with Some j => py_str j | None => "" end.

(** [prepare]: the intent, the scoped key and the payload. *)
Definition prepare (project : GatewayProjectConfig) (key : caller) (request : list (string * json))
    : jop (BrokerIntent * string * string * string) :=
  match jget request "idempotency_key" with
  | JStr client_key =>
    if negb (CLIENT_KEY_RE client_key) then reject 400 "idempotency_key is required"
    else
      do? intent := lift (gateway_intent request project) in
      do? bytes := upload_bytes (request_upload request) key in
      match bytes with
      | None => reject 422 "payload"
      | Some bytes =>
        if negb (staged_entrypoint_ok intent.(i_command) bytes) then reject 422 "entrypoint"
        else ret (intent, client_key, broker_key key client_key, bytes)
      end
  | _ => reject 400 "idempotency_key is required"
  end.

(** Whether a job of the owner counts as active. *)
Definition job_active (ev : jenv) (st : store) (id : string) : res job_error bool :=
  match get st id with
  | Ok r => Ok (WAITING_STATES r.(rstate) || (bool_decide (r.(rstate) = PLACED) && ev.(j_uncollected) id))
  | Err e => if is_store_error e then Ok false else Err JobBroken
  end.

Fixpoint count_active_jobs (ev : jenv) (st : store) (ids : list string) : res job_error Z :=
  match ids with
  | [] => Ok 0
  | id :: ids =>
    let? active := job_active ev st id in
    let? rest := count_active_jobs ev st ids in
    Ok ((if active : bool then 1 else 0) + rest)
  end.

(** The limit on the owner's active jobs. *)
Definition check_active (ev : jenv) (project : GatewayProjectConfig) (key : caller) : jop unit :=
  do? waiting := (λ s, (count_active_jobs ev s.(gs_broker) (owned_ids key s), s)) in
  if project.(gp_max_active_jobs) <=? waiting
  then reject 429 "jobs are already active for this principal"
  else ret tt.

(** The handlers around the broker's intake. *)
Definition intake_error (e : broker_error) : job_error :=
  match e with
  | IdempotencyConflict => GatewayJobError 409 "this idempotency_key already names a different submission"
  | StoreBusy => GatewayJobError 503 "busy"
  | StoreError | RecordConflict | RecordCorrupt | PyValueError | OSError => GatewayJobError 422 "broker"
  | _ => JobBroken
  end.

(** [broker_service.accept]: the check that concerns pools has none here. *)
Definition broker_accept (ev : jenv) (bytes : string) (i : BrokerIntent) (scoped : string)
    : jop BrokerRecord := λ s,
  if negb ev.(j_broker_enabled) then (Err (GatewayJobError 422 "this host is not a broker"), s)
  else match accept ev.(j_store) s.(gs_broker) (Some bytes) i ev.(j_clock) (Keyed scoped) with
       | (Ok r, b) => (Ok r, set_broker s b)
       | (Err e, b) => (Err (intake_error e), set_broker s b)
       end.

(** ** What a client sees *)

(** [_CONSOLE_BLOCKER_CODES] *)
Definition CONSOLE_BLOCKER_CODES : list string :=
  ["scheduler-unsupported"; "unreachable"; "daemon-not-ready"; "state-root-unverified";
   "admission-blocked"; "queue-not-ready"; "snapshot-invalid"; "snapshot-future";
   "snapshot-stale"; "pool-mismatch"; "capacity-invalid"; "wall-time-unknown";
   "wall-time-exceeded"; "capacity-unknown"; "cpus-insufficient"; "memory-insufficient";
   "job-slots-insufficient"; "target-refused"; "job-refused"; "state-root-unknown";
   "completion-time"].

(** [_console_blocker] *)
Definition console_blocker (reason : json) : string :=
  let code := match reason with JStr s => (partition_colon s).1 | _ => "" end in
  if mem_str code CONSOLE_BLOCKER_CODES then code else "placement-blocked".

Record JobView : Type := MkJobView {
  jv_job_id : string;
  jv_state : broker_state;
  jv_created_at : pyfloat;
  jv_updated_at : pyfloat;
  jv_program : option string;
  jv_job_name : option string;
  jv_cpus : Z;
  jv_mem_mb : Z;
  jv_attempts : Z;
  jv_placed : bool;
  jv_waiting_reasons : list string;
  jv_cancellation : option (pyfloat * bool);
}.

(** [client_view]: a held decision's reasons are pairs (the last one of a host
    counts), an attempt's are an object. *)
Definition waiting_reasons (r : BrokerRecord) : list json :=
  match r.(held_blockers) with
  | [] => match current_attempt r with Some a => map snd a.(blockers) | None => [] end
  | pairs => map (λ kv, JStr kv.2) (foldl (λ acc kv, assoc_set kv.1 kv.2 acc) [] pairs)
  end.

Definition job_client_view (r : BrokerRecord) : JobView :=
  {| jv_job_id := r.(broker_job_id); jv_state := r.(rstate); jv_created_at := r.(created_at);
     jv_updated_at := r.(updated_at); jv_program := r.(intent).(i_program);
     jv_job_name := r.(intent).(i_job_name); jv_cpus := r.(intent).(i_cpus);
     jv_mem_mb := r.(intent).(i_mem_mb); jv_attempts := Z.of_nat (length r.(attempts));
     jv_placed := bool_decide (r.(rstate) = PLACED);
     jv_waiting_reasons := sorted_set (map console_blocker (waiting_reasons r));
     jv_cancellation := (λ c, (c.(requested_at), is_some c.(completed_at))) <$> r.(cancellation) |}.

(** [submit] *)
Definition submit (ev : jenv) (project : GatewayProjectConfig) (key : caller)
    (request : list (string * json)) : jop (JobView * bool) :=
  do? prepared := prepare project key request in
  let '(intent, client_key, scoped, bytes) := prepared in
  match broker_job_id_for_key scoped with
  | Err e => throw (intake_error e)
  | Ok replay_id =>
    do? existing := index_read replay_id in
    let replayed := is_some existing in
    do? _ := (if replayed then ret tt else check_active ev project key) in
    do? record := broker_accept ev bytes intent scoped in
    do? _ := index_record ev record.(broker_job_id)
      {| o_principal := key.(c_principal); o_project := key.(c_project); o_key_id := key.(c_key_id);
         o_upload_id := jget request "upload_id"; o_idempotency_key := client_key;
         o_submitted_at := iso ev.(j_now) |} in
    ret (job_client_view record, replayed)
  end.

(** [show] *)
Definition show (id : string) (key : caller) : jop JobView :=
  do? _ := owned_job id key in
  λ s, match get s.(gs_broker) id with
       | Ok r => (Ok (job_client_view r), s)
       | Err _ => (Err JobBroken, s)
       end.

Definition page_of (after : option string) (limit : Z) (ids : list string) : list string * bool :=
  let ids := match after with
             | Some a => List.filter (λ id, negb (String.leb id a)) ids
             | None => ids
             end in
  let page := take (Z.to_nat (Z.max 1 (Z.min limit (Z.of_nat MAX_LIST)))) ids in
  (page, bool_decide (length page < length ids)%nat).

(** One line of a listing; a record that cannot be read is left out. *)
Definition read_job (s : gateway) (id : string) : res job_error (option JobView) :=
  match get s.(gs_broker) id with
  | Ok r => Ok (Some (job_client_view r))
  | Err e => if is_store_error e then Ok None else Err JobBroken
  end.

(** [listing]: the jobs of a page and where the next one starts. *)
Definition listing (key : caller) (after : option string) (limit : Z) (s : gateway)
    : res job_error (list JobView * option string) :=
  let (page, more) := page_of after limit (owned_ids key s) in
  let? jobs := mapM_res (read_job s) page in
  Ok (omap (λ j, j) jobs, if more : bool then last page else None).
End with_hashing.
