(* ===== verification/GatewayJobGuarantees.v ===== *)
(** * What gateway submissions guarantee

    A client gets only intents its project's policy allows; a job belongs to
    one owner for good and only that owner sees it; a submission whose
    process died before the ownership record was written completes when it is
    repeated; admission keeps the owner's active jobs within the project's
    limit; pages of a listing show every job once. *)

From S2P Require Import Prelude Spec Overview Json BrokerRecord BrokerStore BrokerLifecycle BrokerGuarantees Relay RelayOps RelayLogic RelayGuarantees Connector ConnectorGuarantees Uploads GatewayJobs.

(** ** Policy *)

Lemma request_amount_ok j ceiling v : request_amount j ceiling = Ok v → 1 <= v <= ceiling.
Proof.
  unfold request_amount. destruct j; try done. destruct (_ && _) eqn:E; [|done]. intros [= <-]. propify. lia.
Qed.

Lemma request_program_ok j programs p : request_program j programs = Ok p → p ∈ programs.
Proof.
  unfold request_program. destruct j; try done. destruct (mem_str _ _) eqn:E; [|done]. intros [= <-].
  apply existsb_exists in E as (x & Hx & ->%String.eqb_eq). by apply list_elem_of_In.
Qed.

(** A client gets only what its project allows: the intent made from its
    request names an allowed program and stays within the ceilings on CPUs,
    memory and wall time, leaves every field the client may not set at its
    default (priority, pool, retries, hooks), and a relay connector rebuilds
    exactly this intent from the request it is sent. *)
Theorem gateway_intent_within_policy request project i :
  gateway_intent request project = Ok i →
  (∃ p, i.(i_program) = Some p ∧ p ∈ project.(gp_programs))
  ∧ 1 <= i.(i_cpus) <= project.(gp_max_cpus)
  ∧ 1 <= i.(i_mem_mb) <= project.(gp_max_mem_mb)
  ∧ (∃ w, i.(i_wall_time_seconds) = Some w ∧ 1 <= w <= project.(gp_max_wall_time_seconds))
  ∧ (i.(i_priority), i.(i_auto_resume), i.(i_retry), i.(i_clean_workdir_on_terminal),
     i.(i_rerun_until_file_exists), i.(i_rerun_max), i.(i_pool)) = (0, false, 0, false, None, 10, None)
  ∧ intent_valid i = true ∧ intent_from_request (intent_request i) = Ok i.
Proof.
  unfold gateway_intent. destruct (existsb _ _); [done|].
  destruct (request_command _) as [command|]; [|done]. simpl.
  destruct (request_program _ _) as [program|] eqn:Hp; [|done]. simpl.
  destruct (request_amount _ (gp_max_cpus project)) as [cpus|] eqn:Hc; [|done]. simpl.
  destruct (request_amount _ (gp_max_mem_mb project)) as [mem|] eqn:Hm; [|done]. simpl.
  destruct (request_amount _ (gp_max_wall_time_seconds project)) as [wall|] eqn:Hw; [|done]. simpl.
  destruct (request_sha _) as [sha|]; [|done]. simpl. destruct (request_tags _) as [tags|]; [|done]. simpl.
  destruct (match jget request "runtime_seconds" with JNull => _ | _ => _ end) as [runtime|]; [|done]. simpl.
  destruct (or_client_error _) as [name|]; [|done]. simpl.
  destruct (match runtime with None => _ | _ => _ end) as [bounds|]; [|done]. simpl.
  destruct (negb _) eqn:Hv; [done|]. intros [= <-]. apply negb_false_iff in Hv.
  apply request_program_ok in Hp. apply request_amount_ok in Hc, Hm, Hw.
  split_and!; simpl; eauto; try lia; by apply relay_request_roundtrip.
Qed.

Section with_hashing.
Context {H : Hashing} {Hok : HashingOk H} {T : TextForms} {P : PayloadCheck} {R : TarReader}.

(** ** Ownership *)

(** What a submission may do to the index: nothing, or add the caller's
    record of a job that had none. *)
Definition index_le (key : caller) (s s' : gateway) : Prop :=
  s'.(gs_index) = s.(gs_index)
  ∨ ∃ id o, s.(gs_index) !! id = None ∧ owned_by key o = true
            ∧ s'.(gs_index) = <[id := OwnerFile o]> s.(gs_index).

Lemma index_read_same id s : (index_read id s).2 = s.
Proof. unfold index_read. by repeat case_match. Qed.

Lemma prepare_same project key request s : (prepare project key request s).2 = s.
Proof.
  unfold prepare. destruct (jget request "idempotency_key"); try done. destruct (negb _); [done|].
  unfold bind, lift, upload_bytes. destruct (gateway_intent _ _); [|done].
  destruct (payload _ _ _).1 as [|[]]; try done. by repeat case_match.
Qed.

Lemma index_record_le ev id key o s :
  owned_by key o = true → index_le key s (index_record ev id o s).2.
Proof.
  intros Ho. unfold index_record, bind, index_read. destruct (negb _); [by left|].
  destruct (gs_index s !! id) as [[e|]|] eqn:E; [by left; case_match|by left|].
  destruct (j_index_stops ev); [by left|]. right. by exists id, o.
Qed.

Lemma index_le_eq key s s1 s' : s1.(gs_index) = s.(gs_index) → index_le key s1 s' → index_le key s s'.
Proof. unfold index_le. by intros ->. Qed.

Lemma check_active_cases ev project key s :
  (∃ e, check_active ev project key s = (Err e, s))
  ∨ (∃ n, check_active ev project key s = (Ok tt, s) ∧ n < project.(gp_max_active_jobs)
          ∧ count_active_jobs ev s.(gs_broker) (owned_ids key s) = Ok n).
Proof.
  unfold check_active, bind. destruct (count_active_jobs _ _ _) as [n|e]; [|by left; eexists].
  destruct (Z.leb_spec (gp_max_active_jobs project) n); [by left; eexists|]. right. by exists n.
Qed.

(** A submission up to the ownership record. *)
Lemma submit_elim ev project key request s (Q : res job_error (JobView * bool) * gateway → Prop) :
  (∀ e, Q (Err e, s)) →
  (∀ e b, Q (Err e, set_broker s b)) →
  (∀ i ck k bytes id existing r b o,
     prepare project key request s = (Ok (i, ck, k, bytes), s) → broker_job_id_for_key k = Ok id →
     index_read id s = (Ok existing, s) →
     (existing = None → ∃ n, n < project.(gp_max_active_jobs)
        ∧ count_active_jobs ev s.(gs_broker) (owned_ids key s) = Ok n) →
     ev.(j_broker_enabled) = true →
     accept ev.(j_store) s.(gs_broker) (Some bytes) i ev.(j_clock) (Keyed k) = (Ok r, b) →
     owned_by key o = true →
     Q ((do? _ := index_record ev r.(broker_job_id) o in ret (job_client_view r, is_some existing)) (set_broker s b))) →
  Q (submit ev project key request s).
Proof.
  intros He Hb Hk. unfold submit, bind at 1. pose proof (prepare_same project key request s) as Hp.
  destruct (prepare project key request s) as [[[[[i ck] k] bytes]|e] s1] eqn:Ep; simpl in Hp; subst s1; [|apply He].
  destruct (broker_job_id_for_key k) as [id|e] eqn:Ek; [|apply He].
  unfold bind at 1. pose proof (index_read_same id s) as Hi.
  destruct (index_read id s) as [[existing|e] s1] eqn:Ei; simpl in Hi; subst s1; [|apply He].
  unfold bind at 1.
  assert (Hgo : (existing = None → ∃ n, n < project.(gp_max_active_jobs)
        ∧ count_active_jobs ev s.(gs_broker) (owned_ids key s) = Ok n) →
    Q (bind (broker_accept ev bytes i k) (λ r, bind (index_record ev r.(broker_job_id)
         {| o_principal := key.(c_principal); o_project := key.(c_project); o_key_id := key.(c_key_id);
            o_upload_id := jget request "upload_id"; o_idempotency_key := ck;
            o_submitted_at := iso ev.(j_now) |}) (λ _, ret (job_client_view r, is_some existing))) s)).
  { intros Hn. unfold bind at 1, broker_accept. destruct (j_broker_enabled ev) eqn:Hen; [|apply He]. cbn [negb].
    destruct (accept _ _ _ _ _ _) as [[r|e] b] eqn:Ea; [|apply Hb].
    eapply Hk; try done. unfold owned_by. by rewrite bool_decide_eq_true_2. }
  destruct existing as [o|]; cbn [is_some]; [by apply Hgo|].
  destruct (check_active_cases ev project key s) as [[e ->]|(n & -> & Hn & Hc)]; [apply He|]. apply Hgo. eauto.
Qed.

Lemma submit_index ev project key request s : index_le key s (submit ev project key request s).2.
Proof.
  apply (submit_elim _ _ _ _ _ (λ x, index_le key s x.2)); [by left|by left|].
  intros i ck k bytes id existing r b o _ _ _ _ _ _ Ho.
  pose proof (index_record_le ev (broker_job_id r) key o (set_broker s b) Ho) as Hr. unfold bind.
  by destruct (index_record _ _ _ _) as [[?|?] s2].
Qed.

(** A history of submissions by any callers. *)
Definition run_submits (calls : list (jenv * GatewayProjectConfig * caller * list (string * json)))
    (s : gateway) : gateway :=
  foldl (λ s x, let '(ev, project, key, request) := x in (submit ev project key request s).2) s calls.

Lemma submits_keep_owner calls s id o :
  s.(gs_index) !! id = Some (OwnerFile o) → (run_submits calls s).(gs_index) !! id = Some (OwnerFile o).
Proof.
  revert s. induction calls as [|[[[ev project] key] request] calls IH]; intros s Hi; [done|]. apply IH.
  destruct (submit_index ev project key request s) as [->|(id' & o' & Hn & _ & ->)]; [done|].
  rewrite lookup_insert_ne; [done|congruence].
Qed.

(** A job belongs to one owner for good, and only its owner sees it: a job
    is shown exactly to callers of the principal and project that own it, and
    whatever is submitted later, by anyone, its ownership record stays as it
    is; to anyone else it reads as missing. *)
Theorem job_private calls s id o key :
  BROKER_JOB_ID_PATTERN id = true → s.(gs_index) !! id = Some (OwnerFile o) →
  let s' := run_submits calls s in
  s'.(gs_index) !! id = Some (OwnerFile o)
  ∧ (is_ok (show id key s').1 = true → owned_by key o = true)
  ∧ (owned_by key o = false → show id key s' = (Err (GatewayJobError 404 "no such job"), s')
                              ∧ id ∉ owned_ids key s').
Proof.
  intros Hid Hi s'. pose proof (submits_keep_owner calls s id o Hi) as Hi'. fold s' in Hi'.
  assert (Hr : index_read id s' = (Ok (Some o), s')) by (unfold index_read; by rewrite Hid, Hi').
  split_and!; [done|..].
  - unfold show, owned_job, bind. rewrite Hr. by destruct (owned_by key o).
  - intros Ho. split.
    + unfold show, owned_job, bind. rewrite Hr, Ho. done.
    + unfold owned_ids. rewrite list_elem_of_In, filter_In, Hi', Ho. by intros [_ ?].
Qed.

(** ** The broker's intake *)

Record taken_in (s : store) (bytes : string) (i : BrokerIntent) (now : pyfloat) (k : string)
    (r : BrokerRecord) (s' : store) : Prop := {
  ti_id : broker_job_id_for_key k = Ok r.(broker_job_id);
  ti_wf : store_wf s';
  ti_time : time_wf now = true;
  ti_tar : is_tarfile bytes = true;
  ti_unstaged : s'.(staging) !! staged_name r.(broker_job_id) = None;
  ti_held : ∃ rb, get s' r.(broker_job_id) = Ok rb ∧ intent_eqb rb.(intent) i = true
                  ∧ rb.(payload_sha256) = sha256_hex bytes;
  ti_others id : id ≠ r.(broker_job_id) → get s' id = get s id;
}.

Lemma link_payload_unstages ev s staged final adopt s' :
  link_payload ev s staged final adopt = (Ok tt, s') → s'.(staging) !! staged = None.
Proof.
  unfold link_payload. destruct (staging s !! staged); [|done]. case_bool_decide; [done|].
  assert (Hf : ∀ t : store, (let s'' := set_staging t (delete staged t.(staging)) in
    if bool_decide (fault ev = FaultPayloadSync) then (Err OSError, s'') else (Ok tt, s'')) = (Ok tt, s') →
    s'.(staging) !! staged = None).
  { intros t. simpl. case_bool_decide; [done|]. intros [= <-]. simpl. apply lookup_delete_eq. }
  destruct (is_some _); [destruct (_ && _); [apply Hf|done]|apply Hf].
Qed.

Lemma accept_takes_in ev s bytes i now k r s' :
  store_wf s → intent_valid i = true → accept ev s (Some bytes) i now (Keyed k) = (Ok r, s') →
  taken_in s bytes i now k r s'.
Proof using Hok.
  intros Hs Hi Ha. pose proof (accept_outcome_ok ev s (Some bytes) i now (Keyed k)) as Hout.
  rewrite Ha in Hout. unfold accept in Ha.
  destruct (accept_stage ev s (Some bytes) i now (Keyed k)) as [[p|e] s1] eqn:Es; [|done].
  assert (accept_args_ok i (Keyed k) = true) as Hargs by (unfold accept_args_ok; by rewrite Hi).
  destruct (accept_stage_sound _ _ _ _ _ _ _ _ Hs Hargs Es) as [[Hs1 _] Hp].
  specialize (Hp p eq_refl).
  assert (time_wf now = true) as Htime.
  { unfold accept_stage in Es. destruct (closed s); [done|]. destruct (finite_time _) as [t|] eqn:Ef; [|done].
    by apply time_wf_finite in Ef as [_ ?]. }
  assert (∃ id, broker_job_id_for_key k = Ok id ∧ p.(p_job_id) = id ∧ p.(p_keyed) = true ∧ p.(p_intent) = i
     ∧ p.(p_sha256) = sha256_hex bytes ∧ s1.(staging) !! staged_name id = Some bytes) as (id & Hk & Hid & Hkd & Hpi & Hsha & Hst).
  { unfold accept_stage in Es. destruct (closed s); [done|]. destruct (finite_time _); [|done].
    destruct (broker_job_id_for_key k) as [id|]; [|done]. destruct (_ || _); [done|]. injection Es as <- <-.
    exists id. simpl. by rewrite lookup_insert_eq. }
  destruct (commit_delivers _ _ _ _ _ Hs1 Hp Hkd Ha) as [Hrid (rb & Hg & He & Hsb)].
  destruct (accept_commit_sound _ _ _ _ _ Hs1 Hp Ha) as [Hs' _].
  rewrite Hid in Hrid, Hg. rewrite Hpi in He. rewrite Hsha in Hsb. subst id.
  assert (Htu : is_tarfile bytes = true ∧ s'.(staging) !! staged_name (p_job_id p) = None).
  { unfold accept_commit in Ha. rewrite Hst in Ha. destruct (is_tarfile bytes); [|done]. split; [done|].
    cbn [negb] in Ha. destruct (negb _); [done|]. rewrite Hkd in Ha. destruct (lock_busy ev); [done|].
    destruct (existing_record _ _) as [[e|]|]; [| |done].
    - injection Ha as _ <-. simpl. apply lookup_delete_eq.
    - destruct (link_payload _ _ _ _ _) as [[[]|] s2] eqn:El; [|done].
      apply link_payload_unstages in El. apply publish_new_cases in Ha as (_ & _ & ->). done. }
  destruct Htu as [Htar Hun]. split; try done; try (rewrite Hrid; done).
  - rewrite Hrid. by exists rb.
  - intros id' Hne. apply get_lookup; [transitivity false; [apply Hs'|symmetry; apply Hs]|].
    destruct Hout as [[-> _]|(_ & -> & _)]; [done|]. rewrite lookup_insert_ne; [done|].
    intros E%record_name_inj. congruence.
Qed.

Lemma gateway_intent_valid request project i : gateway_intent request project = Ok i → intent_valid i = true.
Proof.
  unfold gateway_intent. intros Hi. repeat (case_match; try done; simpl in Hi).
  all: try (by injection Hi as <-; apply negb_false_iff).
Qed.

Lemma prepare_ok project key request s i ck k bytes s' :
  prepare project key request s = (Ok (i, ck, k, bytes), s') →
  gateway_intent request project = Ok i ∧ staged_entrypoint_ok i.(i_command) bytes = true
  ∧ k = broker_key key ck.
Proof.
  unfold prepare, bind, lift, upload_bytes. destruct (jget request "idempotency_key") as [| | | |c| |]; try done.
  destruct (negb _); [done|]. destruct (gateway_intent _ _) as [i0|]; [|done].
  destruct (payload _ _ _).1 as [u|[]]; try done. destruct (ud_payload _) as [b|]; [|done].
  destruct (staged_entrypoint_ok _ _) eqn:E; [|done]. by intros [= <- <- <- <-].
Qed.

(** Preparing looks at the uploads only. *)
Lemma prepare_uploads project key request s s' o :
  s'.(gs_uploads) = s.(gs_uploads) → (prepare project key request s).1 = Ok o →
  prepare project key request s' = (Ok o, s').
Proof.
  destruct s as [x b u], s' as [x' b' u']. cbn [gs_uploads]. intros ->.
  unfold prepare, bind, lift, upload_bytes. cbn [gs_uploads]. destruct (jget request "idempotency_key") as [| | | |c| |]; try done.
  destruct (negb _); [done|]. destruct (gateway_intent _ _) as [i0|]; [|done]. simpl.
  destruct (payload _ _ _).1 as [u0|[]]; try done. destruct (ud_payload _) as [bytes|]; [|done].
  destruct (negb _); [done|]. by intros [= <-].
Qed.

(** ** The limit on active jobs *)

Definition counts (ev : jenv) (st : store) (id : string) : Z :=
  match job_active ev st id with Ok true => 1 | _ => 0 end.

(** The owner's jobs that count as active. *)
Definition active_jobs (ev : jenv) (key : caller) (s : gateway) : Z :=
  sumZ (counts ev s.(gs_broker)) (owned_ids key s).

Lemma count_active_sum ev st ids n : count_active_jobs ev st ids = Ok n → n = sumZ (counts ev st) ids.
Proof.
  revert n. induction ids as [|id ids IH]; intros n; simpl; [by intros [= <-]|]. unfold counts at 1.
  destruct (job_active ev st id) as [b|]; [|done]. simpl.
  destruct (count_active_jobs ev st ids) as [m|]; [|done]. intros [= <-]. rewrite (IH m) by done. by destruct b.
Qed.

(** The count depends on the broker's answers for these jobs only. *)
Lemma count_active_ext ev st st' ids :
  (∀ id, id ∈ ids → get st' id = get st id) → count_active_jobs ev st' ids = count_active_jobs ev st ids.
Proof.
  induction ids as [|id ids IH]; intros Hg; simpl; [done|]. unfold job_active.
  rewrite (Hg id), IH; [done| |by left]. intros x Hx. apply Hg. by right.
Qed.

Lemma elem_of_owned_ids id key s :
  id ∈ owned_ids key s ↔ ∃ o, s.(gs_index) !! id = Some (OwnerFile o) ∧ owned_by key o = true.
Proof.
  unfold owned_ids. rewrite list_elem_of_In, filter_In, <- list_elem_of_In, elem_of_sort_by, elem_of_elements, elem_of_dom.
  split.
  - intros [[f Hf] Ho]. rewrite Hf in Ho. destruct f as [o|]; [|done]. by exists o.
  - intros (o & -> & Ho). by split; [eexists|].
Qed.

Lemma owned_ids_NoDup key s : NoDup (owned_ids key s).
Proof.
  unfold owned_ids. apply NoDup_ListNoDup, List.NoDup_filter, NoDup_ListNoDup. rewrite sort_by_perm. apply NoDup_elements.
Qed.

Lemma owned_ids_insert key s id o b :
  s.(gs_index) !! id = None → owned_by key o = true →
  owned_ids key (set_index (set_broker s b) (<[id := OwnerFile o]> s.(gs_index))) ≡ₚ id :: owned_ids key s.
Proof.
  intros Hn Ho. apply NoDup_Permutation.
  - apply owned_ids_NoDup.
  - constructor; [|apply owned_ids_NoDup]. intros (o' & E & _)%elem_of_owned_ids. congruence.
  - intros x. rewrite elem_of_cons, !elem_of_owned_ids. simpl. destruct (decide (x = id)) as [->|Hne].
    + rewrite lookup_insert_eq. naive_solver.
    + rewrite lookup_insert_ne by done. naive_solver.
Qed.

Lemma counts_bound ev st id : 0 <= counts ev st id <= 1.
Proof. unfold counts. by destruct (job_active ev st id) as [[]|]. Qed.


(** ** Repeating an interrupted submission *)

Definition interrupted (ev : jenv) : jenv :=
  {| j_now := ev.(j_now); j_clock := ev.(j_clock); j_broker_enabled := ev.(j_broker_enabled);
     j_store := ev.(j_store); j_index_stops := true; j_uncollected := ev.(j_uncollected) |}.

Lemma count_active_interrupted ev st ids : count_active_jobs (interrupted ev) st ids = count_active_jobs ev st ids.
Proof. induction ids as [|id ids IH]; simpl; [done|]. by rewrite IH. Qed.

Lemma submit_run ev project key request s i ck k bytes id existing r b :
  prepare project key request s = (Ok (i, ck, k, bytes), s) → broker_job_id_for_key k = Ok id →
  index_read id s = (Ok existing, s) →
  (existing = None → ∃ n, n < project.(gp_max_active_jobs)
     ∧ count_active_jobs ev s.(gs_broker) (owned_ids key s) = Ok n) →
  ev.(j_broker_enabled) = true →
  accept ev.(j_store) s.(gs_broker) (Some bytes) i ev.(j_clock) (Keyed k) = (Ok r, b) →
  ∃ o, owned_by key o = true ∧ submit ev project key request s
  = (do? _ := index_record ev r.(broker_job_id) o in ret (job_client_view r, is_some existing)) (set_broker s b).
Proof.
  intros Hp Hk Hi Hn He Ha. unfold submit, bind at 1. rewrite Hp, Hk. unfold bind at 1. rewrite Hi. unfold bind at 1.
  assert (Hc : (if is_some existing then ret tt else check_active ev project key) s = (Ok tt, s)).
  { destruct existing as [o|]; [done|]. destruct (Hn eq_refl) as (n & Hlt & Hc). simpl.
    unfold check_active, bind. rewrite Hc. by rewrite (proj2 (Z.leb_gt _ _) Hlt). }
  rewrite Hc. unfold bind at 1, broker_accept. rewrite He. cbn [negb]. rewrite Ha.
  eexists. split; [|done]. unfold owned_by. by rewrite bool_decide_eq_true_2.
Qed.

(** What a first submission of [request] that succeeded says: it was prepared
    and admitted, the broker took it in as [r] (and keeps it as [rb]), and
    takes a repetition for the same job. *)
Record first_time (ev : jenv) (project : GatewayProjectConfig) (key : caller) (request : list (string * json))
    (s : gateway) (i : BrokerIntent) (ck k bytes : string) (r : BrokerRecord) (b : store) (rb : BrokerRecord) : Prop := {
  ft_prepare s0 : s0.(gs_uploads) = s.(gs_uploads) → prepare project key request s0 = (Ok (i, ck, k, bytes), s0);
  ft_key : broker_job_id_for_key k = Ok r.(broker_job_id);
  ft_pattern : BROKER_JOB_ID_PATTERN r.(broker_job_id) = true;
  ft_new : s.(gs_index) !! r.(broker_job_id) = None;
  ft_active : ∃ n, n < project.(gp_max_active_jobs) ∧ count_active_jobs ev s.(gs_broker) (owned_ids key s) = Ok n;
  ft_active_after : ∃ n, n < project.(gp_max_active_jobs)
    ∧ count_active_jobs ev b (owned_ids key (set_broker s b)) = Ok n;
  ft_enabled : ev.(j_broker_enabled) = true;
  ft_accept : accept ev.(j_store) s.(gs_broker) (Some bytes) i ev.(j_clock) (Keyed k) = (Ok r, b);
  ft_repeat : accept ev.(j_store) b (Some bytes) i ev.(j_clock) (Keyed k) = (Ok rb, b);
  ft_same : rb.(broker_job_id) = r.(broker_job_id);
}.

Lemma submit_first ev project key request s v s' :
  store_wf s.(gs_broker) → ev.(j_store) = calm → ev.(j_index_stops) = false →
  submit ev project key request s = (Ok (v, false), s') →
  ∃ i ck k bytes r b rb, first_time ev project key request s i ck k bytes r b rb
    ∧ v.(jv_job_id) = r.(broker_job_id).
Proof using Hok.
  intros Hwf Hcalm Hstop Hsub. revert Hsub.
  apply (submit_elim _ _ _ _ _ (λ x, x = (Ok (v, false), s') → _)); [done|done|].
  intros i ck k bytes id existing r b o Hp Hk Hi Hn Hen Ha Ho Hfin.
  destruct (prepare_ok _ _ _ _ _ _ _ _ _ Hp) as (Hint%gateway_intent_valid & Hentry & _).
  destruct (accept_takes_in _ _ _ _ _ _ _ _ Hwf Hint Ha) as [Hid Hwb Htime Htar Hun (rb & Hg & Heq & Hsha) Hoth].
  assert (id = broker_job_id r) as -> by congruence.
  destruct (get_ok _ _ _ Hg) as (_ & Hrb & Hpat).
  unfold bind, index_record, bind at 1, index_read in Hfin. unfold index_read in Hi. rewrite Hpat in Hfin, Hi.
  cbn [negb] in Hfin, Hi. simpl in Hfin.
  destruct (gs_index s !! broker_job_id r) as [[e|]|] eqn:E; [|done|].
  { injection Hi as <-. simpl in Hfin. revert Hfin. by destruct (negb _). }
  injection Hi as <-. rewrite Hstop in Hfin. injection Hfin as <- _.
  destruct (Hn eq_refl) as (n & Hlt & Hcount).
  exists i, ck, k, bytes, r, b, rb. split; [|done]. split; try done.
  - intros s0 E0. apply (prepare_uploads _ _ _ s); [done|by rewrite Hp].
  - by exists n.
  - exists n. split; [done|]. rewrite <- Hcount. apply count_active_ext.
    intros x (o' & Hx & _)%elem_of_owned_ids. simpl in Hx. apply Hoth. congruence.
  - rewrite Hcalm. rewrite (accept_replay b k (broker_job_id r) rb bytes i); try done; [|apply Hwb].
    by rewrite Heq, Hsha, String.eqb_refl.
Qed.

(** A submission whose process ends after the broker took the job in and
    before its owner was recorded is completed by repeating it: the repeat
    returns the job the broker already holds, adds nothing to the broker's
    store and records the owner, and further repeats change nothing. *)
Theorem submit_retry_completes ev project key request s v s' :
  store_wf s.(gs_broker) → ev.(j_store) = calm → ev.(j_index_stops) = false →
  submit ev project key request s = (Ok (v, false), s') →
  ∃ s1 s2 v2, submit (interrupted ev) project key request s = (Err JobBroken, s1)
    ∧ submit ev project key request s1 = (Ok (v2, false), s2)
    ∧ v2.(jv_job_id) = v.(jv_job_id) ∧ s2.(gs_broker) = s1.(gs_broker)
    ∧ v.(jv_job_id) ∈ owned_ids key s2
    ∧ submit ev project key request s2 = (Ok (v2, true), s2).
Proof using Hok.
  intros Hwf Hcalm Hstop (i & ck & k & bytes & r & b & rb & [Hprep Hk Hpat E Hn Hn' Hen Ha Hrep Hrb] & ->)%submit_first;
    [|done..].
  assert (Hread : ∀ s0, s0.(gs_index) = s.(gs_index) → index_read (broker_job_id r) s0 = (Ok None, s0)).
  { intros s0 E0. unfold index_read. by rewrite Hpat, E0, E. }
  destruct (submit_run (interrupted ev) project key request s i ck k bytes (broker_job_id r) None r b)
    as (o1 & _ & E1); [by auto..|by setoid_rewrite count_active_interrupted|done|done|].
  destruct (submit_run ev project key request (set_broker s b) i ck k bytes (broker_job_id r) None rb b)
    as (o2 & Ho2 & E2);
    [by auto..|].
  set (s2 := set_index (set_broker (set_broker s b) b) (<[broker_job_id r := OwnerFile o2]> s.(gs_index))).
  assert (Hread2 : index_read (broker_job_id r) s2 = (Ok (Some o2), s2)).
  { unfold index_read. rewrite Hpat. simpl. by rewrite lookup_insert_eq. }
  destruct (submit_run ev project key request s2 i ck k bytes (broker_job_id r) (Some o2) rb b)
    as (o3 & Ho3 & E3); [by auto..|].
  exists (set_broker s b), s2, (job_client_view rb). split_and!; try done.
  - rewrite E1. unfold index_record, bind. by rewrite Hread.
  - rewrite E2. unfold index_record, bind. rewrite Hrb, Hread by done. by rewrite Hstop.
  - apply elem_of_owned_ids. exists o2. split; [|done]. simpl. apply lookup_insert_eq.
  - rewrite E3. change (set_broker s2 b) with s2. unfold index_record, bind. rewrite Hrb, Hread2.
    unfold owned_by in Ho2, Ho3. apply bool_decide_eq_true in Ho2, Ho3.
    by rewrite bool_decide_eq_true_2 by congruence.
Qed.

(** ** Pages *)

(** Every page of a listing, each from where the one before said. *)
Fixpoint all_pages (n : nat) (key : caller) (after : option string) (limit : Z) (s : gateway)
    : res job_error (list JobView) :=
  let? page := listing key after limit s in
  match page.2, n with
  | None, _ => Ok page.1
  | Some next, S n => let? rest := all_pages n key (Some next) limit s in Ok (page.1 ++ rest)
  | Some _, O => Err JobBroken
  end.

Definition ascending : list string → Prop := StronglySorted (λ a b, String.leb b a = false).

Lemma owned_ids_ascending key s : ascending (owned_ids key s).
Proof.
  pose proof (owned_ids_NoDup key s) as Hnd.
  assert (Hs : StronglySorted (λ a b, String.leb a b = true) (owned_ids key s)).
  { unfold owned_ids. pose proof (sort_by_sorted String.leb (elements (dom (gs_index s)))) as Hs. revert Hs.
    generalize (sort_by String.leb (elements (dom (gs_index s)))). clear Hnd. intros l.
    induction 1 as [|x l Hs IH Hx]; simpl; [constructor|]. case_match; [|done]. constructor; [done|].
    rewrite Forall_forall in Hx |- *. intros y Hy. apply Hx.
    apply list_elem_of_In, filter_In in Hy as [Hy _]. by apply list_elem_of_In. }
  unfold ascending. revert Hnd. induction Hs as [|x l Hs IH Hx]; intros Hnd; [constructor|].
  apply NoDup_cons in Hnd as [Hn Hnd]. constructor; [auto|]. rewrite Forall_forall in Hx |- *.
  intros y Hy. destruct (String.leb y x) eqn:E; [|done]. specialize (Hx y Hy).
  assert (x = y) as -> by by apply String.leb_antisym. done.
Qed.

Lemma filter_false {A} (f : A → bool) l : (∀ x, x ∈ l → f x = false) → List.filter f l = [].
Proof. induction l as [|x l IH]; intros Hf; simpl; [done|]. rewrite (Hf x) by left. apply IH. set_solver. Qed.

Lemma filter_true {A} (f : A → bool) l : (∀ x, x ∈ l → f x = true) → List.filter f l = l.
Proof.
  induction l as [|x l IH]; intros Hf; simpl; [done|]. rewrite (Hf x) by left. f_equal. apply IH. set_solver.
Qed.

(** What lies after the last one seen. *)
Lemma ascending_after pre a rest :
  ascending (pre ++ a :: rest) → List.filter (λ id, negb (String.leb id a)) (pre ++ a :: rest) = rest.
Proof.
  intros Hs. rewrite List.filter_app. simpl. rewrite string_leb_refl. simpl. rewrite filter_false, filter_true; [done|..].
  - intros y Hy. apply StronglySorted_app_1_r in Hs. apply StronglySorted_inv in Hs as [_ Hs].
    rewrite Forall_forall in Hs. by rewrite (Hs y Hy).
  - intros x Hx. apply negb_false_iff. destruct (String.leb_total x a) as [|E]; [done|].
    apply StronglySorted_app_1_elem_of with (x1 := x) (x2 := a) in Hs; [congruence|done|by left].
Qed.

Lemma after_last key s pre rest :
  owned_ids key s = pre ++ rest →
  match last pre with
  | Some a => List.filter (λ id, negb (String.leb id a)) (owned_ids key s)
  | None => owned_ids key s
  end = rest.
Proof.
  intros E. pose proof (owned_ids_ascending key s) as Hs. rewrite E in Hs |- *.
  destruct pre as [|x pre _] using rev_ind; [done|]. rewrite last_snoc, <- app_assoc in *.
  by apply ascending_after.
Qed.

Lemma mapM_res_app {E A B} (f : A → res E B) l1 l2 ys :
  mapM_res f (l1 ++ l2) = Ok ys →
  ∃ ys1 ys2, mapM_res f l1 = Ok ys1 ∧ mapM_res f l2 = Ok ys2 ∧ ys = ys1 ++ ys2.
Proof.
  revert ys. induction l1 as [|x l1 IH]; intros ys; simpl; [by exists [], ys|].
  destruct (f x) as [y|]; [|done]. simpl. destruct (mapM_res f (l1 ++ l2)) as [zs|] eqn:Ez; [|done].
  intros [= <-]. destruct (IH zs eq_refl) as (ys1 & ys2 & -> & -> & ->). by exists (y :: ys1), ys2.
Qed.

Lemma pages_from n key limit s pre rest jobs :
  owned_ids key s = pre ++ rest → (length rest <= n)%nat → mapM_res (read_job s) rest = Ok jobs →
  all_pages n key (last pre) limit s = Ok (omap (λ j, j) jobs).
Proof.
  revert pre rest jobs. induction n as [|n IH]; intros pre rest jobs E Hn Hj.
  all: cbn [all_pages]; unfold listing, page_of; rewrite (after_last key s pre rest E).
  - destruct rest; [|simpl in Hn; lia]. injection Hj as <-. rewrite take_nil. done.
  - set (m := Z.to_nat _). assert (1 <= m)%nat by lia.
    case_bool_decide as Hm.
    + rewrite <- (take_drop m rest) in Hj, E. apply mapM_res_app in Hj as (j1 & j2 & Hj1 & Hj2 & ->).
      rewrite Hj1. cbn [fst snd]. rewrite length_take in Hm.
      destruct (last (take m rest)) as [a|] eqn:Ha.
      2: { apply last_None in Ha. destruct rest; [simpl in Hm; lia|]. destruct m; [lia|done]. }
      rewrite app_assoc in E. assert (length (drop m rest) <= n)%nat as Hd by (rewrite length_drop; lia).
      specialize (IH _ _ _ E Hd Hj2). rewrite last_app, Ha in IH.
      simpl. rewrite IH. simpl. by rewrite omap_app.
    + rewrite length_take in Hm. rewrite take_ge in * by lia. by rewrite Hj.
Qed.

(** The pages of a listing show every job once: following the pages from
    the first, whatever the page size asked for, ends and gives exactly the
    caller's jobs that can be read, in the order of their ids. *)
Theorem listing_complete key limit s jobs :
  mapM_res (read_job s) (owned_ids key s) = Ok jobs →
  all_pages (length (owned_ids key s)) key None limit s = Ok (omap (λ j, j) jobs).
Proof. by apply (pages_from _ key limit s []). Qed.
End with_hashing.
