(* ===== verification/ConnectorPush.v ===== *)
(** * Pushing results: [Connector._push_file] of [src/vq/gateway/connector.py]

    The connector sends a result file in chunks through the HTTP client of
    [src/vq/gateway/client.py], which repeats a request whose answer it did
    not get: the gateway may see one chunk several times, and answers a chunk
    it already has with the byte to resume at. *)

From S2P Require Import Prelude Spec Json BrokerRecord Relay RelayOps RelayLogic RelayGuarantees RelayResults.

Definition RESULT_CHUNK : Z := 8 * 1024 * 1024.
Definition RETRIES : nat := 5.
Definition RETRY_STATUSES (status : Z) : bool := (502 <=? status) && (status <=? 504).

(** What becomes of one attempt to send a request: it does not arrive, it
    arrives and its answer does not, or it is answered. *)
Inductive attempt : Type := Unsent | Unanswered | Answered.

(** [ClientError]: no answer, or an answer that refuses; an exception of the
    gateway that is no [RelayError] is answered 500.  [OutOfSteps] is the
    bound on requests. *)
Inductive client_error : Type := Unreachable | Refused (e : relay_error) | OutOfSteps.

Abbreviation cl A := (eff relay client_error A).

Definition answered_status (e : relay_error) : Z := opt_or (relay_status e) 500.

(** [_request]: the attempts of one request, at most [RETRIES] of them; each
    one's fate and the gateway's environment then are given. *)
Fixpoint attempts_of {A} (n : nat) (net : list (attempt * genv)) (serve : genv → op A) : cl A := λ s,
  match n, net with
  | S n, (fate, ev) :: net =>
    match fate with
    | Unsent => attempts_of n net serve s
    | Unanswered => attempts_of n net serve (serve ev s).2
    | Answered =>
      match serve ev s with
      | (Ok a, s') => (Ok a, s')
      | (Err e, s') =>
        if RETRY_STATUSES (answered_status e) && negb (Nat.eqb n 0) then attempts_of n net serve s'
        else (Err (Refused e), s')
      end
    end
  | _, _ => (Err Unreachable, s)
  end.

Definition client_request {A} : list (attempt * genv) → (genv → op A) → cl A := attempts_of RETRIES.

(** [handle.seek(sent); handle.read(RESULT_CHUNK)] *)
Definition chunk_at (content : string) (sent : Z) : string :=
  String.substring (Z.to_nat sent) (Z.to_nat (Z.min RESULT_CHUNK (str_len content))) content.

Section with_hashing.
Context {H : Hashing} {T : TextForms}.

(** One pass of the loop: the byte to go on from. *)
Definition push_chunk (net : list (attempt * genv)) (project job path content : string) (sent : Z) : cl Z :=
  catch (client_request net (λ ev, push_result ev project job path sent (chunk_at content sent)))
    (λ e, match e with Refused (ResumeAt _) => true | _ => false end)
    (λ e, match e with Refused (ResumeAt k) => ret k | _ => throw e end).

(** [_push_file]: [net] gives the fate of each request, [fuel] bounds their
    number. *)
Fixpoint push_file (fuel n : nat) (net : nat → list (attempt * genv)) (project job path content : string)
    (size sent : Z) : cl unit :=
  if negb ((sent <? size) || (size =? 0)) then ret tt
  else match fuel with
       | O => throw OutOfSteps
       | S fuel =>
         do? sent := push_chunk (net n) project job path content sent in
         if size =? 0 then ret tt else push_file fuel (S n) net project job path content size sent
       end.

(** ** Pushing one file *)

Lemma tree_of_with s id t : tree_of (with_incoming s id (Some t)) id = t.
Proof. unfold tree_of, with_incoming. by rewrite (proj1 (results_of_put _ _ _)). Qed.

Section file.
Context (project job path : string) (parts : list string) (r : RelayRecord) (c : RelayCollect).
Context (others : gmap string string).
Local Abbreviation target := (join_path parts).

(** The collection is pending, the path is free of conflicts, and the gateway
    holds [b] of the file beside the other files. *)
Record ready (s : relay) (b : string) : Prop := {
  rd_path : safe_parts path = Ok parts;
  rd_job : GW_JOB_RE job = true ∧ s.(r_jobs) !! job = Some (JobFile r) ∧ r.(g_project) = project
           ∧ r.(g_collect) = Some c ∧ c.(cl_state) = COLLECT_REQUESTED;
  rd_others : delete target (tree_of s job).(in_files) = others;
  rd_target : opt_or ((tree_of s job).(in_files) !! target) "" = b;
  rd_free : existsb (λ a, is_some (others !! a)) (ancestors parts) = false ∧ target ∉ ancestors parts;
  rd_dirs : target ∉ (tree_of s job).(in_dirs);
}.

Lemma ready_size s b : ready s b → tree_size (tree_of s job).(in_files) = tree_size others + str_len b.
Proof.
  intros [_ _ Ho Hb _ _]. rewrite <- Ho. destruct ((tree_of s job).(in_files) !! target) as [x|] eqn:E.
  - simpl in Hb. subst x. rewrite <- (insert_delete_id (in_files (tree_of s job)) target b) at 1 by done.
    rewrite tree_size_insert, lookup_delete_eq. change (str_len (opt_or None "")) with 0. lia.
  - simpl in Hb. subst b. rewrite delete_id by done. unfold str_len. simpl. lia.
Qed.

Lemma push_ready ev s b start data :
  ready s b → ev.(e_append_stops) = None → tree_size others + str_len b + str_len data <= c.(cl_byte_budget) →
  ∃ s', push_result ev project job path start data s
        = (if start =? str_len b then Ok (str_len b + str_len data) else Err (ResumeAt (str_len b)), s')
        ∧ ready s' (if start =? str_len b then b +:+ data else b)
        ∧ (tree_of s' job).(in_files) = (if start =? str_len b then <[target := b +:+ data]> (tree_of s job).(in_files)
                                         else (tree_of s job).(in_files)).
Proof.
  intros Hrd Hq Hb. pose proof (ready_size s b Hrd) as Hsz.
  destruct Hrd as [Hp (Hre & Hj & Hpr & Hc & Hst) Ho Ht [Hf Hna] Hd].
  unfold push_result, bind at 1, lift. rewrite Hp. unfold bind at 1, relay_find. rewrite Hre.
  unfold relay_read. rewrite Hre, Hj. cbn [negb]. unfold pending_collect. rewrite Hc, Hpr, String.eqb_refl, Hst.
  rewrite bool_decide_eq_true_2 by done. cbn [negb orb].
  unfold bind at 1. rewrite incoming_with. cbn [fst snd].
  rewrite (proj2 (Z.ltb_ge _ _)) by lia.
  assert (Hanc : existsb (λ a, is_some (in_files (tree_of s job) !! a)) (ancestors parts) = false).
  { rewrite <- Hf, <- Ho. clear -Hna. induction (ancestors parts) as [|a l IH]; [done|].
    apply not_elem_of_cons in Hna as [Hne Hna]. simpl. rewrite IH by done. by rewrite lookup_delete_ne. }
  rewrite Hanc. unfold bind at 1. rewrite set_incoming_with, with_incoming_twice.
  rewrite bool_decide_eq_false_2 by (rewrite elem_of_union, elem_of_list_to_set; tauto).
  rewrite Ht.
  assert (Hkeep : ∀ files, delete target files = others →
    ready (with_incoming s job (Some {| in_files := files;
       in_dirs := in_dirs (tree_of s job) ∪ list_to_set (ancestors parts) |})) (opt_or (files !! target) "")).
  { intros files Hdel. split; try done.
    - by rewrite tree_of_with.
    - by rewrite tree_of_with.
    - rewrite tree_of_with. simpl. rewrite elem_of_union, elem_of_list_to_set. tauto. }
  destruct (start =? str_len b); cbn [negb].
  - unfold bind. rewrite set_incoming_with, with_incoming_twice, Hq. eexists. split; [done|].
    rewrite tree_of_with. split; [|unfold landed; by rewrite Hq]. unfold landed. rewrite Hq. specialize (Hkeep (<[target := b +:+ data]> (in_files (tree_of s job)))).
    rewrite lookup_insert_eq in Hkeep. apply Hkeep. by rewrite delete_insert_eq.
  - eexists. split; [done|]. rewrite tree_of_with. split; [|done]. rewrite <- Ht. by apply Hkeep.
Qed.

(** A request that is answered within its attempts, on a gateway whose writes
    succeed. *)
Definition gets_answer (n : nat) (net : list (attempt * genv)) : Prop :=
  Forall (λ x, x.2.(e_append_stops) = None) net
  ∧ ∃ pre ev post, net = pre ++ (Answered, ev) :: post ∧ (length pre < n)%nat.

Lemma gets_answer_tail n fate ev net :
  fate ≠ Answered → gets_answer (S n) ((fate, ev) :: net) → gets_answer n net.
Proof.
  intros Hf [Hq (pre & ev' & post & E & Hlen)]. split; [by apply Forall_cons in Hq as [_ ?]|].
  destruct pre as [|x pre]; injection E as E1 E2; [congruence|]. exists pre, ev', post.
  split; [done|]. simpl in Hlen. lia.
Qed.

(** Where a chunk sent from [start] leaves the file. *)
Definition after_chunk (start : Z) (b data : string) : string :=
  if start =? str_len b then b +:+ data else b.

Lemma after_chunk_twice start b data :
  after_chunk start (after_chunk start b data) data = after_chunk start b data.
Proof.
  unfold after_chunk. destruct (start =? str_len b) eqn:E; [|by rewrite E].
  destruct (start =? str_len (b +:+ data)) eqn:E'; [|done]. rewrite str_len_app in E'.
  assert (str_len data = 0) as Hz by lia. destruct data; [by rewrite !string_app_nil|]. unfold str_len in Hz. simpl in Hz. lia.
Qed.

Lemma attempts_ready n net s b start data :
  ready s b → gets_answer n net →
  tree_size others + str_len (after_chunk start b data) + str_len data <= c.(cl_byte_budget) →
  ∃ out s', attempts_of n net (λ ev, push_result ev project job path start data) s = (out, s')
    ∧ (out = Ok (str_len (after_chunk start b data))
       ∨ out = Err (Refused (ResumeAt (str_len (after_chunk start b data)))))
    ∧ ready s' (after_chunk start b data)
    ∧ (start = str_len b → is_Some ((tree_of s' job).(in_files) !! target)).
Proof.
  revert s b net. induction n as [|n IH]; intros s b net Hrd Hans Hbud.
  { destruct Hans as [_ (pre & ev & post & _ & ?)]. lia. }
  destruct net as [|[fate ev] net]; [by destruct Hans as [_ ([] & ? & ? & [=] & _)]|].
  assert (Hq : e_append_stops ev = None) by by destruct Hans as [[? _]%Forall_cons _].
  assert (Hb1 : tree_size others + str_len b + str_len data <= cl_byte_budget c).
  { revert Hbud. unfold after_chunk. destruct (_ =? _); rewrite ?str_len_app; pose proof (str_len_nonneg data); lia. }
  destruct (push_ready ev s b start data Hrd Hq Hb1) as (s1 & E & Hrd1 & Hfiles). fold (after_chunk start b data) in Hrd1.
  destruct fate; cbn [attempts_of].
  - apply IH; try done. by apply (gets_answer_tail _ Unsent ev).
  - rewrite E. cbn [snd]. destruct (IH s1 (after_chunk start b data) net) as (out & s' & E' & Hout & Hrd' & Hsome); [done| |..].
    { by apply (gets_answer_tail _ Unanswered ev). }
    { by rewrite after_chunk_twice. }
    rewrite after_chunk_twice in Hout, Hrd'. exists out, s'. split_and!; try done. intros Hst.
    destruct (after_chunk start b data) eqn:Ea.
    + apply Hsome. unfold after_chunk in Ea. rewrite Hst, Z.eqb_refl in Ea.
      pose proof (str_len_app b data) as Hl. rewrite Ea in Hl. pose proof (str_len_nonneg b). pose proof (str_len_nonneg data).
      change (str_len "") with 0 in *. lia.
    + destruct Hrd' as [_ _ _ Ht _ _]. destruct (_ !! target); [by eexists|done].
  - rewrite E. unfold after_chunk in *. destruct (Z.eqb_spec start (str_len b)) as [Es|Es].
    + exists (Ok (str_len b + str_len data)), s1. split_and!; try done; [left; by rewrite str_len_app|].
      intros _. rewrite Hfiles, lookup_insert_eq. by eexists.
    + exists (Err (Refused (ResumeAt (str_len b)))), s1. split_and!; try done. by right.
Qed.

Section loop.
Context (net : nat → list (attempt * genv)) (content : string).
Context (Hnet : ∀ n, gets_answer RETRIES (net n)).
Context (Hroom : tree_size others + str_len content + Z.min RESULT_CHUNK (str_len content) <= c.(cl_byte_budget)).
Local Abbreviation size := (str_len content).

Lemma chunk_len sent : str_len (chunk_at content sent) <= Z.min RESULT_CHUNK size.
Proof using.
  unfold chunk_at. generalize (Z.to_nat sent) as k. intros k.
  assert (∀ m s k, str_len (String.substring k m s) <= Z.of_nat m) as Hs.
  { unfold str_len. intros m s0 k0. apply inj_le. revert m k0. induction s0 as [|x s0 IH]; intros m k0; simpl.
    - destruct k0, m; simpl; lia.
    - destruct k0 as [|k0]; [|apply IH]. destruct m as [|m]; simpl; [lia|]. specialize (IH m 0%nat). lia. }
  etrans; [apply Hs|]. rewrite Z2Nat.id; [done|]. pose proof (str_len_nonneg content). unfold RESULT_CHUNK. lia.
Qed.

Lemma push_chunk_ready n s b sent :
  ready s b → (∃ rest, content = b +:+ rest) → (∃ rest, content = after_chunk sent b (chunk_at content sent) +:+ rest) →
  ∃ s', push_chunk (net n) project job path content sent s
        = (Ok (str_len (after_chunk sent b (chunk_at content sent))), s')
    ∧ ready s' (after_chunk sent b (chunk_at content sent))
    ∧ (sent = str_len b → is_Some ((tree_of s' job).(in_files) !! target)).
Proof using Hnet Hroom.
  intros Hrd _ [rest Hrest]. pose proof (chunk_len sent) as Hc.
  destruct (attempts_ready RETRIES (net n) s b sent (chunk_at content sent) Hrd (Hnet n))
    as (out & s' & E & Hout & Hrd' & Hsome).
  { pose proof (f_equal str_len Hrest) as Hl. rewrite str_len_app in Hl. pose proof (str_len_nonneg rest). lia. }
  exists s'. split_and!; try done. unfold push_chunk, catch, client_request. rewrite E.
  by destruct Hout as [->| ->].
Qed.

(** The chunk that goes on from the end. *)
Lemma chunk_goes_on b rest :
  content = b +:+ rest → rest ≠ "" →
  ∃ x rest', chunk_at content (str_len b) = x ∧ content = (b +:+ x) +:+ rest' ∧ 0 < str_len x.
Proof using.
  intros E Hne. set (m := Z.to_nat (Z.min RESULT_CHUNK size)).
  assert (chunk_at content (str_len b) = str_take m rest) as ->.
  { unfold chunk_at. fold m. rewrite E, substring_app_skip; [done|]. unfold str_len. apply Nat2Z.id. }
  destruct (str_take_split m rest) as [rest' Er].
  exists (str_take m rest), rest'. split; [done|]. rewrite string_app_assoc, <- Er. split; [done|].
  rewrite str_take_len. pose proof (f_equal str_len E) as Hl. rewrite str_len_app in Hl.
  pose proof (str_len_nonneg b). assert (0 < str_len rest) by (destruct rest; [done|unfold str_len; simpl; lia]).
  unfold m, RESULT_CHUNK in *. lia.
Qed.

Lemma push_loop fuel n s b rest :
  0 < size → ready s b → content = b +:+ rest → (Z.to_nat (str_len rest) <= fuel)%nat →
  ∃ s', push_file fuel n net project job path content size (str_len b) s = (Ok tt, s') ∧ ready s' content.
Proof using Hnet Hroom.
  intros Hpos. revert n s b rest. induction fuel as [|fuel IH]; intros n s b rest Hrd E Hf.
  all: pose proof (f_equal str_len E) as Hl; rewrite str_len_app in Hl; pose proof (str_len_nonneg rest).
  - assert (rest = "") as -> by (destruct rest; [done|unfold str_len in Hf; simpl in Hf; lia]).
    rewrite string_app_nil in E. subst b. exists s. cbn [push_file]. rewrite Z.ltb_irrefl.
    by rewrite (proj2 (Z.eqb_neq _ _)) by lia.
  - cbn [push_file]. destruct (decide (rest = "")) as [->|Hne].
    { rewrite string_app_nil in E. subst b. exists s. rewrite Z.ltb_irrefl. by rewrite (proj2 (Z.eqb_neq size 0)) by lia. }
    destruct (chunk_goes_on b rest E Hne) as (x & rest' & Hx & E' & Hlx).
    pose proof (f_equal str_len E') as Hl'. rewrite !str_len_app in Hl'. pose proof (str_len_nonneg rest').
    rewrite (proj2 (Z.ltb_lt _ _)) by lia. cbn [orb negb].
    destruct (push_chunk_ready n s b (str_len b) Hrd) as (s1 & E1 & Hrd1 & _).
    { by exists rest. }
    { exists rest'. unfold after_chunk. by rewrite Z.eqb_refl, Hx. }
    unfold after_chunk in E1, Hrd1. rewrite Z.eqb_refl, Hx in E1, Hrd1. unfold bind. rewrite E1.
    rewrite (proj2 (Z.eqb_neq size 0)) by lia. apply (IH (S n) s1 (b +:+ x) rest'); [done|done|].
    apply (Nat.le_trans _ (Z.to_nat (str_len rest - 1))); lia.
Qed.

Lemma ready_files s b :
  ready s b → is_Some ((tree_of s job).(in_files) !! target) → (tree_of s job).(in_files) = <[target := b]> others.
Proof using.
  intros [_ _ Ho Ht _ _] [x Hx]. rewrite Hx in Ht. simpl in Ht. subst x. rewrite <- Ho.
  by rewrite insert_delete_id.
Qed.
End loop.

(** C26: pushing a result file ends, and with exactly its content on the
    gateway: whatever answers are lost and requests repeated, and whatever
    part of the file an earlier interrupted push left there, the loop stops
    after at most two requests more than the file has bytes, the file is
    complete and no other file of the collection changed; provided every
    request is answered within its attempts and the storage budget has room
    for the file and one more chunk. *)
Theorem push_file_converges net content s b rest fuel :
  ready s b → content = b +:+ rest → (∀ n, gets_answer RETRIES (net n)) →
  tree_size others + str_len content + Z.min RESULT_CHUNK (str_len content) <= c.(cl_byte_budget) →
  (Z.to_nat (str_len content) + 2 <= fuel)%nat →
  ∃ s', push_file fuel 0 net project job path content (str_len content) 0 s = (Ok tt, s')
        ∧ (tree_of s' job).(in_files) = <[target := content]> others.
Proof.
  intros Hrd E Hnet Hroom Hf. destruct fuel as [|fuel]; [lia|]. pose proof (str_len_nonneg content) as Hc.
  assert (Hfinish : ∀ s', 0 < str_len content → ready s' content → (tree_of s' job).(in_files) = <[target := content]> others).
  { intros s' Hpos Hrd'. apply ready_files; [done|]. destruct Hrd' as [_ _ _ Ht _ _].
    destruct (in_files (tree_of s' job) !! target); [by eexists|]. simpl in Ht. rewrite <- Ht in Hpos.
    by unfold str_len in Hpos. }
  pose proof (f_equal str_len E) as Hl. rewrite str_len_app in Hl.
  pose proof (str_len_nonneg b). pose proof (str_len_nonneg rest).
  destruct (Z.eqb_spec (str_len content) 0) as [Hz|Hz].
  - assert (content = "" ∧ b = "") as [-> ->].
    { split; [destruct content; [done|unfold str_len in Hz; simpl in Hz; lia]|].
      destruct b; [done|]. unfold str_len in *. simpl in *. lia. }
    destruct (push_chunk_ready net "" Hnet Hroom 0 s "" 0 Hrd) as (s1 & E1 & Hrd1 & Hsome); [by exists ""..|].
    exists s1. split; [|by apply ready_files; [|apply Hsome]]. cbn [push_file]. unfold bind. simpl. simpl in E1. by rewrite E1.
  - destruct (decide (b = "")) as [->|Hb].
    + assert (str_len rest = str_len content) as Hr by (rewrite E; done).
      destruct (push_loop net content Hnet Hroom (S fuel) 0 s "" rest) as (s' & Es & Hrd'); try done; [lia..|].
      exists s'. split; [exact Es|]. apply Hfinish; [lia|done].
    + assert (0 < str_len b) by (destruct b; [done|unfold str_len; simpl; lia]).
      cbn [push_file]. rewrite (proj2 (Z.ltb_lt _ _)) by lia. cbn [orb negb].
      assert (Ha : after_chunk 0 b (chunk_at content 0) = b).
      { unfold after_chunk. by rewrite (proj2 (Z.eqb_neq 0 (str_len b))) by lia. }
      destruct (push_chunk_ready net content Hnet Hroom 0 s b 0 Hrd) as (s1 & E1 & Hrd1 & _); [by exists rest|by exists rest; rewrite Ha|].
      rewrite Ha in E1, Hrd1. unfold bind. rewrite E1. rewrite (proj2 (Z.eqb_neq (str_len content) 0)) by done.
      destruct (push_loop net content Hnet Hroom fuel 1 s1 b rest) as (s' & Es & Hrd'); try done; [lia|lia|].
      exists s'. split; [done|]. apply Hfinish; [lia|done].
Qed.

(** The budget is checked before the offset. *)
Lemma push_over ev s b start data :
  ready s b → c.(cl_byte_budget) < tree_size others + str_len b + str_len data →
  ∃ s', push_result ev project job path start data s
        = (Err (RelayError 413 "these results exceed the remaining storage quota"), s')
        ∧ (tree_of s' job).(in_files) = (tree_of s job).(in_files).
Proof.
  intros Hrd Hb. pose proof (ready_size s b Hrd) as Hsz.
  destruct Hrd as [Hp (Hre & Hj & Hpr & Hc & Hst) _ _ _ _].
  unfold push_result, bind at 1, lift. rewrite Hp. unfold bind at 1, relay_find. rewrite Hre.
  unfold relay_read. rewrite Hre, Hj. cbn [negb]. unfold pending_collect. rewrite Hc, Hpr, String.eqb_refl, Hst.
  rewrite bool_decide_eq_true_2 by done. cbn [negb orb].
  unfold bind at 1. rewrite incoming_with. cbn [fst snd]. rewrite (proj2 (Z.ltb_lt _ _)) by lia.
  eexists. split; [done|]. by rewrite tree_of_with.
Qed.

(** Results that fit the storage budget can be refused as too big: when
    the answer to a file's only chunk is lost, the repeated request counts
    the bytes already stored a second time, is answered 413 instead of the
    byte to resume at, and the connector gives the collection up as failed,
    with the whole file on the gateway. *)
Theorem lost_answer_fails_push fuel net content s ev1 ev2 more :
  ready s "" → content ≠ "" → str_len content <= RESULT_CHUNK →
  net 0%nat = (Unanswered, ev1) :: (Answered, ev2) :: more → ev1.(e_append_stops) = None →
  tree_size others + str_len content <= c.(cl_byte_budget) < tree_size others + str_len content + str_len content →
  ∃ s', push_file (S fuel) 0 net project job path content (str_len content) 0 s
        = (Err (Refused (RelayError 413 "these results exceed the remaining storage quota")), s')
        ∧ (tree_of s' job).(in_files) !! target = Some content.
Proof.
  intros Hrd Hne Hlen Hnet Hq [Hfit Hover].
  assert (Hpos : 0 < str_len content) by (destruct content; [done|unfold str_len; simpl; lia]).
  assert (Hch : chunk_at content 0 = content).
  { unfold chunk_at. rewrite Z.min_r by done. unfold str_len. rewrite Nat2Z.id. simpl.
    rewrite <- (string_app_nil content) at 2. by rewrite substring_app_keep. }
  destruct (push_ready ev1 s "" 0 content Hrd Hq) as (s1 & E1 & Hrd1 & Hf1); [change (str_len "") with 0; lia|].
  change (0 =? str_len "") with true in E1, Hrd1, Hf1. cbv iota in E1, Hrd1, Hf1.
  destruct (push_over ev2 s1 content 0 content Hrd1) as (s2 & E2 & Hf2); [lia|].
  exists s2. split; [|rewrite Hf2, Hf1; apply lookup_insert_eq]. cbn [push_file].
  rewrite (proj2 (Z.ltb_lt _ _)) by lia. cbn [orb negb]. unfold bind, push_chunk, catch, client_request.
  rewrite Hnet, Hch. cbn [RETRIES attempts_of]. rewrite E1. cbn [snd]. by rewrite E2.
Qed.
End file.
End with_hashing.
