(* ===== verification/GatewayWitnesses.v ===== *)
(** * A small gateway

    One archive uploaded, submitted and its result pushed, on the checksum and
    printer of the broker's examples: the hypotheses of the gateway's theorems
    hold in it. *)

From S2P Require Import Prelude Spec Overview Json BrokerRecord BrokerStore BrokerLifecycle BrokerGuarantees BrokerWitnesses Relay RelayOps RelayLogic RelayGuarantees RelayResults Connector ConnectorGuarantees RelayWitnesses Uploads UploadGuarantees GatewayJobs GatewayJobGuarantees ConnectorPush.

#[global] Instance toy_tar : TarReader :=
  {| tar_read s := ([{| m_name := "run.py"; m_kind := MFile; m_size := str_len s |}], false) |}.

(** ** Uploads *)

Definition alice : caller := {| c_principal := "alice"; c_project := "chem"; c_key_id := "k1" |}.
Definition bob : caller := {| c_principal := "bob"; c_project := "chem"; c_key_id := "k2" |}.
Definition up_id : string := "u-0123456789abcdef".

Definition uquiet : uenv :=
  {| u_now := 0; u_draw := "0123456789abcdef"; u_stops := λ _, false; u_lands := 0; u_rm := λ _, None |}.
(** The metadata of a chunk or of a finalization is never written. *)
Definition udying : uenv :=
  {| u_now := 0; u_draw := ""; u_stops := λ n, Nat.eqb n 1; u_lands := 0; u_rm := λ _, None |}.

Definition half_sent : list (uenv * upload_call) :=
  [(uquiet, UCreate alice (JInt 7) (JStr (toy_sha "archive")) 1000);
   (uquiet, UAppend up_id alice 0 "arch")].
Definition all_sent : list (uenv * upload_call) :=
  half_sent ++ [(uquiet, UAppend up_id alice 4 "ive"); (uquiet, UFinalize up_id alice 1000)].

Definition meta_in (calls : list (uenv * upload_call)) : Upload :=
  match (dir_of (run_uploads calls ∅) up_id).(ud_meta) with
  | Some (MetaFile m) => m
  | _ => new_upload uquiet "" alice 0 ""
  end.

Lemma final_upload_verified_witness : archive_plain "archive".
Proof.
  refine (proj2 (proj1 (final_upload_verified all_sent up_id (meta_in all_sent) "archive" _ _ _)));
    vm_compute; reflexivity.
Defined.

Lemma uploads_within_quota_witness : usage_bytes "alice" "chem" (run_uploads all_sent ∅) <= 1000.
Proof.
  apply uploads_within_quota; [lia|]. repeat constructor; simpl; lia.
Defined.

Lemma upload_resumes_witness :
  let s' := run_uploads (chunk_calls uquiet up_id alice (str_len "arch") ["iv"; "e"]
                         ++ [(uquiet, UFinalize up_id alice 1000)]) (run_uploads half_sent ∅) in
  ∃ m', payload up_id alice s' = (Ok m', s') ∧ m'.(up_state) = STATE_FINAL
        ∧ (dir_of s' up_id).(ud_payload) = Some ("arch" +:+ joined ["iv"; "e"]).
Proof.
  refine (proj2 (upload_resumes uquiet up_id alice (run_uploads half_sent ∅) (meta_in half_sent) "arch"
                   ["iv"; "e"] 1000 _ _ _ _ _ _ _ _)).
  - intros n. reflexivity.
  - vm_compute. reflexivity.
  - vm_compute. reflexivity.
  - split_and!; vm_compute; reflexivity.
  - repeat constructor; vm_compute; discriminate.
  - vm_compute. reflexivity.
  - vm_compute. reflexivity.
  - vm_compute. reflexivity.
Defined.

(** A digest that gives its content away. *)
Definition clear_hash : Hashing := {| canonical_json := toy_json; sha256_hex := λ s, s |}.

Definition open_meta : Upload :=
  {| up_upload_id := up_id; up_principal := "alice"; up_project := "chem"; up_key_id := "k1"; up_size := 7;
     up_sha256 := "archive"; up_received := 4; up_state := STATE_OPEN; up_created_at := 0 |}.
Definition open_store : uploads :=
  {[ up_id := {| ud_meta := Some (MetaFile open_meta); ud_part := Some "arch"; ud_payload := None |} ]}.

Lemma interrupted_upload_strands_witness :
  ∃ m', meta_is (dir_of (run_uploads (H := clear_hash)
                    [(uquiet, UAppend up_id alice 4 "ive"); (uquiet, UFinalize up_id alice 1000)]
                    (run_upload (H := clear_hash) udying (UAppend up_id alice 4 "ive") open_store)) up_id) m'
        ∧ m'.(up_state) = STATE_OPEN.
Proof.
  destruct (interrupted_upload_strands (H := clear_hash) udying (UAppend up_id alice 4 "ive") open_store up_id alice
    open_meta "arch" [(uquiet, UAppend up_id alice 4 "ive"); (uquiet, UFinalize up_id alice 1000)])
    as (m' & Hm' & Ho & _); try (vm_compute; reflexivity).
  - intros x Hx. simpl in Hx. subst x. reflexivity.
  - exists "ive", 0. split; [left; split; [reflexivity|discriminate]|].
    intros E. apply (f_equal (λ s : uploads, ud_part (dir_of s up_id))) in E. vm_compute in E. discriminate E.
  - repeat constructor.
  - exists m'. split; [exact Hm'|exact Ho].
Defined.

(** ** Submissions *)

Definition chem : GatewayProjectConfig :=
  {| gp_programs := ["orca"; "vq"]; gp_max_cpus := 16; gp_max_mem_mb := 64000;
     gp_max_wall_time_seconds := 86400; gp_max_active_jobs := 1 |}.

Definition gw_request : list (string * json) :=
  [("upload_id", JStr up_id); ("command", JList [JStr "python"; JStr "run.py"]); ("program", JStr "orca");
   ("cpus", JInt 4); ("mem_mb", JInt 2000); ("wall_time_seconds", JInt 3600); ("tags", JList [JStr "a"]);
   ("runtime_seconds", JList [JInt 10; JInt 20]); ("idempotency_key", JStr "h2o-1")].

Definition jquiet : jenv :=
  {| j_now := 0; j_clock := FFin 1; j_broker_enabled := true; j_store := calm; j_index_stops := false;
     j_uncollected := λ _, true |}.

Definition empty_gateway : gateway :=
  {| gs_index := ∅; gs_broker := initial.(st); gs_uploads := run_uploads all_sent ∅ |}.

Definition submitted_gateway : gateway := (submit jquiet chem alice gw_request empty_gateway).2.
Definition submitted_view : option JobView :=
  match (submit jquiet chem alice gw_request empty_gateway).1 with Ok (v, false) => Some v | _ => None end.
Definition local_id : string := Eval vm_compute in
  match submitted_view with Some v => v.(jv_job_id) | None => "" end.

Lemma empty_broker_wf : store_wf empty_gateway.(gs_broker).
Proof. split; [reflexivity|]. intros k x Hx. vm_compute in Hx. discriminate Hx. Qed.

Lemma submitted_ok : ∃ v, submit jquiet chem alice gw_request empty_gateway = (Ok (v, false), submitted_gateway).
Proof.
  unfold submitted_gateway.
  assert (Hs : is_some submitted_view = true) by (vm_compute; reflexivity). unfold submitted_view in Hs.
  destruct (submit jquiet chem alice gw_request empty_gateway) as [[[v []]|e] s']; try discriminate Hs.
  exists v. reflexivity.
Qed.

Lemma gateway_intent_within_policy_witness :
  ∃ i, gateway_intent gw_request chem = Ok i ∧ intent_from_request (intent_request i) = Ok i.
Proof.
  destruct (gateway_intent gw_request chem) as [i|e] eqn:E; [|vm_compute in E; discriminate E].
  exists i. split; [reflexivity|]. exact (proj2 (proj2 (proj2 (proj2 (proj2 (proj2
    (gateway_intent_within_policy gw_request chem i E))))))).
Defined.


Lemma submit_retry_completes_witness :
  ∃ s1 s2 v2, submit (interrupted jquiet) chem alice gw_request empty_gateway = (Err JobBroken, s1)
    ∧ submit jquiet chem alice gw_request s1 = (Ok (v2, false), s2).
Proof.
  destruct submitted_ok as [v Hv].
  destruct (submit_retry_completes jquiet chem alice gw_request empty_gateway v submitted_gateway empty_broker_wf
              eq_refl eq_refl Hv) as (s1 & s2 & v2 & H1 & H2 & _).
  exists s1, s2, v2. split; [exact H1|exact H2].
Defined.

Definition submitted_owner : job_owner :=
  match submitted_gateway.(gs_index) !! local_id with
  | Some (OwnerFile o) => o
  | _ => {| o_principal := ""; o_project := ""; o_key_id := ""; o_upload_id := JNull; o_idempotency_key := "";
            o_submitted_at := 0 |}
  end.

Lemma job_private_witness :
  show local_id bob (run_submits [(jquiet, chem, bob, gw_request)] submitted_gateway)
  = (Err (GatewayJobError 404 "no such job"), run_submits [(jquiet, chem, bob, gw_request)] submitted_gateway).
Proof.
  refine (proj1 (proj2 (proj2 (job_private [(jquiet, chem, bob, gw_request)] submitted_gateway local_id
                                 submitted_owner bob _ _)) _)); vm_compute; reflexivity.
Defined.

Lemma listing_complete_witness :
  ∃ jobs, all_pages 1 alice None 1 submitted_gateway = Ok jobs ∧ length jobs = 1%nat.
Proof.
  pose proof (listing_complete alice 1 submitted_gateway) as Hl.
  destruct (mapM_res (read_job submitted_gateway) (owned_ids alice submitted_gateway)) as [jobs|e] eqn:E;
    [|vm_compute in E; discriminate E].
  assert (Hn : length (owned_ids alice submitted_gateway) = 1%nat) by (vm_compute; reflexivity).
  rewrite Hn in Hl. exists (omap (λ j, j) jobs). split; [exact (Hl jobs eq_refl)|].
  vm_compute in E. injection E as <-. vm_compute. reflexivity.
Defined.

(** ** Results *)

(** Accepted, with results asked for within [budget] bytes. *)
Definition collecting (budget : Z) : list (genv * relay_call) :=
  reclaimed
  ++ [(second 201, CallAck "chem" (item_id KSubmit gw_id) 2 "accepted" (Some gw_broker_id) None JNull);
      (second 210, CallRequestResults gw_id "alice" "chem" budget);
      (second 211, CallClaim "chem" 10 (Some 1000))].

Definition collect_in (budget : Z) : RelayCollect :=
  opt_or (record_in (collecting budget)).(g_collect) (requested_collect None 0 0).

(** Every first answer is lost. *)
Definition lossy (n : nat) : list (attempt * genv) := [(Unanswered, second 220); (Answered, second 221)].

Definition log_parts : list string := ["out"; "log.txt"].

Lemma collecting_ready budget :
  (budget = 15 ∨ budget = 100) →
  ready "chem" gw_id "out/log.txt" log_parts (record_in (collecting budget)) (collect_in budget) ∅
    (run_calls (collecting budget) empty_relay).2 "".
Proof.
  intros [->| ->]; split.
  all: try (vm_compute; reflexivity); try (split_and!; vm_compute; reflexivity).
  all: try (split; [vm_compute; reflexivity|]); apply (bool_decide_eq_true_1 _); vm_compute; reflexivity.
Qed.

Lemma push_file_converges_witness :
  ∃ s', push_file 13 0 lossy "chem" gw_id "out/log.txt" "hello world" (str_len "hello world") 0
          (run_calls (collecting 100) empty_relay).2 = (Ok tt, s')
        ∧ (tree_of s' gw_id).(in_files) = <[join_path log_parts := "hello world"]> ∅.
Proof.
  apply (push_file_converges "chem" gw_id "out/log.txt" log_parts (record_in (collecting 100)) (collect_in 100) ∅
           lossy "hello world" _ "" "hello world").
  - apply collecting_ready. right. reflexivity.
  - reflexivity.
  - intros n. split; [repeat constructor|]. exists [(Unanswered, second 220)], (second 221), [].
    split; [reflexivity|]. simpl. unfold RETRIES. lia.
  - vm_compute. discriminate.
  - vm_compute. lia.
Defined.

Lemma lost_answer_fails_push_witness :
  ∃ s', push_file 1 0 lossy "chem" gw_id "out/log.txt" "hello world" (str_len "hello world") 0
          (run_calls (collecting 15) empty_relay).2
        = (Err (Refused (RelayError 413 "these results exceed the remaining storage quota")), s')
        ∧ (tree_of s' gw_id).(in_files) !! join_path log_parts = Some "hello world".
Proof.
  apply (lost_answer_fails_push "chem" gw_id "out/log.txt" log_parts (record_in (collecting 15)) (collect_in 15) ∅
           0 lossy "hello world" _ (second 220) (second 221) []).
  - apply collecting_ready. left. reflexivity.
  - discriminate.
  - vm_compute. discriminate.
  - reflexivity.
  - reflexivity.
  - split; [vm_compute; discriminate|vm_compute; reflexivity].
Defined.
